(* ===== verification/_CoqProject ===== *)
-Q . S2P
Prelude.v
GoText.v
GoPath.v
GoJson.v
GoIO.v
RunnerWire.v
GoTime.v
RunnerProtocol.v
RunnerCodec.v
RunnerResults.v
Sha256.v
Buffers.v
Fat16.v
ArchiveJournal.v
ArchiveSafety.v
ArchiveLive.v
ArchivePublish.v
ArchiveCopy.v
ArchiveExtract.v
ArchiveRestore.v
ArchiveCreate.v
ArchiveRoundTrip.v
RunnerServer.v
ClaimData.v
Slug.v
Labels.v
Identity.v
Journal.v
ClaimStore.v
ClaimOps.v
FixedTx.v
FixedFrame.v
FixedEngine.v
FixedSafety.v
FixedCustody.v
FixedDelete.v
FixedRelease.v
FixedResolve.v
Retention.v
TestResults.v
Shard.v
GoGlob.v
SyncRules.v
SyncManifest.v
ManagedSync.v
GoRegexp.v
Redaction.v
DiagnosticPatterns.v
