(* ===== verification/Prelude.v ===== *)
(** * Crabbox: a verification library

    Crabbox leases machines from cloud and VM providers, copies a working tree
    to them and runs commands there.  This library models the parts of the Go
    program ([internal/]) that decide who owns a lease, what is durable when
    something fails, what is sent to a machine and what a copied archive can do
    to a file system, and proves them correct.

    ** The program's parts and how they interact

    - A lease is known locally by its claim, a JSON file in the claims
      directory ([cli/claim.go], [cli/claim_transaction.go]).  Every change of a
      claim goes through a transaction that holds the claim's lock and compares
      the file with what the caller expects.
    - A lease with a caller-supplied identity is acquired, inspected and
      deleted by the fixed-lease engine ([cli/fixed_lease*.go]).  It keeps a
      journal in the claim, and drives a provider adapter (Submit, Observe,
      DeleteExact) from inside one session of the claim's lock.  A lease whose
      disk is retained is paused and resumed by
      [cli/fixed_session_retention.go], with the same journal.  A command that
      names such a lease gets its target from [cli/fixed_lease_resolve.go].
    - Resources created for a lease carry labels ([cli/provider_labels.go]) from
      which the reaper ([cli/pool.go]) decides what to remove, and names derived
      from the lease's slug ([cli/slug.go]).
    - Files are copied by archives ([runner/runnerfs/]): one is created from a
      source, extracted into a stage, and published over its destination by a
      crash-safe journal.  Archives and reports travel in frames
      ([runner/runnerwire/]) between the caller and a helper on the machine
      ([runner/]), which also collects test reports ([runnerfs/results.go]).
    - A working tree is synchronised by a manifest of its files ([cli/repo.go]),
      which ordered rules select from what git lists; the rules also tell a
      watcher ([cli/watch.go]) where to look, and this program's own state is
      kept out ([cli/managed_state_sync.go]).
    - A sharded run ([cli/shard.go]) leases a machine per shard from a pool of
      workers, merges the test reports ([cli/results_parse.go]) and gives one
      verdict.
    - Diagnostics are cleared of credentials before they are shown
      ([cli/diagnostic_redaction.go]).
    - Virtual machines get their cloud-init data on a disk image built in memory
      ([fat16/image.go]).
    - Output of commands is kept by bounded buffers ([tailbuffer], [prefixbuffer]).

    ** Files

    Language and standard library:
    - [Prelude]: errors, the state and error monad and what its programs keep
      ([keeps]), tactics, the hint database, list and integer lemmas.
    - [GoText]: strings, UTF-8, [strconv], [hex], FNV.  [GoPath]: [path] and
      [filepath] on POSIX.  [GoTime]: times and RFC 3339 text.  [Sha256]:
      executable SHA-256.  [GoJson]: JSON text, read, printed and compacted.
      [GoGlob]: [filepath.Match].  [GoRegexp]: regular expressions, matched as the
      library prefers.  [GoIO]: readers and writers; [GoIO.Source] with [GoIO.SourceLaws] is the
      interface of an [io.Reader], against which code that reads is proved.

    Claims:
    - [ClaimData]: the claim record and the journal inside it.
    - [Identity]: lease identifiers, claim paths, identity checks of a release.
    - [ClaimStore]: the claims directory, locks, transactions, durable
      replacement and removal.  State: the claim files, the lock and the
      outside world; every interaction can fail as the environment decides.
    - [ClaimOps]: claiming for a repository, touches, endpoint and label updates,
      listing and resolution of identifiers.

    Fixed leases:
    - [Journal]: the pure part (journals, retention windows, tombstones).
    - [FixedTx]: the transaction operations an adapter may use; an adapter is
      any program over them ([FixedTx.prog]).
    - [FixedEngine]: acquisition, deletion and inspection.
    - [FixedFrame], [FixedSafety], [FixedCustody], [FixedDelete]: their theorems.
    - [FixedRelease]: finalisation of a release, tombstones found again, recovered
      claims, readiness, witnesses and lookups.
    - [FixedResolve]: the target of a lease for a command.
    - [Retention]: [MutateFixedRetention] and its theorems.

    Labels and names: [Labels], [Slug].  Output: [Buffers].  Disk images:
    [Fat16], the builder over one byte array with checked slices, and a reader of
    FAT16 volumes as its specification.

    Archives:
    - [ArchiveJournal]: the journal record, its private file with hard links,
      workspaces, publication, recovery and adoption of legacy data.
    - [ArchiveSafety], [ArchiveLive], [ArchivePublish]: its theorems.
    - [ArchiveCopy]: validation of names, limits and extraction.
    - [ArchiveExtract]: confinement.  [ArchiveRestore]: extraction where nothing
      fails.
    - [ArchiveCreate], [ArchiveRoundTrip]: creation and the round trip.

    Runner:
    - [RunnerWire]: frames.  The body of a frame is itself a [Source].
    - [RunnerProtocol]: metadata, [ReadResponse] and [Client.Collect].
    - [RunnerCodec]: what [json.Marshal] makes of the metadata, and that it is
      decoded again ([RunnerCodec.EncodedLaws], one instance for each type).
    - [RunnerResults]: discovery and collection of reports.
    - [RunnerServer]: requests and the helper's side.  The archive operations
      are an interface, [RunnerServer.ArchiveFS], with its laws.

    Runs and synchronisation:
    - [SyncRules]: the rules, the decision about a path, the watcher's scope.
    - [SyncManifest]: git's lists, the manifest and its limits.
    - [ManagedSync]: paths resolved through links, the place of the managed state,
      and the whole listing ([BuildSyncManifestFiltered]).
    - [TestResults]: summaries of decoded reports.  [Shard]: the worker pool as a
      transition system, the verdict, and the line writers.
    - [Redaction]: passes, markers and ranges, proved for any patterns with
      [Redaction.PatternLaws].  [DiagnosticPatterns]: the program's patterns,
      which have them.

    ** What the theorems show

    - Write-ahead and custody (C1 to C7, C31 to C36).  For every adapter and every
      failure of the store: a creation, a deletion and a lifecycle change are
      announced on disk before the provider is asked; nothing is submitted
      twice; a claim that may own a resource is never lost; a deletion is
      fenced by the exact claim and leaves a tombstone; an adapter cannot
      retarget a claim, by the transaction's operations or its own writes; the
      finalisation of a release is fenced and, for a well-formed claim, its
      tombstone is found again; lifecycle changes start from and leave coherent
      claims; polling ends with the context; resolving a lease is fenced, and
      reading it changes nothing.
    - Archives (C8 to C12).  A publication interrupted at any system call, any
      number of times, completes when an attempt is left alone (if the
      destination's path is UTF-8 text, which the journal needs); no data is
      lost meanwhile; extraction of hostile input into a stage without links
      adds only files and directories beneath the stage and within the limits;
      copying a tree through an archive reproduces it; creation terminates on
      cyclic links.
    - Runner (C13 to C17, C19, C20).  What the helper collects reaches the caller
      exactly while paths keep naming the same files, and the caller gets an
      error wherever the helper or the stream fails; the helper changes the box
      only for a request that has arrived whole; a response is accepted only as a whole, and collecting returns
      exactly what was sent; a frame is read back from any cutting of the
      stream; what is collected stays within limits that the other end accepts;
      discovery in one pass with bounded memory equals ranking everything.
    - Disk images (C18).  A FAT16 reader that shares nothing with the builder
      finds exactly the given files in the image, and what does not fit is
      refused.
    - Sharded runs (C21 to C23).  In every interleaving a lease that was taken is
      released unless it is to be kept; a run passes only if every shard ran and
      passed, and its reports neither list nor count a failure; the workers
      finish.
    - Synchronisation (C24 to C26).  The manifest is exactly what the rules select;
      its paths stay below the root and away from protected paths and the
      managed state, also where a directory on the way is a link; the watcher descends to every path that
      would be sent.
    - Diagnostics (C27).  No secret is left outside a marker, and redacting again
      changes nothing.
    - Claims (C28 to C30, C37, C38).  Replacement is a compare-and-swap and
      no update is lost in any interleaving; transactions are atomic;
      resolution is unambiguous and ownership of a repository is respected.
    - Time and names (C39, C40).  Touches never extend a lease past its limits;
      claim paths are confined and injective.

    More is proved in the files: the buffers equal their reference definitions
    ([Buffers]), an incomplete frame is refused ([RunnerWire]), stale callers of
    the store have no effect ([ClaimStore]), deadlines are granted only by valid
    windows and tombstones validate ([Journal]), the reaper removes exactly the
    expired resources ([Labels]), slugs are normal and free ([Slug]), the lines of
    shards stay whole ([Shard]), protected paths are excluded by the rules alone
    ([SyncRules]), and the cache of resolved directories changes no answer
    ([ManagedSync]).

    ** Modelling conventions

    A Go function that changes state is a function in the monad [M]: the state
    reached before an error is kept.  [error] keeps the exit code and the format
    string, without its arguments.  A 64-bit integer is a [Z], with wrap-around
    written out where the code can overflow; a string is a sequence of bytes.  A
    panic is an error of its own ([Panic]) or [None].  Claims are values, so an
    object shared through a pointer is re-read from the record that owns it.

    Parameters.  Code outside the repository is an argument of the definitions
    that use it: the JSON codec of attempts and the length of a record's JSON,
    [time.ParseDuration], the provider registry, the effects of adapters, the
    clock, random bytes, inode numbers, the results of system calls, and what the
    gzip and tar readers deliver, what opening a report gives, decoded XML, git's
    answers, the metadata of paths ([lstat], [stat], [filepath.EvalSymlinks]), the
    time zone, and the text of an error.  No theorem assumes the environment
    succeeds unless its statement says so.

    Fuel.  [GoText.digits_fuel] and the recursion of [ArchiveCreate] have fuel
    computed from their input and proved sufficient (C12 for creation, fuel twice
    the size of the source plus two).  Parsing JSON has fuel four times the length
    of the text plus four; a loop over a source has one more turn than
    [GoIO.reads] allows reads; [ReadResponse] one more than there are bytes (each
    turn takes a frame).  The theorems about them give the result itself.  The
    polling loop of [Retention] runs for a number of rounds with a result of its own for not having finished, and C34
    shows it finishes once the context ends.  The loops over a text have as many
    turns as it has bytes left: a step of [GoGlob.match_loop] takes a chunk, one
    of [SyncRules.dirs_above] a component, one of [Redaction.marker_ranges] or
    [Redaction.occurrences] at least a byte, a repetition of [GoRegexp.run] at
    least a byte.  The 64 passes of a redaction and the 129 calls of a resolution
    are the program's own limits.  Resolving a name has [ArchiveCopy.path_max]
    steps and then fails, as the system does for too many links.  [os.RemoveAll] may stop after
    any of its removals.

    ** Not modelled

    - Finding the journal directory ([openArchiveJournal]) and the protocol of
      its lock file; power loss that forgets synced data; the bytes of gzip and
      tar; resolution of host paths ([ArchiveTarget], [resolvePathParent]);
      [StageArchive]; links on the way to the journal and its workspaces, whose
      paths are physical ones.
    - The text of claim files (a file holds a claim or fails to decode), migration
      of claim namespaces, and the lock files of claims.
    - Attempts in older JSON formats and fingerprints of intents
      ([fixed_lease_protocol.go]).
    - [Client.Upload] and [Client.Download], the two pipes of an exchange, base64
      transport; [containsJUnitFailure] (an XML tokenizer, a parameter); process
      set-up.
    - Collecting configured secrets by reflection; fingerprints of a tree and git
      seeding; nested repositories of a plain directory ([sync_source.go]); the
      Windows and macOS spellings of a path; [ReclaimFixedLease]; holds and
      pruning of claims.
    - The provider adapters (about eighty integrations with external services;
      the engine's theorems hold for all programs in their place), rsync and
      remote commands, SSH, the coordinator and controller, pools and ponds,
      desktop and VNC: these drive processes and networks.  Configuration and
      flags: declarative tables. *)

From Stdlib Require Import ZArith Lia.
From stdpp Require Import gmap strings prelude.

(** ** Errors and results

    A Go [error] value.  [Exit] is [cli.Exit] (internal/cli/errors.go), kept
    with its exit code and its format string; [Msg] is [errors.New] or
    [fmt.Errorf] without a wrapped error; [Wrap] is [fmt.Errorf] with [%w];
    [Join] is [errors.Join] of two errors; [Rejected] is
    [*FixedCreateRejected]; [Panic] is a run-time panic. *)
Inductive error :=
  | Exit (code : Z) (format : string)
  | Msg (format : string)
  | Wrap (format : string) (cause : error)
  | Join (first second : error)
  | Rejected (cause : error)
  | Panic (what : string).
#[export] Instance error_eq : EqDecision error.
Proof. solve_decision. Defined.

Inductive res (A : Type) :=
  | Ok (a : A)
  | Err (e : error).
Arguments Ok {A} a.
Arguments Err {A} e.

(** ** State and error monad

    A Go function that mutates shared state and may return an error.  The
    state reached before an error is kept, as in Go. *)
Definition M (S A : Type) : Type := S → res A * S.

#[export] Instance M_ret S : MRet (M S) := λ A a s, (Ok a, s).
#[export] Instance M_bind S : MBind (M S) := λ A B k m s,
  match m s with
  | (Ok a, s') => k a s'
  | (Err e, s') => (Err e, s')
  end.
#[export] Instance res_ret : MRet res := λ A a, Ok a.
#[export] Instance res_bind : MBind res := λ A B k m,
  match m with Ok a => k a | Err e => Err e end.

Definition fail {S A} (e : error) : M S A := λ s, (Err e, s).
Definition gets {S A} (f : S → A) : M S A := λ s, (Ok (f s), s).
Definition modify {S} (f : S → S) : M S () := λ s, (Ok (), f s).
Definition lift {S A} (r : res A) : M S A := λ s, (r, s).
(** A call whose error is inspected by the caller instead of returned. *)
Definition attempt {S A} (m : M S A) : M S (res A) :=
  λ s, let '(r, s') := m s in (Ok r, s').

(** [if cond { return e }], in [res] and in [M]. *)
Definition reject_if (b : bool) (e : error) : res () := if b then Err e else Ok ().
Definition ensure {S} (b : bool) (e : error) : M S () := if b then mret () else fail e.

(** ** Slices

    [slice_to p n] is [p[:n]] and [slice_from p n] is [p[n:]]; [None] is the
    run-time panic of an index out of range (the capacity of the slices the
    model takes prefixes of is never relied upon). *)
Definition zlen {A} (p : list A) : Z := Z.of_nat (length p).

Definition slice_to {A} (p : list A) (n : Z) : option (list A) :=
  if bool_decide (0 ≤ n ≤ zlen p)%Z then Some (take (Z.to_nat n) p) else None.

Definition slice_from {A} (p : list A) (n : Z) : option (list A) :=
  if bool_decide (0 ≤ n ≤ zlen p)%Z then Some (drop (Z.to_nat n) p) else None.

(** The last [n] elements of a list, and its first [n]. *)
Definition lastn {A} (n : nat) (l : list A) : list A := drop (length l - n) l.

Create HintDb crab.

Lemma zlen_nonneg {A} (p : list A) : (0 ≤ zlen p)%Z.
Proof. unfold zlen; lia. Qed.
#[export] Hint Resolve zlen_nonneg : crab.

Lemma zlen_app {A} (p q : list A) : zlen (p ++ q) = (zlen p + zlen q)%Z.
Proof. unfold zlen; rewrite length_app; lia. Qed.

Lemma slice_to_Some {A} (p : list A) n :
  (0 ≤ n ≤ zlen p)%Z → slice_to p n = Some (take (Z.to_nat n) p).
Proof. intros H. unfold slice_to. by rewrite bool_decide_eq_true_2. Qed.

Lemma slice_from_Some {A} (p : list A) n :
  (0 ≤ n ≤ zlen p)%Z → slice_from p n = Some (drop (Z.to_nat n) p).
Proof. intros H. unfold slice_from. by rewrite bool_decide_eq_true_2. Qed.

Lemma length_lastn {A} n (l : list A) : length (lastn n l) = min n (length l).
Proof. unfold lastn. rewrite length_drop. lia. Qed.

Lemma lastn_all {A} n (l : list A) : length l ≤ n → lastn n l = l.
Proof. intros H. unfold lastn. by replace (length l - n) with 0 by lia. Qed.

Lemma lastn_app_ge {A} n (l k : list A) :
  n ≤ length k → lastn n (l ++ k) = lastn n k.
Proof.
  intros H. unfold lastn. rewrite length_app, drop_app_ge by lia.
  f_equal. lia.
Qed.

Lemma lastn_app_lt {A} n (l k : list A) :
  length k ≤ n → lastn n (l ++ k) = lastn (n - length k) l ++ k.
Proof.
  intros H. unfold lastn. rewrite length_app.
  destruct (decide (length l + length k - n ≤ length l)).
  - rewrite drop_app_le by lia. do 2 f_equal. lia.
  - lia.
Qed.

(** Dropping then appending commutes with taking the last [n]. *)
Lemma lastn_lastn_app {A} n (l k : list A) :
  lastn n (lastn n l ++ k) = lastn n (l ++ k).
Proof.
  destruct (decide (n ≤ length k)).
  - by rewrite !lastn_app_ge.
  - rewrite !lastn_app_lt by lia. f_equal.
    unfold lastn at 1 3. rewrite length_lastn. unfold lastn.
    rewrite drop_drop. f_equal. lia.
Qed.

Lemma nil_length_pos {A} (l : list A) : l ≠ [] → 0 < length l.
Proof. destruct l; cbn; [done|lia]. Qed.

(** ** Go maps

    A [map[string]string]: [None] is the nil map, which reads as empty and
    which cannot be assigned to. *)
Abbreviation gomap := (option (gmap string string)).

(** [m[k]], the zero value when absent *)
Definition mlookup (m : gomap) (k : string) : string :=
  default EmptyString (m ≫= λ x, x !! k).
(** [v, ok := m[k]] *)
Definition mlookup_ok (m : gomap) (k : string) : option string := m ≫= λ x, x !! k.
(** [len(m)] *)
Definition mlen (m : gomap) : Z :=
  match m with Some x => Z.of_nat (size x) | None => 0 end.
(** The entries, the nil map reading as empty. *)
Definition mentries (m : gomap) : gmap string string := default ∅ m.
(** [m[k] = v], where the code has made [m] non-nil *)
Definition mset (m : gomap) (k v : string) : gomap := Some (<[k := v]> (mentries m)).
(** [maps.Copy(dst, src)] and [maps.Equal] *)
Definition mcopy (dst src : gomap) : gomap := Some (mentries src ∪ mentries dst).
Definition mequal (a b : gomap) : bool := bool_decide (mentries a = mentries b).
(** [delete(m, k)] *)
Definition mdelete (m : gomap) (k : string) : gomap := delete k <$> m.
(** [pond_bridge.go cloneStringMap]: an empty map is cloned to nil. *)
Definition cloneStringMap (m : gomap) : gomap :=
  match m with
  | Some x => if bool_decide (size x = 0%nat) then None else Some x
  | None => None
  end.

(** ** Record updates

    [x <| f := v |>] is [x] with field [f] replaced by [v].  An instance is
    obtained from the eta-expansion of the record by [field_setter]. *)
Class Setter {R A} (proj : R → A) := setter : A → R → R.
Arguments setter {R A} proj {_} _ _ /.

Ltac field_setter eta proj :=
  let e := eval cbv beta delta [eta] in eta in
  let p := eval pattern proj in e in
  lazymatch p with
  | ?f _ => let t := eval cbv beta in (λ v x, f (λ _, v) x) in exact t
  end.

Notation "x <| f := v |>" := (setter f v x)
  (at level 1, left associativity, f at level 200, v at level 200,
   format "x  <|  f  :=  v  |>").
Arguments mlookup : simpl never.

(** ** Conditions

    Go compares strings, and the model any type with decidable equality, with
    [==] and [!=]. *)
Declare Scope crab_scope.
Delimit Scope crab_scope with crab.
Notation "a '=s' b" := (bool_decide (a = b)) (at level 70, no associativity) : crab_scope.
Notation "a '<>s' b" := (negb (bool_decide (a = b))) (at level 70, no associativity) : crab_scope.
Notation "a '∈s' l" := (bool_decide (a ∈ l)) (at level 70, no associativity) : crab_scope.

Lemma Ok_inj {A} (a b : A) : Ok a = Ok b → a = b.
Proof. by intros [=]. Qed.

Lemma reject_if_ok b e u : reject_if b e = Ok u ↔ b = false.
Proof. destruct u, b; cbn; split; congruence. Qed.

(** Evaluating the error monad. *)
Lemma res_bind_ok {A B} (m : res A) (k : A → res B) b :
  m ≫= k = Ok b ↔ ∃ a, m = Ok a ∧ k a = Ok b.
Proof.
  split.
  - destruct m as [a|e]; cbn; [by eexists|done].
  - intros (a & -> & H). exact H.
Qed.

Lemma ensure_ok {S} b e (s : S) u s' : ensure b e s = (Ok u, s') → b = true ∧ s' = s.
Proof. unfold ensure. destruct b; [|done]. by intros [= _ <-]. Qed.

Lemma M_bind_ok {S A B} (m : M S A) (k : A → M S B) s b s' :
  (m ≫= k) s = (Ok b, s') ↔ ∃ a s1, m s = (Ok a, s1) ∧ k a s1 = (Ok b, s').
Proof.
  unfold mbind, M_bind. split.
  - destruct (m s) as [[a|e] s1]; [by eauto|done].
  - by intros (a & s1 & -> & H).
Qed.

Lemma negb_bool_decide_false {P} `{!Decision P} : negb (bool_decide P) = false ↔ P.
Proof. rewrite negb_false_iff. apply bool_decide_eq_true. Qed.
Lemma negb_bool_decide_true {P} `{!Decision P} : negb (bool_decide P) = true ↔ ¬ P.
Proof. rewrite negb_true_iff. apply bool_decide_eq_false. Qed.

(** Splits hypotheses that come from a chain of guards that all passed into
    propositions. *)
Ltac guards :=
  repeat match goal with
  | H : (_ || _) = false |- _ => apply orb_false_iff in H as [? H]
  | H : (_ && _) = true |- _ => apply andb_true_iff in H as [? H]
  | H : negb (bool_decide _) = false |- _ => apply (proj1 negb_bool_decide_false) in H
  | H : negb (bool_decide _) = true |- _ => apply (proj1 negb_bool_decide_true) in H
  | H : bool_decide _ = true |- _ => apply bool_decide_eq_true_1 in H
  | H : bool_decide _ = false |- _ => apply bool_decide_eq_false_1 in H
  | H : negb _ = false |- _ => apply negb_false_iff in H
  | H : negb _ = true |- _ => apply negb_true_iff in H
  end.

(** Decomposes a successful run of the error monad into its steps. *)
Ltac res_steps :=
  repeat match goal with
  | H : mbind _ _ = Ok _ |- _ => apply res_bind_ok in H as (? & ? & H)
  | H : reject_if _ _ = Ok _ |- _ => apply reject_if_ok in H
  | H : mret _ = Ok _ |- _ => injection H as H
  end.

(** ** Framing of monadic code

    [keeps R m]: whatever [m] returns, it relates the states before and after
    by [R]. *)
Definition keeps {S A} (R : relation S) (m : M S A) : Prop := ∀ s, R s (m s).2.

Section keeps.
Context {S : Type} (R : relation S) `{!PreOrder R}.

Lemma keeps_ret {A} (a : A) : keeps R (mret a).
Proof. intros s. cbn. reflexivity. Qed.
Lemma keeps_fail {A} e : keeps R (fail (A:=A) e).
Proof. intros s. cbn. reflexivity. Qed.
Lemma keeps_lift {A} (r : res A) : keeps R (lift r).
Proof. intros s. cbn. reflexivity. Qed.
Lemma keeps_gets {A} (f : S → A) : keeps R (gets f).
Proof. intros s. cbn. reflexivity. Qed.
Lemma keeps_ensure b e : keeps R (ensure b e).
Proof. destruct b; [apply keeps_ret|apply keeps_fail]. Qed.
Lemma keeps_bind {A B} (m : M S A) (k : A → M S B) :
  keeps R m → (∀ a, keeps R (k a)) → keeps R (m ≫= k).
Proof.
  intros Hm Hk s. unfold mbind, M_bind. specialize (Hm s).
  destruct (m s) as [[a|e] s1]; cbn in *; [|done]. etrans; [exact Hm|apply Hk].
Qed.
(** The same at one state, where what the first step returned is known. *)
Lemma bind_at {A B} (m : M S A) (k : A → M S B) s :
  R s (m s).2 → (∀ a s1, m s = (Ok a, s1) → R s1 (k a s1).2) → R s ((m ≫= k) s).2.
Proof.
  intros Hm Hk. unfold mbind, M_bind. specialize (Hk : ∀ a s1, _).
  destruct (m s) as [[a|e] s1]; cbn in *; [|done]. etrans; [exact Hm|by apply Hk].
Qed.
Lemma keeps_attempt {A} (m : M S A) : keeps R m → keeps R (attempt m).
Proof. intros Hm s. unfold attempt. specialize (Hm s). by destruct (m s). Qed.
End keeps.

Lemma keeps_weaken {S A} (R R' : relation S) (m : M S A) :
  keeps R m → (∀ s s', R s s' → R' s s') → keeps R' m.
Proof. intros H HR s. apply HR, H. Qed.

#[export] Hint Resolve keeps_ret keeps_fail keeps_lift keeps_gets keeps_ensure keeps_attempt : crab.

(** Walks through a sequence of monadic steps. *)
Ltac keeps_steps :=
  repeat first
    [ progress (eauto 2 with crab typeclass_instances)
    | apply keeps_bind; [eauto with typeclass_instances| |intros ?]
    | progress case_match
    | apply keeps_attempt ].

(** ** Record invariants through sequences of updates

    [kept_steps f] proves [f (let x1 := v1 in ... in e) = f x0] where each step
    conditionally updates fields that the projection [f] does not read. *)
Ltac kept_step f :=
  lazymatch goal with
  | |- f (let x := ?v in @?body x) = ?r =>
      first
        [ let K := fresh in let H := fresh in let y := fresh x in
          assert (H : f v = r);
            [ | cut (∀ y, f y = r → f (body y) = r);
                [ intros K; exact (K v H) | clear H; intros y H; cbv beta ] ]
        | let K := fresh in let y := fresh x in
          cut (∀ y, f (body y) = r); [ intros K; exact (K v) | intros y; cbv beta ] ]
  | |- f (if ?b then _ else _) = _ => destruct b
  | |- f (match ?o with _ => _ end) = _ => destruct o
  | H : f ?y = ?r |- f _ = ?r => exact H
  | |- f _ = f _ => reflexivity
  end.
