(* ===== verification/GoText.v ===== *)
(** * Go strings

    A Go [string] is a sequence of bytes, here a Rocq [string] (a sequence of
    8-bit characters).  This file models what the program uses of the packages
    [strings], [unicode/utf8], [unicode], [strconv], [encoding/hex] and
    [hash/fnv].  A byte and a rune are a [Z]. *)

From Stdlib Require Import ZArith Lia Ascii.
From stdpp Require Import gmap strings prelude.
From S2P Require Import Prelude.
Local Open Scope Z_scope.

(** ** Bytes *)

Definition byte_of (a : ascii) : Z := Z.of_N (N_of_ascii a).
Definition ascii_of (b : Z) : ascii := ascii_of_N (Z.to_N b).

Fixpoint to_bytes (s : string) : list Z :=
  match s with
  | EmptyString => []
  | String a s => byte_of a :: to_bytes s
  end.

Fixpoint of_bytes (bs : list Z) : string :=
  match bs with
  | [] => EmptyString
  | b :: bs => String (ascii_of b) (of_bytes bs)
  end.

(** [len(s)] *)
Definition slen (s : string) : Z := Z.of_nat (String.length s).

Definition is_byte (b : Z) : bool := (0 <=? b) && (b <? 256).

Lemma ascii_of_byte_of a : ascii_of (byte_of a) = a.
Proof. unfold ascii_of, byte_of. by rewrite N2Z.id, ascii_N_embedding. Qed.

Lemma byte_of_ascii_of b : is_byte b = true → byte_of (ascii_of b) = b.
Proof.
  unfold is_byte, ascii_of, byte_of. intros H.
  rewrite N_ascii_embedding; lia.
Qed.

Lemma byte_of_range a : is_byte (byte_of a) = true.
Proof.
  unfold is_byte, byte_of. pose proof (N_ascii_bounded a). lia.
Qed.

Lemma of_to_bytes s : of_bytes (to_bytes s) = s.
Proof. induction s as [|a s IH]; cbn; [done|]. by rewrite ascii_of_byte_of, IH. Qed.

Lemma to_of_bytes bs : Forall (λ b, is_byte b = true) bs → to_bytes (of_bytes bs) = bs.
Proof.
  induction 1 as [|b bs Hb _ IH]; cbn; [done|]. by rewrite byte_of_ascii_of, IH.
Qed.

Lemma to_bytes_range s : Forall (λ b, is_byte b = true) (to_bytes s).
Proof. induction s; cbn; constructor; auto using byte_of_range. Qed.

Lemma length_to_bytes s : length (to_bytes s) = String.length s.
Proof. induction s as [|a s IH]; [done|]. cbn. by rewrite <-IH. Qed.

Lemma length_of_bytes bs : String.length (of_bytes bs) = length bs.
Proof. induction bs as [|b bs IH]; [done|]. cbn. by rewrite IH. Qed.

Lemma to_bytes_app s t : to_bytes (s +:+ t) = to_bytes s ++ to_bytes t.
Proof. induction s as [|a s IH]; [done|]. cbn. by rewrite <-IH. Qed.

Lemma append_empty (x : string) : x +:+ "" = x.
Proof. induction x as [|a x IH]; [done|]. change (String a (x +:+ "") = String a x). by rewrite IH. Qed.
Lemma append_assoc (x y z : string) : x +:+ (y +:+ z) = (x +:+ y) +:+ z.
Proof. induction x as [|a x IH]; [done|]. change (String a (x +:+ (y +:+ z)) = String a ((x +:+ y) +:+ z)). by rewrite IH. Qed.

Lemma to_bytes_inj s t : to_bytes s = to_bytes t → s = t.
Proof. intros H. by rewrite <-(of_to_bytes s), H, of_to_bytes. Qed.

(** ** UTF-8 ([unicode/utf8])

    [runes bs] is the sequence of pairs (rune, raw bytes) a [for range] over
    the string visits: a byte that does not start a valid encoding yields
    [RuneError] and consumes one byte.  The second byte's range depends on the
    first one, which excludes over-long forms, surrogates and values beyond
    U+10FFFF. *)
Definition RuneError : Z := 0xFFFD.

Definition cont (b : Z) : bool := (0x80 <=? b) && (b <=? 0xBF).

Definition second_ok (b0 b1 : Z) : bool :=
  if b0 =? 0xE0 then (0xA0 <=? b1) && (b1 <=? 0xBF)
  else if b0 =? 0xED then (0x80 <=? b1) && (b1 <=? 0x9F)
  else if b0 =? 0xF0 then (0x90 <=? b1) && (b1 <=? 0xBF)
  else if b0 =? 0xF4 then (0x80 <=? b1) && (b1 <=? 0x8F)
  else cont b1.

Definition bits6 (b : Z) : Z := Z.land b 0x3F.

Fixpoint runes (bs : list Z) : list (Z * list Z) :=
  match bs with
  | [] => []
  | b0 :: r0 =>
      if b0 <? 0x80 then (b0, [b0]) :: runes r0
      else match r0 with
      | b1 :: r1 =>
          if (0xC2 <=? b0) && (b0 <=? 0xDF) && cont b1 then
            (Z.lor (Z.shiftl (Z.land b0 0x1F) 6) (bits6 b1), [b0; b1]) :: runes r1
          else match r1 with
          | b2 :: r2 =>
              if (0xE0 <=? b0) && (b0 <=? 0xEF) && second_ok b0 b1 && cont b2 then
                (Z.lor (Z.shiftl (Z.land b0 0x0F) 12)
                   (Z.lor (Z.shiftl (bits6 b1) 6) (bits6 b2)), [b0; b1; b2]) :: runes r2
              else match r2 with
              | b3 :: r3 =>
                  if (0xF0 <=? b0) && (b0 <=? 0xF4) && second_ok b0 b1 && cont b2 && cont b3 then
                    (Z.lor (Z.shiftl (Z.land b0 0x07) 18)
                       (Z.lor (Z.shiftl (bits6 b1) 12)
                          (Z.lor (Z.shiftl (bits6 b2) 6) (bits6 b3))),
                     [b0; b1; b2; b3]) :: runes r3
                  else (RuneError, [b0]) :: runes r0
              | [] => (RuneError, [b0]) :: runes r0
              end
          | [] => (RuneError, [b0]) :: runes r0
          end
      | [] => (RuneError, [b0]) :: runes r0
      end
  end.

(** [utf8.AppendRune] *)
Definition encode_rune (r : Z) : list Z :=
  let low6 x := Z.lor 0x80 (Z.land x 0x3F) in
  if (0 <=? r) && (r <? 0x80) then [r]
  else if (0x80 <=? r) && (r <? 0x800) then [Z.lor 0xC0 (Z.shiftr r 6); low6 r]
  else if (r <? 0) || (0x10FFFF <? r) || ((0xD800 <=? r) && (r <=? 0xDFFF)) then
    [0xEF; 0xBF; 0xBD]
  else if r <? 0x10000 then
    [Z.lor 0xE0 (Z.shiftr r 12); low6 (Z.shiftr r 6); low6 r]
  else
    [Z.lor 0xF0 (Z.shiftr r 18); low6 (Z.shiftr r 12); low6 (Z.shiftr r 6); low6 r].

(** [utf8.ValidString]: no rune is an invalid byte. *)
Definition utf8_valid (s : string) : bool :=
  forallb (λ p : Z * list Z, negb ((p.1 =? RuneError) && (length p.2 =? 1)%nat))
    (runes (to_bytes s)).

(** [unicode.IsSpace] *)
Definition is_space (r : Z) : bool :=
  ((9 <=? r) && (r <=? 13)) || (r =? 32) || (r =? 0x85) || (r =? 0xA0) ||
  (r =? 0x1680) || ((0x2000 <=? r) && (r <=? 0x200A)) || (r =? 0x2028) ||
  (r =? 0x2029) || (r =? 0x202F) || (r =? 0x205F) || (r =? 0x3000).

Fixpoint drop_while {A} (f : A → bool) (l : list A) : list A :=
  match l with
  | [] => []
  | x :: l' => if f x then drop_while f l' else l
  end.

Definition trim_both {A} (f : A → bool) (l : list A) : list A :=
  reverse (drop_while f (reverse (drop_while f l))).

(** [strings.TrimSpace] *)
Definition TrimSpace (s : string) : string :=
  of_bytes (concat ((λ p : Z * list Z, p.2) <$>
    trim_both (λ p : Z * list Z, is_space p.1) (runes (to_bytes s)))).

(** [strings.Trim] with an ASCII cutset *)
Definition Trim (s : string) (cutset : list Z) : string :=
  of_bytes (trim_both (λ b, bool_decide (b ∈ cutset)) (to_bytes s)).

(** [unicode.ToLower] and [unicode.ToUpper] on ASCII, and on the runes outside
    ASCII whose image is an ASCII letter (U+0130 and U+212A; U+0131 and
    U+017F).  Every other rune maps to a rune outside ASCII and is left as it
    is: the program distinguishes only ASCII characters of the result. *)
Definition lower_rune (r : Z) : Z :=
  if (65 <=? r) && (r <=? 90) then r + 32
  else if r =? 0x130 then 105 else if r =? 0x212A then 107 else r.

Definition upper_rune (r : Z) : Z :=
  if (97 <=? r) && (r <=? 122) then r - 32
  else if r =? 0x131 then 73 else if r =? 0x17F then 83 else r.

Definition map_runes (f : Z → Z) (s : string) : string :=
  of_bytes (concat ((λ p : Z * list Z, encode_rune (f p.1)) <$> runes (to_bytes s))).

Definition ToLower : string → string := map_runes lower_rune.
Definition ToUpper : string → string := map_runes upper_rune.

(** [strings.HasPrefix], [HasSuffix], [CutPrefix] *)
Definition HasPrefix (s p : string) : bool := String.prefix p s.
Definition HasSuffix (s p : string) : bool :=
  String.prefix (of_bytes (reverse (to_bytes p))) (of_bytes (reverse (to_bytes s))).
Definition CutPrefix (s p : string) : string * bool :=
  if HasPrefix s p then (of_bytes (drop (String.length p) (to_bytes s)), true)
  else (s, false).
Definition TrimSuffix (s p : string) : string :=
  if HasSuffix s p then of_bytes (take (String.length s - String.length p) (to_bytes s)) else s.

(** [strings.ContainsAny] for a set of single bytes *)
Definition ContainsAny (s : string) (chars : list Z) : bool :=
  existsb (λ b, bool_decide (b ∈ chars)) (to_bytes s).

(** [strings.ReplaceAll] of one byte by another *)
Definition ReplaceByte (s : string) (old new : Z) : string :=
  of_bytes ((λ b, if b =? old then new else b) <$> to_bytes s).

(** [bytes.Split(data, []byte{sep})] *)
Fixpoint split_at (sep : Z) (bs : list Z) : list (list Z) :=
  match bs with
  | [] => [[]]
  | b :: bs =>
      if b =? sep then [] :: split_at sep bs
      else match split_at sep bs with x :: xs => (b :: x) :: xs | [] => [[b]] end
  end.
(** [bytes.Cut(data, []byte{sep})] *)
Fixpoint cut_at (sep : Z) (bs : list Z) : option (list Z * list Z) :=
  match bs with
  | [] => None
  | b :: bs => if b =? sep then Some ([], bs) else p ← cut_at sep bs; Some (b :: p.1, p.2)
  end.

(** [bytes.Fields]: the runs of what is not space. *)
Fixpoint field_runs (rs : list (Z * list Z)) (run : list Z) : list (list Z) :=
  match rs with
  | [] => if bool_decide (run = []) then [] else [run]
  | (r, seg) :: rs =>
      if is_space r then (if bool_decide (run = []) then [] else [run]) ++ field_runs rs []
      else field_runs rs (run ++ seg)
  end.
Definition Fields (bs : list Z) : list (list Z) := field_runs (runes bs) [].

(** [s[:n]] for [n <= len(s)] *)
Definition sprefix (s : string) (n : nat) : string := of_bytes (take n (to_bytes s)).

(** ** Numbers ([strconv], [fmt]) *)

Definition is_digit (b : Z) : bool := (48 <=? b) && (b <=? 57).

Definition max_int64 : Z := 2 ^ 63 - 1.
Definition min_int64 : Z := - 2 ^ 63.

(** Wrap-around of int64 arithmetic. *)
Definition wrap64 (x : Z) : Z := (x + 2 ^ 63) mod 2 ^ 64 - 2 ^ 63.

Fixpoint digits_value (acc : Z) (bs : list Z) : option Z :=
  match bs with
  | [] => Some acc
  | b :: bs => if is_digit b then digits_value (10 * acc + (b - 48)) bs else None
  end.

(** [strconv.ParseInt(s, 10, 64)], and [strconv.Atoi] on a 64-bit platform:
    an optional sign, at least one digit, and a value in the int64 range. *)
Definition ParseInt (s : string) : option Z :=
  let '(neg, ds) :=
    match to_bytes s with
    | b :: rest => if b =? 45 then (true, rest) else if b =? 43 then (false, rest)
                   else (false, b :: rest)
    | [] => (false, [])
    end in
  match ds with
  | [] => None
  | _ => n ← digits_value 0 ds;
         let v := if neg : bool then - n else n in
         if (min_int64 <=? v) && (v <=? max_int64) then Some v else None
  end.
Definition Atoi : string → option Z := ParseInt.

(** Least significant digit first; [fuel] bounds the number of digits. *)
Fixpoint digits_rev (base : Z) (fuel : nat) (n : Z) : list Z :=
  match fuel with
  | O => []
  | S fuel => if n <? base then [n] else n mod base :: digits_rev base fuel (n / base)
  end.

Definition digit_char (d : Z) : Z := if d <? 10 then 48 + d else 87 + d.

(** A number has no more digits than bits. *)
Definition digits_fuel (n : Z) : nat := S (Z.to_nat (Z.log2 n)).
Definition format_uint (base : Z) (n : Z) : list Z :=
  digit_char <$> reverse (digits_rev base (digits_fuel n) n).

(** [strconv.FormatInt(n, 10)] and [strconv.Itoa] *)
Definition FormatInt (n : Z) : string :=
  of_bytes (if n <? 0 then 45 :: format_uint 10 (- n) else format_uint 10 n).

(** [fmt.Sprintf("%0*x", width, n)] for a non-negative [n] *)
Definition format_hex (width : nat) (n : Z) : string :=
  let ds := format_uint 16 n in
  of_bytes (replicate (width - length ds) 48 ++ ds).

(** [hex.EncodeToString] and [fmt.Sprintf("%x", bytes)] *)
Definition hex_of_bytes (bs : list Z) : string :=
  of_bytes (concat ((λ b, [digit_char (b / 16); digit_char (b mod 16)]) <$> bs)).

Definition hex_value (b : Z) : option Z :=
  if is_digit b then Some (b - 48)
  else if (97 <=? b) && (b <=? 102) then Some (b - 87)
  else if (65 <=? b) && (b <=? 70) then Some (b - 55)
  else None.

Fixpoint hex_decode (bs : list Z) : option (list Z) :=
  match bs with
  | [] => Some []
  | a :: b :: bs =>
      x ← hex_value a; y ← hex_value b; r ← hex_decode bs; Some (16 * x + y :: r)
  | [_] => None
  end.

(** [hex.DecodeString] *)
Definition hex_DecodeString (s : string) : option (list Z) := hex_decode (to_bytes s).

(** [fnv.New32a] *)
Definition fnv32a (s : string) : Z :=
  foldl (λ h b, (Z.lxor h b * 16777619) mod 2 ^ 32) 2166136261 (to_bytes s).

(** ** Facts *)

Lemma prefix_app (x y : string) : HasPrefix (x +:+ y) x = true.
Proof.
  unfold HasPrefix. induction x as [|a x IH]; [by destruct y|].
  change (String a x +:+ y) with (String a (x +:+ y)). cbn. by destruct (Ascii.ascii_dec a a).
Qed.
Lemma prefix_split (s p : string) : HasPrefix s p = true → ∃ t, s = p +:+ t.
Proof.
  unfold HasPrefix. revert s. induction p as [|a p IH]; intros s; [by exists s|].
  destruct s as [|b s]; [done|]. cbn. destruct (Ascii.ascii_dec a b) as [->|]; [|done].
  intros [t ->]%IH. by exists t.
Qed.

Lemma fnv32a_range s : 0 ≤ fnv32a s < 2 ^ 32.
Proof.
  unfold fnv32a. generalize (to_bytes s); intros bs.
  induction bs as [|b bs IH] using rev_ind; [cbn; lia|].
  rewrite foldl_snoc. apply Z.mod_pos_bound. lia.
Qed.

Lemma drop_while_id {A} (f : A → bool) l :
  (∀ x, head l = Some x → f x = false) → drop_while f l = l.
Proof. destruct l as [|x l]; cbn; [done|]. intros H. by rewrite (H x eq_refl). Qed.

Lemma drop_while_head {A} (f : A → bool) l x :
  head (drop_while f l) = Some x → f x = false.
Proof. induction l as [|y l IH]; cbn; [done|]. destruct (f y) eqn:?; [auto|]. cbn. congruence. Qed.

Lemma drop_while_suffix {A} (f : A → bool) l : drop_while f l `suffix_of` l.
Proof.
  induction l as [|y l IH]; cbn; [done|]. destruct (f y); [|done].
  by apply suffix_cons_r.
Qed.

Lemma drop_while_length {A} (f : A → bool) (l : list A) :
  (length (drop_while f l) ≤ length l)%nat.
Proof. apply suffix_length, drop_while_suffix. Qed.

Lemma Forall_drop_while {A} (P : A → Prop) (f : A → bool) l :
  Forall P l → Forall P (drop_while f l).
Proof.
  induction 1 as [|y l Hy Hl IH]; cbn; [constructor|]. destruct (f y); [done|].
  by constructor.
Qed.

Lemma Forall_trim_both {A} (P : A → Prop) (f : A → bool) l :
  Forall P l → Forall P (trim_both f l).
Proof.
  intros H. unfold trim_both. apply Forall_reverse, Forall_drop_while, Forall_reverse.
  by apply Forall_drop_while.
Qed.

Lemma trim_both_length {A} (f : A → bool) (l : list A) :
  (length (trim_both f l) ≤ length l)%nat.
Proof.
  unfold trim_both. rewrite length_reverse.
  etrans; [apply drop_while_length|]. rewrite length_reverse. apply drop_while_length.
Qed.

Lemma trim_both_last {A} (f : A → bool) l x :
  last (trim_both f l) = Some x → f x = false.
Proof.
  unfold trim_both. rewrite last_reverse. apply drop_while_head.
Qed.

(** The first element of a trimmed list was the first element of the list
    trimmed on the left. *)
Lemma trim_both_head {A} (f : A → bool) l x :
  head (trim_both f l) = Some x → f x = false.
Proof.
  unfold trim_both. intros H. apply (drop_while_head f l). revert H.
  rewrite head_reverse. generalize (drop_while f l); intros k.
  destruct (drop_while_suffix f (reverse k)) as [p Hp].
  destruct (drop_while f (reverse k)) as [|y z] eqn:E; [done|].
  intros Hl. rewrite <-last_reverse, Hp, last_app. by rewrite Hl.
Qed.

Lemma trim_both_id {A} (f : A → bool) l :
  (∀ x, head l = Some x → f x = false) → (∀ x, last l = Some x → f x = false) →
  trim_both f l = l.
Proof.
  intros Hh Hl. unfold trim_both. rewrite (drop_while_id f l Hh), drop_while_id.
  - apply reverse_involutive.
  - intros x. rewrite head_reverse. apply Hl.
Qed.

Lemma trim_both_idemp {A} (f : A → bool) l :
  trim_both f (trim_both f l) = trim_both f l.
Proof. apply trim_both_id; eauto using trim_both_head, trim_both_last. Qed.

(** Trimming removes a prefix and a suffix. *)
Lemma trim_both_infix {A} (f : A → bool) l :
  ∃ p q, l = p ++ trim_both f l ++ q.
Proof.
  unfold trim_both. destruct (drop_while_suffix f l) as [p Hp].
  destruct (drop_while_suffix f (reverse (drop_while f l))) as [q Hq].
  exists p, (reverse q). rewrite Hp at 1. f_equal.
  rewrite <-(reverse_involutive (drop_while f l)) at 1. by rewrite Hq at 1; rewrite reverse_app.
Qed.

(** ** ASCII strings: each byte is a rune. *)
Definition ascii_byte (b : Z) : Prop := 0 ≤ b < 0x80.

Lemma runes_ascii bs : Forall ascii_byte bs → runes bs = (λ b, (b, [b])) <$> bs.
Proof.
  induction 1 as [|b bs Hb _ IH]; [done|]. cbn [runes].
  destruct (Z.ltb_spec b 0x80) as [_|H]; [|destruct Hb; lia]. by rewrite IH.
Qed.

Lemma ascii_is_byte bs : Forall ascii_byte bs → Forall (λ b, is_byte b = true) bs.
Proof. intros H. eapply Forall_impl; [exact H|]. unfold ascii_byte, is_byte. lia. Qed.

Lemma concat_singletons {A} (f : A → A) l : concat ((λ x, [f x]) <$> l) = f <$> l.
Proof. induction l as [|x l IH]; [done|]. cbn. by rewrite <-IH. Qed.

Lemma drop_while_fmap {A B} (g : A → B) (f : B → bool) l :
  drop_while f (g <$> l) = g <$> drop_while (f ∘ g) l.
Proof. induction l as [|x l IH]; cbn; [done|]. by destruct (f (g x)). Qed.

Lemma trim_both_fmap {A B} (g : A → B) (f : B → bool) l :
  trim_both f (g <$> l) = g <$> trim_both (f ∘ g) l.
Proof.
  unfold trim_both. rewrite drop_while_fmap, <-fmap_reverse, drop_while_fmap.
  by rewrite fmap_reverse.
Qed.

(** On ASCII, [TrimSpace] and [ToLower] act on the bytes. *)
Lemma TrimSpace_ascii bs :
  Forall ascii_byte bs → TrimSpace (of_bytes bs) = of_bytes (trim_both is_space bs).
Proof.
  intros H. unfold TrimSpace. rewrite to_of_bytes, runes_ascii by auto using ascii_is_byte.
  rewrite trim_both_fmap, <-list_fmap_compose. f_equal.
  change ((λ p : Z * list Z, p.2) ∘ (λ b : Z, (b, [b]))) with (λ b : Z, [id b]).
  rewrite concat_singletons. by rewrite list_fmap_id.
Qed.

Lemma ToLower_ascii bs :
  Forall ascii_byte bs → ToLower (of_bytes bs) = of_bytes (lower_rune <$> bs).
Proof.
  intros H. unfold ToLower, map_runes.
  rewrite to_of_bytes, runes_ascii by auto using ascii_is_byte. f_equal.
  induction H as [|b bs Hb _ IH]; [done|]. cbn -[encode_rune lower_rune]. rewrite IH.
  unfold encode_rune, lower_rune. unfold ascii_byte in Hb.
  replace ((b =? 0x130)) with false by lia. replace ((b =? 0x212A)) with false by lia.
  destruct ((65 <=? b) && (b <=? 90)) eqn:E.
  - replace ((0 <=? b + 32) && (b + 32 <? 128)) with true by lia. done.
  - replace ((0 <=? b) && (b <? 128)) with true by lia. done.
Qed.

(** ** Decimal round trip *)

Lemma digits_value_app acc a b :
  digits_value acc (a ++ b) = digits_value acc a ≫= λ v, digits_value v b.
Proof.
  revert acc; induction a as [|x a IH]; intros acc; cbn; [done|].
  by destruct (is_digit x).
Qed.

Lemma digit_char_10 d : 0 ≤ d < 10 → digit_char d = 48 + d.
Proof. unfold digit_char. intros. case_match; lia. Qed.

Lemma digits_value_format fuel : ∀ n,
  0 ≤ n < 10 ^ Z.of_nat fuel →
  digits_value 0 (digit_char <$> reverse (digits_rev 10 fuel n)) = Some n.
Proof.
  induction fuel as [|fuel IH]; intros n Hn.
  { change (10 ^ Z.of_nat 0) with 1 in Hn. cbn. f_equal. lia. }
  cbn [digits_rev]. destruct (Z.ltb_spec n 10) as [Hlt|Hge].
  { cbn -[digit_char]. rewrite digit_char_10 by lia. unfold is_digit.
    replace ((48 <=? 48 + n) && (48 + n <=? 57)) with true by lia. f_equal. lia. }
  rewrite reverse_cons, fmap_app, digits_value_app, IH.
  - cbn -[digit_char Z.mul Z.modulo Z.div]. pose proof (Z.mod_pos_bound n 10).
    rewrite digit_char_10 by lia. unfold is_digit.
    replace ((48 <=? 48 + n mod 10) && (48 + n mod 10 <=? 57)) with true by lia.
    f_equal. pose proof (Z.div_mod n 10). lia.
  - rewrite Nat2Z.inj_succ, Z.pow_succ_r in Hn by lia. split; [apply Z.div_pos; lia|].
    apply Z.div_lt_upper_bound; lia.
Qed.

Lemma digits_rev_nonnil base fuel n : digits_rev base (S fuel) n ≠ [].
Proof. cbn. by case_match. Qed.

Lemma format_uint_digits n :
  0 ≤ n → Forall (λ b, is_digit b = true) (format_uint 10 n).
Proof.
  intros Hn. unfold format_uint. apply Forall_fmap, Forall_reverse.
  generalize (digits_fuel n) as fuel. intros fuel; revert n Hn.
  induction fuel as [|fuel IH]; intros n Hn; cbn [digits_rev]; [constructor|].
  assert (∀ d, 0 ≤ d < 10 → is_digit (digit_char d) = true) as Hd.
  { intros d ?. rewrite digit_char_10 by lia. unfold is_digit. lia. }
  destruct (Z.ltb_spec n 10); constructor; try (constructor || apply Hd; lia).
  - apply Hd, Z.mod_pos_bound. lia.
  - apply IH, Z.div_pos; lia.
Qed.

Lemma digit_ascii bs : Forall (λ b, is_digit b = true) bs → Forall ascii_byte bs.
Proof. intros H. eapply Forall_impl; [exact H|]. unfold is_digit, ascii_byte. lia. Qed.

Lemma to_bytes_FormatInt n : 0 ≤ n → to_bytes (FormatInt n) = format_uint 10 n.
Proof.
  intros Hn. unfold FormatInt. replace (n <? 0) with false by lia.
  apply to_of_bytes, ascii_is_byte, digit_ascii, format_uint_digits, Hn.
Qed.

Lemma format_uint_value n : 0 ≤ n → digits_value 0 (format_uint 10 n) = Some n.
Proof.
  intros Hn. apply digits_value_format. split; [done|]. unfold digits_fuel. rewrite Nat2Z.inj_succ, Z2Nat.id by apply Z.log2_nonneg.
  destruct (Z.eq_dec n 0) as [->|]; [done|]. destruct (Z.log2_spec n) as [_ H]; [lia|].
  eapply Z.lt_le_trans; [exact H|]. apply Z.pow_le_mono_l. pose proof (Z.log2_nonneg n). lia.
Qed.
Lemma FormatInt_inj m n : 0 ≤ m → 0 ≤ n → FormatInt m = FormatInt n → m = n.
Proof.
  intros Hm Hn E. apply (f_equal to_bytes) in E. rewrite !to_bytes_FormatInt in E by done.
  apply (f_equal (digits_value 0)) in E. rewrite !format_uint_value in E by done. by injection E.
Qed.

(** [strconv.ParseInt(strconv.FormatInt(n, 10), 10, 64)] *)
Lemma ParseInt_FormatInt n : 0 ≤ n ≤ max_int64 → ParseInt (FormatInt n) = Some n.
Proof.
  intros Hn. unfold ParseInt. rewrite to_bytes_FormatInt by lia.
  pose proof (format_uint_digits n ltac:(lia)) as Hd.
  assert (digits_value 0 (format_uint 10 n) = Some n) as Hv.
  { apply format_uint_value; lia. }
  destruct (format_uint 10 n) as [|b bs] eqn:E.
  { unfold format_uint in E. apply fmap_nil_inv in E.
    apply (f_equal length) in E. rewrite length_reverse in E.
    destruct (digits_rev 10 (digits_fuel n) n) eqn:F; [by apply digits_rev_nonnil in F|done]. }
  apply Forall_cons in Hd as [Hb _]. unfold is_digit in Hb.
  replace (b =? 45) with false by lia. replace (b =? 43) with false by lia.
  rewrite Hv. cbn. unfold max_int64, min_int64 in *.
  replace ((- 2 ^ 63 <=? n) && (n <=? 2 ^ 63 - 1)) with true by lia. done.
Qed.

(** The number of digits of a value below [base ^ (k + 1)]. *)
Lemma digits_rev_length base k : ∀ fuel n,
  1 < base → 0 ≤ n < base ^ Z.of_nat (S k) → (length (digits_rev base fuel n) ≤ S k)%nat.
Proof.
  induction k as [|k IH]; intros [|fuel] n Hb Hn; cbn [digits_rev]; try (cbn; lia);
    destruct (Z.ltb_spec n base); cbn [length]; try lia.
  apply le_n_S, IH; [done|]. split; [apply Z.div_pos; lia|].
  apply Z.div_lt_upper_bound; [lia|].
  replace (Z.of_nat (S (S k))) with (Z.succ (Z.of_nat (S k))) in Hn by lia.
  rewrite Z.pow_succ_r in Hn by lia. lia.
Qed.

Lemma length_FormatInt k n :
  0 ≤ n < 10 ^ Z.of_nat (S k) → (String.length (FormatInt n) ≤ S k)%nat.
Proof.
  intros Hn. rewrite <-length_to_bytes, to_bytes_FormatInt by lia.
  unfold format_uint. rewrite length_fmap, length_reverse. apply digits_rev_length; lia.
Qed.

(** [TrimSpace] leaves a string of non-space ASCII characters as it is. *)
Lemma TrimSpace_id bs :
  Forall ascii_byte bs → Forall (λ b, is_space b = false) bs →
  TrimSpace (of_bytes bs) = of_bytes bs.
Proof.
  intros Ha Hs. rewrite TrimSpace_ascii by done. rewrite Forall_forall in Hs.
  rewrite trim_both_id; [done| |]; intros x Hx; apply Hs.
  - destruct bs; cbn in Hx; [done|]. injection Hx as ->. by left.
  - rewrite <-head_reverse in Hx. apply elem_of_reverse.
    destruct (reverse bs); cbn in Hx; [done|]. injection Hx as ->. by left.
Qed.

Lemma digit_not_space bs :
  Forall (λ b, is_digit b = true) bs → Forall (λ b, is_space b = false) bs.
Proof. intros H. eapply Forall_impl; [exact H|]. unfold is_digit, is_space. lia. Qed.

Lemma TrimSpace_FormatInt n : 0 ≤ n → TrimSpace (FormatInt n) = FormatInt n.
Proof.
  intros Hn. pose proof (format_uint_digits n Hn).
  unfold FormatInt. replace (n <? 0) with false by lia.
  apply TrimSpace_id; [by apply digit_ascii | by apply digit_not_space].
Qed.

Lemma FormatInt_nonempty n : 0 ≤ n → FormatInt n ≠ EmptyString.
Proof.
  intros Hn E. apply (f_equal to_bytes) in E. rewrite to_bytes_FormatInt in E by done.
  unfold format_uint in E. apply fmap_nil_inv in E.
  apply (f_equal length) in E. rewrite length_reverse in E.
  destruct (digits_rev 10 (digits_fuel n) n) eqn:F; [by apply digits_rev_nonnil in F|done].
Qed.

(** ** Runes of a part of a text

    Decoding does not depend on what was cut off, so trimming is idempotent. *)

Lemma runes_first b0 r0 : ∃ r seg rest, b0 :: r0 = seg ++ rest ∧ seg ≠ [] ∧ runes (b0 :: r0) = (r, seg) :: runes rest ∧
  ∀ k, runes (seg ++ take k rest) = (r, seg) :: runes (take k rest).
Proof.
  destruct (b0 <? 0x80) eqn:E0.
  { exists b0, [b0], r0. cbn [runes app]. rewrite E0. split_and!; try done; intros k; cbn [runes]; rewrite ?E0; done. }
  destruct r0 as [|b1 r1].
  { exists RuneError, [b0], []. cbn [runes app]. rewrite E0. split_and!; try done; intros k; rewrite ?take_nil; cbn [runes]; rewrite ?E0; done. }
  destruct ((0xC2 <=? b0) && (b0 <=? 0xDF) && cont b1) eqn:E1.
  { eexists _, [b0; b1], r1. cbn [runes app]. rewrite E0, E1. split_and!; try done; intros k; cbn [runes app]; rewrite ?E0, ?E1; done. }
  destruct r1 as [|b2 r2].
  { exists RuneError, [b0], [b1]. cbn [runes app]. rewrite E0, E1. split_and!; try done; intros [|k]; cbn [take app]; rewrite ?take_nil; cbn [runes]; rewrite ?E0, ?E1; done. }
  destruct ((0xE0 <=? b0) && (b0 <=? 0xEF) && second_ok b0 b1 && cont b2) eqn:E2.
  { eexists _, [b0; b1; b2], r2. cbn [runes app]. rewrite E0, E1, E2. split_and!; try done; intros k; cbn [runes app]; rewrite ?E0, ?E1, ?E2; done. }
  destruct r2 as [|b3 r3].
  { exists RuneError, [b0], [b1; b2]. cbn [runes app]. rewrite E0, E1, E2. split_and!; try done; intros [|[|k]]; cbn [take app]; rewrite ?take_nil; cbn [runes]; rewrite ?E0, ?E1, ?E2; done. }
  destruct ((0xF0 <=? b0) && (b0 <=? 0xF4) && second_ok b0 b1 && cont b2 && cont b3) eqn:E3.
  { eexists _, [b0; b1; b2; b3], r3. cbn [runes app]. rewrite E0, E1, E2, E3. split_and!; try done; intros k; cbn [runes app]; rewrite ?E0, ?E1, ?E2, ?E3; done. }
  exists RuneError, [b0], (b1 :: b2 :: b3 :: r3). split; [done|]. split; [done|]. split.
  - cbn [runes app]. rewrite ?E0, ?E1, ?E2, ?E3; done.
  - intros [|[|[|k]]]; cbn [take app]; cbn [runes]; rewrite ?E0, ?E1, ?E2, ?E3; done.
Qed.

Definition text_of (l : list (Z * list Z)) : list Z := concat ((λ p : Z * list Z, p.2) <$> l).

Lemma text_of_runes n : ∀ bs, (length bs ≤ n)%nat → text_of (runes bs) = bs ∧
  ∀ l1 l2, runes bs = l1 ++ l2 → runes (text_of l1) = l1 ∧ runes (text_of l2) = l2.
Proof.
  induction n as [|n IH]; intros bs HL.
  { destruct bs; [|cbn in HL; lia]. split; [done|]. by intros [] []. }
  destruct bs as [|b0 r0]. { split; [done|]. by intros [] []. }
  destruct (runes_first b0 r0) as (r & seg & rest & E & Hseg & ER & HK).
  destruct (IH rest) as [IH1 IH2]. { rewrite E in HL. destruct seg; [done|]. rewrite length_app in HL. cbn in HL. lia. }
  rewrite ER, E. split.
  - unfold text_of in *. cbn. by rewrite IH1.
  - intros [|[r' seg'] l1] l2 EL; cbn [app] in EL.
    + subst l2. split; [done|]. unfold text_of in *. cbn. by rewrite IH1, <-E, ER.
    + injection EL as <- <- EL. destruct (IH2 _ _ EL) as [H1 H2]. split; [|done].
      unfold text_of at 1. cbn. fold (text_of l1).
      assert (take (length (text_of l1)) rest = text_of l1) as HT.
      { rewrite <-IH1, EL. unfold text_of. rewrite fmap_app, concat_app. apply take_app_length. }
      specialize (HK (length (text_of l1))). rewrite HT in HK. by rewrite HK, H1.
Qed.

Lemma TrimSpace_idemp s : TrimSpace (TrimSpace s) = TrimSpace s.
Proof.
  unfold TrimSpace. set (f := λ p : Z * list Z, is_space p.1). set (l := runes (to_bytes s)).
  destruct (trim_both_infix f l) as (a & b & EL). fold (text_of (trim_both f l)).
  destruct (text_of_runes _ _ (le_n (length (to_bytes s)))) as [HT HS]. fold l in HT, HS.
  destruct (HS a (trim_both f l ++ b)) as [_ H1]; [exact EL|].
  destruct (text_of_runes _ _ (le_n (length (text_of (trim_both f l ++ b))))) as [_ HS2].
  destruct (HS2 (trim_both f l) b H1) as [H2 _]. rewrite to_of_bytes, H2, trim_both_idemp; [done|].
  assert (to_bytes s = text_of a ++ text_of (trim_both f l) ++ text_of b) as EB.
  { rewrite <-HT, EL at 1. unfold text_of. by rewrite !fmap_app, !concat_app. }
  pose proof (to_bytes_range s) as HR. rewrite EB, !Forall_app in HR. apply HR.
Qed.

Lemma second_high b0 b1 : second_ok b0 b1 = true → 0x80 ≤ b1.
Proof. unfold second_ok, cont. repeat case_match; lia. Qed.
Lemma runes_tails n : ∀ bs, (length bs ≤ n)%nat → Forall (λ p : Z * list Z, Forall (λ b, 0x80 ≤ b) (tail p.2)) (runes bs).
Proof.
  induction n as [|n IH]; intros [|b0 r0] HL; try constructor; [cbn in HL; lia|]. cbn [runes].
  destruct r0 as [|b1 [|b2 [|b3 r3]]]; repeat case_match; (constructor; [|apply IH; cbn in HL |- *; lia]); cbn [snd tail];
    repeat match goal with H : _ && _ = true |- _ => apply andb_true_iff in H as [? ?] | H : second_ok _ _ = true |- _ => apply second_high in H end;
    unfold cont in *; repeat constructor; lia.
Qed.

(** Text is decoded on both sides of an ASCII character on its own. *)
Lemma runes_boundary n : ∀ a c b, (length a ≤ n)%nat → c < 0x80 → runes (a ++ c :: b) = runes a ++ runes (c :: b).
Proof.
  induction n as [|n IH]; intros [|b0 r0] c b HL Hc; [done|cbn in HL; lia|done|].
  destruct (runes_first b0 (r0 ++ c :: b)) as (r & seg & rest & E & Hseg & ER & HK).
  assert (Forall (λ y, 0x80 ≤ y) (tail seg)) as HT.
  { pose proof (runes_tails _ _ (le_n (length (b0 :: r0 ++ c :: b)))) as H. rewrite ER in H. by apply Forall_cons in H as [H _]. }
  change ((b0 :: r0) ++ c :: b) with (b0 :: r0 ++ c :: b). rewrite ER.
  change (b0 :: r0 ++ c :: b) with ((b0 :: r0) ++ c :: b) in E.
  apply app_eq_inv in E as [(k & E1 & E2)|(k & E1 & E2)].
  - destruct seg as [|x seg]; [done|]. subst rest. specialize (HK (length k)). rewrite take_app_length, <-E1 in HK. rewrite HK.
    rewrite IH; [done| |done]. apply (f_equal length) in E1. rewrite length_app in E1. cbn in E1, HL. lia.
  - destruct k as [|y k].
    + cbn in E2. subst rest. rewrite app_nil_r in E1. subst seg. specialize (HK 0%nat). rewrite take_0, app_nil_r in HK. by rewrite HK.
    + exfalso. injection E2 as <- _. subst seg. cbn in HT. rewrite Forall_app, Forall_cons in HT. lia.
Qed.

Lemma of_bytes_app a b : of_bytes (a ++ b) = of_bytes a +:+ of_bytes b.
Proof. induction a as [|x a IH]; cbn; [done|]. by rewrite IH. Qed.
Lemma map_runes_slash f s t : f 47 = 47 → map_runes f (s +:+ "/" +:+ t) = map_runes f s +:+ "/" +:+ map_runes f t.
Proof.
  intros Hf. unfold map_runes. rewrite !to_bytes_app. cbn [to_bytes app].
  change (byte_of "/"%char) with 47. rewrite (runes_boundary _ _ _ _ (le_n _)) by lia. cbn [runes]. change (47 <? 128) with true. cbn match.
  rewrite fmap_app, concat_app, of_bytes_app. f_equal. cbn [fmap list_fmap concat]. cbn [fst]. rewrite Hf. by rewrite of_bytes_app.
Qed.
