(* ===== verification/GoPath.v ===== *)
(** * Slash-separated paths

    [strings.Split] and [strings.Join] at slashes, and the functions of Go's
    [path] (and of [path/filepath] on POSIX hosts) that the copy code uses. *)

From Stdlib Require Import ZArith Lia Ascii.
From stdpp Require Import gmap strings prelude.
From S2P Require Import Prelude GoText.
Local Open Scope string_scope.
Local Open Scope crab_scope.

(** ** Definitions *)

Definition slash : ascii := "/"%char.

(** [strings.Split(s, "/")] and [strings.Join(xs, "/")] *)
Fixpoint Split (s : string) : list string :=
  match s with
  | EmptyString => [""]
  | String a s =>
      if Ascii.eqb a slash then "" :: Split s
      else match Split s with x :: xs => String a x :: xs | [] => [String a ""] end
  end.
Fixpoint join_slash (xs : list string) : string :=
  match xs with
  | [] => ""
  | [x] => x
  | x :: xs => x +:+ "/" +:+ join_slash xs
  end.

(** One element of a path, with the elements before it in reverse. *)
Definition clean_step (rooted : bool) (stack : list string) (elem : string) : list string :=
  if (elem =s "") || (elem =s ".") then stack
  else if elem =s ".." then
    match stack with
    | top :: rest => if top =s ".." then elem :: stack else rest
    | [] => if rooted then [] else [elem]
    end
  else elem :: stack.
Definition elements (rooted : bool) (s : string) : list string :=
  reverse (foldl (clean_step rooted) [] (Split s)).

(** [path.Clean] *)
Definition IsAbs (s : string) : bool := HasPrefix s "/".
Definition Clean (s : string) : string :=
  if s =s "" then "."
  else
    let body := join_slash (elements (IsAbs s) s) in
    if IsAbs s then "/" +:+ body else if body =s "" then "." else body.

(** [path.Join] of two elements *)
Definition path_Join (a b : string) : string :=
  if a =s "" then if b =s "" then "" else Clean b else Clean (a +:+ "/" +:+ b).

(** [path.Dir] *)
Definition Dir (s : string) : string :=
  let dir := removelast (Split s) in
  Clean (if bool_decide (dir = []) then "" else join_slash dir +:+ "/").

(** [filepath.IsLocal] *)
Definition IsLocal (s : string) : bool :=
  if IsAbs s || (s =s "") then false
  else
    let s := if existsb (λ part, (part =s ".") || (part =s "..")) (Split s) then Clean s else s in
    negb ((s =s "..") || HasPrefix s "../").

(** The components a POSIX kernel walks for an absolute path without links. *)
Definition components (s : string) : list string := elements true s.

(** ** Facts *)

(** An ordinary name: one component that names an entry. *)
Definition plain (x : string) : Prop := x ≠ "" ∧ x ≠ "." ∧ x ≠ ".." ∧ Split x = [x].
#[export] Instance plain_dec x : Decision (plain x).
Proof. unfold plain. apply _. Defined.

Lemma Split_nonempty s : Split s ≠ [].
Proof. destruct s as [|a s]; [done|]. cbn. destruct (Ascii.eqb a slash); [done|]. by destruct (Split s). Qed.

Lemma Split_slash s t : Split (s +:+ "/" +:+ t) = (Split s ++ Split t)%list.
Proof.
  induction s as [|a s IH]; [done|]. change (Split (String a (s +:+ "/" +:+ t)) = (Split (String a s) ++ Split t)%list).
  cbn [Split]. destruct (Ascii.eqb a slash); [by rewrite IH|]. rewrite IH.
  destruct (Split s) as [|x xs] eqn:E; [by destruct (Split_nonempty s)|done].
Qed.

Lemma join_cons x xs : xs ≠ [] → join_slash (x :: xs) = x +:+ "/" +:+ join_slash xs.
Proof. by destruct xs. Qed.

Lemma join_Split s : join_slash (Split s) = s.
Proof.
  induction s as [|a s IH]; [done|]. cbn [Split]. destruct (Ascii.eqb_spec a slash) as [->|].
  - rewrite join_cons by apply Split_nonempty. by rewrite IH.
  - destruct (Split s) as [|x [|y xs]] eqn:E; [by destruct (Split_nonempty s)|..].
    + cbn in *. by rewrite IH.
    + change (String a (join_slash (x :: y :: xs)) = String a s). by rewrite IH.
Qed.

Lemma Split_join xs : xs ≠ [] → Forall (λ x, Split x = [x]) xs → Split (join_slash xs) = xs.
Proof.
  intros Hne H. induction H as [|x xs Hx Hxs IH]; [done|]. destruct xs as [|y xs]; [done|].
  rewrite join_cons, Split_slash, Hx, IH by done. done.
Qed.

Lemma Split_parts s : Forall (λ x, Split x = [x]) (Split s).
Proof.
  induction s as [|a s IH]; [by repeat constructor|]. cbn [Split]. destruct (Ascii.eqb a slash) eqn:Ea; [by constructor|].
  destruct (Split s) as [|x xs]; [by repeat constructor; cbn; rewrite Ea|].
  apply Forall_cons in IH as [Hx Hxs]. constructor; [|done]. cbn. by rewrite Ea, Hx.
Qed.

(** Cleaning a path of ordinary names leaves it alone. *)
Lemma clean_plain rooted xs stack : Forall plain xs → foldl (clean_step rooted) stack xs = (reverse xs ++ stack)%list.
Proof.
  intros H. revert stack. induction H as [|x xs (H1 & H2 & H3 & _) _ IH]; intros stack; [done|].
  cbn [foldl]. unfold clean_step at 2. rewrite !bool_decide_eq_false_2 by done. cbn [orb].
  by rewrite IH, reverse_cons, <-app_assoc.
Qed.
Lemma elements_plain rooted xs : xs ≠ [] → Forall plain xs → elements rooted (join_slash xs) = xs.
Proof.
  intros Hne H. unfold elements. rewrite Split_join; [|done|by eapply Forall_impl; [exact H|intros ? (_ & _ & _ & ?)]].
  by rewrite clean_plain, app_nil_r, reverse_involutive.
Qed.

Lemma join_app xs ys : xs ≠ [] → ys ≠ [] → join_slash (xs ++ ys) = join_slash xs +:+ "/" +:+ join_slash ys.
Proof.
  intros Hx Hy. induction xs as [|x xs IH]; [done|]. destruct xs as [|x' xs].
  - change ([x] ++ ys)%list with (x :: ys). by rewrite join_cons.
  - change ((x :: x' :: xs) ++ ys)%list with (x :: ((x' :: xs) ++ ys)%list).
    rewrite join_cons, IH by (try done; by destruct ys). rewrite (join_cons x) by done.
    by rewrite !append_assoc.
Qed.

Lemma join_empty xs : Forall (λ x, x ≠ "") xs → join_slash xs = "" → xs = [].
Proof. intros H E. destruct H as [|x xs Hx Hxs]; [done|]. by destruct xs, x. Qed.

(** What [Clean] keeps: ordinary names, but for leading [..] of a relative path. *)
Lemma elements_proper rooted s : rooted = true ∨ ".." ∉ Split s → Forall plain (elements rooted s).
Proof.
  intros Hd. unfold elements. apply Forall_reverse. pose proof (Split_parts s) as Hparts.
  assert (Forall plain []) as H0 by constructor. revert H0. generalize (@nil string) as stack.
  induction Hparts as [|x xs Hx _ IH]; intros stack Hs; [done|]. cbn [foldl]. apply IH.
  { destruct Hd as [->|Hd]; [by left|right]. intros H. apply Hd. by right. }
  unfold clean_step. destruct (decide (x = "")) as [->|H1]; [done|]. destruct (decide (x = ".")) as [->|H2]; [done|].
  rewrite !(bool_decide_eq_false_2 (x = _)) by done. cbn [orb]. destruct (decide (x = "..")) as [->|H3].
  - rewrite bool_decide_eq_true_2 by done. destruct Hd as [->|Hd]; [|destruct Hd; by left].
    destruct Hs as [|top rest (Ht & Hdot & Hdd & Hsp) Hr]; [done|]. by rewrite bool_decide_eq_false_2.
  - rewrite bool_decide_eq_false_2 by done. by constructor.
Qed.

Lemma elements_slash rooted a b : Forall plain (Split b) → elements rooted (a +:+ "/" +:+ b) = (elements rooted a ++ Split b)%list.
Proof.
  intros H. unfold elements. rewrite Split_slash, foldl_app, clean_plain by done. by rewrite reverse_app, reverse_involutive.
Qed.
Lemma elements_trailing rooted a : elements rooted (a +:+ "/") = elements rooted a.
Proof. unfold elements. change (a +:+ "/") with (a +:+ "/" +:+ ""). by rewrite Split_slash, foldl_app. Qed.

Lemma Clean_abs s : IsAbs s = true → Clean s = "/" +:+ join_slash (components s).
Proof. intros H. unfold Clean. rewrite H. by destruct s. Qed.

Lemma components_absolute xs : Forall plain xs → components ("/" +:+ join_slash xs) = xs.
Proof.
  intros H. unfold components, elements.
  change ("/" +:+ join_slash xs) with ("" +:+ "/" +:+ join_slash xs). rewrite Split_slash, foldl_app. cbn [foldl].
  destruct xs as [|x xs]; [done|].
  rewrite Split_join; [|done|by eapply Forall_impl; [exact H|intros ? (_ & _ & _ & ?)]].
  change (clean_step true [] "") with (@nil string). by rewrite clean_plain, app_nil_r, reverse_involutive.
Qed.
Lemma components_Clean s : IsAbs s = true → components (Clean s) = components s.
Proof. intros H. rewrite Clean_abs by done. apply components_absolute, elements_proper. by left. Qed.

Lemma IsAbs_app s t : IsAbs s = true → IsAbs (s +:+ t) = true.
Proof. unfold IsAbs. intros [u ->]%prefix_split. rewrite <-append_assoc. apply prefix_app. Qed.

(** Joining ordinary names to an absolute path. *)
Lemma Join_absolute a b : IsAbs a = true → Forall plain (Split b) →
  path_Join a b = "/" +:+ join_slash (components a ++ Split b)%list.
Proof.
  intros Ha Hb. unfold path_Join. rewrite bool_decide_eq_false_2 by (by intros ->).
  rewrite Clean_abs by (by apply IsAbs_app). unfold components. by rewrite elements_slash.
Qed.
Lemma components_Join a b : IsAbs a = true → Forall plain (Split b) →
  components (path_Join a b) = (components a ++ Split b)%list ∧ IsAbs (path_Join a b) = true.
Proof.
  intros Ha Hb. rewrite Join_absolute by done. split; [|apply prefix_app].
  apply components_absolute, Forall_app. split; [apply elements_proper; by left|done].
Qed.

(** A clean relative path without [..]. *)
Lemma Clean_relative s : IsAbs s = false → ".." ∉ Split s → Clean s ≠ "." →
  elements false s ≠ [] ∧ Clean s = join_slash (elements false s) ∧ Split (Clean s) = elements false s.
Proof.
  intros Ha Hd Hc. pose proof (elements_proper false s (or_intror Hd)) as Hp. revert Hc. unfold Clean. rewrite Ha.
  destruct (decide (s = "")) as [->|Hs]; [done|]. rewrite (bool_decide_eq_false_2 (s = "")) by done.
  destruct (decide (elements false s = [])) as [E|E]; [by rewrite E|].
  rewrite bool_decide_eq_false_2.
  - intros _. split; [done|]. split; [done|]. apply Split_join; [done|].
    eapply Forall_impl; [exact Hp|]. by intros x (_ & _ & _ & ?).
  - intros H. apply E, join_empty; [|done]. eapply Forall_impl; [exact Hp|]. by intros x [? _].
Qed.

(** The directory of a path of ordinary names. *)
Lemma plain_first x s : plain x → IsAbs (x +:+ s) = false.
Proof.
  intros (Hne & _ & _ & Hs). destruct x as [|a x]; [done|]. apply not_true_iff_false. intros [t E]%prefix_split.
  change (String a (x +:+ s) = String slash t) in E. injection E as -> _.
  cbn in Hs. by destruct (Split_nonempty x).
Qed.
Lemma join_relative xs s : xs ≠ [] → Forall plain xs → IsAbs (join_slash xs +:+ s) = false ∧ join_slash xs ≠ "".
Proof.
  intros Hne H. split.
  - destruct H as [|x xs Hx _]; [done|]. destruct xs as [|y xs]; [by apply plain_first|].
    rewrite join_cons by done. rewrite <-append_assoc. by apply plain_first.
  - intros E. apply join_empty in E; [done|]. eapply Forall_impl; [exact H|]. by intros x [? _].
Qed.

Lemma Dir_plain s : Forall plain (Split s) →
  removelast (Split s) = [] ∧ Dir s = "." ∨
  removelast (Split s) ≠ [] ∧ Dir s ≠ "" ∧ Dir s ≠ "." ∧ Split (Dir s) = removelast (Split s).
Proof.
  intros H. unfold Dir. destruct (decide (removelast (Split s) = [])) as [E|E]; [left; by rewrite E|right].
  assert (Forall plain (removelast (Split s))) as Hd.
  { pose proof (app_removelast_last "" (Split_nonempty s)) as Hs. rewrite Hs in H. by apply Forall_app in H as [? _]. }
  split; [done|]. rewrite bool_decide_eq_false_2 by done. clear H. revert E Hd. generalize (removelast (Split s)).
  intros dir E Hd. destruct (join_relative dir "/" E Hd) as [Ha Hne].
  assert (Split (join_slash dir) = dir) as Hs.
  { apply Split_join; [done|]. eapply Forall_impl; [exact Hd|]. by intros x (_ & _ & _ & ?). }
  assert (Clean (join_slash dir +:+ "/") = join_slash dir) as ->.
  { unfold Clean. rewrite Ha, elements_trailing, elements_plain by done.
    rewrite !bool_decide_eq_false_2; [done|done|]. intros E'. by destruct (join_slash dir). }
  split; [done|]. split; [|done]. intros E'. rewrite E' in Hs. cbn in Hs. subst dir.
  by apply Forall_cons in Hd as [(_ & ? & _) _].
Qed.

(** Joining an ordinary name to a relative path of ordinary names. *)
Lemma Join_relative xs x : xs ≠ [] → Forall plain xs → plain x → path_Join (join_slash xs) x = join_slash (xs ++ [x])%list.
Proof.
  intros Hne Hxs Hx. assert (Forall plain (xs ++ [x])%list) as Hall.
  { apply Forall_app. split; [done|]. by apply Forall_singleton. }
  destruct (join_relative xs ("/" +:+ x) Hne Hxs) as [Ha Hn].
  unfold path_Join. rewrite bool_decide_eq_false_2 by done.
  assert (join_slash xs +:+ "/" +:+ x = join_slash (xs ++ [x])%list) as E by (by rewrite join_app).
  unfold Clean. rewrite Ha, E, elements_plain by (try done; by destruct xs).
  destruct (join_relative (xs ++ [x])%list "" ltac:(by destruct xs) Hall) as [_ Hn'].
  by rewrite !bool_decide_eq_false_2.
Qed.
Lemma Clean_plain xs : xs ≠ [] → Forall plain xs → Clean (join_slash xs) = join_slash xs.
Proof.
  intros Hne H. destruct (join_relative xs "" Hne H) as [Ha Hn]. rewrite append_empty in Ha.
  unfold Clean. rewrite Ha, elements_plain by done. by rewrite !bool_decide_eq_false_2.
Qed.

Lemma plain_Split xs : xs ≠ [] → Forall plain xs → Split (join_slash xs) = xs.
Proof. intros Hne H. apply Split_join; [done|]. eapply Forall_impl; [exact H|]. by intros x (_ & _ & _ & ?). Qed.

(** A path of ordinary names goes nowhere else. *)
Lemma plain_stays xs : xs ≠ [] → Forall plain xs →
  (∀ x, x ∈ ["."; ".."] → join_slash xs ≠ x) ∧ HasPrefix (join_slash xs) "../" = false.
Proof.
  intros Hne H. pose proof (plain_Split xs Hne H) as Hs. split.
  - intros x Hx E. rewrite E in Hs.
    assert (xs = [x]) as -> by (apply elem_of_cons in Hx as [->|[->|[]%elem_of_nil]%elem_of_cons]; by cbn in Hs).
    apply Forall_cons in H as [(_ & ? & ? & _) _].
    by apply elem_of_cons in Hx as [->|[->|[]%elem_of_nil]%elem_of_cons].
  - apply not_true_iff_false. intros [t E]%prefix_split. rewrite E in Hs.
    change ("../" +:+ t) with (".." +:+ "/" +:+ t) in Hs. rewrite Split_slash in Hs. subst xs.
    apply Forall_cons in H as [(_ & _ & ? & _) _]. done.
Qed.
