(* ===== verification/GoJson.v ===== *)
(** * JSON text ([encoding/json])

    The grammar of JSON as Go reads and writes it: a value keeps the characters
    of its strings and the digits of its numbers as written, so that printing a
    parsed value gives its compact text.  Bytes are [Z]s; text that is not
    UTF-8 is the caller's concern ([utf8.Valid]). *)

From Stdlib Require Import ZArith Lia.
From stdpp Require Import gmap strings prelude.
From S2P Require Import Prelude GoText.
Local Open Scope Z_scope.

(** ** Values *)

(** A character of a string: a byte as it is, a two-character escape (by its
    second character), or the four digits of a [\u] escape. *)
Inductive schar :=
  | Plain (b : Z)
  | Escaped (b : Z)
  | Unicode (a b c d : Z).

(** A number as written. *)
Record number := Number {
  n_negative : bool;
  n_int : list Z;
  n_frac : option (list Z);
  n_exp : option (Z * option Z * list Z)  (** the letter, the sign, the digits *) }.

Inductive json :=
  | Null
  | Bool (b : bool)
  | Num (n : number)
  | Str (s : list schar)
  | Arr (l : list json)
  | Obj (l : list (list schar * json)).

(** ** Printing *)

Definition print_schar (c : schar) : list Z :=
  match c with
  | Plain b => [b]
  | Escaped b => [92; b]
  | Unicode a b c d => [92; 117; a; b; c; d]
  end.
Definition print_string (s : list schar) : list Z := 34 :: concat (print_schar <$> s) ++ [34].

Definition print_exp (e : Z * option Z * list Z) : list Z :=
  e.1.1 :: match e.1.2 with Some sign => [sign] | None => [] end ++ e.2.
Definition print_number (n : number) : list Z :=
  (if n_negative n then [45] else []) ++ n_int n ++
  match n_frac n with Some ds => 46 :: ds | None => [] end ++
  match n_exp n with Some e => print_exp e | None => [] end.

(** Items separated by commas. *)
Fixpoint commas (l : list (list Z)) : list Z :=
  match l with
  | [] => []
  | [x] => x
  | x :: l => x ++ 44 :: commas l
  end.

Fixpoint print (v : json) : list Z :=
  match v with
  | Null => [110; 117; 108; 108]
  | Bool true => [116; 114; 117; 101]
  | Bool false => [102; 97; 108; 115; 101]
  | Num n => print_number n
  | Str s => print_string s
  | Arr l => 91 :: commas (print <$> l) ++ [93]
  | Obj l => 123 :: commas ((λ kv, print_string kv.1 ++ 58 :: print kv.2) <$> l) ++ [125]
  end.

(** ** Parsing *)

Definition is_ws (b : Z) : bool := (b =? 32) || (b =? 9) || (b =? 13) || (b =? 10).
Definition skip : list Z → list Z := drop_while is_ws.

Fixpoint span (f : Z → bool) (bs : list Z) : list Z * list Z :=
  match bs with
  | b :: r => if f b then let '(x, y) := span f r in (b :: x, y) else ([], bs)
  | [] => ([], [])
  end.

(** Digits, at least one. *)
Definition digits (bs : list Z) : option (list Z * list Z) :=
  match span is_digit bs with ([], _) => None | p => Some p end.

Definition parse_int (bs : list Z) : option (list Z * list Z) :=
  match bs with
  | 48 :: r => Some ([48], r)
  | _ => digits bs
  end.

Definition parse_frac (bs : list Z) : option (option (list Z) * list Z) :=
  match bs with
  | 46 :: r => '(ds, r) ← digits r; Some (Some ds, r)
  | _ => Some (None, bs)
  end.

Definition is_e (b : Z) : bool := (b =? 101) || (b =? 69).
Definition is_sign (b : Z) : bool := (b =? 43) || (b =? 45).

Definition parse_exp (bs : list Z) : option (option (Z * option Z * list Z) * list Z) :=
  match bs with
  | e :: r =>
      if is_e e then
        match r with
        | s :: r' =>
            if is_sign s then '(ds, r) ← digits r'; Some (Some (e, Some s, ds), r)
            else '(ds, r) ← digits r; Some (Some (e, None, ds), r)
        | [] => None
        end
      else Some (None, bs)
  | [] => Some (None, bs)
  end.

Definition parse_number (bs : list Z) : option (number * list Z) :=
  let '(neg, r) := match bs with 45 :: r => (true, r) | _ => (false, bs) end in
  '(int, r) ← parse_int r;
  '(frac, r) ← parse_frac r;
  '(exp, r) ← parse_exp r;
  Some (Number neg int frac exp, r).

Definition is_hex (b : Z) : bool := match hex_value b with Some _ => true | None => false end.
Definition is_escape (b : Z) : bool :=
  bool_decide (b ∈ [34; 92; 47; 98; 102; 110; 114; 116]).
Definition is_plain (b : Z) : bool := (32 <=? b) && negb (b =? 34) && negb (b =? 92).

(** The characters of a string after its opening quote. *)
Fixpoint parse_chars (bs : list Z) : option (list schar * list Z) :=
  match bs with
  | [] => None
  | b :: r =>
      if b =? 34 then Some ([], r)
      else if b =? 92 then
        match r with
        | [] => None
        | e :: r =>
            if e =? 117 then
              match r with
              | h1 :: h2 :: h3 :: h4 :: r =>
                  if is_hex h1 && is_hex h2 && is_hex h3 && is_hex h4
                  then '(s, r) ← parse_chars r; Some (Unicode h1 h2 h3 h4 :: s, r) else None
              | _ => None
              end
            else if is_escape e then '(s, r) ← parse_chars r; Some (Escaped e :: s, r) else None
        end
      else if is_plain b then '(s, r) ← parse_chars r; Some (Plain b :: s, r)
      else None
  end.

Definition literal (word : list Z) (v : json) (bs : list Z) : option (json * list Z) :=
  if bool_decide (take (length word) bs = word) then Some (v, drop (length word) bs) else None.

(** A member of an object: its key, the text of its value and the value. *)
Definition member : Type := list schar * list Z * json.

(** A value at the start of [bs]; the elements of an array up to its closing
    bracket; the members of an object up to its closing brace. *)
Fixpoint value (fuel : nat) (bs : list Z) : option (json * list Z) :=
  match fuel with
  | O => None
  | S fuel =>
      match bs with
      | [] => None
      | b :: r =>
          if b =? 110 then literal [110; 117; 108; 108] Null bs
          else if b =? 116 then literal [116; 114; 117; 101] (Bool true) bs
          else if b =? 102 then literal [102; 97; 108; 115; 101] (Bool false) bs
          else if b =? 34 then '(s, r) ← parse_chars r; Some (Str s, r)
          else if b =? 91 then
            match skip r with
            | 93 :: r => Some (Arr [], r)
            | r => '(l, r) ← elements fuel r; Some (Arr l, r)
            end
          else if b =? 123 then '(l, r) ← object fuel r; Some (Obj ((λ m : member, (m.1.1, m.2)) <$> l), r)
          else '(n, r) ← parse_number bs; Some (Num n, r)
      end
  end
with elements (fuel : nat) (bs : list Z) : option (list json * list Z) :=
  match fuel with
  | O => None
  | S fuel =>
      '(v, r) ← value fuel (skip bs);
      match skip r with
      | 93 :: r => Some ([v], r)
      | 44 :: r => '(l, r) ← elements fuel r; Some (v :: l, r)
      | _ => None
      end
  end
with object (fuel : nat) (bs : list Z) : option (list member * list Z) :=
  match fuel with
  | O => None
  | S fuel =>
      match skip bs with
      | 125 :: r => Some ([], r)
      | r => members fuel r
      end
  end
with members (fuel : nat) (bs : list Z) : option (list member * list Z) :=
  match fuel with
  | O => None
  | S fuel =>
      match skip bs with
      | 34 :: r =>
          '(k, r) ← parse_chars r;
          match skip r with
          | 58 :: r =>
              let start := skip r in
              '(v, r) ← value fuel start;
              let raw := take (length start - length r) start in
              match skip r with
              | 125 :: r => Some ([(k, raw, v)], r)
              | 44 :: r => '(l, r) ← members fuel r; Some ((k, raw, v) :: l, r)
              | _ => None
              end
          | _ => None
          end
      | _ => None
      end
  end.

Definition parse_fuel (bs : list Z) : nat := 4 * length bs + 4.

(** A whole text: one value with white space around it. *)
Definition parse (bs : list Z) : option json :=
  '(v, r) ← value (parse_fuel bs) (skip bs);
  match skip r with [] => Some v | _ => None end.

(** The members of a text that is one object. *)
Definition parse_object (bs : list Z) : option (list member) :=
  match skip bs with
  | 123 :: r =>
      '(l, r) ← object (parse_fuel bs) r;
      match skip r with [] => Some l | _ => None end
  | _ => None
  end.

(** ** Strings and numbers as Go values *)

Definition hex4 (a b c d : Z) : Z :=
  let h x := default 0 (hex_value x) in ((h a * 16 + h b) * 16 + h c) * 16 + h d.
Definition unescape (b : Z) : Z :=
  if b =? 98 then 8 else if b =? 102 then 12 else if b =? 110 then 10
  else if b =? 114 then 13 else if b =? 116 then 9 else b.

Definition is_surrogate (r : Z) : bool := (0xD800 <=? r) && (r <? 0xE000).
(** [utf16.DecodeRune] *)
Definition surrogate_pair (r1 r2 : Z) : option Z :=
  if (0xD800 <=? r1) && (r1 <? 0xDC00) && (0xDC00 <=? r2) && (r2 <? 0xE000)
  then Some ((r1 - 0xD800) * 1024 + (r2 - 0xDC00) + 0x10000) else None.

(** [unquote], on text that is UTF-8. *)
Fixpoint decode (s : list schar) : list Z :=
  match s with
  | [] => []
  | Plain b :: s => b :: decode s
  | Escaped b :: s => unescape b :: decode s
  | Unicode a b c d :: s =>
      let r := hex4 a b c d in
      if is_surrogate r then
        match s with
        | Unicode a' b' c' d' :: s' =>
            match surrogate_pair r (hex4 a' b' c' d') with
            | Some r => encode_rune r ++ decode s'
            | None => encode_rune RuneError ++ decode s
            end
        | _ => encode_rune RuneError ++ decode s
        end
      else encode_rune r ++ decode s
  end.

(** [strconv.ParseFloat] does not report a number as out of range: it rounds to
    a finite float64.  The largest finite number plus half a unit is
    [2^1024 - 2^970]; a number with more than 400 digits before the point, counting the
    exponent, is beyond it, and one below [10^-400] is not. *)
Definition number_fits (n : number) : bool :=
  let ds := n_int n ++ default [] (n_frac n) in
  let mantissa := default 0 (digits_value 0 ds) in
  let e := match n_exp n with
           | Some (_, sign, es) =>
               let v := default 0 (digits_value 0 es) in
               match sign with Some 45 => - v | _ => v end
           | None => 0
           end in
  let e := e - zlen (default [] (n_frac n)) in
  if mantissa =? 0 then true
  else if 400 <? e then false
  else if e <? - (400 + zlen ds) then true
  else if 0 <=? e then mantissa * 10 ^ e <? 2 ^ 1024 - 2 ^ 970
  else mantissa <? (2 ^ 1024 - 2 ^ 970) * 10 ^ (- e).

(** ** What [json.Marshal] does to the text of a [json.RawMessage]

    White space is dropped, and [<], [>], [&], U+2028 and U+2029 are escaped. *)
Definition html_escape (b : Z) : option schar :=
  if b =? 60 then Some (Unicode 48 48 51 99)
  else if b =? 62 then Some (Unicode 48 48 51 101)
  else if b =? 38 then Some (Unicode 48 48 50 54)
  else None.

Fixpoint escape_string (s : list schar) : list schar :=
  match s with
  | [] => []
  | Plain b :: s =>
      match html_escape b with
      | Some c => c :: escape_string s
      | None =>
          match s with
          | Plain c :: Plain d :: s' =>
              if (b =? 0xE2) && (c =? 0x80) && ((d =? 0xA8) || (d =? 0xA9))
              then Unicode 50 48 50 (digit_char (d - 0xA0)) :: escape_string s'
              else Plain b :: escape_string s
          | _ => Plain b :: escape_string s
          end
      end
  | c :: s => c :: escape_string s
  end.

Fixpoint escape (v : json) : json :=
  match v with
  | Str s => Str (escape_string s)
  | Arr l => Arr (escape <$> l)
  | Obj l => Obj ((λ kv, (escape_string kv.1, escape kv.2)) <$> l)
  | v => v
  end.

(** [compact] with HTML escaping: the text, or [None] when it is not JSON. *)
Definition compact (bs : list Z) : option (list Z) := print ∘ escape <$> parse bs.

(** ** Well-formed values: those whose text the grammar accepts *)

Lemma json_ind' (P : json → Prop) :
  P Null → (∀ b, P (Bool b)) → (∀ n, P (Num n)) → (∀ s, P (Str s)) →
  (∀ l, Forall P l → P (Arr l)) → (∀ l, Forall (λ kv, P kv.2) l → P (Obj l)) → ∀ v, P v.
Proof.
  intros H1 H2 H3 H4 H5 H6. fix IH 1. intros [|b|n|s|l|l]; [done|apply H2|apply H3|apply H4| |].
  - apply H5. induction l as [|v l IHl]; constructor; [apply IH|exact IHl].
  - apply H6. induction l as [|[k v] l IHl]; constructor; [apply IH|exact IHl].
Qed.

Definition schar_ok (c : schar) : bool :=
  match c with
  | Plain b => is_plain b
  | Escaped b => is_escape b
  | Unicode a b c d => is_hex a && is_hex b && is_hex c && is_hex d
  end.
Definition string_ok (s : list schar) : Prop := Forall (λ c, schar_ok c = true) s.

Definition digits_ok (ds : list Z) : Prop := ds ≠ [] ∧ Forall (λ b, is_digit b = true) ds.
Definition number_ok (n : number) : Prop :=
  (n_int n = [48] ∨ digits_ok (n_int n) ∧ head (n_int n) ≠ Some 48) ∧
  match n_frac n with Some ds => digits_ok ds | None => True end ∧
  match n_exp n with
  | Some (e, sign, ds) =>
      is_e e = true ∧ match sign with Some s => is_sign s = true | None => True end ∧ digits_ok ds
  | None => True
  end.

Fixpoint well_formed (v : json) : Prop :=
  match v with
  | Null | Bool _ => True
  | Num n => number_ok n
  | Str s => string_ok s
  | Arr l => foldr (λ v P, well_formed v ∧ P) True l
  | Obj l => foldr (λ kv P, (string_ok kv.1 ∧ well_formed kv.2) ∧ P) True l
  end.

Lemma foldr_and {A} (Q : A → Prop) l : foldr (λ x P, Q x ∧ P) True l ↔ Forall Q l.
Proof. induction l as [|x l IH]; cbn; [done|]. rewrite Forall_cons, IH. done. Qed.

(** A character after which a number has ended. *)
Definition stops (rest : list Z) : Prop :=
  match rest with [] => True | b :: _ => is_digit b = false ∧ b ≠ 46 ∧ is_e b = false end.

Lemma span_stop f ds rest : Forall (λ b, f b = true) ds →
  match rest with [] => True | b :: _ => f b = false end → span f (ds ++ rest) = (ds, rest).
Proof.
  intros H Hr. induction H as [|b ds Hb _ IH]; cbn [app].
  - destruct rest as [|b rest]; cbn; [done|]. by rewrite Hr.
  - cbn. by rewrite Hb, IH.
Qed.

Lemma digits_run ds rest : digits_ok ds → match rest with [] => True | b :: _ => is_digit b = false end →
  digits (ds ++ rest) = Some (ds, rest).
Proof. intros [Hn HF] Hr. unfold digits. rewrite span_stop by done. by destruct ds. Qed.

Lemma parse_int_run int rest : int = [48] ∨ digits_ok int ∧ head int ≠ Some 48 →
  match rest with [] => True | b :: _ => is_digit b = false end → parse_int (int ++ rest) = Some (int, rest).
Proof.
  intros [->|[Hd Hh]] Hr; [done|]. rewrite <-digits_run by done.
  destruct int as [|b int]; [by destruct Hd|]. cbn [app]. unfold parse_int.
  destruct (Z.eq_dec b 48) as [->|Hb]; [done|]. repeat (case_match; try done).
Qed.

Lemma digit_facts b : is_digit b = true → b ≠ 46 ∧ is_e b = false ∧ is_sign b = false ∧ b ≠ 45.
Proof. unfold is_digit, is_e, is_sign. lia. Qed.

Lemma parse_exp_run exp rest : stops rest →
  match exp with
  | Some (e, sign, ds) =>
      is_e e = true ∧ match sign with Some s => is_sign s = true | None => True end ∧ digits_ok ds
  | None => True
  end →
  parse_exp (match exp with Some e => print_exp e | None => [] end ++ rest) = Some (exp, rest).
Proof.
  intros Hr. destruct exp as [[[e sign] ds]|]; unfold print_exp; cbn [fst snd].
  - intros (He & Hs & Hd). cbn [app]. unfold parse_exp. rewrite He.
    assert (match rest with [] => True | b :: _ => is_digit b = false end) as Hr' by (destruct rest; [done|by destruct Hr]).
    destruct sign as [s|]; cbn [app].
    + rewrite Hs, digits_run by done. done.
    + destruct ds as [|d ds]; [by destruct Hd|]. cbn [app]. pose proof Hd as [_ [Hb _]%Forall_cons].
      destruct (digit_facts d Hb) as (_ & _ & -> & _).
      change (d :: ds ++ rest) with ((d :: ds) ++ rest). by rewrite digits_run.
  - intros _. cbn [app]. unfold parse_exp. destruct rest as [|b rest]; [done|]. destruct Hr as (_ & _ & ->). done.
Qed.

(** What follows the integer or the fraction does not continue its digits. *)
Lemma exp_not_digit n rest : number_ok n → stops rest →
  match (match n_exp n with Some e => print_exp e | None => [] end ++ rest) with
  | [] => True | b :: _ => is_digit b = false ∧ b ≠ 46 end.
Proof.
  intros (_ & _ & He) Hr. destruct (n_exp n) as [[[e sign] ds]|]; cbn.
  - destruct He as [He _]. unfold is_e, is_digit in *. lia.
  - destruct rest; [done|]. by destruct Hr as (? & ? & _).
Qed.

Lemma parse_number_run n rest : number_ok n → stops rest →
  parse_number (print_number n ++ rest) = Some (n, rest).
Proof.
  intros Hn Hr. pose proof (exp_not_digit n rest Hn Hr) as HE. destruct Hn as (Hi & Hf & He).
  unfold print_number. rewrite <-!app_assoc. set (tail := _ ++ rest) in HE |- *.
  assert (parse_frac (match n_frac n with Some ds => 46 :: ds | None => [] end ++ tail) = Some (n_frac n, tail)) as HF.
  { destruct (n_frac n) as [ds|]; cbn [app]; unfold parse_frac.
    - rewrite digits_run; [done|done|]. destruct tail; [done|by destruct HE].
    - destruct tail as [|b tail']; [done|]. destruct HE as [_ Hb]. repeat (case_match; try done). }
  assert (match n_frac n with Some ds => 46 :: ds | None => [] end ++ tail = [] ∨
    ∃ b l, match n_frac n with Some ds => 46 :: ds | None => [] end ++ tail = b :: l ∧ is_digit b = false) as HT.
  { destruct (n_frac n); cbn [app]; [right; by eexists _, _|]. destruct tail; [by left|right]. destruct HE. by eexists _, _. }
  set (tail' := _ ++ tail) in HF, HT |- *.
  assert (parse_int (n_int n ++ tail') = Some (n_int n, tail')) as HI.
  { apply parse_int_run; [done|]. destruct HT as [->|(b & l & -> & Hb)]; done. }
  unfold parse_number.
  destruct n as [neg int frac exp]; cbn [n_negative n_int n_frac n_exp] in *.
  destruct neg; cbn [app].
  - rewrite HI. cbn [mbind option_bind]. rewrite HF. cbn [mbind option_bind].
    unfold tail. rewrite parse_exp_run by done. done.
  - assert (match int ++ tail' with 45 :: r => (true, r) | _ => (false, int ++ tail') end = (false, int ++ tail')) as ->.
    { destruct int as [|b int]; [by destruct Hi as [|[[]]]|]. cbn [app].
      assert (is_digit b = true) as Hb.
      { destruct Hi as [[= -> _]|[[_ [Hb _]%Forall_cons] _]]; done. }
      apply digit_facts in Hb as (_ & _ & _ & Hb). repeat (case_match; try done). }
    rewrite HI. cbn [mbind option_bind]. rewrite HF. cbn [mbind option_bind].
    unfold tail. rewrite parse_exp_run by done. done.
Qed.

Lemma parse_chars_run s rest : string_ok s →
  parse_chars (concat (print_schar <$> s) ++ 34 :: rest) = Some (s, rest).
Proof.
  induction 1 as [|c s Hc _ IH]; [done|]. cbn [fmap list_fmap concat]. rewrite <-app_assoc.
  destruct c as [b|b|h1 h2 h3 h4]; cbn [schar_ok] in Hc; cbn [print_schar app parse_chars].
  - pose proof Hc as Hp. unfold is_plain in Hp.
    replace (b =? 34) with false by lia. replace (b =? 92) with false by lia. rewrite Hc, IH. done.
  - cbn [Z.eqb Pos.eqb]. assert (b =? 117 = false) as ->.
    { apply Z.eqb_neq. intros ->. by vm_compute in Hc. }
    rewrite Hc, IH. done.
  - cbn [Z.eqb Pos.eqb]. rewrite Hc, IH. done.
Qed.

(** ** Parsing what was printed *)

(** The first character of a value: no white space and no closing bracket. *)
Definition starts (b : Z) : Prop := is_ws b = false ∧ b ≠ 93 ∧ b ≠ 125.

Lemma digit_starts b : is_digit b = true → starts b.
Proof. unfold starts, is_digit, is_ws. lia. Qed.

Lemma number_starts n : number_ok n → ∃ b t, print_number n = b :: t ∧ starts b ∧ (b = 45 ∨ is_digit b = true).
Proof.
  intros (Hi & _ & _). unfold print_number. destruct (n_negative n); cbn [app].
  { eexists _, _. split; [reflexivity|]. split; [done|by left]. }
  destruct Hi as [->|[[Hne HF] _]].
  { eexists _, _. split; [reflexivity|]. split; [done|by right]. }
  destruct HF as [|b ds Hb _]; [done|]. eexists b, _. split; [done|]. split; [by apply digit_starts|by right].
Qed.

Lemma print_starts v : well_formed v → ∃ b t, print v = b :: t ∧ starts b.
Proof.
  destruct v as [|[]|n|s|l|l]; cbn [well_formed print]; intros H;
    try (eexists _, _; split; [reflexivity|done]).
  destruct (number_starts n H) as (b & t & E & Hs & _). by exists b, t.
Qed.

Lemma skip_starts b t : is_ws b = false → skip (b :: t) = b :: t.
Proof. intros H. unfold skip. cbn. by rewrite H. Qed.

Lemma skip_print v rest : well_formed v → skip (print v ++ rest) = print v ++ rest.
Proof. intros H. destruct (print_starts v H) as (b & t & -> & Hw & _). by apply skip_starts. Qed.

(** [value] reads back a value, with enough fuel for its length. *)
Definition reads_back (v : json) : Prop := ∀ fuel rest,
  (4 * length (print v) ≤ fuel)%nat → stops rest → value fuel (print v ++ rest) = Some (v, rest).

(** Fuel bounds and the punctuation after a value. *)
Ltac side := first [done | lia | by split_and!].

Lemma commas_cons x l : l ≠ [] → commas (x :: l) = x ++ 44 :: commas l.
Proof. by destruct l. Qed.

Lemma elements_run l : l ≠ [] → Forall (λ v, well_formed v ∧ reads_back v) l → ∀ fuel rest,
  (4 * length (commas (print <$> l)) < fuel)%nat →
  elements fuel (commas (print <$> l) ++ 93 :: rest) = Some (l, rest).
Proof.
  intros Hne. induction 1 as [|v l [Hw Hv] HF IH]; [done|]. intros fuel rest Hf.
  destruct fuel as [|fuel]; [lia|]. cbn [elements]. destruct l as [|v' l].
  - cbn [fmap list_fmap commas] in *. rewrite skip_print by done. rewrite Hv by side.
    cbn [mbind option_bind]. by rewrite skip_starts by done.
  - rewrite (fmap_cons print v), commas_cons in Hf |- * by done. rewrite length_app in Hf. cbn [length] in Hf.
    rewrite <-app_assoc. cbn [app]. rewrite skip_print by done. rewrite Hv by side.
    cbn [mbind option_bind]. rewrite skip_starts by done. rewrite IH by side. done.
Qed.

Lemma chars_run s rest : string_ok s → ∃ t, print_string s ++ rest = 34 :: t ∧ parse_chars t = Some (s, rest).
Proof.
  intros Hs. exists (concat (print_schar <$> s) ++ 34 :: rest). split; [|by apply parse_chars_run].
  unfold print_string. cbn [app]. by rewrite <-app_assoc.
Qed.

Definition print_member (kv : list schar * json) : list Z := print_string kv.1 ++ 58 :: print kv.2.

Lemma members_run l : l ≠ [] → Forall (λ kv, string_ok kv.1 ∧ well_formed kv.2 ∧ reads_back kv.2) l → ∀ fuel rest,
  (4 * length (commas (print_member <$> l)) < fuel)%nat →
  members fuel (commas (print_member <$> l) ++ 125 :: rest) =
  Some ((λ kv, (kv.1, print kv.2, kv.2)) <$> l, rest).
Proof.
  intros Hne. induction 1 as [|[k v] l (Hk & Hw & Hv) HF IH]; [done|]. intros fuel rest Hf.
  destruct fuel as [|fuel]; [lia|]. cbn [members]. cbn [fst snd] in *.
  assert (∀ tail, stops tail → (4 * length (print v) ≤ fuel)%nat → skip (print_member (k, v) ++ tail) =
    34 :: drop 1 (print_string k) ++ 58 :: print v ++ tail ∧
    parse_chars (drop 1 (print_string k) ++ 58 :: print v ++ tail) = Some (k, 58 :: print v ++ tail) ∧
    value fuel (skip (print v ++ tail)) = Some (v, tail) ∧
    take (length (skip (print v ++ tail)) - length tail) (skip (print v ++ tail)) = print v) as HM.
  { intros tail Ht Hfu. rewrite skip_print by done. rewrite Hv by done. split_and!; [| |done|].
    - unfold print_member. cbn [fst snd]. rewrite <-app_assoc. unfold print_string. cbn [app].
      by rewrite skip_starts.
    - change (drop 1 (print_string k)) with (concat (print_schar <$> k) ++ [34]).
      rewrite <-app_assoc. by apply parse_chars_run.
    - rewrite length_app, Nat.add_sub. by rewrite take_app_length. }
  assert (length (print v) ≤ length (print_member (k, v)))%nat as HL.
  { unfold print_member. rewrite length_app. cbn. lia. }
  destruct l as [|kv l].
  - cbn [fmap list_fmap commas] in *. destruct (HM (125 :: rest)) as (E1 & E2 & E3 & E4); [side|side|].
    rewrite E1, E2. cbn [mbind option_bind]. rewrite skip_starts by done. rewrite E3. cbn [mbind option_bind].
    rewrite E4, skip_starts by done. done.
  - rewrite (fmap_cons print_member (k, v)), commas_cons in Hf |- * by done. rewrite length_app in Hf. cbn [length] in Hf.
    rewrite <-app_assoc. cbn [app]. destruct (HM (44 :: commas (print_member <$> kv :: l) ++ 125 :: rest))
      as (E1 & E2 & E3 & E4); [side|side|].
    rewrite E1, E2. cbn [mbind option_bind]. rewrite skip_starts by done. rewrite E3. cbn [mbind option_bind].
    rewrite E4, skip_starts by done. rewrite IH by side. done.
Qed.

Lemma object_run l : Forall (λ kv, string_ok kv.1 ∧ well_formed kv.2 ∧ reads_back kv.2) l → ∀ fuel rest,
  (4 * length (commas (print_member <$> l)) + 2 ≤ fuel)%nat →
  object fuel (commas (print_member <$> l) ++ 125 :: rest) =
  Some ((λ kv, (kv.1, print kv.2, kv.2)) <$> l, rest).
Proof.
  intros HF fuel rest Hf. destruct fuel as [|fuel]; [lia|]. destruct l as [|[k v] l]; [done|].
  transitivity (members fuel (commas (print_member <$> (k, v) :: l) ++ 125 :: rest));
    [cbn [object]|apply members_run; side].
  assert (∃ t, commas (print_member <$> (k, v) :: l) = 34 :: t) as [t E].
  { destruct l; [by eexists|]. rewrite fmap_cons, commas_cons by done. by eexists. }
  rewrite E. cbn [app]. rewrite skip_starts by done. done.
Qed.

Theorem print_reads_back v : well_formed v → reads_back v.
Proof.
  induction v as [|b|n|s|l IH|l IH] using json_ind'; intros Hw fuel rest Hf Hr;
    (destruct fuel as [|fuel]; [cbn in Hf; try lia|]).
  - done.
  - destruct b; cbn in Hf; lia.
  - by destruct b.
  - destruct (number_starts n Hw) as (b & t & E & _). cbn [print] in Hf. rewrite E in Hf. cbn in Hf. lia.
  - cbn [print]. destruct (number_starts n Hw) as (b & t & E & _ & Hb).
    pose proof (parse_number_run n rest Hw Hr) as HP. rewrite E in *. cbn [app value] in *.
    assert (∀ x, x = 110 ∨ x = 116 ∨ x = 102 ∨ x = 34 ∨ x = 91 ∨ x = 123 → b =? x = false) as HX.
    { intros x Hx. unfold is_digit in Hb. lia. }
    rewrite !HX by lia. by rewrite HP.
  - cbn [print]. destruct (chars_run s rest Hw) as (t & -> & E). cbn [value Z.eqb Pos.eqb]. by rewrite E.
  - cbn [print app value Z.eqb Pos.eqb]. rewrite <-app_assoc. cbn [app]. cbn [print length] in Hf.
    rewrite length_app in Hf. cbn [length] in Hf. apply foldr_and in Hw.
    destruct l as [|v l]; [done|].
    assert (Forall (λ v, well_formed v ∧ reads_back v) (v :: l)) as HF.
    { rewrite !Forall_forall in *. intros x Hx. split; [by apply Hw|]. apply IH; [done|by apply Hw]. }
    assert (elements fuel (commas (print <$> v :: l) ++ 93 :: rest) = Some (v :: l, rest)) as HE
      by (apply elements_run; side). revert HE.
    assert (∃ b t, commas (print <$> v :: l) ++ 93 :: rest = b :: t ∧ starts b) as (b & t & -> & Hs & Hb & _).
    { apply Forall_cons in Hw as [Hv _]. destruct (print_starts v Hv) as (b & t & E & Hs).
      destruct l; [|rewrite fmap_cons, commas_cons by done]; cbn [fmap list_fmap commas]; rewrite E; by eexists _, _. }
    intros HE. rewrite skip_starts by done. repeat (case_match; try done); by rewrite HE.
  - cbn [print app value Z.eqb Pos.eqb]. rewrite <-app_assoc. cbn [app]. cbn [print length] in Hf.
    rewrite length_app in Hf. cbn [length] in Hf. apply foldr_and in Hw.
    fold print_member. change (λ kv : list schar * json, print_string kv.1 ++ 58 :: print kv.2) with print_member in *.
    rewrite object_run; [|rewrite !Forall_forall in *; intros x Hx; split; [by apply Hw|]; split; [by apply Hw|]; apply IH; [done|by apply Hw]|lia].
    cbn. rewrite <-list_fmap_compose. do 3 f_equal. rewrite <-(list_fmap_id l) at 2.
    apply list_fmap_ext. by intros i [].
Qed.

Lemma parse_print v : well_formed v → parse (print v) = Some v.
Proof.
  intros H. unfold parse. rewrite <-(app_nil_r (print v)), skip_print by done.
  rewrite (print_reads_back v H); [done| |done]. unfold parse_fuel. rewrite app_nil_r. lia.
Qed.

Lemma parse_object_print l : well_formed (Obj l) →
  parse_object (print (Obj l)) = Some ((λ kv, (kv.1, print kv.2, kv.2)) <$> l).
Proof.
  intros H. pose proof H as Hw. cbn [well_formed] in Hw. apply foldr_and in Hw.
  unfold parse_object. cbn [print]. rewrite skip_starts by done.
  change (λ kv : list schar * json, print_string kv.1 ++ 58 :: print kv.2) with print_member.
  rewrite object_run; [done| |].
  - eapply Forall_impl; [exact Hw|]. intros kv [? ?]. split_and!; [done|done|by apply print_reads_back].
  - unfold parse_fuel. cbn [length]. rewrite length_app. cbn. lia.
Qed.

(** ** What the parser returns is well formed *)

Lemma span_spec f bs x y : span f bs = (x, y) → Forall (λ b, f b = true) x.
Proof.
  revert x y. induction bs as [|b bs IH]; intros x y; cbn; [intros [= <- <-]; constructor|].
  destruct (f b) eqn:E; [|intros [= <- <-]; constructor].
  destruct (span f bs) as [x' y']. intros [= <- <-]. constructor; [done|by eapply IH].
Qed.

Lemma digits_spec bs ds r : digits bs = Some (ds, r) → digits_ok ds.
Proof.
  unfold digits. destruct (span is_digit bs) as [x y] eqn:E. destruct x as [|d x]; [done|]. intros [= <- <-].
  split; [done|]. by eapply span_spec.
Qed.

Lemma parse_int_spec bs ds r : parse_int bs = Some (ds, r) → ds = [48] ∨ digits_ok ds ∧ head ds ≠ Some 48.
Proof.
  assert (∀ b t, b ≠ 48 → digits (b :: t) = Some (ds, r) → ds = [48] ∨ digits_ok ds ∧ head ds ≠ Some 48) as HD.
  { intros b t Hb H. right. split; [by eapply digits_spec|]. unfold digits in H. cbn in H.
    destruct (is_digit b); [|done]. destruct (span is_digit t). injection H as <- <-. cbn. congruence. }
  unfold parse_int. destruct bs as [|b t]; [done|]. destruct (Z.eq_dec b 48) as [->|Hb]; [intros [= <- <-]; by left|].
  intros H. apply (HD b t Hb). revert H. repeat (case_match; try done).
Qed.

Lemma parse_frac_spec bs x r : parse_frac bs = Some (x, r) → match x with Some ds => digits_ok ds | None => True end.
Proof.
  unfold parse_frac. destruct bs as [|b t]; [by intros [= <- <-]|].
  destruct (Z.eq_dec b 46) as [->|Hb].
  - destruct (digits t) as [[ds r']|] eqn:E; cbn; [|done]. intros [= <- <-]. by eapply digits_spec.
  - intros H. assert (x = None) as ->; [|done]. revert H. repeat (case_match; try done); by intros [= <- <-].
Qed.

Lemma parse_exp_spec bs x r : parse_exp bs = Some (x, r) →
  match x with
  | Some (e, sign, ds) =>
      is_e e = true ∧ match sign with Some s => is_sign s = true | None => True end ∧ digits_ok ds
  | None => True
  end.
Proof.
  unfold parse_exp. destruct bs as [|e t]; [by intros [= <- <-]|]. destruct (is_e e) eqn:He; [|by intros [= <- <-]].
  destruct t as [|s t]; [done|]. destruct (is_sign s) eqn:Hs.
  - destruct (digits t) as [[ds r']|] eqn:E; cbn; [|done]. intros [= <- <-]. split_and!; [done|done|by eapply digits_spec].
  - destruct (digits (s :: t)) as [[ds r']|] eqn:E; cbn; [|done]. intros [= <- <-].
    split_and!; [done|done|by eapply digits_spec].
Qed.

Lemma parse_number_spec bs n r : parse_number bs = Some (n, r) → number_ok n.
Proof.
  unfold parse_number. destruct (match bs with 45 :: r => _ | _ => _ end) as [neg r0].
  destruct (parse_int r0) as [[int r1]|] eqn:E1; cbn [mbind option_bind]; [|done].
  destruct (parse_frac r1) as [[frac r2]|] eqn:E2; cbn [mbind option_bind]; [|done].
  destruct (parse_exp r2) as [[exp r3]|] eqn:E3; cbn [mbind option_bind]; [|done]. intros [= <- <-].
  split_and!; [by eapply parse_int_spec|by eapply parse_frac_spec|by eapply parse_exp_spec].
Qed.

Lemma parse_chars_spec n : ∀ bs s r, (length bs ≤ n)%nat → parse_chars bs = Some (s, r) → string_ok s.
Proof.
  induction n as [|n IH]; intros bs s r Hl H; [by destruct bs; [|cbn in Hl; lia]|].
  destruct bs as [|b t]; [done|]. cbn in H, Hl. destruct (b =? 34); [injection H as <- <-; constructor|].
  destruct (b =? 92).
  - destruct t as [|e t]; [done|]. destruct (e =? 117).
    + destruct t as [|h1 [|h2 [|h3 [|h4 t]]]]; try done.
      destruct (is_hex h1 && is_hex h2 && is_hex h3 && is_hex h4) eqn:Eh; [|done].
      destruct (parse_chars t) as [[s' r']|] eqn:E; cbn in H; [|done]. injection H as <- <-.
      constructor; [done|]. eapply IH; [|exact E]. cbn in Hl. lia.
    + destruct (is_escape e) eqn:Ee; [|done]. destruct (parse_chars t) as [[s' r']|] eqn:E; cbn in H; [|done].
      injection H as <- <-. constructor; [done|]. eapply IH; [|exact E]. cbn in Hl. lia.
  - destruct (is_plain b) eqn:Ep; [|done]. destruct (parse_chars t) as [[s' r']|] eqn:E; cbn in H; [|done].
    injection H as <- <-. constructor; [done|]. eapply IH; [|exact E]. lia.
Qed.

Definition member_ok (m : member) : Prop := string_ok m.1.1 ∧ well_formed m.2.

(** Case analysis on the bind at the head of the hypothesis. *)
Ltac split_bind H :=
  match type of H with
  | mbind _ ?x = Some _ =>
      let E := fresh "E" in destruct x as [[? ?]|] eqn:E; cbn [mbind option_bind] in H; [|discriminate H]
  end.

Lemma parser_sound fuel :
  (∀ bs v r, value fuel bs = Some (v, r) → well_formed v) ∧
  (∀ bs l r, elements fuel bs = Some (l, r) → Forall well_formed l) ∧
  (∀ bs l r, object fuel bs = Some (l, r) → Forall member_ok l) ∧
  (∀ bs l r, members fuel bs = Some (l, r) → Forall member_ok l).
Proof.
  induction fuel as [|fuel (IHv & IHe & IHo & IHm)]; [by split_and!|].
  assert (∀ bs s r, parse_chars bs = Some (s, r) → string_ok s) as HC by (intros; by eapply parse_chars_spec).
  split_and!; intros bs v r H; cbn [value elements object members] in H.
  - destruct bs as [|b t]; [done|]. unfold literal in H.
    destruct (b =? 110); [case_bool_decide; [by injection H as <- <-|done]|].
    destruct (b =? 116); [case_bool_decide; [by injection H as <- <-|done]|].
    destruct (b =? 102); [case_bool_decide; [by injection H as <- <-|done]|].
    destruct (b =? 34); [split_bind H; injection H as <- <-; by eapply HC|].
    destruct (b =? 91).
    { assert (v = Arr [] ∨ ∃ l r', elements fuel (skip t) = Some (l, r') ∧ v = Arr l) as [->|(l & r' & E & ->)];
        [|done|cbn [well_formed]; apply foldr_and; by eapply IHe].
      repeat (case_match; try done);
        first [injection H as <- <-; by left | split_bind H; injection H as <- <-; right; by eexists _, _]. }
    destruct (b =? 123); split_bind H; injection H as <- <-; [|by eapply parse_number_spec].
    cbn [well_formed]. apply foldr_and, Forall_fmap. eapply IHo; done.
  - split_bind H. apply IHv in E.
    repeat (case_match; try done);
      first [split_bind H; injection H as <- <-; constructor; [done|by eapply IHe] | injection H as <- <-; by repeat constructor].
  - repeat (case_match; try done); first [by eapply IHm | injection H as <- <-; constructor].
  - assert (∃ t k r1 r2, skip bs = 34 :: t ∧ parse_chars t = Some (k, r1) ∧ skip r1 = 58 :: r2) as (t & k & r1 & r2 & E1 & E2 & E3).
    { repeat (case_match; try done). split_bind H. repeat (case_match; try done). by eexists _, _, _, _. }
    rewrite E1, E2 in H. cbn [mbind option_bind] in H. rewrite E3 in H. split_bind H. apply IHv in E. apply HC in E2.
    repeat (case_match; try done);
      first [split_bind H; injection H as <- <-; constructor; [done|by eapply IHm] | injection H as <- <-; by repeat constructor].
Qed.

Lemma parse_sound bs v : parse bs = Some v → well_formed v.
Proof.
  unfold parse. intros H. split_bind H. case_match; [|done]. injection H as <-.
  by eapply (proj1 (parser_sound _)).
Qed.

(** ** Compacting *)

Lemma escape_string_ok n : ∀ s, (length s ≤ n)%nat → string_ok s → string_ok (escape_string s).
Proof.
  induction n as [|n IH]; intros s Hl Hs; [by destruct s; [|cbn in Hl; lia]|].
  destruct s as [|c s]; [done|]. pose proof Hs as Hs'. apply Forall_cons in Hs' as [Hc Ht]. cbn in Hl.
  assert (string_ok (escape_string s)) as HT by (apply IH; [lia|done]).
  destruct c as [b| |]; [|by constructor..]. cbn [escape_string].
  destruct (html_escape b) as [c|] eqn:Eh.
  { constructor; [|done]. unfold html_escape in Eh. repeat case_match; by simplify_eq. }
  destruct s as [|[c| |] [|[d| |] s]]; try (by constructor).
  destruct ((b =? 0xE2) && (c =? 0x80) && ((d =? 0xA8) || (d =? 0xA9))) eqn:Eu; [|by constructor].
  apply Forall_cons in Ht as [_ Ht]. apply Forall_cons in Ht as [_ Ht].
  constructor; [|apply IH; [cbn in Hl; lia|done]].
  assert (d = 0xA8 ∨ d = 0xA9) as [->| ->] by lia; done.
Qed.

Lemma escape_well_formed v : well_formed v → well_formed (escape v).
Proof.
  induction v as [|b|n|s|l IH|l IH] using json_ind'; cbn [escape well_formed]; try done.
  - intros H. by eapply escape_string_ok.
  - rewrite !foldr_and. intros H. rewrite Forall_fmap. rewrite !Forall_forall in *. intros x Hx. cbn. by apply IH, H.
  - rewrite !foldr_and. intros H. rewrite Forall_fmap. rewrite !Forall_forall in *. intros x Hx. cbn.
    destruct (H x Hx). split; [by eapply escape_string_ok|by apply IH].
Qed.

(** Compacted text parses, to the escaped value. *)
Lemma compact_parses bs out : compact bs = Some out →
  ∃ v, parse bs = Some v ∧ well_formed (escape v) ∧ out = print (escape v) ∧ parse out = Some (escape v).
Proof.
  unfold compact. destruct (parse bs) as [v|] eqn:E; [|done]. intros [= <-]. exists v.
  assert (well_formed (escape v)) by by eapply escape_well_formed, parse_sound.
  split_and!; [done|done|done|by apply parse_print].
Qed.

(** ** Writing strings ([json.Marshal]) *)

Definition hex_digit (d : Z) : Z := digit_char d.

(** One character of a string, by its bytes; a byte that is no character becomes
    U+FFFD. *)
Definition encode_piece (raw : list Z) : list schar :=
  match raw with
  | [b] =>
      if (b =? 34) || (b =? 92) then [Escaped b]
      else if b =? 8 then [Escaped 98]
      else if b =? 12 then [Escaped 102]
      else if b =? 10 then [Escaped 110]
      else if b =? 13 then [Escaped 114]
      else if b =? 9 then [Escaped 116]
      else if 0x80 <=? b then [Unicode 102 102 102 100]
      else if (b <? 32) || (b =? 60) || (b =? 62) || (b =? 38)
      then [Unicode 48 48 (hex_digit (b / 16)) (hex_digit (b mod 16))]
      else [Plain b]
  | [0xE2; 0x80; 0xA8] => [Unicode 50 48 50 56]
  | [0xE2; 0x80; 0xA9] => [Unicode 50 48 50 57]
  | _ => Plain <$> raw
  end.
Definition encode_text (s : string) : list schar :=
  concat ((λ p : Z * list Z, encode_piece p.2) <$> runes (to_bytes s)).

Example encode_example : concat (print_schar <$> encode_text "a<b") = to_bytes "a\u003cb".
Proof. vm_compute. reflexivity. Qed.

(** The pieces of a string: a byte, or a character of several bytes, none of
    them ASCII. *)
Definition piece_ok (p : Z * list Z) : Prop :=
  (∃ b, p.2 = [b] ∧ (0 ≤ b < 0x80 ∨ p.1 = RuneError)) ∨ (2 ≤ length p.2)%nat ∧ Forall (λ b, 0x80 ≤ b) p.2.

Lemma runes_pieces n : ∀ bs, (length bs ≤ n)%nat → Forall (λ b, is_byte b = true) bs →
  Forall piece_ok (runes bs) ∧ concat ((λ p : Z * list Z, p.2) <$> runes bs) = bs.
Proof.
  induction n as [|n IH]; intros bs Hl HB; [destruct bs; [by split; [constructor|]|cbn in Hl; lia]|].
  destruct bs as [|b0 r0]; [by split; [constructor|]|]. apply Forall_cons in HB as [H0 HB]. cbn [length] in Hl.
  assert (∀ p rest, piece_ok p → (length rest ≤ n)%nat → Forall (λ b, is_byte b = true) rest → p.2 ++ rest = b0 :: r0 →
    Forall piece_ok (p :: runes rest) ∧ concat ((λ p : Z * list Z, p.2) <$> p :: runes rest) = b0 :: r0) as Hstep.
  { intros p rest Hp Hr HBr E. destruct (IH rest Hr HBr) as [I1 I2]. split; [by constructor|]. cbn. by rewrite I2. }
  assert (Forall piece_ok ((RuneError, [b0]) :: runes r0) ∧
    concat ((λ p : Z * list Z, p.2) <$> (RuneError, [b0]) :: runes r0) = b0 :: r0) as Hbad.
  { apply Hstep; [left; exists b0; auto|lia|done|done]. }
  cbn [runes]. unfold is_byte in H0. destruct (Z.ltb_spec b0 0x80); [apply Hstep; [left; exists b0; split; [done|left; lia]|lia|done|done]|].
  destruct r0 as [|b1 r1]; [done|]. apply Forall_cons in HB as [H1 HB].
  assert (∀ b, cont b = true → 0x80 ≤ b) as Hc by (unfold cont; lia).
  assert (second_ok b0 b1 = true → 0x80 ≤ b1) as Hs2 by (unfold second_ok, cont; repeat case_match; lia).
  destruct (_ && cont b1) eqn:E1.
  { apply andb_true_iff in E1 as [_ E1]. apply Hstep; [right; split; [done|repeat constructor; [lia|by apply Hc]]|cbn in Hl; lia|done|done]. }
  destruct r1 as [|b2 r2]; [done|]. apply Forall_cons in HB as [H2 HB].
  destruct (_ && cont b2) eqn:E2.
  { apply andb_true_iff in E2 as [E2 E2']. apply andb_true_iff in E2 as [_ E2].
    apply Hstep; [right; split; [cbn; lia|repeat constructor; [lia|by apply Hs2|by apply Hc]]|cbn in Hl; lia|done|done]. }
  destruct r2 as [|b3 r3]; [done|]. apply Forall_cons in HB as [H3 HB].
  destruct (_ && cont b3) eqn:E3; [|done].
  apply andb_true_iff in E3 as [E3 E3']. apply andb_true_iff in E3 as [E3 E3'']. apply andb_true_iff in E3 as [_ E3].
  apply Hstep; [right; split; [cbn; lia|repeat constructor; [lia|by apply Hs2|by apply Hc|by apply Hc]]|cbn in Hl; lia|done|done].
Qed.

Lemma hex_digit_value d : 0 ≤ d < 16 → hex_value (hex_digit d) = Some d.
Proof. intros H. assert (d ∈ seqZ 0 16) as Hd by (apply elem_of_seqZ; lia). clear H. revert d Hd. apply Forall_forall. by repeat constructor. Qed.

Definition not_surrogate (c : schar) : Prop :=
  match c with Unicode a b c d => is_surrogate (hex4 a b c d) = false | _ => True end.

Lemma decode_app x y : Forall not_surrogate x → decode (x ++ y) = decode x ++ decode y.
Proof.
  induction 1 as [|c x Hc _ IH]; [done|]. destruct c as [b|b|a b c d]; cbn [app decode]; rewrite ?IH; [done|done|].
  cbn in Hc. rewrite Hc. by rewrite app_assoc.
Qed.

(** What is encoded is well formed and decodes to the same bytes. *)
Lemma encode_piece_ok p : piece_ok p → p.1 ≠ RuneError ∨ (2 ≤ length p.2)%nat →
  string_ok (encode_piece p.2) ∧ Forall not_surrogate (encode_piece p.2) ∧ decode (encode_piece p.2) = p.2.
Proof.
  intros [(b & -> & Hb)|[Hl HF]] Hv.
  - destruct Hb as [Hb|Hb]; [|destruct Hv as [Hv|Hv]; [done|cbn in Hv; lia]]. clear Hv.
    assert (Forall (λ b, forallb schar_ok (encode_piece [b]) = true ∧
      forallb (λ c, match c with Unicode x y z t => negb (is_surrogate (hex4 x y z t)) | _ => true end) (encode_piece [b]) = true ∧
      decode (encode_piece [b]) = [b]) (seqZ 0 0x80)) as HA by (repeat (constructor; [vm_compute; done|]); constructor).
    rewrite Forall_forall in HA. destruct (HA b) as (H1 & H2 & H3); [apply elem_of_seqZ; lia|]. split_and!; [| |done].
    + apply Forall_forall. intros c Hc. rewrite forallb_forall in H1. by apply H1, list_elem_of_In.
    + apply Forall_forall. intros c Hc. rewrite forallb_forall in H2. specialize (H2 c (proj1 (list_elem_of_In _ _) Hc)).
      destruct c; cbn; try done. by apply negb_true_iff in H2.
  - assert (encode_piece p.2 = Plain <$> p.2 ∨ p.2 = [0xE2; 0x80; 0xA8] ∨ p.2 = [0xE2; 0x80; 0xA9]) as [->|[->| ->]].
    { unfold encode_piece. destruct p.2 as [|x [|y l]]; [by left|cbn in Hl; lia|]. repeat case_match; auto. }
    + split_and!.
      * apply Forall_fmap. eapply Forall_impl; [exact HF|]. intros b Hb. cbn. unfold is_plain. cbn in Hb. lia.
      * apply Forall_fmap. by eapply Forall_impl; [exact HF|].
      * clear. induction p.2 as [|b l IH]; [done|]. cbn. by f_equal.
    + split_and!; by repeat constructor.
    + split_and!; by repeat constructor.
Qed.

Lemma encode_text_ok s : utf8_valid s = true →
  string_ok (encode_text s) ∧ Forall not_surrogate (encode_text s) ∧ decode (encode_text s) = to_bytes s.
Proof.
  unfold utf8_valid, encode_text. intros HV.
  destruct (runes_pieces (length (to_bytes s)) (to_bytes s)) as [HP HC]; [done|apply to_bytes_range|].
  set (ps := runes (to_bytes s)) in *. rewrite <-HC. clear HC. clearbody ps. induction HP as [|p l Hp HP IH]; [by split_and!; constructor|].
  cbn [forallb] in HV. apply andb_true_iff in HV as [Hv HV]. destruct (IH HV) as (I1 & I2 & I3).
  destruct (encode_piece_ok p Hp) as (E1 & E2 & E3).
  { destruct Hp as [(b & Hb & Hr)|[Hl _]]; [|by right]. left. intros E. rewrite E, Hb in Hv. done. }
  cbn [fmap list_fmap concat]. split_and!; [by apply Forall_app|by apply Forall_app|].
  rewrite decode_app by done. by rewrite E3, I3.
Qed.

(** What a reader finds in a string field after [json.Marshal] and
    [json.Unmarshal]: the same text, with U+FFFD for every byte that is not part
    of a UTF-8 character. *)
Definition json_text (s : string) : string := of_bytes (decode (encode_text s)).

Lemma json_text_valid s : utf8_valid s = true → json_text s = s.
Proof. intros (_ & _ & H)%encode_text_ok. unfold json_text. rewrite H. apply of_to_bytes. Qed.

Example json_text_invalid : to_bytes (json_text (of_bytes [47; 0xE9])) = [47; 0xEF; 0xBF; 0xBD].
Proof. by vm_compute. Qed.

Lemma ascii_valid s : Forall ascii_byte (to_bytes s) → utf8_valid s = true.
Proof.
  intros H. unfold utf8_valid. rewrite runes_ascii by done. apply forallb_forall. intros p Hp.
  apply list_elem_of_In, list_elem_of_fmap in Hp as (b & -> & Hb). rewrite Forall_forall in H.
  specialize (H b Hb). unfold ascii_byte in H. cbn. unfold RuneError.
  rewrite (proj2 (Z.eqb_neq _ _)) by lia. done.
Qed.

Lemma FormatInt_valid n : Forall ascii_byte (to_bytes (FormatInt n)).
Proof.
  unfold FormatInt. assert (∀ m, 0 ≤ m → Forall ascii_byte (format_uint 10 m)) as H.
  { intros m Hm. by apply digit_ascii, format_uint_digits. }
  assert (Forall ascii_byte (if n <? 0 then 45 :: format_uint 10 (- n) else format_uint 10 n)) as HF.
  { destruct (Z.ltb_spec n 0); [|by apply H]. constructor; [unfold ascii_byte; lia|apply H; lia]. }
  by rewrite to_of_bytes by by apply ascii_is_byte.
Qed.
