(* ===== verification/GoIO.v ===== *)
(** * Byte streams ([io])

    [Source] is what an [io.Reader] promises: each call delivers the next bytes
    of its content, at most as many as asked for, possibly none; an error comes
    with or after the last byte.  The theorems about code that reads are proved
    against this interface, so they hold however the bytes are cut into reads.
    [sink] is an [io.Writer] that may refuse bytes. *)

From Stdlib Require Import ZArith Lia.
From stdpp Require Import gmap strings prelude.
From S2P Require Import Prelude.
Local Open Scope nat_scope.

Definition EOF : error := Msg "EOF".
Definition ErrUnexpectedEOF : error := Msg "unexpected EOF".
Definition ErrShortWrite : error := Msg "short write".

(** ** Readers *)

(** [read k s] is [Read] with a buffer of [k] bytes.  [content] is what is still
    to come, [ends] the errors that can end it, [reads] a bound on the reads
    without an error. *)
Class Source (S : Type) := {
  read : nat → S → list Z * option error * S;
  content : S → list Z;
  ends : S → error → Prop;
  reads : S → nat }.

Class SourceLaws (S : Type) `{Source S} := {
  read_length k (s s' : S) bs e : read k s = (bs, e, s') → length bs ≤ k;
  read_content k (s s' : S) bs e : read k s = (bs, e, s') → content s = bs ++ content s';
  read_ends k (s s' : S) bs e x : read k s = (bs, e, s') → ends s' x → ends s x;
  read_error k (s s' : S) bs x : read k s = (bs, Some x, s') → content s' = [] ∧ ends s x;
  read_reads k (s s' : S) bs : 0 < k → read k s = (bs, None, s') → reads s' < reads s }.

(** A reader that delivers [cs_chunks] one by one and then [cs_final]; when
    [cs_eager], the error comes with the last chunk. *)
Record chunked := Chunked { cs_chunks : list (list Z); cs_final : error; cs_eager : bool }.

Definition read_chunks (k : nat) (s : chunked) : list Z * option error * chunked :=
  match cs_chunks s with
  | [] => ([], Some (cs_final s), s)
  | c :: cs =>
      if length c <=? k then
        (c, if cs_eager s && bool_decide (cs = []) then Some (cs_final s) else None,
         Chunked cs (cs_final s) (cs_eager s))
      else (take k c, None, Chunked (drop k c :: cs) (cs_final s) (cs_eager s))
  end.

#[export] Instance chunked_source : Source chunked := {
  read := read_chunks;
  content s := concat (cs_chunks s);
  ends s x := x = cs_final s;
  reads s := length (concat (cs_chunks s)) + length (cs_chunks s) }.

(** The cases of a read from chunks. *)
Lemma read_chunks_cases k s bs e s' : read_chunks k s = (bs, e, s') →
  cs_chunks s = [] ∧ bs = [] ∧ e = Some (cs_final s) ∧ s' = s ∨
  (∃ c cs, cs_chunks s = c :: cs ∧ cs_final s' = cs_final s ∧
    (bs = c ∧ length c ≤ k ∧ cs_chunks s' = cs ∧ (e = None ∨ e = Some (cs_final s) ∧ cs = []) ∨
     bs = take k c ∧ k < length c ∧ cs_chunks s' = drop k c :: cs ∧ e = None)).
Proof.
  destruct s as [[|c cs] final eager]; unfold read_chunks; cbn; [intros [= <- <- <-]; by left|].
  destruct (Nat.leb_spec (length c) k) as [Hk|Hk]; intros [= <- <- <-]; right; exists c, cs; cbn.
  - split_and!; [done|done|]. left. split_and!; [done|done|done|].
    destruct eager; cbn; [|by left]. case_bool_decide; [by right|by left].
  - split_and!; [done|done|]. by right.
Qed.

#[export] Instance chunked_laws : SourceLaws chunked.
Proof.
  split; intros k s s' bs; unfold read, content, ends, reads; cbn; intros *.
  all: match goal with |- 0 < _ → _ => intros Hk | _ => idtac end.
  all: intros [(E & Hb & He & Hs)|(c & cs & E & Ef & [(Hb & Hl & E' & He)|(Hb & Hl & E' & He)])]%read_chunks_cases; subst;
    rewrite ?E, ?E', ?Ef in *; cbn in *; try done; rewrite ?length_take, ?length_app, ?length_drop; try lia.
  - by rewrite app_assoc, take_drop.
  - by simplify_eq.
  - destruct He as [|[[= ->] ->]]; done.
Qed.

(** [io.LimitedReader] *)
Record limited S := Limited { lr_R : S; lr_N : N }.
Arguments Limited {S}. Arguments lr_R {S}. Arguments lr_N {S}.

(** The part of a buffer of [k] bytes that [n] bytes fit in: [p = p[:n]] when the
    buffer is longer. *)
Definition fit (k : nat) (n : N) : nat := if (n <? N.of_nat k)%N then N.to_nat n else k.
Lemma fit_min k n : fit k n = Nat.min k (N.to_nat n).
Proof. unfold fit. destruct (N.ltb_spec n (N.of_nat k)); lia. Qed.

(** The errors that can end the first [n] bytes of a source: [EOF] at the
    limit, or the source's own when it ends there or before. *)
Definition limit_ends {S} `{Source S} (n : nat) (s : S) (x : error) : Prop :=
  x = EOF ∧ n ≤ length (content s) ∨ ends s x ∧ length (content s) ≤ n.

Definition read_limited {S} `{Source S} (k : nat) (l : limited S) : list Z * option error * limited S :=
  if (lr_N l =? 0)%N then ([], Some EOF, l)
  else
    let '(bs, e, s') := read (fit k (lr_N l)) (lr_R l) in
    (bs, e, Limited s' (lr_N l - N.of_nat (length bs))).

#[export] Instance limited_source {S} `{Source S} : Source (limited S) := {
  read := read_limited;
  content l := take (N.to_nat (lr_N l)) (content (lr_R l));
  ends l := limit_ends (N.to_nat (lr_N l)) (lr_R l);
  reads l := reads (lr_R l) }.

(** A read of at most [n] bytes takes them from the first [n]. *)
Lemma read_take {S} `{SourceLaws S} k n (s s' : S) bs e : read (min k n) s = (bs, e, s') →
  take n (content s) = bs ++ take (n - length bs) (content s').
Proof.
  intros E. rewrite (read_content _ _ _ _ _ E). pose proof (read_length _ _ _ _ _ E).
  by rewrite take_app_ge by lia.
Qed.

Lemma limit_ends_read {S} `{SourceLaws S} k n (s s' : S) bs e x : read (min k n) s = (bs, e, s') →
  limit_ends (n - length bs) s' x → limit_ends n s x.
Proof.
  intros E. pose proof (read_length _ _ _ _ _ E). pose proof (read_content _ _ _ _ _ E) as EC.
  unfold limit_ends. rewrite EC, length_app. intros [[-> ?]|[Hx ?]]; [left|right]; split; try lia; [done|].
  by eapply read_ends.
Qed.

#[export] Instance limited_laws {S} `{SourceLaws S} : SourceLaws (limited S).
Proof.
  split; intros k [s n] [s1 n1] bs; unfold read; cbn; unfold read_limited; cbn; rewrite ?fit_min; intros *;
    destruct (N.eqb_spec n 0) as [->|Hn];
    repeat match goal with
    | |- context [read ?k ?s] => let E := fresh "E" in destruct (read k s) as [[? ?] ?] eqn:E
    end; intros; simplify_eq; cbn; try done; try lia;
    try pose proof (read_length _ _ _ _ _ E).
  - lia.
  - rewrite (read_take _ _ _ _ _ _ E). do 2 f_equal. lia.
  - eapply limit_ends_read; [exact E|]. by rewrite N2Nat.inj_sub, Nat2N.id in *.
  - split; [done|]. left. split; [done|lia].
  - destruct (read_error _ _ _ _ _ E) as [EC Hx]. rewrite EC. split; [by rewrite take_nil|].
    right. split; [done|]. rewrite (read_content _ _ _ _ _ E), EC, app_nil_r. lia.
  - eapply read_reads; [|exact E]. lia.
Qed.

(** ** Reading a given number of bytes, and everything *)

Definition out_of_fuel : error := Panic "out of fuel".

Section Reading.
Context {S : Type} `{SourceLaws S}.

(** [io.ReadFull] with a buffer of [k] bytes. *)
Fixpoint read_full (fuel k : nat) (got : list Z) (s : S) : res (list Z) * S :=
  if k <=? length got then (Ok got, s)
  else
    match fuel with
    | O => (Err out_of_fuel, s)
    | Datatypes.S fuel =>
        let '(bs, e, s') := read (k - length got) s in
        let got := got ++ bs in
        match e with
        | None => read_full fuel k got s'
        | Some x =>
            (if k <=? length got then Ok got
             else if bool_decide (x = EOF) && negb (bool_decide (got = [])) then Err ErrUnexpectedEOF
             else Err x, s')
        end
    end.
Definition ReadFull (k : nat) (s : S) : res (list Z) * S :=
  read_full (Datatypes.S (reads s)) k [] s.

(** [io.ReadAll]: [room n] bytes of the buffer, and one more, are free when
    [n] have been read. *)
Fixpoint read_all (fuel : nat) (room : nat → nat) (got : list Z) (s : S) : list Z * option error * S :=
  match fuel with
  | O => (got, Some out_of_fuel, s)
  | Datatypes.S fuel =>
      let '(bs, e, s') := read (Datatypes.S (room (length got))) s in
      let got := got ++ bs in
      match e with
      | None => read_all fuel room got s'
      | Some x => (got, if bool_decide (x = EOF) then None else Some x, s')
      end
  end.
Definition ReadAll (room : nat → nat) (s : S) : list Z * option error * S :=
  read_all (Datatypes.S (reads s)) room [] s.

Lemma read_full_spec fuel : ∀ k got s r s', length got ≤ k → reads s < fuel →
  read_full fuel k got s = (r, s') →
  (∀ x, ends s' x → ends s x) ∧
  if k - length got <=? length (content s)
  then r = Ok (got ++ take (k - length got) (content s)) ∧ content s' = drop (k - length got) (content s)
  else content s' = [] ∧ ∃ x, ends s x ∧
    r = Err (if bool_decide (x = EOF) && negb (bool_decide (got ++ content s = [])) then ErrUnexpectedEOF else x).
Proof.
  induction fuel as [|fuel IH]; intros k got s r s' Hg Hf; [lia|]. cbn [read_full].
  destruct (Nat.leb_spec k (length got)) as [Hk|Hk].
  { intros [= <- <-]. split; [done|]. replace (k - length got) with 0 by lia. cbn. by rewrite app_nil_r. }
  destruct (read (k - length got) s) as [[bs e] s1] eqn:E.
  pose proof (read_length _ _ _ _ _ E) as HL. pose proof (read_content _ _ _ _ _ E) as HC.
  assert (∀ x, ends s1 x → ends s x) as HE by (intros; by eapply read_ends).
  assert (k - length (got ++ bs) = k - length got - length bs) as HA by (rewrite length_app; lia).
  destruct e as [x|].
  - destruct (read_error _ _ _ _ _ E) as [EC Hx]. rewrite EC, app_nil_r in HC. rewrite HC.
    intros [= <- <-]. split; [done|]. rewrite EC.
    destruct (Nat.leb_spec (k - length got) (length bs)); destruct (Nat.leb_spec k (length (got ++ bs)));
      rewrite length_app in *; try lia.
    + split; [by rewrite take_ge by lia|by rewrite drop_ge by lia].
    + split; [done|]. exists x. split; [done|]. by destruct (_ && _).
  - intros Hr. assert (reads s1 < fuel) by (pose proof (read_reads (k - length got) s s1 bs ltac:(lia) E); lia).
    destruct (IH k (got ++ bs) s1 r s') as [HE' HR]; [rewrite length_app; lia|done|done|].
    split; [by intros x Hx; apply HE, HE'|]. rewrite HA in HR. rewrite HC, length_app, app_assoc.
    destruct (Nat.leb_spec (k - length got - length bs) (length (content s1)));
      destruct (Nat.leb_spec (k - length got) (length bs + length (content s1))); try lia.
    + destruct HR as [-> ->]. rewrite take_app_ge, drop_app_ge by lia. by rewrite app_assoc.
    + destruct HR as [-> (x & Hx & ->)]. split; [done|]. exists x. split; [by apply HE|done].
Qed.

Lemma read_all_spec fuel room : ∀ got s out e s', reads s < fuel →
  read_all fuel room got s = (out, e, s') →
  out = got ++ content s ∧ content s' = [] ∧ (∀ x, ends s' x → ends s x) ∧
  ∃ x, ends s x ∧ e = if bool_decide (x = EOF) then None else Some x.
Proof.
  induction fuel as [|fuel IH]; intros got s out e s' Hf; [lia|]. cbn [read_all].
  destruct (read _ s) as [[bs e1] s1] eqn:E. pose proof (read_content _ _ _ _ _ E) as HC.
  assert (∀ x, ends s1 x → ends s x) as HE by (intros; by eapply read_ends). destruct e1 as [x|].
  - destruct (read_error _ _ _ _ _ E) as [EC Hx]. intros [= <- <- <-]. rewrite HC, EC, app_nil_r.
    split_and!; [done|done|done|]. by exists x.
  - intros Hr. apply IH in Hr as (-> & HC' & HE' & x & Hx & He).
    + rewrite HC, app_assoc. split_and!; [done|done|by intros y Hy; apply HE, HE'|]. exists x. split; [by apply HE|done].
    + assert (reads s1 < reads s); [|lia]. eapply read_reads; [|exact E]. lia.
Qed.

(** What every read keeps, reading everything keeps. *)
Lemma read_all_keeps (P : list Z → S → Prop) room fuel :
  (∀ got k s bs e s', P got s → read k s = (bs, e, s') → P (got ++ bs) s') →
  ∀ got s out e s', P got s → read_all fuel room got s = (out, e, s') → P out s'.
Proof.
  intros HP. induction fuel as [|fuel IH]; intros got s out e s' Hs; cbn [read_all]; [by intros [= <- <- <-]|].
  destruct (read _ s) as [[bs e1] s1] eqn:E. apply (HP _ _ _ _ _ _ Hs) in E.
  destruct e1; [by intros [= <- <- <-]|]. by apply IH.
Qed.

Lemma ReadFull_spec k s r s' : ReadFull k s = (r, s') →
  (∀ x, ends s' x → ends s x) ∧
  if k <=? length (content s)
  then r = Ok (take k (content s)) ∧ content s' = drop k (content s)
  else content s' = [] ∧ ∃ x, ends s x ∧
    r = Err (if bool_decide (x = EOF) && negb (bool_decide (content s = [])) then ErrUnexpectedEOF else x).
Proof.
  intros Hr. apply read_full_spec in Hr; [|cbn; lia|lia]. cbn [length app] in Hr. by rewrite Nat.sub_0_r in Hr.
Qed.

Lemma ReadAll_spec room s out e s' : ReadAll room s = (out, e, s') →
  out = content s ∧ content s' = [] ∧ (∀ x, ends s' x → ends s x) ∧
  ∃ x, ends s x ∧ e = if bool_decide (x = EOF) then None else Some x.
Proof. intros Hr. apply read_all_spec in Hr; [done|lia]. Qed.
End Reading.

(** ** Writers *)

(** [snk_out] is what has been written.  A writer with [snk_room] accepts that
    many bytes more, and then returns [snk_fault], or no error and a short
    count. *)
Record sink := Sink { snk_out : list Z; snk_room : option nat; snk_fault : option error }.

Definition write (p : list Z) (w : sink) : nat * option error * sink :=
  match snk_room w with
  | None => (length p, None, Sink (snk_out w ++ p) None (snk_fault w))
  | Some n =>
      if length p <=? n then (length p, None, Sink (snk_out w ++ p) (Some (n - length p)) (snk_fault w))
      else (n, snk_fault w, Sink (snk_out w ++ take n p) (Some 0) (snk_fault w))
  end.

(** [k] bytes of [total] have been written: a writer that has room for [n] has
    room for [n - k] now, and none at all when some of them are missing. *)
Definition spent (k total : nat) (w w' : sink) : Prop :=
  (∀ n, snk_room w = Some n → k ≤ n ∧ snk_room w' = Some (n - k)) ∧ (k < total → snk_room w' = Some 0).

Lemma spent_none w : spent 0 0 w w.
Proof. split; [|lia]. intros n ->. split; [lia|]. by rewrite Nat.sub_0_r. Qed.
Lemma spent_then a b total w w1 w2 : spent a a w w1 → spent b total w1 w2 → spent (a + b) (a + total) w w2.
Proof.
  intros [H1 _] [H2 H3]. split; [|intros; apply H3; lia]. intros n Hn. destruct (H1 n Hn) as [? Hw].
  destruct (H2 _ Hw) as [? ->]. split; [lia|f_equal; lia].
Qed.
Lemma spent_more k total more w w' : k < total → spent k total w w' → spent k more w w'.
Proof. intros Hk [H1 H2]. split; [done|]. intros _. by apply H2. Qed.

Lemma write_spec p w n e w' : write p w = (n, e, w') →
  snk_out w' = snk_out w ++ take n p ∧ n ≤ length p ∧ (n = length p → e = None) ∧
  (snk_room w = None → n = length p ∧ e = None ∧ snk_room w' = None) ∧ spent n (length p) w w'.
Proof.
  unfold write, spent. destruct (snk_room w) as [m|] eqn:Er.
  - destruct (Nat.leb_spec (length p) m); intros [= <- <- <-]; cbn; (split_and!; [|lia|try done; lia|done| |try done; lia]);
      rewrite ?firstn_all; try done; intros n [= <-]; (split; [lia|f_equal; lia]).
  - intros [= <- <- <-]. cbn. rewrite firstn_all. split_and!; try done; lia.
Qed.

Section Copying.
Context {S : Type} `{SourceLaws S}.

(** [io.Copy] with a buffer of [size] bytes: the count, the error, the source
    and the writer it leaves. *)
Fixpoint copy (fuel size : nat) (written : nat) (s : S) (w : sink) : nat * option error * S * sink :=
  match fuel with
  | O => (written, Some out_of_fuel, s, w)
  | Datatypes.S fuel =>
      let '(bs, er, s') := read size s in
      let stop written w :=
        match er with
        | Some x => (written, if bool_decide (x = EOF) then None else Some x, s', w)
        | None => copy fuel size written s' w
        end in
      if bool_decide (bs = []) then stop written w
      else
        let '(nw, ew, w') := write bs w in
        match ew with
        | Some x => (written + nw, Some x, s', w')
        | None => if nw =? length bs then stop (written + nw) w' else (written + nw, Some ErrShortWrite, s', w')
        end
  end.

(** What a copy may do: what was written is a prefix of the content; without an
    error it is all of it; a writer that accepts everything gets everything. *)
Definition copied (written : nat) (s : S) (w : sink) (r : nat * option error * S * sink) : Prop :=
  let '(n, e, s', w') := r in
  (∃ k, snk_out w' = snk_out w ++ take k (content s) ∧ k ≤ length (content s) ∧ n = written + k ∧
    (e = None → k = length (content s)) ∧ (snk_room w = None → k = length (content s) ∧ snk_room w' = None) ∧
    spent k (length (content s)) w w') ∧
  (e = None → content s' = [] ∧ ends s EOF) ∧
  (snk_room w = None → ∃ x, ends s x ∧ e = if bool_decide (x = EOF) then None else Some x).

Lemma copied_end size written s w bs x s1 w1 : read size s = (bs, Some x, s1) →
  snk_out w1 = snk_out w ++ bs → (snk_room w = None → snk_room w1 = None) → spent (length bs) (length bs) w w1 →
  copied written s w (written + length bs, if bool_decide (x = EOF) then None else Some x, s1, w1).
Proof.
  intros E Hw Hroom Hsp. destruct (read_error _ _ _ _ _ E) as [EC Hx].
  pose proof (read_content _ _ _ _ _ E) as HC. rewrite EC, app_nil_r in HC. unfold copied. rewrite HC. split_and!.
  - exists (length bs). rewrite firstn_all. by split_and!; try done; intros; split; auto.
  - case_bool_decide; [by subst|done].
  - intros _. by exists x.
Qed.

Lemma copied_next size written s w bs s1 w1 r : read size s = (bs, None, s1) →
  snk_out w1 = snk_out w ++ bs → (snk_room w = None → snk_room w1 = None) → spent (length bs) (length bs) w w1 →
  copied (written + length bs) s1 w1 r → copied written s w r.
Proof.
  intros E Hw Hroom Hsp. destruct r as [[[n e] s'] w']. intros ((k & Hk & Hk' & -> & Hn & Hr & Hk2) & He & Hx).
  unfold copied. rewrite (read_content _ _ _ _ _ E), length_app. split_and!.
  - exists (length bs + k). rewrite take_app_ge by lia. replace (length bs + k - length bs) with k by lia.
    rewrite Hk, Hw, app_assoc. split_and!; [done|lia|lia|intros; rewrite Hn by done; lia| |by eapply spent_then].
    intros Hro. destruct (Hr (Hroom Hro)). split; [lia|done].
  - intros Hn'. destruct (He Hn') as [? ?]. split; [done|]. by eapply read_ends.
  - intros Hro. destruct (Hx (Hroom Hro)) as (x & ? & ?). exists x. split; [by eapply read_ends|done].
Qed.

Lemma copied_refused size written s w bs er s1 nw w1 y : read size s = (bs, er, s1) →
  snk_out w1 = snk_out w ++ take nw bs → nw < length bs → snk_room w ≠ None → spent nw (length bs) w w1 →
  copied written s w (written + nw, Some y, s1, w1).
Proof.
  intros E Hw Hl Hro Hsp. split_and!; [|done|done]. exists nw.
  rewrite (read_content _ _ _ _ _ E), take_app_le, length_app by lia. split_and!; [done|lia|done|done|done|].
  by eapply spent_more.
Qed.

Lemma copy_spec size fuel : 0 < size → ∀ written s w, reads s < fuel →
  copied written s w (copy fuel size written s w).
Proof.
  intros Hs. induction fuel as [|fuel IH]; intros written s w Hf; [lia|]. cbn [copy].
  destruct (read size s) as [[bs er] s1] eqn:E.
  assert (∀ w1, snk_out w1 = snk_out w ++ bs → (snk_room w = None → snk_room w1 = None) → spent (length bs) (length bs) w w1 →
    copied written s w match er with
    | Some x => (written + length bs, if bool_decide (x = EOF) then None else Some x, s1, w1)
    | None => copy fuel size (written + length bs) s1 w1
    end) as Hstop.
  { intros w1 Hw Hroom Hsp. destruct er as [x|]; [by eapply copied_end|].
    eapply copied_next; [done..|]. apply IH. pose proof (read_reads size s s1 bs Hs E). lia. }
  case_bool_decide as Hb.
  { rewrite <-(Nat.add_0_r written). subst bs. cbn [length] in Hstop. rewrite Nat.add_0_r in Hstop |- *.
    apply Hstop; [by rewrite app_nil_r|done|apply spent_none]. }
  destruct (write bs w) as [[nw ew] w1] eqn:Ew. destruct (write_spec _ _ _ _ _ Ew) as (Hout & Hnw & Hew & Hroom & Hsp).
  destruct ew as [y|]; [|destruct (Nat.eqb_spec nw (length bs)) as [->|Hne]].
  - assert (nw ≠ length bs) by (intros E'; by apply Hew in E').
    eapply copied_refused; [done|done|lia| |done]. intros Hro. by destruct (Hroom Hro) as (_ & ? & _).
  - rewrite firstn_all in Hout. apply Hstop; [done| |done]. intros Hro. by destruct (Hroom Hro) as (_ & _ & ?).
  - eapply copied_refused; [done|done|lia| |done]. intros Hro. by destruct (Hroom Hro) as (? & _ & _).
Qed.

End Copying.

(** [io.CopyN(w, s, n)]: a copy of the first [n] bytes; [EOF] when there are
    fewer and nothing else failed. *)
Definition copy_buffer (n : N) : nat := N.to_nat (N.min 32768 (N.max 1 n)).
Definition CopyN {S} `{Source S} (n : N) (s : S) (w : sink) : option error * S * sink :=
  let '(written, e, l, w') := copy (Datatypes.S (reads s)) (copy_buffer n) 0 (Limited s n) w in
  (if (N.of_nat written =? n)%N then None else match e with None => Some EOF | e => e end, lr_R l, w').

Lemma CopyN_spec {S} `{SourceLaws S} n (s s' : S) w e w' : CopyN n s w = (e, s', w') →
  (∃ k, snk_out w' = snk_out w ++ take k (content s) ∧ k ≤ Nat.min (N.to_nat n) (length (content s)) ∧
    (e = None ↔ k = N.to_nat n) ∧ (snk_room w = None → k = Nat.min (N.to_nat n) (length (content s)) ∧ snk_room w' = None) ∧
    spent k (Nat.min (N.to_nat n) (length (content s))) w w') ∧
  (snk_room w = None → length (content s) < N.to_nat n →
    ∃ x, (x = EOF ∨ ends s x) ∧ e = Some x).
Proof.
  unfold CopyN. intros HC.
  assert (0 < copy_buffer n) as Hpos by (unfold copy_buffer; lia).
  pose proof (copy_spec (copy_buffer n) (Datatypes.S (reads s)) Hpos 0 (Limited s n) w (Nat.lt_succ_diag_r _)) as HS.
  destruct (copy _ _ _ _ _) as [[[wn e1] l] w1]. injection HC as <- <- <-.
  destruct HS as ((k & Hw & Hk & -> & _ & Hr & Hsp) & _ & Hx). cbn [content limited_source lr_N lr_R plus] in *.
  rewrite length_take in *. split.
  - exists k. rewrite take_take in Hw. rewrite Nat.min_l in Hw by lia.
    split_and!; [done|lia| |done|done]. cbn. destruct (N.eqb_spec (N.of_nat k) n); split; try done; try lia. by destruct e1.
  - intros Hro Hlt. destruct (Hr Hro) as [Hk' _]. destruct (Hx Hro) as (x & Hends & ->). cbn.
    destruct (N.eqb_spec (N.of_nat k) n); [lia|]. exists x. split; [destruct Hends as [[-> _]|[? _]]; auto|].
    case_bool_decide; by subst.
Qed.
