(* ===== verification/RunnerWire.v ===== *)
(** * Runner frames ([runner/runnerwire/frame.go])

    A frame is the magic, the length of its header, the header as JSON and the
    bytes of its payload.  [WriteFrame] writes one; a [Reader] takes a stream
    apart: [Next] reads a header, and the frame's body is the reader itself, as a
    source limited to the header's size ([payload]).  An error of the stream is
    kept in the reader and returned by every later call. *)

From Stdlib Require Import ZArith Lia.
From stdpp Require Import gmap strings prelude.
From S2P Require Import Prelude GoText GoJson GoIO.
Local Open Scope Z_scope.

Definition Version : Z := 1.
Definition MaxHeaderBytes : Z := 64 * 2 ^ 10.
Definition magic : list Z := to_bytes "CBXR".
Definition ErrUnreadPayload : error := Msg "previous frame payload has not been consumed".

(** Kinds of frames. *)
Definition Hello : string := "hello".
Definition Request : string := "request".
Definition File : string := "file".
Definition Result : string := "result".
Definition Error : string := "error".
Definition End : string := "end".

Record Header := mkHeader { h_Version : Z; h_Kind : string; h_Size : Z; h_Meta : list Z }.

(** [bytes.TrimSpace] and [utf8.Valid] *)
Definition trim_bytes (bs : list Z) : list Z :=
  concat ((λ p : Z * list Z, p.2) <$> trim_both (λ p : Z * list Z, is_space p.1) (runes bs)).
Definition valid_bytes (bs : list Z) : bool := utf8_valid (of_bytes bs).

Definition validateHeader (h : Header) (limit : Z) : res () :=
  reject_if (negb (h_Version h =? Version)) (Msg "unsupported runner protocol version %d");;
  reject_if (negb (bool_decide (h_Kind h ∈ [Hello; Request; File; Result; Error; End])))
    (Msg "unknown runner frame kind");;
  reject_if ((limit <? h_Size h) || (max_int64 <? h_Size h)) (Msg "runner frame payload exceeds limit");;
  reject_if (negb (h_Size h =? 0) && negb (bool_decide (h_Kind h = Request)) && negb (bool_decide (h_Kind h = File)))
    (Msg "runner metadata frame cannot contain a payload");;
  reject_if (negb (bool_decide (h_Meta h = [])) && negb (bool_decide (head (trim_bytes (h_Meta h)) = Some 123)))
    (Msg "runner metadata must be an object").

(** [visit]: nesting, duplicate keys, and numbers a float64 can hold. *)
Fixpoint visit (depth : nat) (v : json) : bool :=
  (depth <=? 64)%nat &&
  match v with
  | Num n => number_fits n
  | Arr l => forallb (visit (S depth)) l
  | Obj l => bool_decide (NoDup ((λ kv, decode kv.1) <$> l)) && forallb (λ kv, visit (S depth) kv.2) l
  | _ => true
  end.

(** The errors of [uniqueObjectKeys] are not told apart. *)
Definition ErrMetadata : error := Msg "invalid runner metadata".
Definition uniqueObjectKeys (data : list Z) : res () :=
  if valid_bytes data then
    match parse data with
    | Some v => if visit 0 v then Ok () else Err ErrMetadata
    | None => Err ErrMetadata
    end
  else Err ErrMetadata.

(** The value of a member, by its decoded key. *)
Definition field (name : string) (ms : list member) : option member :=
  list_find (λ m : member, decode m.1.1 = to_bytes name) ms ≫= λ p, Some p.2.

(** [strconv.ParseUint(s, 10, 64)] *)
Definition parse_uint (bs : list Z) : option Z :=
  match bs with
  | [] => None
  | _ => n ← digits_value 0 bs; if n <? 2 ^ 64 then Some n else None
  end.

(** [json.Unmarshal] into the fields of a [Header]; [null] leaves the zero value. *)
Definition ErrType : error := Msg "json: cannot unmarshal".
Definition of_option {A} (e : error) (x : option A) : res A :=
  match x with Some a => Ok a | None => Err e end.
Definition unmarshal_int (v : option json) : res Z :=
  match v with
  | None | Some Null => Ok 0
  | Some (Num n) => of_option ErrType (ParseInt (of_bytes (print_number n)))
  | _ => Err ErrType
  end.
Definition unmarshal_uint (v : option json) : res Z :=
  match v with
  | None | Some Null => Ok 0
  | Some (Num n) => of_option ErrType (parse_uint (print_number n))
  | _ => Err ErrType
  end.
Definition unmarshal_string (v : option json) : res string :=
  match v with
  | None | Some Null => Ok ""%string
  | Some (Str s) => Ok (of_bytes (decode s))
  | _ => Err ErrType
  end.

Definition known_field (m : member) : bool :=
  bool_decide (decode m.1.1 ∈ to_bytes <$> ["version"; "kind"; "size"; "meta"]%string).

Definition decodeHeader (data : list Z) : res Header :=
  uniqueObjectKeys data;;
  ms ← of_option (Msg "runner header must be an object") (parse_object data);
  reject_if (negb (forallb known_field ms)) (Msg "unknown runner header field %q");;
  reject_if (match field "size" ms with
             | None => true
             | Some m => bool_decide (trim_bytes m.1.2 = to_bytes "null")
             end) (Msg "runner header size is missing");;
  version ← unmarshal_int (snd <$> field "version" ms);
  kind ← unmarshal_string (snd <$> field "kind" ms);
  size ← unmarshal_uint (snd <$> field "size" ms);
  mret (mkHeader version kind size (match field "meta" ms with Some m => m.1.2 | None => [] end)).

(** [json.Marshal(header)]; the kind is one of those above, which have nothing
    to escape. *)
Definition plain (s : string) : list schar := Plain <$> to_bytes s.
Definition int_value (n : Z) : json := Num (Number (n <? 0) (format_uint 10 (Z.abs n)) None None).
Definition header_fields (h : Header) (meta : option json) : list (list schar * json) :=
  [(plain "version", int_value (h_Version h)); (plain "kind", Str (plain (h_Kind h)));
   (plain "size", int_value (h_Size h))] ++
  match meta with Some v => [(plain "meta", v)] | None => [] end.

(** A [RawMessage] is compacted; an empty one is omitted. *)
Definition marshal_meta (meta : list Z) : res (option json) :=
  if bool_decide (meta = []) then Ok None
  else v ← of_option (Msg "json: error calling MarshalJSON") (parse meta); Ok (Some (escape v)).
Definition marshalHeader (h : Header) : res (list Z) :=
  meta ← marshal_meta (h_Meta h); Ok (print (Obj (header_fields h meta))).

(** [binary.BigEndian] *)
Definition PutUint32 (n : Z) : list Z :=
  [Z.shiftr n 24 mod 256; Z.shiftr n 16 mod 256; Z.shiftr n 8 mod 256; n mod 256].
Definition Uint32 (bs : list Z) : Z := fold_left (λ acc b, acc * 256 + b) bs 0.

(** ** Writing *)

Section Writing.
Context {S : Type} `{Source S}.

(** The writer, and the source of the body. *)
Definition out : Type := sink * option S.

Definition write_part (p : list Z) : M out () := λ st,
  let '(n, e, w) := write p st.1 in
  (match e with
   | Some x => Err x
   | None => if (n =? length p)%nat then Ok () else Err ErrShortWrite
   end, (w, st.2)).

Definition copy_body (size : Z) : M out () := λ st,
  match st.2 with
  | None => (Ok (), st)
  | Some body =>
      let '(e, body', w) := CopyN (Z.to_N size) body st.1 in
      (match e with
       | None => Ok ()
       | Some x => Err (if bool_decide (x = EOF) then ErrUnexpectedEOF else x)
       end, (w, Some body'))
  end.

(** The prefix, the header and the body. *)
Definition write_frame (data : list Z) (size : Z) : M out () :=
  write_part (magic ++ PutUint32 (zlen data));;
  write_part data;;
  if size =? 0 then mret () else copy_body size.

Definition default_version (h : Header) : Header :=
  if h_Version h =? 0 then mkHeader Version (h_Kind h) (h_Size h) (h_Meta h) else h.

Definition WriteFrame (h : Header) : M out () :=
  let h := default_version h in
  lift (validateHeader h max_int64);;
  body ← gets snd;
  ensure (negb (negb (h_Size h =? 0) && bool_decide (body = None))) (Msg "runner frame body is missing");;
  data ← lift (marshalHeader h);
  ensure (zlen data <=? MaxHeaderBytes) (Msg "runner frame header exceeds limit");;
  lift (uniqueObjectKeys data);;
  write_frame data (h_Size h).
End Writing.
Arguments out S : clear implicits.

(** ** Reading *)

(** [rd_current] is what remains of the current frame's payload: 0 before the
    first frame.  The body of an earlier frame has nothing left, since [Next]
    refuses to leave one that has. *)
Record Reader (S : Type) := mkReader {
  rd_reader : S; rd_maxBody : Z; rd_current : N; rd_err : option error }.
Arguments mkReader {S}. Arguments rd_reader {S}. Arguments rd_maxBody {S}.
Arguments rd_current {S}. Arguments rd_err {S}.

Definition NewReader {S} (reader : S) (maxBody : Z) : Reader S := mkReader reader maxBody 0 None.

Section Frames.
Context {S : Type} `{Source S}.

Definition next_header (maxBody : Z) : M S Header :=
  prefix ← ReadFull 8;
  ensure (bool_decide (take 4 prefix = magic)) (Msg "invalid runner frame magic");;
  let size := Uint32 (drop 4 prefix) in
  ensure (negb ((size =? 0) || (MaxHeaderBytes <? size))) (Msg "runner frame header exceeds limit");;
  data ← ReadFull (Z.to_nat size);
  h ← lift (decodeHeader data);
  lift (validateHeader h maxBody);;
  mret h.

Definition Next : M (Reader S) Header := λ r,
  match rd_err r with
  | Some e => (Err e, r)
  | None =>
      if negb (rd_current r =? 0)%N then (Err ErrUnreadPayload, r)
      else
        match next_header (rd_maxBody r) (rd_reader r) with
        | (Ok h, s) => (Ok h, mkReader s (rd_maxBody r) (Z.to_N (h_Size h)) None)
        | (Err e, s) => (Err e, mkReader s (rd_maxBody r) (rd_current r) (Some e))
        end
  end.

(** [payload.Read] with a buffer of [k] bytes. *)
Definition read_payload (k : nat) (r : Reader S) : list Z * option error * Reader S :=
  match rd_err r with
  | Some e => ([], Some e, r)
  | None =>
      if (rd_current r =? 0)%N then ([], Some EOF, r)
      else
        let k := fit k (rd_current r) in
        let '(bs, e, s) := read k (rd_reader r) in
        let '(bs, e) :=
          if (k <? length bs)%nat then ([], Some (Msg "invalid payload reader count")) else (bs, e) in
        let remaining := (rd_current r - N.of_nat (length bs))%N in
        let e := if bool_decide (e = Some EOF) && negb (remaining =? 0)%N then Some ErrUnexpectedEOF else e in
        let kept := match e with Some x => if bool_decide (x = EOF) then None else Some x | None => None end in
        (bs, e, mkReader s (rd_maxBody r) remaining kept)
  end.
End Frames.

(** ** The payload as a source *)

(** How the [n] bytes of a payload can end: at the limit, or as the stream does,
    an end of file too early being an error. *)
Definition payload_ends {S} `{Source S} (r : Reader S) (x : error) : Prop :=
  match rd_err r with
  | Some e => x = e
  | None =>
      let n := N.to_nat (rd_current r) in
      let have := length (content (rd_reader r)) in
      x = EOF ∧ (n ≤ have)%nat ∨
      ∃ y, ends (rd_reader r) y ∧ (have ≤ n)%nat ∧
        x = if bool_decide (y = EOF) && (have <? n)%nat then ErrUnexpectedEOF else y
  end.

#[export] Instance payload_source {S} `{Source S} : Source (Reader S) := {
  read := read_payload;
  content r := match rd_err r with
               | Some _ => []
               | None => take (N.to_nat (rd_current r)) (content (rd_reader r))
               end;
  ends := payload_ends;
  reads r := match rd_err r with Some _ => 0%nat | None => reads (rd_reader r) end }.

Section Payload.
Context {S : Type} `{SourceLaws S}.
Implicit Types r : Reader S.

(** The branches of [payload.Read]. *)
Lemma read_payload_cases k r bs e r' : read_payload k r = (bs, e, r') →
  (∃ x, rd_err r = Some x ∧ bs = [] ∧ e = Some x ∧ r' = r) ∨
  (rd_err r = None ∧ rd_current r = 0%N ∧ bs = [] ∧ e = Some EOF ∧ r' = r) ∨
  (rd_err r = None ∧ rd_current r ≠ 0%N ∧ ∃ e0 s,
    read (Nat.min k (N.to_nat (rd_current r))) (rd_reader r) = (bs, e0, s) ∧
    e = (if bool_decide (e0 = Some EOF) && negb (rd_current r - N.of_nat (length bs) =? 0)%N
         then Some ErrUnexpectedEOF else e0) ∧
    r' = mkReader s (rd_maxBody r) (rd_current r - N.of_nat (length bs))
           (match e with Some x => if bool_decide (x = EOF) then None else Some x | None => None end)).
Proof.
  unfold read_payload. destruct (rd_err r) as [x|]; [intros [= <- <- <-]; left; eauto|].
  destruct (N.eqb_spec (rd_current r) 0) as [E0|E0]; [intros [= <- <- <-]; right; left; done|]. intros HR. right; right. revert HR.
  rewrite fit_min.
  destruct (read _ _) as [[bs0 e0] s] eqn:E. pose proof (read_length _ _ _ _ _ E) as HL.
  destruct (Nat.ltb_spec (Nat.min k (N.to_nat (rd_current r))) (length bs0)); [lia|].
  intros [= <- <- <-]. split_and!; [done|done|]. by eexists _, _.
Qed.

Lemma payload_error r k bs e0 s x : rd_err r = None →
  read (Nat.min k (N.to_nat (rd_current r))) (rd_reader r) = (bs, e0, s) →
  (if bool_decide (e0 = Some EOF) && negb (rd_current r - N.of_nat (length bs) =? 0)%N
   then Some ErrUnexpectedEOF else e0) = Some x →
  content s = [] ∧ payload_ends r x.
Proof.
  intros Er E Ex. assert (∃ y, e0 = Some y) as [y ->].
  { destruct e0; [eauto|]. cbn in Ex. done. }
  destruct (read_error _ _ _ _ _ E) as [EC Hy]. split; [done|]. unfold payload_ends. rewrite Er.
  pose proof (read_length _ _ _ _ _ E) as HL. rewrite (read_content _ _ _ _ _ E), EC, app_nil_r.
  right. exists y. split_and!; [done|lia|].
  rewrite (bool_decide_ext (Some y = Some EOF) (y = EOF)) in Ex by (split; congruence).
  destruct (N.eqb_spec (rd_current r - N.of_nat (length bs)) 0);
    destruct (Nat.ltb_spec (length bs) (N.to_nat (rd_current r))); try lia;
    destruct (bool_decide _); cbn in *; congruence.
Qed.

Lemma payload_ends_read r k bs e0 s x : rd_err r = None →
  read (Nat.min k (N.to_nat (rd_current r))) (rd_reader r) = (bs, e0, s) →
  payload_ends (mkReader s (rd_maxBody r) (rd_current r - N.of_nat (length bs)) None) x → payload_ends r x.
Proof.
  intros Er E. unfold payload_ends. rewrite Er. cbn [rd_err rd_current rd_reader].
  pose proof (read_length _ _ _ _ _ E) as HL. rewrite (read_content _ _ _ _ _ E), length_app.
  replace (N.to_nat (rd_current r - N.of_nat (length bs))) with (N.to_nat (rd_current r) - length bs)%nat by lia.
  intros [[-> ?]|(y & Hy & Hl & ->)]; [left; split; [done|lia]|]. right. exists y.
  split_and!; [by eapply read_ends|lia|].
  destruct (Nat.ltb_spec (length (content s)) (N.to_nat (rd_current r) - length bs));
    destruct (Nat.ltb_spec (length bs + length (content s)) (N.to_nat (rd_current r))); done || lia.
Qed.

#[export] Instance payload_laws : SourceLaws (Reader S).
Proof.
  split; intros k r r' bs; cbn [read content ends reads payload_source]; intros *;
    match goal with |- (0 < k)%nat → _ => intros Hk | _ => idtac end;
    intros [(y & Er & -> & He & ->)|[(Er & Ec & -> & He & ->)|(Er & Ec & e0 & s & E & He & Hr)]]%read_payload_cases;
    rewrite ?Er; try done; try (cbn; lia).
  - pose proof (read_length _ _ _ _ _ E). lia.
  - rewrite (read_take _ _ _ _ _ _ E), Hr. cbn [rd_err rd_reader rd_current].
    destruct e as [y|].
    + symmetry in He. destruct (payload_error r k bs e0 s y Er E He) as [-> _].
      rewrite !take_nil. by case_bool_decide.
    + do 2 f_equal. lia.
  - rewrite Hr. destruct e as [y|]; [case_bool_decide as HE|].
    + by eapply payload_ends_read.
    + cbn. intros ->. by eapply payload_error.
    + by eapply payload_ends_read.
  - split; [done|]. injection He as ->. unfold payload_ends. rewrite Er. cbn. congruence.
  - split; [by rewrite Ec|]. injection He as ->. unfold payload_ends. rewrite Er, Ec. left. split; [done|lia].
  - symmetry in He. destruct (payload_error r k bs e0 s _ Er E He) as [EC ?]. split; [|done].
    rewrite Hr. cbn. case_bool_decide; [|done]. by rewrite EC, take_nil.
  - rewrite Hr. cbn. symmetry in He. destruct e0; [by destruct (_ && _)|]. eapply read_reads; [|exact E]. lia.
Qed.
End Payload.

(** ** The header's text *)

Lemma drop_while_last {A} (f : A → bool) l x : f x = false → ∃ m, drop_while f (l ++ [x]) = m ++ [x].
Proof.
  intros Hx. induction l as [|y l IH]; cbn; [rewrite Hx; by exists []|].
  destruct (f y); [done|]. by exists (y :: l).
Qed.

Lemma trim_both_first {A} (f : A → bool) x l : f x = false → head (trim_both f (x :: l)) = Some x.
Proof.
  intros Hx. unfold trim_both. cbn [drop_while]. rewrite Hx, reverse_cons.
  destruct (drop_while_last f (reverse l) x Hx) as [m ->]. by rewrite reverse_app.
Qed.

(** The first byte after white space, when it is ASCII. *)
Lemma trim_bytes_head bs b t : skip bs = b :: t → 32 < b < 0x80 → head (trim_bytes bs) = Some b.
Proof.
  intros Hs Hb. unfold trim_bytes.
  assert (trim_both (λ p : Z * list Z, is_space p.1) (runes bs) =
          trim_both (λ p : Z * list Z, is_space p.1) ((b, [b]) :: runes t)) as ->.
  { unfold trim_both. do 3 f_equal. induction bs as [|a bs IH]; [done|]. unfold skip in *. cbn [drop_while] in Hs.
    destruct (is_ws a) eqn:Ea.
    - cbn [runes]. unfold is_ws in Ea. replace (a <? 0x80) with true by lia. cbn [drop_while fst].
      replace (is_space a) with true by (unfold is_space; lia). by apply IH.
    - injection Hs as <- <-. cbn [runes]. by replace (a <? 0x80) with true by lia. }
  assert (is_space b = false) as Hn by (unfold is_space; lia).
  pose proof (trim_both_first (λ p : Z * list Z, is_space p.1) (b, [b]) (runes t) Hn) as HT.
  by destruct (trim_both _ _) as [|p l]; [|injection HT as ->].
Qed.

(** Metadata that starts with a brace, and parses, is an object. *)
Lemma meta_object bs v : parse bs = Some v → head (trim_bytes bs) = Some 123 → ∃ l, v = Obj l.
Proof.
  unfold parse. intros H Hh. split_bind H. case_match; [|done]. injection H as <-.
  unfold parse_fuel in E. rewrite Nat.add_succ_r in E. cbn [value] in E. destruct (skip bs) as [|b t] eqn:Es; [done|].
  assert (b = 123 ∨ 32 < b < 0x80 ∧ b ≠ 123 ∨ ¬ 32 < b < 0x80) as [->|[[Hb Hne]|Hb]] by lia.
  - cbn [Z.eqb Pos.eqb] in E. split_bind E. injection E as <- <-. eauto.
  - rewrite (trim_bytes_head bs b t Es Hb) in Hh. congruence.
  - replace (b =? 110) with false in E by lia. replace (b =? 116) with false in E by lia.
    replace (b =? 102) with false in E by lia. replace (b =? 34) with false in E by lia.
    replace (b =? 91) with false in E by lia. replace (b =? 123) with false in E by lia. split_bind E.
    unfold parse_number in E0.
    replace (match b :: t with 45 :: r => (true, r) | _ => (false, b :: t) end) with (false, b :: t) in E0
      by (destruct b as [|[]|]; repeat case_match; simplify_eq; try done; lia).
    unfold parse_int, digits in E0. cbn [span] in E0. replace (is_digit b) with false in E0 by (unfold is_digit; lia).
    exfalso. repeat case_match; simplify_eq; lia.
Qed.

Lemma field_cons name m ms :
  field name (m :: ms) = if bool_decide (decode m.1.1 = to_bytes name) then Some m else field name ms.
Proof.
  unfold field. cbn [list_find]. case_decide; case_bool_decide; try done.
  destruct (list_find _ ms) as [[]|]; done.
Qed.

Lemma digits_rev_last fuel : ∀ n, 0 < n < 2 ^ Z.of_nat fuel → ∃ d, last (digits_rev 10 fuel n) = Some d ∧ 0 < d < 10.
Proof.
  induction fuel as [|fuel IH]; intros n Hn; [cbn in Hn; lia|]. cbn [digits_rev].
  destruct (Z.ltb_spec n 10); [exists n; cbn; split; [done|lia]|].
  destruct (IH (n / 10)) as (d & Hd & ?).
  { rewrite Nat2Z.inj_succ, Z.pow_succ_r in Hn by lia. split; [apply Z.div_str_pos; lia|].
    apply Z.div_lt_upper_bound; [lia|]. lia. }
  exists d. split; [|done]. rewrite last_cons, Hd. done.
Qed.

Lemma int_value_ok n : 0 ≤ n → well_formed (int_value n).
Proof.
  intros Hn. unfold int_value. cbn [well_formed]. replace (n <? 0) with false by lia.
  rewrite Z.abs_eq by done. split_and!; [|done|done]. cbn [n_int].
  destruct (Z.eq_dec n 0) as [->|Hne]; [by left|]. right.
  assert (0 < n < 2 ^ Z.of_nat (digits_fuel n)) as Hlt.
  { unfold digits_fuel. pose proof (Z.log2_spec n ltac:(lia)). pose proof (Z.log2_nonneg n).
    rewrite Nat2Z.inj_succ, Z2Nat.id by done. lia. }
  destruct (digits_rev_last _ n Hlt) as (d & Hd & Hd').
  assert (head (format_uint 10 n) = Some (48 + d)) as Hh.
  { unfold format_uint. rewrite <-head_reverse in Hd.
    destruct (reverse _) as [|x l]; [done|]. injection Hd as ->. cbn. by rewrite digit_char_10 by lia. }
  split; [|rewrite Hh; intros [=]; lia]. split; [by intros E; rewrite E in Hh|].
  by apply format_uint_digits.
Qed.

Lemma decode_plain s : decode (plain s) = to_bytes s.
Proof. unfold plain. induction (to_bytes s) as [|b bs IH]; [done|]. cbn. by f_equal. Qed.

Lemma validateHeader_ok h limit : validateHeader h limit = Ok () →
  h_Version h = Version ∧ h_Kind h ∈ [Hello; Request; File; Result; Error; End] ∧
  h_Size h ≤ limit ∧ h_Size h ≤ max_int64 ∧
  (h_Size h = 0 ∨ h_Kind h = Request ∨ h_Kind h = File) ∧
  (h_Meta h = [] ∨ head (trim_bytes (h_Meta h)) = Some 123).
Proof.
  unfold validateHeader. intros H. res_steps. guards. split_and!; [lia|done|lia|lia| |].
  - destruct (Z.eqb_spec (h_Size h) 0); [by left|]. right. cbn in *.
    destruct (decide (h_Kind h = Request)); [by left|]. right. rewrite bool_decide_eq_false_2 in * by done. cbn in *. by guards.
  - destruct (decide (h_Meta h = [])); [by left|]. right. rewrite bool_decide_eq_false_2 in * by done. cbn in *. by guards.
Qed.

Lemma validateHeader_intro h limit :
  h_Version h = Version → h_Kind h ∈ [Hello; Request; File; Result; Error; End] →
  h_Size h ≤ limit → h_Size h ≤ max_int64 →
  (h_Size h = 0 ∨ h_Kind h = Request ∨ h_Kind h = File) →
  (h_Meta h = [] ∨ head (trim_bytes (h_Meta h)) = Some 123) → validateHeader h limit = Ok ().
Proof.
  intros H1 H2 H3 H4 H5 H6. unfold validateHeader, reject_if. rewrite H1.
  rewrite (bool_decide_eq_true_2 _ H2). replace (limit <? h_Size h) with false by lia.
  replace (max_int64 <? h_Size h) with false by lia.
  assert (negb (h_Size h =? 0) && negb (bool_decide (h_Kind h = Request)) && negb (bool_decide (h_Kind h = File)) = false) as ->.
  { destruct H5 as [->|[->| ->]]; [done| |]; by destruct (h_Size h =? 0). }
  assert (negb (bool_decide (h_Meta h = [])) && negb (bool_decide (head (trim_bytes (h_Meta h)) = Some 123)) = false) as ->.
  { destruct H6 as [->|H6]; [done|]. by rewrite (bool_decide_eq_true_2 _ H6), andb_false_r. }
  done.
Qed.

(** The header as the receiver gets it: the metadata is compacted. *)
Definition received (h : Header) : Header :=
  mkHeader (h_Version h) (h_Kind h) (h_Size h)
    match marshal_meta (h_Meta h) with Ok (Some v) => print v | _ => [] end.

Lemma kind_ok k : k ∈ [Hello; Request; File; Result; Error; End] → string_ok (plain k).
Proof.
  intros H. assert (forallb (λ c, schar_ok c) (plain k) = true) as HF.
  { repeat (apply elem_of_cons in H as [->|H]; [done|]). by apply elem_of_nil in H. }
  apply Forall_forall. intros c Hc. rewrite forallb_forall in HF. by apply HF, list_elem_of_In.
Qed.

Lemma marshal_meta_ok h limit m : validateHeader h limit = Ok () → marshal_meta (h_Meta h) = Ok m →
  match m with Some v => well_formed v ∧ ∃ l, v = Obj l | None => h_Meta h = [] end.
Proof.
  intros (_ & _ & _ & _ & _ & Hm)%validateHeader_ok. unfold marshal_meta. case_bool_decide; [by intros [= <-]|].
  destruct Hm as [|Hm]; [done|]. destruct (parse (h_Meta h)) as [v|] eqn:E; [|done]. intros [= <-].
  split; [by eapply escape_well_formed, parse_sound|].
  destruct (meta_object _ _ E Hm) as [l ->]. cbn. eauto.
Qed.

Lemma fields_well_formed h limit m : validateHeader h limit = Ok () → 0 ≤ h_Size h →
  marshal_meta (h_Meta h) = Ok m → well_formed (Obj (header_fields h m)).
Proof.
  intros HV Hs Hm. pose proof (marshal_meta_ok _ _ _ HV Hm) as HW.
  apply validateHeader_ok in HV as (Hv & Hk & _). cbn [well_formed]. apply foldr_and. unfold header_fields.
  assert (string_ok (plain "version") ∧ string_ok (plain "kind") ∧ string_ok (plain "size") ∧ string_ok (plain "meta"))
    as (? & ? & ? & ?) by (split_and!; repeat constructor).
  apply Forall_app. split.
  - repeat apply Forall_cons_2; [| | |by apply Forall_nil_2]; (split; [done|]); cbn [snd].
    + rewrite Hv. by apply int_value_ok.
    + by apply kind_ok.
    + by apply int_value_ok.
  - destruct m as [v|]; [|constructor]. destruct HW. by repeat constructor.
Qed.

(** The members of a marshalled header, as they are looked up. *)
Definition header_members (h : Header) (m : option json) : list member :=
  (λ kv : list schar * json, (kv.1, print kv.2, kv.2)) <$> header_fields h m.

Lemma field_hit name v l : field name ((plain name, print v, v) :: l) = Some (plain name, print v, v).
Proof. rewrite field_cons. cbn [fst]. by rewrite decode_plain, bool_decide_eq_true_2. Qed.
Lemma field_miss name k v l : bool_decide (to_bytes k = to_bytes name) = false →
  field name ((plain k, print v, v) :: l) = field name l.
Proof. intros Hk. rewrite field_cons. cbn [fst]. by rewrite decode_plain, Hk. Qed.

Lemma header_lookup h m (name : string) (v : option json) :
  In (name, v) [("version"%string, Some (int_value (h_Version h))); ("kind"%string, Some (Str (plain (h_Kind h))));
    ("size"%string, Some (int_value (h_Size h))); ("meta"%string, m)] →
  field name (header_members h m) = (λ v, (plain name, print v, v)) <$> v.
Proof.
  unfold header_members, header_fields. cbn [fmap list_fmap app fst snd In].
  intros [[= <- <-]|[[= <- <-]|[[= <- <-]|[[= <- <-]|[]]]]];
    rewrite ?field_hit; try done; rewrite field_miss by done; rewrite ?field_hit; try done;
    rewrite field_miss by done; rewrite ?field_hit; try done; rewrite field_miss by done.
  destruct m; [apply field_hit|done].
Qed.

Lemma print_int_value n : 0 ≤ n → print (int_value n) = format_uint 10 n.
Proof.
  intros Hn. unfold int_value. cbn [print]. unfold print_number. cbn [n_negative n_int n_frac n_exp].
  replace (n <? 0) with false by lia. by rewrite Z.abs_eq, !app_nil_r by done.
Qed.

Lemma unmarshal_int_value n : 0 ≤ n ≤ max_int64 → unmarshal_int (Some (int_value n)) = Ok n.
Proof.
  intros Hn. cbn [unmarshal_int int_value].
  change (print_number _) with (print (int_value n)). rewrite print_int_value, <-to_bytes_FormatInt, of_to_bytes by lia.
  by rewrite ParseInt_FormatInt.
Qed.

Lemma unmarshal_uint_value n : 0 ≤ n ≤ max_int64 → unmarshal_uint (Some (int_value n)) = Ok n.
Proof.
  intros Hn. cbn [unmarshal_uint int_value].
  change (print_number _) with (print (int_value n)). rewrite print_int_value by lia. unfold parse_uint.
  assert (format_uint 10 n ≠ []) as Hne.
  { intros E. apply (FormatInt_nonempty n); [lia|]. apply to_bytes_inj. by rewrite to_bytes_FormatInt, E by lia. }
  destruct (format_uint 10 n) as [|d ds] eqn:E; [done|]. rewrite <-E, format_uint_value by lia. cbn [mbind option_bind].
  unfold max_int64 in Hn. by replace (n <? 2 ^ 64) with true by lia.
Qed.

Lemma digits_not_null n : 0 ≤ n → bool_decide (trim_bytes (print (int_value n)) = to_bytes "null") = false.
Proof.
  intros Hn. apply bool_decide_eq_false_2. intros E.
  destruct (number_starts _ (int_value_ok n Hn)) as (b & t & EP & _ & Hb). change (print_number _) with (print (int_value n)) in EP.
  rewrite EP in E. assert (b ≠ 110 ∧ 32 < b < 0x80) as [Hne Hr] by (unfold is_digit in Hb; lia).
  assert (head (trim_bytes (b :: t)) = Some b) as HH.
  { apply (trim_bytes_head _ _ t); [|done]. apply skip_starts. unfold is_ws. lia. }
  rewrite E in HH. by injection HH as <-.
Qed.

(** What was marshalled is decoded. *)
Lemma decode_marshalled h limit data : validateHeader h limit = Ok () → 0 ≤ h_Size h →
  marshalHeader h = Ok data → uniqueObjectKeys data = Ok () →
  decodeHeader data = Ok (received h).
Proof.
  intros HV Hs. unfold marshalHeader, received. destruct (marshal_meta (h_Meta h)) as [m|] eqn:Em; [|done].
  intros HD HU. unfold mbind at 1, res_bind in HD. apply Ok_inj in HD as <-. unfold decodeHeader. rewrite HU.
  pose proof (fields_well_formed _ _ _ HV Hs Em) as HW. rewrite (parse_object_print _ HW).
  apply validateHeader_ok in HV as (Hv & _ & _ & Hmax & _). fold (header_members h m).
  assert (forallb known_field (header_members h m) = true) as HK.
  { unfold header_members, header_fields. cbn [fmap list_fmap app forallb fst snd].
    unfold known_field. cbn [fst]. rewrite !decode_plain. by destruct m. }
  unfold of_option at 1, mbind, res_bind. rewrite HK.
  rewrite (header_lookup h m "size" (Some (int_value (h_Size h)))) by (cbn; tauto).
  rewrite (header_lookup h m "version" (Some (int_value (h_Version h)))) by (cbn; tauto).
  rewrite (header_lookup h m "kind" (Some (Str (plain (h_Kind h))))) by (cbn; tauto).
  rewrite (header_lookup h m "meta" m) by (cbn; tauto). cbn [fmap option_fmap option_map fst snd].
  rewrite digits_not_null by done. rewrite unmarshal_int_value by (rewrite Hv; done).
  rewrite unmarshal_uint_value by done. cbn [reject_if negb unmarshal_string]. rewrite decode_plain, of_to_bytes.
  by destruct m.
Qed.

(** ** Frames on the stream *)

Definition frame (data body : list Z) : list Z := magic ++ PutUint32 (zlen data) ++ data ++ body.

Lemma Uint32_PutUint32 n : 0 ≤ n < 2 ^ 32 → Uint32 (PutUint32 n) = n.
Proof.
  intros Hn. unfold Uint32, PutUint32. cbn [fold_left]. rewrite !Z.shiftr_div_pow2 by lia.
  Z.to_euclidean_division_equations. lia.
Qed.

Lemma frame_prefix data body :
  take 8 (frame data body) = magic ++ PutUint32 (zlen data) ∧ drop 8 (frame data body) = data ++ body ∧
  length (frame data body) = (8 + length data + length body)%nat.
Proof.
  unfold frame. split_and!; [done|done|]. by rewrite !length_app.
Qed.

Definition header_text (h : Header) (data : list Z) : Prop :=
  marshalHeader h = Ok data ∧ uniqueObjectKeys data = Ok () ∧ zlen data ≤ MaxHeaderBytes.

Lemma header_text_length h data : header_text h data → 0 < zlen data < 2 ^ 32.
Proof.
  intros (HM & _ & HL). unfold MaxHeaderBytes in HL. split; [|lia].
  unfold marshalHeader in HM. destruct (marshal_meta (h_Meta h)); [|done].
  unfold mbind, res_bind in HM. apply Ok_inj in HM as <-. unfold zlen. cbn [print length]. lia.
Qed.

(** The bytes of a frame before its body. *)
Definition framed (maxBody : Z) (h : Header) (bs : list Z) : Prop :=
  ∃ size data, bs = magic ++ size ++ data ∧ length size = 4%nat ∧ Uint32 size = zlen data ∧
    zlen data ≤ MaxHeaderBytes ∧ decodeHeader data = Ok h ∧ validateHeader h maxBody = Ok ().

(** A frame cut off between its prefix and its header. *)
Definition lone_prefix (bs : list Z) : Prop :=
  length bs = 8%nat ∧ take 4 bs = magic ∧ 0 < Uint32 (drop 4 bs) ≤ MaxHeaderBytes.

Lemma decodeHeader_nil : decodeHeader [] = Err ErrMetadata.
Proof. done. Qed.

Lemma framed_text h limit maxBody data : validateHeader h limit = Ok () → 0 ≤ h_Size h ≤ maxBody → header_text h data →
  framed maxBody (received h) (magic ++ PutUint32 (zlen data) ++ data).
Proof.
  intros HV Hs HT. pose proof (header_text_length _ _ HT). destruct HT as (HM & HU & Hmax).
  exists (PutUint32 (zlen data)), data. split_and!; [done|done|by apply Uint32_PutUint32; lia|done| |].
  - by apply (decode_marshalled h limit); [|lia|..].
  - pose proof HV as (? & ? & _ & ? & ? & _)%validateHeader_ok. apply validateHeader_intro; try done; [cbn; lia|].
    unfold received. cbn [h_Meta]. unfold marshalHeader in HM.
    destruct (marshal_meta (h_Meta h)) as [[v|]|] eqn:Em; [|by left|done]. right.
    destruct (marshal_meta_ok _ _ _ HV Em) as [_ [l ->]]. by eapply trim_bytes_head.
Qed.

Section Decoding.
Context {S : Type} `{SourceLaws S}.

(** A frame's header is read, and nothing after it. *)
Lemma next_header_ok h tail bs (s : S) maxBody : framed maxBody h bs → content s = bs ++ tail →
  ∃ s', next_header maxBody s = (Ok h, s') ∧ content s' = tail ∧ (∀ x, ends s' x → ends s x).
Proof.
  intros (size & data & -> & Hsz & HU & Hmax & HD & HV) EC.
  assert (0 < zlen data) as HL.
  { destruct data; [by rewrite decodeHeader_nil in HD|]. unfold zlen. cbn [length]. lia. }
  assert (length (magic ++ size) = 8%nat) as L8 by (rewrite length_app, Hsz; done).
  rewrite (app_assoc magic), <-(app_assoc (magic ++ size)) in EC.
  unfold next_header, mbind, M_bind, ensure, lift, mret, M_ret.
  destruct (ReadFull 8 s) as [r1 s1] eqn:E1. apply ReadFull_spec in E1 as [He1 E1].
  rewrite EC, length_app, L8, <-L8, take_app_length, drop_app_length in E1. cbn [Nat.leb Nat.add] in E1.
  rewrite L8 in E1. destruct E1 as [-> EC1].
  change 4%nat with (length magic). rewrite take_app_length, drop_app_length, HU.
  rewrite bool_decide_eq_true_2 by done.
  replace (zlen data =? 0) with false by lia. replace (MaxHeaderBytes <? zlen data) with false by lia. cbn [orb negb].
  destruct (ReadFull (Z.to_nat (zlen data)) s1) as [r2 s2] eqn:E2. apply ReadFull_spec in E2 as [He2 E2].
  unfold zlen in E2. rewrite Nat2Z.id, EC1, length_app in E2.
  replace (length data <=? length data + length tail)%nat with true in E2 by (symmetry; apply Nat.leb_le; lia).
  rewrite take_app_length, drop_app_length in E2. destruct E2 as [-> EC2].
  rewrite HD, HV. exists s2. split_and!; [done|done|]. intros x Hx. by apply He1, He2.
Qed.

(** A stream that ends inside the prefix or the header.  One that ends between
    them is reported like one that ends before the frame: [io.ReadFull] has read
    nothing of the header yet. *)
Lemma next_header_short data tail (s : S) maxBody j :
  0 < zlen data ≤ MaxHeaderBytes → (j < 8 + length data)%nat → content s = take j (frame data tail) →
  (∀ x, ends s x → x = EOF) →
  ∃ s', next_header maxBody s = (Err (if (j =? 0)%nat || (j =? 8)%nat then EOF else ErrUnexpectedEOF), s').
Proof.
  intros HL Hj EC HE. destruct (frame_prefix data tail) as (E8 & D8 & L8).
  assert (length (content s) = j) as HC by (rewrite EC, length_take; lia).
  unfold next_header, mbind, M_bind, ensure, lift, mret, M_ret.
  destruct (ReadFull 8 s) as [r1 s1] eqn:E1. apply ReadFull_spec in E1 as [He1 E1]. rewrite HC in E1.
  destruct (Nat.leb_spec 8 j).
  - rewrite EC, take_take, skipn_firstn_comm, (Nat.min_l 8 j), E8, D8 in E1 by lia. destruct E1 as [-> EC1].
    change (take 4 (magic ++ PutUint32 (zlen data))) with magic.
    change (drop 4 (magic ++ PutUint32 (zlen data))) with (PutUint32 (zlen data)).
    unfold MaxHeaderBytes in HL. rewrite bool_decide_eq_true_2, Uint32_PutUint32 by (done || lia).
    replace (zlen data =? 0) with false by lia. unfold MaxHeaderBytes.
    replace (64 * 2 ^ 10 <? zlen data) with false by lia. cbn [orb negb].
    destruct (ReadFull (Z.to_nat (zlen data)) s1) as [r2 s2] eqn:E2. apply ReadFull_spec in E2 as [He2 E2].
    unfold zlen in E2. rewrite Nat2Z.id in E2.
    assert (length (content s1) = (j - 8)%nat) as HC1 by (rewrite EC1, length_take, length_app; lia).
    rewrite HC1 in E2. replace (length data <=? j - 8)%nat with false in E2 by (symmetry; apply Nat.leb_gt; lia).
    destruct E2 as [_ (x & Hx & ->)]. apply He1, HE in Hx as ->. exists s2. do 2 f_equal.
    replace (j =? 0)%nat with false by (symmetry; apply Nat.eqb_neq; lia). cbn [orb].
    rewrite bool_decide_eq_true_2 by done. cbn [andb].
    destruct (Nat.eqb_spec j 8); [rewrite bool_decide_eq_true_2|rewrite bool_decide_eq_false_2]; try done.
    + apply length_zero_iff_nil. lia.
    + intros E. rewrite E in HC1. cbn in HC1. lia.
  - destruct E1 as [_ (x & Hx & ->)]. apply HE in Hx as ->. exists s1. do 2 f_equal.
    replace (j =? 8)%nat with false by (symmetry; apply Nat.eqb_neq; lia). rewrite orb_false_r.
    rewrite bool_decide_eq_true_2 by done. cbn [andb].
    destruct (Nat.eqb_spec j 0); [rewrite bool_decide_eq_true_2|rewrite bool_decide_eq_false_2]; try done.
    + apply length_zero_iff_nil. lia.
    + intros E. rewrite E in HC. cbn in HC. lia.
Qed.
End Decoding.

(** ** What [WriteFrame] has written *)

Section Encoding.
Context {S : Type} `{SourceLaws S}.

Definition body_bytes (body : option S) : list Z := match body with Some s => content s | None => [] end.

(** A write of [p]: part of it, all of it exactly on success. *)
Definition wrote (p : list Z) (r : res ()) (w w' : sink) : Prop :=
  ∃ k, snk_out w' = snk_out w ++ take k p ∧ (k ≤ length p)%nat ∧ (r = Ok () ↔ k = length p) ∧
    spent k (length p) w w'.

Lemma wrote_then p q r w w1 w2 : wrote p (Ok ()) w w1 → wrote q r w1 w2 → wrote (p ++ q) r w w2.
Proof.
  intros (k & Hk & _ & E & Hs) (j & Hj & Hl & Er & Hs'). apply proj1 in E. rewrite E in Hk, Hs by done. exists (length p + j)%nat.
  rewrite Hj, Hk, firstn_all, length_app, take_app_ge by lia.
  replace (length p + j - length p)%nat with j by lia. split_and!; [by rewrite app_assoc|lia|rewrite Er; lia|by eapply spent_then].
Qed.

Lemma wrote_stop p q e w w1 : wrote p (Err e) w w1 → wrote (p ++ q) (Err e) w w1.
Proof.
  intros (k & Hk & Hl & E & Hs). assert (k ≠ length p) by (intros E'; by apply E in E').
  exists k. rewrite take_app_le, length_app by done. split_and!; [done|lia|split; [done|lia]|].
  eapply spent_more; [|done]. lia.
Qed.

Lemma write_part_spec p (st : out S) r st' : write_part p st = (r, st') → st'.2 = st.2 ∧ wrote p r st.1 st'.1.
Proof.
  unfold write_part. destruct (write p st.1) as [[n e] w] eqn:E. intros [= <- <-]. split; [done|].
  destruct (write_spec _ _ _ _ _ E) as (Ho & Hl & He & _ & Hs). exists n. split_and!; [done|done| |done].
  destruct e as [x|]; [split; [done|]; intros E'; by apply He in E'|].
  destruct (Nat.eqb_spec n (length p)); split; done.
Qed.

Lemma copy_body_spec size body w (r : res ()) (st' : out S) : copy_body size (w, Some body) = (r, st') →
  ∃ k, snk_out st'.1 = snk_out w ++ take k (content body) ∧ (k ≤ Nat.min (Z.to_nat size) (length (content body)))%nat ∧
    (r = Ok () ↔ k = Z.to_nat size) ∧ spent k (Nat.min (Z.to_nat size) (length (content body))) w st'.1.
Proof.
  unfold copy_body. cbn [fst snd]. destruct (CopyN (Z.to_N size) body w) as [[e b'] w'] eqn:E. intros [= <- <-].
  apply CopyN_spec in E as [(k & Hk & Hl & He & _ & Hs) _]. rewrite Z_N_nat in *. exists k. split_and!; [done|done| |done]. rewrite <-He.
  destruct e; split; done.
Qed.

Lemma write_frame_spec data size (st st' : out S) r : write_frame data size st = (r, st') → 0 ≤ size →
  (size ≠ 0 → st.2 ≠ None) →
  ∃ j, snk_out st'.1 = snk_out st.1 ++ take j (frame data (body_bytes st.2)) ∧
    (j ≤ Nat.min (8 + length data + Z.to_nat size) (length (frame data (body_bytes st.2))))%nat ∧
    (r = Ok () ↔ j = (8 + length data + Z.to_nat size)%nat) ∧
    spent j (Nat.min (8 + length data + Z.to_nat size) (length (frame data (body_bytes st.2)))) st.1 st'.1.
Proof.
  intros HW Hs HB. unfold write_frame, mbind, M_bind in HW. unfold frame. rewrite (app_assoc magic), (app_assoc (magic ++ _)).
  set (pre := magic ++ PutUint32 (zlen data)) in *. assert (length pre = 8%nat) as L0 by done.
  assert (length ((pre ++ data) ++ body_bytes st.2) = 8 + length data + length (body_bytes st.2))%nat as L8
    by (by rewrite !length_app, L0).
  assert (∀ r w', wrote (pre ++ data) r st.1 w' →
    ∃ k, snk_out w' = snk_out st.1 ++ take k ((pre ++ data) ++ body_bytes st.2) ∧ (k ≤ 8 + length data)%nat ∧
      (r = Ok () ↔ k = (8 + length data)%nat) ∧ spent k (8 + length data) st.1 w') as Hfit.
  { intros r0 w0 (k & Hk & Hl & Hr & Hsp). rewrite length_app, L0 in *. exists k. rewrite take_app_le by (rewrite length_app; lia). done. }
  assert (∀ e w' k n, (Err e = Ok () ↔ k = (8 + length data)%nat) → (k ≤ 8 + length data)%nat →
    spent k (8 + length data) st.1 w' → spent k n st.1 w') as Hless.
  { intros e w' k n Hr Hl. apply spent_more. assert (k ≠ 8 + length data)%nat by (intros E'; by apply Hr in E'). lia. }
  destruct (write_part pre st) as [[[]|e] st1] eqn:W1;
    apply write_part_spec in W1 as [E1 W1];
    [|injection HW as <- <-; destruct (Hfit _ _ (wrote_stop _ data _ _ _ W1)) as (k & Hk & Hl & Hr & Hsp);
      exists k; split_and!; [done|lia|split; [done|]; intros ->; apply Hr; lia|by eapply Hless]].
  destruct (write_part data st1) as [[[]|e] st2] eqn:W2; apply write_part_spec in W2 as [E2 W2];
    destruct (Hfit _ _ (wrote_then _ _ _ _ _ _ W1 W2)) as (k & Hk & Hl & Hr & Hsp);
    [|injection HW as <- <-; exists k; split_and!; [done|lia|split; [done|]; intros ->; apply Hr; lia|by eapply Hless]].
  rewrite (proj1 Hr eq_refl) in Hk, Hsp. clear Hless. destruct (Z.eqb_spec size 0) as [->|Hne].
  { injection HW as <- <-. exists (8 + length data)%nat. rewrite L8. split_and!; [done|lia|split; [lia|done]|].
    by replace (Nat.min _ _) with (8 + length data)%nat by lia. }
  destruct st2 as [w2 b2]. cbn [fst snd] in *. rewrite E2, E1 in *. destruct st.2 as [body|]; [|by destruct HB].
  apply copy_body_spec in HW as (j & Hj & Hl' & Hr' & Hsp'). exists (8 + length data + j)%nat. rewrite Hj, Hk.
  rewrite take_app_le, (take_app_ge (pre ++ data)), firstn_all2 by (rewrite length_app; lia).
  rewrite length_app, L0. replace (8 + length data + j - (8 + length data))%nat with j by lia.
  cbn [body_bytes] in *. split_and!; [by rewrite <-(app_assoc (snk_out st.1))|lia|rewrite Hr'; lia|].
  replace (Nat.min _ _) with (8 + length data + Nat.min (Z.to_nat size) (length (content body)))%nat by lia. by eapply spent_then.
Qed.

(** Nothing is written of a header that is refused; otherwise what is written
    is the start of the frame, the whole of it exactly on success. *)
Lemma WriteFrame_spec h (st st' : out S) r : WriteFrame h st = (r, st') → 0 ≤ h_Size h →
  (∃ e, r = Err e ∧ snk_out st'.1 = snk_out st.1) ∨
  ∃ data j, validateHeader (default_version h) max_int64 = Ok () ∧ header_text (default_version h) data ∧
    snk_out st'.1 = snk_out st.1 ++ take j (frame data (body_bytes st.2)) ∧
    (j ≤ length (frame data (body_bytes st.2)))%nat ∧
    (j ≤ 8 + length data + Z.to_nat (h_Size h))%nat ∧
    (r = Ok () ↔ j = (8 + length data + Z.to_nat (h_Size h))%nat) ∧
    spent j (Nat.min (8 + length data + Z.to_nat (h_Size h)) (length (frame data (body_bytes st.2)))) st.1 st'.1.
Proof.
  intros HW Hs. assert (h_Size (default_version h) = h_Size h) as ES by (unfold default_version; by destruct (_ =? _)).
  unfold WriteFrame, mbind, M_bind, lift, gets in HW. set (h' := default_version h) in *. rewrite ES in HW.
  destruct (validateHeader h' max_int64) as [[]|e] eqn:HV; [|injection HW as <- <-; left; eauto].
  unfold ensure in HW.
  destruct (negb (negb (h_Size h =? 0) && bool_decide (st.2 = None))) eqn:HB; [|injection HW as <- <-; left; eauto].
  destruct (marshalHeader h') as [data|e] eqn:HM; [|injection HW as <- <-; left; eauto].
  destruct (Z.leb_spec (zlen data) MaxHeaderBytes) as [HL|]; [|injection HW as <- <-; left; eauto].
  destruct (uniqueObjectKeys data) as [[]|e] eqn:HU; [|injection HW as <- <-; left; eauto].
  right. apply write_frame_spec in HW as (j & Hj & Hl & Hr & Hsp); [|done|].
  - exists data, j. split_and!; [done|done|done|lia|lia|done|done].
  - intros Hne Hn. rewrite Hn in HB. by destruct (Z.eqb_spec (h_Size h) 0).
Qed.
End Encoding.

(** ** Frames across a stream *)

Section Transfer.
Context {T : Type} `{SourceLaws T}.

(** Reading a payload takes it from the stream, and no more. *)
Lemma read_payload_stream room (r r' : Reader T) bs e : ReadAll room r = (bs, e, r') →
  rd_err r = None →
  content (rd_reader r) = bs ++ content (rd_reader r') ∧
  (N.to_nat (rd_current r') + length bs)%nat = N.to_nat (rd_current r) ∧
  rd_maxBody r' = rd_maxBody r ∧ rd_err r' ≠ Some EOF.
Proof.
  intros HR Er. unfold ReadAll in HR.
  pattern bs, r'. eapply read_all_keeps; [|..|exact HR]; cbn beta; [|by rewrite Er, Nat.add_0_r].
  intros got k r1 b e1 r2 (EC & EN & EM & EE) E. apply read_payload_cases in E as
    [(y & _ & -> & _ & ->)|[(_ & _ & -> & _ & ->)|(_ & _ & e0 & s & E & _ & ->)]];
    [by rewrite app_nil_r..|]. cbn [rd_reader rd_current rd_maxBody rd_err].
  pose proof (read_length _ _ _ _ _ E). rewrite EC, (read_content _ _ _ _ _ E), <-app_assoc, length_app.
  split_and!; [done|lia|done|]. destruct e1; [|done]. case_bool_decide; [done|]. by intros [= ->].
Qed.

Lemma next_framed h tail bs (r : Reader T) : framed (rd_maxBody r) h bs →
  rd_err r = None → rd_current r = 0%N → content (rd_reader r) = bs ++ tail →
  ∃ s', Next r = (Ok h, mkReader s' (rd_maxBody r) (Z.to_N (h_Size h)) None) ∧
    content s' = tail ∧ (∀ x, ends s' x → ends (rd_reader r) x).
Proof.
  intros HF Er Ec EC. destruct (next_header_ok _ _ _ _ _ HF EC) as (s' & E & HC & HE).
  exists s'. split_and!; [|done|done]. unfold Next. rewrite Er, Ec, E. done.
Qed.

Lemma next_frame_ok h limit data tail (r : Reader T) :
  validateHeader h limit = Ok () → 0 ≤ h_Size h ≤ rd_maxBody r → header_text h data →
  rd_err r = None → rd_current r = 0%N → content (rd_reader r) = frame data tail →
  ∃ s', Next r = (Ok (received h), mkReader s' (rd_maxBody r) (Z.to_N (h_Size h)) None) ∧
    content s' = tail ∧ (∀ x, ends s' x → ends (rd_reader r) x).
Proof.
  intros HV Hs HT Er Ec EC. apply (next_framed (received h) tail _ r (framed_text _ _ _ _ HV Hs HT) Er Ec).
  rewrite EC. unfold frame. by rewrite !app_assoc.
Qed.

Lemma next_frame_short data tail (r : Reader T) j :
  0 < zlen data ≤ MaxHeaderBytes → (j < 8 + length data)%nat → content (rd_reader r) = take j (frame data tail) →
  rd_err r = None → rd_current r = 0%N → (∀ x, ends (rd_reader r) x → x = EOF) →
  ∃ r', Next r = (Err (if (j =? 0)%nat || (j =? 8)%nat then EOF else ErrUnexpectedEOF), r').
Proof.
  intros HL Hj EC Er Ec HE. destruct (next_header_short _ _ _ (rd_maxBody r) _ HL Hj EC HE) as (s' & E).
  eexists. unfold Next. rewrite Er, Ec, E. done.
Qed.

(** A payload that is all there, and one that is not. *)
Lemma payload_complete room (r : Reader T) : rd_err r = None →
  (N.to_nat (rd_current r) ≤ length (content (rd_reader r)))%nat → (∀ x, ends (rd_reader r) x → x = EOF) →
  ∃ r', ReadAll room r = (take (N.to_nat (rd_current r)) (content (rd_reader r)), None, r') ∧
    rd_err r' = None ∧ rd_current r' = 0%N ∧ rd_maxBody r' = rd_maxBody r ∧
    content (rd_reader r') = drop (N.to_nat (rd_current r)) (content (rd_reader r)).
Proof.
  intros Er Hl HE. assert (∀ x, ends r x → x = EOF) as HP.
  { intros x. cbn. unfold payload_ends. rewrite Er. intros [[-> _]|(y & Hy & _ & ->)]; [done|].
    apply HE in Hy as ->. destruct (Nat.ltb_spec (length (content (rd_reader r))) (N.to_nat (rd_current r))); [lia|].
    by rewrite andb_false_r. }
  destruct (ReadAll room r) as [[bs e] r'] eqn:E. pose proof (read_payload_stream _ _ _ _ _ E Er) as (EC & EN & EM & EE).
  apply ReadAll_spec in E as (-> & _ & HE' & x & Hx & He). apply HP in Hx as ->. rewrite bool_decide_eq_true_2 in He by done.
  cbn [content payload_source] in EC, EN. rewrite Er in EC, EN. rewrite length_take in EN.
  exists r'. cbn [content payload_source]. rewrite Er, He. split_and!; [done| |lia|done|].
  - destruct (rd_err r') as [y|] eqn:Ey; [|done]. exfalso. apply EE. f_equal. apply HP, HE'. cbn. unfold payload_ends. by rewrite Ey.
  - eapply app_inv_head. rewrite <-EC. by rewrite take_drop.
Qed.

Lemma payload_truncated room (r : Reader T) : rd_err r = None →
  (length (content (rd_reader r)) < N.to_nat (rd_current r))%nat → (∀ x, ends (rd_reader r) x → x = EOF) →
  ∃ bs r', ReadAll room r = (bs, Some ErrUnexpectedEOF, r').
Proof.
  intros Er Hl HE. destruct (ReadAll room r) as [[bs e] r'] eqn:E. apply ReadAll_spec in E as (_ & _ & _ & x & Hx & ->).
  exists bs, r'. cbn in Hx. unfold payload_ends in Hx. rewrite Er in Hx.
  destruct Hx as [[_ ?]|(y & Hy & _ & ->)]; [lia|]. apply HE in Hy as ->.
  by replace (length (content (rd_reader r)) <? N.to_nat (rd_current r))%nat with true by (symmetry; apply Nat.ltb_lt; lia).
Qed.
End Transfer.

(** ** What an accepted stream looks like *)


(** No error of a header is taken for the end of the stream. *)
Lemma res_bind_err {A B} (m : res A) (k : A → res B) e : m ≠ Err e → (∀ a, k a ≠ Err e) → m ≫= k ≠ Err e.
Proof. intros Hm Hk. unfold mbind, res_bind. destruct m; [apply Hk|congruence]. Qed.
Lemma reject_if_err b e e' : e ≠ e' → reject_if b e ≠ Err e'.
Proof. intros. destruct b; [|done]. cbn; congruence. Qed.
Lemma of_option_err {A} e e' (x : option A) : e ≠ e' → of_option e x ≠ Err e'.
Proof. intros. destruct x; [done|]. cbn; congruence. Qed.

Lemma validateHeader_not_eof h limit : validateHeader h limit ≠ Err EOF.
Proof. unfold validateHeader. repeat (apply res_bind_err; [by apply reject_if_err|intros []]). by apply reject_if_err. Qed.

Lemma decodeHeader_not_eof data : decodeHeader data ≠ Err EOF.
Proof.
  assert (∀ v, unmarshal_int v ≠ Err EOF ∧ unmarshal_uint v ≠ Err EOF ∧ unmarshal_string v ≠ Err EOF) as HU.
  { intros [[]|]; cbn; split_and!; try done; by apply of_option_err. }
  unfold decodeHeader. apply res_bind_err; [|intros []].
  { unfold uniqueObjectKeys. destruct (valid_bytes data); [|done]. destruct (parse data); [|done]. by destruct (visit _ _). }
  apply res_bind_err; [by apply of_option_err|intros ms].
  do 2 (apply res_bind_err; [by apply reject_if_err|intros []]).
  do 3 (apply res_bind_err; [apply HU|intros ?]). done.
Qed.

Section Accepted.
Context {T : Type} `{SourceLaws T}.

Lemma next_header_inv maxBody (s s' : T) h : next_header maxBody s = (Ok h, s') →
  (∀ x, ends s' x → ends s x) ∧ ∃ bs, content s = bs ++ content s' ∧ framed maxBody h bs.
Proof.
  unfold next_header. rewrite M_bind_ok. intros (pre & s1 & E1 & HN). apply ReadFull_spec in E1 as [He1 E1].
  destruct (Nat.leb_spec 8 (length (content s))) as [H8|]; [|by destruct E1 as [_ (? & _ & ?)]].
  destruct E1 as [[= ->] EC1]. set (pre := take 8 (content s)) in *.
  assert (length pre = 8%nat) as L8 by (subst pre; rewrite length_take; lia).
  apply M_bind_ok in HN as ([] & s2 & HE & HN). unfold ensure in HE. case_bool_decide as Hm; [|done]. injection HE as <-.
  apply M_bind_ok in HN as ([] & s2 & HE & HN). destruct (negb _) eqn:Hb in HE; [|done]. injection HE as <-.
  apply M_bind_ok in HN as (data & s2 & E2 & HN). apply ReadFull_spec in E2 as [He2 E2].
  destruct (Nat.leb_spec (Z.to_nat (Uint32 (drop 4 pre))) (length (content s1))) as [Hd|]; [|by destruct E2 as [_ (? & _ & ?)]].
  destruct E2 as [[= ->] EC2]. set (data := take _ (content s1)) in *.
  apply M_bind_ok in HN as (h' & s3 & HD & HN). injection HD as HD <-.
  apply M_bind_ok in HN as ([] & s3 & HV & HN). injection HV as HV <-. injection HN as -> <-.
  split; [intros x Hx; by apply He1, He2|]. exists (pre ++ data).
  split; [rewrite EC2; subst data; by rewrite <-app_assoc, take_drop, EC1; subst pre; rewrite take_drop|].
  assert (length data = Z.to_nat (Uint32 (drop 4 pre))) as LD by (subst data; rewrite length_take; lia).
  assert (data ≠ []) as Hne by (intros Hn; by rewrite Hn, decodeHeader_nil in HD).
  apply nil_length_pos in Hne. exists (drop 4 pre), data. unfold zlen. split_and!; [|rewrite length_drop; lia|lia|lia|done|done].
  by rewrite app_assoc, <-Hm, take_drop.
Qed.

Lemma next_inv (r r' : Reader T) h : Next r = (Ok h, r') →
  rd_err r = None ∧ rd_current r = 0%N ∧ r' = mkReader (rd_reader r') (rd_maxBody r) (Z.to_N (h_Size h)) None ∧
  (∀ x, ends (rd_reader r') x → ends (rd_reader r) x) ∧
  ∃ bs, content (rd_reader r) = bs ++ content (rd_reader r') ∧ framed (rd_maxBody r) h bs.
Proof.
  unfold Next. destruct (rd_err r); [done|]. destruct (N.eqb_spec (rd_current r) 0); [|done].
  destruct (next_header _ _) as [[h'|y] s] eqn:E; [|done]. intros [= -> <-]. apply next_header_inv in E as [HE HB]. done.
Qed.

(** The end of the stream where a frame was expected. *)
Lemma next_eof (r r' : Reader T) : Next r = (Err EOF, r') → rd_err r = None → rd_current r = 0%N →
  content (rd_reader r) = [] ∨ lone_prefix (content (rd_reader r)).
Proof.
  unfold Next. intros HN Er Ec. rewrite Er, Ec in HN. cbn [N.eqb negb] in HN.
  destruct (next_header (rd_maxBody r) (rd_reader r)) as [[h|e] s] eqn:E; [done|]. injection HN as -> _.
  unfold next_header, mbind, M_bind, ensure, lift, mret, M_ret in E.
  destruct (ReadFull 8 (rd_reader r)) as [r1 s1] eqn:E1. apply ReadFull_spec in E1 as [_ E1].
  destruct (Nat.leb_spec 8 (length (content (rd_reader r)))) as [H8|H8].
  - destruct E1 as [-> EC1]. case_bool_decide as Hm; [|done]. destruct (negb _) eqn:Hb in E; [|done].
    destruct (ReadFull _ s1) as [r2 s2] eqn:E2. apply ReadFull_spec in E2 as [_ E2].
    destruct (Nat.leb_spec (Z.to_nat (Uint32 (drop 4 (take 8 (content (rd_reader r)))))) (length (content s1))) as [|HS].
    + destruct E2 as [-> _]. destruct (decodeHeader _) as [h|e] eqn:HD.
      * destruct (validateHeader h _) as [[]|y] eqn:HV; [done|]. injection E as -> _. by apply validateHeader_not_eof in HV.
      * injection E as -> _. by apply decodeHeader_not_eof in HD.
    + destruct E2 as [_ (x & _ & ->)]. injection E as E _. right. rewrite EC1 in E.
      destruct (decide (drop 8 (content (rd_reader r)) = [])) as [Hn|Hn].
      * apply (f_equal length) in Hn. rewrite length_drop in Hn. cbn in Hn. rewrite take_take in Hm.
        rewrite firstn_all2 in Hb, HS by lia. split_and!; [lia|done|lia|lia].
      * rewrite (bool_decide_eq_false_2 _ Hn) in E. by destruct (bool_decide (x = EOF)) eqn:Ex; cbn in E; [|guards].
  - destruct E1 as [_ (x & _ & ->)]. injection E as E _. left.
    destruct (decide (content (rd_reader r) = [])) as [|Hn]; [done|].
    rewrite (bool_decide_eq_false_2 _ Hn) in E. by destruct (bool_decide (x = EOF)) eqn:Ex; cbn in E; [|guards].
Qed.
End Accepted.

Lemma default_version_size h : h_Size (default_version h) = h_Size h.
Proof. unfold default_version. by destruct (_ =? _). Qed.

(** C17. A frame that was written is read back from any stream that starts with
    it, however the stream is cut into reads: the header is the one given, with
    its version filled in and its metadata compacted, the body is exactly the
    bytes that were to be sent, and the reader is left at the byte after the
    frame, ready for the next one. *)
Theorem frame_reads_back {S T : Type} `{SourceLaws S} `{SourceLaws T} h (st st' : out S) (r : Reader T) rest room :
  WriteFrame h st = (Ok (), st') → 0 ≤ h_Size h ≤ rd_maxBody r →
  rd_err r = None → rd_current r = 0%N → (∀ x, ends (rd_reader r) x → x = EOF) →
  snk_out st.1 ++ content (rd_reader r) = snk_out st'.1 ++ rest →
  ∃ r1 r2, Next r = (Ok (received (default_version h)), r1) ∧
    ReadAll room r1 = (take (Z.to_nat (h_Size h)) (body_bytes st.2), None, r2) ∧
    (Z.to_nat (h_Size h) ≤ length (body_bytes st.2))%nat ∧
    rd_err r2 = None ∧ rd_current r2 = 0%N ∧ rd_maxBody r2 = rd_maxBody r ∧ content (rd_reader r2) = rest.
Proof.
  intros HW Hs Er Ec HE EC. apply WriteFrame_spec in HW as [(e & ? & _)|(data & j & HV & HT & Ho & Hj & _ & Hr & _)]; [done| |lia].
  rewrite (proj1 Hr eq_refl) in *. destruct (frame_prefix data (body_bytes st.2)) as (_ & _ & L8). rewrite L8 in Hj.
  rewrite Ho, <-app_assoc in EC. apply app_inv_head in EC.
  assert (content (rd_reader r) = frame data (take (Z.to_nat (h_Size h)) (body_bytes st.2) ++ rest)) as EC'.
  { rewrite EC. unfold frame. rewrite !app_assoc, take_app_ge by (rewrite !length_app; cbn; lia).
    do 2 f_equal. f_equal. rewrite !length_app. cbn. lia. }
  rewrite <-(default_version_size h) in Hs.
  destruct (next_frame_ok _ _ _ _ r HV Hs HT Er Ec EC') as (s1 & EN & EC1 & HE1). rewrite default_version_size in EN.
  destruct (payload_complete room (mkReader s1 (rd_maxBody r) (Z.to_N (h_Size h)) None)) as (r2 & ER & E1 & E2 & E3 & E4);
    cbn [rd_reader rd_current rd_err rd_maxBody] in *; [done|rewrite EC1, length_app, length_take; lia|by intros x Hx; apply HE, HE1|].
  assert (N.to_nat (Z.to_N (h_Size h)) = length (take (Z.to_nat (h_Size h)) (body_bytes st.2))) as EL by (rewrite length_take; lia).
  rewrite EC1, EL, take_app_length in ER. rewrite EC1, EL, drop_app_length in E4. eexists _, r2. split_and!; try done; lia.
Qed.

(** A frame that could not be written in full is not taken for one: a reader
    of exactly the bytes that were written gets an error instead of the header,
    or an error instead of the end of the body. *)
Theorem partial_frame_refused {S T : Type} `{SourceLaws S} `{SourceLaws T} h e (st st' : out S) (r : Reader T) room :
  WriteFrame h st = (Err e, st') → 0 ≤ h_Size h ≤ rd_maxBody r →
  rd_err r = None → rd_current r = 0%N → (∀ x, ends (rd_reader r) x → x = EOF) →
  snk_out st.1 ++ content (rd_reader r) = snk_out st'.1 →
  (∃ r1, Next r = (Err EOF, r1) ∨ Next r = (Err ErrUnexpectedEOF, r1)) ∨
  (∃ r1 bs r2, Next r = (Ok (received (default_version h)), r1) ∧ ReadAll room r1 = (bs, Some ErrUnexpectedEOF, r2)).
Proof.
  intros HW Hs Er Ec HE EC. apply WriteFrame_spec in HW as [(e' & _ & Ho)|(data & j & HV & HT & Ho & Hj & Hj' & Hr & _)]; [| |lia].
  - rewrite Ho, <-(app_nil_r (snk_out st.1)), <-app_assoc in EC. apply app_inv_head in EC. left.
    destruct (next_frame_short [0] [] r 0) as [r1 E]; [done|cbn; lia|done|done|done|done|]. exists r1. by left.
  - rewrite Ho in EC. apply app_inv_head in EC. pose proof (header_text_length _ _ HT) as HL.
    pose proof HT as (_ & _ & Hmax). assert (j ≠ 8 + length data + Z.to_nat (h_Size h))%nat by (intros E; by apply Hr in E).
    destruct (decide (j < 8 + length data)%nat) as [Hlt|Hge].
    { left. destruct (next_frame_short data (body_bytes st.2) r j) as [r1 E]; [lia|done..|]. exists r1.
      destruct (_ || _); [by left|by right]. }
    right. assert (content (rd_reader r) = frame data (take (j - 8 - length data) (body_bytes st.2))) as EC'.
    { rewrite EC. unfold frame. rewrite !app_assoc, take_app_ge by (rewrite !length_app; cbn; lia).
      do 2 f_equal. rewrite !length_app. cbn. lia. }
    rewrite <-(default_version_size h) in Hs.
    destruct (next_frame_ok _ _ _ _ r HV Hs HT Er Ec EC') as (s1 & EN & EC1 & HE1). rewrite default_version_size in EN.
    destruct (payload_truncated room (mkReader s1 (rd_maxBody r) (Z.to_N (h_Size h)) None)) as (bs & r2 & ER);
      cbn [rd_reader rd_current rd_err rd_maxBody] in *; [done|rewrite EC1, length_take; lia|by intros x Hx; apply HE, HE1|].
    by eexists _, bs, r2.
Qed.

(** ** Examples *)

(** A file of three bytes in two chunks, with metadata that is not compact. *)
Definition quote (bs : list Z) : list Z := (λ b, if b =? 39 then 34 else b) <$> bs.
Definition ex_file : Header := mkHeader 0 File 3 (quote (to_bytes "{ 'path' : '<a>' }")).
Definition ex_body : chunked := Chunked [[1; 2]; [3; 4]] EOF false.
Definition ex_out (room : option nat) : out chunked := (Sink [] room None, Some ex_body).
Definition ex_sent (room : option nat) : list Z := snk_out (WriteFrame ex_file (ex_out room)).2.1.
Definition ex_stream (room : option nat) (rest : list Z) : Reader chunked :=
  NewReader (Chunked [take 5 (ex_sent room); []; drop 5 (ex_sent room); rest] EOF true) 10.

Lemma frame_reads_back_witness : ∃ r1 r2,
  Next (ex_stream None [9]) = (Ok (mkHeader 1 File 3 (quote (to_bytes "{'path':'\u003ca\u003e'}"))), r1) ∧
  ReadAll (λ _, 0%nat) r1 = ([1; 2; 3], None, r2) ∧ content (rd_reader r2) = [9].
Proof.
  destruct (frame_reads_back ex_file (ex_out None) (WriteFrame ex_file (ex_out None)).2 (ex_stream None [9]) [9] (λ _, 0%nat))
    as (r1 & r2 & E1 & E2 & _ & _ & _ & _ & E3); [vm_compute; reflexivity|done|done|done|by intros x ->|vm_compute; reflexivity|].
  exists r1, r2. split_and!; [|exact E2|exact E3]. rewrite E1. vm_compute. reflexivity.
Defined.

Lemma partial_frame_refused_witness :
  (∃ r1, Next (ex_stream (Some 77%nat) []) = (Err EOF, r1) ∨ Next (ex_stream (Some 77%nat) []) = (Err ErrUnexpectedEOF, r1)) ∨
  (∃ r1 bs r2, Next (ex_stream (Some 77%nat) []) = (Ok (received (default_version ex_file)), r1) ∧
    ReadAll (λ _, 0%nat) r1 = (bs, Some ErrUnexpectedEOF, r2)).
Proof.
  apply (partial_frame_refused ex_file ErrShortWrite (ex_out (Some 77%nat)) (WriteFrame ex_file (ex_out (Some 77%nat))).2);
    [vm_compute; reflexivity|done|done|done|by intros x ->|vm_compute; reflexivity].
Defined.
