(* ===== verification/GoTime.v ===== *)
(** * Go times and durations

    A [time.Time] is a number of nanoseconds since the Unix epoch and a
    [time.Duration] a number of nanoseconds.  The timestamps stored in claims
    and labels are strings, so this file holds the formatting and parsing of
    RFC 3339 times that [time.Format] and [time.Parse] perform. *)

From Stdlib Require Import ZArith Lia.
From stdpp Require Import gmap strings prelude.
From S2P Require Import Prelude GoText.
Local Open Scope Z_scope.

Definition Second : Z := 1000000000.
Definition Minute : Z := 60 * Second.
Definition Hour : Z := 60 * Minute.

(** [t.Unix()] *)
Definition Unix (t : Z) : Z := t / Second.

(** Inside a [time.Time] the seconds are an int64 counted from the year 1, so
    [time.Unix(seconds, 0)] and the int64 that [t.Unix()] returns wrap around at
    the ends of the range, and [t.Add(d)] stops there. *)
Definition unixToInternal : Z := 62135596800.

Definition UnixTime (seconds : Z) : Z :=
  (wrap64 (seconds + unixToInternal) - unixToInternal) * Second.

Definition UnixSeconds (t : Z) : Z := wrap64 (Unix t).

Definition time_add (t d : Z) : Z :=
  let ext := Unix (t + d) + unixToInternal in
  if (min_int64 <=? ext) && (ext <=? max_int64) then t + d
  else ((if ext >? max_int64 then max_int64 else - max_int64) - unixToInternal) * Second +
       (t + d) mod Second.

(** [d.Round(time.Second)]: half away from zero, saturating at the ends of the
    int64 range. *)
Definition RoundSecond (d : Z) : Z :=
  let r := Z.rem d Second in
  if d <? 0 then
    let r := - r in
    if r + r <? Second then d + r
    else if min_int64 <=? d - Second + r then d - Second + r else min_int64
  else
    if r + r <? Second then d - r
    else if d + Second - r <=? max_int64 then d + Second - r else max_int64.

(** The times within 146 thousand million years of the epoch: nothing wraps
    around there. *)
Definition clock_time (t : Z) : Prop := - 2 ^ 62 ≤ Unix t ≤ 2 ^ 62.

Lemma wrap64_id x : min_int64 ≤ x ≤ max_int64 → wrap64 x = x.
Proof.
  unfold wrap64, min_int64, max_int64. intros H.
  rewrite Z.mod_small; [lia|]. change (2 ^ 64) with (2 ^ 63 * 2). lia.
Qed.

Lemma UnixSeconds_clock t : clock_time t → UnixSeconds t = Unix t.
Proof.
  intros H. apply wrap64_id. unfold clock_time, min_int64, max_int64 in *.
  change (2 ^ 63) with (2 * 2 ^ 62). lia.
Qed.

Lemma UnixTime_clock s : - 2 ^ 62 ≤ s ≤ 2 ^ 62 → UnixTime s = s * Second.
Proof.
  intros H. unfold UnixTime. rewrite wrap64_id; [f_equal; lia|].
  unfold min_int64, max_int64, unixToInternal. change (2 ^ 63) with (2 * 2 ^ 62).
  change (2 ^ 62) with 4611686018427387904 in *. lia.
Qed.

Lemma time_add_clock t d : clock_time t → 0 ≤ d ≤ max_int64 → time_add t d = t + d.
Proof.
  unfold clock_time, time_add, Unix, min_int64, max_int64, unixToInternal, Second.
  change (2 ^ 62) with 4611686018427387904. change (2 ^ 63) with 9223372036854775808.
  intros Ht Hd. cbv zeta.
  match goal with |- context [if ?b then _ else _] => replace b with true; [done|] end.
  symmetry. rewrite andb_true_iff, !Z.leb_le. Z.div_mod_to_equations; lia.
Qed.

Lemma clock_time_add t d :
  - 2 ^ 62 ≤ Unix t ≤ 2 ^ 61 → 0 ≤ d ≤ max_int64 → clock_time (t + d).
Proof.
  unfold clock_time, Unix, max_int64, Second. change (2 ^ 62) with 4611686018427387904.
  change (2 ^ 61) with 2305843009213693952. change (2 ^ 63) with 9223372036854775808.
  intros. Z.div_mod_to_equations; lia.
Qed.

(** ** Civil dates (proleptic Gregorian calendar) *)

Definition civil_of_days (days : Z) : Z * Z * Z :=
  let z := days + 719468 in
  let era := z / 146097 in
  let doe := z - era * 146097 in
  let yoe := (doe - doe / 1460 + doe / 36524 - doe / 146096) / 365 in
  let doy := doe - (365 * yoe + yoe / 4 - yoe / 100) in
  let mp := (5 * doy + 2) / 153 in
  let d := doy - (153 * mp + 2) / 5 + 1 in
  let m := if mp <? 10 then mp + 3 else mp - 9 in
  let y := yoe + era * 400 in
  ((if m <=? 2 then y + 1 else y), m, d).

Definition days_of_civil (y m d : Z) : Z :=
  let y := if m <=? 2 then y - 1 else y in
  let era := y / 400 in
  let yoe := y - era * 400 in
  let doy := (153 * (if m >? 2 then m - 3 else m + 9) + 2) / 5 + d - 1 in
  let doe := yoe * 365 + yoe / 4 - yoe / 100 + doy in
  era * 146097 + doe - 719468.

Definition is_leap (y : Z) : bool :=
  (y mod 4 =? 0) && (negb (y mod 100 =? 0) || (y mod 400 =? 0)).

Definition days_in (y m : Z) : Z :=
  if m =? 2 then (if is_leap y then 29 else 28)
  else if (m =? 4) || (m =? 6) || (m =? 9) || (m =? 11) then 30 else 31.

(** ** Formatting in UTC *)

Definition pad (width : nat) (n : Z) : list Z :=
  let ds := format_uint 10 n in replicate (width - length ds) 48 ++ ds.

Definition clock_bytes (t : Z) : list Z :=
  let secs := Unix t in
  let '(y, m, d) := civil_of_days (secs / 86400) in
  let sod := secs mod 86400 in
  pad 4 y ++ 45 :: pad 2 m ++ 45 :: pad 2 d ++ 84 ::
  pad 2 (sod / 3600) ++ 58 :: pad 2 ((sod / 60) mod 60) ++ 58 :: pad 2 (sod mod 60).

Definition fraction_bytes (t : Z) : list Z :=
  let ns := t mod Second in
  if ns =? 0 then []
  else 46 :: reverse (drop_while (λ b, b =? 48) (reverse (pad 9 ns))).

(** [t.UTC().Format(time.RFC3339)] and [time.RFC3339Nano] *)
Definition FormatRFC3339 (t : Z) : string := of_bytes (clock_bytes t ++ [90]).
Definition FormatRFC3339Nano (t : Z) : string :=
  of_bytes (clock_bytes t ++ fraction_bytes t ++ [90]).

(** The text of a zone [off] seconds east of UTC, a whole number of minutes. *)
Definition zone_bytes (off : Z) : list Z :=
  if off =? 0 then [90]
  else (if off <? 0 then 45 else 43) :: pad 2 (Z.abs off / 3600) ++ 58 :: pad 2 ((Z.abs off / 60) mod 60).

(** [t.Format(time.RFC3339Nano)] in that zone *)
Definition FormatRFC3339NanoIn (off : Z) (t : Z) : string :=
  let t := t + off * Second in of_bytes (clock_bytes t ++ fraction_bytes t ++ zone_bytes off).

(** ** Parsing

    [time.Parse] with either layout accepts the same inputs: a four-digit year,
    two-digit month and day, an hour of one or two digits, two-digit minute
    and second, an optional fraction introduced by a period or comma, and a
    zone that is [Z] or a numeric offset. *)

Definition two_digits (bs : list Z) : option (Z * list Z) :=
  match bs with
  | a :: b :: rest =>
      if is_digit a && is_digit b then Some (10 * (a - 48) + (b - 48), rest) else None
  | _ => None
  end.

Definition hour_digits (bs : list Z) : option (Z * list Z) :=
  match bs with
  | a :: rest =>
      if is_digit a then
        match rest with
        | b :: rest' => if is_digit b then Some (10 * (a - 48) + (b - 48), rest')
                        else Some (a - 48, rest)
        | [] => Some (a - 48, [])
        end
      else None
  | [] => None
  end.

Definition expect (c : Z) (bs : list Z) : option (list Z) :=
  match bs with b :: rest => if b =? c then Some rest else None | [] => None end.

Fixpoint span_digits (bs : list Z) : list Z * list Z :=
  match bs with
  | b :: rest => if is_digit b then let '(ds, r) := span_digits rest in (b :: ds, r)
                 else ([], bs)
  | [] => ([], [])
  end.

(** The first nine digits of the fraction, in nanoseconds. *)
Definition nanos_of_digits (ds : list Z) : option Z :=
  let ds := take 9 ds in
  n ← digits_value 0 ds; Some (n * 10 ^ Z.of_nat (9 - length ds)).

Definition parse_fraction (bs : list Z) : option (Z * list Z) :=
  match bs with
  | sep :: (b :: _) as rest =>
      if ((sep =? 46) || (sep =? 44)) && is_digit b then
        let '(ds, rest') := span_digits (drop 1 bs) in
        n ← nanos_of_digits ds; Some (n, rest')
      else Some (0, bs)
  | _ => Some (0, bs)
  end.

(** The offset of the zone east of UTC, in seconds. *)
Definition parse_zone (bs : list Z) : option Z :=
  match bs with
  | [90] => Some 0
  | sign :: rest =>
      if (sign =? 43) || (sign =? 45) then
        '(h, r1) ← two_digits rest; r2 ← expect 58 r1; '(m, r3) ← two_digits r2;
        match r3 with
        | [] => if (h <=? 24) && (m <=? 60)
                then Some ((if sign =? 45 then -1 else 1) * (h * 3600 + m * 60)) else None
        | _ => None
        end
      else None
  | [] => None
  end.

Definition ParseRFC3339 (s : string) : option Z :=
  let bs := to_bytes s in
  '(y1, r) ← two_digits bs; '(y2, r) ← two_digits r;
  r ← expect 45 r; '(mo, r) ← two_digits r;
  r ← expect 45 r; '(d, r) ← two_digits r;
  r ← expect 84 r; '(h, r) ← hour_digits r;
  r ← expect 58 r; '(mi, r) ← two_digits r;
  r ← expect 58 r; '(sec, r) ← two_digits r;
  '(ns, r) ← parse_fraction r;
  off ← parse_zone r;
  let y := 100 * y1 + y2 in
  if (1 <=? mo) && (mo <=? 12) && (1 <=? d) && (d <=? days_in y mo) &&
     (h <? 24) && (mi <? 60) && (sec <? 60)
  then Some ((days_of_civil y mo d * 86400 + h * 3600 + mi * 60 + sec - off) * Second + ns)
  else None.

Example format_example :
  FormatRFC3339Nano 1700000000123000000 = "2023-11-14T22:13:20.123Z"%string.
Proof. vm_compute. reflexivity. Qed.
Example parse_example :
  ParseRFC3339 "2023-11-14T23:13:20.123+01:00" = Some 1700000000123000000.
Proof. vm_compute. reflexivity. Qed.
Example parse_bad_day : ParseRFC3339 "2023-02-29T00:00:00Z" = None.
Proof. vm_compute. reflexivity. Qed.

(** ** Round trip *)

Lemma year_of_era_bounds doe yoe :
  0 ≤ doe ≤ 146096 →
  yoe = (doe - doe / 1460 + doe / 36524 - doe / 146096) / 365 →
  0 ≤ yoe ≤ 399 ∧
  0 ≤ doe - (365 * yoe + yoe / 4 - yoe / 100) ≤ 365 ∧
  (doe - (365 * yoe + yoe / 4 - yoe / 100) = 365 →
   (yoe + 1) mod 4 = 0 ∧ ((yoe + 1) mod 100 ≠ 0 ∨ (yoe + 1) mod 400 = 0)).
Proof. intros H ->. split_and!; Z.div_mod_to_equations; lia. Qed.

(** The day of the month, counted from March, is one the month has. *)
Lemma civil_day_bounds era yoe doy mp :
  0 ≤ yoe ≤ 399 → 0 ≤ doy ≤ 365 →
  (doy = 365 → (yoe + 1) mod 4 = 0 ∧ ((yoe + 1) mod 100 ≠ 0 ∨ (yoe + 1) mod 400 = 0)) →
  mp = (5 * doy + 2) / 153 →
  1 ≤ doy - (153 * mp + 2) / 5 + 1 ≤
    days_in (if negb (mp <? 10) then yoe + era * 400 + 1 else yoe + era * 400)
            (if mp <? 10 then mp + 3 else mp - 9).
Proof.
  intros Hy Hd Hl Hmpd.
  assert (0 ≤ mp ≤ 11) as Hmp by (subst mp; Z.div_mod_to_equations; lia).
  assert (mp ∈ [0;1;2;3;4;5;6;7;8;9;10;11]) as Hin.
  { rewrite !elem_of_cons. lia. }
  rewrite !elem_of_cons, elem_of_nil in Hin.
  destruct (decide (mp = 11)) as [->|Hne].
  + change (11 <? 10) with false. cbn [negb]. change (11 - 9) with 2. unfold days_in.
    change (2 =? 2) with true. cbv iota.
    unfold is_leap.
    destruct (decide (doy = 365)) as [->|Hlt].
    * destruct (Hl eq_refl) as [H4 H100].
      replace ((yoe + era * 400 + 1) mod 4 =? 0) with true by (symmetry; apply Z.eqb_eq; Z.div_mod_to_equations; lia).
      destruct H100 as [H100|H400].
      -- replace ((yoe + era * 400 + 1) mod 100 =? 0) with false by (symmetry; apply Z.eqb_neq; Z.div_mod_to_equations; lia).
         cbn [negb orb andb]. Z.div_mod_to_equations; lia.
      -- replace ((yoe + era * 400 + 1) mod 400 =? 0) with true by (symmetry; apply Z.eqb_eq; Z.div_mod_to_equations; lia).
         rewrite orb_true_r. cbn [andb]. Z.div_mod_to_equations; lia.
    * case_match; Z.div_mod_to_equations; lia.
  + unfold days_in.
    decompose [or] Hin; try done;
      match goal with E : mp = _ |- _ => rewrite E in * end; 
      repeat match goal with |- context [?a =? ?b] =>
        let v := eval vm_compute in (a =? b) in change (a =? b) with v end;
      cbn; Z.div_mod_to_equations; lia.
Qed.

Lemma civil_of_days_spec days y m d :
  civil_of_days days = (y, m, d) →
  days_of_civil y m d = days ∧ 1 ≤ m ≤ 12 ∧ 1 ≤ d ≤ days_in y m.
Proof.
  unfold civil_of_days. cbv zeta.
  set (z := days + 719468). set (era := z / 146097). set (doe := z - era * 146097).
  set (yoe := (doe - doe / 1460 + doe / 36524 - doe / 146096) / 365).
  destruct (year_of_era_bounds doe yoe) as (Hy & Hd & Hl); [subst doe era; Z.div_mod_to_equations; lia|done|].
  set (doy := doe - (365 * yoe + yoe / 4 - yoe / 100)) in *.
  set (mp := (5 * doy + 2) / 153).
  assert (0 ≤ mp ≤ 11) as Hmp by (subst mp; Z.div_mod_to_equations; lia).
  intros [= <- <- <-].
  assert (Hm : (if mp <? 10 then mp + 3 else mp - 9) <=? 2 = negb (mp <? 10)) by (destruct (mp <? 10) eqn:E; cbn; lia).
  rewrite Hm. split.
  - unfold days_of_civil. cbv zeta. rewrite Hm.
    destruct (mp <? 10) eqn:E; cbn [negb].
    + replace (mp + 3 >? 2) with true by lia.
      replace ((yoe + era * 400) / 400) with era by (Z.div_mod_to_equations; lia).
      replace (yoe + era * 400 - era * 400) with yoe by lia.
      replace (mp + 3 - 3) with mp by lia. subst doy doe z. lia.
    + replace (mp - 9 >? 2) with false by lia.
      replace ((yoe + era * 400 + 1 - 1) / 400) with era by (Z.div_mod_to_equations; lia).
      replace (yoe + era * 400 + 1 - 1 - era * 400) with yoe by lia.
      replace (mp - 9 + 9) with mp by lia. subst doy doe z. lia.
  - split; [destruct (mp <? 10) eqn:E; lia|].
    by apply civil_day_bounds.
Qed.


Definition all_digits (bs : list Z) : Prop := Forall (λ b, is_digit b = true) bs.

Lemma digits_value_zeros k bs : digits_value 0 (replicate k 48 ++ bs) = digits_value 0 bs.
Proof. induction k; cbn; done. Qed.

(** A padded number has exactly [w] digits and keeps its value. *)
Lemma pad_spec w n :
  0 ≤ n < 10 ^ Z.of_nat (S w) → (w < 64)%nat →
  length (pad (S w) n) = S w ∧ all_digits (pad (S w) n) ∧ digits_value 0 (pad (S w) n) = Some n.
Proof.
  intros Hn Hw. unfold pad.
  assert (length (format_uint 10 n) ≤ S w)%nat as Hl.
  { unfold format_uint. rewrite length_fmap, length_reverse. apply digits_rev_length; lia. }
  split_and!.
  - rewrite length_app, length_replicate. lia.
  - apply Forall_app; split; [by apply Forall_replicate|apply format_uint_digits; lia].
  - rewrite digits_value_zeros. apply format_uint_value. lia.
Qed.

Lemma two_digits_pad n rest : 0 ≤ n ≤ 99 → two_digits (pad 2 n ++ rest) = Some (n, rest).
Proof.
  intros H. destruct (pad_spec 1 n) as (Hl & Hd & Hv); [cbn; lia|lia|].
  destruct (pad 2 n) as [|a [|b [|]]]; try done.
  apply Forall_cons in Hd as [Ha Hd]. apply Forall_cons in Hd as [Hb _].
  cbn [digits_value] in Hv. rewrite Ha, Hb in Hv. injection Hv as Hv.
  cbn [app two_digits]. rewrite Ha, Hb. cbn [andb]. do 2 f_equal. lia.
Qed.

Lemma hour_digits_pad n rest : 0 ≤ n ≤ 99 → hour_digits (pad 2 n ++ rest) = Some (n, rest).
Proof.
  intros H. pose proof (two_digits_pad n rest H) as E.
  destruct (pad 2 n ++ rest) as [|a [|b r]]; cbn in *; try done.
  destruct (is_digit a); [|done]. by destruct (is_digit b).
Qed.

Lemma year_digits_pad n rest :
  0 ≤ n ≤ 9999 →
  ∃ y1 y2 r, two_digits (pad 4 n ++ rest) = Some (y1, r) ∧ two_digits r = Some (y2, rest) ∧
             100 * y1 + y2 = n.
Proof.
  intros H. destruct (pad_spec 3 n) as (Hl & Hd & Hv); [cbn; lia|lia|].
  destruct (pad 4 n) as [|a [|b [|c [|d [|]]]]]; try done.
  do 4 (apply Forall_cons in Hd as [? Hd]).
  cbn [digits_value] in Hv.
  repeat match goal with E : is_digit _ = true |- _ => rewrite E in Hv end. injection Hv as Hv.
  exists (10 * (a - 48) + (b - 48)), (10 * (c - 48) + (d - 48)), (c :: d :: rest).
  cbn [app two_digits].
  repeat match goal with E : is_digit _ = true |- _ => rewrite E; clear E end.
  split_and!; [done|done|lia].
Qed.

Lemma drop_while_zeros (ds : list Z) :
  ∃ k, reverse ds = replicate k 48 ++ drop_while (λ b, b =? 48) (reverse ds).
Proof.
  generalize (reverse ds). intros l. induction l as [|x l [k IH]]; [by exists 0%nat|].
  cbn. destruct (Z.eqb_spec x 48) as [->|]; [exists (S k); cbn; by rewrite IH at 1|by exists 0%nat].
Qed.

Lemma digits_value_trailing k acc bs v :
  digits_value acc bs = Some v →
  digits_value acc (bs ++ replicate k 48) = Some (v * 10 ^ Z.of_nat k).
Proof.
  intros H. rewrite digits_value_app, H. cbn [mbind option_bind]. clear H. revert v.
  induction k as [|k IH]; intros v; cbn [replicate digits_value].
  { change (10 ^ Z.of_nat 0) with 1. f_equal. lia. }
  change (is_digit 48) with true. cbv iota. rewrite IH. f_equal.
  rewrite Nat2Z.inj_succ, Z.pow_succ_r by lia. lia.
Qed.

Lemma digits_value_total acc bs : all_digits bs → ∃ v, digits_value acc bs = Some v.
Proof.
  intros H. revert acc. induction H as [|b bs Hb _ IH]; intros acc; cbn; [by eexists|].
  by rewrite Hb.
Qed.

Lemma span_digits_app ds rest :
  all_digits ds → (∀ b, head rest = Some b → is_digit b = false) →
  span_digits (ds ++ rest) = (ds, rest).
Proof.
  intros H Hr. induction H as [|b ds Hb _ IH]; cbn.
  - destruct rest as [|b r]; [done|]. cbn. by rewrite (Hr b).
  - by rewrite Hb, IH.
Qed.

(** The text of a zone, after the fraction. *)
Definition zone_text (z : list Z) (off : Z) : Prop :=
  parse_zone z = Some off ∧ Forall ascii_byte z ∧ ∀ b, head z = Some b → is_digit b = false ∧ b ≠ 46 ∧ b ≠ 44.

Lemma parse_fraction_bytes t z off : zone_text z off →
  parse_fraction (fraction_bytes t ++ z) = Some (t mod Second, z).
Proof.
  intros (_ & _ & Hz). unfold fraction_bytes. pose proof (Z.mod_pos_bound t Second ltac:(done)) as Hns.
  set (ns := t mod Second) in *. destruct (Z.eqb_spec ns 0) as [->|Hne].
  { cbn [app]. unfold parse_fraction. destruct z as [|b [|c z]]; [done|done|].
    destruct (Hz b eq_refl) as (_ & ? & ?). by replace ((b =? 46) || (b =? 44)) with false by lia. }
  destruct (pad_spec 8 ns) as (Hl & Hd & Hv); [unfold Second in Hns; cbn; lia|lia|].
  destruct (drop_while_zeros (pad 9 ns)) as [k Hk].
  set (tr := drop_while _ _) in *.
  assert (pad 9 ns = reverse tr ++ replicate k 48) as Hp.
  { rewrite <-(reverse_involutive (pad 9 ns)), Hk, reverse_app, reverse_replicate. done. }
  rewrite Hp in Hl, Hd, Hv. apply Forall_app in Hd as [Hd _].
  destruct (digits_value_total 0 (reverse tr) Hd) as [v Ev].
  rewrite (digits_value_trailing k 0 _ v Ev) in Hv. injection Hv as Hv.
  rewrite length_app, length_replicate in Hl.
  destruct (reverse tr) as [|b ds] eqn:E.
  { cbn in Ev. injection Ev as <-. lia. }
  unfold parse_fraction. cbn [app].
  assert (is_digit b = true) as -> by by apply Forall_cons in Hd as [? _].
  change ((46 =? 46) || (46 =? 44)) with true. cbn [andb drop].
  change (b :: ds ++ z) with ((b :: ds) ++ z).
  rewrite span_digits_app; [|done|by intros x Hx; apply Hz].
  unfold nanos_of_digits. rewrite take_ge by lia. rewrite Ev. cbn [mbind option_bind].
  replace (9 - length (b :: ds))%nat with k by lia. by rewrite Hv.
Qed.

Lemma clock_ascii t : 0 ≤ (civil_of_days (Unix t / 86400)).1.1 → Forall ascii_byte (clock_bytes t).
Proof.
  unfold clock_bytes. destruct (civil_of_days _) as [[y m] d] eqn:E. cbn [fst]. intros Hy.
  apply civil_of_days_spec in E as (_ & Hm & Hd).
  assert (∀ w n, 0 ≤ n → Forall ascii_byte (pad w n)) as Hp.
  { intros w n Hn. apply digit_ascii. apply Forall_app; split; [by apply Forall_replicate|].
    by apply format_uint_digits. }
  assert (0 ≤ Unix t mod 86400) by (apply Z.mod_pos_bound; lia).
  assert (∀ n, 0 ≤ n → 0 ≤ n / 3600 ∧ 0 ≤ (n / 60) mod 60 ∧ 0 ≤ n mod 60) as Hn.
  { intros n Hn. Z.div_mod_to_equations; lia. }
  destruct (Hn (Unix t mod 86400)) as (? & ? & ?); [done|].
  repeat first [apply Hp; lia | apply Forall_app; split | apply Forall_cons; split | constructor | unfold ascii_byte; lia].
Qed.

(** Formatting then parsing gives the time back, for years 0 to 9999. *)
Lemma ParseRFC3339_zone t z off :
  0 ≤ (civil_of_days (Unix t / 86400)).1.1 ≤ 9999 → zone_text z off →
  ParseRFC3339 (of_bytes (clock_bytes t ++ fraction_bytes t ++ z)) = Some (t - off * Second).
Proof.
  intros Hy Hzt. unfold ParseRFC3339. rewrite to_of_bytes.
  2: { apply ascii_is_byte, Forall_app. split; [apply clock_ascii, Hy|].
       apply Forall_app. split; [|by apply Hzt]. unfold fraction_bytes.
       case_match; [constructor|]. apply Forall_cons. split; [unfold ascii_byte; lia|].
       apply Forall_reverse, Forall_drop_while, Forall_reverse, digit_ascii.
       apply (pad_spec 8); [|lia]. pose proof (Z.mod_pos_bound t Second ltac:(done)).
       unfold Second in *. cbn. lia. }
  unfold clock_bytes. destruct (civil_of_days _) as [[y m] d] eqn:E. cbn [fst] in Hy.
  apply civil_of_days_spec in E as (Ed & Hm & Hd).
  set (sod := Unix t mod 86400).
  assert (0 ≤ sod < 86400) as Hs by (apply Z.mod_pos_bound; lia).
  assert (0 ≤ d ≤ 99) by (unfold days_in in Hd; repeat case_match; lia).
  rewrite <-!app_assoc. cbn [app].
  destruct (year_digits_pad y) with (rest := 45 :: pad 2 m ++ 45 :: pad 2 d ++ 84 ::
    pad 2 (sod / 3600) ++ 58 :: pad 2 ((sod / 60) mod 60) ++ 58 :: pad 2 (sod mod 60) ++
    fraction_bytes t ++ z) as (y1 & y2 & r & E1 & E2 & Ey); [lia|].
  repeat (rewrite <-app_assoc; cbn [app]).
  rewrite E1. cbn [mbind option_bind]. rewrite E2. cbn [mbind option_bind expect].
  change (45 =? 45) with true. cbn [mbind option_bind].
  rewrite two_digits_pad by lia. cbn [mbind option_bind expect].
  change (45 =? 45) with true. cbn [mbind option_bind].
  rewrite two_digits_pad by lia. cbn [mbind option_bind expect].
  change (84 =? 84) with true. cbn [mbind option_bind].
  rewrite hour_digits_pad by (Z.div_mod_to_equations; lia). cbn [mbind option_bind expect].
  change (58 =? 58) with true. cbn [mbind option_bind].
  rewrite two_digits_pad by (Z.div_mod_to_equations; lia). cbn [mbind option_bind expect].
  change (58 =? 58) with true. cbn [mbind option_bind].
  rewrite two_digits_pad by (Z.div_mod_to_equations; lia). cbn [mbind option_bind].
  rewrite (parse_fraction_bytes t z off Hzt). cbn [mbind option_bind]. rewrite (proj1 Hzt). cbn [mbind option_bind]. rewrite Ey, Ed.
  match goal with |- (if ?b then _ else _) = _ => assert (b = true) as -> end.
  { rewrite !andb_true_iff. split_and!; try lia; Z.div_mod_to_equations; lia. }
  f_equal. subst sod. unfold Unix. unfold Second. Z.div_mod_to_equations. lia.
Qed.

Lemma zone_text_utc : zone_text [90] 0.
Proof. split_and!; [done|by repeat constructor|by intros b [= <-]]. Qed.

Lemma zone_text_bytes off : off mod 60 = 0 → - 86400 < off < 86400 → zone_text (zone_bytes off) off.
Proof.
  intros Hm Hr. unfold zone_bytes. destruct (Z.eqb_spec off 0) as [->|Hne]; [apply zone_text_utc|].
  assert (0 ≤ Z.abs off / 3600 ≤ 23 ∧ 0 ≤ (Z.abs off / 60) mod 60 ≤ 59 ∧
    Z.abs off / 3600 * 3600 + (Z.abs off / 60) mod 60 * 60 = Z.abs off) as (H1 & H2 & H3).
  { assert (Z.abs off mod 60 = 0) by (destruct (Z.abs_spec off) as [[_ ->]|[_ ->]]; Z.div_mod_to_equations; lia).
    Z.div_mod_to_equations; lia. }
  set (h := Z.abs off / 3600) in *. set (mi := (Z.abs off / 60) mod 60) in *. clearbody h mi.
  set (sign := if off <? 0 then 45 else 43).
  assert (sign = 45 ∧ off < 0 ∨ sign = 43 ∧ 0 < off) as Hsign by (subst sign; destruct (Z.ltb_spec off 0); lia).
  assert (∀ n, 0 ≤ n → Forall ascii_byte (pad 2 n)) as Hp.
  { intros n Hn. apply digit_ascii. apply Forall_app; split; [by apply Forall_replicate|]. by apply format_uint_digits. }
  split_and!.
  - unfold parse_zone. destruct Hsign as [[-> ?]|[-> ?]]; cbn [Z.eqb Pos.eqb orb];
      rewrite two_digits_pad by lia; cbn [mbind option_bind expect Z.eqb Pos.eqb];
      rewrite <-(app_nil_r (pad 2 mi)), two_digits_pad by lia; cbn [mbind option_bind];
      replace (h <=? 24) with true by lia; replace (mi <=? 60) with true by lia; cbn [andb]; f_equal; lia.
  - apply Forall_cons. split; [unfold ascii_byte; lia|]. apply Forall_app. split; [apply Hp; lia|].
    apply Forall_cons. split; [unfold ascii_byte; lia|apply Hp; lia].
  - intros b [= <-]. unfold is_digit. lia.
Qed.

Lemma ParseRFC3339_FormatRFC3339Nano t :
  0 ≤ (civil_of_days (Unix t / 86400)).1.1 ≤ 9999 →
  ParseRFC3339 (FormatRFC3339Nano t) = Some t.
Proof.
  intros Hy. unfold FormatRFC3339Nano. rewrite (ParseRFC3339_zone t [90] 0 Hy zone_text_utc). f_equal. lia.
Qed.

(** A time in a zone, whose year there has four digits. *)
Lemma ParseRFC3339_in_zone off t : off mod 60 = 0 → - 86400 < off < 86400 →
  0 ≤ (civil_of_days (Unix (t + off * Second) / 86400)).1.1 ≤ 9999 →
  ParseRFC3339 (FormatRFC3339NanoIn off t) = Some t.
Proof.
  intros Hm Hr Hy. unfold FormatRFC3339NanoIn.
  rewrite (ParseRFC3339_zone _ _ off Hy (zone_text_bytes off Hm Hr)). f_equal. lia.
Qed.

(** The times whose year has four digits, from 1970 on. *)
Definition four_digit_year (t : Z) : Prop := 0 ≤ t < 253402300800 * Second.

Lemma civil_year_bounds days y m d :
  0 ≤ days ≤ 2932896 → civil_of_days days = (y, m, d) → 0 ≤ y ≤ 9999.
Proof.
  intros Hdays. unfold civil_of_days. cbv zeta.
  set (z := days + 719468). set (era := z / 146097). set (doe := z - era * 146097).
  assert (0 ≤ doe ≤ 146096 ∧ 0 ≤ era ≤ 24) as [Hdoe Hera] by (subst doe era; Z.div_mod_to_equations; lia).
  set (yoe := (doe - doe / 1460 + doe / 36524 - doe / 146096) / 365).
  destruct (year_of_era_bounds doe yoe) as (Hy & Hd & _); [done|done|].
  set (doy := doe - (365 * yoe + yoe / 4 - yoe / 100)) in *.
  set (mp := (5 * doy + 2) / 153).
  intros [= <- _ _]. split; [repeat case_match; lia|].
  destruct (decide (era * 400 + yoe < 9999)); [repeat case_match; lia|].
  assert (era = 24 ∧ yoe = 399) as [He Hy'] by lia.
  assert (doy ≤ 305) as Hdoy by (subst doy; rewrite Hy'; subst doe z; rewrite He; change (399 / 4) with 99; change (399 / 100) with 3; lia).
  assert (mp ≤ 9) by (subst mp; Z.div_mod_to_equations; lia).
  replace (mp <? 10) with true by lia. subst mp. clearbody doy yoe doe.
  replace ((5 * doy + 2) / 153 + 3 <=? 2) with false; [lia|]. Z.div_mod_to_equations; lia.
Qed.

Lemma time_round_trip t :
  four_digit_year t → ParseRFC3339 (FormatRFC3339Nano t) = Some t.
Proof.
  intros [H0 H1]. apply ParseRFC3339_FormatRFC3339Nano.
  destruct (civil_of_days _) as [[y m] d] eqn:E. cbn [fst].
  eapply civil_year_bounds; [|exact E]. unfold Unix, Second in *. Z.div_mod_to_equations; lia.
Qed.
