(* ===== verification/RunnerProtocol.v ===== *)
(** * Runner responses ([runner/protocol.go], [runner/client.go])

    The caller reads one response: the helper's identity, the files of the
    operation, its outcome and an end.  A file is handed to a consumer, which can
    read the frame's body and nothing else.  The model is over any [Source]. *)

From Stdlib Require Import ZArith Lia.
From stdpp Require Import gmap strings prelude.
From S2P Require Import Prelude GoText GoJson GoIO GoTime RunnerWire.
Local Open Scope Z_scope.

(** ** Metadata *)

(** The types metadata is decoded into: what [exactMetadataKeys] looks at. *)
Inductive schema :=
  | SUnmarshaler
  | SSlice (elem : schema)
  | SStruct (fields : list (string * schema))
  | SOther.

Definition schema_field (name : list Z) (fs : list (string * schema)) : option schema :=
  p ← list_find (λ f : string * schema, to_bytes f.1 = name) fs; Some p.2.2.

(** [exactMetadataKeys], on the value of the text. *)
Fixpoint exactMetadataKeys (v : json) (s : schema) : bool :=
  match s, v with
  | SSlice e, Arr l => forallb (λ v, exactMetadataKeys v e) l
  | SSlice _, Null => true
  | SSlice _, _ => false
  | SStruct fs, Obj l =>
      forallb (λ kv, match schema_field (decode kv.1) fs with
                     | Some s => exactMetadataKeys kv.2 s
                     | None => false
                     end) l
  | SStruct _, _ => false
  | _, _ => true
  end.

(** A type with its schema and its decoding. *)
Class Metadata (A : Type) := { schema_of : schema; unmarshal : json → res A }.
Arguments schema_of A {_}.

(** [decodeObject] *)
Definition decodeObject (A : Type) `{Metadata A} (data : list Z) : res A :=
  v ← of_option (Msg "unexpected end of JSON input") (parse data);
  reject_if (negb (exactMetadataKeys v (schema_of A))) (Msg "unknown runner metadata field %q");;
  unmarshal v.

(** The member of an object with a decoded key. *)
Definition member_of (name : string) (v : json) : option json :=
  match v with
  | Obj l => p ← list_find (λ kv : list schar * json, decode kv.1 = to_bytes name) l; Some p.2.2
  | _ => None
  end.

Definition unmarshal_bool (v : option json) : res bool :=
  match v with
  | None | Some Null => Ok false
  | Some (Bool b) => Ok b
  | _ => Err ErrType
  end.

(** The zero [time.Time], and [Time.UnmarshalJSON]: the text between the quotes
    as it is. *)
Definition zero_time : Z := - 62135596800 * Second.
Definition plain_text (s : list schar) : option (list Z) :=
  foldr (λ c acc, acc ← acc; match c with Plain b => Some (b :: acc) | _ => None end) (Some []) s.
Definition unmarshal_time (v : option json) : res Z :=
  match v with
  | None | Some Null => Ok zero_time
  | Some (Str s) => of_option (Msg "parsing time") (bs ← plain_text s; ParseRFC3339 (of_bytes bs))
  | _ => Err ErrType
  end.

Fixpoint unmarshal_all {A} (f : json → res A) (l : list json) : res (list A) :=
  match l with
  | [] => Ok []
  | v :: l => x ← f v; xs ← unmarshal_all f l; Ok (x :: xs)
  end.
(** A slice; [None] is the nil slice. *)
Definition unmarshal_slice {A} (f : json → res A) (v : option json) : res (option (list A)) :=
  match v with
  | None | Some Null => Ok None
  | Some (Arr l) => xs ← unmarshal_all f l; Ok (Some xs)
  | _ => Err ErrType
  end.

Record Identity := mkIdentity { id_BuildID : string; id_OS : string; id_Arch : string; id_Protocol : Z }.
#[export] Instance Identity_eq : EqDecision Identity.
Proof. solve_decision. Defined.
Definition unmarshal_identity (v : json) : res Identity :=
  build ← unmarshal_string (member_of "buildId" v);
  os ← unmarshal_string (member_of "os" v);
  arch ← unmarshal_string (member_of "arch" v);
  protocol ← unmarshal_int (member_of "protocol" v);
  mret (mkIdentity build os arch protocol).
#[export] Instance Identity_metadata : Metadata Identity := {
  schema_of := SStruct [("buildId", SOther); ("os", SOther); ("arch", SOther); ("protocol", SOther)]%string;
  unmarshal := unmarshal_identity }.

Record ArchiveSource := mkArchiveSource { as_Base : string; as_ContentsOnly : bool }.
#[export] Instance ArchiveSource_eq : EqDecision ArchiveSource.
Proof. solve_decision. Defined.
Definition source_schema : schema := SStruct [("base", SOther); ("contentsOnly", SOther)]%string.
Definition unmarshal_source (v : option json) : res ArchiveSource :=
  match v with
  | Some v =>
      base ← unmarshal_string (member_of "base" v);
      only ← unmarshal_bool (member_of "contentsOnly" v);
      mret (mkArchiveSource base only)
  | None => Ok (mkArchiveSource "" false)
  end.

Record FileInfo := mkFileInfo { fi_Path : string; fi_ModTime : Z; fi_Archive : bool; fi_Source : ArchiveSource }.
Definition unmarshal_file (v : json) : res FileInfo :=
  path ← unmarshal_string (member_of "path" v);
  time ← unmarshal_time (member_of "modTime" v);
  archive ← unmarshal_bool (member_of "archive" v);
  source ← unmarshal_source (member_of "source" v);
  mret (mkFileInfo path time archive source).
#[export] Instance FileInfo_metadata : Metadata FileInfo := {
  schema_of := SStruct [("path", SOther); ("modTime", SUnmarshaler); ("archive", SOther); ("source", source_schema)]%string;
  unmarshal := unmarshal_file }.

Record Warning := mkWarning { wa_Path : string; wa_Message : string }.
Definition unmarshal_warning (v : json) : res Warning :=
  path ← unmarshal_string (member_of "path" v);
  message ← unmarshal_string (member_of "message" v);
  mret (mkWarning path message).

Record Outcome := mkOutcome { o_RetainedPath : string; o_Warnings : option (list Warning); o_Published : bool }.
Definition unmarshal_outcome (v : json) : res Outcome :=
  retained ← unmarshal_string (member_of "retainedPath" v);
  warnings ← unmarshal_slice unmarshal_warning (member_of "warnings" v);
  published ← unmarshal_bool (member_of "published" v);
  mret (mkOutcome retained warnings published).
#[export] Instance Outcome_metadata : Metadata Outcome := {
  schema_of := SStruct [("retainedPath", SOther);
    ("warnings", SSlice (SStruct [("path", SOther); ("message", SOther)])); ("published", SOther)]%string;
  unmarshal := unmarshal_outcome }.

Record RemoteError := mkRemoteError { re_Target : string; re_Code : string; re_Message : string }.
Definition unmarshal_remote (v : json) : res RemoteError :=
  target ← unmarshal_string (member_of "target" v);
  code ← unmarshal_string (member_of "code" v);
  message ← unmarshal_string (member_of "message" v);
  mret (mkRemoteError target code message).
#[export] Instance RemoteError_metadata : Metadata RemoteError := {
  schema_of := SStruct [("target", SOther); ("code", SOther); ("message", SOther)]%string;
  unmarshal := unmarshal_remote }.
(** A [RemoteError] as an error value. *)
Definition remote_error (e : RemoteError) : error := Wrap (re_Code e) (Wrap (re_Target e) (Msg (re_Message e))).

(** ** Reading a response *)

Definition RecoverArchive : string := "recover-archive".
Definition Collect : string := "collect".
Definition Upload : string := "upload".
Definition Download : string := "download".

Definition ExplicitMaxFiles : Z := 4096.
Definition ExplicitMaxFileBytes : Z := 64 * 2 ^ 20.
Definition ExplicitMaxTotalBytes : Z := 256 * 2 ^ 20.
Definition AutoMaxFiles : Z := 50.
Definition AutoMaxTotalBytes : Z := 64 * 2 ^ 20.
(** [DefaultArchiveLimits().MaxCompressedBytes] *)
Definition DefaultMaxCompressedBytes : Z := 256 * 2 ^ 30.

Definition wrap_u64 (x : Z) : Z := x mod 2 ^ 64.

(** What [ReadResponse] counts. *)
Record Progress := mkProgress { p_count : Z; p_total : Z; p_seen : gset string }.

(** The checks of a file frame, in order. *)
Definition accept_file (operation : string) (st : Progress) (info : FileInfo) (size : Z) : res Progress :=
  let count := p_count st + 1 in
  reject_if (bool_decide (operation = Upload)) (Msg "upload returned an unexpected file");;
  if bool_decide (operation = Download) then
    reject_if (negb (count =? 1) || negb (fi_Archive info)) (Msg "download returned an invalid archive frame");;
    mret (mkProgress count (p_total st) (p_seen st))
  else
    reject_if (negb (bool_decide (operation = Collect)) || fi_Archive info || bool_decide (fi_Path info = ""%string) ||
               bool_decide (fi_Path info ∈ p_seen st) || (ExplicitMaxFiles + AutoMaxFiles <? count))
      (Msg "invalid runner result file");;
    reject_if (wrap_u64 (ExplicitMaxTotalBytes + AutoMaxTotalBytes - p_total st) <? size)
      (Msg "runner results exceed aggregate limit");;
    mret (mkProgress count (wrap_u64 (p_total st + size)) ({[fi_Path info]} ∪ p_seen st)).

(** The checks of an outcome. *)
Definition accept_outcome (operation : string) (count : Z) (outcome : Outcome) : res () :=
  reject_if (bool_decide (operation = Download) && negb (count =? 1)) (Msg "runner download omitted its archive");;
  reject_if (negb (Bool.eqb (negb (bool_decide (o_RetainedPath outcome = ""%string))) (bool_decide (operation = RecoverArchive))))
    (Msg "invalid runner recovery outcome");;
  reject_if (negb (Bool.eqb (o_Published outcome) (bool_decide (operation = Upload))))
    (Msg "invalid runner publication outcome").

Definition accept_error (remote : RemoteError) : res () :=
  reject_if (bool_decide (re_Code remote = ""%string) || bool_decide (re_Message remote = ""%string)) (Msg "invalid runner error");;
  reject_if (negb (Bool.eqb (bool_decide (re_Code remote = "recovery-required"%string))
                            (negb (bool_decide (re_Target remote = ""%string)))))
    (Msg "invalid runner recovery destination").

Section Response.
Context {S : Type} `{Source S}.

(** [readEnd] *)
Definition readEnd : M (Reader S) () :=
  h ← Next;
  ensure (bool_decide (h_Kind h = End) && bool_decide (h_Meta h = [])) (Msg "missing runner end frame");;
  r ← attempt Next;
  match r with
  | Err e => if bool_decide (e = EOF) then mret () else fail (Wrap "runner stream termination: %w" e)
  | Ok _ => fail (Msg "runner stream has trailing data")
  end.

(** The consumer's state, and the frames. *)
Context {W : Type}.
Definition RM : Type → Type := M (W * Reader S).
Definition on_frames {A} (m : M (Reader S) A) : RM A := λ st,
  let '(a, r) := m st.2 in (a, (st.1, r)).

Variables (ctx : nat → option error) (operation : string) (consume : option (FileInfo → RM ())).

(** The loop of [ReadResponse] from its [i]-th turn. *)
Fixpoint response_loop (fuel i : nat) (st : Progress) : RM Outcome :=
  match fuel with
  | O => fail out_of_fuel
  | Datatypes.S fuel =>
      match ctx i with Some e => fail e | None => mret () end;;
      h ← on_frames Next;
      if bool_decide (h_Kind h = File) then
        info ← lift (decodeObject FileInfo (h_Meta h));
        st ← lift (accept_file operation st info (h_Size h));
        match consume with
        | None => fail (Msg "runner file has no consumer")
        | Some f => f info
        end;;
        response_loop fuel (Datatypes.S i) st
      else if bool_decide (h_Kind h = Result) then
        outcome ← lift (decodeObject Outcome (h_Meta h));
        lift (accept_outcome operation (p_count st) outcome);;
        on_frames readEnd;;
        mret outcome
      else if bool_decide (h_Kind h = Error) then
        remote ← lift (decodeObject RemoteError (h_Meta h));
        lift (accept_error remote);;
        e ← attempt (on_frames readEnd);
        match e with
        | Err e => fail (Join (remote_error remote) e)
        | Ok _ => fail (remote_error remote)
        end
      else fail (Msg "unexpected runner response frame")
  end.

Definition max_body : Z :=
  if bool_decide (operation = Download) then DefaultMaxCompressedBytes else ExplicitMaxFileBytes.

(** A turn of the loop takes a frame, of at least eight bytes. *)
Definition read_response (expected : Identity) : RM Outcome :=
  h ← on_frames Next;
  ensure (bool_decide (h_Kind h = Hello)) (Msg "runner response has no identity");;
  actual ← lift (decodeObject Identity (h_Meta h));
  ensure (negb (bool_decide (id_BuildID expected = ""%string)) && bool_decide (actual = expected) &&
          (id_Protocol actual =? Version)) (Msg "runner response identity mismatch");;
  fuel ← gets (λ st, Datatypes.S (length (content (rd_reader st.2))));
  response_loop fuel 0 (mkProgress 0 0 ∅).

Definition ReadResponse (input : S) (expected : Identity) (w : W) : res Outcome * (W * Reader S) :=
  read_response expected (w, NewReader input max_body).
End Response.

(** ** What an accepted response is *)

(** The frames of files, with what they announce and their bodies. *)
Definition file_frame (maxBody : Z) (f : FileInfo * list Z) (bs : list Z) : Prop :=
  ∃ h hd, framed maxBody h hd ∧ h_Kind h = File ∧ decodeObject FileInfo (h_Meta h) = Ok f.1 ∧
    h_Size h = zlen f.2 ∧ bs = hd ++ f.2.

Inductive file_frames (maxBody : Z) : list (FileInfo * list Z) → list Z → Prop :=
  | frames_nil : file_frames maxBody [] []
  | frames_cons f fs b bs :
      file_frame maxBody f b → file_frames maxBody fs bs → file_frames maxBody (f :: fs) (b ++ bs).

(** The end of a response: its outcome, an end frame, and nothing more. *)
Definition end_frame (maxBody : Z) (bs : list Z) : Prop :=
  ∃ h, framed maxBody h bs ∧ h_Kind h = End ∧ h_Meta h = [] ∧ h_Size h = 0.
Definition outcome_frame (maxBody : Z) (o : Outcome) (bs : list Z) : Prop :=
  ∃ h, framed maxBody h bs ∧ h_Kind h = Result ∧ decodeObject Outcome (h_Meta h) = Ok o ∧ h_Size h = 0.
Definition hello_frame (maxBody : Z) (i : Identity) (bs : list Z) : Prop :=
  ∃ h, framed maxBody h bs ∧ h_Kind h = Hello ∧ decodeObject Identity (h_Meta h) = Ok i ∧ h_Size h = 0.
(** Nothing, or the prefix of a frame that has no header. *)
Definition stream_end (bs : list Z) : Prop := bs = [] ∨ lone_prefix bs.

(** The files of an operation. *)
Definition files_ok (operation : string) (files : list (FileInfo * list Z)) : Prop :=
  if bool_decide (operation = Download) then
    ∃ f, files = [f] ∧ fi_Archive f.1 = true
  else if bool_decide (operation = Collect) then
    Forall (λ f, fi_Archive f.1 = false ∧ fi_Path f.1 ≠ ""%string) files ∧
    NoDup ((λ f, fi_Path f.1) <$> files) ∧
    zlen files ≤ ExplicitMaxFiles + AutoMaxFiles ∧
    zlen (concat (files.*2)) ≤ ExplicitMaxTotalBytes + AutoMaxTotalBytes
  else files = [].
Definition outcome_ok (operation : string) (o : Outcome) : Prop :=
  (o_RetainedPath o ≠ ""%string ↔ operation = RecoverArchive) ∧ (o_Published o = true ↔ operation = Upload).

Lemma framed_size maxBody h bs : framed maxBody h bs → h_Kind h ≠ Request → h_Kind h ≠ File → h_Size h = 0.
Proof.
  intros (size & data & _ & _ & _ & _ & _ & HV) H1 H2.
  apply validateHeader_ok in HV as (_ & _ & _ & _ & [?|[?|?]] & _); done.
Qed.

Lemma digits_value_nonneg bs : ∀ acc v, 0 ≤ acc → digits_value acc bs = Some v → 0 ≤ v.
Proof.
  induction bs as [|b bs IH]; intros acc v Ha; cbn [digits_value]; [by intros [= <-]|].
  destruct (is_digit b) eqn:Eb; [|done]. apply IH. unfold is_digit in Eb. lia.
Qed.

Lemma unmarshal_uint_nonneg v n : unmarshal_uint v = Ok n → 0 ≤ n.
Proof.
  destruct v as [[]|]; cbn; try (by intros [= <-]); try done.
  unfold of_option, parse_uint. destruct (print_number _) as [|b bs']; [done|].
  destruct (digits_value 0 (b :: bs')) as [v|] eqn:E; cbn [mbind option_bind]; [|done].
  destruct (v <? 2 ^ 64); [|done]. intros [= <-]. by eapply digits_value_nonneg.
Qed.

Lemma framed_nonneg maxBody h bs : framed maxBody h bs → 0 ≤ h_Size h.
Proof.
  intros (size & data & _ & _ & _ & _ & HD & _). unfold decodeHeader in HD. res_steps. subst h. cbn [h_Size].
  by eapply unmarshal_uint_nonneg.
Qed.

(** Lifting through the consumer's state. *)
Lemma on_frames_ok {S W A} `{Source S} (m : M (Reader S) A) (st st' : W * Reader S) a :
  on_frames m st = (Ok a, st') ↔ m st.2 = (Ok a, st'.2) ∧ st'.1 = st.1.
Proof.
  unfold on_frames. destruct (m st.2) as [b r]. destruct st'. cbn. split; [by intros [= -> <- <-]|by intros [[= -> ->] ->]].
Qed.

Section Sound.
Context {S : Type} `{SourceLaws S} {W : Type}.

(** What a consumer can do to the frames: reads of the payload. *)
Inductive payload_reads : Reader S → Reader S → Prop :=
  | reads_none r : payload_reads r r
  | reads_one r k bs e r1 r2 : read_payload k r = (bs, e, r1) → payload_reads r1 r2 → payload_reads r r2.

Lemma payload_reads_spec r r' : payload_reads r r' →
  rd_maxBody r' = rd_maxBody r ∧ ∃ bs, content (rd_reader r) = bs ++ content (rd_reader r') ∧
    (N.to_nat (rd_current r') + length bs)%nat = N.to_nat (rd_current r).
Proof.
  induction 1 as [r|r k bs e r1 r2 E _ (IM & bs' & IC & IL)].
  { split; [done|]. exists []. cbn. split; [done|lia]. }
  apply read_payload_cases in E as [(y & _ & -> & _ & ->)|[(_ & _ & -> & _ & ->)|(_ & _ & e0 & s & E & _ & ->)]];
    [by split; [done|exists bs']..|]. cbn [rd_reader rd_current rd_maxBody] in *. split; [done|]. exists (bs ++ bs').
  pose proof (read_length _ _ _ _ _ E). rewrite (read_content _ _ _ _ _ E), IC, <-app_assoc, length_app. split; [done|lia].
Qed.

Lemma payload_reads_ends r r' : payload_reads r r' → ∀ x, ends (rd_reader r') x → ends (rd_reader r) x.
Proof.
  induction 1 as [r|r k bs e r1 r2 E _ IH]; intros x Hx; [done|]. apply IH in Hx.
  apply read_payload_cases in E as [(y & _ & -> & _ & ->)|[(_ & _ & -> & _ & ->)|(_ & _ & e0 & s & E & _ & ->)]]; [done|done|].
  by eapply read_ends.
Qed.

Lemma readEnd_sound (r r' : Reader S) : readEnd r = (Ok (), r') →
  ∃ eb tail, content (rd_reader r) = eb ++ tail ∧ end_frame (rd_maxBody r) eb ∧ stream_end tail ∧
    rd_err r = None ∧ rd_current r = 0%N.
Proof.
  unfold readEnd. rewrite M_bind_ok. intros (h & r1 & E1 & HN).
  apply next_inv in E1 as (Er & Ec & ER & _ & eb & EC & HF).
  apply M_bind_ok in HN as ([] & r2 & HE & HN). unfold ensure in HE.
  destruct (bool_decide (h_Kind h = End)) eqn:HK; [|done]. destruct (bool_decide (h_Meta h = [])) eqn:HM; [|done].
  injection HE as <-. guards. assert (h_Size h = 0) as HS by (eapply framed_size; [done|by rewrite HK..]).
  apply M_bind_ok in HN as (a & r2 & HA & HN). unfold attempt in HA. destruct (Next r1) as [a' r3] eqn:E2. injection HA as -> ->.
  destruct a as [h2|e]; [done|]. case_bool_decide as He; [|done]. subst e.
  exists eb, (content (rd_reader r1)). split_and!; [done|by exists h| |done|done].
  eapply next_eof; [exact E2|by rewrite ER|by rewrite ER; cbn; rewrite HS].
Qed.

Variables (ctx : nat → option error) (operation : string) (f : FileInfo → @RM S W ()).
Hypothesis consume_reads : ∀ info w r w' r', f info (w, r) = (Ok (), (w', r')) → payload_reads r r'.

(** The consumer took these files, one after the other, each to its end. *)
Inductive consumed : W → list (FileInfo * list Z) → W → Prop :=
  | consumed_none w : consumed w [] w
  | consumed_one w info body fs (r : Reader S) w1 r1 w' :
      f info (w, r) = (Ok (), (w1, r1)) →
      content r = body → rd_err r = None → rd_current r = N.of_nat (length body) →
      rd_err r1 = None → rd_current r1 = 0%N →
      consumed w1 fs w' → consumed w ((info, body) :: fs) w'.

Fixpoint accept_files (st : Progress) (files : list (FileInfo * list Z)) : res Progress :=
  match files with
  | [] => Ok st
  | (info, body) :: fs => st ← accept_file operation st info (zlen body); accept_files st fs
  end.

Definition accepted_rest (maxBody : Z) (st : Progress) (w w' : W) (o : Outcome) (bs : list Z) : Prop :=
  ∃ files st' fb ob eb tail, bs = fb ++ ob ++ eb ++ tail ∧ file_frames maxBody files fb ∧
    outcome_frame maxBody o ob ∧ end_frame maxBody eb ∧ stream_end tail ∧ consumed w files w' ∧
    accept_files st files = Ok st' ∧ accept_outcome operation (p_count st') o = Ok ().

Lemma response_loop_sound fuel : ∀ i st w r o w' r',
  response_loop ctx operation (Some f) fuel i st (w, r) = (Ok o, (w', r')) →
  rd_err r = None ∧ rd_current r = 0%N ∧
  accepted_rest (rd_maxBody r) st w w' o (content (rd_reader r)).
Proof.
  induction fuel as [|fuel IH]; intros i st w r o w' r'; cbn [response_loop]; [done|].
  rewrite M_bind_ok. intros ([] & s1 & E & HN). destruct (ctx i); [done|]. injection E as <-.
  apply M_bind_ok in HN as (h & [w1 r1] & [E1 Ew]%on_frames_ok & HN). cbn [fst snd] in *. subst w1.
  apply next_inv in E1 as (Er & Ec & ER & _ & hd & EC & HF). split_and!; [done|done|]. rewrite EC.
  case_bool_decide as HK.
  - apply M_bind_ok in HN as (info & s2 & HD & HN). injection HD as HD <-.
    apply M_bind_ok in HN as (st1 & s2 & HA & HN). injection HA as HA <-.
    apply M_bind_ok in HN as ([] & [w2 r2] & HC & HN).
    destruct (IH _ _ _ _ _ _ _ HN) as (Er2 & Ec2 & files & st' & fb & ob & eb & tail & ES & HFF & HO & HE & HT & HCo & HAf & HAo).
    destruct (payload_reads_spec _ _ (consume_reads _ _ _ _ _ HC)) as (EM & body & EB & EL).
    rewrite ER in EM, EB, EL. cbn [rd_maxBody rd_reader rd_current] in *. rewrite Ec2 in EL. cbn in EL.
    pose proof (framed_nonneg _ _ _ HF). assert (h_Size h = zlen body) as HS by (unfold zlen; lia).
    exists ((info, body) :: files), st', ((hd ++ body) ++ fb), ob, eb, tail. rewrite EM in *.
    split_and!; [by rewrite EB, ES, !app_assoc|constructor; [by exists h, hd|done]|done|done|done| |cbn; by rewrite <-HS, HA|done].
    econstructor; [exact HC|..|done|done|done]; rewrite ER; cbn; [|done|rewrite HS; unfold zlen; lia].
    rewrite EB, HS. unfold zlen. rewrite take_app_le by lia. rewrite firstn_all2 by lia. done.
  - case_bool_decide as HK2; [|case_bool_decide].
    + apply M_bind_ok in HN as (o' & s2 & HD & HN). injection HD as HD <-.
      apply M_bind_ok in HN as ([] & s2 & HA & HN). injection HA as HA <-.
      apply M_bind_ok in HN as ([] & s2 & [HE Ew]%on_frames_ok & HN). injection HN as -> ->. cbn [fst snd] in *. subst w'.
      apply readEnd_sound in HE as (eb & tail & EE & HEF & HT & _ & _). rewrite ER in HEF, EE. cbn [rd_maxBody rd_reader] in *.
      exists [], st, [], hd, eb, tail. rewrite EE. split_and!; [done|constructor| |done|done|constructor|done|done].
      exists h. split_and!; [done|done|done|]. eapply framed_size; [done|by rewrite HK2..].
    + apply M_bind_ok in HN as (re & s2 & HD & HN). injection HD as HD <-.
      apply M_bind_ok in HN as ([] & s2 & HA & HN). apply M_bind_ok in HN as (e & s3 & HE & HN). by destruct e.
    + done.
Qed.
End Sound.

(** ** The limits add up *)

Definition total_limit : Z := ExplicitMaxTotalBytes + AutoMaxTotalBytes.

Lemma accept_file_count operation st st' info size :
  accept_file operation st info size = Ok st' → p_count st' = p_count st + 1 ∧ (operation = Download ∨ operation = Collect).
Proof.
  unfold accept_file. intros H. res_steps. case_bool_decide as HD; res_steps; subst st'; cbn; guards.
  - split; [done|by left].
  - split; [done|by right].
Qed.

Lemma accept_file_collect st st' info (body : list Z) : 0 ≤ p_total st ≤ total_limit →
  accept_file Collect st info (zlen body) = Ok st' →
  fi_Archive info = false ∧ fi_Path info ≠ ""%string ∧ fi_Path info ∉ p_seen st ∧
  p_seen st' = {[fi_Path info]} ∪ p_seen st ∧ p_count st' = p_count st + 1 ∧ p_count st' ≤ ExplicitMaxFiles + AutoMaxFiles ∧
  p_total st' = p_total st + zlen body ∧ 0 ≤ p_total st' ≤ total_limit.
Proof.
  intros HL. unfold accept_file. intros H. res_steps.
  rewrite bool_decide_eq_false_2 in H by done. res_steps. subst st'. cbn [p_count p_total p_seen].
  guards. pose proof (zlen_nonneg body). unfold wrap_u64, total_limit, ExplicitMaxTotalBytes, AutoMaxTotalBytes in *.
  match goal with H : (_ mod _ <? _) = false |- _ => rewrite Z.mod_small in H by lia end.
  rewrite Z.mod_small by lia. split_and!; try done; lia.
Qed.

Lemma accept_files_collect files : ∀ st st', 0 ≤ p_total st ≤ total_limit →
  accept_files Collect st files = Ok st' →
  Forall (λ f : FileInfo * list Z, fi_Archive f.1 = false ∧ fi_Path f.1 ≠ ""%string) files ∧
  NoDup ((λ f : FileInfo * list Z, fi_Path f.1) <$> files) ∧
  Forall (λ f : FileInfo * list Z, fi_Path f.1 ∉ p_seen st) files ∧
  (p_count st ≤ ExplicitMaxFiles + AutoMaxFiles → p_count st + zlen files ≤ ExplicitMaxFiles + AutoMaxFiles) ∧
  p_total st + zlen (concat (files.*2)) ≤ total_limit.
Proof.
  induction files as [|[info body] files IH]; intros st st' HL H; cbn [accept_files] in H.
  { split_and!; [by apply Forall_nil_2|by apply NoDup_nil_2|by apply Forall_nil_2|unfold zlen; cbn [length]; lia|]. unfold zlen; cbn [concat fmap list_fmap length]. lia. }
  apply res_bind_ok in H as (st1 & HA & H). apply accept_file_collect in HA as (H1 & H2 & H3 & H4 & H5 & H6 & H7 & H8); [|done].
  destruct (IH st1 st' H8 H) as (I1 & I2 & I3 & I4 & I5). cbn [fmap list_fmap fst snd concat].
  unfold zlen in *. rewrite length_app. cbn [length]. split_and!.
  - by constructor.
  - constructor; [|done]. intros Hin. apply list_elem_of_fmap in Hin as (g & Eg & Hg). rewrite Forall_forall in I3.
    apply (I3 g Hg). rewrite <-Eg, H4. set_solver.
  - constructor; [done|]. eapply Forall_impl; [exact I3|]. intros g Hg. rewrite H4 in Hg. set_solver.
  - intros _. specialize (I4 H6). lia.
  - lia.
Qed.

Lemma accept_files_count operation files : ∀ st st', accept_files operation st files = Ok st' →
  p_count st' = p_count st + zlen files ∧ (files ≠ [] → operation = Download ∨ operation = Collect).
Proof.
  induction files as [|[info body] files IH]; intros st st' H; cbn [accept_files] in H; [injection H as <-; unfold zlen; cbn [length]; split; [lia|done]|].
  apply res_bind_ok in H as (st1 & HA & H). apply accept_file_count in HA as [H1 H2]. destruct (IH _ _ H) as [I1 _].
  unfold zlen in *. cbn [length]. split; [lia|done].
Qed.

Lemma accepted_files operation files st' o :
  accept_files operation (mkProgress 0 0 ∅) files = Ok st' → accept_outcome operation (p_count st') o = Ok () →
  files_ok operation files ∧ outcome_ok operation o.
Proof.
  intros HF HO. destruct (accept_files_count _ _ _ _ HF) as [EC Hop]. cbn [p_count] in EC.
  unfold accept_outcome in HO. res_steps. split.
  - unfold files_ok. destruct (bool_decide (operation = Download)) eqn:HD;
      [|destruct (bool_decide (operation = Collect)) eqn:HC]; cbn [andb] in *; guards.
    + assert (zlen files = 1) as HL by lia.
      destruct files as [|[info body] [|]]; [done| |unfold zlen in HL; cbn in HL; lia].
      eexists. split; [done|]. cbn [accept_files fst] in *. apply res_bind_ok in HF as (st1 & HA & _).
      unfold accept_file in HA. res_steps. rewrite bool_decide_eq_true_2 in HA by done. res_steps. by guards.
    + subst operation. destruct (accept_files_collect files (mkProgress 0 0 ∅) st') as (H1 & H2 & _ & H4 & H5); [done|done|].
      cbn [p_count p_total] in *. split_and!; [done|done| |unfold total_limit in H5; lia]. apply H4. done.
    + destruct files; [done|]. by destruct Hop.
  - unfold outcome_ok. guards. split.
    + destruct (decide (o_RetainedPath o = ""%string)) as [E|E]; destruct (decide (operation = RecoverArchive)); try tauto;
        repeat case_bool_decide; done.
    + destruct (o_Published o); case_bool_decide; done.
Qed.

Lemma accept_files_intro files : ∀ st, 0 ≤ p_total st →
  Forall (λ f : FileInfo * list Z, fi_Archive f.1 = false ∧ fi_Path f.1 ≠ ""%string) files →
  NoDup ((λ f : FileInfo * list Z, fi_Path f.1) <$> files) →
  Forall (λ f : FileInfo * list Z, fi_Path f.1 ∉ p_seen st) files →
  p_count st + zlen files ≤ ExplicitMaxFiles + AutoMaxFiles →
  p_total st + zlen (concat (files.*2)) ≤ total_limit →
  ∃ st', accept_files Collect st files = Ok st'.
Proof.
  induction files as [|[info body] files IH]; intros st Ht HF HN HS HC HT; [by eexists|].
  apply Forall_cons in HF as [[Ha Hp] HF]. apply Forall_cons in HS as [Hs HS]. apply NoDup_cons in HN as [Hn HN].
  cbn [fmap list_fmap fst snd concat] in *. unfold zlen in HC, HT. rewrite length_app in HT. cbn [length] in HC.
  cbn [accept_files]. set (st1 := mkProgress (p_count st + 1) (p_total st + zlen body) ({[fi_Path info]} ∪ p_seen st)).
  assert (accept_file Collect st info (zlen body) = Ok st1) as ->.
  { unfold accept_file, wrap_u64. unfold total_limit, zlen in *.
    unfold ExplicitMaxTotalBytes, AutoMaxTotalBytes, ExplicitMaxFiles, AutoMaxFiles in *. rewrite !Z.mod_small by lia.
    rewrite (bool_decide_eq_false_2 (Collect = Upload)), (bool_decide_eq_false_2 (Collect = Download)) by done.
    rewrite (bool_decide_eq_true_2 (Collect = Collect)) by done. rewrite Ha.
    rewrite (bool_decide_eq_false_2 _ Hp), (bool_decide_eq_false_2 _ Hs). cbn [negb orb].
    replace (4096 + 50 <? p_count st + 1) with false by lia.
    by replace (256 * 2 ^ 20 + 64 * 2 ^ 20 - p_total st <? Z.of_nat (length body)) with false by lia. }
  apply IH; subst st1; cbn [p_count p_total p_seen]; unfold zlen; [lia|done|done| |lia|lia].
  rewrite Forall_forall in *. intros g Hg. specialize (HS g Hg). intros Hin. apply elem_of_union in Hin as [E|]; [|done].
  apply elem_of_singleton in E. apply Hn. rewrite <-E. apply list_elem_of_fmap. eauto.
Qed.

Lemma accept_outcome_intro operation count o : outcome_ok operation o → (operation = Download → count = 1) →
  accept_outcome operation count o = Ok ().
Proof.
  intros [H1 H2] Hc. unfold accept_outcome.
  assert (bool_decide (operation = Download) && negb (count =? 1) = false) as ->.
  { case_bool_decide as HD; [|done]. rewrite Hc by done. done. }
  assert (Bool.eqb (negb (bool_decide (o_RetainedPath o = ""%string))) (bool_decide (operation = RecoverArchive)) = true) as ->.
  { apply eqb_true_iff. repeat case_bool_decide; cbn; tauto. }
  assert (Bool.eqb (o_Published o) (bool_decide (operation = Upload)) = true) as ->; [|done].
  apply eqb_true_iff. destruct (o_Published o); case_bool_decide; tauto.
Qed.

(** ** Reading what has the form *)

Section Complete.
Context {S : Type} `{SourceLaws S}.
Implicit Types r : Reader S.

(** A reader between two frames of a stream that ends as files do. *)
Definition at_frame r (bs : list Z) : Prop :=
  rd_err r = None ∧ rd_current r = 0%N ∧ content (rd_reader r) = bs ∧ (∀ x, ends (rd_reader r) x → x = EOF).

Lemma next_at_frame r h hd tail : at_frame r (hd ++ tail) → framed (rd_maxBody r) h hd →
  ∃ s', Next r = (Ok h, mkReader s' (rd_maxBody r) (Z.to_N (h_Size h)) None) ∧ content s' = tail ∧
    (∀ x, ends s' x → x = EOF).
Proof.
  intros (Er & Ec & EC & HE) HF. destruct (next_framed h tail hd r HF Er Ec EC) as (s' & EN & ES & HS).
  exists s'. split_and!; [done|done|]. intros x Hx. by apply HE, HS.
Qed.

Lemma next_at_end r bs : at_frame r bs → stream_end bs → ∃ r', Next r = (Err EOF, r').
Proof.
  intros (Er & Ec & EC & HE) Hb. unfold Next. rewrite Er, Ec. cbn [N.eqb negb].
  enough (∃ s, next_header (rd_maxBody r) (rd_reader r) = (Err EOF, s)) as [s ->] by by eexists.
  unfold next_header, mbind, M_bind, ensure, mret, M_ret.
  destruct (ReadFull 8 (rd_reader r)) as [r1 s1] eqn:E1. apply ReadFull_spec in E1 as [He1 E1].
  rewrite EC in E1. destruct Hb as [->|(L8 & Hm & Hsz)].
  - destruct E1 as [_ (x & Hx & ->)]. apply HE in Hx as ->. by eexists.
  - rewrite L8 in E1. cbn [Nat.leb] in E1. rewrite firstn_all2, drop_ge in E1 by lia. destruct E1 as [-> EC1].
    rewrite bool_decide_eq_true_2 by done. replace (Uint32 (drop 4 bs) =? 0) with false by lia.
    replace (MaxHeaderBytes <? Uint32 (drop 4 bs)) with false by lia. cbn [orb negb].
    destruct (ReadFull _ s1) as [r2 s2] eqn:E2. apply ReadFull_spec in E2 as [_ E2]. rewrite EC1 in E2.
    replace (Z.to_nat (Uint32 (drop 4 bs)) <=? length (@nil Z))%nat with false in E2 by (symmetry; apply Nat.leb_gt; cbn; lia).
    destruct E2 as [_ (x & Hx & ->)]. apply He1, HE in Hx as ->. by eexists.
Qed.

Lemma readEnd_complete r eb tail : at_frame r (eb ++ tail) → end_frame (rd_maxBody r) eb → stream_end tail →
  ∃ r', readEnd r = (Ok (), r').
Proof.
  intros HA (h & HF & HK & HM & HS) HT. destruct (next_at_frame r h eb tail HA HF) as (s' & EN & ES & HE).
  unfold readEnd, mbind, M_bind, ensure, attempt. rewrite EN, HK, HM.
  rewrite !bool_decide_eq_true_2 by done. cbn [andb]. rewrite HS in *.
  destruct (next_at_end (mkReader s' (rd_maxBody r) (Z.to_N 0) None) tail) as [r' E]; [|done|].
  - by split_and!.
  - unfold mret, M_ret. rewrite E. rewrite bool_decide_eq_true_2 by done. by eexists.
Qed.
End Complete.

(** ** The specification of a response *)

(** [bs] is a response to [operation] from [expected], with these files and
    this outcome. *)
Definition response (operation : string) (expected : Identity) (files : list (FileInfo * list Z)) (o : Outcome)
    (bs : list Z) : Prop :=
  let limit := max_body operation in
  ∃ hb fb ob eb tail, bs = hb ++ fb ++ ob ++ eb ++ tail ∧
    hello_frame limit expected hb ∧ file_frames limit files fb ∧ outcome_frame limit o ob ∧ end_frame limit eb ∧
    stream_end tail ∧ files_ok operation files ∧ outcome_ok operation o ∧
    id_BuildID expected ≠ ""%string ∧ id_Protocol expected = Version.

Lemma response_sound {S W : Type} `{SourceLaws S} ctx operation (f : FileInfo → @RM S W ()) (input : S) expected o w w' r' :
  (∀ info w r w' r', f info (w, r) = (Ok (), (w', r')) → payload_reads r r') →
  ReadResponse ctx operation (Some f) input expected w = (Ok o, (w', r')) →
  ∃ files, response operation expected files o (content input) ∧ consumed f w files w'.
Proof.
  intros Hf HR. unfold ReadResponse, read_response in HR.
  apply M_bind_ok in HR as (h & [w1 r1] & [E1 Ew]%on_frames_ok & HN). cbn [fst snd] in *. subst w1.
  apply next_inv in E1 as (_ & _ & ER & _ & hb & EC & HF).
  apply M_bind_ok in HN as ([] & s2 & HE & HN). unfold ensure in HE.
  destruct (bool_decide (h_Kind h = Hello)) eqn:HK; [|done]. injection HE as <-.
  apply M_bind_ok in HN as (actual & s2 & HD & HN). injection HD as HD <-.
  apply M_bind_ok in HN as ([] & s2 & HE & HN). destruct (_ && _) eqn:HI in HE; [|done]. injection HE as <-. guards. subst actual.
  apply M_bind_ok in HN as (fuel & s2 & HG & HN). injection HG as _ <-.
  apply (response_loop_sound _ _ _ Hf) in HN as (_ & _ & files & st' & fb & ob & eb & tail & ES & HFF & HO & HEf & HT & HC & HA & HAo).
  destruct (accepted_files _ _ _ _ HA HAo) as [Hfiles Hout]. rewrite ER in *. cbn [rd_maxBody rd_reader NewReader] in *.
  exists files. split; [|done]. exists hb, fb, ob, eb, tail. rewrite EC, ES.
  split_and!; try done; [|lia]. exists h. split_and!; [done|done|done|]. eapply framed_size; [done|by rewrite HK..].
Qed.

(** C15. A response is accepted only as a whole.  When [ReadResponse] reports
    success, for any consumer that does nothing with the frames but read their
    bodies, the input is: the expected identity, the files, the outcome, an end
    frame, and then nothing (or a lone frame prefix, which the reader takes for
    the end of the stream).  The consumer has been given exactly these files, in
    order, and has read every body to its end.  The files are those the operation
    may return, within its limits, and the outcome is one of that operation. *)
Theorem accepted_response {S W : Type} `{SourceLaws S} ctx operation (f : FileInfo → @RM S W ()) (input : S) expected o w w' r' :
  (∀ info w r w' r', f info (w, r) = (Ok (), (w', r')) → payload_reads r r') →
  ReadResponse ctx operation (Some f) input expected w = (Ok o, (w', r')) →
  ∃ files, response operation expected files o (content input) ∧ consumed f w files w'.
Proof. apply response_sound. Qed.

(** ** Collecting results ([runner/transport.go]) *)

Record ResultFile := mkResultFile { rf_Path : string; rf_ModTime : Z; rf_Data : list Z }.
Definition result_file (f : FileInfo * list Z) : ResultFile := mkResultFile (fi_Path f.1) (fi_ModTime f.1) f.2.

Section Collecting.
Context {S : Type} `{SourceLaws S} (room : nat → nat) (ctx : nat → option error).

(** The consumer of [Collect]: [io.ReadAll], and the file is appended. *)
Definition collect_file (info : FileInfo) : @RM S (list ResultFile) () := λ st,
  let '(data, e, r) := ReadAll room st.2 in
  match e with
  | Some x => (Err x, (st.1, r))
  | None => (Ok (), (st.1 ++ [result_file (info, data)], r))
  end.

(** [Client.Collect] with the response [input]; [exchange_err] is what the
    request, the transport and the context report besides the response. *)
Definition ClientCollect (paths : list string) (expected : Identity) (exchange_err : option error) (input : S)
    : res (list ResultFile * option (list Warning)) :=
  reject_if (ExplicitMaxFiles <? zlen paths) (Msg "explicit result path limit is %d");;
  match ReadResponse ctx Collect (Some collect_file) input expected [] with
  | (Ok o, (files, _)) =>
      match exchange_err with None => Ok (files, o_Warnings o) | Some e => Err e end
  | (Err e, _) => Err (match exchange_err with None => e | Some e' => Join e e' end)
  end.

Lemma collect_file_reads info w (r : Reader S) w' r' : collect_file info (w, r) = (Ok (), (w', r')) → payload_reads r r'.
Proof.
  unfold collect_file, ReadAll. cbn [fst snd].
  enough (∀ fuel got r0 out e r1, payload_reads r r0 → read_all fuel room got r0 = (out, e, r1) → payload_reads r r1) as HP.
  { destruct (read_all _ _ _ _) as [[data e] r1] eqn:E. destruct e; [done|]. intros [= <- <-]. eapply HP; [constructor|exact E]. }
  intros fuel got r0 out e r1 H1 H2. pattern out, r1. eapply read_all_keeps; [|exact H1|exact H2]. cbn beta.
  intros _ k s bs e1 s' Hs E. clear H1 H2. induction Hs as [s|s k1 b1 e2 s1 s2 E1 _ IH]; econstructor; try done; [exact E|constructor|by apply IH].
Qed.

Lemma consumed_collect w files w' : consumed collect_file w files w' → w' = w ++ (result_file <$> files).
Proof.
  induction 1 as [w|w info body fs r w1 r1 w' E EC Er Ec Er1 Ec1 _ IH]; [by rewrite app_nil_r|].
  unfold collect_file in E. cbn [fst snd] in E. destruct (ReadAll room r) as [[data e] r2] eqn:EA. destruct e; [done|].
  injection E as <- <-. apply ReadAll_spec in EA as (-> & _). rewrite EC in IH.
  rewrite IH, <-app_assoc. done.
Qed.

Hypothesis no_cancel : ∀ i, ctx i = None.

Lemma collect_one info h hd body tail (r : Reader S) w : at_frame r ((hd ++ body) ++ tail) →
  framed (rd_maxBody r) h hd → h_Size h = zlen body →
  ∃ r1 r2, Next r = (Ok h, r1) ∧ collect_file info (w, r1) = (Ok (), (w ++ [result_file (info, body)], r2)) ∧
    at_frame r2 tail ∧ rd_maxBody r2 = rd_maxBody r.
Proof.
  intros HA HF HS. rewrite <-app_assoc in HA. destruct (next_at_frame _ _ _ _ HA HF) as (s1 & EN & EC & HE).
  assert (N.to_nat (Z.to_N (h_Size h)) = length body) as EL by (rewrite HS; unfold zlen; lia).
  destruct (payload_complete room (mkReader s1 (rd_maxBody r) (Z.to_N (h_Size h)) None)) as (r2 & ER & E1 & E2 & E3 & E4);
    cbn [rd_err rd_current rd_reader rd_maxBody] in *; [done|rewrite EC, length_app; lia|done|].
  rewrite EC, EL, take_app_length in ER. rewrite EC, EL, drop_app_length in E4.
  eexists _, r2. split; [exact EN|]. unfold collect_file. cbn [fst snd]. rewrite ER. split_and!; [done| |done].
  split_and!; [done|done|done|]. intros x Hx. apply HE.
  assert (payload_reads (mkReader s1 (rd_maxBody r) (Z.to_N (h_Size h)) None) r2) as HR.
  { apply (collect_file_reads info w _ (w ++ [result_file (info, body)])). unfold collect_file. cbn [snd]. by rewrite ER. }
  by apply (payload_reads_ends _ _ HR).
Qed.

Lemma response_loop_complete limit o ob eb tail : outcome_frame limit o ob → end_frame limit eb → stream_end tail →
  ∀ files fb st st' (r : Reader S) fuel i w, file_frames limit files fb →
  at_frame r (fb ++ ob ++ eb ++ tail) → rd_maxBody r = limit → (length files < fuel)%nat →
  accept_files Collect st files = Ok st' → accept_outcome Collect (p_count st') o = Ok () →
  ∃ r', response_loop ctx Collect (Some collect_file) fuel i st (w, r) = (Ok o, (w ++ (result_file <$> files), r')).
Proof.
  intros (oh & HOF & HOK & HOD & HOS) HE HT. intros files fb st st' r fuel i w HFF. revert st r fuel i w.
  induction HFF as [|f fs b bs (h & hd & HF & HK & HD & HS & ->) _ IH]; intros st r fuel i w HA HL Hfu HAf HAo;
    (destruct fuel as [|fuel]; [cbn in Hfu; lia|]); cbn [response_loop]; rewrite no_cancel;
    unfold mbind, M_bind, mret, M_ret, lift, on_frames; cbn [fst snd].
  - injection HAf as <-. rewrite <-HL in *. cbn [app] in HA.
    destruct (next_at_frame r oh ob _ HA HOF) as (s1 & EN & EC & HEs). rewrite EN, HOK. cbn [fst snd].
    rewrite (bool_decide_eq_false_2 (Result = File)), (bool_decide_eq_true_2 (Result = Result)) by done. rewrite HOD, HAo. cbn [fst snd].
    destruct (readEnd_complete (mkReader s1 (rd_maxBody r) (Z.to_N (h_Size oh)) None) eb tail) as (r' & ER); [|done|done|].
    + rewrite HOS. by split_and!.
    + rewrite ER, app_nil_r. by eexists.
  - destruct f as [info body]. cbn [fst snd accept_files] in *. apply res_bind_ok in HAf as (st1 & HA1 & HAf).
    rewrite <-HL in *. rewrite <-(app_assoc (hd ++ body)) in HA.
    destruct (collect_one info h hd body _ r w HA HF HS) as (r1 & r2 & EN & EF & HA2 & HL2).
    rewrite EN, HK. cbn [fst snd]. rewrite bool_decide_eq_true_2 by done. rewrite HD, HS, HA1, EF.
    destruct (IH st1 r2 fuel (Datatypes.S i) (w ++ [result_file (info, body)]) HA2 HL2) as [r' ER]; [cbn in Hfu; lia|done|done|].
    exists r'. rewrite ER, <-app_assoc. done.
Qed.
End Collecting.

Lemma file_frames_length limit files fb : file_frames limit files fb → (length files ≤ length fb)%nat.
Proof.
  induction 1 as [|f fs b bs (h & hd & (size & data & -> & _) & _ & _ & _ & ->) _ IH]; [done|].
  rewrite !length_app. cbn [length]. change (length magic) with 4%nat. lia.
Qed.

Lemma collect_response {S : Type} `{SourceLaws S} room ctx paths expected (input : S) files warnings :
  (∀ i, ctx i = None) → zlen paths ≤ ExplicitMaxFiles → (∀ x, ends input x → x = EOF) →
  ClientCollect room ctx paths expected None input = Ok (files, warnings) ↔
  ∃ frames o, response Collect expected frames o (content input) ∧
    files = result_file <$> frames ∧ warnings = o_Warnings o.
Proof.
  intros Hctx Hp HE. unfold ClientCollect. replace (ExplicitMaxFiles <? zlen paths) with false by lia. cbn [reject_if mbind res_bind].
  split.
  - destruct (ReadResponse _ _ _ _ _ _) as [[o|e] [w r]] eqn:E; [|done]. intros [= <- <-].
    apply response_sound in E as (frames & HR & HC); [|apply collect_file_reads].
    exists frames, o. by rewrite (consumed_collect _ _ _ _ HC).
  - intros (frames & o & (hb & fb & ob & eb & tail & EC & (h & HF & HK & HD & HS) & HFF & HO & HEf & HT & Hfiles & Hout & Hb & Hv) & -> & ->).
    assert (∃ st', accept_files Collect (mkProgress 0 0 ∅) frames = Ok st') as [st' HA].
    { destruct Hfiles as (H1 & H2 & H3 & H4). apply accept_files_intro; try done. apply Forall_forall. set_solver. }
    assert (∃ r', ReadResponse ctx Collect (Some (collect_file room)) input expected [] = (Ok o, (result_file <$> frames, r'))) as [r' ->]; [|done].
    unfold ReadResponse, read_response, mbind, M_bind, lift, ensure, gets, on_frames. cbn [fst snd].
    assert (at_frame (NewReader input (max_body Collect)) (hb ++ fb ++ ob ++ eb ++ tail)) as HAt by by split_and!.
    destruct (next_at_frame _ h hb _ HAt HF) as (s1 & -> & EC1 & HE1). rewrite HK, HD. cbn [fst snd].
    rewrite (bool_decide_eq_true_2 (Hello = Hello)), (bool_decide_eq_true_2 (expected = expected)), (bool_decide_eq_false_2 _ Hb), Hv by done.
    unfold Version, mret, M_ret. cbn [fst snd negb andb Z.eqb Pos.eqb Version rd_reader]. rewrite EC1.
    edestruct (response_loop_complete room ctx Hctx (max_body Collect) o ob eb tail HO HEf HT frames fb (mkProgress 0 0 ∅) st')
      as [r' ER]; [exact HFF| | | |exact HA| |exists r'; exact ER].
    + rewrite HS. by split_and!.
    + done.
    + rewrite length_app. pose proof (file_frames_length _ _ _ HFF). lia.
    + by apply accept_outcome_intro.
Qed.

(** C16. [Collect] returns exactly what the helper sent: it succeeds with some
    files and warnings if and only if its input is a response with these files,
    their paths, times and bytes in the order they were sent, and an outcome with
    these warnings.  (The context is not cancelled, the transport succeeds, and
    the input ends as files do.) *)
Theorem collect_exact {S : Type} `{SourceLaws S} room ctx paths expected (input : S) files warnings :
  (∀ i, ctx i = None) → zlen paths ≤ ExplicitMaxFiles → (∀ x, ends input x → x = EOF) →
  ClientCollect room ctx paths expected None input = Ok (files, warnings) ↔
  ∃ frames o, response Collect expected frames o (content input) ∧
    files = result_file <$> frames ∧ warnings = o_Warnings o.
Proof. apply collect_response. Qed.

(** ** Example: two files and a warning *)

Definition ex_send (kind : string) (meta : string) (body : list Z) : list Z :=
  snk_out (WriteFrame (mkHeader 0 kind (zlen body) (quote (to_bytes meta))) (Sink [] None None, Some (Chunked [body] EOF true))).2.1.
Definition ex_identity : Identity := mkIdentity "b1" "linux" "amd64" 1.
Definition ex_response : list Z :=
  ex_send Hello "{'buildId':'b1','os':'linux','arch':'amd64','protocol':1}" [] ++
  ex_send File "{'path':'a.xml','modTime':'2024-01-02T03:04:05Z','archive':false,'source':{'base':'','contentsOnly':false}}" [60; 97] ++
  ex_send File "{'path':'b.xml'}" [62] ++
  ex_send Result "{'retainedPath':'','warnings':[{'path':'c','message':'m'}],'published':false}" [] ++
  ex_send End "" [].
Definition ex_input : chunked := Chunked [take 100 ex_response; drop 100 ex_response] EOF false.
Definition ex_files : list ResultFile :=
  [mkResultFile "a.xml" (1704164645 * Second) [60; 97]; mkResultFile "b.xml" zero_time [62]].

Lemma accepted_response_witness : ∃ files,
  response Collect ex_identity files (mkOutcome "" (Some [mkWarning "c" "m"]) false) (content ex_input) ∧
  consumed (collect_file (λ _, 511%nat)) [] files ex_files.
Proof.
  eapply (accepted_response (λ _, None) Collect (collect_file (λ _, 511%nat)) ex_input ex_identity).
  - intros. by eapply collect_file_reads.
  - vm_compute. reflexivity.
Defined.

Lemma collect_exact_witness : ∃ frames o,
  response Collect ex_identity frames o (content ex_input) ∧ ex_files = result_file <$> frames ∧ Some [mkWarning "c" "m"] = o_Warnings o.
Proof.
  apply (collect_exact (λ _, 511%nat) (λ _, None) ["a.xml"%string] ex_identity ex_input); [done|done|by intros x ->|].
  vm_compute. reflexivity.
Defined.
