(* ===== verification/RunnerCodec.v ===== *)
(** * Metadata as text ([runner/protocol.go], [encoding/json])

    What [json.Marshal] makes of the values that travel in frames, and that the
    other end decodes the same values, after the frame has compacted their text. *)

From Stdlib Require Import ZArith Lia.
From stdpp Require Import gmap strings prelude.
From S2P Require Import Prelude GoText GoJson GoIO GoTime RunnerWire RunnerProtocol.
Local Open Scope Z_scope.

(** ** Compacting does not change what is decoded *)

(** The characters that compacting writes as escapes. *)
Lemma escape_head s : match s with Unicode _ _ _ _ :: _ => False | _ => True end →
  match escape_string s with Unicode a b c d :: _ => is_surrogate (hex4 a b c d) = false | _ => True end.
Proof.
  destruct s as [|[b|b|a b c d] s]; try done. intros _. cbn [escape_string].
  destruct (html_escape b) as [c|] eqn:E; [unfold html_escape in E; repeat case_match; by simplify_eq|].
  destruct s as [|[c| |] [|[d| |] s]]; try done.
  destruct ((b =? 0xE2) && (c =? 0x80) && ((d =? 0xA8) || (d =? 0xA9))) eqn:Eu; [|done].
  assert (d = 0xA8 ∨ d = 0xA9) as [->| ->] by lia; done.
Qed.

Lemma surrogate_pair_no r1 r2 : is_surrogate r2 = false → surrogate_pair r1 r2 = None.
Proof. unfold is_surrogate, surrogate_pair. intros H. case_match; [lia|done]. Qed.

Lemma decode_escape n : ∀ s, (length s ≤ n)%nat → decode (escape_string s) = decode s.
Proof.
  induction n as [|n IH]; intros s Hl; [by destruct s; [|cbn in Hl; lia]|].
  destruct s as [|c s]; [done|]. cbn in Hl. assert (decode (escape_string s) = decode s) as HT by (apply IH; lia).
  destruct c as [b|b|w x y z]; [|cbn; by rewrite HT|].
  - cbn [escape_string]. destruct (html_escape b) as [c|] eqn:E.
    { unfold html_escape in E. destruct (Z.eqb_spec b 60) as [->|]; [injection E as <-; cbn; by rewrite HT|].
      destruct (Z.eqb_spec b 62) as [->|]; [injection E as <-; cbn; by rewrite HT|].
      destruct (Z.eqb_spec b 38) as [->|]; [injection E as <-; cbn; by rewrite HT|done]. }
    destruct s as [|[c| |] [|[d| |] s]]; try (cbn [decode]; by rewrite HT).
    destruct ((b =? 0xE2) && (c =? 0x80) && ((d =? 0xA8) || (d =? 0xA9))) eqn:Eu; [|cbn [decode]; by rewrite HT].
    assert (b = 0xE2 ∧ c = 0x80) as [-> ->] by lia. cbn [decode]. rewrite <-(IH s) by (cbn in Hl; lia).
    assert (d = 0xA8 ∨ d = 0xA9) as [->| ->] by lia; done.
  - change (escape_string (Unicode w x y z :: s)) with (Unicode w x y z :: escape_string s). cbn [decode].
    destruct (is_surrogate (hex4 w x y z)); [|by rewrite HT].
    destruct s as [|[b|b|a' b' c' d'] s]; [done| | |].
    + pose proof (escape_head (Plain b :: s) I) as HE. rewrite <-HT.
      destruct (escape_string (Plain b :: s)) as [|[| |a b' c d] t]; [done|done|done|]. by rewrite (surrogate_pair_no _ _ HE).
    + by rewrite <-HT.
    + change (escape_string (Unicode a' b' c' d' :: s)) with (Unicode a' b' c' d' :: escape_string s) in *.
      rewrite HT. rewrite (IH s) by (cbn in Hl; lia). done.
Qed.

Lemma decode_escaped s : decode (escape_string s) = decode s.
Proof. by eapply decode_escape. Qed.

Lemma member_cons name k v l :
  member_of name (Obj ((k, v) :: l)) = if bool_decide (decode k = to_bytes name) then Some v else member_of name (Obj l).
Proof.
  unfold member_of. cbn [list_find fst]. case_decide; case_bool_decide; try done. destruct (list_find _ l) as [[]|]; done.
Qed.

Lemma member_escape name v : member_of name (escape v) = escape <$> member_of name v.
Proof.
  destruct v as [| | | | |l]; try done. cbn [escape]. induction l as [|[k v] l IH]; [done|].
  cbn [fmap list_fmap fst snd]. rewrite !member_cons, decode_escaped. case_bool_decide; [done|]. apply IH.
Qed.

Lemma exact_keys_escape v : ∀ s, exactMetadataKeys (escape v) s = exactMetadataKeys v s.
Proof.
  induction v as [|b|n|t|l IH|l IH] using json_ind'; intros [| | |]; try done; cbn [escape exactMetadataKeys].
  - induction IH as [|v l Hv _ IHl]; [done|]. cbn. by rewrite Hv, IHl.
  - induction IH as [|[k v] l Hv _ IHl]; [done|]. cbn [fmap list_fmap forallb fst snd]. rewrite decode_escaped, IHl. f_equal.
    destruct (schema_field (decode k) fields); [apply Hv|done].
Qed.

Lemma unmarshal_string_escape v : unmarshal_string (escape <$> v) = unmarshal_string v.
Proof. destruct v as [[]|]; try done. cbn. by rewrite decode_escaped. Qed.
Lemma unmarshal_int_escape v : unmarshal_int (escape <$> v) = unmarshal_int v.
Proof. by destruct v as [[]|]. Qed.
Lemma unmarshal_bool_escape v : unmarshal_bool (escape <$> v) = unmarshal_bool v.
Proof. by destruct v as [[]|]. Qed.
Lemma unmarshal_slice_escape {A} (f : json → res A) v : (∀ x, f (escape x) = f x) →
  unmarshal_slice f (escape <$> v) = unmarshal_slice f v.
Proof.
  intros Hf. destruct v as [[| | | |l|]|]; try done. cbn.
  assert (unmarshal_all f (escape <$> l) = unmarshal_all f l) as ->; [|done].
  induction l as [|x l IH]; [done|]. cbn. by rewrite Hf, IH.
Qed.

(** ** Values *)

(** A type that is written in frames: its JSON, the text in it (every string has
    to be UTF-8, [validateMetadataText]), and that it is decoded again. *)
Class Encoded (A : Type) `{Metadata A} := {
  marshal : A → res json;
  texts : A → list string;
  storable : A → Prop }.
Class EncodedLaws (A : Type) `{Encoded A} := {
  marshal_decodes a v : storable a → Forall (λ s, utf8_valid s = true) (texts a) → marshal a = Ok v →
    well_formed v ∧ (∃ l, v = Obj l) ∧ exactMetadataKeys (escape v) (schema_of A) = true ∧ unmarshal (escape v) = Ok a }.

(** [validateMetadataText] *)
Definition validateMetadataText {A} `{Encoded A} (a : A) : res () :=
  reject_if (negb (forallb utf8_valid (texts a))) (Msg "runner metadata contains invalid UTF-8").

Definition text (s : string) : json := Str (encode_text s).
Definition fields (fs : list (string * json)) : json := Obj ((λ f, (plain f.1, f.2)) <$> fs).
Definition array {A} (f : A → json) (l : option (list A)) : json :=
  match l with Some l => Arr (f <$> l) | None => Null end.

Definition marshal_identity (i : Identity) : json :=
  fields [("buildId", text (id_BuildID i)); ("os", text (id_OS i)); ("arch", text (id_Arch i));
          ("protocol", int_value (id_Protocol i))]%string.
Definition marshal_source (s : ArchiveSource) : json :=
  fields [("base", text (as_Base s)); ("contentsOnly", Bool (as_ContentsOnly s))]%string.
Definition marshal_warning (w : Warning) : json :=
  fields [("path", text (wa_Path w)); ("message", text (wa_Message w))]%string.
Definition marshal_outcome (o : Outcome) : json :=
  fields [("retainedPath", text (o_RetainedPath o)); ("warnings", array marshal_warning (o_Warnings o));
          ("published", Bool (o_Published o))]%string.
Definition marshal_remote (e : RemoteError) : json :=
  fields [("target", text (re_Target e)); ("code", text (re_Code e)); ("message", text (re_Message e))]%string.

(** A request. *)
Record RunnerRequest := mkRequest {
  rq_RecoveryChoice : string; rq_BuildID : string; rq_Operation : string; rq_Workdir : string;
  rq_Paths : option (list string); rq_Auto : bool; rq_Marker : string; rq_SourcePath : string;
  rq_Destination : string; rq_Source : ArchiveSource }.
Definition marshal_request (r : RunnerRequest) : json :=
  fields [("recoveryChoice", text (rq_RecoveryChoice r)); ("buildId", text (rq_BuildID r));
          ("operation", text (rq_Operation r)); ("workdir", text (rq_Workdir r));
          ("paths", array text (rq_Paths r)); ("auto", Bool (rq_Auto r)); ("marker", text (rq_Marker r));
          ("sourcePath", text (rq_SourcePath r)); ("destination", text (rq_Destination r));
          ("source", marshal_source (rq_Source r))]%string.
Definition unmarshal_request (v : json) : res RunnerRequest :=
  choice ← unmarshal_string (member_of "recoveryChoice" v);
  build ← unmarshal_string (member_of "buildId" v);
  operation ← unmarshal_string (member_of "operation" v);
  workdir ← unmarshal_string (member_of "workdir" v);
  paths ← unmarshal_slice (λ v, unmarshal_string (Some v)) (member_of "paths" v);
  auto ← unmarshal_bool (member_of "auto" v);
  marker ← unmarshal_string (member_of "marker" v);
  source_path ← unmarshal_string (member_of "sourcePath" v);
  destination ← unmarshal_string (member_of "destination" v);
  source ← unmarshal_source (member_of "source" v);
  mret (mkRequest choice build operation workdir paths auto marker source_path destination source).
#[export] Instance Request_metadata : Metadata RunnerRequest := {
  schema_of := SStruct [("recoveryChoice", SOther); ("buildId", SOther); ("operation", SOther); ("workdir", SOther);
    ("paths", SSlice SOther); ("auto", SOther); ("marker", SOther); ("sourcePath", SOther); ("destination", SOther);
    ("source", source_schema)]%string;
  unmarshal := unmarshal_request }.

(** The time zone of the machine: seconds east of UTC at an instant. *)
Class Zone := zone_of : Z → Z.

(** [Time.MarshalJSON] *)
Definition marshal_time `{Zone} (t : Z) : res json :=
  let off := zone_of t in
  let y := (civil_of_days (Unix (t + off * Second) / 86400)).1.1 in
  reject_if (negb ((0 <=? y) && (y <=? 9999))) (Msg "Time.MarshalJSON: year outside of range [0,9999]");;
  reject_if (negb (Z.abs off <? 86400)) (Msg "Time.MarshalJSON: timezone hour outside of range [0,23]");;
  Ok (Str (plain (FormatRFC3339NanoIn off t))).
Definition marshal_file `{Zone} (f : FileInfo) : res json :=
  time ← marshal_time (fi_ModTime f);
  Ok (fields [("path", text (fi_Path f)); ("modTime", time); ("archive", Bool (fi_Archive f));
              ("source", marshal_source (fi_Source f))]%string).

(** ** They are decoded again *)

Lemma text_ok s : utf8_valid s = true → well_formed (text s) ∧ unmarshal_string (Some (text s)) = Ok s.
Proof.
  intros H. destruct (encode_text_ok s H) as (H1 & _ & H2). split; [done|]. cbn. by rewrite H2, of_to_bytes.
Qed.

Lemma record_ok fs : Forall (λ f : string * json, string_ok (plain f.1) ∧ well_formed f.2) fs → well_formed (fields fs).
Proof. intros H. unfold fields. cbn [well_formed]. apply foldr_and. by apply Forall_fmap. Qed.

Lemma member_record_cons name k v fs :
  member_of name (fields ((k, v) :: fs)) = if bool_decide (to_bytes k = to_bytes name) then Some v else member_of name (fields fs).
Proof. unfold fields. cbn [fmap list_fmap fst snd]. by rewrite member_cons, decode_plain. Qed.

(** Looking a member up in a record with literal keys. *)
Ltac lookup_members :=
  repeat (rewrite member_record_cons;
    match goal with
    | |- context [if bool_decide ?P then _ else _] => let b := eval vm_compute in (bool_decide P) in change (bool_decide P) with b
    end; cbn iota).

Ltac record_fields :=
  apply record_ok; repeat (apply Forall_cons_2; [split; [by repeat constructor|cbn [snd]]|]); try apply Forall_nil_2.

(** The keys of a record are those of its schema. *)
Lemma record_keys fs ss : exactMetadataKeys (fields fs) (SStruct ss) =
  forallb (λ f : string * json, match schema_field (to_bytes f.1) ss with
                                | Some s => exactMetadataKeys f.2 s
                                | None => false
                                end) fs.
Proof.
  unfold fields. cbn [exactMetadataKeys]. induction fs as [|[k v] fs IH]; [done|].
  cbn [fmap list_fmap forallb fst snd]. by rewrite IH, decode_plain.
Qed.

Ltac record_keys :=
  rewrite record_keys; cbn [forallb fst snd];
  repeat match goal with
  | |- context [schema_field ?a ?b] => let r := eval vm_compute in (schema_field a b) in change (schema_field a b) with r; cbn iota
  end.
Ltac exact_keys := rewrite exact_keys_escape; record_keys; cbn [exactMetadataKeys text]; try reflexivity.

Lemma texts_ok l : Forall (λ s, utf8_valid s = true) l →
  Forall well_formed (text <$> l) ∧ unmarshal_all (λ v, unmarshal_string (Some v)) (text <$> l) = Ok l.
Proof.
  induction 1 as [|s l Hs _ [I1 I2]]; [done|]. destruct (text_ok s Hs) as [T1 T2]. cbn [fmap list_fmap unmarshal_all].
  split; [by constructor|]. by rewrite T2, I2.
Qed.

Definition utf8_source (s : ArchiveSource) : list string := [as_Base s].
Lemma source_ok s : utf8_valid (as_Base s) = true →
  well_formed (marshal_source s) ∧ unmarshal_source (Some (marshal_source s)) = Ok s.
Proof.
  intros H. destruct (text_ok _ H) as [T1 T2]. split.
  - unfold marshal_source. record_fields; done.
  - unfold unmarshal_source, marshal_source. lookup_members. rewrite T2. by destruct s.
Qed.
Lemma source_keys s : exactMetadataKeys (marshal_source s) source_schema = true.
Proof. unfold marshal_source, source_schema. by record_keys. Qed.
Lemma source_escape v : unmarshal_source (escape <$> v) = unmarshal_source v.
Proof. destruct v as [v|]; [|done]. cbn. by rewrite !member_escape, unmarshal_string_escape, unmarshal_bool_escape. Qed.

Lemma warning_ok w : utf8_valid (wa_Path w) = true → utf8_valid (wa_Message w) = true →
  well_formed (marshal_warning w) ∧ unmarshal_warning (marshal_warning w) = Ok w.
Proof.
  intros Hp Hm. destruct (text_ok _ Hp) as [P1 P2], (text_ok _ Hm) as [M1 M2]. split.
  - unfold marshal_warning. record_fields; done.
  - unfold unmarshal_warning, marshal_warning. lookup_members. rewrite P2, M2. by destruct w.
Qed.
Lemma warning_escape v : unmarshal_warning (escape v) = unmarshal_warning v.
Proof. unfold unmarshal_warning. by rewrite !member_escape, !unmarshal_string_escape. Qed.

Lemma warnings_ok l : Forall (λ s, utf8_valid s = true) (concat ((λ w, [wa_Path w; wa_Message w]) <$> l)) →
  Forall well_formed (marshal_warning <$> l) ∧ unmarshal_all unmarshal_warning (marshal_warning <$> l) = Ok l.
Proof.
  induction l as [|w l IH]; [done|]. cbn [fmap list_fmap concat]. intros [HW HF]%Forall_app. destruct (IH HF) as [I1 I2].
  rewrite !Forall_cons in HW. destruct HW as (Hp & Hm & _). destruct (warning_ok w Hp Hm) as [W1 W2].
  split; [by constructor|]. cbn [unmarshal_all]. by rewrite W2, I2.
Qed.

#[export] Instance Identity_encoded : Encoded Identity := {
  marshal i := Ok (marshal_identity i);
  texts i := [id_BuildID i; id_OS i; id_Arch i];
  storable i := 0 ≤ id_Protocol i ≤ max_int64 }.
#[export] Instance Identity_laws : EncodedLaws Identity.
Proof.
  split. intros i v Hs HT [= <-]. cbn [texts Identity_encoded storable] in *. rewrite !Forall_cons in HT. destruct HT as (H1 & H2 & H3 & _).
  destruct (text_ok _ H1) as [B1 B2], (text_ok _ H2) as [O1 O2], (text_ok _ H3) as [A1 A2]. split_and!.
  - unfold marshal_identity. record_fields; try done. apply int_value_ok. lia.
  - by eexists.
  - cbn [schema_of Identity_metadata]. unfold marshal_identity. exact_keys.
  - cbn [unmarshal Identity_metadata]. unfold unmarshal_identity.
    rewrite !member_escape, !unmarshal_string_escape, unmarshal_int_escape. unfold marshal_identity. lookup_members.
    rewrite B2, O2, A2, (unmarshal_int_value _ Hs). by destruct i.
Qed.

#[export] Instance RemoteError_encoded : Encoded RemoteError := {
  marshal e := Ok (marshal_remote e);
  texts e := [re_Target e; re_Code e; re_Message e];
  storable e := True }.
#[export] Instance RemoteError_laws : EncodedLaws RemoteError.
Proof.
  split. intros e v _ HT [= <-]. cbn [texts RemoteError_encoded] in *. rewrite !Forall_cons in HT. destruct HT as (H1 & H2 & H3 & _).
  destruct (text_ok _ H1) as [B1 B2], (text_ok _ H2) as [O1 O2], (text_ok _ H3) as [A1 A2]. split_and!.
  - unfold marshal_remote. record_fields; done.
  - by eexists.
  - cbn [schema_of RemoteError_metadata]. unfold marshal_remote. exact_keys.
  - cbn [unmarshal RemoteError_metadata]. unfold unmarshal_remote. rewrite !member_escape, !unmarshal_string_escape.
    unfold marshal_remote. lookup_members. rewrite B2, O2, A2. by destruct e.
Qed.

Lemma arr_ok l : Forall well_formed l → well_formed (Arr l).
Proof. intros H. cbn [well_formed]. by apply foldr_and. Qed.

Lemma arr_keys s l : Forall (λ v, exactMetadataKeys v s = true) l → exactMetadataKeys (Arr l) (SSlice s) = true.
Proof. induction 1 as [|v l Hv _ IH]; [done|]. cbn in *. by rewrite Hv. Qed.

#[export] Instance Outcome_encoded : Encoded Outcome := {
  marshal o := Ok (marshal_outcome o);
  texts o := o_RetainedPath o :: concat ((λ w, [wa_Path w; wa_Message w]) <$> default [] (o_Warnings o));
  storable o := True }.
#[export] Instance Outcome_laws : EncodedLaws Outcome.
Proof.
  split. intros o v _ HT [= <-]. cbn [texts Outcome_encoded] in *. apply Forall_cons in HT as [H1 HW].
  destruct (text_ok _ H1) as [R1 R2]. destruct (warnings_ok _ HW) as [W1 W2].
  assert (well_formed (array marshal_warning (o_Warnings o)) ∧
    unmarshal_slice unmarshal_warning (Some (array marshal_warning (o_Warnings o))) = Ok (o_Warnings o)) as [A1 A2].
  { destruct (o_Warnings o) as [l|]; [|done]. unfold default, id in *. cbn [array] in *. split; [by apply arr_ok|]. cbn. by rewrite W2. }
  split_and!.
  - unfold marshal_outcome. record_fields; done.
  - by eexists.
  - cbn [schema_of Outcome_metadata]. unfold marshal_outcome. exact_keys.
    destruct (o_Warnings o) as [l|]; [|done]. cbn [array]. rewrite arr_keys; [done|].
    apply Forall_fmap, Forall_forall. intros w _. cbn beta. unfold marshal_warning, compose. by record_keys.
  - cbn [unmarshal Outcome_metadata]. unfold unmarshal_outcome.
    rewrite !member_escape, !unmarshal_string_escape, unmarshal_bool_escape, unmarshal_slice_escape by apply warning_escape.
    unfold marshal_outcome. lookup_members. rewrite R2, A2. by destruct o.
Qed.

#[export] Instance Request_encoded : Encoded RunnerRequest := {
  marshal r := Ok (marshal_request r);
  texts r := [rq_RecoveryChoice r; rq_BuildID r; rq_Operation r; rq_Workdir r] ++ default [] (rq_Paths r) ++
    [rq_Marker r; rq_SourcePath r; rq_Destination r; as_Base (rq_Source r)];
  storable r := True }.
#[export] Instance Request_laws : EncodedLaws RunnerRequest.
Proof.
  split. intros r v _ HT [= <-]. cbn [texts Request_encoded] in *.
  apply Forall_app in HT as [HT1 HT2]. apply Forall_app in HT2 as [HP HT2]. rewrite !Forall_cons in HT1, HT2.
  destruct HT1 as (H1 & H2 & H3 & H4 & _). destruct HT2 as (H5 & H6 & H7 & H8 & _).
  destruct (text_ok _ H1) as [W1 E1], (text_ok _ H2) as [W2 E2], (text_ok _ H3) as [W3 E3], (text_ok _ H4) as [W4 E4].
  destruct (text_ok _ H5) as [W5 E5], (text_ok _ H6) as [W6 E6], (text_ok _ H7) as [W7 E7], (source_ok _ H8) as [W8 E8].
  destruct (texts_ok _ HP) as [P1 P2].
  assert (well_formed (array text (rq_Paths r)) ∧
    unmarshal_slice (λ v, unmarshal_string (Some v)) (Some (array text (rq_Paths r))) = Ok (rq_Paths r)) as [A1 A2].
  { destruct (rq_Paths r) as [l|]; [|done]. unfold default, id in *. cbn [array] in *. split; [by apply arr_ok|]. cbn [unmarshal_slice]. by rewrite P2. }
  split_and!.
  - unfold marshal_request. record_fields; done.
  - by eexists.
  - cbn [schema_of Request_metadata]. unfold marshal_request. exact_keys.
    replace (exactMetadataKeys (marshal_source (rq_Source r)) source_schema) with true by (symmetry; apply source_keys).
    destruct (rq_Paths r) as [l|]; [|done]. cbn [array]. rewrite arr_keys; [done|]. by apply Forall_fmap, Forall_forall.
  - cbn [unmarshal Request_metadata]. unfold unmarshal_request.
    rewrite !member_escape, !unmarshal_string_escape, unmarshal_bool_escape, source_escape, unmarshal_slice_escape
      by (intros; apply (unmarshal_string_escape (Some _))).
    unfold marshal_request. lookup_members. rewrite E1, E2, E3, E4, E5, E6, E7, E8, A2. by destruct r.
Qed.

(** ** Times *)

(** The characters of a time: nothing to escape. *)
Definition time_char (b : Z) : bool := is_digit b || bool_decide (b ∈ [43; 45; 46; 58; 84; 90]).

Lemma pad_chars w n : 0 ≤ n → Forall (λ b, time_char b = true) (pad w n).
Proof.
  intros Hn. apply (Forall_impl (λ b, is_digit b = true)); [|by intros b Hb; unfold time_char; rewrite Hb].
  apply Forall_app. split; [by apply Forall_replicate|by apply format_uint_digits].
Qed.

Lemma time_chars off t : 0 ≤ (civil_of_days (Unix (t + off * Second) / 86400)).1.1 →
  Forall (λ b, time_char b = true) (to_bytes (FormatRFC3339NanoIn off t)).
Proof.
  unfold FormatRFC3339NanoIn. set (t' := t + off * Second). clearbody t'. intros Hy.
  assert (Forall (λ b, time_char b = true) (clock_bytes t' ++ fraction_bytes t' ++ zone_bytes off)) as HF.
  { assert (∀ n, 0 ≤ n → 0 ≤ n / 3600 ∧ 0 ≤ (n / 60) mod 60 ∧ 0 ≤ n mod 60) as Hn by (intros n Hn; Z.div_mod_to_equations; lia).
    destruct (Hn (Unix t' mod 86400)) as (? & ? & ?); [apply Z.mod_pos_bound; lia|].
    destruct (Hn (Z.abs off)) as (? & ? & _); [lia|].
    assert (Forall (λ b, time_char b = true) (fraction_bytes t')) as Hf.
    { unfold fraction_bytes. case_match; [constructor|]. constructor; [done|].
      apply Forall_reverse, Forall_drop_while, Forall_reverse, pad_chars, Z.mod_pos_bound. done. }
    unfold clock_bytes. destruct (civil_of_days _) as [[y m] d] eqn:E. cbn [fst] in Hy.
    apply civil_of_days_spec in E as (_ & Hm & Hd). unfold zone_bytes.
    repeat first [apply pad_chars; lia | exact Hf | apply Forall_app; split | apply Forall_cons; split | constructor | done | case_match]. }
  rewrite to_of_bytes; [done|]. eapply Forall_impl; [exact HF|]. intros b. unfold time_char, is_byte, is_digit.
  case_bool_decide as Hb; [|lia]. intros _. rewrite !elem_of_cons in Hb. rewrite elem_of_nil in Hb. lia.
Qed.

Lemma plain_text_plain s : plain_text (plain s) = Some (to_bytes s).
Proof. unfold plain. induction (to_bytes s) as [|b bs IH]; [done|]. cbn [fmap list_fmap plain_text foldr]. unfold plain_text in IH. by rewrite IH. Qed.

Lemma time_plain bs : Forall (λ b, time_char b = true) bs → string_ok (Plain <$> bs) ∧ escape_string (Plain <$> bs) = Plain <$> bs.
Proof.
  induction 1 as [|b bs Hb _ [I1 I2]]; [by split; [constructor|]|].
  assert (is_plain b = true ∧ html_escape b = None ∧ b ≠ 0xE2) as (Hp & Hh & He).
  { unfold time_char in Hb. destruct (is_digit b) eqn:Ed.
    - unfold is_digit in Ed. unfold is_plain, html_escape. repeat (case_match; [lia|]). split_and!; [lia|done|lia].
    - cbn [orb] in Hb. apply bool_decide_eq_true in Hb. rewrite !elem_of_cons, elem_of_nil in Hb.
      repeat (destruct Hb as [->|Hb]; [done|]). done. }
  cbn [fmap list_fmap]. split; [by constructor|]. cbn [escape_string]. rewrite Hh.
  destruct (Plain <$> bs) as [|[c| |] [|[d| |] l]] eqn:E; rewrite ?I2; try done.
  by replace (b =? 0xE2) with false by lia.
Qed.

(** Zones have offsets of whole minutes. *)
Class WholeMinutes `{Zone} := whole_minutes : ∀ t, zone_of t mod 60 = 0.

Section Times.
Context `{HZ : WholeMinutes}.

Lemma time_ok t v : marshal_time t = Ok v → well_formed v ∧ escape v = v ∧ unmarshal_time (Some v) = Ok t.
Proof.
  unfold marshal_time. intros H1. res_steps. guards. injection H1 as <-.
  assert (0 ≤ (civil_of_days (Unix (t + zone_of t * Second) / 86400)).1.1 ≤ 9999) as Hy by (split; by apply Z.leb_le).
  destruct (time_plain _ (time_chars _ _ (proj1 Hy))) as [T1 T2].
  split_and!; [done|cbn; f_equal; exact T2|]. cbn [unmarshal_time]. rewrite plain_text_plain. cbn [mbind option_bind].
  rewrite of_to_bytes, (ParseRFC3339_in_zone (zone_of t) t) by (done || lia). done.
Qed.

#[export] Instance FileInfo_encoded : Encoded FileInfo := {
  marshal f := marshal_file f;
  texts f := [fi_Path f; as_Base (fi_Source f)];
  storable f := True }.
#[export] Instance FileInfo_laws : EncodedLaws FileInfo.
Proof.
  split. intros f v _ HT HM. cbn [texts FileInfo_encoded marshal] in *. rewrite !Forall_cons in HT. destruct HT as (H1 & H2 & _).
  destruct (text_ok _ H1) as [P1 P2], (source_ok _ H2) as [S1 S2].
  unfold marshal_file in HM. apply res_bind_ok in HM as (time & HM & Hv). injection Hv as <-.
  destruct (time_ok _ _ HM) as (T1 & T2 & T3). split_and!.
  - record_fields; done.
  - by eexists.
  - cbn [schema_of FileInfo_metadata]. exact_keys. rewrite source_keys. by destruct time.
  - cbn [unmarshal FileInfo_metadata]. unfold unmarshal_file.
    rewrite !member_escape, unmarshal_string_escape, unmarshal_bool_escape, source_escape. lookup_members.
    cbn [fmap option_fmap option_map]. rewrite P2, T2, T3, S2. by destruct f.
Qed.
End Times.
