(* ===== verification/RunnerResults.v ===== *)
(** * Collecting report files ([runner/runnerfs/results.go], [read.go], [directory.go])

    [CollectResults] reads the named files and then the reports it finds in the
    workspace, under limits on files and bytes.  Discovery keeps, of each class
    of reports (failing and passing), the fifty with the smallest names, in one
    pass.  Files are identified as [os.SameFile] does; what the file system
    answers may differ from one call to the next. *)

From Stdlib Require Import ZArith Lia Sorting.Sorted.
From stdpp Require Import gmap strings prelude sorting.
From S2P Require Import Prelude GoText GoPath GoIO RunnerWire RunnerProtocol.
Local Open Scope Z_scope.

Definition AutoMaxFileBytes : Z := 16 * 2 ^ 20.
Definition AutoSniffBytes : Z := 4 * 2 ^ 10.
Definition AutoFailureBytes : Z := 2 ^ 20.

(** ** Retaining candidates *)

Record candidate := mkCandidate { c_name : string; c_failed : bool; c_id : Z }.

(** [sort.Search(n, f)] *)
Fixpoint search (fuel i j : nat) (f : nat → bool) : nat :=
  match fuel with
  | O => i
  | S fuel =>
      if (i <? j)%nat then
        let h := Nat.div2 (i + j) in
        if f h then search fuel i h f else search fuel (S h) j f
      else i
  end.
Definition sort_Search (n : nat) (f : nat → bool) : nat := search n 0 n f.

(** [values[i].name >= name] *)
Definition name_at_least (values : list candidate) (name : string) (i : nat) : bool :=
  match values !! i with Some c => String.leb name (c_name c) | None => false end.

(** The first value with an identity, and where it is. *)
Definition find_id (id : Z) (values : list candidate) : option (nat * candidate) :=
  list_find (λ c, c_id c = id) values.

(** The insertion of [retainResultCandidate]. *)
Definition insert_candidate (values : list candidate) (next : candidate) : list candidate :=
  let index := sort_Search (length values) (name_at_least values (c_name next)) in
  if AutoMaxFiles <=? Z.of_nat index then values
  else take (Z.to_nat AutoMaxFiles) (take index values ++ next :: drop index values).

Definition retainResultCandidate (values : list candidate) (next : candidate) : list candidate :=
  match find_id (c_id next) values with
  | Some (index, previous) =>
      if String.leb (c_name previous) (c_name next) then values
      else insert_candidate (take index values ++ drop (S index) values) next
  | None => insert_candidate values next
  end.

(** ** The specification: the smallest name of each file, the fifty smallest of
    these *)

(** Sorted by name, each file once. *)
Definition by_name (a b : candidate) : Prop := String.le (c_name a) (c_name b).
#[export] Instance by_name_preorder : PreOrder by_name.
Proof. split; [intros a; unfold by_name; reflexivity|intros a b c; unfold by_name; apply transitivity]. Qed.



(** ** Binary search *)






(** ** One candidate more *)







(** ** The bound commutes with ranking *)










(** ** Discovery *)

(** The two classes of candidates, and the warnings about files too large. *)
Record discovery := mkDiscovery { d_passing : list candidate; d_failing : list candidate; d_warnings : list Warning }.

Definition min_name (a b : string) : string := if String.leb a b then a else b.

(** The end of the visit of [resultCandidates]: a candidate joins its class. *)
Definition admit_candidate (d : discovery) (c : candidate) : discovery :=
  if c_failed c then
    match find_id (c_id c) (d_passing d) with
    | Some (index, previous) =>
        mkDiscovery (take index (d_passing d) ++ drop (S index) (d_passing d))
          (retainResultCandidate (d_failing d) (mkCandidate (min_name (c_name c) (c_name previous)) true (c_id c)))
          (d_warnings d)
    | None => mkDiscovery (d_passing d) (retainResultCandidate (d_failing d) c) (d_warnings d)
    end
  else
    match find_id (c_id c) (d_failing d) with
    | Some _ => d
    | None => mkDiscovery (retainResultCandidate (d_passing d) c) (d_failing d) (d_warnings d)
    end.





(** ** The workspace *)

(** What [os.Stat] of an open file returns. *)
Record finfo := mkInfo { i_id : Z; i_size : Z; i_mtime : Z }.

(** What the calls to [ReadDir(directoryBatchSize)] of an open directory return:
    batches of entries, the last one with an error, which is [EOF] when all has
    been read. *)
Inductive directory (A : Type) :=
  | Batch (entries : list A) (rest : directory A)
  | Last (entries : list A) (e : error).
Arguments Batch {A} _ _.
Arguments Last {A} _ _.

(** An entry of a directory.  A directory that cannot be opened, or a file that
    cannot be opened as a regular file and inspected, is [None]; [None] as data
    is a failed read. *)
Inductive node :=
  | Folder (name : string) (opened : option (directory node))
  | Item (name : string) (regular : bool) (opened : option (finfo * option (list Z))).

Definition junitFilename (name : string) : bool :=
  bool_decide (name = "results.xml"%string) || HasPrefix name "junit" && HasSuffix name ".xml" ||
  HasPrefix name "TEST-" && HasSuffix name ".xml".

(** [bytes.Contains] *)
Fixpoint bytes_contain (sub bs : list Z) : bool :=
  bool_decide (take (length sub) bs = sub) || match bs with [] => false | _ :: bs => bytes_contain sub bs end.
(** [bytes.Contains(data[:min(len(data), AutoSniffBytes)], "<testsuite")] *)
Definition is_report (data : list Z) : bool :=
  bytes_contain (to_bytes "<testsuite") (take (Z.to_nat AutoSniffBytes) data).

Definition limit_warning (name : string) : Warning :=
  mkWarning name ("report exceeds " +:+ FormatInt AutoMaxFileBytes +:+ "-byte per-file limit").
Definition aggregate_warning (name : string) : Warning :=
  mkWarning name ("report exceeds remaining " +:+ FormatInt AutoMaxTotalBytes +:+ "-byte aggregate limit").

Section Discovery.
(** [containsJUnitFailure]: the XML tokens of a report's first bytes. *)
Variable containsJUnitFailure : list Z → bool.
(** What the context reports at each of its checks. *)
Variable ctx : nat → option error.
(** [None] is the zero time. *)
Variables (after : option Z) (excluded : list Z).

Definition old (t : Z) : bool := match after with Some a => t <? a | None => false end.

Definition DM : Type → Type := M (nat * discovery).
Definition check : DM () := λ st,
  (match ctx st.1 with Some e => Err e | None => Ok () end, (S st.1, st.2)).

(** What the visit of a file sees: nothing of interest, a report that is too
    large, or a candidate. *)
Inductive sighting := Nothing | TooLarge | Report (c : candidate).
Definition sight (name base : string) (regular : bool) (opened : option (finfo * option (list Z))) : sighting :=
  if negb regular || negb (junitFilename base) then Nothing
  else
    match opened with
    | None => Nothing
    | Some (info, read) =>
        if old (i_mtime info) || bool_decide (i_id info ∈ excluded) then Nothing
        else
          let large := AutoMaxFileBytes <? i_size info in
          match read with
          | None => Nothing
          | Some all =>
              let data := take (Z.to_nat (if large then AutoSniffBytes else AutoFailureBytes)) all in
              if negb (is_report data) then Nothing
              else if large then TooLarge
              else Report (mkCandidate name (containsJUnitFailure data) (i_id info))
          end
    end.

Definition look_at (name base : string) (regular : bool) (opened : option (finfo * option (list Z))) (d : discovery) : discovery :=
  match sight name base regular opened with
  | Nothing => d
  | TooLarge =>
      if zlen (d_warnings d) <? AutoMaxFiles
      then mkDiscovery (d_passing d) (d_failing d) (d_warnings d ++ [limit_warning name]) else d
  | Report c => admit_candidate d c
  end.

Definition skipped (name : string) : bool := bool_decide (name ∈ [".git"; "node_modules"]%string).

(** [readDirectory]: the context is checked before each batch and each entry; an
    error of the visit or of [ReadDir], other than [EOF], ends it after the entries
    that came with the error. *)
Definition visit_all {A} (visit : A → DM ()) : list A → DM () :=
  fix visit_all l := match l with [] => mret () | n :: l => check;; visit n;; visit_all l end.
Definition readDirectory {A} (visit : A → DM ()) : directory A → DM () :=
  fix readDirectory d :=
    check;;
    match d with
    | Batch entries rest => visit_all visit entries;; readDirectory rest
    | Last entries e => visit_all visit entries;; if bool_decide (e = EOF) then mret () else fail e
    end.

(** [walkDirectory] on one entry of the directory [dir], with the visit of
    [resultCandidates], which checks the context first. *)
Fixpoint walk (dir : string) (n : node) : DM () :=
  check;;
  match n with
  | Folder name opened =>
      if skipped name then mret ()
      else match opened with None => mret () | Some d => readDirectory (walk (path_Join dir name)) d end
  | Item name regular opened =>
      modify (λ st, (st.1, look_at (path_Join dir name) name regular opened st.2))
  end.

(** [resultCandidates]: the candidates, the warnings and the error. *)
Definition resultCandidates (root : option (directory node)) (tick : nat) : list candidate * list Warning * option error * nat :=
  let '(r, (t, d)) :=
    match root with
    | None => (Ok (), (tick, mkDiscovery [] [] []))
    | Some root => readDirectory (walk ".") root (tick, mkDiscovery [] [] [])
    end in
  (d_failing d ++ d_passing d, d_warnings d, match r with Ok _ => None | Err e => Some e end, t).

(** The candidates of a tree in the order of the walk, up to the first directory
    whose entries cannot be read, and the error of that directory. *)
Definition found : Type := list candidate * option error.
Definition none_found : found := ([], None).
Definition and_then (a b : found) : found :=
  match a.2 with Some _ => a | None => (a.1 ++ b.1, b.2) end.
Definition reports_of {A} (reports : A → found) : list A → found :=
  fix reports_of l := match l with [] => none_found | n :: l => and_then (reports n) (reports_of l) end.
Definition reports_in {A} (reports : A → found) : directory A → found :=
  fix reports_in d :=
    match d with
    | Batch entries rest => and_then (reports_of reports entries) (reports_in rest)
    | Last entries e => and_then (reports_of reports entries) ([], if bool_decide (e = EOF) then None else Some e)
    end.
Definition reports_at (dir name : string) (regular : bool) (opened : option (finfo * option (list Z))) : list candidate :=
  match sight (path_Join dir name) name regular opened with Report c => [c] | _ => [] end.
Fixpoint reports (dir : string) (n : node) : found :=
  match n with
  | Folder name opened =>
      if skipped name then none_found
      else match opened with None => none_found | Some d => reports_in (reports (path_Join dir name)) d end
  | Item name regular opened => (reports_at dir name regular opened, None)
  end.

Hypothesis no_cancel : ∀ t, ctx t = None.









End Discovery.


(** ** Reading *)

Definition ErrLimit : error := Msg "file exceeds the byte limit".
Definition ErrChanged : error := Msg "file changed while being read".
Definition errDuplicateReport : error := Msg "report file already collected".

Record ReportFile := mkFile { f_Path : string; f_Data : list Z; f_ModTime : Z; f_id : Z }.

(** An open regular file: which file it is, its size and time when it is opened
    and after it has been read, and its bytes. *)
Record handle := mkHandle { hd_id : Z; hd_before : res (Z * Z); hd_data : chunked; hd_after : res (Z * Z) }.

Record ResultOptions := mkOptions {
  ro_Paths : list string; ro_Auto : bool; ro_After : option Z; ro_ExplicitMaxBytes : Z; ro_ExplicitTotalBytes : Z }.

(** The result under construction; [k_ids] are the identities of its files. *)
Record collected := mkCollected { k_files : list ReportFile; k_warnings : list Warning; k_ids : list Z }.
Definition add_file (f : ReportFile) (k : collected) : collected :=
  mkCollected (k_files k ++ [f]) (k_warnings k) (k_ids k ++ [f_id f]).
Definition add_warnings (ws : list Warning) (k : collected) : collected :=
  mkCollected (k_files k) (k_warnings k ++ ws) (k_ids k).

(** [errors.Is(err, target)], for errors that are returned as they are. *)
Definition error_message (e : error) : string := match e with Msg s => s | _ => ""%string end.

(** Failing reports first, then by name. *)
Definition before (a b : candidate) : Prop :=
  if Bool.eqb (c_failed a) (c_failed b) then by_name a b else c_failed a = true.
#[export] Instance before_dec a b : Decision (before a b).
Proof. unfold before, by_name. destruct (Bool.eqb _ _); apply _. Defined.

Section Collecting.
Variable containsJUnitFailure : list Z → bool.
(** The environment: what the context reports, what opening a file gives, and
    what the workspace looks like, each at a point of the run. *)
Variable ctx : nat → option error.
Variable openRegular : nat → string → res handle.
Variable workspace : nat → option (directory node).

Definition CM : Type → Type := M (nat * collected).
Definition poll : CM () := λ st, (match ctx st.1 with Some e => Err e | None => Ok () end, (S st.1, st.2)).
Definition open_file (name : string) : CM handle := λ st, (openRegular st.1 name, (S st.1, st.2)).

(** [Copy] of at most [n] bytes of a file to a buffer. *)
Definition copy_file (n : Z) (src : chunked) : res (list Z) :=
  let '(data, e, _) := ReadAll (λ _, Z.to_nat (128 * 1024 - 1)) (Limited src (Z.to_N n)) in
  match e with Some x => Err x | None => Ok data end.

Definition readDistinct (name : string) (limit : Z) (seen : list Z) : CM ReportFile :=
  poll;;
  file ← open_file name;
  '(size, mtime) ← lift (hd_before file);
  lift (reject_if (bool_decide (hd_id file ∈ seen)) errDuplicateReport);;
  lift (reject_if ((limit <=? 0) || (limit <? size)) ErrLimit);;
  data ← lift (copy_file (limit + 1) (hd_data file));
  poll;;
  lift (reject_if (limit <? zlen data) ErrLimit);;
  '(size', mtime') ← lift (hd_after file);
  lift (reject_if (negb (size =? size') || negb (mtime =? mtime') || negb (zlen data =? size')) ErrChanged);;
  poll;;
  mret (mkFile name data mtime' (hd_id file)).

(** The loop over the named files; [total] bytes have been taken. *)
Fixpoint collect_explicit (options : ResultOptions) (names : list string) (total : Z) : CM () :=
  match names with
  | [] => mret ()
  | name :: names =>
      poll;;
      seen ← gets (λ st, k_ids st.2);
      r ← attempt (readDistinct name (Z.min (ro_ExplicitMaxBytes options) (ro_ExplicitTotalBytes options - total)) seen);
      match r with
      | Err e =>
          poll;;
          (if bool_decide (e = ErrLimit) || bool_decide (e = ErrChanged)
           then modify (λ st, (st.1, add_warnings [mkWarning name (error_message e)] st.2)) else mret ());;
          collect_explicit options names total
      | Ok file =>
          modify (λ st, (st.1, add_file file st.2));;
          collect_explicit options names (total + zlen (f_Data file))
      end
  end.

(** The loop over the candidates; [count] files and [total] bytes have been
    taken. *)
Fixpoint collect_auto (options : ResultOptions) (cs : list candidate) (count total : Z) : CM () :=
  match cs with
  | [] => mret ()
  | c :: cs =>
      if AutoMaxFiles <=? count then mret ()
      else
        poll;;
        seen ← gets (λ st, k_ids st.2);
        r ← attempt (readDistinct (c_name c) AutoMaxFileBytes seen);
        match r with
        | Err e =>
            poll;;
            (if bool_decide (e = ErrLimit) then modify (λ st, (st.1, add_warnings [limit_warning (c_name c)] st.2))
             else if bool_decide (e = ErrChanged)
             then modify (λ st, (st.1, add_warnings [mkWarning (c_name c) (error_message e)] st.2)) else mret ());;
            collect_auto options cs count total
        | Ok file =>
            if old (ro_After options) (f_ModTime file) || negb (is_report (f_Data file)) then collect_auto options cs count total
            else if AutoMaxTotalBytes <? total + zlen (f_Data file) then
              modify (λ st, (st.1, add_warnings [aggregate_warning (c_name c)] st.2));;
              collect_auto options cs count total
            else
              modify (λ st, (st.1, add_file file st.2));;
              collect_auto options cs (count + 1) (total + zlen (f_Data file))
        end
  end.

Definition discover (options : ResultOptions) : CM (list candidate) := λ st,
  let '(cs, ws, e, t) :=
    resultCandidates containsJUnitFailure ctx (ro_After options) (k_ids st.2) (workspace st.1) (S st.1) in
  (match e with Some x => Err x | None => Ok cs end, (t, add_warnings ws st.2)).

Definition CollectResults (options : ResultOptions) : CM () :=
  poll;;
  ensure (negb (((ro_ExplicitMaxBytes options <? 1) || (ro_ExplicitTotalBytes options <? 1)) &&
                negb (bool_decide (ro_Paths options = []))))
    (Msg "explicit result byte limits must be positive");;
  collect_explicit options (ro_Paths options) 0;;
  if negb (ro_Auto options) then poll
  else
    cs ← discover options;
    collect_auto options (merge_sort before cs) 0 0;;
    poll.

(** A file as it was read: found under its path, within a limit. *)
Definition read_from (f : ReportFile) : Prop := ∃ t h, openRegular t (f_Path f) = Ok h ∧ hd_id h = f_id f.

(** Polls and reads do not touch the result. *)
Definition same_result (a b : nat * collected) : Prop := b.2 = a.2.

#[local] Instance same_result_preorder : PreOrder same_result.
Proof. split; [done|]. unfold same_result. intros a b c. congruence. Qed.
Lemma poll_keeps : keeps same_result poll.
Proof. by intros st. Qed.
Lemma open_file_keeps name : keeps same_result (open_file name).
Proof. by intros st. Qed.
Hint Resolve poll_keeps open_file_keeps : crab.

Lemma readDistinct_keeps name limit seen : keeps same_result (readDistinct name limit seen).
Proof. unfold readDistinct. keeps_steps. Qed.
Hint Resolve readDistinct_keeps : crab.

Lemma lift_ok {S A} (r : res A) (s s' : S) a : lift r s = (Ok a, s') → r = Ok a ∧ s' = s.
Proof. unfold lift. by intros [= -> ->]. Qed.

Lemma readDistinct_ok name limit seen st f st' : readDistinct name limit seen st = (Ok f, st') →
  f_Path f = name ∧ zlen (f_Data f) ≤ limit ∧ f_id f ∉ seen ∧ read_from f.
Proof.
  unfold readDistinct. intros H.
  apply M_bind_ok in H as ([] & s1 & _ & H). apply M_bind_ok in H as (h & s2 & HO & H).
  apply M_bind_ok in H as ([size mtime] & s3 & _ & H). apply M_bind_ok in H as ([] & s4 & [HS _]%lift_ok & H).
  apply M_bind_ok in H as ([] & s5 & _ & H). apply M_bind_ok in H as (data & s6 & _ & H).
  apply M_bind_ok in H as ([] & s7 & _ & H). apply M_bind_ok in H as ([] & s8 & [HL _]%lift_ok & H).
  apply M_bind_ok in H as ([size' mtime'] & s9 & _ & H). apply M_bind_ok in H as ([] & s10 & _ & H).
  apply M_bind_ok in H as ([] & s11 & _ & H). injection H as <- _. res_steps. guards.
  cbn [f_Path f_Data f_id]. split_and!; [done|lia|done|]. unfold open_file in HO. injection HO as HO _.
  by exists s1.1, h.
Qed.

(** New files, each [ok], of at most [room] bytes together, at most [n] of them,
    none of them twice. *)
Definition grows (ok : ReportFile → Prop) (room : Z) (n : nat) (k k' : collected) : Prop :=
  ∃ new, k_files k' = k_files k ++ new ∧ k_ids k' = k_ids k ++ (f_id <$> new) ∧ Forall ok new ∧
    zlen (concat (f_Data <$> new)) ≤ room ∧ (length new ≤ n)%nat ∧ (NoDup (k_ids k) → NoDup (k_ids k')).

Lemma grows_none ok room n k k' : 0 ≤ room → k_files k' = k_files k → k_ids k' = k_ids k → grows ok room n k k'.
Proof. intros Hr Hf Hi. exists []. rewrite Hf, Hi, !app_nil_r. split_and!; try done. cbn. lia. Qed.

Lemma grows_warned ok room n ws k k' : grows ok room n (add_warnings ws k) k' → grows ok room n k k'.
Proof. done. Qed.

Lemma grows_more ok room n m k k' : (n ≤ m)%nat → grows ok room n k k' → grows ok room m k k'.
Proof. intros Hn (new & ? & ? & ? & ? & ? & ?). exists new. split_and!; try done. lia. Qed.

Lemma grows_file ok room n f k k' : ok f → f_id f ∉ k_ids k →
  grows ok (room - zlen (f_Data f)) n (add_file f k) k' → grows ok room (S n) k k'.
Proof.
  intros Hok Hid (new & Hf & Hi & HF & HR & HL & HN). exists (f :: new). cbn [add_file k_files k_ids] in *.
  rewrite Hf, Hi, <-!app_assoc. cbn [fmap list_fmap concat app]. rewrite zlen_app. cbn [length].
  split_and!; [done|done|by constructor|lia|lia|]. intros Hk. rewrite Hi, <-app_assoc in HN. apply HN.
  apply NoDup_app. split_and!; [done|set_solver|apply NoDup_singleton].
Qed.

Definition explicit_ok (options : ResultOptions) (names : list string) (f : ReportFile) : Prop :=
  zlen (f_Data f) ≤ ro_ExplicitMaxBytes options ∧ f_Path f ∈ names ∧ read_from f.

Lemma grows_names options names name room n k k' :
  grows (explicit_ok options names) room n k k' → grows (explicit_ok options (name :: names)) room n k k'.
Proof.
  intros (new & ? & ? & HF & ?). exists new. split_and!; try done; [|naive_solver..].
  eapply Forall_impl; [exact HF|]. intros f (? & ? & ?). split_and!; [done|by right|done].
Qed.

(** One turn of a loop: the context, the read, and what is left to do. *)
Lemma turn_cases {A} name limit (cont : res ReportFile → CM A) st r st' :
  (poll;; seen ← gets (λ st, k_ids st.2); r ← attempt (readDistinct name limit seen); cont r) st = (r, st') →
  st'.2 = st.2 ∨
  ∃ x st1, st1.2 = st.2 ∧ cont x st1 = (r, st') ∧
    match x with
    | Ok f => f_Path f = name ∧ zlen (f_Data f) ≤ limit ∧ f_id f ∉ k_ids st.2 ∧ read_from f
    | Err _ => True
    end.
Proof.
  unfold mbind, M_bind. destruct (poll st) as [[[]|e] st1] eqn:E1;
    (assert (st1.2 = st.2) as H1 by (pose proof (poll_keeps st) as HK; by rewrite E1 in HK));
    [|intros [= <- <-]; by left].
  unfold gets, attempt. destruct (readDistinct name limit (k_ids st1.2) st1) as [x st2] eqn:E2.
  assert (st2.2 = st.2) as H2 by (pose proof (readDistinct_keeps name limit (k_ids st1.2) st1) as HK; rewrite E2 in HK; by rewrite <-H1).
  intros HC. right. exists x, st2. split_and!; [done|done|]. destruct x as [f|e]; [|done].
  apply readDistinct_ok in E2. by rewrite H1 in E2.
Qed.

Lemma collect_explicit_grows options names : ∀ total st r st', 0 ≤ ro_ExplicitTotalBytes options - total →
  collect_explicit options names total st = (r, st') →
  grows (explicit_ok options names) (ro_ExplicitTotalBytes options - total) (length names) st.2 st'.2.
Proof.
  induction names as [|name names IH]; intros total st r st' Ht H; cbn [collect_explicit] in H.
  { injection H as <- <-. by apply grows_none. }
  apply turn_cases in H as [H|(x & st1 & E1 & H & HX)]; [by apply grows_none; rewrite ?H|]. rewrite <-E1 in *.
  destruct x as [f|e].
  - destruct HX as (Hp & Hl & Hid & Hrd). apply (IH (total + zlen (f_Data f)) _ r st') in H; [|lia].
    cbn [fst snd] in H. apply (grows_file _ _ _ f); [split_and!; [lia|rewrite Hp; by left|done]|done|].
    rewrite <-(Z.sub_add_distr _ total). by apply grows_names.
  - unfold mbind, M_bind in H. destruct (poll st1) as [[[]|e'] st2] eqn:E2;
      (assert (st2.2 = st1.2) as H2 by (pose proof (poll_keeps st1) as HK; by rewrite E2 in HK));
      [|injection H as <- <-; by apply grows_none; rewrite ?H2].
    apply (grows_more _ _ (length names)); [cbn; lia|]. apply grows_names. rewrite <-H2.
    destruct (bool_decide (e = ErrLimit) || bool_decide (e = ErrChanged)); by apply IH in H.
Qed.

Definition auto_ok (options : ResultOptions) (f : ReportFile) : Prop :=
  zlen (f_Data f) ≤ AutoMaxFileBytes ∧ is_report (f_Data f) = true ∧
  old (ro_After options) (f_ModTime f) = false ∧ read_from f.

Lemma collect_auto_grows options cs : ∀ count total st r st', total ≤ AutoMaxTotalBytes →
  collect_auto options cs count total st = (r, st') →
  grows (auto_ok options) (AutoMaxTotalBytes - total) (Z.to_nat (AutoMaxFiles - count)) st.2 st'.2.
Proof.
  induction cs as [|c cs IH]; intros count total st r st' Ht H; cbn [collect_auto] in H.
  { injection H as <- <-. apply grows_none; [lia|done|done]. }
  destruct (Z.leb_spec AutoMaxFiles count) as [Hc|Hc]; [injection H as <- <-; apply grows_none; [lia|done|done]|].
  apply turn_cases in H as [H|(x & st1 & E1 & H & HX)]; [apply grows_none; rewrite ?H; done || lia|]. rewrite <-E1 in *.
  destruct x as [f|e].
  - destruct HX as (Hp & Hl & Hid & Hrd). destruct (old _ _ || negb _) eqn:Eo; [by apply IH in H|].
    destruct (Z.ltb_spec AutoMaxTotalBytes (total + zlen (f_Data f))).
    + apply (IH count total _ r st') in H; [|done]. exact H.
    + apply (IH (count + 1) (total + zlen (f_Data f)) _ r st') in H; [|done]. cbn [fst snd] in H. guards.
      replace (Z.to_nat (AutoMaxFiles - count)) with (S (Z.to_nat (AutoMaxFiles - (count + 1)))) by lia.
      apply (grows_file _ _ _ f); [done|done|]. by rewrite <-(Z.sub_add_distr _ total).
  - unfold mbind, M_bind in H. destruct (poll st1) as [[[]|e'] st2] eqn:E2;
      (assert (st2.2 = st1.2) as H2 by (pose proof (poll_keeps st1) as HK; by rewrite E2 in HK));
      [|injection H as <- <-; apply grows_none; rewrite ?H2; done || lia].
    rewrite <-H2. destruct (bool_decide (e = ErrLimit)); [by apply IH in H|].
    destruct (bool_decide (e = ErrChanged)); by apply IH in H.
Qed.

(** What [CollectResults] returns, whether or not it returns an error. *)
Definition collected_ok (options : ResultOptions) (k : collected) : Prop :=
  ∃ explicit auto, k_files k = explicit ++ auto ∧ k_ids k = f_id <$> k_files k ∧ NoDup (k_ids k) ∧
    Forall (explicit_ok options (ro_Paths options)) explicit ∧ (length explicit ≤ length (ro_Paths options))%nat ∧
    zlen (concat (f_Data <$> explicit)) ≤ Z.max 0 (ro_ExplicitTotalBytes options) ∧
    Forall (auto_ok options) auto ∧ zlen auto ≤ AutoMaxFiles ∧
    zlen (concat (f_Data <$> auto)) ≤ AutoMaxTotalBytes.

Definition nothing : collected := mkCollected [] [] [].

Lemma collected_ok_intro options k1 k2 :
  grows (explicit_ok options (ro_Paths options)) (Z.max 0 (ro_ExplicitTotalBytes options)) (length (ro_Paths options)) nothing k1 →
  grows (auto_ok options) AutoMaxTotalBytes (Z.to_nat AutoMaxFiles) k1 k2 → collected_ok options k2.
Proof.
  intros (ex & F1 & I1 & O1 & R1 & L1 & N1) (au & F2 & I2 & O2 & R2 & L2 & N2). exists ex, au.
  cbn [nothing k_files k_ids app] in *. rewrite F2, I2, F1, I1, fmap_app in *.
  split_and!; try done; [apply N2, N1; constructor|]. unfold zlen, AutoMaxFiles in *. lia.
Qed.

Lemma CollectResults_ok options t r st' : CollectResults options (t, nothing) = (r, st') → collected_ok options st'.2.
Proof.
  assert (∀ k, grows (auto_ok options) AutoMaxTotalBytes (Z.to_nat AutoMaxFiles) k k) as Hrefl by (intros; by apply grows_none).
  assert (∀ k, k_files k = [] → k_ids k = [] → collected_ok options k) as Hnone.
  { intros k Hf Hi. apply (collected_ok_intro _ k k); [|done]. apply grows_none; [lia|done|done]. }
  unfold CollectResults, mbind, M_bind, ensure. destruct (poll (t, nothing)) as [[[]|e] st1] eqn:E1;
    (assert (st1.2 = nothing) as H1 by (pose proof (poll_keeps (t, nothing)) as HK; by rewrite E1 in HK));
    [|intros [= <- <-]; by apply Hnone; rewrite H1].
  destruct (negb (_ && _)) eqn:Eg; [|intros [= <- <-]; by apply Hnone; rewrite H1]. unfold mret, M_ret.
  destruct (collect_explicit options (ro_Paths options) 0 st1) as [r2 st2] eqn:E2.
  assert (grows (explicit_ok options (ro_Paths options)) (Z.max 0 (ro_ExplicitTotalBytes options)) (length (ro_Paths options)) nothing st2.2) as G1.
  { rewrite <-H1. destruct (decide (ro_Paths options = [])) as [Ep|Ep].
    - rewrite Ep in E2 |- *. injection E2 as <- <-. apply grows_none; [lia|done|done].
    - rewrite (bool_decide_eq_false_2 _ Ep) in Eg. cbn [negb] in Eg. rewrite andb_true_r in Eg. guards.
      apply collect_explicit_grows in E2; [|lia]. rewrite Z.sub_0_r in E2. by rewrite Z.max_r by lia. }
  destruct r2 as [[]|e]; [|intros [= <- <-]; by apply (collected_ok_intro _ st2.2)].
  destruct (ro_Auto options); cbn [negb]; [|intros [= _ <-]; by apply (collected_ok_intro _ st2.2)].
  destruct (discover options st2) as [r3 st3] eqn:E3.
  assert (grows (explicit_ok options (ro_Paths options)) (Z.max 0 (ro_ExplicitTotalBytes options)) (length (ro_Paths options)) nothing st3.2) as G3.
  { unfold discover in E3. destruct (resultCandidates _ _ _ _ _ _) as [[[cs ws] e] t']. injection E3 as <- <-. exact G1. }
  destruct r3 as [cs|e]; [|intros [= <- <-]; by apply (collected_ok_intro _ st3.2)].
  destruct (collect_auto options (merge_sort before cs) 0 0 st3) as [r4 st4] eqn:E4.
  apply collect_auto_grows in E4; [|done]. rewrite !Z.sub_0_r in E4.
  destruct r4 as [[]|e]; intros [= _ <-]; by apply (collected_ok_intro _ st3.2).
Qed.
End Collecting.

(** ** What is collected can be sent *)

(** The options and the file frames of [serveResults]. *)
Definition serve_options (paths : list string) (auto : bool) (after : option Z) : ResultOptions :=
  mkOptions paths auto after ExplicitMaxFileBytes ExplicitMaxTotalBytes.
Definition sent_file (f : ReportFile) : FileInfo * list Z :=
  (mkFileInfo (f_Path f) (f_ModTime f) false (mkArchiveSource "" false), f_Data f).

Lemma NoDup_paths files : NoDup (f_id <$> files) →
  (∀ f g, f ∈ files → g ∈ files → f_Path f = f_Path g → f_id f = f_id g) → NoDup (f_Path <$> files).
Proof.
  induction files as [|f files IH]; cbn; [constructor|]. intros [Hf Hn]%NoDup_cons HD. constructor.
  - intros (g & Hp & Hg)%list_elem_of_fmap. apply Hf, list_elem_of_fmap. exists g. split; [|done].
    apply HD; [by left|by right|done].
  - apply IH; [done|]. intros a b Ha Hb. apply HD; by right.
Qed.

(** A path keeps naming the same file, and the empty path names none. *)
Definition steady_paths (openRegular : nat → string → res handle) : Prop :=
  (∀ t, ∃ e, openRegular t ""%string = Err e) ∧
  (∀ t1 t2 name h1 h2, openRegular t1 name = Ok h1 → openRegular t2 name = Ok h2 → hd_id h1 = hd_id h2).

Lemma collected_frames openRegular paths auto after k : collected_ok openRegular (serve_options paths auto after) k →
  Forall (λ f, zlen (f_Data f) ≤ max_body Collect ∧ read_from openRegular f) (k_files k).
Proof.
  intros (ex & au & EF & _ & _ & Oex & _ & _ & Oau & _). rewrite EF.
  apply Forall_app. split; (eapply Forall_impl; [eassumption|]); intros f.
  - intros (H1 & _ & H3). split; [exact H1|done].
  - intros (H1 & _ & _ & H3). split; [|done]. etrans; [exact H1|done].
Qed.

Lemma collected_fit openRegular paths auto after k : zlen paths ≤ ExplicitMaxFiles → steady_paths openRegular →
  collected_ok openRegular (serve_options paths auto after) k → files_ok Collect (sent_file <$> k_files k).
Proof.
  intros Hp [Hempty Hstable] HR. pose proof (collected_frames _ _ _ _ _ HR) as HF.
  destruct HR as (ex & au & EF & EI & HN & Oex & Lex & Sex & Oau & Lau & Sau).
  unfold files_ok. rewrite bool_decide_eq_false_2, bool_decide_eq_true_2 by done. split_and!.
  - apply Forall_fmap. eapply Forall_impl; [exact HF|]. intros f [_ (t0 & h & Ho & _)]. split; [done|]. cbn.
    intros E. rewrite E in Ho. destruct (Hempty t0) as [e He]. congruence.
  - rewrite <-list_fmap_compose. rewrite EI in HN. apply (NoDup_paths _ HN). intros f g Hf Hg E.
    rewrite Forall_forall in HF. destruct (HF f Hf) as [_ (t1 & h1 & O1 & <-)], (HF g Hg) as [_ (t2 & h2 & O2 & <-)].
    rewrite <-E in O2. by eapply Hstable.
  - unfold zlen in *. rewrite length_fmap, EF, length_app. cbn [ro_Paths serve_options] in Lex. lia.
  - assert ((sent_file <$> k_files k).*2 = f_Data <$> k_files k) as ->.
    { rewrite <-list_fmap_compose. by apply list_fmap_ext. }
    rewrite EF, fmap_app, concat_app, zlen_app. cbn [ro_ExplicitTotalBytes serve_options] in Sex. unfold ExplicitMaxTotalBytes in *. lia.
Qed.

(** C19. Whatever the file system and the context do, also when files are
    replaced while they are collected, the files [CollectResults] returns are at
    most one for each named path and fifty discovered ones, within the byte
    limits of each group, no file twice, each small enough for a frame.  When no
    more paths are named than a request may hold, each path keeps naming the same
    file and the empty path names none, the other end accepts them: they are
    files that a response to [Collect] may hold. *)
Theorem collected_files_fit containsJUnitFailure ctx openRegular workspace paths auto after t r t' k :
  CollectResults containsJUnitFailure ctx openRegular workspace (serve_options paths auto after) (t, nothing) = (r, (t', k)) →
  collected_ok openRegular (serve_options paths auto after) k ∧
  Forall (λ f, zlen (f_Data f) ≤ max_body Collect) (k_files k) ∧
  (zlen paths ≤ ExplicitMaxFiles → steady_paths openRegular → files_ok Collect (sent_file <$> k_files k)).
Proof.
  intros HR%CollectResults_ok. cbn [snd] in HR. split_and!; [done| |intros Hp Hs; by eapply collected_fit].
  eapply Forall_impl; [by eapply collected_frames|]. by intros f [].
Qed.

(** ** Examples *)

Definition ex_report (id : Z) : option (finfo * option (list Z)) :=
  Some (mkInfo id 20 5, Some (to_bytes "<testsuite><failure/>")).
Definition ex_passing (id : Z) : option (finfo * option (list Z)) := Some (mkInfo id 20 5, Some (to_bytes "<testsuite>")).
Definition ex_workspace (e : error) : directory node :=
  Batch
    [Folder ".git" (Some (Last [Item "junit-x.xml" true (ex_report 9)] EOF));
     Folder "out" (Some (Last [Item "results.xml" true (ex_report 1); Item "junit-2.xml" true (ex_passing 2)] e))]
    (Last [Item "TEST-a.xml" true (ex_report 1); Item "notes.txt" true (ex_report 3)] EOF).
Definition ex_failure (data : list Z) : bool := bytes_contain (to_bytes "<failure") data.

(** A directory that cannot be read to its end hides what comes after it, and
    discovery fails. *)
Example unreadable_directory_ends_walk :
  (resultCandidates ex_failure (λ _, None) None [] (Some (ex_workspace (Msg "input/output error"))) 0).1 =
  ([mkCandidate "out/results.xml" true 1; mkCandidate "out/junit-2.xml" false 2], [], Some (Msg "input/output error")).
Proof. vm_compute. reflexivity. Qed.


Definition ex_open (t : nat) (name : string) : res handle :=
  if bool_decide (name = "a.xml"%string) then Ok (mkHandle 1 (Ok (3, 7)) (Chunked [[60]; [97; 62]] EOF true) (Ok (3, 7)))
  else if bool_decide (name = "b.xml"%string) then Ok (mkHandle 2 (Ok (9, 7)) (Chunked [[60]] EOF true) (Ok (9, 7)))
  else Err (Msg "not found").

Lemma collected_files_fit_witness :
  let k := mkCollected [mkFile "a.xml" [60; 97; 62] 7 1] [mkWarning "b.xml" (error_message ErrChanged)] [1] in
  collected_ok ex_open (serve_options ["a.xml"; "b.xml"; "a.xml"]%string true None) k ∧
  Forall (λ f, zlen (f_Data f) ≤ max_body Collect) (k_files k) ∧
  files_ok Collect (sent_file <$> k_files k).
Proof.
  intros k.
  destruct (collected_files_fit ex_failure (λ _, None) ex_open (λ _, Some (Last [] EOF)) ["a.xml"; "b.xml"; "a.xml"]%string true None
    0 (Ok ()) 18 k) as (H1 & H2 & H3); [vm_compute; reflexivity|].
  split_and!; [done|done|]. apply H3; [done|]. split; [intros t; by eexists|].
  intros t1 t2 name h1 h2. unfold ex_open. repeat case_bool_decide; by intros [= <-] [= <-].
Defined.

(** A file that is replaced between the two rounds is another file under the same
    path: both are returned, and the other end refuses the response for it. *)
Definition ex_replaced (t : nat) (name : string) : res handle :=
  if bool_decide (name = "TEST-a.xml"%string) then
    Ok (mkHandle (if (t <? 5)%nat then 1 else 2) (Ok (11, 7)) (Chunked [to_bytes "<testsuite>"] EOF true) (Ok (11, 7)))
  else Err (Msg "not found").
Example replaced_file_sent_twice :
  f_Path <$> k_files (CollectResults ex_failure (λ _, None) ex_replaced (λ _, Some (Last [Item "TEST-a.xml" true (ex_passing 2)] EOF))
    (serve_options ["TEST-a.xml"]%string true None) (0%nat, nothing)).2.2 = ["TEST-a.xml"; "TEST-a.xml"]%string.
Proof. vm_compute. reflexivity. Qed.
