(* ===== verification/Sha256.v ===== *)
(** * SHA-256 ([crypto/sha256])

    The digest the program derives names, scopes and fingerprints from,
    executable on bytes. *)

From Stdlib Require Import ZArith Lia.
From stdpp Require Import gmap strings prelude.
From S2P Require Import Prelude GoText.
Local Open Scope Z_scope.

Definition w32 (x : Z) : Z := x mod 2 ^ 32.
Definition rotr (n x : Z) : Z := Z.lor (Z.shiftr x n) (w32 (Z.shiftl x (32 - n))).

(** The constants, from their definition: the first 32 bits of the fractional
    parts of the cube roots (round constants) and square roots (initial state)
    of the first primes. *)
Definition primes_below (n : nat) : list Z :=
  foldl (λ ps c, if existsb (λ p, c mod p =? 0) ps then ps else (ps ++ [c])%list) []
    (Z.of_nat <$> seq 2 (n - 2)).

(** The largest [r] with [r ^ 3 <= x], one bit at a time from bit [n]. *)
Fixpoint cube_root (n : nat) (r x : Z) : Z :=
  let r' := r + 2 ^ Z.of_nat n in
  let r := if r' ^ 3 <=? x then r' else r in
  match n with O => r | S n => cube_root n r x end.

Definition sha_k : list Z := Eval vm_compute in
  (λ p, w32 (cube_root 40 0 (p * 2 ^ 96))) <$> take 64 (primes_below 312).
Definition sha_h0 : list Z := Eval vm_compute in
  (λ p, w32 (Z.sqrt (p * 2 ^ 64))) <$> take 8 (primes_below 312).

Definition be32 (bs : list Z) : Z := foldl (λ acc b, acc * 256 + b) 0 bs.
Definition be_bytes (n : nat) (x : Z) : list Z :=
  (λ i, (Z.shiftr x (8 * Z.of_nat (n - 1 - i))) mod 256) <$> seq 0 n.

(** Padding to a multiple of 64 bytes. *)
Definition sha_pad (bs : list Z) : list Z :=
  let n := length bs in
  bs ++ 0x80 :: replicate (Z.to_nat ((55 - Z.of_nat n) mod 64)) 0
     ++ be_bytes 8 (8 * Z.of_nat n).

Fixpoint chunks {A} (fuel n : nat) (l : list A) : list (list A) :=
  match fuel, l with
  | S fuel, _ :: _ => take n l :: chunks fuel n (drop n l)
  | _, _ => []
  end.

(** The message schedule, extended one word at a time; the window holds the
    last sixteen words, oldest first. *)
Fixpoint sha_schedule (fuel : nat) (window : list Z) : list Z :=
  match fuel, window with
  | S fuel, w0 :: rest =>
      let w1 := nth 0 rest 0 in let w9 := nth 8 rest 0 in let w14 := nth 13 rest 0 in
      let s0 := Z.lxor (rotr 7 w1) (Z.lxor (rotr 18 w1) (Z.shiftr w1 3)) in
      let s1 := Z.lxor (rotr 17 w14) (Z.lxor (rotr 19 w14) (Z.shiftr w14 10)) in
      w0 :: sha_schedule fuel (rest ++ [w32 (w0 + s0 + w9 + s1)])
  | _, _ => []
  end.

Definition sha_round (st : list Z) (kw : Z * Z) : list Z :=
  match st with
  | [a; b; c; d; e; f; g; h] =>
      let s1 := Z.lxor (rotr 6 e) (Z.lxor (rotr 11 e) (rotr 25 e)) in
      let ch := Z.lxor (Z.land e f) (Z.land (Z.lxor e 0xFFFFFFFF) g) in
      let t1 := w32 (h + s1 + ch + kw.1 + kw.2) in
      let s0 := Z.lxor (rotr 2 a) (Z.lxor (rotr 13 a) (rotr 22 a)) in
      let maj := Z.lxor (Z.land a b) (Z.lxor (Z.land a c) (Z.land b c)) in
      [w32 (t1 + s0 + maj); a; b; c; w32 (d + t1); e; f; g]
  | _ => st
  end.

Definition sha_block (st : list Z) (block : list Z) : list Z :=
  let ws := sha_schedule 64 (be32 <$> chunks 16 4 block) in
  zip_with (λ x y, w32 (x + y)) st (foldl sha_round st (zip sha_k ws)).

Definition sha256_bytes (bs : list Z) : list Z :=
  let padded := sha_pad bs in
  concat (be_bytes 4 <$> foldl sha_block sha_h0 (chunks (length padded) 64 padded)).

(** [sha256.Sum256([]byte(s))] *)
Definition sha256 (s : string) : list Z := sha256_bytes (to_bytes s).

(** The two one-block and two-block test vectors of FIPS 180-4. *)
Example sha256_abc :
  hex_of_bytes (sha256 "abc")
  = "ba7816bf8f01cfea414140de5dae2223b00361a396177a9cb410ff61f20015ad"%string.
Proof. vm_compute. reflexivity. Qed.

Example sha256_two_blocks :
  hex_of_bytes (sha256 "abcdbcdecdefdefgefghfghighijhijkijkljklmklmnlmnomnopnopq")
  = "248d6a61d20638b8e5c026930c3e6039a33ce45964ff2167f6ecedd419db06c1"%string.
Proof. vm_compute. reflexivity. Qed.

(** A digest has 32 bytes. *)
Lemma length_be_bytes n x : length (be_bytes n x) = n.
Proof. unfold be_bytes. by rewrite length_fmap, length_seq. Qed.

Lemma be_bytes_range n x : Forall (λ b, 0 ≤ b < 256) (be_bytes n x).
Proof.
  unfold be_bytes. apply Forall_fmap, Forall_forall. intros i _.
  by apply Z.mod_pos_bound.
Qed.

Lemma length_sha_round st kw : length (sha_round st kw) = length st.
Proof. unfold sha_round. by repeat case_match. Qed.

Lemma length_sha_block st block : length (sha_block st block) = length st.
Proof.
  unfold sha_block. rewrite length_zip_with.
  assert (∀ kws, length (foldl sha_round st kws) = length st) as ->; [|lia].
  intros kws. induction kws as [|kw kws IH] using rev_ind; [done|].
  by rewrite foldl_snoc, length_sha_round.
Qed.

Lemma length_sha256 s : length (sha256 s) = 32%nat.
Proof.
  unfold sha256, sha256_bytes.
  assert (∀ blocks, length (foldl sha_block sha_h0 blocks) = 8%nat) as H.
  { intros blocks. induction blocks as [|b blocks IH] using rev_ind; [done|].
    by rewrite foldl_snoc, length_sha_block. }
  generalize (H (chunks (length (sha_pad (to_bytes s))) 64 (sha_pad (to_bytes s)))).
  generalize (foldl sha_block sha_h0
    (chunks (length (sha_pad (to_bytes s))) 64 (sha_pad (to_bytes s)))).
  intros l Hl. do 9 (destruct l as [|? l]; [done || by cbn in Hl|]). done.
Qed.

Lemma sha256_range s : Forall (λ b, 0 ≤ b < 256) (sha256 s).
Proof.
  unfold sha256, sha256_bytes. apply Forall_concat, Forall_fmap, Forall_forall.
  intros w _. apply be_bytes_range.
Qed.
