(* ===== verification/Buffers.v ===== *)
(** * Bounded output buffers

    [internal/tailbuffer/buffer.go] and [internal/prefixbuffer/buffer.go]:
    writers that acknowledge all input and retain only its last, or first,
    [limit] bytes.  A Go slice is a list, an [int] a [Z] (lengths are bounded
    by memory, so no operation here can overflow), and an index out of range
    is [None], which the invariants exclude. *)

From Stdlib Require Import ZArith Lia.
From stdpp Require Import gmap strings prelude.
From S2P Require Import Prelude.
Local Open Scope Z_scope.

Module TailBuffer.
Section tail.
Context {A : Type}.

Record Buffer := mkBuffer { data : list A; limit : Z; exceeded : bool }.

Definition NewLimited (maxBytes : Z) : Buffer :=
  mkBuffer [] (Z.max 0 maxBytes) false.

(** [Write]: the returned count, and the buffer after the write. *)
Definition Write (b : Buffer) (p : list A) : option (Z * Buffer) :=
  let n := zlen p in
  if limit b =? 0 then
    Some (n, mkBuffer (data b) (limit b) (exceeded b || (n >? 0)))
  else if n >=? limit b then
    tail ← slice_from p (n - limit b);
    Some (n, mkBuffer tail (limit b)
               (exceeded b || (zlen (data b) >? 0) || (n >? limit b)))
  else
    let overflow := n - (limit b - zlen (data b)) in
    if overflow >? 0 then
      kept ← slice_from (data b) overflow;
      Some (n, mkBuffer (kept ++ p) (limit b) true)
    else
      Some (n, mkBuffer (data b ++ p) (limit b) (exceeded b)).

Definition Bytes (b : Buffer) : list A := data b.
Definition Exceeded (b : Buffer) : bool := exceeded b.

Fixpoint WriteAll (b : Buffer) (ps : list (list A)) : option Buffer :=
  match ps with
  | [] => Some b
  | p :: ps => '(_, b') ← Write b p; WriteAll b' ps
  end.

(** The state reached after the inputs [ps]: the retained bytes are the last
    [limit] bytes of everything written, and [exceeded] records whether
    something was discarded. *)
Definition retains (b : Buffer) (input : list A) : Prop :=
  0 ≤ limit b ∧
  data b = lastn (Z.to_nat (limit b)) input ∧
  exceeded b = (zlen input >? limit b).

Lemma retains_new maxBytes : retains (NewLimited maxBytes) [].
Proof.
  unfold retains, NewLimited; change (zlen (@nil A)) with 0; cbn [data limit exceeded].
  split; [lia|split; [done|lia]].
Qed.

Lemma retains_length b input :
  retains b input → zlen (data b) = Z.min (limit b) (zlen input).
Proof.
  intros (H0 & -> & _). unfold zlen. rewrite length_lastn. lia.
Qed.

Lemma lastn_0 (l : list A) : lastn 0 l = [].
Proof. unfold lastn. rewrite Nat.sub_0_r. apply drop_all. Qed.

Lemma Write_retains b input p :
  retains b input →
  ∃ b', Write b p = Some (zlen p, b') ∧ limit b' = limit b ∧ retains b' (input ++ p).
Proof.
  intros Hr. pose proof (retains_length _ _ Hr) as Hlen.
  destruct Hr as (H0 & Hd & He).
  pose proof (zlen_nonneg p). pose proof (zlen_nonneg input).
  unfold Write, retains. rewrite zlen_app.
  destruct (Z.eqb_spec (limit b) 0) as [Hz|Hz].
  { eexists. split; [done|]. cbn. split; [done|]. split; [done|]. split.
    - rewrite Hd, Hz. change (Z.to_nat 0) with O. by rewrite !lastn_0.
    - rewrite He, Hz. destruct (zlen input >? 0) eqn:?, (zlen p >? 0) eqn:?; lia. }
  destruct (zlen p >=? limit b) eqn:Hge.
  { rewrite slice_from_Some by lia. eexists. split; [done|]. cbn.
    split; [done|]. split; [done|]. split.
    - rewrite lastn_app_ge by (unfold zlen in *; lia). unfold lastn, zlen in *.
      f_equal. lia.
    - rewrite He, Hlen. lia. }
  destruct (zlen p - (limit b - zlen (data b)) >? 0) eqn:Hov.
  - rewrite slice_from_Some by lia. eexists. split; [done|]. cbn.
    split; [done|]. split; [done|]. split; [|lia].
    rewrite lastn_app_lt by (unfold zlen in *; lia). f_equal.
    rewrite Hlen, Hd. unfold lastn, zlen in *. rewrite drop_drop. f_equal. lia.
  - eexists. split; [done|]. cbn. split; [done|]. split; [done|]. split.
    + rewrite lastn_app_lt, Hd by (unfold zlen in *; lia). f_equal.
      destruct (decide (p = [])) as [->|Hp].
      { by rewrite Nat.sub_0_r. }
      apply nil_length_pos in Hp.
      rewrite !lastn_all; [done|..]; unfold zlen in *; lia.
    + rewrite He. unfold zlen in *. lia.
Qed.

(** Over any sequence of writes to a fresh limited tail buffer: no write
    panics, the retained bytes are exactly the last [max 0 maxBytes] bytes of
    the concatenated input, and [Exceeded] is true exactly when some input
    byte has been discarded. *)
Theorem tail_buffer_correct maxBytes (ps : list (list A)) :
  ∃ b, WriteAll (NewLimited maxBytes) ps = Some b ∧
       Bytes b = lastn (Z.to_nat (Z.max 0 maxBytes)) (concat ps) ∧
       Exceeded b = (zlen (concat ps) >? Z.max 0 maxBytes).
Proof.
  cut (∀ b input, retains b input →
         ∃ b', WriteAll b ps = Some b' ∧ limit b' = limit b ∧ retains b' (input ++ concat ps)).
  { intros H. destruct (H _ _ (retains_new maxBytes)) as (b & Hb & Hl & _ & Hd & He).
    exists b. split; [done|]. unfold Bytes, Exceeded. rewrite Hd, He, Hl. done. }
  induction ps as [|p ps IH]; intros b input Hr; cbn.
  { exists b. by rewrite app_nil_r. }
  destruct (Write_retains b input p Hr) as (b1 & -> & Hl1 & Hr1). cbn.
  destruct (IH _ _ Hr1) as (b2 & Hw & Hl2 & Hr2).
  exists b2. rewrite <-app_assoc in Hr2. rewrite Hl2, Hl1. done.
Qed.

End tail.
End TailBuffer.

Module PrefixBuffer.
Section prefix.
Context {A : Type}.

(** [buffer] is the content of the embedded [bytes.Buffer]. *)
Record Buffer := mkBuffer {
  buffer : list A; limit : Z; unlimited : bool; exceeded : bool }.

Definition NewLimited (maxBytes : Z) : Buffer :=
  let maxBytes := if maxBytes <? 0 then 0 else maxBytes in
  mkBuffer [] maxBytes false false.

Definition NewUnlimited : Buffer := mkBuffer [] 0 true false.

Definition Write (b : Buffer) (p : list A) : option (Z * Buffer) :=
  if unlimited b then
    Some (zlen p, mkBuffer (buffer b ++ p) (limit b) (unlimited b) (exceeded b))
  else
    let original := zlen p in
    let remaining := limit b - zlen (buffer b) in
    if zlen p >? remaining then
      p' ← slice_to p remaining;
      Some (original, mkBuffer (buffer b ++ p') (limit b) (unlimited b) true)
    else
      Some (original, mkBuffer (buffer b ++ p) (limit b) (unlimited b) (exceeded b)).

Definition Bytes (b : Buffer) : list A := buffer b.
Definition Exceeded (b : Buffer) : bool := exceeded b.

Fixpoint WriteAll (b : Buffer) (ps : list (list A)) : option Buffer :=
  match ps with
  | [] => Some b
  | p :: ps => '(_, b') ← Write b p; WriteAll b' ps
  end.

Definition retains (b : Buffer) (input : list A) : Prop :=
  0 ≤ limit b ∧
  (if unlimited b then buffer b = input ∧ exceeded b = false
   else buffer b = take (Z.to_nat (limit b)) input ∧ exceeded b = (zlen input >? limit b)).

Lemma Write_prefix b input p :
  retains b input →
  ∃ b', Write b p = Some (zlen p, b') ∧ limit b' = limit b ∧
        unlimited b' = unlimited b ∧ retains b' (input ++ p).
Proof.
  intros (H0 & Hr). unfold Write, retains.
  pose proof (zlen_nonneg p). pose proof (zlen_nonneg input).
  destruct (unlimited b) eqn:Hu.
  { destruct Hr as [-> ->]. eexists. split; [done|]. cbn. rewrite ?Hu. done. }
  destruct Hr as [Hd He].
  assert (zlen (buffer b) = Z.min (limit b) (zlen input)) as Hlen.
  { rewrite Hd. unfold zlen. rewrite length_take. lia. }
  rewrite zlen_app.
  destruct (zlen p >? limit b - zlen (buffer b)) eqn:Hgt.
  - rewrite slice_to_Some by lia. eexists. split; [done|]. cbn. rewrite ?Hu.
    do 3 (split; [done|]). split; [|lia].
    rewrite Hlen, Hd, take_app. f_equal. f_equal. unfold zlen in *. lia.
  - eexists. split; [done|]. cbn. rewrite ?Hu. do 3 (split; [done|]). split; [|rewrite He; lia].
    destruct (decide (p = [])) as [->|Hp]; [by rewrite !app_nil_r|].
    apply nil_length_pos in Hp.
    rewrite (take_ge (_ ++ _)), Hd, take_ge; [done| |].
    all: rewrite ?length_app; unfold zlen in *; lia.
Qed.

Lemma WriteAll_retains ps : ∀ b input, retains b input →
  ∃ b', WriteAll b ps = Some b' ∧ limit b' = limit b ∧
        unlimited b' = unlimited b ∧ retains b' (input ++ concat ps).
Proof.
  induction ps as [|p ps IH]; intros b input Hr; cbn.
  { exists b. by rewrite app_nil_r. }
  destruct (Write_prefix b input p Hr) as (b1 & -> & Hl1 & Hu1 & Hr1). cbn.
  destruct (IH _ _ Hr1) as (b2 & Hw & Hl2 & Hu2 & Hr2).
  exists b2. rewrite <-app_assoc in Hr2. rewrite Hl2, Hl1, Hu2, Hu1. done.
Qed.

(** Over any sequence of writes a limited prefix buffer never panics and
    holds exactly the first [max 0 maxBytes] input bytes, with [Exceeded] true
    exactly when input was discarded; an unlimited one holds all of it. *)
Theorem prefix_buffer_correct maxBytes (ps : list (list A)) :
  (∃ b, WriteAll (NewLimited maxBytes) ps = Some b ∧
        Bytes b = take (Z.to_nat (Z.max 0 maxBytes)) (concat ps) ∧
        Exceeded b = (zlen (concat ps) >? Z.max 0 maxBytes)) ∧
  (∃ b, WriteAll NewUnlimited ps = Some b ∧ Bytes b = concat ps ∧ Exceeded b = false).
Proof.
  split.
  - destruct (WriteAll_retains ps (NewLimited maxBytes) []) as (b & Hb & Hl & Hu & _ & Hr).
    { unfold retains, NewLimited; cbn [buffer limit unlimited exceeded].
      change (zlen (@nil A)) with 0. rewrite take_nil. destruct (Z.ltb_spec maxBytes 0); split_and!; done || lia. }
    exists b. split; [done|]. rewrite Hu in Hr. destruct Hr as [Hd He].
    unfold Bytes, Exceeded. rewrite Hd, He, Hl. cbn.
    replace (if maxBytes <? 0 then 0 else maxBytes) with (Z.max 0 maxBytes); [done|].
    case_match; lia.
  - destruct (WriteAll_retains ps NewUnlimited []) as (b & Hb & Hl & Hu & _ & Hr).
    { done. }
    exists b. rewrite Hu in Hr. done.
Qed.

End prefix.
End PrefixBuffer.
