(* ===== verification/Fat16.v ===== *)
(** * FAT16 images ([internal/fat16/image.go])

    Cloud-init data is handed to a virtual machine on a small disk image.
    [Build] is translated with its slices of one byte array, every index
    checked; an independent reader of FAT16 volumes says what the image means. *)

From Stdlib Require Import ZArith Lia.
From stdpp Require Import gmap strings prelude.
From S2P Require Import Prelude GoText.
Local Open Scope Z_scope.

(** ** The byte array and its slices

    [make([]byte, n)] is all zeros, so the array holds the bytes written.  A
    slice is a window of it: where it starts, its length and its capacity. *)
Abbreviation image := (gmap Z Z).

Definition peek (m : image) (i : Z) : Z := default 0 (m !! i).

Fixpoint store (o : Z) (bs : list Z) (m : image) : image :=
  match bs with
  | [] => m
  | b :: bs => store (o + 1) bs (<[o := b]> m)
  end.

Record slice := Slice { base : Z; len : Z; cap : Z }.

(** [s[lo:hi]] *)
Definition sub (s : slice) (lo hi : Z) : M image slice :=
  _ ← ensure ((0 <=? lo) && (lo <=? hi) && (hi <=? cap s)) (Panic "slice bounds out of range");
  mret (Slice (base s + lo) (hi - lo) (cap s - lo)).

(** [s[i] = b] *)
Definition set (s : slice) (i b : Z) : M image () :=
  _ ← ensure ((0 <=? i) && (i <? len s)) (Panic "index out of range");
  modify (store (base s + i) [b]).

(** [copy(s, bs)] *)
Definition copy (s : slice) (bs : list Z) : M image () :=
  modify (store (base s) (take (Z.to_nat (len s)) bs)).

(** The bytes of a slice. *)
Definition content (s : slice) : M image (list Z) :=
  gets (λ m, (λ i, peek m (base s + i)) <$> seqZ 0 (len s)).

Definition le16 (v : Z) : list Z := [v mod 256; v / 256 mod 256].
Definition le32 (v : Z) : list Z :=
  [v mod 256; v / 256 mod 256; v / 65536 mod 256; v / 16777216 mod 256].

(** [binary.LittleEndian.PutUint16(s, uint16(v))] and [PutUint32] *)
Definition PutUint16 (s : slice) (v : Z) : M image () :=
  _ ← ensure (2 <=? len s) (Panic "index out of range");
  modify (store (base s) (le16 v)).
Definition PutUint32 (s : slice) (v : Z) : M image () :=
  _ ← ensure (4 <=? len s) (Panic "index out of range");
  modify (store (base s) (le32 v)).

(** ** The builder *)

Record File := mkFile { Name : string; Data : list Z }.

Definition bytesPerSector : Z := 512.
Definition sectorsPerCluster : Z := 4.
Definition reservedSectors : Z := 1.
Definition fatCount : Z := 2.
Definition rootEntries : Z := 512.
Definition totalSectors : Z := 20480.
Definition sectorsPerFAT : Z := 40.
Definition rootDirSectors : Z := rootEntries * 32 / bytesPerSector.
Definition firstDataSector : Z := reservedSectors + fatCount * sectorsPerFAT + rootDirSectors.
Definition clusterSize : Z := sectorsPerCluster * bytesPerSector.
Definition dataClusters : Z := (totalSectors - firstDataSector) / sectorsPerCluster.
Definition fatEntries : Z := sectorsPerFAT * bytesPerSector / 2.
Definition fatStart : Z := reservedSectors * bytesPerSector.
Definition rootStart : Z := (reservedSectors + fatCount * sectorsPerFAT) * bytesPerSector.
Definition dataStart : Z := firstDataSector * bytesPerSector.

Definition whole : slice :=
  Slice 0 (totalSectors * bytesPerSector) (totalSectors * bytesPerSector).

Definition set_each (s : slice) (pad : Z) : M image () :=
  foldr (λ i k, _ ← set s i pad; k) (mret ()) (seqZ 0 (len s)).

Definition copyPadded (dst : slice) (value : string) (pad : Z) : M image () :=
  _ ← set_each dst pad;
  copy dst (to_bytes value).

(** [fatShortChecksum]: arithmetic on bytes *)
Definition checksum_step (sum b : Z) : Z :=
  (Z.land (Z.shiftl (Z.land sum 1) 7) 0xff + Z.shiftr sum 1 + b) mod 256.
Definition fatShortChecksum (short : list Z) : Z := foldl checksum_step 0 short.

(** [PutUint16(entry[pos:pos+2], value)] on the local array [entry]. *)
Definition put16 (entry : list Z) (pos : nat) (v : Z) : list Z :=
  <[S pos := v / 256 mod 256]> (<[pos := v mod 256]> entry).

Definition long_positions : list nat := [1; 3; 5; 7; 9; 14; 16; 18; 20; 22; 24; 28; 30]%nat.

Definition long_value (runes : list Z) (i : nat) : Z :=
  match runes !! i with
  | Some r => r mod 65536
  | None => if (i =? length runes)%nat then 0 else 0xffff
  end.

Definition writeLongNameRunes (entry : list Z) (runes : list Z) : list Z :=
  foldl (λ e p, put16 e p.2 (long_value runes p.1)) entry
    (zip (seq 0 13) long_positions).

(** The entry of chunk [i] of [chunks]. *)
Definition long_entry (rs : list Z) (checksum : Z) (chunks i : nat) : list Z :=
  let sequence := Z.of_nat (i + 1) mod 256 in
  let sequence := if (i =? chunks - 1)%nat then Z.lor sequence 0x40 else sequence in
  let entry := <[13%nat := checksum]> (<[11%nat := 0x0f]> (<[0%nat := sequence]> (replicate 32 0))) in
  let start := (i * 13)%nat in
  let stop := if (length rs <? start + 13)%nat then length rs else (start + 13)%nat in
  writeLongNameRunes entry (take (stop - start) (drop start rs)).

Definition name_runes (name : string) : list Z := (runes (to_bytes name)).*1.

Definition fatLongNameEntries (name : string) (checksum : Z) : list (list Z) :=
  let rs := name_runes name in
  let chunks := ((length rs + 12) / 13)%nat in
  long_entry rs checksum chunks <$> reverse (seq 0 chunks).

Definition write_boot (label : string) : M image () :=
  boot ← sub whole 0 bytesPerSector;
  _ ← set boot 0 0xeb;
  _ ← set boot 1 0x3c;
  _ ← set boot 2 0x90;
  s ← sub boot 3 11; _ ← copy s (to_bytes "CRABBOX ");
  s ← sub boot 11 13; _ ← PutUint16 s bytesPerSector;
  _ ← set boot 13 sectorsPerCluster;
  s ← sub boot 14 16; _ ← PutUint16 s reservedSectors;
  _ ← set boot 16 fatCount;
  s ← sub boot 17 19; _ ← PutUint16 s rootEntries;
  s ← sub boot 19 21; _ ← PutUint16 s totalSectors;
  _ ← set boot 21 0xf8;
  s ← sub boot 22 24; _ ← PutUint16 s sectorsPerFAT;
  s ← sub boot 24 26; _ ← PutUint16 s 63;
  s ← sub boot 26 28; _ ← PutUint16 s 255;
  _ ← set boot 36 0x80;
  _ ← set boot 38 0x29;
  s ← sub boot 39 43; _ ← PutUint32 s 0x43525842;
  s ← sub boot 43 54; _ ← copyPadded s (ToUpper label) 32;
  s ← sub boot 54 62; _ ← copy s (to_bytes "FAT16   ");
  _ ← set boot 510 0x55;
  set boot 511 0xaa.

(** The FAT chain of [count] clusters from [cluster + c] on. *)
Fixpoint write_chain (fat : slice) (cluster clusterCount : Z) (c : Z) (n : nat) : M image () :=
  match n with
  | O => mret ()
  | S n =>
      let entry := (cluster + c) * 2 in
      let next := if c + 1 <? clusterCount then (cluster + c + 1) mod 65536 else 0xffff in
      s ← sub fat entry (entry + 2);
      _ ← PutUint16 s next;
      write_chain fat cluster clusterCount (c + 1) n
  end.

(** Copies the entries to the root directory; returns the next offset. *)
Fixpoint write_entries (root : slice) (rootOffset : Z) (entries : list (list Z)) : M image Z :=
  match entries with
  | [] => mret rootOffset
  | entry :: entries =>
      s ← sub root rootOffset (rootOffset + 32);
      _ ← copy s entry;
      write_entries root (rootOffset + 32) entries
  end.

(** The directory entry that holds the short name, the first cluster and the
    size. *)
Definition write_short (root : slice) (rootOffset : Z) (short : list Z) (cluster size : Z) :
    M image () :=
  entry ← sub root rootOffset (rootOffset + 32);
  s ← sub entry 0 11; _ ← copy s short;
  _ ← set entry 11 0x20;
  s ← sub entry 26 28; _ ← PutUint16 s (cluster mod 65536);
  s ← sub entry 28 32; PutUint32 s (size mod 4294967296).

Definition clusters_of (f : File) : Z :=
  let clusterCount := (zlen (Data f) + clusterSize - 1) / clusterSize in
  if clusterCount =? 0 then 1 else clusterCount.

(** One round of the loop over the files: the next cluster and root offset. *)
Definition write_file (shortName : Z → string) (fat root : slice)
    (i : Z) (file : File) (nextCluster rootOffset : Z) : M image (Z * Z) :=
  _ ← ensure (negb (bool_decide (TrimSpace (Name file) = ""%string))) (Msg "file name is required");
  let cluster := nextCluster in
  let clusterCount := clusters_of file in
  _ ← ensure (negb ((dataClusters <? cluster - 2 + clusterCount) ||
                    (fatEntries <? cluster + clusterCount))) (Msg "payload is too large");
  let short := to_bytes (shortName (i + 1)) in
  let checksum := fatShortChecksum short in
  let lfnEntries := fatLongNameEntries (Name file) checksum in
  _ ← ensure (negb (len root <? rootOffset + (zlen lfnEntries + 1) * 32))
        (Msg "directory is too large");
  _ ← write_chain fat cluster clusterCount 0 (Z.to_nat clusterCount);
  let dataOffset := dataStart + (cluster - 2) * clusterSize in
  s ← sub whole dataOffset (dataOffset + zlen (Data file));
  _ ← copy s (Data file);
  rootOffset ← write_entries root rootOffset lfnEntries;
  _ ← write_short root rootOffset short cluster (zlen (Data file));
  mret (nextCluster + clusterCount, rootOffset + 32).

Fixpoint write_files (shortName : Z → string) (fat root : slice)
    (i : Z) (files : list File) (nextCluster rootOffset : Z) : M image () :=
  match files with
  | [] => mret ()
  | file :: files =>
      '(nextCluster, rootOffset) ← write_file shortName fat root i file nextCluster rootOffset;
      write_files shortName fat root (i + 1) files nextCluster rootOffset
  end.

(** Everything before the files; returns the slices [fat] and [root]. *)
Definition write_header (label : string) : M image (slice * slice) :=
  _ ← write_boot label;
  fat ← sub whole fatStart (fatStart + sectorsPerFAT * bytesPerSector);
  s ← sub fat 0 2; _ ← PutUint16 s 0xfff8;
  s ← sub fat 2 4; _ ← PutUint16 s 0xffff;
  root ← sub whole rootStart (rootStart + rootDirSectors * bytesPerSector);
  labelEntry ← sub root 0 32;
  s ← sub labelEntry 0 11; _ ← copyPadded s (ToUpper label) 32;
  _ ← set labelEntry 11 0x08;
  mret (fat, root).

(** The second copy of the table. *)
Definition write_second_fat (fat : slice) : M image () :=
  s ← sub whole (fatStart + sectorsPerFAT * bytesPerSector)
        (fatStart + 2 * sectorsPerFAT * bytesPerSector);
  bytes ← content fat;
  copy s bytes.

(** [shortName n] is [fmt.Sprintf(shortNameFormat, n)]. *)
Definition build_image (label : string) (files : list File) (shortName : Z → string) : M image () :=
  '(fat, root) ← write_header label;
  _ ← write_files shortName fat root 0 files 2 32;
  write_second_fat fat.

Definition Build (label : string) (files : list File) (shortName : Z → string) : res image :=
  match build_image label files shortName ∅ with
  | (Ok (), m) => Ok m
  | (Err e, _) => Err e
  end.

(** The formats of the callers: [FC%06dTXT] (Firecracker), [CRAB%04dTXT]
    (XCP-ng) and [AV%06dTXT] (Apple virtualization). *)
Definition pad_number (width : nat) (n : Z) : list Z :=
  let digits := format_uint 10 n in replicate (width - length digits) 48 ++ digits.
Definition firecracker_name (n : Z) : string :=
  of_bytes (to_bytes "FC" ++ pad_number 6 n ++ to_bytes "TXT").
Definition applevm_name (n : Z) : string :=
  of_bytes (to_bytes "AV" ++ pad_number 6 n ++ to_bytes "TXT").
Definition xcpng_name (n : Z) : string :=
  of_bytes (to_bytes "CRAB" ++ pad_number 4 n ++ to_bytes "TXT").

(** ** A reader of FAT16 volumes

    What a driver does with an image, written from the FAT specification and
    sharing no definition with the builder: the geometry comes from the boot
    sector, the files from the root directory with its long names, the data from
    the chains of the allocation table. *)
Definition byte_at (e : list Z) (i : nat) : Z := default 0 (e !! i).
Definition word_at (e : list Z) (i : nat) : Z := byte_at e i + 256 * byte_at e (S i).
Definition long_at (e : list Z) (i : nat) : Z := word_at e i + 65536 * word_at e (i + 2).

Definition bytes_at (m : image) (o n : Z) : list Z := (λ i, peek m (o + i)) <$> seqZ 0 n.

Record volume := Volume {
  v_sector : Z; v_cluster : Z; v_fat : Z; v_fats : Z; v_fat_size : Z; v_root : Z; v_entries : Z;
  v_data : Z; v_clusters : Z }.

(** The boot sector of a FAT16 volume: the signature, and a cluster count in
    the range that makes the table 16 bits wide. *)
Definition read_volume (m : image) : option volume :=
  let b := bytes_at m 0 512 in
  let sector := word_at b 11 in
  let reserved := word_at b 14 in
  let fats := byte_at b 16 in
  let entries := word_at b 17 in
  let fat_sectors := word_at b 22 in
  let root := (reserved + fats * fat_sectors) * sector in
  let data := root + entries * 32 in
  let clusters := (word_at b 19 * sector - data) / (byte_at b 13 * sector) in
  if (word_at b 510 =? 0xaa55) && (4085 <=? clusters) && (clusters <? 65525)
     && ((clusters + 2) * 2 <=? fat_sectors * sector) then
    Some (Volume sector (byte_at b 13 * sector) (reserved * sector) fats (fat_sectors * sector)
            root entries data clusters)
  else None.

(** The copies of the allocation table. *)
Definition fat_copy (m : image) (v : volume) (k : Z) : list Z :=
  bytes_at m (v_fat v + k * v_fat_size v) (v_fat_size v).

Fixpoint chain (m : image) (v : volume) (fuel : nat) (c : Z) : option (list Z) :=
  match fuel with
  | O => None
  | S fuel =>
      if (2 <=? c) && (c <? v_clusters v + 2) then
        let next := word_at (bytes_at m (v_fat v + 2 * c) 2) 0 in
        if 0xfff8 <=? next then Some [c]
        else cs ← chain m v fuel next; Some (c :: cs)
      else None
  end.

Definition read_data (m : image) (v : volume) (cluster size : Z) : option (list Z) :=
  cs ← chain m v (Z.to_nat (v_clusters v)) cluster;
  if size <=? zlen cs * v_cluster v then
    Some (take (Z.to_nat size)
      (concat ((λ c, bytes_at m (v_data v + (c - 2) * v_cluster v) (v_cluster v)) <$> cs)))
  else None.

(** A long name being collected: its checksum, how many entries are still to
    come and the units found so far. *)
Definition pending : Type := option (Z * Z * list Z).

(** The three fields of a long entry that hold the name: five units at offset
    1, six at 14 and two at 28 ([LDIR_Name1], [LDIR_Name2] and [LDIR_Name3] of
    the FAT specification). *)
Definition words (e : list Z) (o n : nat) : list Z := (λ k, word_at e (o + 2 * k)) <$> seq 0 n.
Definition units (e : list Z) : list Z := words e 1 5 ++ words e 14 6 ++ words e 28 2.

(** The checksum of a short name as the specification gives it: for every byte
    the sum is rotated right by one bit, then the byte is added. *)
Fixpoint name_checksum (sum : Z) (short : list Z) : Z :=
  match short with
  | [] => sum
  | b :: short =>
      name_checksum (((if Z.odd sum then 128 else 0) + sum / 2 + b) mod 256) short
  end.

Definition collect (p : pending) (e : list Z) : pending :=
  let n := Z.land (byte_at e 0) 0x3f in
  if Z.testbit (byte_at e 0) 6 then
    if (1 <=? n) && (n <=? 20) then Some (byte_at e 13, n - 1, units e) else None
  else match p with
  | Some (c, k, us) =>
      if (0 <? k) && (n =? k) && (c =? byte_at e 13) then Some (c, k - 1, units e ++ us) else None
  | None => None
  end.

Fixpoint until_zero (us : list Z) : list Z :=
  match us with
  | [] => []
  | u :: us => if u =? 0 then [] else u :: until_zero us
  end.

Definition entry_name (p : pending) (e : list Z) : list Z :=
  match p with
  | Some (c, 0, us) => if c =? name_checksum 0 (take 11 e) then until_zero us else take 11 e
  | _ => take 11 e
  end.

(** The files of a directory: name, first cluster and size. *)
Fixpoint scan (p : pending) (es : list (list Z)) : list (list Z * Z * Z) :=
  match es with
  | [] => []
  | e :: es =>
      if byte_at e 0 =? 0 then []
      else if byte_at e 0 =? 0xe5 then scan None es
      else if byte_at e 11 =? 0x0f then scan (collect p e) es
      else if Z.testbit (byte_at e 11) 3 then scan None es
      else (entry_name p e, word_at e 26, long_at e 28) :: scan None es
  end.

Definition directory (m : image) (v : volume) : list (list Z) :=
  (λ k, bytes_at m (v_root v + 32 * k) 32) <$> seqZ 0 (v_entries v).

(** The names (in UTF-16 units) and contents of the files of an image. *)
Definition read_image (m : image) : option (list (list Z * list Z)) :=
  v ← read_volume m;
  mapM (λ '(name, cluster, size), data ← read_data m v cluster size; Some (name, data))
    (scan None (directory m v)).

(** ** Reading what was written *)

(** [bs] is in the array at offset [o]. *)
Definition holds (m : image) (o : Z) (bs : list Z) : Prop :=
  ∀ k b, bs !! k = Some b → peek m (o + Z.of_nat k) = b.

(** Two arrays agree outside an interval. *)
Definition agree (lo hi : Z) (m m' : image) : Prop :=
  ∀ i, i < lo ∨ hi ≤ i → peek m' i = peek m i.

Lemma peek_insert m o b i : peek (<[o := b]> m) i = if decide (i = o) then b else peek m i.
Proof.
  unfold peek. case_decide as E; [subst; by rewrite lookup_insert_eq|].
  by rewrite lookup_insert_ne by congruence.
Qed.

Lemma store_agree o bs m : agree o (o + zlen bs) m (store o bs m).
Proof.
  revert o m. induction bs as [|b bs IH]; intros o m i Hi; cbn; [done|].
  unfold zlen in *. cbn in Hi. rewrite IH by lia. rewrite peek_insert. case_decide; [lia|done].
Qed.

Lemma store_holds o bs m : holds (store o bs m) o bs.
Proof.
  revert o m. induction bs as [|b bs IH]; intros o m [|k] c H; cbn in H; try done.
  - simplify_eq. cbn. rewrite store_agree by lia. rewrite peek_insert. case_decide; [done|lia].
  - cbn. rewrite <-(IH (o + 1) (<[o := b]> m) k c H). f_equal. lia.
Qed.

Lemma holds_at o o' bs m : o = o' → holds (store o' bs m) o bs.
Proof. intros ->. apply store_holds. Qed.

Lemma agree_refl lo hi m : agree lo hi m m.
Proof. by intros i _. Qed.

Lemma agree_trans lo hi m1 m2 m3 : agree lo hi m1 m2 → agree lo hi m2 m3 → agree lo hi m1 m3.
Proof. intros H1 H2 i Hi. by rewrite H2, H1. Qed.

Lemma agree_weaken lo hi lo' hi' m m' : lo' ≤ lo → hi ≤ hi' → agree lo hi m m' → agree lo' hi' m m'.
Proof. intros ?? H i Hi. apply H. lia. Qed.

Lemma holds_agree lo hi m m' o bs :
  holds m o bs → agree lo hi m m' → o + zlen bs ≤ lo ∨ hi ≤ o → holds m' o bs.
Proof.
  intros H A D k b E. rewrite A; [by apply H|].
  apply lookup_lt_Some in E. unfold zlen in D. lia.
Qed.

Lemma holds_over m o bs o' bs' :
  holds m o bs → o + zlen bs ≤ o' ∨ o' + zlen bs' ≤ o → holds (store o' bs' m) o bs.
Proof. intros H D. eapply holds_agree; [exact H|apply store_agree|lia]. Qed.

Lemma holds_app m o bs cs : holds m o (bs ++ cs) ↔ holds m o bs ∧ holds m (o + zlen bs) cs.
Proof.
  split.
  - intros H. split; intros k b E; [apply H; by apply lookup_app_l_Some|].
    rewrite <-Z.add_assoc, <-(H (length bs + k)%nat b); [f_equal; unfold zlen; lia|].
    rewrite lookup_app_r by lia. rewrite <-E. f_equal. lia.
  - intros [H1 H2] k b [E|[L E]]%lookup_app_Some; [by apply H1|].
    rewrite <-(H2 _ _ E). f_equal. unfold zlen. lia.
Qed.

Lemma holds_zeros m o n : (∀ i, o ≤ i < o + Z.of_nat n → peek m i = 0) → holds m o (replicate n 0).
Proof. intros H k b [-> ?]%lookup_replicate. apply H. lia. Qed.

Lemma byte_at_bytes m o n k : Z.of_nat k < n → byte_at (bytes_at m o n) k = peek m (o + Z.of_nat k).
Proof.
  intros H. unfold byte_at, bytes_at. rewrite list_lookup_fmap, lookup_seqZ_lt by lia. done.
Qed.

Lemma bytes_at_holds m o bs : holds m o bs → bytes_at m o (zlen bs) = bs.
Proof.
  intros H. apply list_eq. intros k. unfold bytes_at. rewrite list_lookup_fmap.
  destruct (bs !! k) as [b|] eqn:E.
  - pose proof (lookup_lt_Some _ _ _ E). unfold zlen. rewrite lookup_seqZ_lt by lia.
    cbn. f_equal. by apply H.
  - apply lookup_ge_None in E. rewrite lookup_seqZ_ge by (unfold zlen; lia). done.
Qed.

Lemma bytes_at_length m o n : length (bytes_at m o n) = Z.to_nat n.
Proof. unfold bytes_at. by rewrite length_fmap, length_seqZ. Qed.

Lemma bytes_at_app m o n k : 0 ≤ n → 0 ≤ k →
  bytes_at m o (n + k) = bytes_at m o n ++ bytes_at m (o + n) k.
Proof.
  intros Hn Hk. unfold bytes_at. rewrite seqZ_app, fmap_app by lia. f_equal.
  rewrite Z.add_0_l. replace n with (n + 0) at 1 by lia.
  rewrite <-fmap_add_seqZ, <-list_fmap_compose. apply list_fmap_ext. intros i x _. cbn. f_equal. lia.
Qed.

(** ** Running the array operations *)

Lemma bind_run {A B} (p : M image A) (k : A → M image B) m a m' :
  p m = (Ok a, m') → (p ≫= k) m = k a m'.
Proof. intros H. unfold mbind, M_bind. by rewrite H. Qed.

Lemma ensure_run b e (m : image) : b = true → ensure b e m = (Ok (), m).
Proof. by intros ->. Qed.

Lemma sub_run s lo hi m : 0 ≤ lo ≤ hi → hi ≤ cap s →
  sub s lo hi m = (Ok (Slice (base s + lo) (hi - lo) (cap s - lo)), m).
Proof. intros H1 H2. unfold sub. erewrite bind_run; [done|]. apply ensure_run. lia. Qed.

Lemma set_run s i b m : 0 ≤ i < len s → set s i b m = (Ok (), store (base s + i) [b] m).
Proof. intros H. unfold set. erewrite bind_run; [done|]. apply ensure_run. lia. Qed.

Lemma copy_run s bs m : copy s bs m = (Ok (), store (base s) (take (Z.to_nat (len s)) bs) m).
Proof. done. Qed.

Lemma put16_run s v m : 2 ≤ len s → PutUint16 s v m = (Ok (), store (base s) (le16 v) m).
Proof. intros H. unfold PutUint16. erewrite bind_run; [done|]. apply ensure_run. lia. Qed.

Lemma put32_run s v m : 4 ≤ len s → PutUint32 s v m = (Ok (), store (base s) (le32 v) m).
Proof. intros H. unfold PutUint32. erewrite bind_run; [done|]. apply ensure_run. lia. Qed.

(** The slices [fat] and [root]. *)
Definition the_fat : slice := Slice fatStart 20480 (10485760 - fatStart).
Definition the_root : slice := Slice rootStart 16384 (10485760 - rootStart).

Ltac constants :=
  change bytesPerSector with 512 in *;
  change clusterSize with 2048 in *; change fatStart with 512 in *;
  change rootStart with 41472 in *; change dataStart with 57856 in *;
  change dataClusters with 5091 in *; change fatEntries with 10240 in *;
  change (base the_fat) with 512 in *; change (cap the_fat) with 10485248 in *;
  change (base the_root) with 41472 in *; change (len the_root) with 16384 in *;
  change (cap the_root) with 10444288 in *; change (base whole) with 0 in *;
  change (cap whole) with 10485760 in *.

(** One step of a program over the array. *)
Ltac run_step :=
  first
    [ erewrite bind_run; [|apply sub_run; cbn [base len cap]; constants; lia]
    | erewrite bind_run; [|apply set_run; cbn [base len cap]; constants; lia]
    | erewrite bind_run; [|apply copy_run]
    | erewrite bind_run; [|apply put16_run; cbn [base len cap]; constants; lia]
    | erewrite bind_run; [|apply put32_run; cbn [base len cap]; constants; lia] ];
  cbn [base len cap]; constants.

(** ** The boot sector *)

(** What a reader uses of the boot sector. *)
Definition boot_facts : list (Z * Z) :=
  [(11, 0); (12, 2); (13, 4); (14, 1); (15, 0); (16, 2); (17, 0); (18, 2); (19, 0); (20, 80);
   (22, 40); (23, 0); (510, 0x55); (511, 0xaa)].
Definition bootable (m : image) : Prop := Forall (λ p, peek m p.1 = p.2) boot_facts.

Definition the_volume : volume := Volume 512 2048 512 2 20480 41472 512 57856 5091.

Lemma read_bootable m : bootable m → read_volume m = Some the_volume.
Proof.
  intros H. unfold bootable, boot_facts in H. rewrite !Forall_cons in H.
  destruct_and! H. cbn [fst snd] in *. unfold read_volume, word_at.
  rewrite !byte_at_bytes by lia.
  repeat match goal with
  | H : peek m ?i = _ |- context [peek m (0 + Z.of_nat ?n)] =>
      change (0 + Z.of_nat n) with i; rewrite H
  end. done.
Qed.

Lemma bootable_same m m' : bootable m → (∀ i, i < 512 → peek m' i = peek m i) → bootable m'.
Proof.
  intros H A. unfold bootable, boot_facts in *. rewrite !Forall_cons in *.
  destruct_and! H. cbn [fst snd] in *. split_and?; try done; rewrite A by lia; done.
Qed.

Lemma bootable_agree lo hi m m' : bootable m → agree lo hi m m' → 512 ≤ lo → bootable m'.
Proof. intros H A L. eapply bootable_same; [exact H|]. intros i Hi. apply A. lia. Qed.

Lemma set_each_run s pad m : 0 ≤ len s → ∃ m', set_each s pad m = (Ok (), m') ∧
  agree (base s) (base s + len s) m m' ∧ (∀ i, 0 ≤ i < len s → peek m' (base s + i) = pad).
Proof.
  intros L. unfold set_each.
  enough (∀ n k m, 0 ≤ k → k + Z.of_nat n = len s → ∃ m',
    foldr (λ i p, _ ← set s i pad; p) (mret ()) (seqZ k (Z.of_nat n)) m = (Ok (), m') ∧
    agree (base s + k) (base s + len s) m m' ∧
    (∀ i, k ≤ i < len s → peek m' (base s + i) = pad)) as H.
  { destruct (H (Z.to_nat (len s)) 0 m) as (m' & E & A & P); [lia..|].
    rewrite Z2Nat.id in E by lia. rewrite Z.add_0_r in A. eauto. }
  clear m. intros n. induction n as [|n IH]; intros k m Hk Hn.
  - exists m. split_and!; [done|apply agree_refl|lia].
  - rewrite seqZ_cons by lia. cbn [foldr]. erewrite bind_run by (apply set_run; lia).
    replace (Z.pred (Z.of_nat (S n))) with (Z.of_nat n) by lia.
    destruct (IH (Z.succ k) (store (base s + k) [pad] m)) as (m' & E & A & P); [lia..|].
    exists m'. split_and!; [done| |].
    + eapply agree_trans; [|eapply agree_weaken; [..|exact A]; lia].
      eapply agree_weaken; [..|apply store_agree]; unfold zlen; cbn; lia.
    + intros i Hi. destruct (decide (i = k)) as [->|]; [|apply P; lia].
      rewrite A by lia. pose proof (store_holds (base s + k) [pad] m 0%nat pad eq_refl) as Q.
      cbn [Z.of_nat] in Q. by rewrite Z.add_0_r in Q.
Qed.

(** The padded text differs from the pad only in its first bytes. *)
Lemma padded_run s value pad m : 0 < len s → ∃ m', copyPadded s value pad m = (Ok (), m') ∧
  agree (base s) (base s + len s) m m' ∧
  peek m' (base s) = default pad (head (to_bytes value)).
Proof.
  intros L. unfold copyPadded. destruct (set_each_run s pad m) as (m1 & E & A & P); [lia|].
  erewrite bind_run by exact E. rewrite copy_run. eexists. split_and!; [done| |].
  - eapply agree_trans; [exact A|]. eapply agree_weaken; [done| |apply store_agree].
    unfold zlen. rewrite length_take. lia.
  - destruct (to_bytes value) as [|b bs] eqn:Ev.
    + rewrite take_nil. cbn. rewrite <-(P 0) by lia. f_equal. lia.
    + destruct (Z.to_nat (len s)) as [|n] eqn:En; [lia|]. rewrite firstn_cons.
      pose proof (store_holds (base s) (b :: take n bs) m1 0%nat b eq_refl) as Q.
      cbn [Z.of_nat] in Q. by rewrite Z.add_0_r in Q.
Qed.

#[local] Opaque copyPadded store.

Lemma boot_run label m : ∃ m', write_boot label m = (Ok (), m') ∧ bootable m' ∧ agree 0 512 m m'.
Proof.
  unfold write_boot.
  repeat run_step.
  match goal with |- context [(copyPadded ?s ?v ?p ≫= _) ?m1] =>
    destruct (padded_run s v p m1) as (m2 & E & A & _); [cbn; lia|]
  end.
  erewrite bind_run by exact E. repeat run_step. rewrite set_run by (cbn; lia).
  cbn [base len] in *. eexists. split; [done|].
  assert (∀ o bs m i, i < o ∨ o + zlen bs ≤ i → peek (store o bs m) i = peek m i) as Out.
  { intros. by apply store_agree. }
  assert (∀ o bs m i b, o ≤ i → bs !! Z.to_nat (i - o) = Some b → peek (store o bs m) i = b) as In.
  { intros o bs m1 i b H H1. rewrite <-(store_holds o bs m1 _ _ H1). f_equal. lia. }
  split.
  - unfold bootable, boot_facts. rewrite !Forall_cons, Forall_nil. cbn [fst snd].
    split_and!; try done.
    all: repeat first [erewrite In; [|done|reflexivity]; reflexivity
                      |rewrite A by lia|rewrite Out by (vm_compute; intuition congruence)].
  - intros i Hi.
    repeat first [rewrite A by lia|rewrite Out by (unfold zlen; rewrite ?length_take; cbn; lia)]. done.
Qed.

(** ** One file *)

(** What follows cluster [cluster + k] in a chain of [n] clusters. *)
Definition link (cluster n k : Z) : Z :=
  if k + 1 <? n then (cluster + k + 1) mod 65536 else 0xffff.

Definition linked (m : image) (cluster n : Z) : Prop :=
  ∀ k, 0 ≤ k < n → holds m (fatStart + (cluster + k) * 2) (le16 (link cluster n k)).

Definition stored (m : image) (cluster : Z) (f : File) : Prop :=
  linked m cluster (clusters_of f) ∧ holds m (dataStart + (cluster - 2) * clusterSize) (Data f).

Definition zero_from (m : image) (o : Z) : Prop :=
  ∀ i, rootStart + o ≤ i < dataStart → peek m i = 0.

(** Nothing below the first free cluster and root offset changes. *)
Definition untouched (next off : Z) (m m' : image) : Prop :=
  ∀ i, i < fatStart + next * 2 ∨ fatStart + 20480 ≤ i < rootStart + off ∨
       dataStart ≤ i < dataStart + (next - 2) * clusterSize → peek m' i = peek m i.

Definition short_entry (short : list Z) (cluster size : Z) : list Z :=
  short ++ [0x20] ++ replicate 14 0 ++ le16 (cluster mod 65536) ++ le32 (size mod 4294967296).

Definition file_entries (shortName : Z → string) (i cluster : Z) (f : File) : list (list Z) :=
  let short := to_bytes (shortName (i + 1)) in
  fatLongNameEntries (Name f) (fatShortChecksum short) ++
    [short_entry short cluster (zlen (Data f))].

Lemma untouched_agree next off lo hi m m' :
  agree lo hi m m' →
  fatStart + next * 2 ≤ lo → hi ≤ fatStart + 20480 ∨
  rootStart + off ≤ lo ∧ hi ≤ dataStart ∨
  dataStart + (next - 2) * clusterSize ≤ lo → 2 ≤ next → off ≤ 16384 →
  untouched next off m m'.
Proof.
  intros A H1 H2 H3 H4 i Hi. apply A.
  constants. lia.
Qed.

Lemma chain_run cluster count n c m :
  0 ≤ c → c + Z.of_nat n = count → 2 ≤ cluster → cluster + count ≤ fatEntries →
  ∃ m', write_chain the_fat cluster count c n m = (Ok (), m') ∧
    agree (fatStart + (cluster + c) * 2) (fatStart + 20480) m m' ∧
    (∀ k, c ≤ k < count → holds m' (fatStart + (cluster + k) * 2) (le16 (link cluster count k))).
Proof.
  constants. revert c m. induction n as [|n IH]; intros c m Hc Hn Hl Hf.
  - exists m. split_and!; [done|apply agree_refl|lia].
  - cbn [write_chain]. run_step. run_step.
    fold (link cluster count c).
    match goal with |- context [write_chain _ _ _ _ _ ?m1] =>
      destruct (IH (c + 1) m1) as (m' & E & A & P); [lia..|] end.
    exists m'. split_and!; [exact E| |].
    + eapply agree_trans; [|eapply agree_weaken; [..|exact A]; lia].
      eapply agree_weaken; [..|apply store_agree]; unfold zlen; cbn; lia.
    + intros k Hk. destruct (decide (k = c)) as [->|]; [|apply P; lia].
      eapply holds_agree; [|exact A|unfold zlen; cbn; lia].
      apply store_holds.
Qed.

Lemma entries_run es off m :
  0 ≤ off → off + 32 * zlen es ≤ 16384 → Forall (λ e, length e = 32%nat) es →
  ∃ m', write_entries the_root off es m = (Ok (off + 32 * zlen es), m') ∧
    agree (rootStart + off) (rootStart + off + 32 * zlen es) m m' ∧
    holds m' (rootStart + off) (concat es).
Proof.
  unfold zlen. constants. revert off m. induction es as [|e es IH]; intros off m H0 Hl HF.
  - exists m. split_and!; [cbn [write_entries length]; unfold mret, M_ret; do 2 f_equal; lia|apply agree_refl|by intros k b E].
  - apply Forall_cons in HF as [He HF]. cbn [length] in Hl. cbn [write_entries].
    run_step. run_step. rewrite take_ge by lia.
    destruct (IH (off + 32) (store (41472 + off) e m)) as (m' & E & A & P); [lia..|done|].
    exists m'. split_and!; [rewrite E; cbn [length]; do 2 f_equal; lia| |].
    + eapply agree_trans; [|eapply agree_weaken; [..|exact A]; cbn [length]; lia].
      eapply agree_weaken; [..|apply store_agree]; unfold zlen; cbn [length]; lia.
    + cbn [concat]. apply holds_app. unfold zlen. rewrite He. split.
      * eapply holds_agree; [apply store_holds|exact A|]. unfold zlen. lia.
      * replace (41472 + off + Z.of_nat 32) with (41472 + (off + 32)) by lia. exact P.
Qed.

Lemma short_run off short cluster size m :
  0 ≤ off → off + 32 ≤ 16384 → length short = 11%nat → zero_from m off →
  ∃ m', write_short the_root off short cluster size m = (Ok (), m') ∧
    agree (rootStart + off) (rootStart + off + 32) m m' ∧
    holds m' (rootStart + off) (short_entry short cluster size).
Proof.
  intros H0 Hl Hs Hz. unfold zero_from in Hz. unfold write_short. constants.
  do 7 run_step. rewrite put32_run by (cbn [len]; lia). cbn [base].
  rewrite take_ge by lia. eexists. split; [done|]. rewrite !Z.add_0_r.
  pose proof (λ o bs m i, store_agree o bs m i) as Out. unfold zlen in Out. split.
  - intros i Hi. rewrite !Out by (rewrite ?Hs; cbn; lia). done.
  - unfold short_entry. rewrite !holds_app. unfold zlen. rewrite Hs, length_replicate. cbn [length].
    split_and!; cycle 2.
    { apply holds_zeros. intros i Hi. rewrite !Out by (rewrite ?Hs; cbn; lia). apply Hz. lia. }
    all: repeat first [apply holds_at; cbn; lia|apply holds_over; [|unfold zlen; rewrite ?Hs; cbn; lia]].
Qed.

Lemma clusters_positive f : 1 ≤ clusters_of f.
Proof.
  unfold clusters_of. constants. pose proof (zlen_nonneg (Data f)).
  assert (0 ≤ (zlen (Data f) + 2048 - 1) / 2048) by (apply Z.div_pos; lia).
  destruct (_ =? _) eqn:E; lia.
Qed.

Lemma clusters_enough f : zlen (Data f) ≤ clusters_of f * 2048.
Proof.
  unfold clusters_of. constants.
  pose proof (Z.div_mod (zlen (Data f) + 2048 - 1) 2048).
  pose proof (Z.mod_pos_bound (zlen (Data f) + 2048 - 1) 2048).
  destruct (_ =? _) eqn:E; lia.
Qed.

Lemma put16_length e p v : length (put16 e p v) = length e.
Proof. unfold put16. by rewrite !length_insert. Qed.

Lemma long_runes_length e rs : length (writeLongNameRunes e rs) = length e.
Proof.
  unfold writeLongNameRunes. generalize (zip (seq 0 13) long_positions) as l.
  intros l. revert e. induction l as [|p l IH]; intros e; cbn [foldl]; [done|].
  by rewrite IH, put16_length.
Qed.

Lemma long_entry_length rs c n i : length (long_entry rs c n i) = 32%nat.
Proof. unfold long_entry. by rewrite long_runes_length, !length_insert. Qed.

Lemma long_entries_length name c : Forall (λ e, length e = 32%nat) (fatLongNameEntries name c).
Proof. apply Forall_fmap, Forall_true. intros i. apply long_entry_length. Qed.

Lemma file_entries_zlen shortName i c f :
  zlen (file_entries shortName i c f) =
  zlen (fatLongNameEntries (Name f) (fatShortChecksum (to_bytes (shortName (i + 1))))) + 1.
Proof. unfold file_entries. by rewrite zlen_app. Qed.

Lemma concat_zlen (es : list (list Z)) :
  Forall (λ e, length e = 32%nat) es → zlen (concat es) = 32 * zlen es.
Proof.
  unfold zlen. induction 1 as [|e es He _ IH]; cbn [concat length]; [done|].
  rewrite length_app. lia.
Qed.

Lemma file_run shortName i f next off m (es := file_entries shortName i next f) :
  TrimSpace (Name f) ≠ ""%string → 2 ≤ next → next - 2 + clusters_of f ≤ dataClusters →
  0 ≤ off → off + 32 * zlen es ≤ 16384 → length (to_bytes (shortName (i + 1))) = 11%nat →
  zero_from m off →
  ∃ m', write_file shortName the_fat the_root i f next off m =
      (Ok (next + clusters_of f, off + 32 * zlen es), m') ∧
    stored m' next f ∧ holds m' (rootStart + off) (concat es) ∧
    zero_from m' (off + 32 * zlen es) ∧ untouched next off m m'.
Proof.
  intros Hn Hx Hc Ho He Hs Hz. pose proof (file_entries_zlen shortName i next f) as HE.
  fold es in HE. pose proof (clusters_positive f). pose proof (clusters_enough f).
  set (lfn := fatLongNameEntries _ _) in HE. assert (es = lfn ++ [short_entry (to_bytes (shortName (i + 1))) next (zlen (Data f))]) as Ees by done.
  pose proof (zlen_nonneg lfn) as L0. pose proof (zlen_nonneg (Data f)).
  unfold zero_from in Hz. unfold write_file.
  erewrite bind_run by (apply ensure_run; by rewrite bool_decide_eq_false_2).
  erewrite bind_run by (apply ensure_run; constants; lia).
  erewrite bind_run by (apply ensure_run; constants; fold lfn; lia).
  destruct (chain_run next (clusters_of f) (Z.to_nat (clusters_of f)) 0 m)
    as (m1 & E1 & A1 & P1); [constants; lia..|].
  erewrite bind_run by exact E1. do 2 run_step. rewrite take_ge by (unfold zlen; lia).
  match goal with |- context [(write_entries _ _ _ ≫= _) ?m] => set (m2 := m) end.
  assert (agree (0 + (57856 + (next - 2) * 2048)) (0 + (57856 + (next - 2) * 2048) + zlen (Data f))
    m1 m2) as A2 by apply store_agree.
  fold lfn. destruct (entries_run lfn off m2) as (m3 & E3 & A3 & P3);
    [done|lia|apply long_entries_length|].
  erewrite bind_run by exact E3. constants.
  assert (zero_from m3 (off + 32 * zlen lfn)) as Z3.
  { intros j Hj. constants. rewrite A3, A2, A1 by lia. apply Hz. lia. }
  destruct (short_run (off + 32 * zlen lfn) (to_bytes (shortName (i + 1))) next (zlen (Data f)) m3)
    as (m4 & E4 & A4 & P4); [lia..|done|done|].
  erewrite bind_run by exact E4. constants. exists m4. split_and!.
  - unfold mret, M_ret. rewrite HE. do 3 f_equal. lia.
  - split; [intros k Hk; constants|constants].
    + do 3 (eapply holds_agree; [|eassumption|unfold zlen; cbn; lia]).
      apply P1. lia.
    + do 2 (eapply holds_agree; [|eassumption|lia]). apply holds_at. lia.
  - rewrite Ees, concat_app. apply holds_app.
    rewrite concat_zlen by apply long_entries_length. split.
    + eapply holds_agree; [exact P3|exact A4|].
      rewrite concat_zlen by apply long_entries_length. lia.
    + cbn [concat]. rewrite app_nil_r.
      replace (41472 + off + 32 * zlen lfn) with (41472 + (off + 32 * zlen lfn)) by lia. exact P4.
  - intros j Hj. constants. rewrite A4 by lia. apply Z3. constants. lia.
  - intros j Hj. constants. by rewrite A4, A3, A2, A1 by lia.
Qed.

(** ** All files *)

(** The directory entries of a file: those of its long name and one more. *)
Definition entries_of (f : File) : Z := zlen (fatLongNameEntries (Name f) 0) + 1.
Definition named (f : File) : bool := negb (bool_decide (TrimSpace (Name f) = ""%string)).

Definition total (g : File → Z) (files : list File) : Z := foldr (λ f a, g f + a) 0 files.

(** The files fit into an image with clusters [next - 2] and bytes [off] of the
    root directory in use. *)
Definition fits_from (next off : Z) (files : list File) : bool :=
  forallb named files && (next - 2 + total clusters_of files <=? dataClusters)
  && (off + 32 * total entries_of files <=? 16384).

Fixpoint placed (m : image) (next : Z) (files : list File) : Prop :=
  match files with
  | [] => True
  | f :: files => stored m next f ∧ placed m (next + clusters_of f) files
  end.

Fixpoint all_entries (shortName : Z → string) (i next : Z) (files : list File) : list (list Z) :=
  match files with
  | [] => []
  | f :: files =>
      file_entries shortName i next f ++ all_entries shortName (i + 1) (next + clusters_of f) files
  end.

Lemma long_entries_zlen name c c' :
  zlen (fatLongNameEntries name c) = zlen (fatLongNameEntries name c').
Proof. unfold fatLongNameEntries, zlen. by rewrite !length_fmap. Qed.

Lemma file_entries_of shortName i c f : zlen (file_entries shortName i c f) = entries_of f.
Proof. rewrite file_entries_zlen. unfold entries_of. by rewrite (long_entries_zlen _ _ 0). Qed.

Lemma all_entries_zlen shortName files : ∀ i c,
  zlen (all_entries shortName i c files) = total entries_of files.
Proof.
  induction files as [|f files IH]; intros i c; [done|].
  cbn [all_entries total foldr]. by rewrite zlen_app, file_entries_of, IH.
Qed.

Lemma runes_nonempty b bs : runes (b :: bs) ≠ [].
Proof. destruct bs as [|b1 [|b2 [|b3 ?]]]; cbn; repeat case_match; done. Qed.

Lemma named_entries f : named f = true → 2 ≤ entries_of f.
Proof.
  unfold named, entries_of, fatLongNameEntries, zlen. intros H.
  rewrite length_fmap, length_reverse, length_seq.
  assert (1 ≤ length (name_runes (Name f)))%nat as L.
  { unfold name_runes. rewrite length_fmap. destruct (Name f) as [|a s]; [done|]. cbn [to_bytes].
    pose proof (nil_length_pos _ (runes_nonempty (byte_of a) (to_bytes s))). lia. }
  pose proof (Nat.div_le_mono 13 (length (name_runes (Name f)) + 12) 13 ltac:(done) ltac:(lia)) as D.
  change (13 / 13)%nat with 1%nat in D. lia.
Qed.

Lemma total_nonneg g files : (∀ f, 0 ≤ g f) → 0 ≤ total g files.
Proof. intros H. induction files as [|f files IH]; cbn; [lia|]. pose proof (H f). unfold total in IH. lia. Qed.

Lemma clusters_nonneg f : 0 ≤ clusters_of f.
Proof. pose proof (clusters_positive f). lia. Qed.

Lemma entries_nonneg f : 0 ≤ entries_of f.
Proof. unfold entries_of. pose proof (zlen_nonneg (fatLongNameEntries (Name f) 0)). lia. Qed.

(** A file fits when it has a name, clusters and directory entries. *)
Definition fits_one (next off : Z) (f : File) : bool :=
  named f && (next - 2 + clusters_of f <=? dataClusters) && (off + 32 * entries_of f <=? 16384).

Lemma fits_cons next off f files :
  fits_from next off (f :: files) =
  fits_one next off f && fits_from (next + clusters_of f) (off + 32 * entries_of f) files.
Proof.
  pose proof (total_nonneg clusters_of files clusters_nonneg).
  pose proof (total_nonneg entries_of files entries_nonneg).
  unfold fits_from, fits_one. cbn [forallb total foldr]. fold (total clusters_of files) (total entries_of files).
  apply eq_true_iff_eq. rewrite !andb_true_iff, !Z.leb_le. intuition lia.
Qed.

Lemma file_rejected shortName i f next off m : 2 ≤ next →
  fits_one next off f = false → ∃ msg m',
    write_file shortName the_fat the_root i f next off m = (Err (Msg msg), m').
Proof.
  intros H2 H. unfold write_file. fold (named f). unfold fits_one in H.
  destruct (named f); cbn [andb] in H; [|by do 2 eexists].
  erewrite bind_run by done. constants.
  destruct (_ || _) eqn:E; cbn [negb]; [by do 2 eexists|]. erewrite bind_run by done.
  rewrite (long_entries_zlen _ _ 0). fold (entries_of f).
  destruct (16384 <? _) eqn:E'; cbn [negb]; [by do 2 eexists|].
  constants. lia.
Qed.

Lemma stored_untouched next off m m' c f :
  stored m c f → untouched next off m m' → 2 ≤ c → c + clusters_of f ≤ next →
  next - 2 ≤ dataClusters → stored m' c f.
Proof.
  intros [HL HD] U H2 Hc Hn. pose proof (clusters_enough f). unfold untouched in U. constants.
  split; [intros k Hk j b E; constants|intros j b E; constants];
    pose proof (lookup_lt_Some _ _ _ E) as L; unfold zlen in *.
  - rewrite U; [by apply HL|cbn in L; lia].
  - rewrite U; [by apply HD|lia].
Qed.

Lemma holds_untouched next off m m' o bs :
  holds m (rootStart + o) bs → untouched next off m m' → 0 ≤ o → o + zlen bs ≤ off →
  holds m' (rootStart + o) bs.
Proof.
  intros H U H0 L k b E. pose proof (lookup_lt_Some _ _ _ E). unfold untouched, zlen in *.
  rewrite U; [by apply H|]. constants. lia.
Qed.

Lemma untouched_trans next off next' off' m1 m2 m3 :
  untouched next off m1 m2 → untouched next' off' m2 m3 → next ≤ next' → off ≤ off' →
  untouched next off m1 m3.
Proof.
  intros H1 H2 ?? i Hi. unfold untouched in *. constants. rewrite H2, H1 by lia. done.
Qed.

Lemma file_entries_length shortName i c f :
  length (to_bytes (shortName (i + 1))) = 11%nat →
  Forall (λ e, length e = 32%nat) (file_entries shortName i c f).
Proof.
  intros H. unfold file_entries. apply Forall_app. split; [apply long_entries_length|].
  constructor; [|constructor]. unfold short_entry. rewrite !length_app, length_replicate, H. done.
Qed.

Section files.
Context (shortName : Z → string).
Hypothesis eleven : ∀ n, 1 ≤ n ≤ 255 → length (to_bytes (shortName n)) = 11%nat.

(** The loop writes all files, or reports why they do not fit. *)
Lemma files_run files : ∀ i next off m,
  0 ≤ i → 2 ≤ next → 32 + 64 * i ≤ off → off ≤ 16384 → zero_from m off → next - 2 ≤ dataClusters →
  if fits_from next off files then
    ∃ m', write_files shortName the_fat the_root i files next off m = (Ok (), m') ∧
      placed m' next files ∧
      holds m' (rootStart + off) (concat (all_entries shortName i next files)) ∧
      zero_from m' (off + 32 * total entries_of files) ∧ untouched next off m m'
  else ∃ msg m', write_files shortName the_fat the_root i files next off m = (Err (Msg msg), m').
Proof.
  induction files as [|f files IH]; intros i next off m Hi Hx Ho Ho' Hz Hn.
  { assert (fits_from next off [] = true) as -> by (unfold fits_from; cbn [forallb total foldr]; lia).
    exists m. cbn [total foldr]. rewrite Z.mul_0_r, Z.add_0_r.
    split_and!; [done|done|by intros k b E|done|by intros j Hj]. }
  rewrite fits_cons. destruct (fits_one next off f) eqn:E1; cbn [andb write_files].
  2: { destruct (file_rejected shortName i f next off m Hx E1) as (msg & m' & E).
    exists msg, m'. unfold mbind, M_bind. by rewrite E. }
  unfold fits_one in E1. pose proof (named_entries f). pose proof (clusters_positive f).
  pose proof (file_entries_of shortName i next f) as EN.
  destruct (named f) eqn:Nf; [|done]. unfold named in Nf.
  destruct (file_run shortName i f next off m) as (m1 & E & S1 & H1 & Z1 & U1);
    [by apply negb_bool_decide_true in Nf|lia..|apply eleven; lia|done|].
  rewrite EN in *. erewrite bind_run by exact E.
  specialize (IH (i + 1) (next + clusters_of f) (off + 32 * entries_of f) m1
    ltac:(lia) ltac:(lia) ltac:(lia) ltac:(lia) Z1 ltac:(lia)).
  destruct (fits_from _ _ files); [|done].
  destruct IH as (m' & E' & P' & H' & Z' & U'). exists m'. split; [exact E'|].
  cbn [placed all_entries total foldr]. fold (total entries_of files). split_and!.
  - eapply stored_untouched; [exact S1|exact U'|lia..].
  - done.
  - rewrite concat_app, holds_app.
    assert (zlen (concat (file_entries shortName i next f)) = 32 * entries_of f) as L.
    { rewrite concat_zlen, EN; [done|]. apply file_entries_length, eleven. lia. }
    split; [eapply holds_untouched; [exact H1|exact U'|lia..]|].
    rewrite L. rewrite <-Z.add_assoc. exact H'.
  - intros j Hj. apply Z'. lia.
  - eapply untouched_trans; [exact U1|exact U'|lia..].
Qed.

(** The label's entry is in place and the rest of the root directory is free. *)
Definition prepared (label : string) (m : image) : Prop :=
  bootable m ∧ peek m rootStart = default 32 (head (to_bytes (ToUpper label))) ∧
  peek m (rootStart + 11) = 8 ∧ zero_from m 32.

Lemma header_run label : ∃ m, write_header label ∅ = (Ok (the_fat, the_root), m) ∧ prepared label m.
Proof.
  unfold write_header. destruct (boot_run label ∅) as (m1 & E1 & B1 & A1).
  erewrite bind_run by exact E1. change (sectorsPerFAT * bytesPerSector) with 20480.
  change (rootDirSectors * bytesPerSector) with 16384. do 8 run_step.
  match goal with |- context [(copyPadded ?s ?v ?p ≫= _) ?m1] =>
    destruct (padded_run s v p m1) as (m2 & E2 & A2 & P2); [cbn; lia|] end.
  erewrite bind_run by exact E2. run_step. cbn [base len] in *.
  assert (∀ o bs m i, i < o ∨ o + zlen bs ≤ i → peek (store o bs m) i = peek m i) as Out.
  { intros. by apply store_agree. }
  eexists. split; [done|]. split_and!.
  - eapply bootable_agree; [|apply store_agree|lia]. eapply bootable_agree; [|exact A2|lia].
    do 2 (eapply bootable_agree; [|apply store_agree|lia]). done.
  - rewrite Out by (constants; lia). exact P2.
  - exact (store_holds (0 + 41472 + 0 + 11) [8] m2 0%nat 8 eq_refl).
  - intros i Hi. constants. rewrite Out by (unfold zlen; cbn; lia). rewrite A2 by lia.
    rewrite !Out by (unfold zlen; cbn; lia). by rewrite A1 by lia.
Qed.

Lemma second_fat_run m : ∃ m', write_second_fat the_fat m = (Ok (), m') ∧
  agree (fatStart + 20480) (fatStart + 40960) m m' ∧
  fat_copy m' the_volume 1 = fat_copy m' the_volume 0.
Proof.
  unfold write_second_fat. change (sectorsPerFAT * bytesPerSector) with 20480.
  change (2 * sectorsPerFAT * bytesPerSector) with 40960. run_step.
  erewrite bind_run by done. rewrite copy_run. cbn [base len].
  change ((λ i : Z, peek m (base the_fat + i)) <$> seqZ 0 (len the_fat)) with (bytes_at m 512 20480).
  rewrite take_ge by (rewrite bytes_at_length; lia).
  pose proof (bytes_at_length m 512 20480) as L.
  eexists. split; [done|]. split.
  - eapply agree_weaken; [..|apply store_agree]; unfold zlen; lia.
  - unfold fat_copy. cbn [v_fat v_fat_size the_volume].
    set (m' := store _ _ _). transitivity (bytes_at m 512 20480).
    + assert (holds m' (512 + 1 * 20480) (bytes_at m 512 20480)) as H by (apply holds_at; lia).
      apply bytes_at_holds in H. unfold zlen in H. by rewrite L in H.
    + unfold bytes_at. apply list_fmap_ext. intros k x [-> ?]%lookup_seqZ. unfold m'.
      symmetry. rewrite store_agree by (unfold zlen; lia). done.
Qed.

Lemma placed_agree files m m' : ∀ next, placed m next files →
  agree (fatStart + 20480) rootStart m m' → 2 ≤ next →
  next - 2 + total clusters_of files ≤ dataClusters → placed m' next files.
Proof.
  induction files as [|f files IH]; intros next H A H2 Hn; [done|].
  cbn [placed total foldr] in *. fold (total clusters_of files) in Hn. destruct H as [[HL HD] H].
  pose proof (clusters_positive f). pose proof (total_nonneg clusters_of files clusters_nonneg).
  split; [split|apply IH; [done..|lia|lia]].
  - intros k Hk. eapply holds_agree; [by apply HL|exact A|]. constants. unfold zlen. cbn. lia.
  - eapply holds_agree; [exact HD|exact A|]. constants. lia.
Qed.

Lemma build_run label files :
  if fits_from 2 32 files then
    ∃ m, Build label files shortName = Ok m ∧ bootable m ∧
      peek m rootStart = default 32 (head (to_bytes (ToUpper label))) ∧
      peek m (rootStart + 11) = 8 ∧ placed m 2 files ∧
      holds m (rootStart + 32) (concat (all_entries shortName 0 2 files)) ∧
      zero_from m (32 + 32 * total entries_of files) ∧
      fat_copy m the_volume 1 = fat_copy m the_volume 0
  else ∃ msg, Build label files shortName = Err (Msg msg).
Proof.
  unfold Build, build_image. destruct (header_run label) as (m1 & E1 & B1 & P1 & A1 & Z1).
  erewrite bind_run by exact E1.
  pose proof (files_run files 0 2 32 m1 ltac:(lia) ltac:(lia) ltac:(lia) ltac:(lia) Z1 ltac:(done)) as H.
  destruct (fits_from 2 32 files) eqn:F.
  2: { destruct H as (msg & m2 & E). exists msg. unfold mbind, M_bind. by rewrite E. }
  destruct H as (m2 & E2 & S2 & H2 & Z2 & U2). erewrite bind_run by exact E2.
  destruct (second_fat_run m2) as (m3 & E3 & A3 & F3). rewrite E3.
  exists m3. split; [done|]. pose proof F as F'. unfold fits_from in F'.
  unfold untouched in U2. constants. split_and!.
  - eapply bootable_agree; [|exact A3|lia].
    eapply bootable_same; [exact B1|]. intros i Hi. apply U2. lia.
  - rewrite A3, U2 by lia. exact P1.
  - rewrite A3, U2 by lia. exact A1.
  - eapply placed_agree; [exact S2|exact A3|lia|constants; lia].
  - eapply holds_agree; [exact H2|exact A3|lia].
  - intros j Hj. constants. pose proof (total_nonneg entries_of files entries_nonneg). rewrite A3 by lia. apply Z2. constants. lia.
  - done.
Qed.
End files.

(** ** Reading the image *)

Lemma le16_value v : 0 ≤ v < 65536 → v mod 256 + 256 * (v / 256 mod 256) = v.
Proof.
  intros H. rewrite (Z.mod_small (v / 256)) by (split; [apply Z.div_pos|apply Z.div_lt_upper_bound]; lia).
  pose proof (Z.div_mod v 256). lia.
Qed.

Lemma link_range c n k : 0 ≤ c + k + 1 < 65528 → 0 ≤ link c n k < 65536.
Proof. intros H. unfold link. destruct (_ <? _); [rewrite Z.mod_small; lia|lia]. Qed.

Lemma read_link m c n k : linked m c n → 0 ≤ k < n → 2 ≤ c → c + n ≤ 5093 →
  word_at (bytes_at m (512 + 2 * (c + k)) 2) 0 = link c n k.
Proof.
  intros H Hk H2 Hn. specialize (H k Hk). constants.
  unfold word_at. rewrite !byte_at_bytes by lia.
  rewrite <-(le16_value (link c n k)) by (apply link_range; lia).
  replace (2 * (c + k)) with ((c + k) * 2) by lia.
  by rewrite (H 0%nat _ eq_refl), (H 1%nat _ eq_refl).
Qed.

Lemma chain_linked m c n : linked m c n → 2 ≤ c → c + n ≤ 5093 → ∀ fuel k, 0 ≤ k < n →
  n - k ≤ Z.of_nat fuel → chain m the_volume fuel (c + k) = Some (seqZ (c + k) (n - k)).
Proof.
  intros H H2 Hn fuel. induction fuel as [|fuel IH]; intros k Hk Hf; [lia|].
  cbn [chain v_clusters v_fat the_volume].
  rewrite (read_link m c n k) by (done || lia). unfold link.
  assert ((2 <=? c + k) && (c + k <? 5091 + 2) = true) as -> by lia.
  rewrite seqZ_cons by lia.
  destruct (k + 1 <? n) eqn:E.
  - rewrite Z.mod_small by lia. assert (0xfff8 <=? c + k + 1 = false) as -> by lia.
    replace (c + k + 1) with (c + (k + 1)) by lia. rewrite IH by lia. cbn. do 3 f_equal; lia.
  - replace n with (k + 1) by lia. replace (Z.pred (k + 1 - k)) with 0 by lia. done.
Qed.

Lemma read_clusters m (n : nat) : ∀ c,
  concat ((λ c, bytes_at m (57856 + (c - 2) * 2048) 2048) <$> seqZ c (Z.of_nat n)) =
  bytes_at m (57856 + (c - 2) * 2048) (Z.of_nat n * 2048).
Proof.
  induction n as [|n IH]; intros c; [done|].
  rewrite seqZ_cons by lia. cbn [fmap list_fmap concat].
  replace (Z.pred (Z.of_nat (S n))) with (Z.of_nat n) by lia. rewrite IH.
  replace (Z.of_nat (S n) * 2048) with (2048 + Z.of_nat n * 2048) by lia.
  rewrite bytes_at_app by lia. do 2 f_equal. lia.
Qed.

Lemma read_stored_file m c f : stored m c f → 2 ≤ c → c - 2 + clusters_of f ≤ 5091 →
  read_data m the_volume c (zlen (Data f)) = Some (Data f).
Proof.
  intros [HL HD] H2 Hn. pose proof (clusters_positive f). pose proof (clusters_enough f).
  unfold read_data. cbn [v_clusters v_cluster v_data the_volume].
  rewrite <-(Z.add_0_r c), (chain_linked m c (clusters_of f)) by (done || lia).
  cbn [mbind option_bind]. rewrite Z.add_0_r, Z.sub_0_r.
  unfold zlen at 2. rewrite length_seqZ, Z2Nat.id by lia.
  assert (zlen (Data f) <=? clusters_of f * 2048 = true) as -> by lia.
  rewrite <-(Z2Nat.id (clusters_of f)) by lia. rewrite read_clusters, Z2Nat.id by lia.
  pose proof (zlen_nonneg (Data f)).
  replace (clusters_of f * 2048) with (zlen (Data f) + (clusters_of f * 2048 - zlen (Data f))) by lia.
  rewrite bytes_at_app by lia. constants. rewrite (bytes_at_holds _ _ _ HD).
  unfold zlen at 1. by rewrite Nat2Z.id, take_app_length.
Qed.

Lemma read_entries m o es : holds m o (concat es) → Forall (λ e, length e = 32%nat) es →
  (λ k, bytes_at m (o + 32 * k) 32) <$> seqZ 0 (zlen es) = es.
Proof.
  intros H HF. revert o H. unfold zlen. induction HF as [|e es He HF IH]; intros o H; [done|].
  cbn [concat] in H. apply holds_app in H as [H1 H2]. unfold zlen in H2. rewrite He in H2.
  cbn [length]. rewrite seqZ_cons by lia. cbn [fmap list_fmap]. f_equal.
  - rewrite Z.mul_0_r, Z.add_0_r. apply bytes_at_holds in H1. unfold zlen in H1. by rewrite He in H1.
  - rewrite <-(IH _ H2) at 2. replace (Z.pred (Z.of_nat (S (length es)))) with (Z.of_nat (length es)) by lia.
    change (Z.succ 0) with (1 + 0). rewrite <-fmap_add_seqZ, <-list_fmap_compose.
    apply list_fmap_ext. intros i x _. cbn [compose]. f_equal. lia.
Qed.

Lemma scan_zeros es p : Forall (λ e, byte_at e 0 = 0) es → scan p es = [].
Proof. destruct 1 as [|e es He _]; [done|]. cbn [scan]. by rewrite He. Qed.

(** The bytes of an entry of a long name. *)
Lemma long_entry_reads rs c n i (chunk := take 13 (drop (i * 13) rs)) :
  let e := long_entry rs c n i in
  let s := Z.of_nat (i + 1) mod 256 in
  byte_at e 0 = (if (i =? n - 1)%nat then Z.lor s 0x40 else s) ∧
  byte_at e 11 = 0x0f ∧ byte_at e 13 = c ∧
  units e = (λ k, let v := long_value chunk k in v mod 256 + 256 * (v / 256 mod 256)) <$> seq 0 13.
Proof.
  cbv zeta. unfold long_entry.
  assert (take ((if (length rs <? i * 13 + 13)%nat then length rs else i * 13 + 13) - i * 13)
            (drop (i * 13) rs) = chunk) as ->.
  { unfold chunk. destruct (_ <? _)%nat eqn:E.
    - apply Nat.ltb_lt in E. rewrite !take_ge; [done|rewrite length_drop; lia..].
    - f_equal. lia. }
  generalize (if (i =? n - 1)%nat then Z.lor (Z.of_nat (i + 1) mod 256) 64 else Z.of_nat (i + 1) mod 256).
  intros s. unfold units, words, word_at, byte_at, writeLongNameRunes, put16.
  generalize (long_value chunk). intros v.
  cbn -[Z.div Z.modulo Z.add Z.mul]. done.
Qed.

Lemma sequence_bits i : (i < 20)%nat →
  let s := Z.of_nat (i + 1) mod 256 in
  s ≠ 0 ∧ s ≠ 0xe5 ∧ Z.lor s 0x40 ≠ 0 ∧ Z.lor s 0x40 ≠ 0xe5 ∧
  Z.testbit s 6 = false ∧ Z.testbit (Z.lor s 0x40) 6 = true ∧
  Z.land s 0x3f = Z.of_nat (i + 1) ∧ Z.land (Z.lor s 0x40) 0x3f = Z.of_nat (i + 1).
Proof. intros H. do 20 (destruct i as [|i]; [vm_compute; split_and!; done|]). lia. Qed.

(** The units of an entry, on names without NUL in the basic plane. *)
Definition long_units (rs : list Z) (i : nat) : list Z :=
  take 13 (take 13 (drop (i * 13) rs) ++ 0 :: replicate 12 0xffff).

Lemma units_chunk chunk : Forall (λ r, 1 ≤ r < 65536) chunk → (length chunk ≤ 13)%nat →
  (λ k, let v := long_value chunk k in v mod 256 + 256 * (v / 256 mod 256)) <$> seq 0 13 =
  take 13 (chunk ++ 0 :: replicate 12 0xffff).
Proof.
  intros HF HL. apply list_eq. intros k. rewrite list_lookup_fmap.
  destruct (decide (k < 13)%nat).
  - rewrite lookup_seq_lt, lookup_take_lt by done. cbn [fmap option_fmap option_map Nat.add].
    unfold long_value. destruct (chunk !! k) as [r|] eqn:E.
    + rewrite (lookup_app_l_Some _ _ _ _ E). pose proof (Forall_lookup_1 _ _ _ _ HF E) as R. cbn in R.
      rewrite (Z.mod_small r) by lia. by rewrite le16_value by lia.
    + apply lookup_ge_None in E. rewrite lookup_app_r by done.
      destruct (k =? length chunk)%nat eqn:E'.
      * apply Nat.eqb_eq in E' as ->. by rewrite Nat.sub_diag.
      * apply Nat.eqb_neq in E'. destruct (k - length chunk)%nat as [|j] eqn:Ej; [lia|].
        change ((0 :: replicate 12 65535) !! S j) with (replicate 12 65535 !! j). rewrite lookup_replicate_2 by lia. done.
  - rewrite lookup_seq_ge, lookup_take_ge by lia. done.
Qed.

Lemma long_entry_units rs c n i : Forall (λ r, 1 ≤ r < 65536) rs →
  units (long_entry rs c n i) = long_units rs i.
Proof.
  intros HF. destruct (long_entry_reads rs c n i) as (_ & _ & _ & ->).
  apply units_chunk; [by apply Forall_take, Forall_drop|rewrite length_take; lia].
Qed.

Lemma until_zero_app us vs : Forall (λ r, 1 ≤ r < 65536) us → until_zero (us ++ vs) = us ++ until_zero vs.
Proof.
  induction 1 as [|u us Hu _ IH]; cbn [until_zero app]; [done|].
  assert (u =? 0 = false) as -> by lia. by rewrite IH.
Qed.

(** The units of chunks [j] to [n - 1], up to the first NUL. *)
Lemma until_zero_units rs n k : Forall (λ r, 1 ≤ r < 65536) rs → ∀ j, (j + k = n)%nat →
  (length rs ≤ n * 13)%nat → until_zero (concat (long_units rs <$> seq j k)) = drop (j * 13) rs.
Proof.
  intros HF. induction k as [|k IH]; intros j Hj HL.
  { cbn. symmetry. apply drop_ge. lia. }
  cbn [seq fmap list_fmap concat]. unfold long_units at 1.
  destruct (decide (length (drop (j * 13) rs) < 13)%nat) as [L|L].
  - rewrite (take_ge (drop _ _)) by lia. rewrite take_app_ge by lia.
    destruct (13 - length (drop (j * 13) rs))%nat as [|d] eqn:Ed; [lia|].
    rewrite <-app_assoc, until_zero_app by (by apply Forall_drop). cbn. by rewrite app_nil_r.
  - rewrite take_app_le by (rewrite length_take; lia). rewrite take_take, Nat.min_id.
    rewrite until_zero_app by (by apply Forall_take, Forall_drop).
    rewrite IH by lia. replace (S j * 13)%nat with (j * 13 + 13)%nat by lia.
    rewrite <-drop_drop. apply take_drop.
Qed.

(** The long name's entries, from chunk [j - 1] down, complete what a scan has
    collected. *)
Lemma scan_long rs c n rest : Forall (λ r, 1 ≤ r < 65536) rs → (n ≤ 20)%nat → ∀ j, (j < n)%nat →
  scan (Some (c, Z.of_nat j, concat (long_units rs <$> seq j (n - j))))
    ((long_entry rs c n <$> reverse (seq 0 j)) ++ rest) =
  scan (Some (c, 0, concat (long_units rs <$> seq 0 n))) rest.
Proof.
  intros HF Hn. induction j as [|j IH]; intros Hj; [by rewrite Nat.sub_0_r|].
  rewrite seq_S, reverse_snoc. cbn [Nat.add fmap list_fmap app scan].
  destruct (long_entry_reads rs c n j) as (E0 & E11 & E13 & _).
  destruct (sequence_bits j) as (B1 & B2 & _ & _ & B3 & _ & B4 & _); [lia|].
  assert ((j =? n - 1)%nat = false) as Hl by (apply Nat.eqb_neq; lia). rewrite Hl in E0.
  rewrite E11, !(proj2 (Z.eqb_neq _ _)) by congruence. cbn [Z.eqb Pos.eqb].
  unfold collect. rewrite E0, E13, B3, B4, (long_entry_units _ _ _ _ HF).
  rewrite Nat.add_1_r, !Z.eqb_refl, (proj2 (Z.ltb_lt 0 _)) by (clear; lia). cbn [andb].
  rewrite <-IH by lia. replace (Z.of_nat (S j) - 1) with (Z.of_nat j) by lia.
  replace (n - j)%nat with (S (n - S j)) by lia. done.
Qed.

Lemma le32_value v : 0 ≤ v < 4294967296 →
  v mod 256 + 256 * (v / 256 mod 256) + 65536 * (v / 65536 mod 256 + 256 * (v / 16777216 mod 256)) = v.
Proof.
  intros H. assert (0 ≤ v / 65536 < 65536) as R.
  { split; [apply Z.div_pos|apply Z.div_lt_upper_bound]; lia. }
  replace (v / 16777216) with (v / 65536 / 256) by (by rewrite Z.div_div by lia).
  rewrite (le16_value (v / 65536)) by done.
  assert (0 ≤ v mod 65536 < 65536) as R' by (apply Z.mod_pos_bound; lia).
  pose proof (le16_value (v mod 65536) R') as L. pose proof (Z.div_mod v 65536).
  assert (v mod 65536 mod 256 = v mod 256) as E1.
  { rewrite (Z.div_mod v 65536) at 2 by lia. replace (65536 * (v / 65536)) with (v / 65536 * 256 * 256) by lia.
    by rewrite Z.add_comm, Z.mod_add by lia. }
  assert (v mod 65536 / 256 mod 256 = v / 256 mod 256) as E2.
  { rewrite (Z.div_mod v 65536) at 2 by lia. replace (65536 * (v / 65536)) with (v / 65536 * 256 * 256) by lia.
    by rewrite Z.add_comm, Z.div_add, Z.mod_add by lia. }
  rewrite E1, E2 in L. lia.
Qed.

(** The checksum the builder computes with bit operations is the one a reader
    expects. *)
Lemma checksum_step_rotates sum b : 0 ≤ sum < 256 →
  checksum_step sum b = ((if Z.odd sum then 128 else 0) + sum / 2 + b) mod 256.
Proof.
  intros H. unfold checksum_step. rewrite Z.shiftr_div_pow2 by lia. change (2 ^ 1) with 2.
  change 1 with (Z.ones 1) at 1. rewrite Z.land_ones by lia. change (2 ^ 1) with 2.
  rewrite Zmod_odd. by destruct (Z.odd sum).
Qed.

Lemma checksum_rotates short : ∀ sum, 0 ≤ sum < 256 →
  foldl checksum_step sum short = name_checksum sum short.
Proof.
  induction short as [|b short IH]; intros sum H; [done|]. cbn [foldl name_checksum].
  rewrite <-checksum_step_rotates by done. apply IH. unfold checksum_step.
  apply Z.mod_pos_bound. lia.
Qed.

Lemma fatShortChecksum_rotates short : fatShortChecksum short = name_checksum 0 short.
Proof. apply checksum_rotates. lia. Qed.

(** A short name that a reader takes for a file. *)
Definition short_ok (short : list Z) : bool :=
  (length short =? 11)%nat && negb (byte_at short 0 =? 0) && negb (byte_at short 0 =? 0xe5).

Lemma short_reads short c size : short_ok short = true → 0 ≤ c < 65536 → 0 ≤ size < 4294967296 →
  let e := short_entry short c size in
  byte_at e 0 ≠ 0 ∧ byte_at e 0 ≠ 0xe5 ∧ byte_at e 11 = 0x20 ∧ take 11 e = short ∧
  word_at e 26 = c ∧ long_at e 28 = size.
Proof.
  intros H Hc Hs. unfold short_ok in H. cbv zeta.
  apply andb_true_iff in H as [[L%Nat.eqb_eq B0]%andb_true_iff B1].
  unfold short_entry, long_at, word_at, byte_at in *. rewrite (Z.mod_small c), (Z.mod_small size) by lia.
  do 11 (destruct short as [|? short]; [done|]). destruct short; [|done].
  cbn -[Z.div Z.modulo Z.add Z.mul Z.eqb] in *.
  rewrite le16_value, le32_value by lia. split_and!; try done; lia.
Qed.

(** Names that the units of a long name represent exactly. *)
Definition readable (f : File) : bool :=
  forallb (λ r, (1 <=? r) && (r <? 65536)) (name_runes (Name f)) &&
  (length (name_runes (Name f)) <=? 255)%nat.

Lemma name_chunks (l : nat) (n := ((l + 12) / 13)%nat) :
  (1 ≤ l ≤ 255)%nat → (1 ≤ n ≤ 20 ∧ l ≤ n * 13)%nat.
Proof.
  intros H. pose proof (Nat.div_mod (l + 12) 13 ltac:(done)) as E.
  pose proof (Nat.mod_upper_bound (l + 12) 13 ltac:(done)). fold n in E. lia.
Qed.

(** The entries of a long name are collected to the name. *)
Lemma scan_name rs c rest (n := ((length rs + 12) / 13)%nat) :
  Forall (λ r, 1 ≤ r < 65536) rs → (1 ≤ length rs ≤ 255)%nat →
  ∃ us, scan None ((long_entry rs c n <$> reverse (seq 0 n)) ++ rest) = scan (Some (c, 0, us)) rest ∧
    until_zero us = rs.
Proof.
  intros HF HL. destruct (name_chunks (length rs) HL) as [Hn Hcover]. fold n in Hn, Hcover.
  exists (concat (long_units rs <$> seq 0 n)). split.
  2: { by rewrite (until_zero_units rs n n HF 0%nat eq_refl Hcover). }
  clearbody n. destruct n as [|n]; [lia|].
  rewrite seq_S, reverse_snoc at 1. cbn [Nat.add fmap list_fmap app].
  rewrite <-(scan_long rs c (S n) rest HF ltac:(lia) n ltac:(lia)). cbn [scan].
  destruct (long_entry_reads rs c (S n) n) as (E0 & E11 & E13 & _).
  destruct (sequence_bits n) as (_ & _ & B1 & B2 & _ & B3 & _ & B4); [lia|].
  assert ((n =? S n - 1)%nat = true) as Hl by (apply Nat.eqb_eq; lia). rewrite Hl in E0.
  rewrite E11, !(proj2 (Z.eqb_neq _ _)) by congruence. cbn [Z.eqb Pos.eqb].
  unfold collect. rewrite E0, E13, B3, B4, (long_entry_units _ _ _ _ HF).
  assert ((1 <=? Z.of_nat (n + 1)) && (Z.of_nat (n + 1) <=? 20) = true) as -> by (rewrite andb_true_iff, !Z.leb_le; lia).
  replace (Z.of_nat (n + 1) - 1) with (Z.of_nat n) by lia.
  replace (S n - n)%nat with 1%nat by lia. cbn [seq fmap list_fmap concat]. by rewrite app_nil_r.
Qed.

Lemma readable_runes f : readable f = true → named f = true →
  Forall (λ r, 1 ≤ r < 65536) (name_runes (Name f)) ∧ (1 ≤ length (name_runes (Name f)) ≤ 255)%nat.
Proof.
  intros [HF HL%Nat.leb_le]%andb_true_iff Hn%named_entries. split.
  - apply Forall_forall. intros r Hr%list_elem_of_In. rewrite forallb_forall in HF.
    specialize (HF r Hr). lia.
  - split; [|done]. destruct (name_runes (Name f)) eqn:E; [|cbn; lia].
    unfold entries_of, fatLongNameEntries in Hn. rewrite E in Hn. cbn in Hn. done.
Qed.

Lemma scan_file shortName i c f rest :
  readable f = true → named f = true → short_ok (to_bytes (shortName (i + 1))) = true →
  0 ≤ c < 65536 → zlen (Data f) < 4294967296 →
  scan None (file_entries shortName i c f ++ rest) =
  (name_runes (Name f), c, zlen (Data f)) :: scan None rest.
Proof.
  intros Hr Hn Hs Hc Hz. destruct (readable_runes f Hr Hn) as [HF HL].
  unfold file_entries. cbv zeta. set (short := to_bytes _) in *.
  destruct (scan_name (name_runes (Name f)) (fatShortChecksum short)
    ([short_entry short c (zlen (Data f))] ++ rest) HF HL) as (us & E & U).
  unfold fatLongNameEntries. cbv zeta. rewrite <-app_assoc, E.
  destruct (short_reads short c (zlen (Data f)) Hs Hc) as (S0 & S1 & S2 & S3 & S4 & S5);
    [split; [apply zlen_nonneg|done]|].
  cbn [app scan]. rewrite S2, S4, S5, !(proj2 (Z.eqb_neq _ _)) by congruence.
  cbn [Z.eqb Pos.eqb Z.testbit Pos.testbit].
  unfold entry_name. by rewrite S3, fatShortChecksum_rotates, Z.eqb_refl, U.
Qed.

(** ** The image means the files *)

(** Name, first cluster and size of each file, in order. *)
Fixpoint listing (next : Z) (files : list File) : list (list Z * Z * Z) :=
  match files with
  | [] => []
  | f :: files =>
      (name_runes (Name f), next, zlen (Data f)) :: listing (next + clusters_of f) files
  end.

(** The short names in use: a directory of 512 entries has room for 255. *)
Definition usable (shortName : Z → string) : Prop :=
  ∀ n, 1 ≤ n ≤ 255 → short_ok (to_bytes (shortName n)) = true.

Definition printable (label : string) : bool :=
  forallb (λ b, (32 <=? b) && (b <? 127)) (to_bytes label).

(** All files have a name, and clusters and directory entries are left. *)
Definition fits (files : list File) : bool := fits_from 2 32 files.

Lemma fits_files next off files : fits_from next off files = true →
  forallb named files = true ∧ next - 2 + total clusters_of files ≤ 5091 ∧
  off + 32 * total entries_of files ≤ 16384.
Proof.
  unfold fits_from. constants. intros [[H1 H2%Z.leb_le]%andb_true_iff H3%Z.leb_le]%andb_true_iff. done.
Qed.

Lemma scan_files shortName files rest : usable shortName → Forall (λ f, readable f = true) files →
  ∀ i next off, 0 ≤ i → 2 ≤ next → 32 + 64 * i ≤ off → fits_from next off files = true →
  scan None (all_entries shortName i next files ++ rest) = listing next files ++ scan None rest.
Proof.
  intros HS. induction 1 as [|f files Hf HF IH]; intros i next off Hi Hx Ho Hfit; [done|].
  rewrite fits_cons in Hfit. apply andb_true_iff in Hfit as [H1 H2].
  unfold fits_one in H1. destruct (named f) eqn:Nf; [|done]. constants.
  pose proof (named_entries f Nf). pose proof (clusters_positive f). pose proof (clusters_enough f).
  cbn [all_entries listing]. rewrite <-app_assoc, scan_file by (done || lia || (apply HS; lia)).
  cbn [app]. f_equal. apply (IH _ _ (off + 32 * entries_of f)); [lia..|done].
Qed.

Lemma read_listing m files : ∀ next, placed m next files → 2 ≤ next →
  next - 2 + total clusters_of files ≤ 5091 →
  mapM (λ '(name, cluster, size), data ← read_data m the_volume cluster size; Some (name, data))
    (listing next files) = Some ((λ f, (name_runes (Name f), Data f)) <$> files).
Proof.
  induction files as [|f files IH]; intros next HP Hx Hn; [done|].
  cbn [placed total foldr listing] in *. fold (total clusters_of files) in Hn. destruct HP as [S HP].
  pose proof (clusters_positive f). pose proof (total_nonneg clusters_of files clusters_nonneg).
  cbn [mapM]. rewrite read_stored_file by (done || lia). cbn [mbind option_bind].
  by rewrite IH by (done || lia).
Qed.

Lemma upper_head label : printable label = true →
  32 ≤ default 32 (head (to_bytes (ToUpper label))) < 127.
Proof.
  unfold printable, ToUpper, map_runes. intros H.
  assert (Forall ascii_byte (to_bytes label)) as HA.
  { apply Forall_forall. intros b Hb%list_elem_of_In. rewrite forallb_forall in H.
    specialize (H b Hb). unfold ascii_byte. lia. }
  rewrite (runes_ascii _ HA). destruct (to_bytes label) as [|b bs]; [cbn; lia|].
  cbn [forallb] in H. apply andb_true_iff in H as [Hb _]. cbn -[encode_rune upper_rune].
  assert (32 ≤ upper_rune b < 127) as U.
  { unfold upper_rune. repeat case_match; lia. }
  unfold encode_rune. assert ((0 <=? upper_rune b) && (upper_rune b <? 128) = true) as -> by lia.
  cbn. rewrite byte_of_ascii_of by (unfold is_byte; lia). done.
Qed.

Lemma directory_reads m label files shortName (es := all_entries shortName 0 2 files) :
  printable label = true → peek m rootStart = default 32 (head (to_bytes (ToUpper label))) →
  peek m (rootStart + 11) = 8 → holds m (rootStart + 32) (concat es) →
  Forall (λ e, length e = 32%nat) es → 32 + 32 * zlen es ≤ 16384 → zero_from m (32 + 32 * zlen es) →
  ∃ rest, scan None (directory m the_volume) = scan None (es ++ rest) ∧
    Forall (λ e, byte_at e 0 = 0) rest.
Proof.
  intros HL H0 H11 H HF Hl Hz. unfold directory. cbn [v_root v_entries the_volume]. constants.
  pose proof (zlen_nonneg es). pose proof (upper_head label HL).
  exists ((λ k, bytes_at m (41472 + 32 * k) 32) <$> seqZ (1 + zlen es) (511 - zlen es)).
  replace 512 with (1 + (zlen es + (511 - zlen es))) by lia.
  rewrite seqZ_app, (seqZ_app (0 + 1)), !fmap_app by lia. split.
  - assert ((λ k, bytes_at m (41472 + 32 * k) 32) <$> seqZ (0 + 1) (zlen es) = es) as ->.
    { rewrite <-(read_entries m (41472 + 32) es H HF) at 2. rewrite Z.add_comm.
      rewrite <-fmap_add_seqZ, <-list_fmap_compose.
      apply list_fmap_ext. intros i x _. cbn [compose]. f_equal. lia. }
    change (seqZ 0 1) with [0]. cbn [fmap list_fmap app scan].
    rewrite !byte_at_bytes by lia. change (41472 + 32 * 0 + Z.of_nat 11) with (41472 + 11).
    change (41472 + 32 * 0 + Z.of_nat 0) with 41472.
    by rewrite H11, H0, !(proj2 (Z.eqb_neq _ _)) by lia.
  - apply Forall_fmap, Forall_forall. intros k [? ?]%elem_of_seqZ. cbn [compose].
    rewrite byte_at_bytes by lia. apply Hz. constants. lia.
Qed.

Lemma usable_length shortName : usable shortName →
  ∀ n, 1 ≤ n ≤ 255 → length (to_bytes (shortName n)) = 11%nat.
Proof.
  intros H n Hn. specialize (H n Hn). unfold short_ok in H.
  by apply andb_true_iff in H as [[H%Nat.eqb_eq _]%andb_true_iff _].
Qed.

Lemma all_entries_length shortName files : usable shortName → ∀ i next off, 0 ≤ i →
  32 + 64 * i ≤ off → fits_from next off files = true →
  Forall (λ e, length e = 32%nat) (all_entries shortName i next files).
Proof.
  intros HS. induction files as [|f files IH]; intros i next off Hi Ho Hfit; [constructor|].
  rewrite fits_cons in Hfit. apply andb_true_iff in Hfit as [H1 H2].
  unfold fits_one in H1. destruct (named f) eqn:Nf; [|done]. pose proof (named_entries f Nf).
  cbn [all_entries]. apply Forall_app. split.
  - apply file_entries_length, usable_length; [done|lia].
  - apply (IH _ _ (off + 32 * entries_of f)); [lia..|done].
Qed.

Definition usable_check (shortName : Z → string) : bool :=
  forallb (λ n, short_ok (to_bytes (shortName n))) (seqZ 1 255).

Lemma usable_checked shortName : usable_check shortName = true → usable shortName.
Proof.
  unfold usable_check. rewrite forallb_forall. intros H n Hn. apply H, list_elem_of_In, elem_of_seqZ. lia.
Qed.

Lemma firecracker_usable : usable firecracker_name.
Proof. apply usable_checked. by vm_compute. Qed.

Lemma applevm_usable : usable applevm_name.
Proof. apply usable_checked. by vm_compute. Qed.

Lemma xcpng_usable : usable xcpng_name.
Proof. apply usable_checked. by vm_compute. Qed.

(** C18.  Round trip of the FAT16 image: for a printable label, short names of
    eleven bytes and file names that long-name units can represent, [Build]
    never panics.  When every file has a name and the clusters and directory
    entries suffice, it returns an image from which a FAT16 reader lists exactly
    the given files, in order, with their full names and contents, and both
    copies of the allocation table agree; otherwise it returns an error.  The
    reader shares no definition of the format with the builder: the places of the
    units in a long-name entry and the checksum that ties these to the short name
    are its own. *)
Theorem image_reads_back label files shortName :
  printable label = true → usable shortName → Forall (λ f, readable f = true) files →
  if fits files then
    ∃ m, Build label files shortName = Ok m ∧
      read_image m = Some ((λ f, (name_runes (Name f), Data f)) <$> files) ∧
      (∃ v, read_volume m = Some v ∧ v_fats v = 2 ∧ fat_copy m v 1 = fat_copy m v 0)
  else ∃ msg, Build label files shortName = Err (Msg msg).
Proof.
  intros HL HS HF. unfold fits.
  pose proof (build_run shortName (usable_length shortName HS) label files) as H.
  destruct (fits_from 2 32 files) eqn:Hfit; [|done].
  destruct H as (m & E & B & P0 & P11 & HP & HE & HZ & HC).
  exists m. split; [done|]. pose proof (read_bootable m B) as HV. split; [|exists the_volume; exact (conj HV (conj eq_refl HC))].
  destruct (fits_files 2 32 files Hfit) as (_ & Hc & He).
  rewrite <-(all_entries_zlen shortName files 0 2) in He, HZ.
  destruct (directory_reads m label files shortName HL P0 P11 HE) as (rest & D & Z); [|exact He|exact HZ|].
  { eapply all_entries_length; [exact HS|..|exact Hfit]; lia. }
  unfold read_image. rewrite HV. cbn [mbind option_bind]. rewrite D.
  erewrite scan_files; [|done|done|..|exact Hfit]; [|lia..].
  rewrite (scan_zeros _ _ Z), app_nil_r. by apply read_listing.
Qed.

(** A character outside the basic plane is stored as its low 16 bits (here
    U+1F680), not as the surrogate pair D83D DE80. *)
Lemma non_bmp_name_truncated :
  until_zero ∘ units <$> fatLongNameEntries (of_bytes [0xF0; 0x9F; 0x9A; 0x80]) 0 = [[0xF680]].
Proof. by vm_compute. Qed.

Definition cloud_init : list File :=
  [mkFile "user-data" (to_bytes "#cloud-config"); mkFile "meta-data-with-a-long-name" []].

(** The image of the Firecracker caller. *)
Lemma image_reads_back_witness :
  fits cloud_init = true ∧
  ∃ m, Build "cidata" cloud_init firecracker_name = Ok m ∧
    read_image m = Some ((λ f, (name_runes (Name f), Data f)) <$> cloud_init).
Proof.
  assert (fits cloud_init = true) as F by (by vm_compute). split; [exact F|].
  pose proof (image_reads_back "cidata" cloud_init firecracker_name eq_refl firecracker_usable
    ltac:(by repeat constructor)) as H.
  rewrite F in H. destruct H as (m & E & R & _). exists m. exact (conj E R).
Defined.
