(* ===== verification/ArchiveJournal.v ===== *)
(** * Archive publication ([internal/runner/runnerfs/archive_journal.go])

    A copied archive is published over its destination by two renames decided
    by a durable journal record.  The model has the directory that holds the
    destination (paths relative to it), the private journal directory with its
    hard links, and a process that can fail or be killed at every system call.
    Locating both directories ([openArchiveJournal]) happens before; the record
    [archiveJournalContext] is what it returns.  A file holds the record its JSON
    text decodes to, which differs from the one written where a field is not
    UTF-8, or is unreadable; the length of the text is a parameter. *)

From Stdlib Require Import ZArith Lia.
From stdpp Require Import gmap strings prelude.
From S2P Require Import Prelude GoText GoJson.
Local Open Scope string_scope.
Local Open Scope Z_scope.
Local Open Scope crab_scope.

(** ** Data *)

Record archiveJournal := mkRecord {
  r_Version : Z; r_Target : string; r_Parent : string; r_Workspace : string; r_WorkspaceID : string;
  r_Decision : string; r_New : string; r_Old : string; r_Marker : string; r_Backup : string }.
#[export] Instance archiveJournal_eq : EqDecision archiveJournal.
Proof. solve_decision. Defined.

(** The record as [json.Marshal] writes it and [json.Unmarshal] reads it back. *)
Definition journal_text (r : archiveJournal) : archiveJournal :=
  mkRecord (r_Version r) (json_text (r_Target r)) (json_text (r_Parent r)) (json_text (r_Workspace r))
    (json_text (r_WorkspaceID r)) (json_text (r_Decision r)) (json_text (r_New r)) (json_text (r_Old r))
    (json_text (r_Marker r)) (json_text (r_Backup r)).

Record archiveJournalContext := mkContext {
  c_target : string;      (** the physical path of the destination *)
  c_parentID : string;
  c_journal : string      (** the name of the journal in its directory *) }.

Definition archiveJournalLimit : Z := 16384.
Definition ArchiveKeepDestination : string := "keep-destination".
Definition ArchiveRestoreBackup : string := "restore-backup".

(** A path relative to the parent of the destination. *)
Abbreviation path := (list string).

Inductive kind := Regular | Directory | Symlink | Special.
#[export] Instance kind_eq : EqDecision kind.
Proof. solve_decision. Defined.

(** What [Lstat] tells of an entry ([n_owned]: the process owns it), with the
    bytes of a regular file. *)
Record node := mkNode {
  n_kind : kind; n_dev : Z; n_ino : Z; n_owned : bool; n_mode : Z; n_mtime : Z; n_data : list Z }.
#[export] Instance node_eq : EqDecision node.
Proof. solve_decision. Defined.

(** The permission bits written [0oabc] *)
Definition octal (a b c : Z) : Z := 64 * a + 8 * b + c.

(** The condition of [archivePrivateDirectory] on permissions and owner *)
Definition n_private (n : node) : bool := n_owned n && (Z.land (n_mode n) (octal 0 7 7) =? 0).

Abbreviation tree := (@gmap path _ (@list_countable string String.eq_dec String.countable) node).

(** A name in the journal directory: its inode, [archivePrivateFile] and the
    decoded contents. *)
Record jfile := mkJFile { jf_inode : Z; jf_private : bool; jf_content : option archiveJournal }.
#[export] Instance jfile_eq : EqDecision jfile.
Proof. solve_decision. Defined.

Record FS := mkFS {
  fs_tree : tree; fs_journal : gmap string jfile; fs_alive : bool; fs_tick : nat }.

(** What happens at a system call: it runs, it fails, or the process dies. *)
Inductive fault := Runs | Fails (e : error) | Killed.

Record Host := mkHost {
  h_fault : nat → fault;
  h_random : nat → list Z;             (** [rand.Read] of 16 bytes *)
  h_inode : nat → Z * Z;               (** device and inode of a new entry *)
  h_removed : nat → path → bool;       (** what an interrupted [RemoveAll] removed *)
  h_clock : nat → Z;
  h_umask : Z }.

(** [copyArchiveDirectoryIdentity] on POSIX, and [archiveIdentity] *)
Definition copyArchiveDirectoryIdentity (n : node) : string :=
  FormatInt (n_dev n) +:+ ":" +:+ FormatInt (n_ino n).
Definition archiveIdentity (info : option node) : string :=
  match info with Some n => copyArchiveDirectoryIdentity n | None => "" end.

(** [filepath.Base] of a slash-separated path *)
Definition Base (name : string) : string :=
  if name =s "" then "."
  else
    let stripped := reverse (drop_while (λ b, b =? 47) (reverse (to_bytes name))) in
    if stripped =s [] then "/"
    else of_bytes (foldl (λ acc b, if b =? 47 then [] else (acc ++ [b])%list) [] stripped).

(** ** Trees

    [subtree p m] is the tree at [p], relative to it; [move_tree p q m] moves
    it to [q] with everything beneath. *)
Definition strip (p k : path) : option path :=
  if bool_decide (take (length p) k = p) then Some (drop (length p) k) else None.
Definition subtree (p : path) (m : tree) : tree :=
  map_fold (λ k n acc, match strip p k with Some s => <[s := n]> acc | None => acc end) ∅ m.
Definition prune (p : path) (m : tree) : tree := filter (λ kn : path * node, strip p kn.1 = None) m.
Definition move_tree (p q : path) (m : tree) : tree := prune p m ∪ kmap (app q) (subtree p m).

Definition parent_of (p : path) : path := take (pred (length p)) p.
Definition is_directory (m : tree) (p : path) : bool :=
  (p =s []) || match m !! p with Some n => n_kind n =s Directory | None => false end.
(** An entry with nothing beneath. *)
Definition childless (m : tree) (p : path) : bool := bool_decide (size (subtree p m) ≤ 1)%nat.

(** What an interrupted [RemoveAll] of [p] leaves, when it has removed the trees
    [removed] beneath. *)
Definition left_below (removed : path → bool) (p k : path) : bool :=
  match strip p k with
  | Some below => negb (existsb (λ i, removed (take i below)) (seq 1 (length below)))
  | None => true
  end.

Section host.
Context (host : Host) (encoded : archiveJournal → Z).
Local Abbreviation FM := (M FS).

(** ** System calls *)

Definition died : error := Msg "killed".

(** One system call; [interrupted] is its effect when it does not complete. *)
Definition syscall_with {A} (interrupted : nat → FS → FS) (op : nat → FS → res A * FS) : FM A := λ s,
  if negb (fs_alive s) then (Err died, s)
  else
    let n := fs_tick s in
    let s := mkFS (fs_tree s) (fs_journal s) true (S n) in
    match h_fault host n with
    | Runs => op n s
    | Fails e => (Err e, interrupted n s)
    | Killed => let s := interrupted n s in (Err died, mkFS (fs_tree s) (fs_journal s) false (fs_tick s))
    end.
Definition syscall {A} (op : nat → FS → res A * FS) : FM A := syscall_with (λ _ s, s) op.

Definition set_tree (m : tree) (s : FS) : FS := mkFS m (fs_journal s) (fs_alive s) (fs_tick s).
Definition set_names (j : gmap string jfile) (s : FS) : FS := mkFS (fs_tree s) j (fs_alive s) (fs_tick s).

(** [Root.Lstat]; [None] is [os.IsNotExist]. *)
Definition lstat (p : path) : FM (option node) := syscall (λ _ s, (Ok (fs_tree s !! p), s)).

(** [Root.Rename]: renameat(2). *)
Definition rename (p q : path) : FM () := syscall (λ _ s,
  let m := fs_tree s in
  match m !! p with
  | None => (Err (Msg "no such file or directory"), s)
  | Some n =>
      if negb (is_directory m (parent_of q)) then (Err (Msg "no such file or directory"), s)
      else if bool_decide (is_Some (strip p q)) then (Err (Msg "invalid argument"), s)
      else match m !! q with
      | None => (Ok (), set_tree (move_tree p q m) s)
      | Some old =>
          if negb (Bool.eqb (n_kind n =s Directory) (n_kind old =s Directory))
          then (Err (Msg "not a directory"), s)
          else if n_kind n =s Directory
          then if childless m q then (Ok (), set_tree (move_tree p q (prune q m)) s)
               else (Err (Msg "directory not empty"), s)
          else if bool_decide (n_dev n = n_dev old ∧ n_ino n = n_ino old) then (Ok (), s)
          else (Ok (), set_tree (move_tree p q (prune q m)) s)
      end
  end).

(** [Root.Mkdir] with mode 0700 *)
Definition mkdir (name : string) : FM () := syscall (λ n s,
  match fs_tree s !! [name] with
  | Some _ => (Err (Msg "file exists"), s)
  | None =>
      let '(dev, ino) := h_inode host n in
      (Ok (), set_tree (<[[name] := mkNode Directory dev ino true (Z.ldiff (octal 7 0 0) (h_umask host)) (h_clock host n) []]> (fs_tree s)) s)
  end).

(** [Root.RemoveAll]: an interrupted removal leaves the entry itself and some
    of the trees beneath it. *)
Definition remove_all (p : path) : FM () :=
  syscall_with
    (λ n s, set_tree (filter (λ kn : path * node, left_below (h_removed host n) p kn.1 = true) (fs_tree s)) s)
    (λ _ s, (Ok (), set_tree (prune p (fs_tree s)) s)).

(** [Root.Remove] of a directory *)
Definition remove_directory (p : path) : FM () := syscall (λ _ s,
  match fs_tree s !! p with
  | None => (Err (Msg "no such file or directory"), s)
  | Some _ => if childless (fs_tree s) p then (Ok (), set_tree (prune p (fs_tree s)) s)
              else (Err (Msg "directory not empty"), s)
  end).

(** Names of the journal directory. *)
(** [archiveLinkCount]: the names of the inode *)
Definition links (j : gmap string jfile) (ino : Z) : Z :=
  Z.of_nat (size (filter (λ nf : string * jfile, jf_inode nf.2 = ino) j)).
(** [os.Lstat] of a name and [Stat] of an open file, with the link count. *)
Definition jstat (name : string) : FM (option (jfile * Z)) := syscall (λ _ s,
  (Ok ((λ f, (f, links (fs_journal s) (jf_inode f))) <$> fs_journal s !! name), s)).
Definition jfstat (f : jfile) : FM (jfile * Z) := syscall (λ _ s,
  (Ok (f, links (fs_journal s) (jf_inode f)), s)).
Definition jremove (name : string) : FM () := syscall (λ _ s,
  match fs_journal s !! name with
  | None => (Err (Msg "no such file or directory"), s)
  | Some _ => (Ok (), set_names (delete name (fs_journal s)) s)
  end).
Definition jcreate (name : string) : FM Z := syscall (λ n s,
  match fs_journal s !! name with
  | Some _ => (Err (Msg "file exists"), s)
  | None => let ino := (h_inode host n).2 in
            (Ok ino, set_names (<[name := mkJFile ino true None]> (fs_journal s)) s)
  end).
(** Writing through an open file reaches every name of its inode. *)
Definition jwrite (ino : Z) (record : archiveJournal) : FM () := syscall (λ _ s,
  (Ok (), set_names ((λ f, if jf_inode f =? ino then mkJFile ino (jf_private f) (Some (journal_text record)) else f)
                     <$> fs_journal s) s)).
Definition jlink (from to : string) : FM () := syscall (λ _ s,
  match fs_journal s !! from, fs_journal s !! to with
  | None, _ => (Err (Msg "no such file or directory"), s)
  | _, Some _ => (Err (Msg "file exists"), s)
  | Some f, None => (Ok (), set_names (<[to := f]> (fs_journal s)) s)
  end).
(** Opening and syncing a directory beneath the parent, and the journal's. *)
Definition syncArchiveRootDirectory (p : path) : FM () := syscall (λ _ s,
  if is_directory (fs_tree s) p then (Ok (), s) else (Err (Msg "no such file or directory"), s)).
Definition syncCopyArchiveDirectory : FM () := syscall (λ _ s, (Ok (), s)).
(** ** Operations *)

Definition archiveEntryID (p : path) : FM string := info ← lstat p; mret (archiveIdentity info).

(** [errors.Join(a(), b())] *)
Definition join (a b : FM ()) : FM () :=
  r ← attempt a;
  r' ← attempt b;
  match r, r' with
  | Ok _, Ok _ => mret ()
  | Err e, Ok _ | Ok _, Err e => fail e
  | Err e, Err e' => fail (Join e e')
  end.

(** [defer cleanup()], whose error is dropped *)
Definition deferred {A} (cleanup : FM ()) (body : FM A) : FM A :=
  r ← attempt body; _ ← attempt cleanup; lift r.

Definition target_path (record : archiveJournal) : path := [Base (r_Target record)].
Definition beside (record : archiveJournal) (suffix : string) : path := [Base (r_Target record) +:+ suffix].
Definition inside (record : archiveJournal) (name : string) : path := [r_Workspace record; name].

Definition requireLegacyArchiveAdoption (c : archiveJournalContext) : FM () :=
  backup ← lstat [Base (c_target c) +:+ ".crabbox-cp-backup"];
  ensure (bool_decide (backup = None)) (Msg "archive copy found legacy recovery data; explicit recovery is required");;
  marker ← lstat [Base (c_target c) +:+ ".crabbox-cp-transaction"];
  ensure (bool_decide (marker = None)) (Msg "archive copy found legacy recovery data; explicit recovery is required").

Definition validateWorkspace (record : archiveJournal) : FM () :=
  ensure (HasPrefix (r_Workspace record) ".crabbox-cp-publish-" && (Base (r_Workspace record) =s r_Workspace record) &&
          (r_WorkspaceID record <>s "")) (Msg "copy recovery journal has an invalid workspace");;
  info ← lstat [r_Workspace record];
  match info with
  | None => fail (Msg "no such file or directory")
  | Some n =>
      ensure ((n_kind n =s Directory) && n_private n && (archiveIdentity (Some n) =s r_WorkspaceID record))
        (Msg "copy recovery workspace identity changed; all data retained")
  end.

Definition pending (c : archiveJournalContext) (record : archiveJournal) : string :=
  "." +:+ c_journal c +:+ "-" +:+ r_Workspace record +:+ ".pending".

(** A linked decision may survive with its private pending name. *)
Definition finishPending (c : archiveJournalContext) (record : archiveJournal) (file : jfile) : FM () :=
  '(info, count) ← jfstat file;
  named ← jstat (c_journal c);
  match named with
  | None => fail (Msg "no such file or directory")
  | Some (named, _) =>
      ensure (jf_private info && (jf_inode info =? jf_inode named) && jf_private named && ((count =? 1) || (count =? 2)))
        (Msg "copy recovery journal is not a private singly linked file");;
      (if count =? 2 then
         other ← jstat (pending c record);
         match other with
         | None => fail (Msg "no such file or directory")
         | Some (other, others) =>
             ensure (jf_private other && (others =? 2) && (jf_inode info =? jf_inode other))
               (Msg "copy recovery journal has an unrelated hard link");;
             jremove (pending c record);;
             syncCopyArchiveDirectory
         end
       else mret ());;
      '(actual, count) ← jfstat file;
      named ← jstat (c_journal c);
      match named with
      | None => fail (Msg "no such file or directory")
      | Some (named, named_count) =>
          ensure (jf_private actual && jf_private named && (jf_inode info =? jf_inode actual) &&
                  (jf_inode actual =? jf_inode named) && (count =? 1) && (named_count =? 1))
            (Msg "copy recovery journal changed while finishing publication")
      end
  end.

(** [matchesTarget]; letters fold only on a case-insensitive parent. *)
Definition fold_byte (b : Z) : Z := if (65 <=? b) && (b <=? 90) then b + 32 else b.
Definition matchesTarget (case_insensitive : bool) (c : archiveJournalContext) (recorded : string) : bool :=
  (recorded =s c_target c) ||
  (bool_decide (String.length recorded = String.length (c_target c)) &&
   forallb (λ ab : Z * Z, (ab.1 =? ab.2) ||
              negb ((128 <=? ab.1) || (128 <=? ab.2)) && (fold_byte ab.1 =? fold_byte ab.2))
     (zip (to_bytes recorded) (to_bytes (c_target c))) &&
   case_insensitive).

Definition recognized (record : archiveJournal) : bool :=
  r_Decision record ∈s ["publish"; ArchiveKeepDestination; ArchiveRestoreBackup].

Definition read (case_insensitive : bool) (c : archiveJournalContext) : FM (option archiveJournal) :=
  info ← jstat (c_journal c);
  match info with
  | None => mret None
  | Some (info, count) =>
      ensure (jf_private info && ((count =? 1) || (count =? 2)))
        (Msg "copy recovery journal is not a private regular file");;
      opened ← jstat (c_journal c);
      match opened with
      | None => fail (Msg "no such file or directory")
      | Some (file, _) =>
          '(actual, _) ← jfstat file;
          ensure (jf_inode info =? jf_inode actual) (Msg "copy recovery journal changed while opening");;
          syncCopyArchiveDirectory (* reading the file: a call that may fail *);;
          match jf_content file with
          | None => fail (Msg "invalid copy recovery journal: %w")
          | Some record =>
              ensure (encoded record <=? archiveJournalLimit) (Msg "copy recovery journal exceeds size limit");;
              ensure ((r_Version record =? 2) && (r_Parent record =s c_parentID c) &&
                      matchesTarget case_insensitive c (r_Target record))
                (Msg "copy recovery journal does not match destination and physical parent");;
              ensure (recognized record) (Msg "copy recovery journal has no recognized decision");;
              ensure (negb ((r_Decision record =s "publish") &&
                            ((r_New record =s "") || (r_Marker record <>s "") || (r_Backup record <>s ""))))
                (Msg "copy recovery journal has invalid publication identities");;
              validateWorkspace record;;
              finishPending c record file;;
              mret (Some record)
          end
      end
  end.

(** [linkDecision] publishes the decision name exclusively: an existing record
    is never overwritten. *)
Definition linkDecision (c : archiveJournalContext) (record : archiveJournal) : FM () :=
  validateWorkspace record;;
  ensure (encoded record <=? archiveJournalLimit) (Msg "copy recovery journal exceeds size limit");;
  let temporary := pending c record in
  ino ← jcreate temporary;
  r ← attempt (
    join (jwrite ino record) (join syncCopyArchiveDirectory syncCopyArchiveDirectory);;
    jlink temporary (c_journal c));
  match r with
  | Ok _ => mret ()
  | Err e => _ ← attempt (jremove temporary); fail e
  end.

Definition write (c : archiveJournalContext) (record : archiveJournal) : FM () :=
  linkDecision c record;;
  deferred (jremove (pending c record)) (
    jremove (pending c record);;
    syncCopyArchiveDirectory).

Definition workspace (c : archiveJournalContext) : FM archiveJournal :=
  token ← syscall (λ n s, (Ok ((λ b, b mod 256) <$> h_random host n), s));
  let name := ".crabbox-cp-publish-" +:+ hex_of_bytes token in
  mkdir name;;
  info ← lstat [name];
  match info with
  | None => fail (Msg "no such file or directory")
  | Some n =>
      ensure ((n_kind n =s Directory) && n_private n) (Msg "copy publication workspace is not private");;
      syncArchiveRootDirectory [];;
      mret (mkRecord 2 (c_target c) (c_parentID c) name (archiveIdentity (Some n)) "" "" "" "" "")
  end.

Definition sync (record : archiveJournal) : FM () :=
  join (syncArchiveRootDirectory [r_Workspace record]) (syncArchiveRootDirectory []).

(** [move] accepts the original or the already completed rename. *)
Definition move (from to : path) (identity : string) : FM () :=
  if identity =s "" then mret ()
  else
    source ← archiveEntryID from;
    destination ← archiveEntryID to;
    if (source =s "") && (destination =s identity) then mret ()
    else
      ensure (negb ((source <>s identity) || (destination <>s "")))
        (Msg "copy recovery needs inspection: entries changed (%s, %s); all data retained");;
      rename from to.

Definition replace (record : archiveJournal) (source saved : path) (replacement : string) : FM () :=
  waiting ← archiveEntryID source;
  (if waiting <>s "" then
     ensure (waiting =s replacement) (Msg "copy replacement identity changed; all data retained");;
     move (target_path record) saved (r_Old record);;
     sync record
   else mret ());;
  move source (target_path record) replacement.

(** The namespace moves of a decision. *)
Definition apply_decision (record : archiveJournal) : FM () :=
  (if r_Decision record =s "publish" then
     replace record (inside record "new") (inside record "old") (r_New record)
   else if r_Decision record =s ArchiveKeepDestination then
     current ← archiveEntryID (target_path record);
     ensure (current =s r_Old record) (Msg "adopted copy destination changed; all data retained");;
     move (beside record ".crabbox-cp-backup") (inside record "legacy-backup") (r_Backup record)
   else if r_Decision record =s ArchiveRestoreBackup then
     replace record (beside record ".crabbox-cp-backup") (inside record "legacy-destination") (r_Backup record)
   else mret ());;
  (if r_Decision record <>s "publish" then
     move (beside record ".crabbox-cp-transaction") (inside record "legacy-marker") (r_Marker record)
   else mret ());;
  sync record.

(** The replaced tree is removed once the published name is durable. *)
Definition discard_old (record : archiveJournal) : FM () :=
  if (r_Decision record =s "publish") && (r_Old record <>s "") then
    identity ← archiveEntryID (inside record "old");
    ensure (negb ((identity <>s "") && (identity <>s r_Old record)))
      (Msg "replaced copy destination changed; all data retained");;
    (if identity <>s "" then remove_all (inside record "old") else mret ());;
    sync record
  else mret ().

Definition recover (c : archiveJournalContext) (record : archiveJournal) : FM () :=
  syncCopyArchiveDirectory;;
  validateWorkspace record;;
  apply_decision record;;
  discard_old record;;
  jremove (c_journal c);;
  syncCopyArchiveDirectory;;
  if r_Decision record =s "publish"
  then _ ← attempt (remove_directory [r_Workspace record]); mret ()
  else mret ().

(** Where the payload is: beneath the parent of the destination, or elsewhere
    (with what [Lstat] says of it). *)
Inductive payload := Beneath (p : path) | Elsewhere (info : option node).

(** [acquireCopyArchiveTargetLock]: the lock is held or the call fails. *)
Definition acquireCopyArchiveTargetLock : FM () := syncCopyArchiveDirectory.

(** The payload becomes [new] in a fresh workspace and the decision to publish
    it is recorded. *)
Definition stage_publication (c : archiveJournalContext) (from : payload) (fresh old : option node)
    : FM archiveJournal :=
  record ← workspace c;
  let record := mkRecord (r_Version record) (r_Target record) (r_Parent record) (r_Workspace record)
    (r_WorkspaceID record) "publish" (archiveIdentity fresh) (archiveIdentity old) "" "" in
  match from with
  | Elsewhere _ => fail (Msg "copy publication payload must be staged separately beneath the destination parent")
  | Beneath p =>
      ensure (bool_decide (strip p [Base (c_target c)] = None))
        (Msg "copy publication payload must be staged separately beneath the destination parent");;
      rename p (inside record "new");;
      syncArchiveRootDirectory (parent_of p);;
      sync record;;
      write c record;;
      mret record
  end.

(** A publication first completes the one that was interrupted. *)
Definition recover_previous (case_insensitive : bool) (c : archiveJournalContext) : FM () :=
  acquireCopyArchiveTargetLock;;
  previous ← read case_insensitive c;
  match previous with Some record => recover c record | None => mret () end.

Definition publishJournaledArchive (case_insensitive : bool) (c : archiveJournalContext) (from : payload) : FM () :=
  recover_previous case_insensitive c;;
  requireLegacyArchiveAdoption c;;
  old ← lstat [Base (c_target c)];
  ensure (match old with Some n => n_kind n <>s Symlink | None => true end)
    (Msg "archive copy refuses a symlink target: %s");;
  fresh ← match from with Beneath p => lstat p | Elsewhere info => syscall (λ _ s, (Ok info, s)) end;
  match fresh with
  | None => fail (Msg "no such file or directory")
  | Some n =>
      ensure ((n_kind n =s Directory) || (n_kind n =s Regular)) (Msg "copy payload is not a file or directory");;
      record ← stage_publication c from fresh old;
      recover c record
  end.

Definition AdoptArchiveRecovery (case_insensitive : bool) (c : archiveJournalContext) (choice : string) : FM () :=
  ensure (choice ∈s [ArchiveKeepDestination; ArchiveRestoreBackup]) (Msg "choose keep-destination or restore-backup");;
  acquireCopyArchiveTargetLock;;
  existing ← read case_insensitive c;
  match existing with
  | Some record =>
      ensure (r_Decision record =s choice)
        (Msg "destination already has a different durable recovery decision");;
      recover c record
  | None =>
      let name := Base (c_target c) in
      old ← archiveEntryID [name];
      backup ← archiveEntryID [name +:+ ".crabbox-cp-backup"];
      marker ← archiveEntryID [name +:+ ".crabbox-cp-transaction"];
      ensure (negb ((backup =s "") && (marker =s ""))) (Msg "destination has no legacy recovery data to adopt");;
      ensure (negb ((choice =s ArchiveRestoreBackup) && (backup =s "")))
        (Msg "destination has no legacy backup to restore");;
      record ← workspace c;
      let record := mkRecord (r_Version record) (r_Target record) (r_Parent record) (r_Workspace record)
        (r_WorkspaceID record) choice "" old marker backup in
      write c record;;
      recover c record
  end.
End host.
