(* ===== verification/ArchiveSafety.v ===== *)
(** * Archive publication: no data is lost

    Recovery of a recorded decision, failing or killed at any system call, keeps
    every entry beside the workspace or in it under a name of its own. *)

From Stdlib Require Import ZArith Lia.
From stdpp Require Import gmap strings prelude.
From S2P Require Import Prelude GoText ArchiveJournal.
Local Open Scope string_scope.
Local Open Scope crab_scope.

(** ** Trees *)

Lemma strip_app p s : strip p (p ++ s)%list = Some s.
Proof. unfold strip. rewrite take_app_length, drop_app_length. by rewrite bool_decide_eq_true_2. Qed.

Lemma strip_Some p k s : strip p k = Some s ↔ k = (p ++ s)%list.
Proof.
  split; [|intros ->; apply strip_app]. unfold strip. case_bool_decide as H; [|done].
  intros [= <-]. by rewrite <-H at 1; rewrite take_drop.
Qed.

Lemma strip_None p k : strip p k = None ↔ ∀ s, k ≠ (p ++ s)%list.
Proof.
  split.
  - intros H s ->. by rewrite strip_app in H.
  - intros H. destruct (strip p k) as [s|] eqn:E; [|done]. apply strip_Some in E. by destruct (H s).
Qed.

Lemma lookup_subtree p m s : subtree p m !! s = m !! (p ++ s)%list.
Proof.
  unfold subtree. revert s. apply (map_fold_weak_ind (λ acc m, ∀ s, acc !! s = m !! (p ++ s)%list)).
  { intros s. by rewrite !lookup_empty. }
  intros k n m' acc Hk IH s. destruct (strip p k) as [s'|] eqn:E.
  - apply strip_Some in E as ->. destruct (decide (s = s')) as [->|Hne].
    + by rewrite !lookup_insert_eq.
    + rewrite !lookup_insert_ne by (intros H; simplify_list_eq; done). apply IH.
  - rewrite lookup_insert_ne; [apply IH|]. intros ->. by rewrite strip_app in E.
Qed.

Lemma lookup_prune p m k : prune p m !! k = if strip p k then None else m !! k.
Proof.
  unfold prune. rewrite map_lookup_filter. destruct (m !! k) as [n|]; cbn; [|by destruct (strip p k)].
  destruct (strip p k) eqn:E.
  - by rewrite option_guard_False.
  - by rewrite option_guard_True.
Qed.

(** The tree at [q] is free, and [q] is not inside [p]. *)
Definition free (m : tree) (q : path) : Prop := ∀ s, m !! (q ++ s)%list = None.

Lemma lookup_move p q m k : free m q →
  move_tree p q m !! k = match strip q k with
                         | Some s => m !! (p ++ s)%list
                         | None => if strip p k then None else m !! k
                         end.
Proof.
  intros Hq. unfold move_tree. destruct (strip q k) as [s|] eqn:E.
  - apply strip_Some in E as ->. rewrite lookup_union_r.
    + by rewrite (lookup_kmap (app q)), lookup_subtree.
    + rewrite lookup_prune, Hq. by destruct (strip p (q ++ s)).
  - rewrite lookup_union_l; [apply lookup_prune|]. apply lookup_kmap_None; [apply _|].
    intros s ->. by rewrite strip_app in E.
Qed.

(** The two places of a move are apart. *)
Definition apart (p q : path) : Prop := (∀ s, q ≠ (p ++ s)%list) ∧ (∀ s, p ≠ (q ++ s)%list).

Lemma apart_strip p q s : apart p q → strip p (q ++ s)%list = None.
Proof.
  intros [H1 H2]. apply strip_None. intros s' E.
  apply app_eq_app in E as (l & [[-> _]|[-> _]]); [by apply (H1 l)|by apply (H2 l)].
Qed.

Lemma subtree_move_to p q m : free m q → subtree q (move_tree p q m) = subtree p m.
Proof. intros Hq. apply map_eq. intros s. by rewrite !lookup_subtree, lookup_move, strip_app. Qed.

Lemma subtree_move_from p q m : free m q → apart p q → free (move_tree p q m) p.
Proof.
  intros Hq Ha s. rewrite lookup_move by done.
  rewrite (apart_strip q p) by (destruct Ha; by split). by rewrite strip_app.
Qed.

Lemma subtree_move_other p q l m : free m q → apart p l → apart q l →
  subtree l (move_tree p q m) = subtree l m.
Proof.
  intros Hq Hp Hl. apply map_eq. intros s. rewrite !lookup_subtree, lookup_move by done.
  by rewrite !apart_strip.
Qed.

(** A tree in which every entry is in a directory. *)
Definition wf (m : tree) : Prop := ∀ k x, is_Some (m !! (k ++ [x])%list) → is_directory m k = true.

Lemma parent_of_snoc (k : path) x : parent_of (k ++ [x])%list = k.
Proof. unfold parent_of. rewrite length_app. cbn. rewrite Nat.add_1_r. cbn. apply take_app_length. Qed.

(** Checking a given tree. *)
Lemma wf_check m :
  forallb (λ kn : path * node, (kn.1 =s []) || is_directory m (parent_of kn.1)) (map_to_list m) = true → wf m.
Proof.
  intros H k x [n Hn]. rewrite forallb_forall in H.
  specialize (H ((k ++ [x])%list, n)). rewrite <-list_elem_of_In, elem_of_map_to_list in H.
  specialize (H Hn). cbn in H. rewrite bool_decide_eq_false_2 in H by (by destruct k). by rewrite parent_of_snoc in H.
Qed.

Lemma wf_free m q : wf m → m !! q = None → q ≠ [] → free m q.
Proof.
  intros Hwf Hq Hne s. induction s as [|x s IH] using rev_ind; [by rewrite app_nil_r|].
  rewrite app_assoc. destruct (m !! ((q ++ s) ++ [x])%list) eqn:E; [|done].
  specialize (Hwf (q ++ s)%list x). rewrite E in Hwf. specialize (Hwf (mk_is_Some _ _ eq_refl)).
  unfold is_directory in Hwf. rewrite IH, orb_false_r in Hwf. guards. by destruct q.
Qed.

Lemma is_directory_same m m' k : m' !! k = m !! k → is_directory m' k = is_directory m k.
Proof. intros H. unfold is_directory. by rewrite H. Qed.

Lemma strip_snoc_None p k x : strip p (k ++ [x])%list = None → strip p k = None.
Proof. rewrite !strip_None. intros H s ->. apply (H (s ++ [x])%list). by rewrite app_assoc. Qed.

Lemma wf_move p q m :
  wf m → free m q → strip p q = None → is_directory m (parent_of q) = true → wf (move_tree p q m).
Proof.
  intros Hwf Hq Hpq Hdir k x. rewrite lookup_move by done.
  destruct (strip q (k ++ [x])%list) as [s|] eqn:E.
  - apply strip_Some in E. destruct s as [|y s _] using rev_ind.
    + rewrite app_nil_r in E. subst q. rewrite parent_of_snoc in Hdir. intros _.
      rewrite <-Hdir. apply is_directory_same. rewrite lookup_move by done.
      rewrite (strip_snoc_None p k x Hpq).
      assert (strip (k ++ [x])%list k = None) as ->; [|done].
      apply strip_None. intros s Es. apply (f_equal length) in Es. rewrite !length_app in Es. cbn in Es. lia.
    + rewrite app_assoc in E. apply app_inj_tail in E as [-> ->]. rewrite app_assoc. intros Hs. apply Hwf in Hs.
      unfold is_directory in *. rewrite lookup_move, strip_app by done.
      destruct (bool_decide ((p ++ s)%list = [])) eqn:Ep; cbn in Hs.
      * guards. apply app_eq_nil in Ep as [-> _]. by rewrite strip_None in Hpq; destruct (Hpq q).
      * by rewrite Hs, orb_true_r.
  - destruct (strip p (k ++ [x])%list) eqn:E'; [by intros [? ?]|]. intros Hs. apply Hwf in Hs. rewrite <-Hs.
    apply is_directory_same. rewrite lookup_move by done. by rewrite (strip_snoc_None _ _ _ E), (strip_snoc_None _ _ _ E').
Qed.

Lemma wf_prune p m : wf m → wf (prune p m).
Proof.
  intros Hwf k x. rewrite lookup_prune. destruct (strip p (k ++ [x])%list) eqn:E; [by intros [? ?]|].
  intros Hs. apply Hwf in Hs. rewrite <-Hs. apply is_directory_same.
  by rewrite lookup_prune, (strip_snoc_None _ _ _ E).
Qed.

Lemma wf_mkdir name n m : wf m → m !! [name] = None → wf (<[[name] := n]> m).
Proof.
  intros Hwf Hn k x Hs. destruct (decide ((k ++ [x])%list = [name])) as [E|E].
  - by destruct k as [|? [|]].
  - rewrite lookup_insert_ne in Hs by done. apply Hwf in Hs. rewrite <-Hs. apply is_directory_same.
    apply lookup_insert_ne. intros <-. unfold is_directory in Hs. by rewrite Hn in Hs.
Qed.

Lemma lookup_partial (removed : path → bool) (p k : path) (m : tree) :
  filter (λ kn : path * node, left_below removed p kn.1 = true) m !! k
  = if left_below removed p k then m !! k else None.
Proof.
  rewrite map_lookup_filter. destruct (m !! k) as [n|]; cbn; [|by destruct (left_below removed p k)].
  destruct (left_below removed p k); [by rewrite option_guard_True|by rewrite option_guard_False].
Qed.

Lemma removed_snoc removed p k x :
  left_below removed p (k ++ [x])%list = true → left_below removed p k = true.
Proof.
  unfold left_below. destruct (strip p (k ++ [x])%list) as [b|] eqn:E; [|by rewrite (strip_snoc_None _ _ _ E)].
  apply strip_Some in E. destruct b as [|y b _] using rev_ind.
  - rewrite app_nil_r in E. intros _. destruct (strip p k) as [b|] eqn:E'; [|done].
    apply strip_Some in E' as ->. apply (f_equal length) in E. rewrite !length_app in E. cbn in E. lia.
  - rewrite app_assoc in E. apply app_inj_tail in E as [-> _]. rewrite strip_app, !negb_true_iff.
    rewrite <-!not_true_iff_false. intros H Hex. apply H. apply existsb_exists in Hex as (i & Hi & Hr).
    apply in_seq in Hi. apply existsb_exists. exists i. rewrite length_app, in_seq. split; [cbn; lia|].
    by rewrite take_app_le by lia.
Qed.

Lemma wf_partial (removed : path → bool) (p : path) (m : tree) :
  wf m → wf (filter (λ kn : path * node, left_below removed p kn.1 = true) m).
Proof.
  intros Hwf k x. rewrite lookup_partial. destruct (left_below removed p (k ++ [x])%list) eqn:E; [|by intros [? ?]].
  intros Hs. apply Hwf in Hs. etrans; [|exact Hs]. apply is_directory_same.
  etrans; [apply lookup_partial|]. by rewrite (removed_snoc _ _ _ _ E).
Qed.

(** ** System calls *)

(** Calls that change neither directory, and calls that only touch the journal's. *)
Definition same (s s' : FS) : Prop := fs_tree s' = fs_tree s ∧ fs_journal s' = fs_journal s.
Definition same_at (p : path) (s s' : FS) : Prop := fs_tree s' !! p = fs_tree s !! p.
Definition same_tree (s s' : FS) : Prop := fs_tree s' = fs_tree s.
#[local] Instance same_preorder : PreOrder same.
Proof. split; [done|]. intros x y z [] []. split; congruence. Qed.
#[local] Instance same_at_preorder p : PreOrder (same_at p).
Proof. split; [done|]. intros x y z. unfold same_at. congruence. Qed.
#[local] Instance same_tree_preorder : PreOrder same_tree.
Proof. split; [done|]. intros x y z. unfold same_tree. congruence. Qed.

(** ** Data that is kept

    The places a publication works with: the entries of the parent other than
    its workspace, and the entries of the workspace. *)
Definition entry (ws : string) (p : path) : Prop := (∃ x, p = [x] ∧ x ≠ ws) ∨ ∃ y, p = [ws; y].

(** Every tree at a place of [m] is, with all its contents, at a place of its
    own in [m'] ([to p q]: the tree at [p] went to [q]), but for those in [gone]. *)
Definition kept_but (gone : path → Prop) (ws : string) (m m' : tree) : Prop :=
  ∃ to : path → path → Prop,
    (∀ p q, to p q → entry ws p ∧ entry ws q ∧ subtree q m' = subtree p m) ∧
    (∀ p p' q, to p q → to p' q → p = p') ∧
    (∀ p, entry ws p → is_Some (m !! p) → gone p ∨ ∃ q, to p q).
Definition kept : string → tree → tree → Prop := kept_but (λ _, False).

Definition keeps_data (ws : string) (s s' : FS) : Prop :=
  wf (fs_tree s) → wf (fs_tree s') ∧ kept ws (fs_tree s) (fs_tree s').

Lemma entries_apart ws p q : entry ws p → entry ws q → p ≠ q → apart p q.
Proof.
  intros [(x & -> & ?)|(y & ->)] [(x' & -> & ?)|(y' & ->)] Hne; split; intros s E; cbn in E; simplify_eq;
    destruct s; simplify_eq; done.
Qed.
Lemma entry_nonempty ws p : entry ws p → p ≠ [].
Proof. by intros [(x & -> & _)|(y & ->)]. Qed.

Lemma subtree_root p q m m' : subtree p m' = subtree q m → m' !! p = m !! q.
Proof.
  intros H. apply (f_equal (λ t : tree, t !! [])) in H. rewrite !lookup_subtree, !app_nil_r in H. exact H.
Qed.

(** A pointwise map gives such a correspondence. *)
Lemma kept_by (f : path → path) gone ws m m' :
  (∀ p, entry ws p → is_Some (m !! p) → gone p ∨ entry ws (f p) ∧ subtree (f p) m' = subtree p m) →
  (∀ p p', entry ws p → entry ws p' → is_Some (m !! p) → is_Some (m !! p') → f p = f p' → p = p') →
  kept_but gone ws m m'.
Proof.
  intros Hf If.
  exists (λ p q, q = f p ∧ entry ws p ∧ is_Some (m !! p) ∧ entry ws q ∧ subtree q m' = subtree p m). split_and!.
  - by intros p q (_ & ? & _ & ? & ?).
  - intros p p' q (-> & ? & ? & _) (? & ? & ? & _). by apply If.
  - intros p He Ho. destruct (Hf p He Ho) as [?|[]]; [by left|right]. exists (f p). by split_and!.
Qed.

Lemma kept_refl ws m : kept ws m m.
Proof. apply (kept_by id); [by right|done]. Qed.

(** The gone trees of the second step are named by their place in the middle. *)
Lemma kept_trans_gone gone gone' ws m1 m2 m3 :
  kept_but gone ws m1 m2 → kept_but gone' ws m2 m3 →
  kept_but (λ p, gone p ∨ ∃ q, entry ws q ∧ m1 !! p = m2 !! q ∧ gone' q) ws m1 m3.
Proof.
  intros (f & Hf & If & Df) (g & Hg & Ig & Dg). exists (λ p q, ∃ x, f p x ∧ g x q). split_and!.
  - intros p q (x & Hx & Hq). destruct (Hf _ _ Hx) as (? & ? & E1), (Hg _ _ Hq) as (? & ? & E2).
    split_and!; [done..|]. congruence.
  - intros p p' q (x & Hx & Hq) (x' & Hx' & Hq'). rewrite (Ig _ _ _ Hq Hq') in Hx. by eapply If.
  - intros p He Ho. destruct (Df p He Ho) as [?|[x Hx]]; [auto|]. destruct (Hf _ _ Hx) as (_ & Hex & Hs).
    apply subtree_root in Hs. destruct (Dg x Hex) as [?|[q Hq]]; [by rewrite Hs|left; right|right]; eauto.
Qed.

Lemma kept_weaken gone gone' ws m m' :
  kept_but gone ws m m' → (∀ p, entry ws p → is_Some (m !! p) → gone p → gone' p) → kept_but gone' ws m m'.
Proof.
  intros (f & Hf & If & Df) Hg. exists f. split_and!; [done..|]. intros p He Ho. destruct (Df p He Ho); eauto.
Qed.

Lemma kept_trans ws m1 m2 m3 : kept ws m1 m2 → kept ws m2 m3 → kept ws m1 m3.
Proof.
  intros H1 H2. eapply kept_weaken; [exact (kept_trans_gone _ _ _ _ _ _ H1 H2)|].
  by intros p _ _ [[]|(q & _ & _ & [])].
Qed.

#[local] Instance keeps_data_preorder ws : PreOrder (keeps_data ws).
Proof.
  split.
  - intros s Hwf. split; [done|apply kept_refl].
  - intros x y z Hxy Hyz Hwf. destruct (Hxy Hwf) as [Hy Kxy]. destruct (Hyz Hy) as [Hz Kyz].
    split; [done|]. by eapply kept_trans.
Qed.

Lemma same_keeps_data ws s s' : same_tree s s' → keeps_data ws s s'.
Proof. intros E Hwf. unfold same_tree in E. rewrite E. split; [done|apply kept_refl]. Qed.

Lemma kept_move ws p q m :
  wf m → entry ws p → entry ws q → p ≠ q → m !! q = None → kept ws m (move_tree p q m).
Proof.
  intros Hwf Hp Hq Hne Hnone.
  assert (free m q) as Hfree by (eapply wf_free; [done..|by eapply entry_nonempty]).
  apply (kept_by (λ l, if decide (l = p) then q else l)).
  - intros l Hl Ho. right. destruct (decide (l = p)) as [->|Hlp].
    + split; [done|]. by apply subtree_move_to.
    + split; [done|]. apply subtree_move_other; [done|by apply (entries_apart ws)|].
      apply (entries_apart ws); [done..|]. intros ->. rewrite Hnone in Ho. by destruct Ho.
  - intros l l' _ _ Ho Ho' E. destruct (decide (l = p)), (decide (l' = p)); try congruence.
    + subst l'. rewrite Hnone in Ho'. by destruct Ho'.
    + subst l. rewrite Hnone in Ho. by destruct Ho.
Qed.

Lemma childless_spec m p n s : childless m p = true → m !! p = Some n → s ≠ [] → m !! (p ++ s)%list = None.
Proof.
  unfold childless. intros Hc%bool_decide_eq_true Hp Hs. rewrite <-lookup_subtree.
  assert (subtree p m !! [] = Some n) as Hr by (by rewrite lookup_subtree, app_nil_r).
  rewrite <-(insert_delete_id _ _ _ Hr) in Hc. rewrite map_size_insert_None in Hc by apply lookup_delete_eq.
  assert (delete [] (subtree p m) = ∅) as He by (apply map_size_empty_inv; lia).
  apply (f_equal (λ t : tree, t !! s)) in He. rewrite lookup_delete_ne in He by done. by rewrite lookup_empty in He.
Qed.

Section safety.
Context (host : Host) (encoded : archiveJournal → Z).

Lemma syscall_keeps {A} (R : relation FS) `{!PreOrder R} (op : nat → FS → res A * FS) :
  (∀ s s', same s s' → R s s') → (∀ n s, R s (op n s).2) → keeps R (syscall host op).
Proof.
  intros Hs Hop s. unfold syscall, syscall_with. destruct (fs_alive s); cbn [negb]; [|reflexivity].
  destruct (h_fault host (fs_tick s)); cbn [snd]; [|by apply Hs..].
  etrans; [|apply Hop]. by apply Hs.
Qed.

Lemma lstat_same p : keeps same (lstat host p).
Proof. apply syscall_keeps; [apply _|done|]. reflexivity. Qed.
Lemma jstat_same name : keeps same (jstat host name).
Proof. apply syscall_keeps; [apply _|done|]. reflexivity. Qed.
Lemma jfstat_same f : keeps same (jfstat host f).
Proof. apply syscall_keeps; [apply _|done|]. reflexivity. Qed.
Lemma sync_directory_same : keeps same (syncCopyArchiveDirectory host).
Proof. apply syscall_keeps; [apply _|done|]. reflexivity. Qed.
Lemma sync_root_same p : keeps same (syncArchiveRootDirectory host p).
Proof. apply syscall_keeps; [apply _|done|]. intros n s. by case_match. Qed.
Hint Resolve lstat_same jstat_same jfstat_same sync_directory_same sync_root_same : crab.

Lemma join_keeps R `{!PreOrder R} a b : keeps R a → keeps R b → keeps R (join a b).
Proof. intros Ha Hb. unfold join. keeps_steps. Qed.
Lemma sync_same record : keeps same (sync host record).
Proof. apply join_keeps; eauto with crab typeclass_instances. Qed.
Lemma entry_id_same p : keeps same (archiveEntryID host p).
Proof. unfold archiveEntryID. keeps_steps. Qed.
Lemma validate_same record : keeps same (validateWorkspace host record).
Proof. unfold validateWorkspace. keeps_steps. Qed.
Hint Resolve sync_same entry_id_same validate_same : crab.

Lemma jremove_tree name : keeps same_tree (jremove host name).
Proof. apply syscall_keeps; [apply _|by intros ? ? []|]. intros n s. by case_match. Qed.
Lemma jcreate_tree name : keeps same_tree (jcreate host name).
Proof. apply syscall_keeps; [apply _|by intros ? ? []|]. intros n s. by case_match. Qed.
Lemma jwrite_tree ino r : keeps same_tree (jwrite host ino r).
Proof. apply syscall_keeps; [apply _|by intros ? ? []|done]. Qed.
Lemma jlink_tree a b : keeps same_tree (jlink host a b).
Proof. apply syscall_keeps; [apply _|by intros ? ? []|]. intros n s. by repeat case_match. Qed.
Lemma same_is_tree {A} (m : M FS A) : keeps same m → keeps same_tree m.
Proof. intros H. eapply keeps_weaken; [exact H|by intros ? ? []]. Qed.
Hint Resolve jremove_tree jcreate_tree jwrite_tree jlink_tree : crab.
Hint Extern 3 (keeps same_tree _) => apply same_is_tree; solve [eauto 2 with crab] : crab.

Lemma write_tree c record : keeps same_tree (write host encoded c record).
Proof. unfold write, linkDecision, deferred, join. keeps_steps. Qed.
Lemma read_tree ci c : keeps same_tree (read host encoded ci c).
Proof. unfold read, finishPending. keeps_steps. Qed.

(** What successful calls return. *)
Lemma syscall_ok {A} (op : nat → FS → res A * FS) s a s' :
  syscall host op s = (Ok a, s') →
  op (fs_tick s) (mkFS (fs_tree s) (fs_journal s) true (S (fs_tick s))) = (Ok a, s').
Proof.
  unfold syscall, syscall_with. destruct (negb (fs_alive s)); [done|]. by destruct (h_fault host (fs_tick s)).
Qed.

Lemma lstat_ok p s info s' : lstat host p s = (Ok info, s') → info = fs_tree s !! p ∧ same s s'.
Proof. intros H. apply syscall_ok in H. injection H as <- <-. done. Qed.

Lemma entry_id_ok p s id s' :
  archiveEntryID host p s = (Ok id, s') → id = archiveIdentity (fs_tree s !! p) ∧ same s s'.
Proof.
  intros H. apply M_bind_ok in H as (info & s1 & [-> Hs]%lstat_ok & H). by injection H as <- <-.
Qed.

Lemma identity_nonempty n : archiveIdentity (Some n) ≠ "".
Proof. unfold archiveIdentity, copyArchiveDirectoryIdentity. by destruct (FormatInt (n_dev n)). Qed.
Lemma identity_absent o : archiveIdentity o = "" ↔ o = None.
Proof. destruct o; [|done]. split; [intros H; by destruct (identity_nonempty n)|done]. Qed.

(** ** Moves *)

Lemma rename_free p q s r s' :
  rename host p q s = (r, s') → fs_tree s !! q = None →
  fs_journal s' = fs_journal s ∧
  (r ≠ Ok () ∧ fs_tree s' = fs_tree s ∨
   r = Ok () ∧ fs_tree s' = move_tree p q (fs_tree s) ∧ strip p q = None ∧
   is_directory (fs_tree s) (parent_of q) = true).
Proof.
  unfold rename, syscall, syscall_with. destruct (fs_alive s); cbn [negb]; [|intros [= <- <-]; auto].
  destruct (h_fault host (fs_tick s)); [|intros [= <- <-]; auto..]. cbn [fs_tree].
  destruct (fs_tree s !! p) as [n|]; [|intros [= <- <-]; auto].
  destruct (is_directory (fs_tree s) (parent_of q)) eqn:Hd; cbn [negb]; [|intros [= <- <-]; auto].
  destruct (strip p q) eqn:Es.
  { rewrite bool_decide_eq_true_2 by eauto. intros [= <- <-]. auto. }
  rewrite bool_decide_eq_false_2 by (by intros []). intros H Hq. rewrite Hq in H. injection H as <- <-. split; [done|].
  right. by split_and!.
Qed.

(** [move] leaves everything in place, or moves the tree of the recorded
    identity to a free place. *)
Lemma move_spec from to id s r s' :
  move host from to id s = (r, s') →
  fs_journal s' = fs_journal s ∧
  (fs_tree s' = fs_tree s ∧ (r = Ok () → id ≠ "" → fs_tree s !! from = None ∧ archiveIdentity (fs_tree s !! to) = id) ∨
   fs_tree s' = move_tree from to (fs_tree s) ∧ r = Ok () ∧ id ≠ "" ∧ fs_tree s !! to = None ∧
   archiveIdentity (fs_tree s !! from) = id ∧ strip from to = None ∧
   is_directory (fs_tree s) (parent_of to) = true).
Proof.
  unfold move. destruct (decide (id = "")) as [->|Hid].
  { rewrite bool_decide_eq_true_2 by done. intros [= <- <-]. split; [done|]. left. done. }
  rewrite bool_decide_eq_false_2 by done. unfold mbind at 1, M_bind at 1.
  pose proof (entry_id_same from s) as S1. destruct (archiveEntryID host from s) as [[source|e] s1] eqn:E1;
    cbn [snd] in S1; [|intros [= <- <-]; destruct S1; split; [done|left; split; [done|done]]].
  apply entry_id_ok in E1 as [-> _]. unfold mbind at 1, M_bind at 1.
  pose proof (entry_id_same to s1) as S2. destruct (archiveEntryID host to s1) as [[dest|e] s2] eqn:E2;
    cbn [snd] in S2; [|intros [= <- <-]; destruct S1, S2; split; [congruence|left; split; [congruence|done]]].
  apply entry_id_ok in E2 as [-> _]. assert (same s s2) as [T2 J2] by (by etrans). destruct S1 as [T1 _]. rewrite T1 in *.
  destruct (_ && _) eqn:Hdone.
  { guards. intros [= <- <-]. split; [done|]. left. split; [done|]. intros _ _. split; [|done].
    by apply identity_absent. }
  unfold mbind at 1, M_bind at 1, ensure at 1. destruct (negb (_ || _)) eqn:Hg;
    [|intros [= <- <-]; split; [done|left; split; [done|done]]].
  unfold mret at 1, M_ret at 1. intros H. guards.
  assert (fs_tree s !! to = None) as Hnone by (by apply identity_absent).
  apply rename_free in H as (HJ & H); [|by rewrite T2]. split; [congruence|]. rewrite T2 in H.
  destruct H as [[Hr HT]|(-> & HT & Hst & Hd)]; [left; split; [done|done]|right; by split_and!].
Qed.

Lemma move_keeps ws from to id :
  entry ws from → entry ws to → from ≠ to → keeps (keeps_data ws) (move host from to id).
Proof.
  intros Hf Ht Hne s Hwf. destruct (move host from to id s) as [r s'] eqn:E. cbn [snd].
  apply move_spec in E as [_ [[-> _]|(-> & _ & _ & Hnone & _ & Hst & Hd)]].
  - split; [done|apply kept_refl].
  - split; [|by apply kept_move]. apply wf_move; [done| |done|done].
    eapply wf_free; [done..|by eapply entry_nonempty].
Qed.

(** A destination whose name, with or without a sidecar suffix, is not that of
    a publication workspace. *)
Definition ordinary (name : string) : Prop :=
  ∀ suffix, suffix ∈ [""; ".crabbox-cp-backup"; ".crabbox-cp-transaction"] →
  HasPrefix (name +:+ suffix) ".crabbox-cp-publish-" = false.

Lemma entry_target record :
  ordinary (Base (r_Target record)) → HasPrefix (r_Workspace record) ".crabbox-cp-publish-" = true →
  entry (r_Workspace record) (target_path record).
Proof.
  intros Ho Hw. left. eexists. split; [done|]. intros E. specialize (Ho "" (list_elem_of_here _ _)).
  by rewrite append_empty, E, Hw in Ho.
Qed.
Lemma entry_beside record suffix :
  ordinary (Base (r_Target record)) → HasPrefix (r_Workspace record) ".crabbox-cp-publish-" = true →
  suffix ∈ [".crabbox-cp-backup"; ".crabbox-cp-transaction"] →
  entry (r_Workspace record) (beside record suffix).
Proof.
  intros Ho Hw Hs. left. eexists. split; [done|]. intros E. specialize (Ho suffix (list_elem_of_further _ _ _ Hs)).
  by rewrite E, Hw in Ho.
Qed.
Lemma entry_inside record name : entry (r_Workspace record) (inside record name).
Proof. right. by eexists. Qed.
Lemma inside_not_top record name x : inside record name ≠ [x].
Proof. done. Qed.
Lemma top_not_inside record name x : [x] ≠ inside record name.
Proof. done. Qed.
Lemma beside_not_target record suffix : suffix ≠ "" → beside record suffix ≠ target_path record.
Proof.
  unfold beside, target_path. intros Hs [= E]. apply Hs. revert E.
  induction (Base (r_Target record)) as [|a x IH]; [done|].
  change (String a (x +:+ suffix) = String a x → suffix = ""). intros [= E]. by apply IH.
Qed.

Ltac places :=
  first [ apply entry_inside | apply entry_target; assumption
        | apply entry_beside; [assumption..|solve [repeat constructor]] | apply inside_not_top | apply top_not_inside
        | by apply beside_not_target | by apply not_eq_sym, beside_not_target | done ].

Lemma quiet_keeps_data {A} ws (m : M FS A) : keeps same m → keeps (keeps_data ws) m.
Proof. intros H. eapply keeps_weaken; [exact H|]. intros s s' [? _]. by apply same_keeps_data. Qed.
Lemma tree_keeps_data {A} ws (m : M FS A) : keeps same_tree m → keeps (keeps_data ws) m.
Proof. intros H. eapply keeps_weaken; [exact H|]. intros s s' ?. by apply same_keeps_data. Qed.
Hint Extern 3 (keeps (keeps_data _) _) => apply quiet_keeps_data; solve [eauto 2 with crab] : crab.
Hint Extern 3 (keeps (keeps_data _) _) => apply tree_keeps_data; solve [eauto 2 with crab] : crab.

Section record.
Context (record : archiveJournal).
Context (Hordinary : ordinary (Base (r_Target record))).
Context (Hworkspace : HasPrefix (r_Workspace record) ".crabbox-cp-publish-" = true).
Local Abbreviation ws := (r_Workspace record).

Lemma replace_keeps source saved replacement :
  entry ws source → entry ws saved → source ≠ target_path record → target_path record ≠ saved →
  keeps (keeps_data ws) (replace host record source saved replacement).
Proof.
  intros Hs Hv Hne Hne'. unfold replace. keeps_steps; apply move_keeps; try places; done.
Qed.

Lemma apply_decision_keeps : keeps (keeps_data ws) (apply_decision host record).
Proof.
  unfold apply_decision. keeps_steps; first [apply replace_keeps | apply move_keeps]; places.
Qed.

Lemma move_landed from to id s s' :
  move host from to id s = (Ok (), s') → id ≠ "" → wf (fs_tree s) → to ≠ [] →
  archiveIdentity (fs_tree s' !! to) = id.
Proof.
  intros H Hid Hwf Hto. apply move_spec in H as [_ [[-> H]|(-> & _ & _ & Hnone & Hi & _)]]; [by apply H|].
  rewrite lookup_move by (by eapply wf_free). assert (strip to to = Some []) as ->; [|by rewrite app_nil_r].
  apply strip_Some. by rewrite app_nil_r.
Qed.

Lemma apply_publish : r_Decision record = "publish" →
  apply_decision host record =
  (replace host record (inside record "new") (inside record "old") (r_New record);; mret ();; sync host record).
Proof.
  intros Hd. unfold apply_decision. rewrite Hd. by rewrite !bool_decide_eq_true_2 by done.
Qed.

(** A completed publication has the new tree at the destination. *)
Lemma publish_applied s s' :
  apply_decision host record s = (Ok (), s') → r_Decision record = "publish" → r_New record ≠ "" →
  wf (fs_tree s) → archiveIdentity (fs_tree s' !! target_path record) = r_New record.
Proof.
  intros H Hd Hn Hwf. rewrite apply_publish in H by done.
  apply M_bind_ok in H as ([] & s3 & H & H3). apply M_bind_ok in H3 as ([] & s4 & [= <-] & H3).
  apply M_bind_ok in H as (waiting & s1 & [_ [T1 _]]%entry_id_ok & H).
  apply M_bind_ok in H as ([] & s2 & H2 & H).
  assert (wf (fs_tree s2)) as Hwf2.
  { rewrite <-T1 in Hwf. revert Hwf. clear -H2 Hordinary Hworkspace.
    match type of H2 with ?m s1 = _ => assert (keeps (keeps_data ws) m) as K end.
    { keeps_steps; apply move_keeps; places. }
    specialize (K s1). rewrite H2 in K. cbn [snd] in K. by intros []%K. }
  pose proof (sync_same record s3) as [T3 _]. rewrite H3 in T3. cbn [snd] in T3. rewrite T3.
  by eapply move_landed.
Qed.

Lemma kept_prune q m m' :
  entry ws q → (∀ k, strip q k = None → m' !! k = m !! k) → kept_but (λ p, p = q) ws m m'.
Proof.
  intros Hq Hm. apply (kept_by id); [|done]. intros p Hp _. destruct (decide (p = q)) as [->|Hne]; [by left|right].
  split; [done|]. apply map_eq. intros s. rewrite !lookup_subtree. apply Hm.
  by apply apart_strip, (entries_apart ws).
Qed.

Lemma remove_all_spec p s r s' : remove_all host p s = (r, s') →
  fs_journal s' = fs_journal s ∧
  (fs_tree s' = fs_tree s ∨ fs_tree s' = prune p (fs_tree s) ∨
   ∃ removed, fs_tree s' = filter (λ kn : path * node, left_below removed p kn.1 = true) (fs_tree s)).
Proof.
  unfold remove_all, syscall_with. destruct (fs_alive s); cbn [negb]; [|intros [= <- <-]; by split; [|left]].
  destruct (h_fault host (fs_tick s)); intros [= <- <-]; (split; [done|]); right;
    [by left|right; by eexists..].
Qed.

Lemma remove_all_keeps p s r s' : entry ws p → remove_all host p s = (r, s') → wf (fs_tree s) →
  wf (fs_tree s') ∧ kept_but (λ q, q = p) ws (fs_tree s) (fs_tree s') ∧
  (∀ k, strip p k = None → fs_tree s' !! k = fs_tree s !! k).
Proof.
  intros Hp H Hwf. apply remove_all_spec in H as [_ H].
  assert (∀ k, strip p k = None → fs_tree s' !! k = fs_tree s !! k) as Hk.
  { intros k E. destruct H as [->|[->|[removed ->]]]; [done|by rewrite lookup_prune, E|].
    rewrite lookup_partial. unfold left_below. by rewrite E. }
  split; [|split; [by apply kept_prune|done]].
  destruct H as [->|[->|[removed ->]]]; [done|by apply wf_prune|by apply wf_partial].
Qed.

Lemma discard_keeps s r s' : discard_old host record s = (r, s') → wf (fs_tree s) →
  wf (fs_tree s') ∧ fs_tree s' !! target_path record = fs_tree s !! target_path record ∧
  kept_but (λ p, r_Decision record = "publish" ∧ archiveIdentity (fs_tree s !! p) = r_Old record) ws
    (fs_tree s) (fs_tree s').
Proof.
  intros H Hwf. unfold discard_old in H.
  assert (∀ s2, fs_tree s2 = fs_tree s →
    wf (fs_tree s2) ∧ fs_tree s2 !! target_path record = fs_tree s !! target_path record ∧
    kept_but (λ p, r_Decision record = "publish" ∧ archiveIdentity (fs_tree s !! p) = r_Old record) ws
      (fs_tree s) (fs_tree s2)) as Hsame.
  { intros s2 ->. split_and!; [done..|]. eapply kept_weaken; [apply kept_refl|done]. }
  destruct (_ && _) eqn:Hd; [|injection H as <- <-; by apply Hsame]. guards.
  unfold mbind at 1, M_bind at 1 in H. pose proof (entry_id_same (inside record "old") s) as S1.
  destruct (archiveEntryID host (inside record "old") s) as [[id|e] s1] eqn:E1; cbn [snd] in S1;
    [|injection H as <- <-; by apply Hsame, S1].
  apply entry_id_ok in E1 as [Hid _]. destruct S1 as [T1 _]. unfold mbind at 1, M_bind at 1, ensure at 1 in H.
  destruct (negb (_ && _)) eqn:Hg; [|injection H as <- <-; by apply Hsame].
  unfold mret at 1, M_ret at 1 in H. destruct (decide (id = "")) as [->|Hne].
  { rewrite bool_decide_eq_true_2 in H by done. cbn [negb] in H. unfold mbind, M_bind, mret, M_ret in H.
    pose proof (sync_same record s1) as [T2 _]. rewrite H in T2. apply Hsame. cbn in T2. congruence. }
  rewrite (bool_decide_eq_false_2 (id = "")) in H, Hg by done. cbn [negb andb] in H, Hg. guards.
  unfold mbind, M_bind in H. destruct (remove_all host (inside record "old") s1) as [r2 s2] eqn:E2.
  apply remove_all_keeps in E2 as (Hwf2 & K2 & L2); [|places|by rewrite T1].
  assert (fs_tree s' = fs_tree s2) as ->.
  { destruct r2; [|by injection H as <- <-]. pose proof (sync_same record s2) as [T3 _]. rewrite H in T3. exact T3. }
  rewrite T1 in *. split_and!; [done| |].
  - apply L2. apply strip_None. by intros [].
  - eapply kept_weaken; [exact K2|]. intros p _ _ ->. cbn. split; congruence.
Qed.

Lemma remove_workspace_keeps : keeps (keeps_data ws) (remove_directory host [ws]).
Proof.
  apply syscall_keeps; [apply _|intros ? ? []; by apply same_keeps_data|]. intros _ s.
  destruct (fs_tree s !! [ws]) as [n|] eqn:En; [|reflexivity].
  destruct (childless (fs_tree s) [ws]) eqn:Ec; [|reflexivity]. intros Hwf. cbn. split; [by apply wf_prune|].
  apply (kept_by id); [|done]. intros p Hp Ho. right. split; [done|].
  destruct Hp as [(x & -> & Hx)|(y & ->)].
  - apply map_eq. intros k. rewrite !lookup_subtree, lookup_prune. cbn.
    assert (strip [ws] (x :: k) = None) as ->; [|done]. apply strip_None. intros k' E. cbn in E. congruence.
  - pose proof (childless_spec _ _ _ [y] Ec En ltac:(done)) as Hy. cbn in Hy. rewrite Hy in Ho. by destruct Ho.
Qed.

Lemma remove_workspace_target : keeps (same_at (target_path record)) (remove_directory host [ws]).
Proof.
  apply syscall_keeps; [apply _|by intros ? ? []; unfold same_at; f_equal|].
  intros _ s. destruct (fs_tree s !! [ws]); [|done]. destruct (childless _ _); [|done].
  unfold same_at. cbn. rewrite lookup_prune. assert (strip [ws] (target_path record) = None) as ->; [|done].
  apply strip_None. intros k E.
  destruct (entry_target record Hordinary Hworkspace) as [(x & Ex & Hx)|(y & Ey)]; [|done].
  rewrite Ex in E. cbn in E. congruence.
Qed.
Lemma tree_same_at {A} p (m : M FS A) : keeps same_tree m → keeps (same_at p) m.
Proof. intros H. eapply keeps_weaken; [exact H|]. intros s s' E. unfold same_at. by rewrite E. Qed.
End record.

Lemma validate_workspace_ok record s s' : validateWorkspace host record s = (Ok (), s') →
  HasPrefix (r_Workspace record) ".crabbox-cp-publish-" = true.
Proof. intros H. apply M_bind_ok in H as (? & s1 & H & _). unfold ensure in H. by case_match; guards. Qed.

(** What is left of a publication's cleanup after its decision is carried out. *)
Lemma retire_keeps c record s r s' :
  ordinary (Base (r_Target record)) → HasPrefix (r_Workspace record) ".crabbox-cp-publish-" = true →
  (jremove host (c_journal c);;
   syncCopyArchiveDirectory host;;
   if r_Decision record =s "publish"
   then _ ← attempt (remove_directory host [r_Workspace record]); mret ()
   else mret ()) s = (r, s') → wf (fs_tree s) →
  wf (fs_tree s') ∧ kept (r_Workspace record) (fs_tree s) (fs_tree s') ∧
  fs_tree s' !! target_path record = fs_tree s !! target_path record.
Proof.
  intros Ho Hw H Hwf.
  match type of H with ?m s = _ => assert (keeps (keeps_data (r_Workspace record)) m) as K;
    [|assert (keeps (same_at (target_path record)) m) as K'] end.
  - keeps_steps. by apply remove_workspace_keeps.
  - keeps_steps; try (apply tree_same_at; eauto with crab; fail). by apply remove_workspace_target.
  - specialize (K s Hwf). specialize (K' s). rewrite H in K, K'. destruct K. by split_and!.
Qed.

(** Recovery loses nothing but the tree it replaced. *)
Definition replaced (record : archiveJournal) (m m' : tree) (p : path) : Prop :=
  r_Decision record = "publish" ∧ archiveIdentity (m !! p) = r_Old record ∧
  archiveIdentity (m' !! target_path record) = r_New record.

Lemma recover_keeps c record s r s' :
  recover host c record s = (r, s') → wf (fs_tree s) →
  ordinary (Base (r_Target record)) → (r_Decision record = "publish" → r_New record ≠ "") →
  wf (fs_tree s') ∧
  kept_but (replaced record (fs_tree s) (fs_tree s')) (r_Workspace record) (fs_tree s) (fs_tree s').
Proof.
  intros H Hwf Ho Hn. unfold recover in H.
  assert (∀ m', kept (r_Workspace record) (fs_tree s) m' →
    kept_but (replaced record (fs_tree s) m') (r_Workspace record) (fs_tree s) m') as Hnone.
  { intros m' K. by eapply kept_weaken. }
  unfold mbind at 1, M_bind at 1 in H. pose proof (sync_directory_same s) as S1.
  destruct (syncCopyArchiveDirectory host s) as [[[]|e] s1]; cbn [snd] in S1.
  2: { injection H as <- <-. destruct S1 as [-> _]. split; [done|apply Hnone, kept_refl]. }
  unfold mbind at 1, M_bind at 1 in H. pose proof (validate_same record s1) as S2.
  destruct (validateWorkspace host record s1) as [[[]|e] s2] eqn:E2; cbn [snd] in S2.
  2: { injection H as <- <-. assert (same s s2) as [-> _] by (by etrans). split; [done|apply Hnone, kept_refl]. }
  assert (same s s2) as [T2 _] by (by etrans). apply validate_workspace_ok in E2.
  unfold mbind at 1, M_bind at 1 in H. pose proof (apply_decision_keeps record Ho E2 s2) as K3.
  destruct (apply_decision host record s2) as [[[]|e] s3] eqn:E3; cbn [snd] in K3.
  2: { injection H as <- <-. rewrite <-T2 in Hwf. destruct (K3 Hwf) as [? K]. rewrite T2 in K. auto. }
  rewrite <-T2 in Hwf. destruct (K3 Hwf) as [Hwf3 K3'].
  assert (r_Decision record = "publish" → archiveIdentity (fs_tree s3 !! target_path record) = r_New record) as Ht.
  { intros Hd. apply (publish_applied record Ho E2 s2 s3); auto. }
  unfold mbind at 1, M_bind at 1 in H.
  destruct (discard_old host record s3) as [r4 s4] eqn:E4.
  apply discard_keeps in E4 as (Hwf4 & T4 & K4); [|done..].
  assert (wf (fs_tree s') ∧ kept (r_Workspace record) (fs_tree s4) (fs_tree s') ∧
          fs_tree s' !! target_path record = fs_tree s4 !! target_path record) as (Hwf5 & K5 & T5).
  { destruct r4 as [[]|e]; [by eapply retire_keeps|]. injection H as <- <-. by split_and!; [|apply kept_refl|]. }
  split; [done|]. rewrite T2 in *. eapply kept_weaken;
    [exact (kept_trans_gone _ _ _ _ _ _ (kept_trans_gone _ _ _ _ _ _ K3' K4) K5)|].
  intros p _ _ [[[]|(q & _ & E & Hd & Hi)]|(q & _ & _ & [])]. split; [done|]. split; [by rewrite E|].
  rewrite T5, T4. by apply Ht.
Qed.

(** ** Reading and creating records *)

Lemma ensure_bind_ok {S A} b e (k : () → M S A) s a s' :
  (ensure b e ≫= k) s = (Ok a, s') → b = true ∧ k () s = (Ok a, s').
Proof. destruct b; [done|]. unfold ensure, mbind, M_bind, fail. done. Qed.

Lemma matches_sensitive c recorded : matchesTarget false c recorded = true → recorded = c_target c.
Proof. unfold matchesTarget. rewrite andb_false_r, orb_false_r. apply bool_decide_eq_true_1. Qed.

Lemma read_ok c s record s' :
  read host encoded false c s = (Ok (Some record), s') →
  r_Target record = c_target c ∧ recognized record = true ∧ (r_Decision record = "publish" → r_New record ≠ "").
Proof.
  unfold read. intros H. apply M_bind_ok in H as (info & s1 & _ & H). destruct info as [[info count]|]; [|done].
  apply ensure_bind_ok in H as [_ H]. apply M_bind_ok in H as (opened & s2 & _ & H).
  destruct opened as [[file n]|]; [|done]. apply M_bind_ok in H as ([actual ?] & s3 & _ & H).
  apply ensure_bind_ok in H as [_ H]. apply M_bind_ok in H as ([] & s4 & _ & H).
  destruct (jf_content file) as [r|]; [|done].
  apply ensure_bind_ok in H as [_ H]. apply ensure_bind_ok in H as [Ht H].
  apply ensure_bind_ok in H as [Hr H]. apply ensure_bind_ok in H as [Hn H].
  apply M_bind_ok in H as ([] & s5 & _ & H). apply M_bind_ok in H as ([] & s6 & _ & H). injection H as <- <-.
  apply andb_true_iff in Ht as [_ Ht]. split; [by apply matches_sensitive|]. split; [done|].
  intros Hd. rewrite Hd, bool_decide_eq_true_2 in Hn by done. cbn in Hn. by guards.
Qed.

Lemma mkdir_keeps name : keeps (keeps_data name) (mkdir host name).
Proof.
  apply syscall_keeps; [apply _|intros ? ? []; by apply same_keeps_data|]. intros n s.
  destruct (fs_tree s !! [name]) eqn:E; [reflexivity|]. destruct (h_inode host n) as [dev ino].
  intros Hwf. split; [by apply wf_mkdir|]. apply (kept_by id); [|done]. intros p Hp Ho. right. split; [done|].
  apply map_eq. intros k. rewrite !lookup_subtree. cbn. apply lookup_insert_ne.
  destruct Hp as [(x & -> & Hx)|(y & ->)]; cbn; congruence.
Qed.

Lemma workspace_keeps c s r s' : workspace host c s = (r, s') →
  ∃ ws, keeps_data ws s s' ∧
    ∀ record, r = Ok record → r_Workspace record = ws ∧ r_Target record = c_target c.
Proof.
  unfold workspace. intros H. unfold mbind at 1, M_bind at 1 in H.
  match type of H with context [syscall host ?f s] => assert (keeps same (syscall host f)) as S1 end.
  { apply syscall_keeps; [apply _|done|reflexivity]. }
  specialize (S1 s). destruct (syscall host _ s) as [[token|e] s1]; cbn [snd] in S1.
  2: { injection H as <- <-. exists "". split; [|done]. destruct S1. by apply same_keeps_data. }
  set (name := (".crabbox-cp-publish-" +:+ hex_of_bytes token)) in H. exists name.
  match type of H with ?m s1 = _ => assert (keeps (keeps_data name) m) as K end.
  { keeps_steps. apply mkdir_keeps. }
  specialize (K s1). rewrite H in K. split.
  { etrans; [|exact K]. destruct S1. by apply same_keeps_data. }
  intros record ->. clearbody name. clear K. apply M_bind_ok in H as ([] & s2 & _ & H).
  apply M_bind_ok in H as (info & s3 & _ & H). destruct info as [n|]; [|done].
  apply ensure_bind_ok in H as [_ H]. apply M_bind_ok in H as ([] & s4 & _ & H). by injection H as <- <-.
Qed.

Lemma recover_adopted c record s r s' :
  recover host c record s = (r, s') → wf (fs_tree s) → ordinary (Base (r_Target record)) →
  r_Decision record ≠ "publish" → wf (fs_tree s') ∧ kept (r_Workspace record) (fs_tree s) (fs_tree s').
Proof.
  intros H Hwf Ho Hd. apply recover_keeps in H as [Hwf' K]; [|done..]. split; [done|].
  eapply kept_weaken; [exact K|]. by intros p _ _ (? & _).
Qed.

(** Steps over code that leaves the tree alone. *)
Lemma tree_bind {A B} (m : M FS A) (k : A → M FS B) s r s' :
  keeps same_tree m → (m ≫= k) s = (r, s') →
  same_tree s s' ∨ ∃ a s1, m s = (Ok a, s1) ∧ same_tree s s1 ∧ k a s1 = (r, s').
Proof.
  intros Hm H. specialize (Hm s). unfold mbind, M_bind in H. destruct (m s) as [[a|e] s1]; cbn [snd] in Hm.
  - right. by exists a, s1.
  - injection H as <- <-. by left.
Qed.

(** Every tree is kept, for some workspace. *)
Definition nothing_lost (m m' : tree) : Prop := wf m' ∧ ∃ ws, kept ws m m'.
Lemma nothing_lost_same s s' : wf (fs_tree s) → same_tree s s' → nothing_lost (fs_tree s) (fs_tree s').
Proof. intros Hwf ->. split; [done|]. exists "". apply kept_refl. Qed.

Lemma adopt_new_keeps c choice old marker backup s r s' :
  (record ← workspace host c;
   let record := mkRecord (r_Version record) (r_Target record) (r_Parent record) (r_Workspace record)
     (r_WorkspaceID record) choice "" old marker backup in
   write host encoded c record;;
   recover host c record) s = (r, s') →
  choice ≠ "publish" → wf (fs_tree s) → ordinary (Base (c_target c)) → nothing_lost (fs_tree s) (fs_tree s').
Proof.
  intros H Hnp Hwf Ho. unfold mbind at 1, M_bind at 1 in H.
  destruct (workspace host c s) as [r1 s1] eqn:E1. apply workspace_keeps in E1 as (ws & K1 & HW).
  destruct (K1 Hwf) as [Hwf1 K1']. destruct r1 as [record|e];
    [|injection H as <- <-; split; [done|by eexists]].
  destruct (HW record eq_refl) as [<- Ht]. cbv zeta in H.
  apply tree_bind in H as [->|([] & s2 & _ & T2 & H)]; [split; [done|by eexists]| |apply write_tree].
  rewrite <-T2 in Hwf1, K1'. apply recover_adopted in H as [Hwf' K]; cbn in *; [|done|by rewrite Ht|done].
  split; [done|]. eexists. by eapply kept_trans.
Qed.

Lemma adopt_keeps c choice s r s' :
  AdoptArchiveRecovery host encoded false c choice s = (r, s') → wf (fs_tree s) → ordinary (Base (c_target c)) →
  nothing_lost (fs_tree s) (fs_tree s').
Proof.
  intros H Hwf Ho. unfold AdoptArchiveRecovery, acquireCopyArchiveTargetLock in H.
  assert (∀ s2, same_tree s s2 → nothing_lost (fs_tree s) (fs_tree s2)) as Hsame by (intros; by apply nothing_lost_same).
  apply tree_bind in H as [?|([] & s1 & Hc & T1 & H)]; [by apply Hsame| |eauto with crab typeclass_instances].
  assert (choice ≠ "publish") as Hnp.
  { intros ->. unfold ensure in Hc. rewrite bool_decide_eq_false_2 in Hc; [done|].
    rewrite !elem_of_cons, elem_of_nil. intros [?|[?|[]]]; done. }
  apply tree_bind in H as [?|([] & s2 & _ & T2 & H)]; [apply Hsame; by etrans| |eauto with crab].
  apply tree_bind in H as [?|(existing & s3 & E3 & T3 & H)]; [apply Hsame; by do 2 (etrans; [eassumption|])| |apply read_tree].
  assert (same_tree s s3) as T by (by do 2 (etrans; [eassumption|])). clear T1 T2 T3. destruct existing as [record|].
  { apply read_ok in E3 as (Ht & _ & _). apply tree_bind in H as [?|([] & s4 & Hd & T4 & H)];
      [apply Hsame; by etrans| |eauto with crab typeclass_instances].
    unfold ensure in Hd. destruct (r_Decision record =s choice) eqn:Hd'; [|done]. guards.
    assert (fs_tree s4 = fs_tree s) as T' by congruence.
    apply recover_adopted in H as [Hwf' K]; [|by rewrite T'|by rewrite Ht|congruence].
    rewrite T' in K. split; [done|by eexists]. }
  do 3 (apply tree_bind in H as [?|(? & ? & _ & T' & H)]; [apply Hsame; by etrans| |eauto with crab];
        unfold same_tree in T; rewrite <-T' in T; clear T').
  do 2 (apply tree_bind in H as [?|(? & ? & _ & T' & H)]; [apply Hsame; by etrans| |eauto with crab typeclass_instances];
        unfold same_tree in T; rewrite <-T' in T; clear T').
  apply adopt_new_keeps in H; [|done|by rewrite T|done]. by rewrite T in H.
Qed.

(** C9. Copy recovery never loses data.  From any directory contents and
    whatever record is recovered, every tree in the parent of the destination
    and in the recovery workspace is still there afterwards with all its
    contents, each at a place of its own, however the recovery fails or is
    killed; the only exception is a publication that has put the recorded new
    entry at the destination, which may remove the entry of the recorded old
    identity.  Adopting legacy recovery data loses no tree at all. *)
Theorem archive_data_kept c record choice s r s' :
  wf (fs_tree s) →
  (recover host c record s = (r, s') → ordinary (Base (r_Target record)) →
   (r_Decision record = "publish" → r_New record ≠ "") →
   kept_but (replaced record (fs_tree s) (fs_tree s')) (r_Workspace record) (fs_tree s) (fs_tree s')) ∧
  (AdoptArchiveRecovery host encoded false c choice s = (r, s') → ordinary (Base (c_target c)) →
   nothing_lost (fs_tree s) (fs_tree s')).
Proof.
  intros Hwf. split.
  - intros H Ho Hn. by apply recover_keeps in H as [_ K].
  - intros H Ho. by eapply adopt_keeps.
Qed.
End safety.

(** ** An example: a process killed between the two moves *)
Definition example_host (last : nat) : Host :=
  mkHost (λ n, if bool_decide (n < last) then Runs else Killed)%nat (λ _, replicate 16 7%Z)
    (λ n, (1, 100 + Z.of_nat n)%Z) (λ _ _, false) (λ n, 1000 + Z.of_nat n)%Z (octal 0 2 2).
Definition example_context : archiveJournalContext := mkContext "/srv/data" "1:2" "j.json".
Definition example_state : FS :=
  mkFS (list_to_map [(["data"], mkNode Directory 1 10 true (octal 7 5 5) 500 []); (["data"; "a"], mkNode Regular 1 11 true (octal 6 4 4) 501 [1; 2]%Z);
                     (["stage"], mkNode Directory 1 12 true (octal 7 0 0) 502 []); (["stage"; "b"], mkNode Regular 1 13 true (octal 6 4 4) 503 [3]%Z)])
    ∅ true 0.
Definition example_record : archiveJournal :=
  mkRecord 2 "/srv/data" "1:2" ".crabbox-cp-publish-07" "1:20" "publish" "1:12" "1:10" "" "".
Definition example_decided : FS :=
  mkFS (<[[".crabbox-cp-publish-07"] := mkNode Directory 1 20 true (octal 7 0 0) 504 []]>
          (move_tree ["stage"] [".crabbox-cp-publish-07"; "new"] (fs_tree example_state)))
    {["j.json" := mkJFile 30 true (Some example_record)]} true 0.

Lemma example_ordinary : ordinary (Base "/srv/data").
Proof.
  intros suffix. rewrite !elem_of_cons. intros [->|[->|[->|[]%elem_of_nil]]]; vm_compute; reflexivity.
Qed.

Lemma archive_data_kept_witness :
  let '(r, s') := recover (example_host 300) example_context example_record example_decided in
  r = Ok () ∧ fs_tree s' !! ["data"] = Some (mkNode Directory 1 12 true (octal 7 0 0) 502 []) ∧
  kept_but (replaced example_record (fs_tree example_decided) (fs_tree s')) ".crabbox-cp-publish-07"
    (fs_tree example_decided) (fs_tree s').
Proof.
  destruct (recover (example_host 300) example_context example_record example_decided) as [r s'] eqn:E.
  split; [|split].
  - apply (f_equal fst) in E. etransitivity; [symmetry; exact E|]. vm_compute. reflexivity.
  - apply (f_equal (λ rs : res () * FS, fs_tree rs.2 !! ["data"])) in E. cbn [snd] in E.
    etransitivity; [symmetry; exact E|]. vm_compute. reflexivity.
  - apply (archive_data_kept (example_host 300) (λ _, 400%Z) example_context example_record "" example_decided r s').
    + apply wf_check. vm_compute. reflexivity.
    + exact E.
    + exact example_ordinary.
    + discriminate.
Defined.
