(* ===== verification/ArchiveLive.v ===== *)
(** * Archive publication: interruption and completion

    A publication that fails or is killed at any system call leaves the
    destination as it was, published, or under a durable decision that the next
    attempt completes. *)

From Stdlib Require Import ZArith Lia.
From stdpp Require Import gmap strings prelude.
From S2P Require Import Prelude GoText ArchiveJournal ArchiveSafety.
Local Open Scope string_scope.
Local Open Scope crab_scope.

(** ** A program logic for interruptible code

    [triple host live P m Q E]: from a state in [P], code that returns ends in
    [Q] and code that fails or is killed ends in [E].  When [live], also: where
    no call fails, a running process returns. *)
Definition calm (host : Host) : Prop := ∀ n, h_fault host n = Runs.

Definition quiet (host : Host) (live : bool) : Prop := live = true ∧ calm host.

Definition assertion : Type := tree → gmap string jfile → Prop.

Definition triple (host : Host) (live : bool) {A : Type} (P : assertion) (m : M FS A) (Q : A → assertion) (E : assertion) : Prop :=
  ∀ s, P (fs_tree s) (fs_journal s) →
  match (m s).1 with
  | Ok a => Q a (fs_tree (m s).2) (fs_journal (m s).2)
  | Err _ => E (fs_tree (m s).2) (fs_journal (m s).2)
  end ∧
  (quiet host live → fs_alive s = true → (∃ a, (m s).1 = Ok a) ∧ fs_alive (m s).2 = true).

Section logic.
Context (host : Host) (live : bool).
Local Abbreviation triple := (triple host live).

Lemma t_ret {A : Type} (a : A) (Q : A → assertion) E : triple (Q a) (mret a) Q E.
Proof. intros s H. split; [done|]. intros _ Ha. split; [by eexists|done]. Qed.

Lemma t_bind {A B : Type} P (m : M FS A) Q (k : A → M FS B) Q' E :
  triple P m Q E → (∀ a, triple (Q a) (k a) Q' E) → triple P (m ≫= k) Q' E.
Proof.
  intros Hm Hk s HP. destruct (Hm s HP) as [H1 H2]. unfold mbind, M_bind.
  destruct (m s) as [[a|e] s1]; cbn in *.
  - destruct (Hk a s1 H1) as [H3 H4]. split; [done|]. intros Hc Ha. apply H4; [done|]. by apply H2.
  - split; [done|]. intros Hc Ha. by destruct (H2 Hc Ha) as [[a [=]] _].
Qed.

Lemma t_conseq {A : Type} (P P' : assertion) (m : M FS A) (Q Q' : A → assertion) (E E' : assertion) :
  triple P m Q E → (∀ t j, P' t j → P t j) → (∀ a t j, Q a t j → Q' a t j) → (∀ t j, E t j → E' t j) →
  triple P' m Q' E'.
Proof.
  intros H HP HQ HE s Hs. destruct (H s (HP _ _ Hs)) as [H1 H2]. split; [|done].
  destruct (m s).1; [by apply HQ|by apply HE].
Qed.

Lemma t_err {A : Type} (P : assertion) (m : M FS A) (Q : A → assertion) (E E' : assertion) :
  triple P m Q E → (∀ t j, E t j → E' t j) → triple P m Q E'.
Proof. intros H HE. by eapply t_conseq. Qed.
Lemma t_pre {A : Type} (P P' : assertion) (m : M FS A) (Q : A → assertion) (E : assertion) :
  triple P m Q E → (∀ t j, P' t j → P t j) → triple P' m Q E.
Proof. intros H HP. by eapply t_conseq. Qed.

(** Facts that do not mention the state move between the two levels. *)
Lemma t_pure {A : Type} (ψ : Prop) P (m : M FS A) Q E :
  (ψ → triple P m Q E) → triple (λ t j, ψ ∧ P t j) m Q E.
Proof. intros H s [Hψ HP]. by apply H. Qed.

Lemma t_fact {A : Type} (ψ : Prop) (P : assertion) (m : M FS A) Q E :
  (∀ t j, P t j → ψ) → (ψ → triple P m Q E) → triple P m Q E.
Proof. intros Hψ H s HP. apply H; [by eapply Hψ|done]. Qed.

Lemma t_done {A : Type} (P : assertion) (a : A) (Q : A → assertion) E :
  (∀ t j, P t j → Q a t j) → triple P (mret a) Q E.
Proof. intros H. eapply t_pre; [apply (t_ret a Q E)|done]. Qed.
Lemma t_absurd {A : Type} (P : assertion) (m : M FS A) Q E : (∀ t j, P t j → False) → triple P m Q E.
Proof. intros H s HP. by destruct (H _ _ HP). Qed.
Lemma t_ensure (b : bool) e (P Q E : assertion) :
  (∀ t j, P t j → b = true ∧ Q t j) → triple P (ensure b e) (λ _, Q) E.
Proof. intros Hb s HP. destruct (Hb _ _ HP) as [-> HQ]. by apply (t_ret () (λ _, Q) E). Qed.

Lemma t_syscall_with {A : Type} P interrupted (op : nat → FS → res A * FS) Q (E : assertion) :
  (∀ n s, P (fs_tree s) (fs_journal s) →
     ∃ a s', op n s = (Ok a, s') ∧ Q a (fs_tree s') (fs_journal s') ∧ fs_alive s' = fs_alive s) →
  (∀ t j, P t j → E t j) →
  (∀ n s, P (fs_tree s) (fs_journal s) → E (fs_tree (interrupted n s)) (fs_journal (interrupted n s))) →
  triple P (syscall_with host interrupted op) Q E.
Proof.
  intros Hop HE HI s HP. unfold syscall_with. destruct (fs_alive s) eqn:Ha; cbn [negb].
  2: { split; [by apply HE|]. intros _ [=]. }
  destruct (h_fault host (fs_tick s)) eqn:Hf.
  - destruct (Hop (fs_tick s) (mkFS (fs_tree s) (fs_journal s) true (S (fs_tick s))) HP) as (a & s' & -> & HQ & Ha').
    cbn. split; [done|]. intros _ _. split; [by eexists|done].
  - split; [by apply HI|]. intros Hc. by rewrite (proj2 Hc) in Hf.
  - split; [by apply (HI _ (mkFS _ _ _ _))|]. intros Hc. by rewrite (proj2 Hc) in Hf.
Qed.

Lemma t_syscall {A : Type} P (op : nat → FS → res A * FS) Q (E : assertion) :
  (∀ n s, P (fs_tree s) (fs_journal s) →
     ∃ a s', op n s = (Ok a, s') ∧ Q a (fs_tree s') (fs_journal s') ∧ fs_alive s' = fs_alive s) →
  (∀ t j, P t j → E t j) → triple P (syscall host op) Q E.
Proof. intros Hop HE. apply t_syscall_with; auto. Qed.

(** Code whose error is dropped. *)
Lemma t_attempt {A : Type} P (m : M FS A) (Q : assertion) (E : assertion) :
  (∀ s, P (fs_tree s) (fs_journal s) → Q (fs_tree (m s).2) (fs_journal (m s).2) ∧
        (quiet host live → fs_alive s = true → fs_alive (m s).2 = true)) →
  triple P (attempt m) (λ _, Q) E.
Proof.
  intros H s HP. destruct (H s HP) as [H1 H2]. unfold attempt. destruct (m s) as [r s']; cbn in *.
  split; [done|]. intros Hc Ha. split; [by eexists|by apply H2].
Qed.

Lemma t_attempt_triple {A : Type} P (m : M FS A) Q (E E' : assertion) :
  triple P m Q E → triple P (attempt m) (λ r, match r with Ok a => Q a | Err _ => E end) E'.
Proof.
  intros H s HP. destruct (H s HP) as [H1 H2]. unfold attempt. destruct (m s) as [r s']; cbn in *.
  split; [by destruct r|]. intros Hc Ha. destruct (H2 Hc Ha). split; [by eexists|done].
Qed.

Lemma t_attempt_keeps {A : Type} (P : assertion) (m : M FS A) (E : assertion) :
  triple P m (λ _, P) P → triple P (attempt m) (λ _, P) E.
Proof.
  intros H. eapply t_conseq; [apply (t_attempt_triple _ _ _ _ E H)|done| |done]. by intros [].
Qed.

Lemma alive_syscall {A : Type} (op : nat → FS → res A * FS) s :
  (∀ n s, fs_alive (op n s).2 = fs_alive s) → quiet host live → fs_alive s = true → fs_alive (syscall host op s).2 = true.
Proof. intros Hop Hc Ha. unfold syscall, syscall_with. rewrite Ha, (proj2 Hc). cbn. apply Hop. Qed.

(** Calls that read. *)
Lemma t_lstat (P : assertion) p : triple P (lstat host p) (λ info t j, info = t !! p ∧ P t j) P.
Proof. apply t_syscall; [|done]. intros n s HP. by do 2 eexists. Qed.
Lemma t_entry_id (P : assertion) p :
  triple P (archiveEntryID host p) (λ id t j, id = archiveIdentity (t !! p) ∧ P t j) P.
Proof.
  eapply t_bind; [apply t_lstat|]. intros info. cbn.
  apply t_done. by intros t j [-> HP].
Qed.
Lemma t_sync_directory (P : assertion) : triple P (syncCopyArchiveDirectory host) (λ _, P) P.
Proof. apply t_syscall; [|done]. intros n s HP. by do 2 eexists. Qed.
Lemma t_sync_root (P : assertion) p :
  (∀ t j, P t j → is_directory t p = true) → triple P (syncArchiveRootDirectory host p) (λ _, P) P.
Proof. intros Hp. apply t_syscall; [|done]. intros n s HP. rewrite (Hp _ _ HP). by do 2 eexists. Qed.
Lemma t_join (P : assertion) a b :
  triple P a (λ _, P) P → triple P b (λ _, P) P → triple P (join a b) (λ _, P) P.
Proof.
  intros Ha Hb s HP. destruct (Ha s HP) as [H1 H2]. unfold join, attempt, mbind, M_bind.
  destruct (a s) as [ra s1]; cbn in *. assert (P (fs_tree s1) (fs_journal s1)) as HP1 by (by destruct ra).
  destruct (Hb s1 HP1) as [H3 H4]. destruct (b s1) as [rb s2]; cbn in *.
  assert (P (fs_tree s2) (fs_journal s2)) as HP2 by (by destruct rb). split.
  - by destruct ra as [[]|], rb as [[]|].
  - intros Hc Hl. destruct (H2 Hc Hl) as [[? ->] Hl1]. destruct (H4 Hc Hl1) as [[? ->] Hl2].
    split; [by eexists|done].
Qed.

Lemma t_rename (P Q E : assertion) from to :
  (∀ t j, P t j → is_Some (t !! from) ∧ is_directory t (parent_of to) = true ∧ strip from to = None ∧
                  t !! to = None ∧ Q (move_tree from to t) j) →
  (∀ t j, P t j → E t j) → triple P (rename host from to) (λ _, Q) E.
Proof.
  intros H HE. apply t_syscall; [|done]. intros n s HP. destruct (H _ _ HP) as ([f Hf] & Hd & Hst & Hto & HQ).
  cbv zeta. rewrite Hf, Hd, Hto. rewrite bool_decide_eq_false_2 by (rewrite Hst; by intros []). by do 2 eexists.
Qed.

(** [move] when the recorded entry is at its old or at its new place. *)
Lemma t_move (P Q E : assertion) from to id :
  (∀ t j, P t j →
     id = "" ∧ Q t j ∨
     id ≠ "" ∧ t !! from = None ∧ archiveIdentity (t !! to) = id ∧ Q t j ∨
     id ≠ "" ∧ archiveIdentity (t !! from) = id ∧ t !! to = None ∧ is_directory t (parent_of to) = true ∧
       strip from to = None ∧ Q (move_tree from to t) j) →
  (∀ t j, P t j → E t j) → triple P (move host from to id) (λ _, Q) E.
Proof.
  intros H HE. unfold move. destruct (decide (id = "")) as [->|Hid].
  { rewrite bool_decide_eq_true_2 by done. apply t_done.
    intros t j HP. destruct (H _ _ HP) as [[_ ?]|[[? _]|[? _]]]; done. }
  rewrite bool_decide_eq_false_2 by done.
  eapply t_bind; [eapply t_err; [apply (t_entry_id P)|exact HE]|]. intros source. cbn.
  eapply t_bind; [eapply t_err; [apply t_entry_id|]|].
  { intros t j [_ HP]. by apply HE. }
  intros dest. cbn. destruct (_ && _) eqn:Hdone.
  - apply t_done. intros t j (-> & -> & HP). guards.
    destruct (H _ _ HP) as [[? _]|[(_ & _ & _ & ?)|(_ & E1 & _)]]; [done|done|].
    congruence.
  - eapply t_bind; [apply (t_ensure _ _ _ (λ t j, dest = archiveIdentity (t !! to) ∧ source = archiveIdentity (t !! from) ∧ P t j))|].
    + intros t j (-> & -> & HP). split; [|done]. destruct (H _ _ HP) as [[? _]|[(_ & E1 & E2 & ?)|(_ & E1 & E2 & _)]]; [done| |].
      * rewrite E1 in Hdone. cbn in Hdone. by rewrite bool_decide_eq_true_2, bool_decide_eq_true_2 in Hdone.
      * rewrite E1, E2. cbn. by rewrite !bool_decide_eq_true_2.
    + intros []. cbn. apply t_rename; [|intros t j (_ & _ & HP); by apply HE]. intros t j (-> & -> & HP).
      destruct (H _ _ HP) as [[? _]|[(_ & E1 & E2 & ?)|(_ & E1 & E2 & Hd & Hst & HQ)]]; [done| |].
      * rewrite E1 in Hdone. cbn in Hdone. by rewrite bool_decide_eq_true_2, bool_decide_eq_true_2 in Hdone.
      * split_and!; try done. destruct (t !! from); [by eexists|]. by destruct Hid.
Qed.

(** Without a claim of progress, code may also fail by itself. *)
Section safety_only.
Local Abbreviation triple := (ArchiveLive.triple host false).

Lemma t_safe {A : Type} (P : assertion) (m : M FS A) Q (E : assertion) :
  (∀ s, P (fs_tree s) (fs_journal s) →
     match m s with
     | (Ok a, s') => Q a (fs_tree s') (fs_journal s')
     | (Err _, s') => E (fs_tree s') (fs_journal s')
     end) → triple P m Q E.
Proof. intros H s HP. specialize (H s HP). destruct (m s) as [[a|e] s']; (split; [done|by intros [? _]]). Qed.
Lemma t_check (b : bool) e (P : assertion) : triple P (ensure b e) (λ _ t j, b = true ∧ P t j) P.
Proof. apply t_safe. intros s HP. by destruct b. Qed.
Lemma t_fails {A : Type} (P : assertion) e (Q : A → assertion) : triple P (fail e) Q P.
Proof. by apply t_safe. Qed.
Lemma t_call {A : Type} P (op : nat → FS → res A * FS) Q (E : assertion) :
  (∀ n s, P (fs_tree s) (fs_journal s) →
     match op n s with
     | (Ok a, s') => Q a (fs_tree s') (fs_journal s')
     | (Err _, s') => E (fs_tree s') (fs_journal s')
     end) → (∀ t j, P t j → E t j) → triple P (syscall host op) Q E.
Proof.
  intros Hop HE. apply t_safe. intros s HP. unfold syscall, syscall_with. destruct (fs_alive s); cbn [negb]; [|by apply HE].
  destruct (h_fault host (fs_tick s)); [|by apply HE..]. by apply (Hop _ (mkFS _ _ _ _)).
Qed.
End safety_only.
End logic.

(** ** A decided publication *)

(** A tree without a root is empty. *)
Definition grounded (T : tree) : Prop := T !! [] = None → T = ∅.

(** A record that [read] accepts as the decision to publish the tree [TN] over
    the tree [TO]. *)
Record publication (encoded : archiveJournal → Z) (c : archiveJournalContext) (record : archiveJournal)
    (TN TO : tree) : Prop := mkPublication {
  p_ordinary : ordinary (Base (r_Target record));
  p_prefix : HasPrefix (r_Workspace record) ".crabbox-cp-publish-" = true;
  p_base : Base (r_Workspace record) = r_Workspace record;
  p_workspace : r_WorkspaceID record ≠ "";
  p_decision : r_Decision record = "publish";
  p_new : archiveIdentity (TN !! []) = r_New record;
  p_new_nonempty : r_New record ≠ "";
  p_old : archiveIdentity (TO !! []) = r_Old record;
  p_grounded : grounded TO;
  p_sidecars : r_Marker record = "" ∧ r_Backup record = "";
  p_encoded : (encoded record ≤ archiveJournalLimit)%Z;
  p_version : r_Version record = 2%Z;
  p_parent : r_Parent record = c_parentID c;
  p_target : r_Target record = c_target c }.

Section publication.
Context (host : Host) (live : bool) (encoded : archiveJournal → Z).
Context (c : archiveJournalContext) (record : archiveJournal) (TN TO : tree).
Context (Hpub : publication encoded c record TN TO).
Local Abbreviation triple := (triple host live).
Local Abbreviation ws := (r_Workspace record).

(** The workspace the record names is in place. *)
Definition ready (t : tree) : Prop :=
  wf t ∧ ∃ n, t !! [ws] = Some n ∧ n_kind n = Directory ∧ n_private n = true ∧
              archiveIdentity (Some n) = r_WorkspaceID record.

(** The three states of a decided publication. *)
Definition waiting (t : tree) : Prop :=
  subtree (inside record "new") t = TN ∧ subtree (target_path record) t = TO ∧ free t (inside record "old").
Definition displaced (t : tree) : Prop :=
  subtree (inside record "new") t = TN ∧ free t (target_path record) ∧ subtree (inside record "old") t = TO.
Definition landed (t : tree) : Prop :=
  free t (inside record "new") ∧ subtree (target_path record) t = TN ∧
  (archiveIdentity (t !! inside record "old") = "" ∨ archiveIdentity (t !! inside record "old") = r_Old record).
Definition decided (t : tree) : Prop := ready t ∧ (waiting t ∨ displaced t ∨ landed t).

Lemma subtree_at p (t T : tree) : subtree p t = T → t !! p = T !! [].
Proof. intros <-. by rewrite lookup_subtree, app_nil_r. Qed.
Lemma free_subtree p (t : tree) : free t p ↔ subtree p t = ∅.
Proof.
  split.
  - intros H. apply map_eq. intros s. by rewrite lookup_subtree, H, lookup_empty.
  - intros H s. by rewrite <-lookup_subtree, H, lookup_empty.
Qed.
Lemma free_root p (t : tree) : free t p → t !! p = None.
Proof. intros H. specialize (H []). by rewrite app_nil_r in H. Qed.

Lemma ready_directory t p : ready t → p ∈ [[]; [ws]] → is_directory t p = true.
Proof.
  intros (_ & n & Hn & Hk & _) [->|[->|[]%elem_of_nil]%elem_of_cons]%elem_of_cons; [done|].
  unfold is_directory. rewrite Hn, Hk. done.
Qed.

Lemma entry_places : entry ws (target_path record) ∧ entry ws (inside record "new") ∧ entry ws (inside record "old").
Proof. destruct Hpub. split; [by apply entry_target|split; apply entry_inside]. Qed.

Ltac elsewhere := first [done | apply inside_not_top | apply top_not_inside | by intros [=]].

(** Moving an entry leaves the workspace in place. *)
Lemma ready_move p q t :
  ready t → entry ws p → entry ws q → p ≠ q → free t q → is_directory t (parent_of q) = true →
  ready (move_tree p q t).
Proof.
  intros (Hwf & n & Hn & H) Hp Hq Hne Hfree Hd.
  assert (strip p q = None) as Hst by (apply strip_None, (entries_apart ws p q); done).
  split; [by apply wf_move|]. exists n. split; [|done]. rewrite lookup_move by done.
  assert (∀ l, entry ws l → strip l [ws] = None) as Hl.
  { intros l [(x & -> & Hx)|(y & ->)]; apply strip_None; intros s E; cbn in E; congruence. }
  by rewrite !Hl.
Qed.

(** The first move: the old tree leaves the destination. *)
Lemma displace t : ready t → waiting t →
  r_Old record = "" ∧ displaced t ∨
  r_Old record ≠ "" ∧ archiveIdentity (t !! target_path record) = r_Old record ∧ t !! inside record "old" = None ∧
    is_directory t (parent_of (inside record "old")) = true ∧ strip (target_path record) (inside record "old") = None ∧
    ready (move_tree (target_path record) (inside record "old") t) ∧
    displaced (move_tree (target_path record) (inside record "old") t).
Proof.
  intros Hr (HN & HT & HO). destruct entry_places as (Et & En & Eo). destruct Hpub.
  pose proof (subtree_at _ _ _ HT) as Hroot. destruct (decide (r_Old record = "")) as [E|E]; [left|right].
  - split; [done|]. rewrite E in p_old0. apply identity_absent in p_old0. apply p_grounded0 in p_old0.
    split; [done|]. rewrite p_old0 in HT |- *. split; [by apply free_subtree|by apply free_subtree].
  - assert (is_directory t (parent_of (inside record "old")) = true) as Hd.
    { apply ready_directory; [done|]. by right; left. }
    split; [done|]. split; [by rewrite Hroot|]. split; [by apply free_root|]. split; [done|].
    split; [apply strip_None, (entries_apart ws); elsewhere|]. split; [apply ready_move; elsewhere|].
    split; [|split].
    + rewrite subtree_move_other; [done|done|apply (entries_apart ws); elsewhere..].
    + apply subtree_move_from; [done|]. apply (entries_apart ws); elsewhere.
    + by rewrite subtree_move_to.
Qed.

(** The second move: the new tree takes its place. *)
Lemma land t : ready t → displaced t →
  archiveIdentity (t !! inside record "new") = r_New record ∧ t !! target_path record = None ∧
  is_directory t (parent_of (target_path record)) = true ∧ strip (inside record "new") (target_path record) = None ∧
  ready (move_tree (inside record "new") (target_path record) t) ∧
  landed (move_tree (inside record "new") (target_path record) t).
Proof.
  intros Hr (HN & HT & HO). destruct entry_places as (Et & En & Eo). destruct Hpub.
  rewrite (subtree_at _ _ _ HN). split; [done|]. split; [by apply free_root|]. split; [done|].
  split; [apply strip_None, (entries_apart ws); elsewhere|]. split; [apply ready_move; elsewhere|]. split; [|split].
  - apply subtree_move_from; [done|]. apply (entries_apart ws); elsewhere.
  - by rewrite subtree_move_to.
  - right. rewrite (subtree_at (inside record "old") _ TO); [done|].
    rewrite subtree_move_other; [done|done|apply (entries_apart ws); elsewhere..].
Qed.


Lemma t_validate_named (P : assertion) :
  HasPrefix ws ".crabbox-cp-publish-" = true → Base ws = ws → r_WorkspaceID record ≠ "" →
  (∀ t j, P t j → ready t) → triple P (validateWorkspace host record) (λ _, P) P.
Proof.
  intros Hprefix Hbase Hid HP. unfold validateWorkspace.
  eapply t_bind; [apply (t_ensure host live _ _ P P)|].
  { intros t j H. rewrite Hprefix, Hbase. by rewrite bool_decide_eq_true_2, bool_decide_eq_false_2. }
  intros []. eapply t_bind; [apply t_lstat|]. intros info. cbn. destruct info as [n|].
  - apply t_ensure. intros t j [E H]. split; [|done]. destruct (HP _ _ H) as (_ & n' & E' & Hk & Hp & Hi).
    rewrite E' in E. injection E as ->. cbn in Hi. by rewrite Hk, Hp, Hi, !bool_decide_eq_true_2.
  - apply t_absurd. intros t j [E H]. destruct (HP _ _ H) as (_ & n' & E' & _). congruence.
Qed.
Lemma t_validate (P : assertion) : (∀ t j, P t j → ready t) → triple P (validateWorkspace host record) (λ _, P) P.
Proof. destruct Hpub. by apply t_validate_named. Qed.

Lemma t_sync (P : assertion) : (∀ t j, P t j → ready t) → triple P (sync host record) (λ _, P) P.
Proof.
  intros HP. apply t_join; apply t_sync_root; intros t j H; apply ready_directory; try (by eapply HP).
  - by right; left.
  - by left.
Qed.

Context (J : gmap string jfile → Prop).

Lemma t_replace :
  triple (λ t j, decided t ∧ J j) (replace host record (inside record "new") (inside record "old") (r_New record))
    (λ _ t j, (ready t ∧ landed t) ∧ J j) (λ t j, decided t ∧ J j).
Proof.
  unfold replace. eapply t_bind; [apply t_entry_id|]. intros id. cbn.
  eapply t_bind with (Q := λ _ t j, (ready t ∧ (displaced t ∨ landed t)) ∧ J j).
  - destruct (decide (id = "")) as [->|Hid].
    + rewrite bool_decide_eq_true_2 by done. apply t_done. intros t j (E & [Hr Hph] & HJ). split; [|done].
      split; [done|]. destruct Hph as [(HN & _)|Hph]; [|done]. exfalso. destruct Hpub.
      rewrite (subtree_at _ _ _ HN) in E. congruence.
    + rewrite (bool_decide_eq_false_2 (id = "")) by done. cbn [negb].
      eapply t_bind; [apply (t_ensure host live _ _ _ (λ t j, (ready t ∧ (waiting t ∨ displaced t)) ∧ J j))|].
      { intros t j (-> & [Hr Hph] & HJ).
        assert ((waiting t ∨ displaced t) ∧ subtree (inside record "new") t = TN) as [Hph' HN].
        { destruct Hph as [H|[H|(H & _)]]; [split; [by left|by destruct H]|split; [by right|by destruct H]|].
          rewrite (free_root _ _ H) in Hid. done. }
        rewrite (subtree_at _ _ _ HN). destruct Hpub. rewrite p_new0. by rewrite bool_decide_eq_true_2. }
      intros []. eapply t_bind; [eapply (t_move host live _ (λ t j, (ready t ∧ displaced t) ∧ J j))|intros []].
      * intros t j [[Hr [Hw|Hd]] HJ].
        -- destruct (displace t Hr Hw) as [[? ?]|(? & ? & ? & ? & ? & ? & ?)]; [by left|by right; right].
        -- destruct (decide (r_Old record = "")); [by left|right; left]. destruct Hd as (HN & HT & HO).
           split; [done|]. split; [by apply free_root|]. rewrite (subtree_at _ _ _ HO). by destruct Hpub.
      * intros t j [[Hr [?|?]] HJ]; (split; [split|]; [done| |done]); auto.
      * eapply t_conseq; [apply (t_sync (λ t j, (ready t ∧ displaced t) ∧ J j))|done|..].
        -- by intros t j [[]].
        -- intros _ t j [[] ?]. auto.
        -- intros t j [[Hr ?] ?]. split; [|done]. split; [done|auto].
  - intros []. apply t_move.
    + intros t j [[Hr [Hd|Hl]] HJ].
      * right; right. destruct (land t Hr Hd) as (? & ? & ? & ? & ? & ?). by destruct Hpub.
      * right; left. destruct Hl as (HN & HT & HO). destruct Hpub. split; [done|]. split; [by apply free_root|].
        by rewrite (subtree_at _ _ _ HT).
    + intros t j [[Hr [?|?]] HJ]; (split; [split|]; [done| |done]); auto.
Qed.

Lemma t_apply :
  triple (λ t j, decided t ∧ J j) (apply_decision host record)
    (λ _ t j, (ready t ∧ landed t) ∧ J j) (λ t j, decided t ∧ J j).
Proof.
  rewrite apply_publish by (by destruct Hpub). eapply t_bind; [apply t_replace|]. intros [].
  eapply t_bind; [by apply (t_done host live _ _ (λ _ t j, (ready t ∧ landed t) ∧ J j))|]. intros [].
  eapply t_err; [apply t_sync; by intros t j [[] _]|]. intros t j [[Hr ?] ?]. split; [split|]; auto.
Qed.

(** Removing what is at [old], in whole or in part, changes nothing else. *)
Lemma landed_trim t t' :
  ready t → landed t → wf t' → (∀ k, strip (inside record "old") k = None → t' !! k = t !! k) →
  (t' !! inside record "old" = None ∨ t' !! inside record "old" = t !! inside record "old") →
  ready t' ∧ landed t'.
Proof.
  intros (Hwf & n & Hn & H) (HN & HT & HO) Hwf' Hk Hold. destruct entry_places as (Et & En & Eo).
  assert (∀ p, entry ws p → p ≠ inside record "old" → subtree p t' = subtree p t) as Hs.
  { intros p Hp Hne. apply map_eq. intros s. rewrite !lookup_subtree. apply Hk.
    apply apart_strip, (entries_apart ws); [done..|]. by apply not_eq_sym. }
  split.
  - split; [done|]. exists n. split; [|done]. rewrite Hk; [done|]. apply strip_None. by intros [|? [|]].
  - split; [|split].
    + apply free_subtree. rewrite Hs by elsewhere. by apply free_subtree.
    + by rewrite Hs by elsewhere.
    + destruct Hold as [-> | ->]; [by left|done].
Qed.

Lemma t_discard (P := λ t j, (ready t ∧ landed t) ∧ J j) : triple P (discard_old host record) (λ _, P) P.
Proof.
  unfold discard_old. destruct (_ && _) eqn:Hd; [|by apply t_done].
  eapply t_bind; [apply t_entry_id|]. intros id. cbn.
  eapply t_bind; [apply (t_ensure host live _ _ _ P)|].
  { intros t j (-> & [[Hr Hl] HJ]). split; [|done]. destruct Hl as (_ & _ & [-> | ->]).
    - by rewrite bool_decide_eq_true_2.
    - rewrite (bool_decide_eq_true_2 (r_Old record = r_Old record)) by done. cbn. by rewrite andb_false_r. }
  intros []. apply (t_bind host live P _ (λ _, P)); [|intros []; apply t_sync; by intros t j [[] _]].
  destruct (id <>s ""); [|by apply t_done]. apply t_syscall_with; [|done|].
  - intros n s [[Hr Hl] HJ]. do 2 eexists. split; [done|]. split; [|done]. split; [|done]. cbn.
    apply (landed_trim (fs_tree s)); [done|done|apply wf_prune; by destruct Hr| |left].
    + intros k E. by rewrite lookup_prune, E.
    + rewrite lookup_prune. assert (strip (inside record "old") (inside record "old") = Some []) as ->; [|done].
      apply strip_Some. by rewrite app_nil_r.
  - intros n s [[Hr Hl] HJ]. split; [|done]. cbn.
    apply (landed_trim (fs_tree s)); [done|done|apply wf_partial; by destruct Hr| |right].
    + intros k E. rewrite lookup_partial. unfold left_below. by rewrite E.
    + rewrite lookup_partial. unfold left_below.
      assert (strip (inside record "old") (inside record "old") = Some []) as ->; [|done].
      apply strip_Some. by rewrite app_nil_r.
Qed.

(** The destination holds the new tree and the decision is retired. *)
Definition published (t : tree) (j : gmap string jfile) : Prop :=
  wf t ∧ subtree (target_path record) t = TN ∧ j !! c_journal c = None.

Lemma remove_workspace_published s :
  published (fs_tree s) (fs_journal s) →
  published (fs_tree (remove_directory host [ws] s).2) (fs_journal (remove_directory host [ws] s).2).
Proof.
  intros Hp. assert (keeps (λ s s', published (fs_tree s) (fs_journal s) → published (fs_tree s') (fs_journal s'))
    (remove_directory host [ws])) as K; [|by apply K].
  apply syscall_keeps; [split; [intros ? H; exact H|intros x y z H1 H2 H; exact (H2 (H1 H))]|by intros ? ? [-> ->]|].
  intros _ s0. destruct (fs_tree s0 !! [ws]); [|done]. destruct (childless _ _); [|done].
  intros (Hwf & HT & HJ). split; [by apply wf_prune|]. split; [|done]. cbn. rewrite <-HT.
  apply map_eq. intros k. rewrite !lookup_subtree, lookup_prune.
  assert (strip [ws] (target_path record ++ k)%list = None) as ->; [|done].
  destruct entry_places as ([(x & Ex & Hx)|(y & Ey)] & _); [|done]. rewrite Ex. apply strip_None.
  intros k' E. cbn in E. congruence.
Qed.

(** Recovery keeps the publication decided until the new tree is in place, and
    completes when nothing fails. *)
Lemma t_recover :
  (∀ j, J j → is_Some (j !! c_journal c)) →
  triple (λ t j, decided t ∧ J j) (recover host c record) (λ _, published)
    (λ t j, decided t ∧ J j ∨ published t j).
Proof.
  intros HJ. unfold recover.
  eapply t_bind; [eapply t_err; [apply t_sync_directory|by left]|]. intros [].
  eapply t_bind; [eapply t_err; [apply t_validate; by intros t j [[] _]|by left]|]. intros [].
  eapply t_bind; [eapply t_err; [apply t_apply|by left]|]. intros [].
  eapply t_bind; [eapply t_err; [apply t_discard|]|].
  { intros t j [[? ?] ?]. left. split; [split|]; auto. }
  intros []. cbn. eapply t_bind with (Q := λ _, published).
  { apply t_syscall.
    - intros n s [[(Hwf & _) (_ & HT & _)] Hj]. destruct (HJ _ Hj) as [f Hf]. rewrite Hf.
      do 2 eexists. split; [done|]. split; [|done]. split; [done|]. split; [done|]. apply lookup_delete_eq.
    - intros t j [[? ?] ?]. left. split; [split|]; auto. }
  intros []. eapply t_bind; [eapply t_err; [apply t_sync_directory|by right]|]. intros [].
  destruct (r_Decision record =s "publish"); [|by apply t_done].
  eapply t_bind; [apply (t_attempt host live published _ published)|].
  - intros s Hp. split; [by apply remove_workspace_published|]. intros Hc Ha.
    apply (alive_syscall host live); [|done..]. intros n s0. by repeat case_match.
  - intros r. by apply t_done.
Qed.
End publication.

(** ** The journal *)

Section journal.
Context (host : Host) (live : bool) (encoded : archiveJournal → Z).
Context (c : archiveJournalContext) (record : archiveJournal) (TN TO : tree).
Context (Hpub : publication encoded c record TN TO).
Local Abbreviation triple := (triple host live).

(** The journal name is a private file with the record, whose only other name
    can be the pending one. *)
Definition holds (f : jfile) (j : gmap string jfile) : Prop :=
  j !! c_journal c = Some f ∧ jf_private f = true ∧ jf_content f = Some record ∧
  ∀ name g, j !! name = Some g → jf_inode g = jf_inode f → g = f ∧ (name = c_journal c ∨ name = pending c record).

Lemma pending_not_journal : pending c record ≠ c_journal c.
Proof.
  unfold pending. intros E. apply (f_equal (λ x, length (to_bytes x))) in E.
  rewrite !to_bytes_app, !length_app in E. cbn in E. lia.
Qed.

Lemma holds_links f j : holds f j →
  (links j (jf_inode f) = 1%Z ∧ ∀ g, j !! pending c record = Some g → jf_inode g ≠ jf_inode f) ∨
  (links j (jf_inode f) = 2%Z ∧ j !! pending c record = Some f).
Proof.
  intros (Hf & _ & _ & Hn). unfold links.
  set (F := filter (λ nf : string * jfile, jf_inode nf.2 = jf_inode f) j).
  assert (∀ name g, F !! name = Some g ↔ j !! name = Some g ∧ jf_inode g = jf_inode f) as HF.
  { intros. unfold F. by rewrite map_lookup_filter_Some. }
  clearbody F.
  assert (∀ name, name ≠ c_journal c → name ≠ pending c record → F !! name = None) as Hother.
  { intros name H1 H2. destruct (F !! name) as [g|] eqn:E; [|done]. apply HF in E as [E1 E2].
    by destruct (Hn _ _ E1 E2) as [_ [?|?]]. }
  assert (F !! c_journal c = Some f) as HFj by (by apply HF).
  destruct (F !! pending c record) as [g|] eqn:E.
  - right. pose proof E as [E1 E2]%HF. destruct (Hn _ _ E1 E2) as [-> _]. split; [|done].
    assert (F = {[c_journal c := f; pending c record := f]}) as HFeq.
    { apply map_eq. intros name. destruct (decide (name = c_journal c)) as [->|H1]; [by rewrite lookup_insert_eq|].
      rewrite lookup_insert_ne by done. destruct (decide (name = pending c record)) as [->|H2].
      - by rewrite lookup_singleton_eq.
      - rewrite lookup_singleton_ne by done. by apply Hother. }
    rewrite HFeq, map_size_insert_None, map_size_singleton; [done|]. apply lookup_singleton_ne, pending_not_journal.
  - left. assert (F = {[c_journal c := f]}) as HFeq.
    { apply map_eq. intros name. destruct (decide (name = c_journal c)) as [->|H1]; [by rewrite lookup_singleton_eq|].
      rewrite lookup_singleton_ne by done. destruct (decide (name = pending c record)) as [->|H2]; [done|].
      by apply Hother. }
    rewrite HFeq, map_size_singleton. split; [done|]. intros g Hg Hi.
    assert (F !! pending c record = Some g) as H by (by apply HF). congruence.
Qed.

Lemma holds_delete f j : holds f j →
  holds f (delete (pending c record) j) ∧ links (delete (pending c record) j) (jf_inode f) = 1%Z.
Proof.
  intros (Hf & Hp & Hc & Hn). assert (holds f (delete (pending c record) j)) as H.
  { split; [by rewrite lookup_delete_ne by apply pending_not_journal|]. split_and!; [done..|].
    intros name g [_ Hg]%lookup_delete_Some. by apply Hn. }
  split; [done|]. destruct (holds_links _ _ H) as [[? _]|[_ E]]; [done|]. by rewrite lookup_delete_eq in E.
Qed.

Section read.
Context (f : jfile) (t0 : tree → Prop).
Local Abbreviation I := (λ (t : tree) (j : gmap string jfile), t0 t ∧ holds f j).

Lemma t_jstat (P : assertion) name :
  triple P (jstat host name) (λ r t j, r = (λ f, (f, links j (jf_inode f))) <$> j !! name ∧ P t j) P.
Proof. apply t_syscall; [|done]. intros n s HP. by do 2 eexists. Qed.
Lemma t_jfstat (P : assertion) g :
  triple P (jfstat host g) (λ r t j, r = (g, links j (jf_inode g)) ∧ P t j) P.
Proof. apply t_syscall; [|done]. intros n s HP. by do 2 eexists. Qed.

(** The journal name, with its link count. *)
Lemma t_jstat_journal (P : assertion) : (∀ t j, P t j → holds f j) →
  triple P (jstat host (c_journal c))
    (λ r t j, (∃ n, r = Some (f, n)) ∧ r = Some (f, links j (jf_inode f)) ∧ P t j) P.
Proof.
  intros HP. eapply t_conseq; [apply t_jstat|done| |done]. cbn. intros r t j [-> H].
  destruct (HP _ _ H) as (-> & _). cbn. split; [by eexists|done].
Qed.

Lemma link_count_ok n : (n = 1 ∨ n = 2)%Z → ((n =? 1) || (n =? 2))%Z = true.
Proof. by intros [->| ->]. Qed.
Lemma holds_count f' j : holds f' j → (links j (jf_inode f') = 1 ∨ links j (jf_inode f') = 2)%Z.
Proof. intros H. destruct (holds_links _ _ H) as [[? _]|[? _]]; auto. Qed.

Lemma t_finish : triple I (finishPending host c record f) (λ _, I) I.
Proof.
  unfold finishPending. eapply t_bind; [apply t_jfstat|]. intros [info count]. cbn.
  eapply t_bind; [eapply t_err; [apply t_jstat_journal|]|]; [by intros t j (_ & _ & ?)|by intros t j (_ & ?)|].
  intros named. apply t_pure. intros [n ->]. cbn.
  eapply t_bind; [apply (t_ensure host live _ _ _ (λ t j, (info = f ∧ count = links j (jf_inode f)) ∧ I t j))|].
  { intros t j (_ & E & [Ht Hh]). simplify_eq. destruct (holds_count _ _ Hh) as [Hc|Hc];
      rewrite (proj1 (proj2 Hh)), Z.eqb_refl, Hc; done. }
  intros []. eapply t_bind with (Q := λ _ t j, info = f ∧ links j (jf_inode f) = 1%Z ∧ I t j).
  - destruct (Z.eqb_spec count 2) as [->|Hne].
    + eapply t_bind; [eapply t_err; [apply t_jstat|by intros t j (_ & ?)]|]. intros other. cbn.
      destruct other as [[other others]|].
      * eapply t_bind; [apply (t_ensure host live _ _ _ (λ t j, info = f ∧ j !! pending c record = Some f ∧ I t j))|].
        { intros t j (E & (-> & Hc) & Ht & Hh). destruct (holds_links _ _ Hh) as [[Hl _]|[Hl Hp]]; [lia|].
          rewrite Hp in E. cbn in E. injection E as -> ->. rewrite Hl, Z.eqb_refl.
          by rewrite Z.eqb_refl, (proj1 (proj2 Hh)). }
        intros []. eapply t_bind.
        -- apply (t_syscall host live _ _ (λ _ t j, info = f ∧ links j (jf_inode f) = 1%Z ∧ I t j)).
           ++ intros n0 s (-> & Hp & Ht & Hh). rewrite Hp. do 2 eexists. split; [done|]. split; [|done].
              destruct (holds_delete _ _ Hh). done.
           ++ by intros t j (_ & _ & ?).
        -- intros []. eapply t_err; [apply t_sync_directory|by intros t j (_ & _ & ?)].
      * apply t_absurd. intros t j (E & (-> & Hc) & Ht & Hh). destruct (holds_links _ _ Hh) as [[Hl _]|[Hl Hp]]; [lia|].
        by rewrite Hp in E.
    + apply t_done. intros t j ((-> & Hc) & Ht & Hh). destruct (holds_count _ _ Hh) as [Hl|Hl]; [done|lia].
  - intros []. eapply t_bind; [eapply t_err; [apply t_jfstat|by intros t j (_ & _ & ?)]|].
    intros [actual count']. cbn.
    eapply t_bind; [eapply t_err; [apply t_jstat_journal|]|];
      [by intros t j (_ & _ & _ & _ & ?)|by intros t j (_ & _ & _ & ?)|].
    intros named. apply t_pure. intros [n' ->]. cbn. apply t_ensure.
    intros t j (E1 & E2 & -> & Hl & Ht & Hh). simplify_eq. rewrite Hl.
    by rewrite (proj1 (proj2 Hh)), Z.eqb_refl.
Qed.

Lemma t_read ci : (∀ t, t0 t → ready record t) →
  triple I (read host encoded ci c) (λ r t j, r = Some record ∧ I t j) I.
Proof.
  intros Hready. unfold read. destruct Hpub.
  eapply t_bind; [apply t_jstat_journal; by intros t j [_ ?]|]. intros info. apply t_pure. intros [n ->]. cbn.
  eapply t_bind; [apply (t_ensure host live _ _ _ I)|].
  { intros t j (E & Ht & Hh). injection E as ->. rewrite (proj1 (proj2 Hh)). split; [|done].
    apply link_count_ok. by apply holds_count. }
  intros []. eapply t_bind; [apply t_jstat_journal; by intros t j [_ ?]|]. intros opened. apply t_pure. intros [n' ->]. cbn.
  eapply t_bind; [eapply t_err; [apply t_jfstat|by intros t j (_ & ?)]|]. intros [actual m]. cbn.
  eapply t_bind; [apply (t_ensure host live _ _ _ I)|].
  { intros t j (E & _ & Ht & Hh). injection E as -> ->. by rewrite Z.eqb_refl. }
  intros []. eapply t_bind; [apply t_sync_directory|]. intros []. cbn.
  destruct (jf_content f) as [r|] eqn:Ec.
  2: { apply t_absurd. intros t j (_ & _ & _ & Hc & _). congruence. }
  assert (∀ t j, I t j → r = record) as Hr by (intros t j (_ & _ & _ & Hc & _); congruence).
  destruct (decide (r = record)) as [->|Hne]; [|apply t_absurd; intros t j H; by apply Hne, (Hr t j)].
  eapply t_bind; [apply (t_ensure host live _ _ _ I); intros t j H; split; [by apply Z.leb_le|done]|]. intros [].
  eapply t_bind; [apply (t_ensure host live _ _ _ I); intros t j H; split; [|done]|].
  { rewrite p_version0, p_parent0, p_target0. unfold matchesTarget. by rewrite !bool_decide_eq_true_2. }
  intros []. eapply t_bind; [apply (t_ensure host live _ _ _ I); intros t j H; split; [|done]|].
  { unfold recognized. rewrite p_decision0. done. }
  intros []. eapply t_bind; [apply (t_ensure host live _ _ _ I); intros t j H; split; [|done]|].
  { destruct p_sidecars0 as [-> ->]. rewrite (bool_decide_eq_false_2 (r_New record = "")) by done.
    by rewrite !(bool_decide_eq_true_2 ("" = "")), andb_false_r. }
  intros []. eapply t_bind; [eapply t_validate; [exact Hpub|intros t j []; by apply Hready]|]. intros [].
  eapply t_bind; [apply t_finish|]. intros []. by apply t_done.
Qed.
End read.

(** A decided publication stays decided until it is published, and the next
    attempt that nothing interrupts publishes it. *)
Definition under_way (t : tree) (j : gmap string jfile) : Prop := ∃ f, decided record TN TO t ∧ holds f j.

Lemma t_exists {A X : Type} (P : X → assertion) (m : M FS A) Q E :
  (∀ x, triple (P x) m Q E) → triple (λ t j, ∃ x, P x t j) m Q E.
Proof. intros H s [x HP]. by apply (H x). Qed.

Lemma t_recover_previous ci :
  triple under_way (recover_previous host encoded ci c) (λ _, published c record TN)
    (λ t j, under_way t j ∨ published c record TN t j).
Proof.
  apply t_exists. intros f. unfold recover_previous, acquireCopyArchiveTargetLock.
  eapply t_bind; [eapply t_err; [apply t_sync_directory|]|]; [intros t j ?; left; by exists f|]. intros [].
  eapply t_bind; [eapply t_err; [apply (t_read f (decided record TN TO))|]|].
  - by intros t [? _].
  - intros t j ?; left; by exists f.
  - intros previous. cbn. apply t_pure. intros ->.
    eapply t_err; [eapply (t_recover host live encoded c record TN TO Hpub (holds f))|].
    + intros j (-> & _). by eexists.
    + intros t j [?|?]; [left; by exists f|by right].
Qed.

Lemma t_recover_nothing ci (P : assertion) : (∀ t j, P t j → j !! c_journal c = None) →
  triple P (recover_previous host encoded ci c) (λ _, P) P.
Proof.
  intros HP. unfold recover_previous, acquireCopyArchiveTargetLock, read.
  eapply t_bind; [apply t_sync_directory|]. intros []. cbn.
  eapply t_bind with (Q := λ r t j, r = None ∧ P t j); [|intros r; apply t_pure; intros ->; by apply t_done].
  eapply t_bind; [apply t_jstat|]. intros info. cbn. destruct info as [[f n]|]; [|apply t_done; by intros t j []].
  apply t_absurd. intros t j [E H]. by rewrite (HP _ _ H) in E.
Qed.
End journal.
