(* ===== verification/ArchivePublish.v ===== *)
(** * Archive publication from its start

    A publication that starts without recovery data is, wherever it is
    interrupted, not begun (both trees kept), decided or done. *)

From Stdlib Require Import ZArith Lia.
From stdpp Require Import gmap strings prelude.
From S2P Require Import Prelude GoText GoJson ArchiveJournal ArchiveSafety ArchiveLive.
Local Open Scope string_scope.
Local Open Scope crab_scope.

(** ** Workspace names *)

Lemma Base_plain name : name ≠ "" → Forall (λ b, b ≠ 47%Z) (to_bytes name) → Base name = name.
Proof.
  intros Hne Hb. unfold Base. rewrite (bool_decide_eq_false_2 (name = "")) by done.
  assert (to_bytes name ≠ []) as Hn by (intros E; by destruct name).
  assert (drop_while (λ b, (b =? 47)%Z) (reverse (to_bytes name)) = reverse (to_bytes name)) as ->.
  { destruct (reverse (to_bytes name)) as [|b bs] eqn:E; [done|]. cbn. destruct (Z.eqb_spec b 47) as [->|]; [|done].
    rewrite Forall_forall in Hb. exfalso. apply (Hb 47%Z); [|done]. apply elem_of_reverse. rewrite E. by left. }
  rewrite reverse_involutive, bool_decide_eq_false_2 by done.
  assert (∀ acc bs, Forall (λ b, b ≠ 47%Z) bs →
    foldl (λ acc b, if (b =? 47)%Z then [] else (acc ++ [b])%list) acc bs = (acc ++ bs)%list) as H.
  { intros acc bs Hbs. revert acc. induction Hbs as [|b bs H _ IH]; intros acc; [by rewrite app_nil_r|].
    cbn. destruct (Z.eqb_spec b 47); [done|]. by rewrite IH, <-app_assoc. }
  rewrite H by done. apply of_to_bytes.
Qed.

Lemma hex_bytes bs : Forall (λ b, ascii_byte b ∧ b ≠ 47%Z) (to_bytes (hex_of_bytes ((λ b, b mod 256)%Z <$> bs))).
Proof.
  unfold hex_of_bytes.
  assert (∀ d, (0 ≤ d < 16 → ascii_byte (digit_char d) ∧ digit_char d ≠ 47)%Z) as Hd.
  { intros d Hd. unfold digit_char, ascii_byte. case_match; lia. }
  assert (Forall (λ b, ascii_byte b ∧ b ≠ 47%Z)
    (concat ((λ b, [digit_char (b / 16); digit_char (b mod 16)])%Z <$> ((λ b, b mod 256)%Z <$> bs)))) as H.
  { induction bs as [|b bs IH]; cbn -[digit_char Z.div Z.modulo]; [constructor|].
    pose proof (Z.mod_pos_bound b 256 eq_refl). pose proof (Z.mod_pos_bound (b mod 256) 16 eq_refl).
    constructor; [apply Hd; split; [apply Z.div_pos; lia|apply Z.div_lt_upper_bound; lia]|].
    constructor; [by apply Hd|done]. }
  rewrite to_of_bytes; [done|]. apply ascii_is_byte. eapply Forall_impl; [exact H|]. by intros b [].
Qed.
Lemma hex_plain bs : Forall (λ b, b ≠ 47%Z) (to_bytes (hex_of_bytes ((λ b, b mod 256)%Z <$> bs))).
Proof. eapply Forall_impl; [apply hex_bytes|]. by intros b []. Qed.

Definition workspace_name (token : list Z) : string :=
  ".crabbox-cp-publish-" +:+ hex_of_bytes ((λ b, b mod 256)%Z <$> token).

Lemma workspace_name_ok token :
  HasPrefix (workspace_name token) ".crabbox-cp-publish-" = true ∧ Base (workspace_name token) = workspace_name token.
Proof.
  split; [apply prefix_app|]. apply Base_plain; [done|]. unfold workspace_name. rewrite to_bytes_app. apply Forall_app.
  split; [|apply hex_plain]. repeat constructor; done.
Qed.

(** ** Records that survive their JSON text *)

Lemma workspace_name_valid token : utf8_valid (workspace_name token) = true.
Proof.
  apply ascii_valid. unfold workspace_name. rewrite to_bytes_app. apply Forall_app. split.
  - by repeat constructor.
  - eapply Forall_impl; [apply hex_bytes|]. by intros b [].
Qed.

Lemma identity_valid info : utf8_valid (archiveIdentity info) = true.
Proof.
  apply ascii_valid. destruct info as [n|]; [|constructor]. cbn. unfold copyArchiveDirectoryIdentity.
  rewrite !to_bytes_app, !Forall_app. split_and!; [apply FormatInt_valid|by repeat constructor|apply FormatInt_valid].
Qed.

(** The texts of the context that go into a record are UTF-8. *)
Definition legible (c : archiveJournalContext) : Prop :=
  utf8_valid (c_target c) = true ∧ utf8_valid (c_parentID c) = true.

Lemma t_join_then host (P Q : assertion) a b :
  triple host false P a (λ _, Q) P → triple host false Q b (λ _, Q) Q → triple host false P b (λ _, P) P →
  triple host false P (join a b) (λ _, Q) (λ t j, P t j ∨ Q t j).
Proof.
  intros Ha Hb Hb' s HP. destruct (Ha s HP) as [H1 _]. unfold join, attempt, mbind, M_bind.
  destruct (a s) as [[[]|e] s1]; cbn in *.
  - destruct (Hb s1 H1) as [H3 _]. destruct (b s1) as [[[]|e] s2]; cbn in *; (split; [auto|by intros [? _]]).
  - destruct (Hb' s1 H1) as [H3 _]. destruct (b s1) as [[[]|e'] s2]; cbn in *; (split; [auto|by intros [? _]]).
Qed.

(** ** Recording the decision *)

Section decision.
Context (host : Host) (encoded : archiveJournal → Z) (c : archiveJournalContext) (record : archiveJournal) (T : tree → Prop).
Context (Htext : journal_text record = record).
Local Abbreviation triple := (triple host false).
Local Abbreviation temporary := (pending c record).

(** New inodes differ from those of the journal directory. *)
Definition unused (j : gmap string jfile) : Prop := ∀ n name g, j !! name = Some g → jf_inode g ≠ (h_inode host n).2.

Definition blank (t : tree) (j : gmap string jfile) : Prop := T t ∧ j !! c_journal c = None.
Definition prepared (f : jfile) (t : tree) (j : gmap string jfile) : Prop :=
  blank t j ∧ j !! temporary = Some f ∧ ∀ name g, j !! name = Some g → jf_inode g = jf_inode f → name = temporary.
Definition recorded (t : tree) (j : gmap string jfile) : Prop := ∃ f, T t ∧ holds c record f j.

Lemma t_jcreate :
  triple (λ t j, blank t j ∧ unused j) (jcreate host temporary)
    (λ ino, prepared (mkJFile ino true None)) (λ t j, blank t j ∧ unused j).
Proof.
  apply t_call; [|done]. intros n s [[Ht Hj] Hu]. destruct (fs_journal s !! temporary) eqn:E; [by split|].
  split; [split; [done|]|split].
  - cbn. by rewrite lookup_insert_ne by apply pending_not_journal.
  - apply lookup_insert_eq.
  - intros name g. cbn. rewrite lookup_insert_Some. intros [[<- _]|[_ Hg]] Hi; [done|]. by destruct (Hu n name g).
Qed.

Lemma t_jwrite ino :
  triple (prepared (mkJFile ino true None)) (jwrite host ino record)
    (λ _, prepared (mkJFile ino true (Some record))) (prepared (mkJFile ino true None)).
Proof.
  apply t_call; [|done]. intros _ s ((Ht & Hj) & Hp & Hn). split; [split; [done|]|split].
  - cbn. by rewrite lookup_fmap, Hj.
  - cbn. rewrite lookup_fmap, Hp. cbn. by rewrite Z.eqb_refl, Htext.
  - intros name g. cbn. rewrite lookup_fmap, fmap_Some. intros (g0 & Hg & ->) Hi. apply (Hn name g0 Hg).
    revert Hi. by destruct (Z.eqb_spec (jf_inode g0) ino).
Qed.

Lemma t_jlink ino :
  triple (prepared (mkJFile ino true (Some record))) (jlink host temporary (c_journal c))
    (λ _, recorded) blank.
Proof.
  apply t_call; [|by intros t j []]. intros _ s ((Ht & Hj) & Hp & Hn). cbn. rewrite Hp, Hj.
  exists (mkJFile ino true (Some record)). split; [done|]. cbn. split; [apply lookup_insert_eq|].
  split_and!; [done..|]. intros name g Hg Hi. apply lookup_insert_Some in Hg as [[<- <-]|[Hne Hg]]; [auto|].
  pose proof (Hn _ _ Hg Hi) as ->. split; [congruence|by right].
Qed.

Lemma t_jremove_blank : triple blank (jremove host temporary) (λ _, blank) blank.
Proof.
  apply t_call; [|done]. intros _ s [Ht Hj]. destruct (fs_journal s !! temporary); [|done]. split; [done|].
  cbn. by rewrite lookup_delete_ne by apply pending_not_journal.
Qed.
Lemma t_jremove_recorded : triple recorded (jremove host temporary) (λ _, recorded) recorded.
Proof.
  apply t_call; [|done]. intros _ s (f & Ht & Hh). destruct (fs_journal s !! temporary); [|by exists f].
  exists f. split; [done|]. by apply holds_delete.
Qed.

Context (Hvalid : ∀ P : assertion, (∀ t j, P t j → T t) → triple P (validateWorkspace host record) (λ _, P) P).

(** The name of the decision appears once the record is complete, or not at all. *)
Lemma t_link_decision :
  triple (λ t j, blank t j ∧ unused j) (linkDecision host encoded c record)
    (λ _ t j, (encoded record ≤ archiveJournalLimit)%Z ∧ recorded t j) blank.
Proof.
  unfold linkDecision.
  eapply t_bind; [eapply t_err; [apply Hvalid|]|]; [by intros t j [[] _]|by intros t j []|]. intros [].
  eapply t_bind; [eapply t_err; [apply t_check|by intros t j []]|]. intros []. cbn. apply t_pure. intros Hlen%Z.leb_le.
  eapply t_bind; [eapply t_err; [apply t_jcreate|by intros t j []]|]. intros ino. cbn.
  eapply t_bind; [eapply t_attempt_triple with (Q := λ _, recorded) (E := blank)|].
  - eapply t_bind with (Q := λ _, prepared _); [|intros []; apply (t_jlink ino)]. eapply t_err; [eapply t_join_then|].
    + apply t_jwrite.
    + apply t_join; apply t_sync_directory.
    + apply t_join; apply t_sync_directory.
    + by intros t j [[] | []].
  - intros [[]|e]; cbn; [by apply t_done|].
    eapply t_bind; [apply (t_attempt_triple _ _ _ _ (λ _, blank) blank), t_jremove_blank|].
    intros [[]|e']; cbn; apply t_fails.
Qed.

Lemma t_write :
  triple (λ t j, blank t j ∧ unused j) (write host encoded c record)
    (λ _ t j, (encoded record ≤ archiveJournalLimit)%Z ∧ recorded t j)
    (λ t j, blank t j ∨ (encoded record ≤ archiveJournalLimit)%Z ∧ recorded t j).
Proof.
  unfold write. eapply t_bind; [eapply t_err; [apply t_link_decision|by left]|]. intros [].
  cbn. apply t_pure. intros Hlen. unfold deferred.
  eapply t_bind; [apply (t_attempt_triple _ _ _ _ (λ _, recorded) recorded)|].
  { eapply t_bind; [apply t_jremove_recorded|]. intros []. apply t_sync_directory. }
  intros r. eapply t_bind with (Q := λ _, recorded).
  { eapply t_conseq; [apply (t_attempt_triple _ _ recorded _ (λ _, recorded) recorded recorded), t_jremove_recorded|..].
    - by destruct r.
    - by intros [].
    - auto. }
  intros _. apply t_safe. intros s H. destruct r as [[]|e]; [by split|right; by split].
Qed.
End decision.

(** ** Staging *)

Section start.
Context (host : Host) (encoded : archiveJournal → Z) (c : archiveJournalContext) (p : path) (TN TO : tree).
Context (Hord : ordinary (Base (c_target c))) (Hap : apart p [Base (c_target c)]) (Hleg : legible c).
Local Abbreviation triple := (triple host false).
Local Abbreviation target := [Base (c_target c)].

(** The payload waits at [p] and the destination holds its old tree. *)
Definition resting (t : tree) : Prop := wf t ∧ is_Some (t !! p) ∧ subtree p t = TN ∧ subtree target t = TO.

(** A publication that is not decided: both trees are where they were, or the
    payload waits in a workspace. *)
Definition undecided (t : tree) (j : gmap string jfile) : Prop :=
  wf t ∧ j !! c_journal c = None ∧ subtree target t = TO ∧
  (subtree p t = TN ∨
   ∃ ws, HasPrefix ws ".crabbox-cp-publish-" = true ∧ subtree [ws; "new"] t = TN).

Local Abbreviation start := (λ (t : tree) (j : gmap string jfile), blank c resting t j ∧ unused host j).
Lemma start_undecided t j : start t j → undecided t j.
Proof. intros (((Hwf & _ & HN & HO) & Hj) & _). split_and!; [done..|by left]. Qed.

(** A workspace of this publication, with room for the two trees. *)
Definition empty_workspace (record : archiveJournal) (t : tree) : Prop :=
  ready record t ∧ free t (inside record "new") ∧ free t (inside record "old").
Definition shape (record : archiveJournal) : Prop :=
  (∃ token, r_Workspace record = workspace_name token) ∧
  ((∃ info, r_WorkspaceID record = archiveIdentity info) ∧ r_WorkspaceID record ≠ "") ∧ r_Version record = 2%Z ∧
  r_Target record = c_target c ∧ r_Parent record = c_parentID c ∧
  ∀ x, apart p (inside record x).

(** The record of a publication survives its JSON text. *)
Lemma shape_text record fresh old : shape record → r_Decision record = "publish" →
  r_New record = archiveIdentity fresh → r_Old record = archiveIdentity old → r_Marker record = "" → r_Backup record = "" →
  journal_text record = record.
Proof.
  intros ((token & Hw) & ((info & Hi) & _) & _ & Ht & Hp & _) Hd Hn Ho Hm Hb. destruct Hleg as [L1 L2].
  unfold journal_text. rewrite (json_text_valid (r_Target record)), (json_text_valid (r_Parent record)),
    (json_text_valid (r_Workspace record)), (json_text_valid (r_WorkspaceID record)), (json_text_valid (r_Decision record)),
    (json_text_valid (r_New record)), (json_text_valid (r_Old record)), (json_text_valid (r_Marker record)),
    (json_text_valid (r_Backup record)); [by destruct record|..];
    rewrite ?Ht, ?Hp, ?Hw, ?Hi, ?Hd, ?Hn, ?Ho, ?Hm, ?Hb;
    first [done | apply workspace_name_valid | apply identity_valid].
Qed.

(** Making the workspace. *)
Definition opened (name : string) (t : tree) : Prop :=
  resting t ∧ (∃ n, t !! [name] = Some n) ∧ (∀ x s, t !! ([name; x] ++ s)%list = None) ∧ (∀ x, apart p [name; x]).

Lemma target_not_workspace token : Base (c_target c) ≠ workspace_name token.
Proof.
  intros E. pose proof (Hord "" ltac:(by left)) as H. rewrite append_empty, E in H.
  destruct (workspace_name_ok token) as [H' _]. congruence.
Qed.

Lemma payload_not_workspace name t s : resting t → t !! [name] = None → p ≠ ([name] ++ s)%list.
Proof.
  intros (Hwf & [n Hn] & _) Hname ->. assert (free t [name]) as Hf by (by apply wf_free). by rewrite Hf in Hn.
Qed.

Lemma open_workspace token n t :
  resting t → t !! [workspace_name token] = None →
  opened (workspace_name token) (<[[workspace_name token] := n]> t).
Proof.
  set (name := workspace_name token). intros Hr Hname. pose proof (λ s, payload_not_workspace name t s Hr Hname) as Hpw.
  assert (free t [name]) as Hf by (apply wf_free; [by destruct Hr|done..]).
  assert (p ≠ []) as Hp. { intros ->. destruct Hap as [Ha _]. by apply (Ha target). }
  assert (∀ s, [name] ≠ (p ++ s)%list) as Hps.
  { intros s E. destruct p as [|x [|]]; [done|..]; simplify_eq/=. by apply (Hpw []). }
  assert (∀ l : path, (∀ s, [name] ≠ (l ++ s)%list) → subtree l (<[[name] := n]> t) = subtree l t) as Hsub.
  { intros l Hl. apply map_eq. intros s. rewrite !lookup_subtree, lookup_insert_ne; [done|]. apply Hl. }
  destruct Hr as (Hwf & Hn & HN & HO). split; [split_and!|split_and!].
  - by apply wf_mkdir.
  - rewrite lookup_insert_ne; [done|]. intros E. apply (Hps []). by rewrite app_nil_r.
  - by rewrite Hsub.
  - rewrite Hsub; [done|]. intros [|] E; simplify_eq/=. by apply (target_not_workspace token).
  - exists n. apply lookup_insert_eq.
  - intros x s. rewrite lookup_insert_ne by done. apply (Hf (x :: s)).
  - intros x. split; intros s E.
    + destruct p as [|y [|z [|]]]; simplify_eq/=; [by apply (Hpw [])|by eapply (Hpw [_])].
    + by apply (Hpw ([x] ++ s)%list).
Qed.

Lemma t_workspace :
  triple start (workspace host c)
    (λ record t j, shape record ∧ empty_workspace record t ∧ start t j) undecided.
Proof.
  unfold workspace.
  eapply t_bind with (Q := λ token t j, (∃ bytes, token = (λ b, b mod 256)%Z <$> bytes) ∧ start t j).
  { apply t_call; [|apply start_undecided]. intros n s H. split; [by eexists|done]. }
  intros token. apply t_pure. intros [bytes ->]. cbv zeta. fold (workspace_name bytes).
  set (name := workspace_name bytes).
  eapply t_bind with (Q := λ _ t j, (opened name t ∧ j !! c_journal c = None) ∧ unused host j).
  { apply t_call; [|apply start_undecided]. intros n s H. destruct (fs_tree s !! [name]) eqn:E.
    { by apply start_undecided. }
    destruct (h_inode host n) as [dev ino]. destruct H as ((Hr & Hj) & Hu). split; [split|]; [|done..].
    by apply open_workspace. }
  intros []. cbn.
  eapply t_bind; [eapply t_err; [apply t_lstat|]|].
  { intros t j (((Ho & _) & Hj) & Hu). by apply start_undecided. }
  intros [n|]; cbn.
  2: { eapply t_err; [apply t_fails|]. intros t j (_ & ((Ho & _) & Hj) & Hu). by apply start_undecided. }
  eapply t_bind; [eapply t_err; [apply t_check|]|].
  { intros t j (_ & ((Ho & _) & Hj) & Hu). by apply start_undecided. }
  intros []. cbn. apply t_pure. intros Hk.
  eapply t_bind; [eapply t_err; [apply t_sync_root; done|]|].
  { intros t j (_ & ((Ho & _) & Hj) & Hu). by apply start_undecided. }
  intros []. cbn. apply t_done. intros t j (E & ((Hr & [n' Hn'] & Hfree & Hapart) & Hj) & Hu).
  apply andb_prop in Hk as [Hk1%bool_decide_eq_true Hk2]. split; [|split].
  - split_and!; try done; [by eexists|by eexists (Some n)|]. apply (identity_nonempty n).
  - split_and!; [|intros s; apply Hfree..]. split; [by destruct Hr|]. by exists n.
  - by split.
Qed.

(** The payload enters the workspace. *)
Definition staged (record : archiveJournal) (t : tree) : Prop := ready record t ∧ waiting record TN TO t.

Lemma staged_undecided record t j :
  shape record → staged record t → j !! c_journal c = None → undecided t j.
Proof.
  intros ((token & Hw) & _ & _ & Ht & _) [[Hwf _] (HN & HO & _)] Hj. unfold target_path in HO. rewrite Ht in HO.
  split_and!; [done..|]. right. exists (r_Workspace record). split; [|done]. rewrite Hw. apply workspace_name_ok.
Qed.

Lemma resting_grounded t : resting t → grounded TO.
Proof.
  intros (Hwf & _ & _ & <-) H. rewrite lookup_subtree, app_nil_r in H. by apply free_subtree, wf_free.
Qed.

Lemma shape_publication record fresh old :
  shape record → archiveIdentity (TN !! []) = archiveIdentity fresh → is_Some fresh →
  archiveIdentity (TO !! []) = archiveIdentity old → grounded TO →
  r_Decision record = "publish" → r_New record = archiveIdentity fresh → r_Old record = archiveIdentity old →
  r_Marker record = "" → r_Backup record = "" → (encoded record ≤ archiveJournalLimit)%Z →
  publication encoded c record TN TO.
Proof.
  intros ((token & Hw) & [_ Hid] & Hv & Ht & Hp & _) HN [n ->] HO Hg Hd Hnew Hold Hm Hb Hlen.
  destruct (workspace_name_ok token) as [Hpre Hbase]. split; try congruence; try done.
  - by rewrite Ht.
  - rewrite Hnew. apply identity_nonempty.
Qed.

Lemma stage_move record t :
  shape record → empty_workspace record t → resting t →
  staged record (move_tree p (inside record "new") t).
Proof.
  intros ((token & Hw) & _ & _ & Ht & _ & Hpi) ((Hwf & n & Hn & Hk) & Hnew & Hold) (_ & Hs & HN & HO).
  assert (∀ x, apart p (inside record x)) as Hpi' by done.
  assert (apart (inside record "new") target) as Htn.
  { split; intros s E; [done|]. cbn in E. injection E as E _. by apply (target_not_workspace token); rewrite <-Hw. }
  assert (apart (inside record "new") (inside record "old")) as Hno.
  { apply (entries_apart (r_Workspace record)); [apply entry_inside..|done]. }
  assert (is_directory t (parent_of (inside record "new")) = true) as Hd.
  { unfold is_directory, inside, parent_of. cbn. rewrite Hn. by destruct Hk as (-> & _). }
  split; [split|split_and!].
  - apply wf_move; [done..| |done]. apply strip_None. apply Hpi.
  - exists n. split; [|done]. rewrite lookup_move by done.
    assert (strip (inside record "new") [r_Workspace record] = None) as -> by (by apply strip_None; intros s).
    assert (strip p [r_Workspace record] = None) as ->; [|done].
    apply strip_None. intros s E. destruct (Hpi "new") as [H _]. apply (H (s ++ ["new"])%list).
    by rewrite app_assoc, <-E.
  - by rewrite subtree_move_to.
  - unfold target_path. rewrite Ht. by rewrite subtree_move_other.
  - apply free_subtree. rewrite subtree_move_other by done. by apply free_subtree.
Qed.

Lemma t_stage_rename record : shape record →
  triple (λ t j, empty_workspace record t ∧ start t j) (rename host p (inside record "new"))
    (λ _ t j, blank c (staged record) t j ∧ unused host j) undecided.
Proof.
  intros Hsh. apply t_call; [|intros t j [_ ?]; by apply start_undecided].
  intros _ s [He Hst]. pose proof Hst as [[Hr Hj] Hu]. cbv zeta.
  destruct (fs_tree s !! p); [|by apply start_undecided].
  destruct (negb _); [by apply start_undecided|]. destruct (bool_decide _); [by apply start_undecided|].
  rewrite (free_root (inside record "new")) by (by destruct He as (_ & ? & _)).
  split; [split|]; [by apply stage_move|done..].
Qed.

(** What an interrupted publication leaves. *)
Definition decided_for (t : tree) (j : gmap string jfile) : Prop :=
  ∃ record, publication encoded c record TN TO ∧ under_way c record TN TO t j.

Lemma t_stage fresh old :
  archiveIdentity (TN !! []) = archiveIdentity fresh → is_Some fresh →
  archiveIdentity (TO !! []) = archiveIdentity old →
  triple start (stage_publication host encoded c (Beneath p) fresh old)
    (λ record t j, publication encoded c record TN TO ∧ recorded c record (staged record) t j)
    (λ t j, undecided t j ∨ decided_for t j).
Proof.
  intros HN Hfresh HO. apply (t_fact _ _ (grounded TO)).
  { intros t j [[Hr _] _]. by eapply resting_grounded. }
  intros Hg. unfold stage_publication.
  eapply t_bind; [eapply t_err; [apply t_workspace|by left]|]. intros r. cbn. apply t_pure. intros Hsh0.
  set (record := mkRecord _ _ _ _ _ _ _ _ _ _). assert (shape record) as Hsh by done.
  eapply t_bind; [eapply t_err; [apply t_check|]|].
  { intros t j [_ ?]. left. by apply start_undecided. }
  intros []. cbn. apply t_pure. intros _.
  eapply t_bind; [eapply t_err; [apply (t_stage_rename record Hsh)|by left]|]. intros [].
  assert (∀ t j, blank c (staged record) t j ∧ unused host j → undecided t j ∨ decided_for t j) as HE.
  { intros t j [[Hs Hj] _]. left. by eapply staged_undecided. }
  eapply t_bind with (Q := λ _ t j, blank c (staged record) t j ∧ unused host j).
  { apply t_call; [|done]. intros _ s H. destruct (is_directory _ _); [done|by apply HE]. }
  intros []. eapply t_bind; [eapply t_err; [apply t_sync; by intros t j [[[] _] _]|done]|]. intros [].
  assert ((encoded record ≤ archiveJournalLimit)%Z → publication encoded c record TN TO) as Hpub.
  { intros Hlen. by apply (shape_publication record fresh old). }
  eapply t_bind; [eapply t_err; [apply t_write; [by apply (shape_text record fresh old)|]|]|].
  - intros P HP. destruct Hsh as ((token & Hw) & [_ Hid] & _). apply t_validate_named; [..|by intros t j []%HP];
      rewrite ?Hw; by destruct (workspace_name_ok token).
  - intros t j [[Hs Hj]|[Hlen (f & [Hr Hw] & Hf)]]; [left; by eapply staged_undecided|right].
    exists record. split; [by apply Hpub|]. exists f. split; [split; [done|by left]|done].
  - intros []. cbn. apply t_pure. intros Hlen. apply t_done. intros t j H. split; [by apply Hpub|done].
Qed.

(** The destination holds the payload and nothing is left to do. *)
Definition done_for (t : tree) (j : gmap string jfile) : Prop :=
  wf t ∧ subtree target t = TN ∧ j !! c_journal c = None.
Lemma published_done record t j :
  publication encoded c record TN TO → published c record TN t j → done_for t j.
Proof. intros Hpub (? & H & ?). unfold target_path in H. by rewrite (p_target _ _ _ _ _ Hpub) in H. Qed.

Local Abbreviation outcome := (λ t j, undecided t j ∨ decided_for t j ∨ done_for t j).

Lemma t_finish_staged record : publication encoded c record TN TO →
  triple (recorded c record (staged record)) (recover host c record) (λ _, done_for) outcome.
Proof.
  intros Hpub. apply t_exists. intros f.
  eapply t_conseq; [apply (t_recover host false encoded c record TN TO Hpub (holds c record f))|..].
  - intros j (-> & _). by eexists.
  - intros t j ([Hr Hw] & Hf). split; [split; [done|by left]|done].
  - intros [] t j Hp. by eapply published_done.
  - intros t j [[Hd Hf]|Hp]; right; [left; exists record; split; [done|by exists f]|right; by eapply published_done].
Qed.

Lemma t_publish ci :
  triple start (publishJournaledArchive host encoded ci c (Beneath p)) (λ _, done_for) outcome.
Proof.
  assert (∀ t j, start t j → outcome t j) as HE by (intros; left; by apply start_undecided).
  unfold publishJournaledArchive.
  eapply t_bind; [eapply t_err; [apply t_recover_nothing; by intros t j [[] _]|done]|]. intros [].
  eapply t_bind with (Q := λ _, start).
  { unfold requireLegacyArchiveAdoption. eapply t_err; [|done].
    eapply t_bind; [apply t_lstat|]. intros backup. cbn.
    eapply t_bind; [eapply t_err; [apply t_check|by intros t j []]|]. intros []. cbn.
    eapply t_bind; [eapply t_conseq; [apply (t_lstat host false start)|by intros t j (_ & _ & ?)|done|done]|].
    intros marker. cbn. eapply t_conseq; [apply (t_check host _ _ start)|by intros t j []|by intros _ t j []|done]. }
  intros []. eapply t_bind; [eapply t_err; [apply t_lstat|done]|]. intros old. cbn.
  eapply t_bind; [eapply t_err; [apply t_check|intros t j []; by apply HE]|]. intros []. cbn. apply t_pure. intros _.
  eapply t_bind; [eapply t_err; [apply t_lstat|intros t j []; by apply HE]|]. intros [n|]; cbn.
  2: { eapply t_err; [apply t_fails|]. intros t j (_ & _ & ?). by apply HE. }
  eapply t_bind; [eapply t_err; [apply t_check|intros t j (_ & _ & ?); by apply HE]|]. intros []. cbn.
  apply t_pure. intros _.
  eapply (t_fact _ _ (archiveIdentity (TN !! []) = archiveIdentity (Some n) ∧
                      archiveIdentity (TO !! []) = archiveIdentity old)).
  { intros t j (-> & -> & ((_ & _ & HN & HO) & _) & _). by rewrite (subtree_at _ _ _ HN), (subtree_at _ _ _ HO). }
  intros [HN HO]. eapply t_bind.
  - eapply t_conseq; [apply (t_stage (Some n) old HN ltac:(by eexists) HO)|by intros t j (_ & _ & ?)|done|].
    intros t j [?|?]; [by left|by right; left].
  - intros record. cbn. apply t_pure. intros Hpub.
    apply (t_finish_staged record Hpub).
Qed.
End start.

(** ** Interruption and completion *)

Section completion.
Context (encoded : archiveJournal → Z) (c : archiveJournalContext) (p : path) (TN TO : tree).
Context (Hord : ordinary (Base (c_target c))) (Hleg : legible c).
Local Abbreviation waits := (undecided c p TN TO).
Local Abbreviation decided := (decided_for encoded c TN TO).
Local Abbreviation done := (done_for c TN).

(** The next process, on any host: its attempt begins with recovery. *)
Definition restart (s : FS) : FS := mkFS (fs_tree s) (fs_journal s) true (fs_tick s).
Definition retry (ci : bool) (s : FS) (host : Host) : FS := (recover_previous host encoded ci c (restart s)).2.

Lemma t_retry_decided host live ci :
  triple host live decided (recover_previous host encoded ci c) (λ _, done) (λ t j, decided t j ∨ done t j).
Proof.
  apply t_exists. intros record. apply t_pure. intros Hpub.
  eapply t_conseq; [apply (t_recover_previous host live encoded c record TN TO Hpub)|done|..].
  - intros [] t j H. by eapply published_done.
  - intros t j [H|H]; [left; by exists record|right; by eapply published_done].
Qed.

(** The three states an interrupted publication can be in. *)
Definition accounted (s : FS) : Prop :=
  waits (fs_tree s) (fs_journal s) ∨ decided (fs_tree s) (fs_journal s) ∨ done (fs_tree s) (fs_journal s).

Lemma retry_accounted ci host s : accounted s → accounted (retry ci s host).
Proof.
  assert (∀ P : assertion, (∀ t j, P t j → j !! c_journal c = None) → P (fs_tree s) (fs_journal s) →
    P (fs_tree (retry ci s host)) (fs_journal (retry ci s host))) as Hnone.
  { intros P HP Hs. destruct (t_recover_nothing host false encoded c ci P HP (restart s) Hs) as [H _].
    unfold retry. by destruct (recover_previous host encoded ci c (restart s)) as [[[]|e] s']. }
  intros [H|[H|H]].
  - left. apply (Hnone waits); [|done]. by intros t j (_ & ? & _).
  - right. destruct (t_retry_decided host false ci (restart s) H) as [H' _]. unfold retry.
    destruct (recover_previous host encoded ci c (restart s)) as [[[]|e] s']; cbn in *; [by right|done].
  - right; right. apply (Hnone done); [|done]. by intros t j (_ & _ & ?).
Qed.

(** Where nothing fails, a decided publication is completed. *)
Lemma retry_completes ci host s :
  calm host → decided (fs_tree s) (fs_journal s) →
  ∃ s', recover_previous host encoded ci c (restart s) = (Ok (), s') ∧ done (fs_tree s') (fs_journal s').
Proof.
  intros Hc Hd. destruct (t_retry_decided host true ci (restart s) Hd) as [H Hl].
  destruct (Hl (conj eq_refl Hc) eq_refl) as [[[] E] _]. exists (recover_previous host encoded ci c (restart s)).2.
  rewrite E in H. split; [|done]. by rewrite (surjective_pairing (recover_previous _ _ _ _ _)), E.
Qed.

(** C8. An archive is published over a destination whose physical path is UTF-8
    text and whose name is not one of a workspace, by a process that can fail or
    be killed at any system call, and any number of later attempts is interrupted
    in the same way: at every point the destination has its old tree and the
    payload is kept in full, or a durable decision is recorded that the first
    attempt without interruption carries out, or the payload is in place in full
    and no decision is left.  Success is the last of these. *)
Theorem publication_completes ci host s attempts :
  apart p [Base (c_target c)] →
  resting c p TN TO (fs_tree s) → fs_journal s !! c_journal c = None → unused host (fs_journal s) →
  let '(r, s1) := publishJournaledArchive host encoded ci c (Beneath p) s in
  let s2 := foldl (retry ci) s1 attempts in
  (r = Ok () → done (fs_tree s1) (fs_journal s1)) ∧
  (waits (fs_tree s2) (fs_journal s2) ∨ done (fs_tree s2) (fs_journal s2) ∨
   ∀ calm_host, calm calm_host → ∃ s3,
     recover_previous calm_host encoded ci c (restart s2) = (Ok (), s3) ∧ done (fs_tree s3) (fs_journal s3)).
Proof.
  intros Hap Hr Hj Hu.
  destruct (t_publish host encoded c p TN TO Hord Hap Hleg ci s) as [H _]; [by split|].
  destruct (publishJournaledArchive host encoded ci c (Beneath p) s) as [r s1]; cbn in H.
  assert (accounted s1) as Ha by (destruct r; [by right; right|done]).
  split; [by intros ->|]. assert (accounted (foldl (retry ci) s1 attempts)) as [?|[?|?]].
  { clear H. revert s1 Ha. induction attempts as [|h hs IH]; intros s1 Ha; [done|]. by apply IH, retry_accounted. }
  - by left.
  - right; right. intros. by apply retry_completes.
  - by right; left.
Qed.
End completion.

(** A publication killed between its two moves; the second attempt dies early. *)
Local Abbreviation size := (λ _ : archiveJournal, 400%Z).
Definition example_run : res () * FS :=
  publishJournaledArchive (example_host 30) size false example_context (Beneath ["stage"]) example_state.

Lemma example_legible : legible example_context.
Proof. split; vm_compute; reflexivity. Qed.

Lemma publication_completes_witness :
  example_run.1 = Err died ∧ fs_tree example_run.2 !! ["data"] = None ∧
  let '(r, s1) := publishJournaledArchive (example_host 30) size false example_context (Beneath ["stage"]) example_state in
  let s2 := foldl (retry size example_context false) s1 [example_host 33] in
  (r = Ok () → done_for example_context (subtree ["stage"] (fs_tree example_state)) (fs_tree s1) (fs_journal s1)) ∧
  (undecided example_context ["stage"] (subtree ["stage"] (fs_tree example_state))
     (subtree ["data"] (fs_tree example_state)) (fs_tree s2) (fs_journal s2) ∨
   done_for example_context (subtree ["stage"] (fs_tree example_state)) (fs_tree s2) (fs_journal s2) ∨
   ∀ calm_host, calm calm_host → ∃ s3,
     recover_previous calm_host size false example_context (restart s2) = (Ok (), s3) ∧
     done_for example_context (subtree ["stage"] (fs_tree example_state)) (fs_tree s3) (fs_journal s3)).
Proof.
  split; [vm_compute; reflexivity|]. split; [vm_compute; reflexivity|].
  apply (publication_completes size example_context ["stage"] (subtree ["stage"] (fs_tree example_state))
           (subtree ["data"] (fs_tree example_state)) example_ordinary example_legible false (example_host 30) example_state
           [example_host 33]).
  - split; intros s E; cbn in E; discriminate E.
  - split; [apply wf_check; vm_compute; reflexivity|]. split; [vm_compute; by eexists|].
    split; vm_compute; reflexivity.
  - reflexivity.
  - intros n name g Hg. discriminate Hg.
Defined.

(** A destination whose name is not UTF-8 text: the recorded target differs from
    it, so once a publication is killed after its decision, no later attempt
    carries it out. *)
Definition illegible_context : archiveJournalContext := mkContext (of_bytes [47; 100; 0xE9]%Z) "1:2" "j.json".
Lemma illegible_target_stuck :
  let '(r, s1) := publishJournaledArchive (example_host 30) size false illegible_context (Beneath ["stage"]) example_state in
  r = Err died ∧ fs_tree s1 !! ["stage"] = None ∧ fs_tree s1 !! [of_bytes [100; 0xE9]%Z] = None ∧
  (recover_previous (example_host 300) size false illegible_context (restart s1)).1
    = Err (Msg "copy recovery journal does not match destination and physical parent").
Proof. vm_compute. split_and!; reflexivity. Qed.
