(* ===== verification/ArchiveCopy.v ===== *)
(** * Archive extraction ([internal/runner/runnerfs/archive.go], [copy.go])

    An archive received over the network is extracted beneath a fresh staging
    directory.  The model has the whole file system (a node is kept at its
    physical path, and a name is resolved through the symbolic links on it), the
    process that can fail or be killed at every call, and what the gzip and tar
    readers deliver as data: any sequence of headers and body chunks, ending in
    any way.  [ctx.Err()] is a call that may fail. *)

From Stdlib Require Import ZArith Lia.
From stdpp Require Import gmap strings prelude.
From S2P Require Import Prelude GoText GoPath ArchiveJournal.
Local Open Scope string_scope.
Local Open Scope Z_scope.
Local Open Scope crab_scope.

(** ** Data *)

Definition ArchivePayloadRoot : string := "payload".

Record ArchiveLimits := mkLimits {
  MaxEntries : Z; MaxFileBytes : Z; MaxTotalBytes : Z; MaxCompressedBytes : Z }.
Definition DefaultArchiveLimits : ArchiveLimits :=
  mkLimits 1000000 (Z.shiftl 64 30) (Z.shiftl 256 30) (Z.shiftl 256 30).

Definition validate (limits : ArchiveLimits) : bool :=
  negb ((MaxEntries limits <? 1) || (MaxFileBytes limits <? 1) || (MaxTotalBytes limits <? 1) ||
        (MaxCompressedBytes limits <? 1) || (MaxFileBytes limits =? max_int64) || (MaxCompressedBytes limits =? max_int64) ||
        ((max_int64 - 2 ^ 20 - 1) / 4096 <? MaxEntries limits) ||
        (max_int64 - MaxEntries limits * 4096 - 2 ^ 20 - 1 <? MaxTotalBytes limits)).

Record ArchiveSource := mkArchiveSource { as_Base : string; as_ContentsOnly : bool }.

(** [tar.Header]; no [ModTime] is the zero time. *)
Record tar_header := mkHeader {
  th_Name : string; th_Typeflag : Z; th_Size : Z; th_Mode : Z; th_ModTime : option Z }.
Definition TypeReg : Z := 48.
Definition TypeRegA : Z := 0.
Definition TypeDir : Z := 53.

(** What [tr.Next] returns, with the reads of the body and the error that ends
    them ([None] is [io.EOF]). *)
Inductive tar_next := Entry (h : tar_header) (chunks : list (list Z)) (err : option error) | Broken (e : error).

(** The archive as the readers deliver it. *)
Record Stream := mkStream {
  st_gzip : option error;              (** of [gzip.NewReader] *)
  st_entries : list tar_next;
  st_consumed : Z;                     (** bytes the tar reader took *)
  st_trailer : list (list Z);          (** the reads after the end marker *)
  st_checksum : option error;          (** how those reads end *)
  st_close : option error;
  st_after : option (res ());          (** [Peek]: nothing, a byte or an error *)
  st_compressed : Z }.

(** What [ExtractArchive] keeps between entries. *)
Record extraction := mkExtraction {
  x_seen : gset string; x_identities : gmap string string;
  x_times : list (string * option Z * Z);    (** [directoryTimes]: path, time, mode *)
  x_entries : Z; x_total : Z }.
Definition no_extraction : extraction := mkExtraction ∅ ∅ [] 0 0.

(** ** Names of entries *)

(** [strings.TrimPrefix] *)
Definition TrimPrefix (s p : string) : string := (CutPrefix s p).1.

(** The bytes before the first that satisfies [f]. *)
Fixpoint take_until (f : Z → bool) (bs : list Z) : list Z :=
  match bs with [] => [] | b :: bs => if f b then [] else b :: take_until f bs end.

(** Windows device names; [rel] is slash separated. *)
Definition ValidWindowsPathComponents (rel : string) : bool :=
  forallb (λ component,
    if component =s "" then true
    else if ContainsAny component [58] || HasSuffix component "." || HasSuffix component " " then false
    else
      let base := ToUpper (of_bytes (take_until (λ b, b =? 46) (to_bytes component))) in
      negb ((base ∈s ["CON"; "PRN"; "AUX"; "NUL"]) ||
            bool_decide (String.length base = 4%nat) && (HasPrefix base "COM" || HasPrefix base "LPT") &&
            match to_bytes base !! 3%nat with Some b => (49 <=? b) && (b <=? 57) | None => false end))
    (Split rel).

Definition validatedCopyArchiveEntryPathForGOOS (goos name archiveRoot : string) : res (string * string) :=
  reject_if ((goos =s "windows") && ContainsAny name [92]) (Msg "copy archive contains unsafe path: %q");;
  reject_if (ContainsAny name [0] || IsAbs name) (Msg "copy archive contains unsafe path: %q");;
  reject_if (existsb (λ component, component =s "..") (Split name))
    (Msg "copy archive contains unsafe path traversal component: %q");;
  let clean := Clean name in
  reject_if ((clean =s ".") || (clean =s "..") || HasPrefix clean "../") (Msg "copy archive contains unsafe path: %q");;
  reject_if ((clean <>s archiveRoot) && negb (HasPrefix clean (archiveRoot +:+ "/")))
    (Msg "copy archive entry escapes its source root: %q");;
  let rel := TrimPrefix (TrimPrefix clean archiveRoot) "/" in
  reject_if ((goos =s "windows") && negb (ValidWindowsPathComponents rel))
    (Msg "copy archive contains unsafe Windows path: %q");;
  Ok (clean, rel).

(** The name a download is published under comes from the caller's path. *)
Definition DownloadSource (name : string) : res ArchiveSource :=
  reject_if ((TrimSpace name =s "") || ContainsAny name [0; 13; 10] ||
             HasPrefix name "~" && (name <>s "~") && negb (HasPrefix name "~/"))
    (Msg "unsupported remote copy source path");;
  let trimmed := of_bytes (reverse (drop_while (λ b, b =? 47) (reverse (to_bytes name)))) in
  let last := List.last (Split trimmed) "" in
  reject_if ((trimmed =s "") || (trimmed =s "~") || (last =s ".") || (last =s ".."))
    (Msg "archive copy requires a named source below the filesystem root or home");;
  Ok (mkArchiveSource (Base trimmed) (HasSuffix name "/")).

(** ** Resolving names

    The bytes of a symbolic link are the path it holds. *)
Definition not_found : error := Msg "no such file or directory".
Definition not_directory : error := Msg "not a directory".
Definition too_many_links : error := Msg "too many levels of symbolic links".

(** The names of the path a link holds. *)
Definition link_names (target : string) : list string :=
  filter (λ x, x ≠ "" ∧ x ≠ ".") (Split target).

(** The walk of the kernel along [rest] from the directory [base]: a link on the
    way is always followed, one at the end only where the call follows links.
    [fuel] bounds the names looked up. *)
Fixpoint walk_path (fuel : nat) (m : tree) (follow : bool) (base rest : path) : res path :=
  match rest with
  | [] => Ok base
  | c :: rest =>
      match fuel with
      | O => Err too_many_links
      | S fuel =>
          if c =s ".." then walk_path fuel m follow (parent_of base) rest
          else
            let p := (base ++ [c])%list in
            let last := rest =s [] in
            match m !! p with
            | None => if last then Ok p else Err not_found
            | Some n =>
                match n_kind n with
                | Directory => walk_path fuel m follow p rest
                | Symlink =>
                    if last && negb follow then Ok p
                    else
                      let target := of_bytes (n_data n) in
                      walk_path fuel m follow (if IsAbs target then [] else base) (link_names target ++ rest)%list
                | _ => if last then Ok p else Err not_directory
                end
            end
      end
  end.

(** A key of the tree is a physical path, so the walk can start at the deepest
    directory on the path.  The fuel is the length the kernel allows a path. *)
Fixpoint deepest (m : tree) (p : path) (n : nat) : nat :=
  if is_directory m (take n p) then n else match n with O => O | S n => deepest m p n end.
Definition path_max : nat := 4096.
Definition resolve (follow : bool) (m : tree) (p : path) : res path :=
  let n := deepest m p (length p) in walk_path path_max m follow (take n p) (drop n p).
Arguments resolve : simpl never.

Section host.
Context (host : Host).
Local Abbreviation FM := (M FS).

(** ** System calls *)

(** [ctx.Err()], [File.Sync] and [File.Close]: calls without effect that may fail. *)
Definition call : FM () := syscall host (λ _ s, (Ok (), s)).
Definition exists_error : error := Msg "file exists".
Definition touch (p : path) (time : Z) (m : tree) : tree :=
  alter (λ n, mkNode (n_kind n) (n_dev n) (n_ino n) (n_owned n) (n_mode n) time (n_data n)) p m.

(** A call on a name, which acts on the path the name leads to. *)
Definition located {A} (follow : bool) (name : string) (op : path → nat → FS → res A * FS) : FM A :=
  syscall host (λ n s,
    match resolve follow (fs_tree s) (components name) with
    | Ok p => op p n s
    | Err e => (Err e, s)
    end).

(** A new entry at [p], which changes the directory it is in. *)
Definition new_entry (k : kind) (mode : Z) (p : path) (n : nat) (s : FS) : res () * FS :=
  let m := fs_tree s in
  if (p =s []) || bool_decide (is_Some (m !! p)) then (Err exists_error, s)
  else if negb (is_directory m (parent_of p)) then (Err not_found, s)
  else
    let '(dev, ino) := h_inode host n in
    let fresh := mkNode k dev ino true (Z.ldiff mode (h_umask host)) (h_clock host n) [] in
    (Ok (), set_tree (<[p := fresh]> (touch (parent_of p) (h_clock host n) m)) s).
(** [os.Mkdir] with mode 0755 and [os.OpenFile] with [O_CREATE|O_EXCL|O_WRONLY]
    and mode 0644: neither follows a link at the end of the name. *)
Definition Mkdir (name : string) : FM () := located false name (new_entry Directory (octal 7 5 5)).
Definition CreateExclusive (name : string) : FM path := located false name (λ p n s,
  match new_entry Regular (octal 6 4 4) p n s with
  | (Ok _, s) => (Ok p, s)
  | (Err e, s) => (Err e, s)
  end).
(** What is at the end of a name; [None] is [os.IsNotExist].  [os.Stat] follows a
    link there, [os.Lstat] does not. *)
Definition inspect (follow : bool) (name : string) : FM (option node) := syscall host (λ _ s,
  match resolve follow (fs_tree s) (components name) with
  | Ok p => (Ok (fs_tree s !! p), s)
  | Err e => if e =s not_found then (Ok None, s) else (Err e, s)
  end).
Definition Stat (name : string) : FM (option node) := inspect true name.
Definition Lstat (name : string) : FM (option node) := inspect false name.
(** [os.Open] *)
Definition OpenPath (name : string) : FM path := located true name (λ p _ s,
  if bool_decide (is_Some (fs_tree s !! p)) then (Ok p, s) else (Err not_found, s)).
(** Calls that change an existing entry, by an open file or by name. *)
Definition change (f : Z → node → node) (p : path) (n : nat) (s : FS) : res () * FS :=
  match fs_tree s !! p with
  | None => (Err not_found, s)
  | Some old => (Ok (), set_tree (<[p := f (h_clock host n) old]> (fs_tree s)) s)
  end.
Definition update (f : Z → node → node) (p : path) : FM () := syscall host (change f p).
(** [File.Write]: the whole chunk or an error *)
Definition Write (p : path) (chunk : list Z) : FM () := update (λ now n,
  mkNode (n_kind n) (n_dev n) (n_ino n) (n_owned n) (n_mode n) now (n_data n ++ chunk)%list) p.
Definition Chmod (p : path) (mode : Z) : FM () := update (λ _ n,
  mkNode (n_kind n) (n_dev n) (n_ino n) (n_owned n) mode (n_mtime n) (n_data n)) p.
Definition Chtimes (name : string) (time : Z) : FM () := located true name (change (λ _ n,
  mkNode (n_kind n) (n_dev n) (n_ino n) (n_owned n) (n_mode n) time (n_data n))).

Definition applyCopyArchiveModTime (name : string) (modTime : option Z) : FM () :=
  match modTime with Some time => Chtimes name time | None => mret () end.

(** [Copy] of the reads [chunks] to a file. *)
Fixpoint Copy (p : path) (chunks : list (list Z)) (err : option error) : FM () :=
  call;;
  match chunks with
  | chunk :: chunks =>
      (if chunk =s [] then mret () else call;; Write p chunk);;
      Copy p chunks err
  | [] => match err with Some e => fail e | None => call end
  end.

(** ** Directories *)

Definition ensure_one (identities : gmap string string) (current logical : string) : FM (gmap string string) :=
  r ← attempt (Mkdir current);
  match r with
  | Err e => ensure (e =s exists_error) (Wrap "create copy archive directory %s: %w" e)
  | Ok _ => mret ()
  end;;
  info ← Stat current;
  match info with
  | None => fail (Msg "inspect copy archive directory %s: %w")
  | Some n =>
      ensure (n_kind n =s Directory) (Msg "copy archive directory conflicts with existing path: %s");;
      let identity := copyArchiveDirectoryIdentity n in
      match identities !! identity with
      | Some existing =>
          ensure (existing =s logical) (Msg "copy archive contains duplicate filesystem path aliases: %s and %s");;
          mret identities
      | None => mret (<[identity := logical]> identities)
      end
  end.
Fixpoint ensure_below (identities : gmap string string) (current logical : string) (components : list string)
    : FM (gmap string string) :=
  match components with
  | [] => mret identities
  | component :: components =>
      let current := path_Join current component in
      let logical := path_Join logical component in
      identities ← ensure_one identities current logical;
      ensure_below identities current logical components
  end.
(** [copyArchiveDirectoryTracker.ensure] *)
Definition ensure_directories (identities : gmap string string) (stage archiveRoot rel : string)
    : FM (gmap string string) :=
  let root := path_Join stage ArchivePayloadRoot in
  identities ← ensure_one identities root archiveRoot;
  ensure_below identities root archiveRoot (if rel =s "" then [] else Split rel).

(** ** Extraction *)

Context (preserve : bool) (limits : ArchiveLimits).

(** The body of a regular file: exclusive creation, contents, permissions and
    time; the file is synced and closed whatever happened. *)
Definition extract_file (destination : string) (h : tar_header) (chunks : list (list Z)) (err : option error) : FM () :=
  existing ← Lstat destination;
  ensure (bool_decide (existing = None)) (Msg "copy archive entry conflicts with existing path: %s (%s)");;
  file ← CreateExclusive destination;
  copied ← attempt (
    Copy file chunks err;;
    (if preserve then Chmod file (Z.land (th_Mode h) (octal 7 7 7)) else mret ());;
    applyCopyArchiveModTime destination (th_ModTime h));
  synced ← attempt call;
  closed ← attempt call;
  match copied, closed, synced with
  | Err e, _, _ => fail (Wrap "extract copy archive entry %s: %w" e)
  | _, Err e, _ => fail (Wrap "close copy archive file %s: %w" e)
  | _, _, Err e => fail (Wrap "sync copy archive file %s: %w" e)
  | _, _, _ => mret ()
  end.

(** One round of the loop over the archive, after [tr.Next]. *)
Definition extract_entry (stage archiveRoot : string) (x : extraction) (h : tar_header)
    (chunks : list (list Z)) (err : option error) : FM extraction :=
  let entries := x_entries x + 1 in
  ensure (entries <=? MaxEntries limits) (Msg "copy archive exceeds entry limit (%d)");;
  ensure (IsLocal (th_Name h)) (Msg "copy archive contains unsafe path: %q");;
  '(clean, rel) ← lift (validatedCopyArchiveEntryPathForGOOS "linux" (th_Name h) archiveRoot);
  ensure (bool_decide (clean ∉ x_seen x)) (Msg "copy archive contains duplicate entry: %s");;
  let seen := {[clean]} ∪ x_seen x in
  let root := path_Join stage ArchivePayloadRoot in
  let destination := if rel <>s "" then path_Join root rel else root in
  ensure ((destination =s root) || HasPrefix destination (root +:+ "/"))
    (Msg "copy archive entry escapes the staging root: %q");;
  if th_Typeflag h =? TypeDir then
    identities ← ensure_directories (x_identities x) stage archiveRoot rel;
    mret (mkExtraction seen identities
            (x_times x ++ [(destination, th_ModTime h, Z.land (th_Mode h) (octal 7 7 7))])%list entries (x_total x))
  else if (th_Typeflag h =? TypeReg) || (th_Typeflag h =? TypeRegA) then
    ensure (negb ((th_Size h <? 0) || (MaxFileBytes limits <? th_Size h)))
      (Msg "copy archive file exceeds size limit (%d bytes): %s");;
    ensure (th_Size h <=? MaxTotalBytes limits - x_total x) (Msg "copy archive exceeds total size limit (%d bytes)");;
    identities ←
      (if rel <>s "" then
         let parentRel := if Dir rel =s "." then "" else Dir rel in
         ensure_directories (x_identities x) stage archiveRoot parentRel
       else mret (x_identities x));
    extract_file destination h chunks err;;
    mret (mkExtraction seen identities (x_times x) entries (x_total x + th_Size h))
  else fail (Msg "copy archive contains unsupported link or special entry: %s").

Fixpoint extract_entries (stage archiveRoot : string) (x : extraction) (nexts : list tar_next) : FM extraction :=
  call;;
  match nexts with
  | [] => mret x
  | Broken e :: _ => fail (Wrap "read copy archive: %v" e)
  | Entry h chunks err :: nexts =>
      x ← extract_entry stage archiveRoot x h chunks err;
      extract_entries stage archiveRoot x nexts
  end.

(** After the end marker only zeros may follow; [left] is what the limited
    reader may still deliver. *)
Fixpoint read_trailer (left : Z) (reads : list (list Z)) (checksum : option error) : FM Z :=
  call;;
  if left <=? 0 then mret left
  else
    match reads, checksum with
    | [], Some e => fail (Wrap "verify copy archive checksum: %v" e)
    | [], None => mret left
    | chunk :: reads, _ =>
        let chunk := take (Z.to_nat left) chunk in
        ensure (forallb (λ b, b =? 0) chunk) (Msg "copy archive contains data after its end marker");;
        ensure (negb (left - zlen chunk =? 0)) (Msg "copy archive exceeds uncompressed size limit (%d bytes)");;
        read_trailer (left - zlen chunk) reads checksum
    end.

(** The times and permissions of directories, once their contents are there. *)
Definition restore_directory (time : string * option Z * Z) : FM () :=
  let '(directory, modTime, mode) := time in
  applyCopyArchiveModTime directory modTime;;
  call;;
  if preserve then
    opened ← OpenPath directory;
    join (Chmod opened mode) (join call call)
  else mret ().
Definition each {A} (f : A → FM ()) (xs : list A) : FM () := foldr (λ x rest, f x;; rest) (mret ()) xs.
Definition directories_below (p : path) (m : tree) : list path :=
  fst <$> filter (λ kn : path * node, is_Some (strip p kn.1) ∧ n_kind kn.2 = Directory) (map_to_list m).

(** Nothing but zeros may follow the entries, and the checksum must hold. *)
Definition verify_stream (stream : Stream) (maxArchiveBytes : Z) : FM () :=
  left ← read_trailer (maxArchiveBytes + 1 - st_consumed stream) (st_trailer stream) (st_checksum stream);
  ensure (negb (left =? 0)) (Msg "copy archive exceeds uncompressed size limit (%d bytes)");;
  (match st_close stream with Some e => fail (Wrap "verify copy archive checksum: %v" e) | None => mret () end);;
  (match st_after stream with
   | None => mret ()
   | Some (Ok _) => fail (Msg "copy archive contains trailing compressed data")
   | Some (Err e) => fail (Wrap "inspect copy archive trailer: %v" e)
   end);;
  ensure (0 <? MaxCompressedBytes limits + 1 - st_compressed stream)
    (Msg "copy archive exceeds compressed size limit (%d bytes)").

Definition finish_extraction (stage : string) (x : extraction) : FM () :=
  payload ← Lstat (path_Join stage ArchivePayloadRoot);
  ensure (bool_decide (payload ≠ None)) (Msg "copy archive contained no payload");;
  directories ← gets (λ s, directories_below (components stage) (fs_tree s));
  each (λ _, call) directories;;
  each restore_directory (reverse (x_times x)).

Definition ExtractArchive (stream : Stream) (stage archiveRoot : string) : FM () :=
  ensure (validate limits) (Msg "invalid copy archive limits");;
  (match st_gzip stream with Some e => fail (Wrap "read checksummed copy archive: %v" e) | None => mret () end);;
  let maxArchiveBytes := wrap64 (MaxTotalBytes limits + MaxEntries limits * 4096 + 2 ^ 20) in
  ensure (MaxTotalBytes limits <=? maxArchiveBytes) (Msg "copy archive size limit overflow");;
  x ← extract_entries stage archiveRoot no_extraction (st_entries stream);
  verify_stream stream maxArchiveBytes;;
  finish_extraction stage x.
End host.
