(* ===== verification/ArchiveExtract.v ===== *)
(** * Archive extraction is confined

    Whatever an archive contains and wherever extraction is interrupted, into a
    stage whose payload holds no link to begin with it adds directories and
    regular files beneath that payload, within the size limits, and changes
    nothing else. *)

From Stdlib Require Import ZArith Lia.
From stdpp Require Import gmap strings prelude.
From S2P Require Import Prelude GoText GoPath ArchiveJournal ArchiveSafety ArchiveLive ArchiveCopy.
Local Open Scope string_scope.
Local Open Scope Z_scope.
Local Open Scope crab_scope.

(** ** Validated names *)

Lemma TrimPrefix_app p s : TrimPrefix (p +:+ s) p = s.
Proof.
  unfold TrimPrefix, CutPrefix. rewrite prefix_app. cbn. rewrite <-(of_to_bytes s) at 2. f_equal.
  rewrite to_bytes_app, drop_app_length'; [done|]. by rewrite length_to_bytes.
Qed.

(** What validation promises of an accepted entry name. *)
Record safe_name (archiveRoot clean rel : string) : Prop := mkSafe {
  sn_clean : Forall plain (Split clean);
  sn_rel : rel = "" ∧ clean = archiveRoot ∨ Forall plain (Split rel) ∧ clean = archiveRoot +:+ "/" +:+ rel }.

Lemma reject_bind {A} (b : bool) e (k : () → res A) a :
  (reject_if b e ≫= k) = Ok a → b = false ∧ k () = Ok a.
Proof. by destruct b. Qed.

Lemma validated_safe goos name archiveRoot clean rel :
  validatedCopyArchiveEntryPathForGOOS goos name archiveRoot = Ok (clean, rel) → safe_name archiveRoot clean rel.
Proof.
  unfold validatedCopyArchiveEntryPathForGOOS. intros H.
  apply reject_bind in H as [_ H]. apply reject_bind in H as [[_ Ha]%orb_false_elim H].
  apply reject_bind in H as [Hdots H]. apply reject_bind in H as [Hc H]. apply reject_bind in H as [Hroot H].
  apply reject_bind in H as [_ H]. injection H as <- <-.
  apply orb_false_elim in Hc as [[Hc%bool_decide_eq_false _]%orb_false_elim _].
  assert (".." ∉ Split name) as Hd.
  { intros Hin. apply not_true_iff_false in Hdots. apply Hdots, existsb_exists. exists "..".
    split; [by apply list_elem_of_In|by apply bool_decide_eq_true_2]. }
  destruct (Clean_relative name Ha Hd Hc) as (_ & _ & Hs).
  assert (Forall plain (Split (Clean name))) as Hp by (rewrite Hs; apply elements_proper; by right).
  split; [done|]. destruct (decide (Clean name = archiveRoot)) as [E|E].
  - left. split; [|done]. rewrite <-E. rewrite <-(append_empty (Clean name)) at 1. by rewrite TrimPrefix_app.
  - right. rewrite bool_decide_eq_false_2 in Hroot by done. cbn in Hroot. apply negb_false_iff in Hroot.
    apply prefix_split in Hroot as [t Ht]. rewrite <-append_assoc in Ht.
    rewrite Ht, TrimPrefix_app. change ("/" +:+ t) with ("/" +:+ t). rewrite TrimPrefix_app. split; [|done].
    rewrite Ht, Split_slash in Hp. by apply Forall_app in Hp as [_ ?].
Qed.

(** ** What extraction may change *)

(** The bytes of all files. *)
Definition stored (t : tree) : Z := map_fold (λ _ n acc, zlen (n_data n) + acc) 0 t.

Lemma stored_insert_None p n t : t !! p = None → stored (<[p := n]> t) = zlen (n_data n) + stored t.
Proof. intros H. unfold stored. rewrite map_fold_insert_L; [done| |done]. intros. lia. Qed.
Lemma stored_insert p old n t : t !! p = Some old →
  stored (<[p := n]> t) = stored t + zlen (n_data n) - zlen (n_data old).
Proof.
  intros H. assert (stored t = zlen (n_data old) + stored (delete p t)) as ->.
  { rewrite <-(stored_insert_None p) by apply lookup_delete_eq. by rewrite insert_delete_id. }
  rewrite <-(insert_delete_eq t p n), stored_insert_None by apply lookup_delete_eq. lia.
Qed.

Definition timeless (n : node) : node :=
  mkNode (n_kind n) (n_dev n) (n_ino n) (n_owned n) (n_mode n) 0 (n_data n).

(** [grew R t0 t]: beneath [R] there are new directories and files; what was
    there keeps its kind and contents; of the rest only the time of the
    directory that holds [R] may differ. *)
Record grew (R : path) (t0 t : tree) : Prop := mkGrew {
  g_outside k : strip R k = None → k ≠ parent_of R → t !! k = t0 !! k;
  g_parent : timeless <$> t !! parent_of R = timeless <$> t0 !! parent_of R;
  g_kept k n : t0 !! k = Some n → ∃ n', t !! k = Some n' ∧ n_kind n' = n_kind n ∧ n_data n' = n_data n;
  g_new k n : t !! k = Some n → t0 !! k = None → n_kind n = Directory ∨ n_kind n = Regular }.

Lemma grew_refl R t : grew R t t.
Proof. split; [done|done|by eauto|congruence]. Qed.

Lemma beneath_not_parent (R k : path) : R ≠ [] → is_Some (strip R k) → k ≠ parent_of R.
Proof.
  intros HR [s ->%strip_Some] E. apply (f_equal length) in E. unfold parent_of in E.
  rewrite length_app, length_take in E. destruct R; [done|]. cbn in E. lia.
Qed.

Section grew.
Context (R : path) (HR : R ≠ []) (t0 : tree).

Lemma grew_insert_new p n t :
  grew R t0 t → is_Some (strip R p) → t !! p = None → n_kind n = Directory ∨ n_kind n = Regular →
  grew R t0 (<[p := n]> t) ∧ t0 !! p = None.
Proof.
  intros [H1 H2 H3 H4] Hp Hnone Hk. assert (t0 !! p = None) as H0.
  { destruct (t0 !! p) as [n0|] eqn:E; [|done]. destruct (H3 _ _ E) as (? & ? & _). congruence. }
  split; [split|done].
  - intros k Hs Hk'. rewrite lookup_insert_ne; [by apply H1|]. intros ->. rewrite Hs in Hp. by destruct Hp.
  - rewrite lookup_insert_ne; [done|]. by apply beneath_not_parent.
  - intros k n0 E. rewrite lookup_insert_ne; [by apply H3|]. congruence.
  - intros k n' [[<- <-]|[_ E]]%lookup_insert_Some E0; [done|]. by eapply H4.
Qed.

Lemma grew_update p n n' t :
  grew R t0 t → t !! p = Some n → n_kind n' = n_kind n →
  (is_Some (strip R p) ∧ (t0 !! p = None ∨ n_data n' = n_data n) ∨ p = parent_of R ∧ timeless n' = timeless n) →
  grew R t0 (<[p := n']> t).
Proof.
  intros [H1 H2 H3 H4] Hp Hkind Hcase.
  assert (t0 !! p = None ∨ n_data n' = n_data n) as Hdata.
  { destruct Hcase as [[_ ?]|[_ E]]; [done|]. right. by injection E. }
  split.
  - intros k Hs Hk'. rewrite lookup_insert_ne; [by apply H1|]. intros ->.
    destruct Hcase as [[[? Hs'] _]|[? _]]; [congruence|done].
  - destruct Hcase as [[Hp' _]|[-> Htime]].
    + rewrite lookup_insert_ne; [done|]. by apply beneath_not_parent.
    + rewrite lookup_insert_eq. rewrite <-H2, Hp. cbn. by rewrite Htime.
  - intros k n0 E. destruct (decide (k = p)) as [->|Hne]; [|rewrite lookup_insert_ne by done; by apply H3].
    rewrite lookup_insert_eq. eexists. split; [done|]. destruct (H3 _ _ E) as (n1 & E1 & Hk & Hd).
    destruct Hdata; [congruence|]. split; congruence.
  - intros k n1 [[<- <-]|[_ E]]%lookup_insert_Some E0; [rewrite Hkind; by eapply H4|by eapply H4].
Qed.

Lemma grew_touch p time t :
  grew R t0 t → is_Some (strip R p) ∨ p = parent_of R → grew R t0 (touch p time t) ∧ stored (touch p time t) = stored t.
Proof.
  intros Hg Hp. unfold touch. destruct (t !! p) as [n|] eqn:E.
  - assert (alter (λ n, mkNode (n_kind n) (n_dev n) (n_ino n) (n_owned n) (n_mode n) time (n_data n)) p t
            = <[p := mkNode (n_kind n) (n_dev n) (n_ino n) (n_owned n) (n_mode n) time (n_data n)]> t) as ->.
    { apply map_eq. intros k. destruct (decide (k = p)) as [->|].
      - by rewrite lookup_alter_eq, lookup_insert_eq, E.
      - by rewrite lookup_alter_ne, lookup_insert_ne by done. }
    split; [|rewrite (stored_insert _ n) by done; cbn; lia].
    eapply grew_update; [done..|]. destruct Hp as [?|?]; [left; split; [done|by right]|by right].
  - split; [|f_equal]; rewrite alter_id; try done; intros ? ?; congruence.
Qed.
End grew.

(** ** Names without links *)

Lemma components_no_dots name : ".." ∉ components name.
Proof.
  intros H. pose proof (elements_proper true name (or_introl eq_refl)) as Hp.
  rewrite Forall_forall in Hp. by destruct (Hp _ H) as (_ & _ & ? & _).
Qed.

Lemma deepest_spec m p n : let k := deepest m p n in
  (k ≤ n)%nat ∧ is_directory m (take k p) = true ∧ ∀ i, (k < i ≤ n)%nat → is_directory m (take i p) = false.
Proof.
  cbv zeta. induction n as [|n IH]; cbn [deepest].
  - destruct (is_directory m (take 0 p)) eqn:E; (split; [lia|split; [|intros; lia]]); [done|].
    cbn in E. done.
  - destruct (is_directory m (take (S n) p)) eqn:E; [split; [lia|split; [done|intros; lia]]|].
    destruct IH as (H1 & H2 & H3). split; [lia|]. split; [done|]. intros i Hi.
    destruct (decide (i = S n)) as [->|]; [done|apply H3; lia].
Qed.

Lemma path_max_positive : ∃ fuel, path_max = S fuel.
Proof. by exists (pred path_max). Qed.

Lemma resolve_directory follow m p : is_directory m p = true → resolve follow m p = Ok p.
Proof.
  intros H. unfold resolve. destruct (deepest_spec m p (length p)) as (H1 & H2 & H3).
  destruct (decide (deepest m p (length p) = length p)) as [->|Hne].
  - rewrite firstn_all, drop_all. destruct path_max_positive as [fuel ->]. done.
  - specialize (H3 (length p) ltac:(lia)). rewrite firstn_all in H3. congruence.
Qed.

(** A name in a directory is not resolved further, unless it is a link that the
    call follows. *)
Lemma resolve_in_directory follow m p : p ≠ [] → ".." ∉ p → is_directory m (parent_of p) = true →
  (∀ n, m !! p = Some n → n_kind n = Symlink → follow = false) → resolve follow m p = Ok p.
Proof.
  intros Hne Hdots Hdir Hlink. destruct (is_directory m p) eqn:Hp; [by apply resolve_directory|].
  destruct p as [|c q _] using rev_ind; [done|]. rewrite parent_of_snoc in Hdir.
  unfold resolve. destruct (deepest_spec m (q ++ [c])%list (length (q ++ [c])%list)) as (H1 & H2 & H3).
  rewrite length_app in *. cbn [length] in *. set (k := deepest _ _ _) in *.
  assert (k = length q) as ->.
  { destruct (decide (k = length q + 1)%nat) as [E|].
    - rewrite E, take_ge in H2 by (rewrite length_app; cbn; lia). congruence.
    - destruct (decide (k < length q)%nat); [|lia]. specialize (H3 (length q) ltac:(lia)).
      rewrite take_app_length in H3. congruence. }
  rewrite take_app_length, drop_app_length. destruct path_max_positive as [fuel ->]. cbn [walk_path].
  rewrite bool_decide_eq_false_2 by (intros ->; apply Hdots, elem_of_app; right; by left).
  cbv zeta. destruct (m !! (q ++ [c])%list) as [n|] eqn:E; [|done].
  destruct (n_kind n) eqn:Ek; [done|by destruct fuel| |done]. by rewrite (Hlink n eq_refl Ek).
Qed.

(** [linkless R m]: the directory that holds [R] is there, and at [R] and
    beneath there is no link. *)
Definition linkless (R : path) (m : tree) : Prop :=
  is_directory m (parent_of R) = true ∧
  ∀ k n, is_Some (strip R k) → m !! k = Some n → n_kind n ≠ Symlink.

Lemma take_beneath (R p : path) i : is_Some (strip R p) → (length R ≤ i)%nat → is_Some (strip R (take i p)).
Proof.
  intros [s ->%strip_Some] Hi. rewrite take_app_ge by done. exists (take (i - length R) s). by apply strip_Some.
Qed.

Lemma resolve_linkless R follow m p : R ≠ [] → linkless R m → is_Some (strip R p) → ".." ∉ p →
  resolve follow m p = Ok p ∨ ∃ e, resolve follow m p = Err e.
Proof.
  intros HR [Hd Hl] Hp Hdots. unfold resolve. destruct (deepest_spec m p (length p)) as (H1 & H2 & H3).
  set (k := deepest m p (length p)) in *.
  assert (length R ≤ length p)%nat as Hlen by (destruct Hp as [s ->%strip_Some]; rewrite length_app; lia).
  assert (length R ≤ S k)%nat as Hk.
  { destruct (decide (length R ≤ S k)%nat) as [|Hlt]; [done|]. specialize (H3 (pred (length R)) ltac:(lia)).
    assert (take (pred (length R)) p = parent_of R); [|congruence].
    destruct Hp as [s ->%strip_Some]. unfold parent_of. rewrite take_app_le by lia. done. }
  destruct (drop k p) as [|c rest] eqn:Edrop.
  { left. apply (f_equal length) in Edrop. rewrite length_drop in Edrop. cbn in Edrop.
    rewrite take_ge by lia. destruct path_max_positive as [fuel ->]. done. }
  assert ((take k p ++ [c])%list = take (S k) p) as E.
  { rewrite (take_S_r _ _ c); [done|]. rewrite <-(Nat.add_0_r k), <-lookup_drop, Edrop. done. }
  destruct path_max_positive as [fuel ->]. cbn [walk_path].
  rewrite bool_decide_eq_false_2.
  2: { intros ->. apply Hdots. rewrite <-(take_drop k p), Edrop. apply elem_of_app. right. by left. }
  cbv zeta. rewrite E.
  assert (length p = S k + length rest)%nat as Hrest.
  { apply (f_equal length) in Edrop. rewrite length_drop in Edrop. cbn in Edrop. lia. }
  assert (rest = [] → take (S k) p = p) as Hlast by (intros ->; apply take_ge; cbn in Hrest; lia).
  destruct (m !! take (S k) p) as [n|] eqn:En.
  - specialize (H3 (S k) ltac:(lia)). unfold is_directory in H3. rewrite En in H3.
    apply orb_false_elim in H3 as [_ H3%bool_decide_eq_false].
    pose proof (Hl (take (S k) p) n (take_beneath R p (S k) Hp Hk) En).
    destruct (n_kind n); try done; (case_bool_decide as Er; [left; by rewrite (Hlast Er)|right; by eexists]).
  - case_bool_decide as Er; [left; by rewrite (Hlast Er)|right; by eexists].
Qed.

Lemma grew_linkless R t0 t : linkless R t0 → grew R t0 t → linkless R t.
Proof.
  intros [Hd Hl] [_ H2 H3 H4]. split.
  - unfold is_directory in *. destruct (parent_of R =s []); [done|]. cbn in *.
    destruct (t0 !! parent_of R) as [n0|], (t !! parent_of R) as [n|]; try done.
    apply (f_equal (fmap n_kind)) in H2. cbn in H2. injection H2 as ->. done.
  - intros k n Hk E. destruct (t0 !! k) as [n0|] eqn:E0.
    + destruct (H3 _ _ E0) as (n' & E' & Hkind & _). assert (n' = n) as -> by congruence. rewrite Hkind. by apply (Hl k).
    + destruct (H4 _ _ E E0) as [-> | ->]; done.
Qed.

(** ** Every call is confined *)

Section calls.
Context (host : Host) (R : path) (HR : R ≠ []) (t0 : tree) (j0 : gmap string jfile).
Context (Hlinks : linkless R t0).
Local Abbreviation triple := (triple host false).

(** The tree grew by at most [b] bytes. *)
Definition within (b : Z) (t : tree) (j : gmap string jfile) : Prop :=
  grew R t0 t ∧ stored t ≤ stored t0 + b ∧ j = j0.

Lemma within_mono b b' t j : within b t j → b ≤ b' → within b' t j.
Proof. intros (? & ? & ?) ?. split_and!; [done|lia|done]. Qed.

Lemma t_noop (P : assertion) : triple P (call host) (λ _, P) P.
Proof. by apply t_call. Qed.
Lemma t_inspect (P : assertion) follow name : triple P (inspect host follow name) (λ _, P) P.
Proof.
  apply t_call; [|done]. intros _ s H. destruct (resolve _ _ _) as [p|e]; [done|]. by destruct (e =s not_found).
Qed.

(** A call on a name beneath [R] acts on that very path. *)
Lemma t_located {A : Type} b follow name (op : path → nat → FS → res A * FS) (Q : A → assertion) (E : assertion) :
  is_Some (strip R (components name)) → (∀ t j, within b t j → E t j) →
  (∀ n s, within b (fs_tree s) (fs_journal s) →
     match op (components name) n s with
     | (Ok a, s') => Q a (fs_tree s') (fs_journal s')
     | (Err _, s') => E (fs_tree s') (fs_journal s')
     end) → triple (within b) (located host follow name op) Q E.
Proof.
  intros Hp HE Hop. apply t_call; [|done]. intros n s H. pose proof H as [Hg _].
  destruct (resolve_linkless R follow (fs_tree s) (components name)) as [-> |[e ->]]; try done.
  - by eapply grew_linkless.
  - apply components_no_dots.
  - by apply Hop.
  - by apply HE.
Qed.

Lemma parent_beneath p : is_Some (strip R p) → is_Some (strip R (parent_of p)) ∨ parent_of p = parent_of R.
Proof.
  intros [s ->%strip_Some]. destruct s as [|x s _] using rev_ind; [right; by rewrite app_nil_r|left].
  rewrite app_assoc, parent_of_snoc, strip_app. by eexists.
Qed.

(** A new entry changes at most what it may. *)
Lemma new_entry_within b k mode p n s : is_Some (strip R p) → k = Directory ∨ k = Regular →
  within b (fs_tree s) (fs_journal s) →
  match new_entry host k mode p n s with
  | (Ok _, s') => t0 !! p = None ∧ within b (fs_tree s') (fs_journal s')
  | (Err _, s') => within b (fs_tree s') (fs_journal s')
  end.
Proof.
  intros Hp Hk (Hg & Hb & Hj). unfold new_entry. cbv zeta.
  destruct (_ || _) eqn:Hex; [done|]. apply orb_false_elim in Hex as [_ Hex%bool_decide_eq_false].
  destruct (negb _); [done|]. destruct (h_inode host n) as [dev ino]. cbn.
  assert (fs_tree s !! p = None) as Hnone by (destruct (fs_tree s !! p); [by destruct Hex|done]).
  destruct (grew_touch R HR t0 (parent_of p) (h_clock host n) (fs_tree s) Hg (parent_beneath p Hp)) as [Hg' Hs'].
  set (t' := touch _ _ _) in *.
  assert (t' !! p = None) as Hnone'.
  { unfold t', touch. rewrite lookup_alter_None. done. }
  destruct (grew_insert_new R HR t0 p (mkNode k dev ino true (Z.ldiff mode (h_umask host)) (h_clock host n) []) t')
    as [Hg2 H0]; [done..|].
  split; [done|]. split; [done|]. split; [|done]. rewrite stored_insert_None by done. unfold zlen. cbn. lia.
Qed.

Lemma t_Mkdir b name : is_Some (strip R (components name)) →
  triple (within b) (Mkdir host name) (λ _, within b) (within b).
Proof.
  intros Hp. apply (t_located b); [done|done|]. intros n s H.
  pose proof (new_entry_within b Directory (octal 7 5 5) _ n s Hp (or_introl eq_refl) H) as HN.
  destruct (new_entry _ _ _ _ _ _) as [[]  s']; [by destruct HN|done].
Qed.
Lemma t_CreateExclusive b name : is_Some (strip R (components name)) →
  triple (within b) (CreateExclusive host name)
    (λ file t j, (file = components name ∧ t0 !! file = None) ∧ within b t j) (within b).
Proof.
  intros Hp. apply (t_located b); [done|done|]. intros n s H.
  pose proof (new_entry_within b Regular (octal 6 4 4) _ n s Hp (or_intror eq_refl) H) as HN.
  destruct (new_entry _ _ _ _ _ _) as [[] s']; [by destruct HN|done].
Qed.
Lemma t_OpenPath b name : is_Some (strip R (components name)) →
  triple (within b) (OpenPath host name) (λ file t j, file = components name ∧ within b t j) (within b).
Proof. intros Hp. apply (t_located b); [done|done|]. intros n s H. by case_bool_decide. Qed.

(** A call that appends at most [extra] bytes to a new file, or none. *)
Lemma t_update b extra f p :
  is_Some (strip R p) → (∀ now n, n_kind (f now n) = n_kind n) →
  (∀ now n, zlen (n_data (f now n)) ≤ zlen (n_data n) + extra) →
  (t0 !! p = None ∨ ∀ now n, n_data (f now n) = n_data n) → 0 ≤ extra →
  triple (within b) (update host f p) (λ _, within (b + extra)) (within (b + extra)).
Proof.
  intros Hp Hkind Hlen Hdata He. apply t_call; [|intros t j H; eapply within_mono; [done|lia]].
  intros n s H. unfold change. destruct (fs_tree s !! p) as [old|] eqn:E; [|eapply within_mono; [done|lia]].
  destruct H as (Hg & Hb & Hj). split; [|split; [|done]]; cbn.
  - eapply grew_update; [done..|]. left. split; [done|]. destruct Hdata; auto.
  - rewrite (stored_insert _ old) by done. specialize (Hlen (h_clock host n) old). lia.
Qed.
Lemma t_update_meta b f p :
  is_Some (strip R p) → (∀ now n, n_kind (f now n) = n_kind n) → (∀ now n, n_data (f now n) = n_data n) →
  triple (within b) (update host f p) (λ _, within b) (within b).
Proof.
  intros Hp Hk Hd. eapply t_conseq; [apply (t_update b 0)|..]; auto; [|lia|..].
  - intros. rewrite Hd. lia.
  - intros [] t j H. eapply within_mono; [done|lia].
  - intros t j H. eapply within_mono; [done|lia].
Qed.

(** The bytes the chunks hold. *)
Definition delivered (chunks : list (list Z)) : Z := zlen (concat chunks).

Lemma t_copy p chunks err b : is_Some (strip R p) → t0 !! p = None →
  triple (within b) (Copy host p chunks err) (λ _, within (b + delivered chunks)) (within (b + delivered chunks)).
Proof.
  intros Hp H0. revert b. induction chunks as [|chunk chunks IH]; intros b; cbn [Copy].
  - eapply t_bind; [eapply t_err; [apply t_noop|]|].
    { intros t j H. eapply within_mono; [done|]. unfold delivered, zlen. cbn. lia. }
    intros []. unfold delivered, zlen. cbn. rewrite Z.add_0_r. destruct err; [apply t_fails|apply t_noop].
  - assert (∀ t j, within b t j → within (b + delivered (chunk :: chunks)) t j) as Hmono.
    { intros t j H. eapply within_mono; [done|]. unfold delivered, zlen. lia. }
    eapply t_bind; [eapply t_err; [apply t_noop|done]|]. intros [].
    eapply t_bind with (Q := λ _, within (b + zlen chunk)).
    + destruct (decide (chunk = [])) as [->|Hne].
      * rewrite bool_decide_eq_true_2 by done. apply t_done. intros t j H. eapply within_mono; [done|]. unfold zlen. cbn. lia.
      * rewrite bool_decide_eq_false_2 by done. eapply t_bind; [eapply t_err; [apply t_noop|done]|]. intros [].
        eapply t_err; [apply t_update|]; auto.
        -- intros now n. cbn. rewrite zlen_app. lia.
        -- apply zlen_nonneg.
        -- intros t j H. eapply within_mono; [done|]. unfold delivered. cbn. rewrite zlen_app.
           pose proof (zlen_nonneg (concat chunks)). lia.
    + intros []. assert (b + delivered (chunk :: chunks) = (b + zlen chunk) + delivered chunks) as ->; [|apply IH].
      unfold delivered. cbn. rewrite zlen_app. lia.
Qed.

Lemma t_mod_time b name time : is_Some (strip R (components name)) →
  triple (within b) (applyCopyArchiveModTime host name time) (λ _, within b) (within b).
Proof.
  intros Hp. destruct time; [|by apply t_done]. apply (t_located b); [done|done|]. intros n s (Hg & Hb & Hj).
  unfold change. destruct (fs_tree s !! components name) as [old|] eqn:E; [|done]. split; [|split; [|done]]; cbn.
  - eapply grew_update; [done..|]. left. split; [done|by right].
  - rewrite (stored_insert _ old) by done. cbn. lia.
Qed.
End calls.

(** ** Every entry is confined *)

(** The tar reader delivers at most the announced size. *)
Definition tar_sized (next : tar_next) : Prop :=
  match next with Entry h chunks _ => 0 ≤ th_Size h → delivered chunks ≤ th_Size h | Broken _ => True end.

Section entries.
Context (host : Host) (preserve : bool) (limits : ArchiveLimits) (stage archiveRoot : string).
Context (Habs : IsAbs stage = true) (t0 : tree) (j0 : gmap string jfile).
Context (Hlinks : linkless (components stage ++ [ArchivePayloadRoot])%list t0).
Local Abbreviation triple := (triple host false).
Local Abbreviation R := (components stage ++ [ArchivePayloadRoot])%list.
Local Abbreviation within := (within R t0 j0).
Local Abbreviation root := (path_Join stage ArchivePayloadRoot).

Lemma R_nonempty : R ≠ [].
Proof. by destruct (components stage). Qed.
Lemma root_components : components root = R ∧ IsAbs root = true.
Proof.
  apply (components_Join stage ArchivePayloadRoot Habs).
  assert (plain ArchivePayloadRoot) as H by (by vm_compute). repeat constructor; by destruct H as (? & ? & ? & ?).
Qed.

(** A path made of the payload root and ordinary names. *)
Definition beneath (name : string) : Prop := IsAbs name = true ∧ is_Some (strip R (components name)).
Lemma beneath_root : beneath root.
Proof. destruct root_components as [E ?]. split; [done|]. rewrite E. exists []. apply strip_Some. by rewrite app_nil_r. Qed.
Lemma beneath_join name x : beneath name → Forall plain (Split x) → beneath (path_Join name x).
Proof.
  intros [Ha [s Hs%strip_Some]] Hx. destruct (components_Join name x Ha Hx) as [E ?]. split; [done|].
  rewrite E, Hs. exists (s ++ Split x)%list. apply strip_Some. by rewrite app_assoc.
Qed.

Lemma t_ensure_one b identities current logical : beneath current →
  triple (within b) (ensure_one host identities current logical) (λ _, within b) (within b).
Proof.
  intros [_ Hc]. unfold ensure_one.
  eapply t_bind; [apply (t_attempt_keeps host false (within b))|].
  { by apply (t_Mkdir host R R_nonempty t0 j0 Hlinks). }
  intros r. eapply t_bind with (Q := λ _, within b).
  { destruct r; [by apply t_done|]. cbn. eapply t_conseq; [apply t_check|done|by intros _ t j []|done]. }
  intros []. eapply t_bind; [apply t_inspect|]. intros [n|]; cbn; [|apply t_fails].
  eapply t_bind; [apply t_check|]. intros []. cbn. apply t_pure. intros _.
  destruct (identities !! _); [|by apply t_done].
  eapply t_bind; [apply t_check|]. intros []. cbn. apply t_pure. intros _. by apply t_done.
Qed.

Lemma t_ensure_below b components : Forall plain components → ∀ identities current logical, beneath current →
  triple (within b) (ensure_below host identities current logical components) (λ _, within b) (within b).
Proof.
  intros H. induction H as [|x xs Hx _ IH]; intros identities current logical Hc; [by apply t_done|].
  cbn [ensure_below].
  assert (beneath (path_Join current x)) as Hc'.
  { apply beneath_join; [done|]. destruct Hx as (? & ? & ? & E). rewrite E. by repeat constructor. }
  eapply t_bind; [by apply t_ensure_one|]. intros identities'. by apply IH.
Qed.

Lemma t_ensure_directories b identities rel : rel = "" ∨ Forall plain (Split rel) →
  triple (within b) (ensure_directories host identities stage archiveRoot rel) (λ _, within b) (within b).
Proof.
  intros Hrel. unfold ensure_directories. eapply t_bind; [apply t_ensure_one, beneath_root|]. intros identities'.
  apply t_ensure_below; [|apply beneath_root]. destruct Hrel as [->|H]; [by constructor|].
  by destruct (bool_decide (rel = "")).
Qed.

Lemma t_extract_file b destination h chunks err : beneath destination → 0 ≤ delivered chunks →
  triple (within b) (extract_file host preserve destination h chunks err)
    (λ _, within (b + delivered chunks)) (within (b + delivered chunks)).
Proof.
  intros Hd H0. assert (∀ t j, within b t j → within (b + delivered chunks) t j) as Hmono.
  { intros t j H. eapply within_mono; [done|lia]. }
  unfold extract_file. eapply t_bind; [eapply t_err; [apply t_inspect|done]|]. intros existing. cbn.
  eapply t_bind; [eapply t_err; [apply t_check|done]|]. intros []. cbn. apply t_pure. intros _.
  eapply t_bind; [eapply t_err; [apply (t_CreateExclusive host R R_nonempty t0 j0 Hlinks); by destruct Hd|done]|].
  intros file. cbn. apply t_pure. intros [-> Hnew].
  eapply t_bind; [apply (t_attempt_triple host false _ _ (λ _, within (b + delivered chunks)) (within (b + delivered chunks)))|].
  { eapply t_bind; [apply (t_copy host R R_nonempty); [by destruct Hd|done]|]. intros []. cbn.
    eapply t_bind with (Q := λ _, within (b + delivered chunks)).
    - destruct preserve; [|by apply t_done]. apply (t_update_meta host R R_nonempty); by destruct Hd.
    - intros []. apply (t_mod_time host R R_nonempty t0 j0 Hlinks). by destruct Hd. }
  intros copied. eapply t_bind with (Q := λ _, within (b + delivered chunks)).
  { eapply t_pre; [apply t_attempt_keeps, t_noop|]. by destruct copied. }
  intros synced. eapply t_bind with (Q := λ _, within (b + delivered chunks)).
  { apply t_attempt_keeps, t_noop. }
  intros closed. destruct copied, closed, synced; try apply t_fails. by apply t_done.
Qed.

(** The state of the loop. *)
Definition progress (x : extraction) : Prop :=
  x_total x ≤ MaxTotalBytes limits ∧ Forall (λ d : string * option Z * Z, beneath d.1.1) (x_times x).

Lemma destination_beneath clean rel :
  safe_name archiveRoot clean rel → beneath (if rel <>s "" then path_Join root rel else root).
Proof.
  intros [_ [[-> _]|[Hrel _]]]; [apply beneath_root|].
  destruct (bool_decide (rel = "")); cbn; [apply beneath_root|]. apply beneath_join; [apply beneath_root|done].
Qed.

Lemma parent_rel rel : Forall plain (Split rel) →
  (if Dir rel =s "." then "" else Dir rel) = "" ∨ Forall plain (Split (if Dir rel =s "." then "" else Dir rel)).
Proof.
  intros H. destruct (Dir_plain rel H) as [[_ ->]|(Hne & _ & Hdot & E)]; [by left|right].
  rewrite bool_decide_eq_false_2 by done. rewrite E.
  pose proof (app_removelast_last "" (Split_nonempty rel)) as Hs. rewrite Hs in H. by apply Forall_app in H as [? _].
Qed.

Lemma t_extract_entry x h chunks err : progress x → tar_sized (Entry h chunks err) →
  triple (within (x_total x)) (extract_entry host preserve limits stage archiveRoot x h chunks err)
    (λ x' t j, progress x' ∧ within (x_total x') t j) (within (MaxTotalBytes limits)).
Proof.
  intros [Htotal Htimes] Hsized. unfold extract_entry.
  assert (∀ t j, within (x_total x) t j → within (MaxTotalBytes limits) t j) as Hmono.
  { intros t j H. by eapply within_mono. }
  eapply t_bind; [eapply t_err; [apply t_check|done]|]. intros []. cbn. apply t_pure. intros _.
  eapply t_bind; [eapply t_err; [apply t_check|done]|]. intros []. cbn. apply t_pure. intros _.
  destruct (validatedCopyArchiveEntryPathForGOOS "linux" (th_Name h) archiveRoot) as [[clean rel]|e] eqn:Ev.
  2: { intros s H. by split; [apply Hmono|intros [? _]]. }
  apply validated_safe in Ev. pose proof (destination_beneath clean rel Ev) as Hd.
  eapply t_bind with (Q := λ cr t j, cr = (clean, rel) ∧ within (x_total x) t j); [by apply (t_done host false _ (clean, rel))|].
  intros [clean' rel']. cbn. apply t_pure. intros [= -> ->].
  eapply t_bind; [eapply t_err; [apply t_check|done]|]. intros []. cbn. apply t_pure. intros _.
  eapply t_bind; [eapply t_err; [apply t_check|done]|]. intros []. cbn. apply t_pure. intros _.
  set (destination := if rel <>s "" then path_Join root rel else root) in *.
  destruct (th_Typeflag h =? TypeDir).
  { eapply t_bind; [eapply t_err; [apply t_ensure_directories|done]|].
    - destruct Ev as [_ [[? _]|[? _]]]; auto.
    - intros identities. cbn. apply t_done. intros t j H. split; [split; [done|]|done]. cbn.
      apply Forall_app. split; [done|]. by apply Forall_singleton. }
  destruct (_ || _); [|eapply t_err; [apply t_fails|done]].
  eapply t_bind; [eapply t_err; [apply t_check|done]|]. intros []. cbn. apply t_pure.
  intros [Hnn%Z.ltb_ge _]%negb_true_iff%orb_false_elim.
  eapply t_bind; [eapply t_err; [apply t_check|done]|]. intros []. cbn. apply t_pure. intros Hfit%Z.leb_le.
  eapply t_bind; [eapply t_err; [instantiate (1 := within (x_total x)); instantiate (1 := λ _, within (x_total x))|done]|].
  { destruct (decide (rel = "")) as [->|Hne]; [by apply t_done|]. rewrite (bool_decide_eq_false_2 (rel = "")) by done.
    cbn. apply t_ensure_directories, parent_rel. by destruct Ev as [_ [[? _]|[? _]]]. }
  intros identities. cbn. specialize (Hsized Hnn).
  eapply t_bind; [eapply t_err; [apply t_extract_file; [done|apply zlen_nonneg]|]|].
  - intros t j H. eapply within_mono; [done|]. lia.
  - intros []. cbn. apply t_done. intros t j H. split; [split; cbn; [lia|done]|]. cbn. eapply within_mono; [done|]. lia.
Qed.

Lemma t_extract_entries nexts : Forall tar_sized nexts → ∀ x, progress x →
  triple (within (x_total x)) (extract_entries host preserve limits stage archiveRoot x nexts)
    (λ x' t j, progress x' ∧ within (x_total x') t j) (within (MaxTotalBytes limits)).
Proof.
  intros H. induction H as [|next nexts Hn _ IH]; intros x Hx; cbn [extract_entries];
    (eapply t_bind; [eapply t_err; [apply t_noop|intros t j H; by eapply within_mono; [done|destruct Hx]]|]); intros [].
  - by apply t_done.
  - destruct next as [h chunks err|e].
    + eapply t_bind; [by apply t_extract_entry|]. intros x'. cbn. apply t_pure. apply IH.
    + eapply t_err; [apply t_fails|]. intros t j H'. by eapply within_mono; [done|destruct Hx].
Qed.

Lemma t_each {A : Type} (P : assertion) (f : A → M FS ()) xs :
  Forall (λ x, triple P (f x) (λ _, P) P) xs → triple P (each f xs) (λ _, P) P.
Proof.
  induction 1 as [|x xs Hx _ IH]; [by apply t_done|]. cbn. eapply t_bind; [done|]. by intros [].
Qed.

Lemma t_restore b d : beneath d.1.1 → triple (within b) (restore_directory host preserve d) (λ _, within b) (within b).
Proof.
  intros Hd. destruct d as [[directory time] mode]. unfold restore_directory.
  eapply t_bind; [apply (t_mod_time host R R_nonempty t0 j0 Hlinks); by destruct Hd|]. intros [].
  eapply t_bind; [apply t_noop|]. intros []. destruct preserve; [|by apply t_done].
  eapply t_bind; [apply (t_OpenPath host R R_nonempty t0 j0 Hlinks); by destruct Hd|]. intros opened. cbn.
  apply t_pure. intros ->. apply t_join; [|apply t_join; apply t_noop].
  apply (t_update_meta host R R_nonempty); by destruct Hd.
Qed.

Lemma t_trailer (P : assertion) reads checksum left : triple P (read_trailer host left reads checksum) (λ _, P) P.
Proof.
  revert left. induction reads as [|chunk reads IH]; intros left; cbn [read_trailer];
    (eapply t_bind; [apply t_noop|]); intros []; (destruct (left <=? 0); [by apply t_done|]).
  - destruct checksum; [apply t_fails|by apply t_done].
  - eapply t_bind; [apply t_check|]. intros []. cbn. apply t_pure. intros _.
    eapply t_bind; [apply t_check|]. intros []. cbn. apply t_pure. intros _. apply IH.
Qed.

Lemma t_verify (P : assertion) stream max : triple P (verify_stream host limits stream max) (λ _, P) P.
Proof.
  unfold verify_stream. eapply t_bind; [apply t_trailer|]. intros left. cbn.
  eapply t_bind; [apply t_check|]. intros []. cbn. apply t_pure. intros _.
  eapply t_bind with (Q := λ _, P); [destruct (st_close stream); [apply t_fails|by apply t_done]|]. intros [].
  eapply t_bind with (Q := λ _, P).
  { destruct (st_after stream) as [[]|]; [apply t_fails..|by apply t_done]. }
  intros []. eapply t_conseq; [apply t_check|done|by intros _ t j []|done].
Qed.

Lemma t_finish_extraction b x : progress x →
  triple (within b) (finish_extraction host preserve stage x) (λ _, within b) (within b).
Proof.
  intros [_ Htimes]. unfold finish_extraction. eapply t_bind; [apply t_inspect|]. intros payload. cbn.
  eapply t_bind; [apply t_check|]. intros []. cbn. apply t_pure. intros _.
  eapply t_bind with (Q := λ _, within b).
  { intros s H. split; [done|]. by intros [? _]. }
  intros directories. eapply t_bind; [apply t_each, Forall_true; intros _; apply t_noop|]. intros [].
  apply t_each. apply Forall_reverse. eapply Forall_impl; [exact Htimes|]. intros d. apply t_restore.
Qed.

(** The whole extraction. *)
Lemma t_extract stream : Forall tar_sized (st_entries stream) →
  triple (within 0) (ExtractArchive host preserve limits stream stage archiveRoot)
    (λ _, within (Z.max 0 (MaxTotalBytes limits))) (within (Z.max 0 (MaxTotalBytes limits))).
Proof.
  intros Hsized. set (top := Z.max 0 (MaxTotalBytes limits)).
  assert (∀ b t j, within b t j → b ≤ top → within top t j) as Hmono by (intros b t j H Hb; by eapply within_mono).
  assert (∀ t j, within 0 t j → within top t j) as Hzero by (intros t j H; apply (Hmono 0); [done|lia]).
  unfold ExtractArchive. eapply t_bind; [eapply t_err; [apply t_check|done]|]. intros []. cbn. apply t_pure. intros Hv.
  assert (0 ≤ MaxTotalBytes limits) as Hnn.
  { unfold validate in Hv. rewrite negb_true_iff, !orb_false_iff in Hv. lia. }
  eapply t_bind with (Q := λ _, within 0).
  { destruct (st_gzip stream); [|by apply t_done]. by eapply t_err; [apply t_fails|]. }
  intros []. eapply t_bind; [eapply t_err; [apply t_check|done]|]. intros []. cbn. apply t_pure. intros _.
  eapply t_bind.
  { eapply t_err; [apply (t_extract_entries (st_entries stream) Hsized no_extraction)|].
    - by split; [|constructor].
    - intros t j H. apply (Hmono _ _ _ H). lia. }
  intros x. cbn. apply t_pure. intros Hx. eapply t_pre with (P := within top).
  { eapply t_bind; [apply t_verify|]. intros []. by apply t_finish_extraction. }
  intros t j H. apply (Hmono _ _ _ H). destruct Hx. lia.
Qed.
End entries.

(** C10. Whatever an archive contains (any entry names, types, sizes and
    contents, any corruption) and wherever its extraction fails or the process
    is killed, when the stage is a directory whose payload holds no symbolic link
    to begin with (a fresh stage has no payload at all): beneath the payload
    there are at most new directories and regular files, everything that was
    there keeps its kind and contents, nothing else on the file system changes
    (but for the time of the stage directory itself), and the new files hold no
    more bytes than the limit.  The condition is needed: [os.Mkdir] and [os.Stat]
    go through a link that is already there. *)
Theorem extraction_confined host preserve limits stage archiveRoot stream s :
  IsAbs stage = true → linkless (components stage ++ [ArchivePayloadRoot])%list (fs_tree s) →
  Forall tar_sized (st_entries stream) →
  let s' := (ExtractArchive host preserve limits stream stage archiveRoot s).2 in
  grew (components stage ++ [ArchivePayloadRoot])%list (fs_tree s) (fs_tree s') ∧
  stored (fs_tree s') ≤ stored (fs_tree s) + Z.max 0 (MaxTotalBytes limits) ∧
  fs_journal s' = fs_journal s.
Proof.
  intros Habs Hlinks Hsized. cbv zeta.
  destruct (t_extract host preserve limits stage archiveRoot Habs (fs_tree s) (fs_journal s) Hlinks stream Hsized s) as [H _].
  { split; [apply grew_refl|split; [lia|done]]. }
  by destruct (ExtractArchive host preserve limits stream stage archiveRoot s) as [[[]|e] s'].
Qed.

(** ** An example: an archive that tries to leave its stage *)
Definition hostile_stream : Stream :=
  mkStream None
    [Entry (mkHeader "payload" TypeDir 0 (octal 7 5 5) None) [] None;
     Entry (mkHeader "payload/a" TypeReg 2 (octal 6 4 4) None) [[1]; [2]] None;
     Entry (mkHeader "payload/../evil" TypeReg 1 (octal 6 4 4) None) [[3]] None]
    4096 [] None None None 300.
Definition small_limits : ArchiveLimits := mkLimits 10 100 1000 1000.
Definition quiet_host : Host :=
  mkHost (λ _, Runs) (λ _, []) (λ n, (1, 100 + Z.of_nat n)) (λ _ _, false) (λ n, 1000 + Z.of_nat n) (octal 0 2 2).
Definition staged_state : FS :=
  mkFS (list_to_map [(["srv"], mkNode Directory 1 1 true (octal 7 5 5) 500 []);
                     (["srv"; "stage"], mkNode Directory 1 2 true (octal 7 0 0) 501 []);
                     (["evil"], mkNode Regular 1 3 true (octal 6 4 4) 502 [9])]) ∅ true 0.

Lemma staged_linkless : linkless (components "/srv/stage" ++ [ArchivePayloadRoot])%list (fs_tree staged_state).
Proof.
  split; [by vm_compute|]. intros k n _ E.
  assert (Forall (λ kn : path * node, n_kind kn.2 ≠ Symlink) (map_to_list (fs_tree staged_state))) as HF
    by (vm_compute; repeat constructor; discriminate).
  rewrite Forall_forall in HF. apply (HF (k, n)). by apply elem_of_map_to_list.
Qed.

(** A stage whose payload is a link to a directory elsewhere: an ordinary
    archive is extracted there. *)
Definition linked_state : FS :=
  mkFS (<[["srv"; "stage"; "payload"] := mkNode Symlink 1 4 true (octal 7 7 7) 503 (to_bytes "../../etc")]>
        (<[["etc"] := mkNode Directory 1 5 true (octal 7 5 5) 504 []]> (fs_tree staged_state))) ∅ true 0.
Definition plain_stream : Stream :=
  mkStream None [Entry (mkHeader "payload/a" TypeReg 1 (octal 6 4 4) None) [[7]] None] 4096 [] None None None 300.
Lemma linked_stage_escapes :
  let '(r, s') := ExtractArchive quiet_host false small_limits plain_stream "/srv/stage" "payload" linked_state in
  r = Ok () ∧ n_data <$> fs_tree s' !! ["etc"; "a"] = Some [7].
Proof. by vm_compute. Qed.

Lemma extraction_confined_witness :
  (ExtractArchive quiet_host true small_limits hostile_stream "/srv/stage" "payload" staged_state).1
    = Err (Msg "copy archive contains unsafe path traversal component: %q") ∧
  let s' := (ExtractArchive quiet_host true small_limits hostile_stream "/srv/stage" "payload" staged_state).2 in
  grew (components "/srv/stage" ++ [ArchivePayloadRoot])%list (fs_tree staged_state) (fs_tree s') ∧
  stored (fs_tree s') ≤ stored (fs_tree staged_state) + Z.max 0 (MaxTotalBytes small_limits) ∧
  fs_journal s' = fs_journal staged_state.
Proof.
  split; [vm_compute; reflexivity|]. apply extraction_confined; [reflexivity|exact staged_linkless|].
  repeat (constructor; [intros _; vm_compute; discriminate|]). constructor.
Defined.
