(* ===== verification/ArchiveRestore.v ===== *)
(** * Archive extraction rebuilds what was archived

    Where nothing fails, the entries of an archive that lists a tree, parents
    first, are extracted to exactly that tree: contents, permissions and times. *)

From Stdlib Require Import ZArith Lia.
From stdpp Require Import gmap strings prelude.
From S2P Require Import Prelude GoText GoPath ArchiveJournal ArchiveSafety ArchiveLive ArchiveCopy ArchiveExtract.
Local Open Scope string_scope.
Local Open Scope Z_scope.
Local Open Scope crab_scope.

(** ** Total correctness

    [total P m Q]: from every state in [P], [m] returns and ends in [Q]. *)
Definition total {A : Type} (P : FS → Prop) (m : M FS A) (Q : A → FS → Prop) : Prop :=
  ∀ s, P s → ∃ a s', m s = (Ok a, s') ∧ Q a s'.

Lemma total_ret {A : Type} (P : FS → Prop) (a : A) (Q : A → FS → Prop) : (∀ s, P s → Q a s) → total P (mret a) Q.
Proof. intros H s HP. exists a, s. split; [done|auto]. Qed.
Lemma total_skip (P : FS → Prop) : total P (mret ()) (λ _, P).
Proof. by apply total_ret. Qed.
Lemma total_bind {A B : Type} P (m : M FS A) Q (k : A → M FS B) Q' :
  total P m Q → (∀ a, total (Q a) (k a) Q') → total P (m ≫= k) Q'.
Proof.
  intros Hm Hk s HP. destruct (Hm s HP) as (a & s1 & E & HQ). destruct (Hk a s1 HQ) as (b & s2 & E' & HQ').
  exists b, s2. split; [|done]. unfold mbind, M_bind. by rewrite E.
Qed.
Lemma total_conseq {A : Type} (P P' : FS → Prop) (m : M FS A) (Q Q' : A → FS → Prop) :
  total P m Q → (∀ s, P' s → P s) → (∀ a s, Q a s → Q' a s) → total P' m Q'.
Proof. intros H HP HQ s Hs. destruct (H s (HP s Hs)) as (a & s' & E & H'). exists a, s'. auto. Qed.
Lemma total_pre {A : Type} (P P' : FS → Prop) (m : M FS A) (Q : A → FS → Prop) :
  total P m Q → (∀ s, P' s → P s) → total P' m Q.
Proof. intros. by eapply total_conseq. Qed.
Lemma total_ensure (b : bool) e (P : FS → Prop) : (∀ s, P s → b = true) → total P (ensure b e) (λ _, P).
Proof. intros Hb s HP. rewrite (Hb s HP). by exists (), s. Qed.
Lemma total_pure {A : Type} (ψ : Prop) (P : FS → Prop) (m : M FS A) (Q : A → FS → Prop) :
  (ψ → total P m Q) → total (λ s, ψ ∧ P s) m Q.
Proof. intros H s [Hψ HP]. by apply H. Qed.
Lemma total_fact {A : Type} (ψ : Prop) (P : FS → Prop) (m : M FS A) (Q : A → FS → Prop) :
  (∀ s, P s → ψ) → (ψ → total P m Q) → total P m Q.
Proof. intros Hψ H s HP. apply H; [by eapply Hψ|done]. Qed.
Lemma total_exists {A X : Type} (P : X → FS → Prop) (m : M FS A) (Q : A → FS → Prop) :
  (∀ x, total (P x) m Q) → total (λ s, ∃ x, P x s) m Q.
Proof. intros H s [x HP]. by apply (H x). Qed.
Lemma total_attempt {A : Type} (P : FS → Prop) (m : M FS A) (Q : A → FS → Prop) :
  total P m Q → total P (attempt m) (λ r s, ∃ a, r = Ok a ∧ Q a s).
Proof.
  intros H s HP. destruct (H s HP) as (a & s' & E & HQ). exists (Ok a), s'. unfold attempt. rewrite E. eauto.
Qed.

(** One more call has been made. *)
Definition ticked (s : FS) : FS := mkFS (fs_tree s) (fs_journal s) (fs_alive s) (S (fs_tick s)).

Section calls.
Context (host : Host) (Hcalm : calm host).

Lemma calm_syscall {A : Type} (op : nat → FS → res A * FS) s :
  fs_alive s = true → syscall host op s = op (fs_tick s) (ticked s).
Proof.
  intros Ha. unfold syscall, syscall_with, ticked. rewrite Ha. cbn [negb]. rewrite (Hcalm (fs_tick s)). done.
Qed.
Lemma calm_update f p n s : fs_alive s = true → fs_tree s !! p = Some n →
  update host f p s = (Ok (), set_tree (<[p := f (h_clock host (fs_tick s)) n]> (fs_tree s)) (ticked s)).
Proof. intros Ha Hp. unfold update. rewrite calm_syscall by done. unfold change. cbn. by rewrite Hp. Qed.

(** A call on a name that leads to its own path. *)
Lemma calm_located {A : Type} follow name (op : path → nat → FS → res A * FS) s : fs_alive s = true →
  resolve follow (fs_tree s) (components name) = Ok (components name) →
  located host follow name op s = op (components name) (fs_tick s) (ticked s).
Proof. intros Ha Hr. unfold located. rewrite calm_syscall by done. cbv beta. cbn [fs_tree ticked]. by rewrite Hr. Qed.

(** The nodes of new entries. *)
Definition fresh_node (k : kind) (mode : Z) (n : nat) : node :=
  mkNode k (h_inode host n).1 (h_inode host n).2 true (Z.ldiff mode (h_umask host)) (h_clock host n) [].
Definition with_entry (k : kind) (mode : Z) (p : path) (s : FS) : FS :=
  set_tree (<[p := fresh_node k mode (fs_tick s)]> (touch (parent_of p) (h_clock host (fs_tick s)) (fs_tree s))) (ticked s).
Lemma calm_new k mode p s : p ≠ [] → fs_tree s !! p = None →
  is_directory (fs_tree s) (parent_of p) = true →
  new_entry host k mode p (fs_tick s) (ticked s) = (Ok (), with_entry k mode p s).
Proof.
  intros Hp Hnone Hd. unfold new_entry. cbn.
  rewrite Hnone, Hd, (bool_decide_eq_false_2 (p = [])), (bool_decide_eq_false_2 (is_Some None)) by (try done; by intros []).
  cbn. unfold with_entry, fresh_node. by destruct (h_inode host (fs_tick s)).
Qed.

(** A name in a directory with nothing there. *)
Lemma resolve_free follow name m : components name ≠ [] → m !! components name = None →
  is_directory m (parent_of (components name)) = true → resolve follow m (components name) = Ok (components name).
Proof.
  intros Hp Hnone Hd. apply resolve_in_directory; [done|apply components_no_dots|done|]. by rewrite Hnone.
Qed.

Lemma calm_Mkdir name s : fs_alive s = true → components name ≠ [] → fs_tree s !! components name = None →
  is_directory (fs_tree s) (parent_of (components name)) = true →
  Mkdir host name s = (Ok (), with_entry Directory (octal 7 5 5) (components name) s).
Proof.
  intros Ha Hp Hnone Hd. unfold Mkdir. rewrite calm_located by (try done; by apply resolve_free). by apply calm_new.
Qed.
Lemma calm_CreateExclusive name s : fs_alive s = true → components name ≠ [] → fs_tree s !! components name = None →
  is_directory (fs_tree s) (parent_of (components name)) = true →
  CreateExclusive host name s = (Ok (components name), with_entry Regular (octal 6 4 4) (components name) s).
Proof.
  intros Ha Hp Hnone Hd. unfold CreateExclusive. rewrite calm_located by (try done; by apply resolve_free).
  by rewrite calm_new.
Qed.
Lemma calm_exists name s : fs_alive s = true → is_directory (fs_tree s) (components name) = true →
  is_Some (fs_tree s !! components name) → Mkdir host name s = (Err exists_error, ticked s).
Proof.
  intros Ha Hd Hp. unfold Mkdir. rewrite calm_located by (try done; by apply resolve_directory).
  unfold new_entry. cbn. rewrite (bool_decide_eq_true_2 (is_Some _)) by done. by rewrite orb_true_r.
Qed.
Lemma calm_inspect follow name s : fs_alive s = true →
  resolve follow (fs_tree s) (components name) = Ok (components name) →
  inspect host follow name s = (Ok (fs_tree s !! components name), ticked s).
Proof. intros Ha Hr. unfold inspect. rewrite calm_syscall by done. cbv beta. cbn [fs_tree ticked]. by rewrite Hr. Qed.
End calls.

(** ** Items of an archive *)

(** A file or directory beneath the root of the archive. *)
Record item := mkItem { i_path : path; i_dir : bool; i_mode : Z; i_time : Z; i_chunks : list (list Z) }.
#[export] Instance item_eq : EqDecision item.
Proof. solve_decision. Defined.
Definition i_data (it : item) : list Z := if i_dir it then [] else concat (i_chunks it).
Definition item_name (it : item) : string := join_slash (ArchivePayloadRoot :: i_path it).
Definition item_entry (it : item) : tar_next :=
  Entry (mkHeader (item_name it) (if i_dir it then TypeDir else TypeReg) (zlen (i_data it)) (i_mode it) (Some (i_time it)))
    (i_chunks it) None.

Definition no_nul (x : string) : Prop := ContainsAny x [0] = false.

(** [items] may follow [done]: distinct paths of ordinary names, parents first. *)
Definition may_follow (done : list item) (it : item) : Prop :=
  Forall plain (i_path it) ∧ Forall no_nul (i_path it) ∧ i_path it ∉ i_path <$> done ∧
  (i_path it = [] ∨ ∃ d, d ∈ done ∧ i_dir d = true ∧ i_path d = parent_of (i_path it)).
Fixpoint parents_first (done items : list item) : Prop :=
  match items with
  | [] => True
  | it :: items => may_follow done it ∧ parents_first (done ++ [it])%list items
  end.

Lemma payload_plain : plain ArchivePayloadRoot.
Proof. by vm_compute. Qed.

(** Names of items pass validation. *)
Lemma existsb_forall {A} (f : A → bool) xs : Forall (λ x, f x = false) xs → existsb f xs = false.
Proof. induction 1 as [|x xs Hx _ IH]; [done|]. cbn. by rewrite Hx. Qed.
Lemma existsb_plain (f : string → bool) xs :
  xs ≠ [] → Forall plain xs → (∀ x, plain x → f x = false) → existsb f (Split (join_slash xs)) = false.
Proof.
  intros Hne H Hf. rewrite plain_Split by done. apply existsb_forall. eapply Forall_impl; [exact H|done].
Qed.

(** A byte that no element of a path has, a slash excepted, is not in the path. *)
Lemma contains_app x y cs : ContainsAny (x +:+ y) cs = ContainsAny x cs || ContainsAny y cs.
Proof. unfold ContainsAny. by rewrite to_bytes_app, existsb_app. Qed.
Lemma join_no_nul xs : Forall no_nul xs → no_nul (join_slash xs).
Proof.
  induction 1 as [|x xs Hx Hxs IH]; [done|]. destruct xs as [|y xs]; [done|]. rewrite join_cons by done.
  unfold no_nul in *. by rewrite !contains_app, Hx, IH.
Qed.

Lemma name_accepted (rel : path) :
  Forall plain rel → Forall no_nul rel →
  IsLocal (join_slash (ArchivePayloadRoot :: rel)) = true ∧
  validatedCopyArchiveEntryPathForGOOS "linux" (join_slash (ArchivePayloadRoot :: rel)) ArchivePayloadRoot
    = Ok (join_slash (ArchivePayloadRoot :: rel), join_slash rel).
Proof.
  intros Hp Hn. set (xs := ArchivePayloadRoot :: rel).
  assert (Forall plain xs) as Hxs by (constructor; [apply payload_plain|done]). assert (xs ≠ []) as Hne by done.
  destruct (join_relative xs "" Hne Hxs) as [Ha He]. rewrite append_empty in Ha.
  destruct (plain_stays xs Hne Hxs) as [Hd Hup].
  assert (join_slash xs ≠ "." ∧ join_slash xs ≠ "..") as [Hd1 Hd2].
  { split; apply Hd; [by left|by right; left]. }
  split.
  - unfold IsLocal. rewrite Ha, (bool_decide_eq_false_2 (join_slash xs = "")) by done. cbn [orb].
    rewrite existsb_plain; [|done|done|].
    + by rewrite Hup, bool_decide_eq_false_2.
    + intros x (_ & ? & ? & _). by rewrite !bool_decide_eq_false_2.
  - unfold validatedCopyArchiveEntryPathForGOOS. rewrite Ha, Clean_plain, Hup by done.
    rewrite existsb_plain; [|done|done|intros x (_ & _ & ? & _); by apply bool_decide_eq_false_2].
    assert (ContainsAny (join_slash xs) [0] = false) as ->.
    { apply join_no_nul. constructor; [by vm_compute|done]. }
    rewrite (bool_decide_eq_false_2 (join_slash xs = ".")), (bool_decide_eq_false_2 (join_slash xs = "..")) by done.
    cbn [orb andb reject_if mbind res_bind bool_decide].
    destruct rel as [|x rel]; [done|].
    assert (join_slash xs = ArchivePayloadRoot +:+ "/" +:+ join_slash (x :: rel)) as E by (by unfold xs; rewrite join_cons).
    assert (HasPrefix (join_slash xs) (ArchivePayloadRoot +:+ "/") = true) as Hpre.
    { rewrite E, append_assoc. apply prefix_app. }
    assert (TrimPrefix (TrimPrefix (join_slash xs) ArchivePayloadRoot) "/" = join_slash (x :: rel)) as ->.
    { by rewrite E, !TrimPrefix_app. }
    by rewrite Hpre, andb_false_r.
Qed.

(** ** What is built *)

Section restore.
Context (host : Host) (Hcalm : calm host) (preserve : bool) (limits : ArchiveLimits) (stage : string).
Context (Habs : IsAbs stage = true).
(** New inodes are distinct. *)
Definition inode_id (n : nat) : string :=
  FormatInt (h_inode host n).1 +:+ ":" +:+ FormatInt (h_inode host n).2.
Context (Hinodes : ∀ n n', inode_id n = inode_id n' → n = n').
Local Abbreviation R := (components stage ++ [ArchivePayloadRoot])%list.
Local Abbreviation root := (path_Join stage ArchivePayloadRoot).

(** A node as extraction leaves it before the times of directories are set. *)
Definition made_mode (it : item) : Z :=
  if i_dir it then Z.ldiff (octal 7 5 5) (h_umask host)
  else if preserve then Z.land (i_mode it) (octal 7 7 7) else Z.ldiff (octal 6 4 4) (h_umask host).
Definition made (it : item) (n : node) : Prop :=
  n_kind n = (if i_dir it then Directory else Regular) ∧ n_data n = i_data it ∧ n_mode n = made_mode it ∧
  (i_dir it = false → n_mtime n = i_time it).

Record built (done : list item) (identities : gmap string string) (s : FS) : Prop := mkBuilt {
  b_alive : fs_alive s = true;
  b_stage : is_directory (fs_tree s) (components stage) = true;
  b_made it : it ∈ done → ∃ n m, fs_tree s !! (R ++ i_path it)%list = Some n ∧ made it n ∧
    copyArchiveDirectoryIdentity n = inode_id m ∧ (m < fs_tick s)%nat;
  b_only p n : fs_tree s !! (R ++ p)%list = Some n → ∃ it, it ∈ done ∧ i_path it = p;
  b_tree p n : fs_tree s !! (R ++ p)%list = Some n → is_directory (fs_tree s) (parent_of (R ++ p)%list) = true;
  b_unique p p' n n' : fs_tree s !! (R ++ p)%list = Some n → fs_tree s !! (R ++ p')%list = Some n' →
    copyArchiveDirectoryIdentity n = copyArchiveDirectoryIdentity n' → p = p';
  b_ids id logical : identities !! id = Some logical →
    ∃ it n, it ∈ done ∧ logical = item_name it ∧ fs_tree s !! (R ++ i_path it)%list = Some n ∧
            copyArchiveDirectoryIdentity n = id }.

Lemma built_tick done ids s : built done ids s → built done ids (ticked s).
Proof.
  intros [H1 H2 H3 H4 H5 H6 H7]. split; [done..| |done|done|done|done]. intros it Hit.
  destruct (H3 it Hit) as (n & m & ? & ? & ? & ?). exists n, m. cbn. split_and!; [done..|lia].
Qed.

Lemma total_noop done ids : total (built done ids) (call host) (λ _, built done ids).
Proof.
  intros s H. exists (), (ticked s). split; [|by apply built_tick]. unfold call. rewrite calm_syscall; [done|done|apply H].
Qed.

(** Directories that are there keep their place when an entry is added. *)
Lemma lookup_touch p time t k :
  touch p time t !! k = (λ n, if bool_decide (k = p) then
    mkNode (n_kind n) (n_dev n) (n_ino n) (n_owned n) (n_mode n) time (n_data n) else n) <$> t !! k.
Proof.
  unfold touch. destruct (decide (k = p)) as [->|Hne].
  - rewrite lookup_alter_eq. apply option_fmap_ext. intros n. by rewrite bool_decide_eq_true_2.
  - rewrite lookup_alter_ne by done. rewrite bool_decide_eq_false_2 by done. by destruct (t !! k).
Qed.
Lemma is_directory_touch p time t k : is_directory (touch p time t) k = is_directory t k.
Proof.
  unfold is_directory. rewrite lookup_touch. destruct (t !! k) as [n|]; [|done]. cbn. by destruct (bool_decide (k = p)).
Qed.
Lemma stage_not_place p : components stage ≠ (R ++ p)%list.
Proof. intros E. apply (f_equal length) in E. rewrite !length_app in E. cbn in E. lia. Qed.

Lemma parent_shorter (p : path) : p ≠ [] → parent_of p ≠ p.
Proof.
  intros Hp E. apply (f_equal length) in E. unfold parent_of in E. rewrite length_take in E. destruct p; [done|]. cbn in E. lia.
Qed.
Lemma R_parent (p : path) : p ≠ [] → parent_of (R ++ p)%list = (R ++ parent_of p)%list.
Proof.
  intros Hp. destruct p as [|x p _] using rev_ind; [done|]. by rewrite app_assoc, !parent_of_snoc.
Qed.
Lemma place_nonempty (p : path) : (R ++ p)%list ≠ [].
Proof. by destruct (components stage). Qed.

Section add.
Context (done : list item) (ids : gmap string string) (s : FS) (Hb : built done ids s).
Context (it : item) (Hf : may_follow done it).

Lemma place_free : fs_tree s !! (R ++ i_path it)%list = None.
Proof.
  destruct (fs_tree s !! (R ++ i_path it)%list) as [n|] eqn:E; [|done]. exfalso.
  apply (b_only _ _ _ Hb) in E as (it' & Hin & E). destruct Hf as (_ & _ & Hnew & _). apply Hnew. rewrite <-E.
  by apply list_elem_of_fmap_2.
Qed.

(** The entry is made in a directory. *)
Lemma place_parent : is_directory (fs_tree s) (parent_of (R ++ i_path it)%list) = true.
Proof.
  destruct Hf as (_ & _ & _ & [Hroot|(d & Hin & Hd & Hpath)]).
  - rewrite Hroot, app_nil_r, parent_of_snoc. apply Hb.
  - destruct (decide (i_path it = [])) as [->|Hne]; [rewrite app_nil_r, parent_of_snoc; apply Hb|].
    rewrite R_parent, <-Hpath by done. destruct (b_made _ _ _ Hb d Hin) as (n & m & E & [Hk _] & _).
    unfold is_directory. rewrite E, Hk, Hd. cbn. by rewrite orb_true_r.
Qed.

Context (n : node) (m : nat) (time : Z) (s' : FS).
Context (Ht : fs_tree s' = <[(R ++ i_path it)%list := n]> (touch (parent_of (R ++ i_path it)%list) time (fs_tree s))).
Context (Ha : fs_alive s' = true) (Hn : made it n) (Hid : copyArchiveDirectoryIdentity n = inode_id m).
Context (Hm : (fs_tick s ≤ m < fs_tick s')%nat).

Lemma place_new : fs_tree s' !! (R ++ i_path it)%list = Some n.
Proof. rewrite Ht. apply lookup_insert_eq. Qed.
Lemma place_old p n' : p ≠ i_path it → fs_tree s !! (R ++ p)%list = Some n' →
  ∃ n'', fs_tree s' !! (R ++ p)%list = Some n'' ∧
    copyArchiveDirectoryIdentity n'' = copyArchiveDirectoryIdentity n' ∧ n_kind n'' = n_kind n' ∧
    n_data n'' = n_data n' ∧ n_mode n'' = n_mode n' ∧ (n_kind n' ≠ Directory → n'' = n').
Proof.
  intros Hp E. assert ((R ++ p)%list ≠ (R ++ i_path it)%list) as Hk by (by intros ?%app_inv_head).
  rewrite Ht, lookup_insert_ne, lookup_touch, E by done. eexists. split; [done|].
  destruct (decide ((R ++ p)%list = parent_of (R ++ i_path it)%list)) as [Heq|Hne]; [|by rewrite bool_decide_eq_false_2].
  rewrite bool_decide_eq_true_2 by done. split_and!; try done. intros Hnd. exfalso. apply Hnd.
  pose proof place_parent as Hdir. unfold is_directory in Hdir. rewrite <-Heq, E in Hdir.
  rewrite bool_decide_eq_false_2 in Hdir by apply place_nonempty. by apply bool_decide_eq_true in Hdir.
Qed.
Lemma place_back p n'' : p ≠ i_path it → fs_tree s' !! (R ++ p)%list = Some n'' →
  ∃ n', fs_tree s !! (R ++ p)%list = Some n' ∧ copyArchiveDirectoryIdentity n'' = copyArchiveDirectoryIdentity n'.
Proof.
  intros Hp E. assert ((R ++ p)%list ≠ (R ++ i_path it)%list) as Hk by (by intros ?%app_inv_head).
  pose proof E as E'. rewrite Ht, lookup_insert_ne, lookup_touch in E' by done.
  destruct (fs_tree s !! (R ++ p)%list) as [n'|] eqn:E0; [|done].
  exists n'. split; [done|]. destruct (place_old p n' Hp E0) as (n3 & E3 & Hid3 & _). congruence.
Qed.
Lemma place_fresh p n' : fs_tree s !! (R ++ p)%list = Some n' →
  copyArchiveDirectoryIdentity n' ≠ copyArchiveDirectoryIdentity n.
Proof.
  intros E Hsame. destruct (b_only _ _ _ Hb _ _ E) as (it' & Hin & <-).
  destruct (b_made _ _ _ Hb it' Hin) as (n1 & m1 & E1 & _ & Hid1 & Hm1).
  assert (m1 = m) as -> by (apply Hinodes; congruence). lia.
Qed.

Lemma parent_kept k : is_directory (fs_tree s) k = true → is_directory (fs_tree s') k = true.
Proof.
  rewrite Ht. intros H. etrans; [|exact H].
  rewrite <-(is_directory_touch (parent_of (R ++ i_path it)%list) time (fs_tree s)). apply is_directory_same.
  rewrite lookup_insert_ne; [done|]. intros <-. pose proof place_free as Hfree. unfold is_directory in H.
  rewrite Hfree, bool_decide_eq_false_2 in H by apply place_nonempty. done.
Qed.

Lemma built_add : built (done ++ [it])%list ids s'.
Proof.
  assert (∀ it', it' ∈ done → i_path it' ≠ i_path it) as Hne.
  { intros it' Hin E. destruct Hf as (_ & _ & Hnew & _). apply Hnew. rewrite <-E. by apply list_elem_of_fmap_2. }
  split; [done|..].
  - apply parent_kept. apply Hb.
  - intros it' [Hin| ->%list_elem_of_singleton]%elem_of_app; [|exists n, m; split_and!; [apply place_new|done..|lia]].
    destruct (b_made _ _ _ Hb it' Hin) as (n1 & m1 & E1 & (Hk & Hd & Hmode & Htime) & Hid1 & Hm1).
    destruct (place_old _ n1 (Hne _ Hin) E1) as (n2 & E2 & Hid2 & Hk2 & Hd2 & Hm2 & Hsame).
    exists n2, m1. split; [done|]. split; [|split; [congruence|lia]]. split_and!; [congruence..|].
    intros Hreg. rewrite Hsame; [auto|]. by rewrite Hk, Hreg.
  - intros p n' E. destruct (decide (p = i_path it)) as [->|Hp]; [exists it; split; [apply elem_of_app; right; by left|done]|].
    destruct (place_back p n' Hp E) as (n1 & E1 & _). destruct (b_only _ _ _ Hb _ _ E1) as (it' & ? & ?).
    exists it'. split; [apply elem_of_app; by left|done].
  - intros p n' E. apply parent_kept. destruct (decide (p = i_path it)) as [->|Hp]; [apply place_parent|].
    destruct (place_back p n' Hp E) as (n1 & E1 & _). by eapply (b_tree _ _ _ Hb).
  - intros p p' n1 n2 E1 E2 Hsame.
    destruct (decide (p = i_path it)) as [->|Hp], (decide (p' = i_path it)) as [->|Hp']; [done|..].
    + destruct (place_back p' n2 Hp' E2) as (n3 & E3 & H3). rewrite place_new in E1. injection E1 as <-.
      exfalso. apply (place_fresh p' n3 E3). congruence.
    + destruct (place_back p n1 Hp E1) as (n3 & E3 & H3). rewrite place_new in E2. injection E2 as <-.
      exfalso. apply (place_fresh p n3 E3). congruence.
    + destruct (place_back p n1 Hp E1) as (n3 & E3 & H3), (place_back p' n2 Hp' E2) as (n4 & E4 & H4).
      eapply (b_unique _ _ _ Hb); [done..|]. congruence.
  - intros id logical E. destruct (b_ids _ _ _ Hb _ _ E) as (it' & n1 & Hin & Hl & E1 & Hid1).
    destruct (place_old _ n1 (Hne _ Hin) E1) as (n2 & E2 & Hid2 & _).
    exists it', n2. split; [apply elem_of_app; by left|]. split_and!; [done..|congruence].
Qed.
End add.

(** ** Directories *)

Definition at_place (current : string) (p : path) : Prop := IsAbs current = true ∧ components current = (R ++ p)%list.
Lemma at_root : at_place root [].
Proof. destruct (root_components stage Habs). split; [done|]. by rewrite app_nil_r. Qed.
Lemma at_below current p x : at_place current p → plain x → at_place (path_Join current x) (p ++ [x])%list.
Proof.
  intros [Ha Hc] Hx. assert (Split x = [x]) as Hs by apply Hx.
  destruct (components_Join current x Ha) as [E ?]; [rewrite Hs; by apply Forall_singleton|].
  split; [done|]. by rewrite E, Hs, Hc, app_assoc.
Qed.

(** A directory that has been extracted. *)
Lemma built_directory done ids d s : built done ids s → d ∈ done → i_dir d = true →
  is_directory (fs_tree s) (R ++ i_path d)%list = true.
Proof.
  intros Hb Hin Hd. destruct (b_made _ _ _ Hb d Hin) as (n & m & E & (Hk & _) & _).
  unfold is_directory. rewrite E, Hk, Hd. by rewrite orb_true_r.
Qed.

(** After a directory is found or made: its identity is recorded. *)
Lemma record_identity done ids current d s n :
  built done ids s → at_place current (i_path d) → d ∈ done → i_dir d = true →
  fs_tree s !! (R ++ i_path d)%list = Some n →
  ∃ ids' s', (info ← Stat host current;
     match info with
     | None => fail (Msg "inspect copy archive directory %s: %w")
     | Some n =>
         ensure (n_kind n =s Directory) (Msg "copy archive directory conflicts with existing path: %s");;
         let identity := copyArchiveDirectoryIdentity n in
         match ids !! identity with
         | Some existing =>
             ensure (existing =s item_name d) (Msg "copy archive contains duplicate filesystem path aliases: %s and %s");;
             mret ids
         | None => mret (<[identity := item_name d]> ids)
         end
     end) s = (Ok ids', s') ∧ built done ids' s'.
Proof.
  intros Hb [_ Hc] Hin Hd En.
  assert (Stat host current s = (Ok (Some n), ticked s)) as HS.
  { unfold Stat. rewrite calm_inspect; [by rewrite Hc, En|done|apply Hb|]. rewrite Hc.
    apply resolve_directory. by eapply built_directory. }
  unfold mbind at 1, M_bind at 1. rewrite HS.
  destruct (b_made _ _ _ Hb d Hin) as (n1 & m & E1 & (Hk & _) & _). assert (n1 = n) as -> by congruence.
  rewrite Hk, Hd. unfold mbind at 1, M_bind at 1. cbn [ensure bool_decide]. rewrite bool_decide_eq_true_2 by done. cbn.
  destruct (ids !! copyArchiveDirectoryIdentity n) as [existing|] eqn:Ei.
  - destruct (b_ids _ _ _ Hb _ _ Ei) as (it' & n' & Hin' & -> & E' & Hsame).
    assert (i_path it' = i_path d) as Hp by (by eapply (b_unique _ _ _ Hb)).
    unfold item_name. rewrite Hp, bool_decide_eq_true_2 by done. cbn. do 2 eexists. split; [done|]. by apply built_tick.
  - do 2 eexists. split; [done|]. apply built_tick in Hb. destruct Hb as [H1 H2 H3 H4 H5 H6 H7]. split; [done..|].
    intros id logical [[<- <-]|[_ E]]%lookup_insert_Some; [by exists d, n|by apply H7].
Qed.

Lemma total_ensure_existing done ids current d :
  at_place current (i_path d) → d ∈ done → i_dir d = true →
  total (built done ids) (ensure_one host ids current (item_name d)) (λ ids', built done ids').
Proof.
  intros Hp Hin Hd s Hb. destruct (b_made _ _ _ Hb d Hin) as (n & m & En & _).
  unfold ensure_one. unfold mbind at 1, M_bind at 1, attempt.
  rewrite (calm_exists host Hcalm); [|apply Hb|destruct Hp as [_ ->]; by eapply built_directory|destruct Hp as [_ ->]; by eexists].
  unfold mbind at 1, M_bind at 1. rewrite (bool_decide_eq_true_2 (exists_error = exists_error)) by done. cbn [ensure].
  apply (record_identity done ids current d (ticked s) n); [by apply built_tick|done..].
Qed.

Lemma total_ensure_new done ids current it :
  at_place current (i_path it) → may_follow done it → i_dir it = true → 
  total (built done ids) (ensure_one host ids current (item_name it)) (λ ids', built (done ++ [it])%list ids').
Proof.
  intros Hp Hf Hd s Hb. unfold ensure_one. unfold mbind at 1, M_bind at 1, attempt.
  pose proof (place_free done ids s Hb it Hf) as Hfree. pose proof (place_parent done ids s Hb it Hf) as Hdir.
  pose proof (place_nonempty (i_path it)) as Hne. pose proof Hp as [_ Hc].
  rewrite (calm_Mkdir host Hcalm); [|apply Hb|rewrite Hc; done..]. unfold mbind at 1, M_bind at 1.
  eapply (record_identity (done ++ [it])%list ids current it); [|done|apply elem_of_app; right; by left|done|].
  - eapply (built_add done ids s Hb it Hf (fresh_node host Directory (octal 7 5 5) (fs_tick s)) (fs_tick s)); cbn.
    + by rewrite Hc.
    + apply Hb.
    + split_and!; cbn; [by rewrite Hd|unfold i_data; by rewrite Hd|unfold made_mode; by rewrite Hd|congruence].
    + done.
    + lia.
  - cbn. rewrite Hc. apply lookup_insert_eq.
Qed.

(** The directories of a path that are there. *)
Definition dir_at (done : list item) (p : path) : Prop := ∃ d, d ∈ done ∧ i_dir d = true ∧ i_path d = p.

Lemma total_ensure_below done suffix : ∀ ids current p,
  at_place current p → Forall plain (p ++ suffix)%list → (∀ q, is_Some (strip p q) → is_Some (strip q (p ++ suffix)%list) → dir_at done q) →
  total (built done ids) (ensure_below host ids current (join_slash (ArchivePayloadRoot :: p)) suffix) (λ ids', built done ids').
Proof.
  induction suffix as [|x suffix IH]; intros ids current p Hp Hplain Hdirs; [by apply total_ret|]. cbn [ensure_below].
  assert (plain x ∧ Forall plain p) as [Hx Hpp].
  { apply Forall_app in Hplain as [? [? ?]%Forall_cons]. done. }
  assert (path_Join (join_slash (ArchivePayloadRoot :: p)) x = join_slash (ArchivePayloadRoot :: (p ++ [x])%list)) as ->.
  { apply (Join_relative (ArchivePayloadRoot :: p)); [done|constructor; [apply payload_plain|done]|done]. }
  pose proof (at_below current p x Hp Hx) as Hp'.
  destruct (Hdirs (p ++ [x])%list) as (d & Hin & Hd & Ed).
  { exists [x]. by apply strip_Some. }
  { exists suffix. apply strip_Some. by rewrite <-app_assoc. }
  eapply total_bind.
  { rewrite <-Ed in Hp'. pose proof (total_ensure_existing done ids (path_Join current x) d Hp' Hin Hd) as T.
    unfold item_name in T. rewrite Ed in T. exact T. }
  intros ids'. apply IH; [done|by rewrite <-app_assoc|]. intros q [s1 ->%strip_Some] Hq2. apply Hdirs.
  - exists ([x] ++ s1)%list. apply strip_Some. by rewrite <-app_assoc.
  - by rewrite <-(app_assoc p [x] suffix) in Hq2.
Qed.

Lemma total_ensure_last done suffix x it : i_dir it = true → may_follow done it → ∀ ids current p,
  at_place current p → i_path it = (p ++ suffix ++ [x])%list →
  (∀ q, is_Some (strip p q) → is_Some (strip q (p ++ suffix)%list) → q ≠ p → dir_at done q) →
  total (built done ids) (ensure_below host ids current (join_slash (ArchivePayloadRoot :: p)) (suffix ++ [x])%list)
    (λ ids', built (done ++ [it])%list ids').
Proof.
  intros Hd Hf. assert (Forall plain (i_path it)) as Hplain by apply Hf.
  induction suffix as [|y suffix IH]; intros ids current p Hp Hpath Hdirs; rewrite Hpath in Hplain;
    apply Forall_app in Hplain as [Hpp Hplain]; apply Forall_cons in Hplain as [Hy Hplain]; cbn [app ensure_below].
  - assert (path_Join (join_slash (ArchivePayloadRoot :: p)) x = item_name it) as ->.
    { unfold item_name. rewrite Hpath.
      apply (Join_relative (ArchivePayloadRoot :: p)); [done|constructor; [apply payload_plain|done]|done]. }
    eapply total_bind; [apply total_ensure_new; [|done|done]|].
    + rewrite Hpath. by apply at_below.
    + intros ids'. by apply total_ret.
  - assert (path_Join (join_slash (ArchivePayloadRoot :: p)) y = join_slash (ArchivePayloadRoot :: (p ++ [y])%list)) as ->.
    { apply (Join_relative (ArchivePayloadRoot :: p)); [done|constructor; [apply payload_plain|done]|done]. }
    pose proof (at_below current p y Hp Hy) as Hp'.
    destruct (Hdirs (p ++ [y])%list) as (d & Hin & Hdd & Ed).
    { exists [y]. by apply strip_Some. }
    { exists suffix. apply strip_Some. by rewrite <-app_assoc. }
    { intros E. apply (f_equal length) in E. rewrite length_app in E. cbn in E. lia. }
    eapply total_bind.
    { rewrite <-Ed in Hp'. pose proof (total_ensure_existing done ids (path_Join current y) d Hp' Hin Hdd) as T.
      unfold item_name in T. rewrite Ed in T. exact T. }
    intros ids'. apply IH; [done|by rewrite Hpath, <-app_assoc|].
    intros q [s1 ->%strip_Some] Hq2 _. apply Hdirs.
    + exists ([y] ++ s1)%list. apply strip_Some. by rewrite <-app_assoc.
    + by rewrite <-(app_assoc p [y] suffix) in Hq2.
    + intros E. apply (f_equal length) in E. rewrite !length_app in E. cbn in E. lia.
Qed.

(** Parents of what is done are done. *)
Definition closed (done : list item) : Prop := ∀ it, it ∈ done → i_path it ≠ [] → dir_at done (parent_of (i_path it)).
Lemma closed_prefix done p q : closed done → dir_at done p → is_Some (strip q p) → dir_at done q.
Proof.
  intros Hc Hd [s ->%strip_Some]. revert Hd. induction s as [|x s IH] using rev_ind; [by rewrite app_nil_r|].
  intros (d & Hin & _ & Ed). apply IH. rewrite app_assoc in Ed. rewrite <-(parent_of_snoc (q ++ s)%list x), <-Ed.
  apply Hc; [done|]. rewrite Ed. by destruct (q ++ s)%list.
Qed.
Lemma closed_add done it : closed done → may_follow done it → closed (done ++ [it])%list.
Proof.
  assert (∀ q, dir_at done q → dir_at (done ++ [it])%list q) as Hmono.
  { intros q (d & ? & ? & ?). exists d. split; [apply elem_of_app; by left|done]. }
  intros Hc (_ & _ & _ & Hpar) it' [Hin| ->%list_elem_of_singleton]%elem_of_app Hne; [by apply Hmono, Hc|].
  apply Hmono. by destruct Hpar as [?|?].
Qed.

(** The parents of an entry. *)
Lemma total_ensure_parents done ids q : closed done → dir_at done q → Forall plain q →
  total (built done ids) (ensure_directories host ids stage ArchivePayloadRoot (join_slash q)) (λ ids', built done ids').
Proof.
  intros Hc Hq Hplain. unfold ensure_directories.
  destruct (closed_prefix done q [] Hc Hq) as (d & Hin & Hd & Ed); [by exists q|].
  eapply total_bind.
  { pose proof at_root as Hr. rewrite <-Ed in Hr. pose proof (total_ensure_existing done ids root d Hr Hin Hd) as T.
    unfold item_name in T. rewrite Ed in T. exact T. }
  intros ids'. assert ((if join_slash q =s "" then [] else Split (join_slash q)) = q) as ->.
  { destruct q as [|x q]; [done|]. rewrite bool_decide_eq_false_2 by (by apply (join_relative (x :: q) "")). by apply plain_Split. }
  change ArchivePayloadRoot with (join_slash (ArchivePayloadRoot :: [])).
  apply total_ensure_below; [apply at_root|done|]. intros q' _ Hq'. by eapply closed_prefix.
Qed.

Lemma total_ensure_item done ids it : closed done → may_follow done it → i_dir it = true →
  total (built done ids) (ensure_directories host ids stage ArchivePayloadRoot (join_slash (i_path it)))
    (λ ids', built (done ++ [it])%list ids').
Proof.
  intros Hc Hf Hd. unfold ensure_directories. destruct (decide (i_path it = [])) as [E|Hne].
  { rewrite E. cbn. pose proof at_root as Hr. rewrite <-E in Hr. pose proof (total_ensure_new done ids root it Hr Hf Hd) as T.
    unfold item_name in T. rewrite E in T. eapply total_bind; [exact T|]. intros ids'. by apply total_ret. }
  assert (dir_at done (parent_of (i_path it))) as Hpar by (by destruct Hf as (_ & _ & _ & [?|?])).
  destruct (closed_prefix done _ [] Hc Hpar) as (d & Hin & Hdd & Ed); [by eexists|].
  eapply total_bind.
  { pose proof at_root as Hr. rewrite <-Ed in Hr. pose proof (total_ensure_existing done ids root d Hr Hin Hdd) as T.
    unfold item_name in T. rewrite Ed in T. exact T. }
  intros ids'. assert (Forall plain (i_path it)) as Hplain by apply Hf.
  rewrite bool_decide_eq_false_2 by (by apply (join_relative (i_path it) "")). rewrite plain_Split by done.
  destruct (i_path it) as [|x p _] eqn:E using rev_ind; [done|]. rewrite parent_of_snoc in Hpar.
  change ArchivePayloadRoot with (join_slash (ArchivePayloadRoot :: [])).
  apply total_ensure_last; [done|done|apply at_root|by rewrite E|]. intros q _ Hq _. by eapply closed_prefix.
Qed.

(** ** Files *)

(** The file at [p] is the one being written. *)
Definition writing (T : tree) (p : path) (k : nat) (n : node) (s : FS) : Prop :=
  fs_tree s = <[p := n]> T ∧ fs_alive s = true ∧ (k ≤ fs_tick s)%nat.

Lemma total_update T p k f n :
  total (writing T p k n) (update host f p) (λ _ s, ∃ now, writing T p k (f now n) s).
Proof.
  intros s (Ht & Ha & Hk). rewrite (calm_update host Hcalm f p n) by (try done; rewrite Ht; apply lookup_insert_eq).
  do 2 eexists. split; [done|]. exists (h_clock host (fs_tick s)). split; [|split; [done|cbn; lia]]. cbn.
  by rewrite Ht, insert_insert_eq.
Qed.
(** The times of an entry by name, where the name leads to its own path. *)
Definition with_time (n : node) (time : Z) : node :=
  mkNode (n_kind n) (n_dev n) (n_ino n) (n_owned n) (n_mode n) time (n_data n).
Lemma total_Chtimes T name k time n : resolve true (<[components name := n]> T) (components name) = Ok (components name) →
  total (writing T (components name) k n) (Chtimes host name time) (λ _, writing T (components name) k (with_time n time)).
Proof.
  intros Hr s (Ht & Ha & Hk). unfold Chtimes. rewrite (calm_located host Hcalm); [|done|by rewrite Ht].
  unfold change. cbn [fs_tree ticked]. rewrite Ht, lookup_insert_eq.
  do 2 eexists. split; [done|]. split; [|split; [done|cbn; lia]]. cbn. by rewrite insert_insert_eq.
Qed.
Lemma total_OpenPath T name k n : resolve true (<[components name := n]> T) (components name) = Ok (components name) →
  total (writing T (components name) k n) (OpenPath host name) (λ p s, p = components name ∧ writing T (components name) k n s).
Proof.
  intros Hr s (Ht & Ha & Hk). unfold OpenPath. rewrite (calm_located host Hcalm); [|done|by rewrite Ht].
  cbn [fs_tree ticked]. rewrite Ht, lookup_insert_eq, bool_decide_eq_true_2 by (by eexists).
  do 2 eexists. split; [done|]. split; [done|]. split; [done|]. split; [done|cbn; lia].
Qed.
Lemma total_writing_noop T p k n : total (writing T p k n) (call host) (λ _, writing T p k n).
Proof.
  intros s (Ht & Ha & Hk). exists (), (ticked s). unfold call. rewrite (calm_syscall host Hcalm) by done.
  split; [done|]. split; [done|]. split; [done|cbn; lia].
Qed.

(** A node with other contents and time. *)
Definition with_data (n : node) (time : Z) (data : list Z) : node :=
  mkNode (n_kind n) (n_dev n) (n_ino n) (n_owned n) (n_mode n) time data.

Lemma total_copy T p k chunks n :
  total (writing T p k n) (Copy host p chunks None)
    (λ _ s, ∃ time, writing T p k (with_data n time (n_data n ++ concat chunks)%list) s).
Proof.
  revert n. induction chunks as [|chunk chunks IH]; intros n; cbn [Copy]; (eapply total_bind; [apply total_writing_noop|]; intros []).
  - eapply total_conseq; [apply total_writing_noop|done|]. intros [] s H. exists (n_mtime n).
    unfold with_data. cbn. rewrite app_nil_r. by destruct n.
  - eapply total_bind with (Q := λ _ s, ∃ time, writing T p k (with_data n time (n_data n ++ chunk)%list) s).
    + destruct (decide (chunk = [])) as [->|Hne].
      * rewrite bool_decide_eq_true_2 by done. apply total_ret. intros s H. exists (n_mtime n).
        unfold with_data. rewrite app_nil_r. by destruct n.
      * rewrite bool_decide_eq_false_2 by done. eapply total_bind; [apply total_writing_noop|]. intros [].
        apply total_update.
    + intros [] s [time H]. destruct (IH (with_data n time (n_data n ++ chunk)%list) s H) as (a & s' & E & time' & H').
      exists a, s'. split; [done|]. exists time'. cbn in H'. by rewrite <-app_assoc in H'.
Qed.

Definition item_header (it : item) : tar_header :=
  mkHeader (item_name it) (if i_dir it then TypeDir else TypeReg) (zlen (i_data it)) (i_mode it) (Some (i_time it)).

Lemma total_write_file T name k n it (p := components name) : n_data n = [] → n_kind n = Regular → i_dir it = false →
  is_directory T (parent_of p) = true → p ≠ [] →
  total (writing T p k n)
    (Copy host p (i_chunks it) None;;
     (if preserve then Chmod host p (Z.land (th_Mode (item_header it)) (octal 7 7 7)) else mret ());;
     Chtimes host name (i_time it))
    (λ _ s, writing T p k (mkNode (n_kind n) (n_dev n) (n_ino n) (n_owned n)
              (if preserve then Z.land (i_mode it) (octal 7 7 7) else n_mode n) (i_time it) (i_data it)) s).
Proof.
  intros Hn Hk Hd Hdir Hp. eapply total_bind; [apply total_copy|]. intros [] s [time H]. revert s H.
  change (total (writing T p k (with_data n time (n_data n ++ concat (i_chunks it))%list))
    ((if preserve then Chmod host p (Z.land (i_mode it) (octal 7 7 7)) else mret ());; Chtimes host name (i_time it))
    (λ _ s, writing T p k (mkNode (n_kind n) (n_dev n) (n_ino n) (n_owned n)
              (if preserve then Z.land (i_mode it) (octal 7 7 7) else n_mode n) (i_time it) (i_data it)) s)).
  unfold i_data. rewrite Hn, Hd. cbn [app].
  eapply total_bind with (Q := λ _ s, writing T p k (mkNode (n_kind n) (n_dev n) (n_ino n) (n_owned n)
              (if preserve then Z.land (i_mode it) (octal 7 7 7) else n_mode n) time (concat (i_chunks it))) s).
  - destruct preserve; [|by apply total_ret]. eapply total_conseq; [apply total_update|done|]. by intros [] s [_ H].
  - intros []. apply total_Chtimes. apply resolve_in_directory; [done|apply components_no_dots| |].
    + etrans; [|exact Hdir]. apply is_directory_same. rewrite lookup_insert_ne; [done|]. by apply not_eq_sym, parent_shorter.
    + intros n'. rewrite lookup_insert_eq. intros [= <-]. cbn. by rewrite Hk.
Qed.

Lemma total_extract_file done ids it destination : may_follow done it → i_dir it = false →
  at_place destination (i_path it) →
  total (built done ids) (extract_file host preserve destination (item_header it) (i_chunks it) None)
    (λ _, built (done ++ [it])%list ids).
Proof.
  intros Hf Hd [_ Hc]. set (place := (R ++ i_path it)%list) in *. unfold extract_file.
  eapply total_bind with (Q := λ existing s, existing = None ∧ built done ids s).
  { intros s Hb. exists None, (ticked s). pose proof (place_free done ids s Hb it Hf) as Hfree.
    unfold Lstat. rewrite (calm_inspect host Hcalm); [|apply Hb|].
    - rewrite Hc. unfold place. rewrite Hfree. split; [done|]. split; [done|by apply built_tick].
    - apply resolve_free; rewrite Hc; [apply place_nonempty|done|by apply (place_parent done ids)]. }
  intros existing. apply total_pure. intros ->. eapply total_bind; [by apply total_ensure|]. intros [].
  set (T s0 := touch (parent_of place) (h_clock host (fs_tick s0)) (fs_tree s0)).
  set (new s0 := fresh_node host Regular (octal 6 4 4) (fs_tick s0)).
  eapply total_bind with (Q := λ file s, file = place ∧
    ∃ s0, built done ids s0 ∧ writing (T s0) place (S (fs_tick s0)) (new s0) s).
  { intros s Hb. pose proof (place_free done ids s Hb it Hf) as Hfree. pose proof (place_parent done ids s Hb it Hf) as Hdir.
    rewrite (calm_CreateExclusive host Hcalm); [|apply Hb|rewrite Hc; first [done|apply place_nonempty]..].
    rewrite Hc. do 2 eexists. split; [done|]. split; [done|]. exists s. split; [done|]. split; [done|]. split; [apply Hb|cbn; lia]. }
  intros file. apply total_pure. intros ->. apply total_exists. intros s0. apply total_pure. intros Hb.
  pose proof (total_write_file (T s0) destination (S (fs_tick s0)) (new s0) it eq_refl eq_refl Hd) as Hw.
  rewrite Hc in Hw. specialize (Hw ltac:(unfold T; rewrite is_directory_touch; by apply (place_parent done ids s0 Hb it Hf))
    (place_nonempty (i_path it))). cbn [n_kind n_dev n_ino n_owned n_mode new fresh_node] in Hw.
  set (final := mkNode _ _ _ _ _ _ _) in Hw.
  eapply total_bind; [apply total_attempt|].
  { unfold applyCopyArchiveModTime, item_header. cbn [th_ModTime]. exact Hw. }
  intros copied. apply total_exists. intros []. apply total_pure. intros ->.
  eapply total_bind; [apply total_attempt, total_writing_noop|]. intros synced. apply total_exists. intros []. apply total_pure. intros ->.
  eapply total_bind; [apply total_attempt, total_writing_noop|]. intros closed'. apply total_exists. intros []. apply total_pure. intros ->.
  apply total_ret. intros s (Ht & Ha & Hk).
  eapply (built_add done ids s0 Hb it Hf final (fs_tick s0) (h_clock host (fs_tick s0)) s); [exact Ht|done| |done|lia].
  unfold final, made, made_mode, i_data. rewrite Hd. split_and!; try done.
Qed.

(** ** Entries *)

Definition item_place (it : item) : string := "/" +:+ join_slash (R ++ i_path it)%list.
Definition dir_time (it : item) : string * option Z * Z :=
  (item_place it, Some (i_time it), Z.land (i_mode it) (octal 7 7 7)).
Definition total_bytes (items : list item) : Z := foldr (λ it acc, zlen (i_data it) + acc) 0 items.

Record tracks (done : list item) (x : extraction) : Prop := mkTracks {
  t_closed : closed done;
  t_plain : Forall (λ it, Forall plain (i_path it)) done;
  t_nodup : NoDup (i_path <$> done);
  t_seen : x_seen x = list_to_set (item_name <$> done);
  t_times : x_times x = dir_time <$> filter (λ it, i_dir it = true) done;
  t_entries : x_entries x = Z.of_nat (length done);
  t_total : x_total x = total_bytes done }.

Lemma total_bytes_app xs ys : total_bytes (xs ++ ys)%list = total_bytes xs + total_bytes ys.
Proof. induction xs as [|it xs IH]; [done|]. cbn. unfold total_bytes in *. lia. Qed.
Lemma total_bytes_nonneg items : 0 ≤ total_bytes items.
Proof. induction items as [|it items IH]; [done|]. cbn. pose proof (zlen_nonneg (i_data it)). unfold total_bytes in *. lia. Qed.

Lemma item_name_inj it it' : Forall plain (i_path it) → Forall plain (i_path it') → item_name it = item_name it' → i_path it = i_path it'.
Proof.
  intros H H' E. apply (f_equal Split) in E. unfold item_name in E.
  rewrite !plain_Split in E; [by injection E|done|by constructor; [apply payload_plain|]|done|by constructor; [apply payload_plain|]].
Qed.
Lemma tracks_unseen done x it : tracks done x → may_follow done it → item_name it ∉ x_seen x.
Proof.
  intros Ht (Hp & _ & Hnew & _). rewrite (t_seen _ _ Ht), elem_of_list_to_set. intros (it' & E & Hin)%list_elem_of_fmap.
  apply Hnew. pose proof (t_plain _ _ Ht) as Hall. rewrite Forall_forall in Hall.
  rewrite (item_name_inj it it'); [by apply list_elem_of_fmap_2|done|by apply Hall|done].
Qed.

Lemma tracks_add done x it ids : tracks done x → may_follow done it →
  tracks (done ++ [it])%list
    (mkExtraction ({[item_name it]} ∪ x_seen x) ids
       (x_times x ++ (if i_dir it then [dir_time it] else []))%list (x_entries x + 1) (x_total x + zlen (i_data it))).
Proof.
  intros [H1 H2 H0 H3 H4 H5 H6] Hf. split; cbn [x_seen x_times x_entries x_total].
  - by apply closed_add.
  - apply Forall_app. split; [done|]. apply Forall_singleton. apply Hf.
  - rewrite fmap_app. apply NoDup_app. split; [done|]. split; [|apply NoDup_singleton].
    intros q Hq ->%list_elem_of_singleton. by destruct Hf as (_ & _ & ? & _).
  - rewrite fmap_app, list_to_set_app_L, H3.
    change (list_to_set (item_name <$> [it]) : gset string) with ({[item_name it]} ∪ (∅ : gset string)).
    by rewrite union_empty_r_L, union_comm_L.
  - rewrite filter_app, fmap_app, H4. f_equal. rewrite filter_cons. by destruct (i_dir it).
  - rewrite H5, length_app. cbn. lia.
  - rewrite H6, total_bytes_app. cbn. lia.
Qed.

(** The destination of an item. *)
Lemma root_string : root = "/" +:+ join_slash R.
Proof.
  rewrite Join_absolute; [done|done|]. by repeat constructor.
Qed.
Lemma item_destination it : Forall plain (i_path it) →
  (if join_slash (i_path it) <>s "" then path_Join root (join_slash (i_path it)) else root) = item_place it ∧
  at_place (item_place it) (i_path it) ∧
  (item_place it =s root) || HasPrefix (item_place it) (root +:+ "/") = true.
Proof.
  intros Hp. destruct (root_components stage Habs) as [Hrc Hra].
  assert (at_place (item_place it) (i_path it)) as Hat.
  { split; [apply prefix_app|]. apply components_absolute. rewrite Forall_app. split; [|done]. rewrite <-Hrc. apply elements_proper. by left. }
  destruct (decide (i_path it = [])) as [E|Hne].
  - unfold item_place. rewrite E, app_nil_r, <-root_string. split; [done|].
    split; [apply at_root|by rewrite bool_decide_eq_true_2].
  - destruct (join_relative (i_path it) "" Hne Hp) as [_ Hj]. rewrite bool_decide_eq_false_2 by done. cbn [negb].
    rewrite Join_absolute by (try done; by rewrite plain_Split). rewrite Hrc, plain_Split by done. split; [done|]. split; [done|].
    unfold item_place. rewrite join_app by (try done; by destruct (components stage)). rewrite root_string.
    apply orb_true_intro. right. rewrite !append_assoc. apply prefix_app.
Qed.

Lemma parent_name (p : path) x : Forall plain (p ++ [x])%list →
  (if Dir (join_slash (p ++ [x])%list) =s "." then "" else Dir (join_slash (p ++ [x])%list)) = join_slash p.
Proof.
  intros H. assert (Split (join_slash (p ++ [x])%list) = (p ++ [x])%list) as Hs by (apply plain_Split; [by destruct p|done]).
  rewrite <-Hs in H. destruct (Dir_plain _ H) as [[Hr ->]|(Hr & _ & Hdot & E)]; rewrite Hs, removelast_last in *.
  - by rewrite Hr.
  - rewrite bool_decide_eq_false_2 by done. by rewrite <-(join_Split (Dir _)), E.
Qed.

(** The entry fits the limits. *)
Definition fits (done : list item) (it : item) : Prop :=
  Z.of_nat (length done) + 1 ≤ MaxEntries limits ∧ zlen (i_data it) ≤ MaxFileBytes limits ∧
  total_bytes done + zlen (i_data it) ≤ MaxTotalBytes limits.

Lemma total_extract_entry done x it : tracks done x → may_follow done it → fits done it →
  total (built done (x_identities x))
    (extract_entry host preserve limits stage ArchivePayloadRoot x (item_header it) (i_chunks it) None)
    (λ x' s, tracks (done ++ [it])%list x' ∧ built (done ++ [it])%list (x_identities x') s).
Proof.
  intros Hx Hf (Hmax & Hfile & Htot). pose proof Hf as (Hp & Hnul & _ & Hpar).
  destruct (name_accepted (i_path it) Hp Hnul) as [Hlocal Hvalid]. fold (item_name it) in Hlocal, Hvalid.
  destruct (item_destination it Hp) as (Hdest & Hat & Hcheck).
  unfold extract_entry. cbn [item_header th_Name th_Typeflag th_Size th_Mode th_ModTime].
  eapply total_bind; [apply total_ensure; intros _ _; rewrite (t_entries _ _ Hx); by apply Z.leb_le|]. intros [].
  eapply total_bind; [by apply total_ensure|]. intros [].
  eapply total_bind with (Q := λ cr s, cr = (item_name it, join_slash (i_path it)) ∧ built done (x_identities x) s).
  { intros s Hb. rewrite Hvalid. by do 2 eexists. }
  intros [clean rel]. apply total_pure. intros [= -> ->]. cbv zeta. rewrite Hdest.
  eapply total_bind; [apply total_ensure; intros _ _; apply bool_decide_eq_true_2; by eapply tracks_unseen|]. intros [].
  eapply total_bind; [by apply total_ensure|]. intros []. pose proof (tracks_add done x it) as Hadd.
  destruct (i_dir it) eqn:Hd; cbn [Z.eqb TypeDir TypeReg TypeRegA Pos.eqb orb].
  - eapply total_bind; [apply total_ensure_item; [apply Hx|done|done]|]. intros ids. apply total_ret. intros s Hb.
    split; [|done]. specialize (Hadd ids Hx Hf). unfold i_data, dir_time in Hadd. rewrite Hd in Hadd. cbn in Hadd.
    rewrite Z.add_0_r in Hadd. exact Hadd.
  - eapply total_bind; [apply total_ensure; intros _ _|].
    { rewrite (proj2 (Z.ltb_ge _ _)), (proj2 (Z.ltb_ge _ _)); [done|done|apply zlen_nonneg]. }
    intros []. eapply total_bind; [apply total_ensure; intros _ _; apply Z.leb_le; rewrite (t_total _ _ Hx); lia|]. intros [].
    eapply total_bind with (Q := λ ids, built done ids).
    { destruct (i_path it) as [|e p _] eqn:E using rev_ind; [by apply total_ret|].
      destruct (join_relative (p ++ [e])%list "" ltac:(by destruct p) Hp) as [_ Hj].
      rewrite bool_decide_eq_false_2 by done. cbn [negb]. rewrite parent_name by done.
      destruct Hpar as [Hpar|Hpar]; [by destruct p|]. rewrite parent_of_snoc in Hpar.
      apply total_ensure_parents; [apply Hx|done|]. by apply Forall_app in Hp as [? _]. }
    intros ids. eapply total_bind; [by apply total_extract_file|]. intros []. apply total_ret. intros s Hb.
    split; [|done]. specialize (Hadd ids Hx Hf). by rewrite app_nil_r in Hadd.
Qed.

Lemma total_extract_entries items : ∀ done x, tracks done x → parents_first done items →
  (∀ before it after, items = (before ++ it :: after)%list → fits (done ++ before)%list it) →
  total (built done (x_identities x))
    (extract_entries host preserve limits stage ArchivePayloadRoot x (item_entry <$> items))
    (λ x' s, tracks (done ++ items)%list x' ∧ built (done ++ items)%list (x_identities x') s).
Proof.
  induction items as [|it items IH]; intros done x Hx Hpf Hfits; cbn [fmap list_fmap extract_entries];
    (eapply total_bind; [apply total_noop|]); intros [].
  - rewrite app_nil_r. by apply total_ret.
  - destruct Hpf as [Hf Hpf]. unfold item_entry at 1. eapply total_bind.
    + apply (total_extract_entry done x it Hx Hf). pose proof (Hfits [] it items eq_refl) as H. by rewrite app_nil_r in H.
    + intros x'. apply total_pure. intros Hx'.
      assert ((done ++ it :: items)%list = ((done ++ [it]) ++ items)%list) as -> by (by rewrite <-app_assoc).
      apply IH; [done|done|]. intros before it' after ->. rewrite <-app_assoc. by apply (Hfits (it :: before) it' after).
Qed.

(** ** Times of directories *)

Definition final_mode (it : item) : Z :=
  if preserve then Z.land (i_mode it) (octal 7 7 7)
  else Z.ldiff (if i_dir it then octal 7 5 5 else octal 6 4 4) (h_umask host).
Lemma NoDup_fmap_inj (done : list item) it it' :
  NoDup (i_path <$> done) → it ∈ done → it' ∈ done → i_path it = i_path it' → it = it'.
Proof.
  intros H. induction done as [|d done IH]; [by intros ?%elem_of_nil|]. apply NoDup_cons in H as [Hd H].
  intros [->|H1]%elem_of_cons [->|H2]%elem_of_cons E; [done|..|by apply IH].
  - destruct Hd. rewrite E. by apply list_elem_of_fmap_2.
  - destruct Hd. rewrite <-E. by apply list_elem_of_fmap_2.
Qed.
(** What an extracted item is. *)
Definition final (it : item) (n : node) : Prop :=
  n_kind n = (if i_dir it then Directory else Regular) ∧ n_data n = i_data it ∧
  n_mode n = final_mode it ∧ n_mtime n = i_time it.

(** The directories of [todo] still have the time of their last change. *)
Record restoring (done todo : list item) (s : FS) : Prop := mkRestoring {
  rs_alive : fs_alive s = true;
  rs_items it : it ∈ done →
    ∃ n, fs_tree s !! (R ++ i_path it)%list = Some n ∧ (it ∈ todo ∧ made it n ∨ it ∉ todo ∧ final it n);
  rs_only p n : fs_tree s !! (R ++ p)%list = Some n → ∃ it, it ∈ done ∧ i_path it = p }.

Lemma made_file it n : i_dir it = false → made it n → final it n.
Proof.
  intros Hd (Hk & Hdata & Hm & Ht). split_and!; [done..| |auto]. rewrite Hm. unfold made_mode, final_mode. by rewrite Hd.
Qed.

Lemma total_join {S1 : FS → Prop} (S2 S3 : FS → Prop) a b :
  total S1 a (λ _, S2) → total S2 b (λ _, S3) → total S1 (join a b) (λ _, S3).
Proof.
  intros Ha Hb. unfold join. eapply total_bind; [by apply total_attempt|]. intros r. apply total_exists. intros []. apply total_pure.
  intros ->. eapply total_bind; [by apply total_attempt|]. intros r. apply total_exists. intros []. apply total_pure.
  intros ->. by apply total_ret.
Qed.

(** Setting the time and permissions of a directory. *)
Lemma total_restore_node T d n : i_dir d = true → Forall plain (i_path d) → made d n →
  total (writing T (R ++ i_path d)%list 0 n) (restore_directory host preserve (dir_time d))
    (λ _ s, ∃ n', final d n' ∧ writing T (R ++ i_path d)%list 0 n' s).
Proof.
  intros Hd Hp (Hk & Hdata & Hmode & _). unfold restore_directory, dir_time, applyCopyArchiveModTime.
  destruct (item_destination d Hp) as (_ & [_ <-] & _).
  assert (∀ m, n_kind m = n_kind n → resolve true (<[components (item_place d) := m]> T) (components (item_place d))
    = Ok (components (item_place d))) as Hres.
  { intros m Hm. apply resolve_directory. unfold is_directory. rewrite lookup_insert_eq, Hm, Hk, Hd. by rewrite orb_true_r. }
  set (n1 := mkNode (n_kind n) (n_dev n) (n_ino n) (n_owned n) (n_mode n) (i_time d) (n_data n)).
  eapply total_bind with (Q := λ _, writing T (components (item_place d)) 0 n1); [by apply total_Chtimes, Hres|].
  intros []. eapply total_bind; [apply total_writing_noop|]. intros [].
  assert (n_mode n1 = made_mode d) as Hm1 by done. unfold made_mode in Hm1. rewrite Hd in Hm1.
  unfold final, final_mode. rewrite Hd in *. destruct preserve.
  - eapply total_bind; [by apply total_OpenPath, Hres|]. intros opened. apply total_pure. intros ->.
    set (n2 := mkNode (n_kind n) (n_dev n) (n_ino n) (n_owned n) (Z.land (i_mode d) (octal 7 7 7)) (i_time d) (n_data n)).
    eapply total_conseq; [apply (total_join (writing T (components (item_place d)) 0 n2) (writing T (components (item_place d)) 0 n2))|done|].
    + eapply total_conseq; [apply total_update|done|]. by intros [] s [_ H].
    + eapply total_join; apply total_writing_noop.
    + intros [] s H. by exists n2.
  - apply total_ret. intros s H. by exists n1.
Qed.

Lemma total_restore done todo d :
  NoDup (i_path <$> done) → Forall (λ it, Forall plain (i_path it)) done → d ∈ done → i_dir d = true → d ∉ todo →
  total (restoring done (d :: todo)) (restore_directory host preserve (dir_time d)) (λ _, restoring done todo).
Proof.
  intros Hnd Hplain Hin Hd Hnew s [Ha Hitems Honly].
  destruct (Hitems d Hin) as (n & En & [[_ Hmade]|[Hno _]]); [|destruct Hno; by left].
  rewrite Forall_forall in Hplain.
  destruct (total_restore_node (fs_tree s) d n Hd (Hplain d Hin) Hmade s) as (a & s' & E & n' & Hfinal & Ht & Ha' & _).
  { split; [by rewrite insert_id|]. split; [done|lia]. }
  exists a, s'. split; [done|]. split; [done|..]; rewrite Ht.
  - intros it Hit. destruct (decide (it = d)) as [->|Hne].
    + exists n'. rewrite lookup_insert_eq. split; [done|by right].
    + assert (i_path it ≠ i_path d) as Hpath.
      { intros Ep. apply Hne. by eapply (NoDup_fmap_inj done). }
      rewrite lookup_insert_ne by (by intros ?%app_inv_head).
      destruct (Hitems it Hit) as (n1 & E1 & [[Htodo Hm]|[Htodo Hf]]); exists n1; (split; [done|]).
      * left. split; [|done]. by apply elem_of_cons in Htodo as [?|?].
      * right. split; [|done]. intros H. apply Htodo. by right.
  - intros p n1 E1. destruct (decide (p = i_path d)) as [->|Hne]; [by exists d|].
    rewrite lookup_insert_ne in E1 by (by intros ?%app_inv_head). by eapply Honly.
Qed.

Lemma total_restore_all done todo :
  NoDup (i_path <$> done) → Forall (λ it, Forall plain (i_path it)) done →
  NoDup todo → Forall (λ d, d ∈ done ∧ i_dir d = true) todo →
  total (restoring done todo) (each (restore_directory host preserve) (dir_time <$> todo)) (λ _, restoring done []).
Proof.
  intros Hnd Hplain Ht Hall. induction Ht as [|d todo Hnew Ht IH]; [by apply total_ret|].
  apply Forall_cons in Hall as [[Hin Hd] Hall]. cbn. eapply total_bind; [by apply total_restore|]. intros []. by apply IH.
Qed.

Lemma total_each_noop {A : Type} (P : FS → Prop) (f : A → M FS ()) (xs : list A) :
  (∀ x, total P (f x) (λ _, P)) → total P (each f xs) (λ _, P).
Proof. intros H. induction xs as [|x xs IH]; [by apply total_ret|]. cbn. eapply total_bind; [apply H|]. by intros []. Qed.

Lemma NoDup_dirs done : NoDup (i_path <$> done) → NoDup (filter (λ it, i_dir it = true) done).
Proof.
  intros H. apply NoDup_filter. by apply (NoDup_fmap_1 i_path).
Qed.

Lemma built_restoring done ids s : built done ids s → restoring done (reverse (filter (λ it, i_dir it = true) done)) s.
Proof.
  intros Hb. split; [apply Hb| |apply Hb]. intros it Hin. destruct (b_made _ _ _ Hb it Hin) as (n & m & En & Hn & _).
  exists n. split; [done|]. rewrite elem_of_reverse, list_elem_of_filter. destruct (i_dir it) eqn:Hd; [by left|right].
  split; [by intros [? _]|by apply made_file].
Qed.

Lemma total_finish done x : tracks done x → done ≠ [] →
  total (built done (x_identities x)) (finish_extraction host preserve stage x) (λ _, restoring done []).
Proof.
  intros Hx Hne. destruct done as [|it0 done0] eqn:Edone; [done|]. rewrite <-Edone in *.
  assert (it0 ∈ done) as Hin0 by (rewrite Edone; by left). unfold finish_extraction.
  eapply total_bind with (Q := λ payload s, payload ≠ None ∧ built done (x_identities x) s).
  { intros s Hb. destruct at_root as [_ Hc]. assert (is_Some (fs_tree s !! R)) as [n En].
    { assert (∃ it, it ∈ done ∧ i_path it = []) as (it & Hin & Ep).
      { destruct (decide (i_path it0 = [])) as [?|Hp]; [by exists it0|].
        destruct (closed_prefix done (parent_of (i_path it0)) []) as (d & ? & _ & ?); [apply Hx|by apply Hx|by eexists|].
        by exists d. }
      destruct (b_made _ _ _ Hb it Hin) as (n & m & En & _). rewrite Ep, app_nil_r in En. by eexists. }
    rewrite app_nil_r in Hc. exists (Some n), (ticked s). unfold Lstat. rewrite (calm_inspect host Hcalm); [|apply Hb|].
    - rewrite Hc, En. split; [done|]. split; [done|by apply built_tick].
    - apply resolve_in_directory; [|apply components_no_dots| |done]; rewrite Hc; [by destruct (components stage)|].
      rewrite parent_of_snoc. apply Hb. }
  intros payload. apply total_pure. intros Hpay.
  eapply total_bind; [apply total_ensure; intros _ _; by apply bool_decide_eq_true_2|]. intros [].
  eapply total_bind with (Q := λ _, built done (x_identities x)); [intros s Hb; by do 2 eexists|]. intros dirs.
  eapply total_bind; [apply total_each_noop; intros _; apply total_noop|]. intros [].
  rewrite (t_times _ _ Hx), <-fmap_reverse. eapply total_pre; [apply total_restore_all|by apply built_restoring].
  - apply Hx.
  - apply Hx.
  - rewrite reverse_Permutation. apply NoDup_dirs, Hx.
  - apply Forall_forall. intros d. rewrite elem_of_reverse, list_elem_of_filter. by intros [? ?].
Qed.

(** ** The whole extraction *)

(** An undamaged stream of [items], within the limits. *)
Record intact (items : list item) (stream : Stream) : Prop := mkIntact {
  in_entries : st_entries stream = item_entry <$> items;
  in_gzip : st_gzip stream = None;
  in_checksum : st_checksum stream = None;
  in_close : st_close stream = None;
  in_after : st_after stream = None;
  in_zeros : Forall (λ b, b = 0) (concat (st_trailer stream));
  in_size : 0 ≤ st_consumed stream + zlen (concat (st_trailer stream)) ≤ MaxTotalBytes limits + MaxEntries limits * 4096 + 2 ^ 20;
  in_compressed : st_compressed stream ≤ MaxCompressedBytes limits }.

Lemma total_trailer (P : FS → Prop) reads : total P (call host) (λ _, P) →
  Forall (λ b, b = 0) (concat reads) → ∀ left, zlen (concat reads) < left →
  total P (read_trailer host left reads None) (λ l s, 0 < l ∧ P s).
Proof.
  intros Hcall. induction reads as [|chunk reads IH]; intros Hz left Hleft; cbn [read_trailer];
    (eapply total_bind; [exact Hcall|]); intros [].
  - unfold zlen in Hleft. cbn in Hleft. rewrite (proj2 (Z.leb_gt _ _)) by done. by apply total_ret.
  - cbn [concat] in *. apply Forall_app in Hz as [Hz1 Hz2]. rewrite zlen_app in Hleft.
    pose proof (zlen_nonneg chunk). pose proof (zlen_nonneg (concat reads)).
    rewrite (proj2 (Z.leb_gt _ _)) by lia. rewrite take_ge by (unfold zlen in *; lia).
    eapply total_bind; [apply total_ensure; intros _ _|].
    { apply forallb_forall. intros b Hb. apply list_elem_of_In in Hb. rewrite Forall_forall in Hz1. by apply Z.eqb_eq, Hz1. }
    intros []. eapply total_bind; [apply total_ensure; intros _ _|intros []; apply IH; [done|lia]].
    rewrite (proj2 (Z.eqb_neq _ _)); [done|lia].
Qed.

Lemma limits_in_range : validate limits = true →
  1 ≤ MaxTotalBytes limits ∧ wrap64 (MaxTotalBytes limits + MaxEntries limits * 4096 + 2 ^ 20)
    = MaxTotalBytes limits + MaxEntries limits * 4096 + 2 ^ 20 ∧ 1 ≤ MaxEntries limits.
Proof.
  intros Hv. unfold validate in Hv. rewrite negb_true_iff, !orb_false_iff, !Z.ltb_ge in Hv.
  destruct Hv as (((((((H1 & H2) & H3) & H4) & _) & _) & H5) & H6). split; [done|]. split; [|done].
  unfold wrap64. rewrite Z.mod_small; [lia|]. unfold max_int64 in *. lia.
Qed.

Lemma total_extract items stream : items ≠ [] → validate limits = true → intact items stream → parents_first [] items →
  Z.of_nat (length items) ≤ MaxEntries limits → Forall (λ it, zlen (i_data it) ≤ MaxFileBytes limits) items →
  total_bytes items ≤ MaxTotalBytes limits →
  total (λ s, fs_alive s = true ∧ is_directory (fs_tree s) (components stage) = true ∧ free (fs_tree s) R)
    (ExtractArchive host preserve limits stream stage ArchivePayloadRoot) (λ _, restoring items []).
Proof.
  intros Hne Hv Hin Hpf Hlen Hfiles Htot. destruct (limits_in_range Hv) as (Hmax & Hwrap & Hent). unfold ExtractArchive.
  assert (tracks [] no_extraction) as Hx0.
  { split; try done; [by intros it ?%elem_of_nil|constructor]. }
  eapply total_bind; [by apply total_ensure|]. intros []. rewrite (in_gzip _ _ Hin).
  eapply total_bind; [apply total_skip|]. intros []. cbv zeta. rewrite Hwrap.
  eapply total_bind; [apply total_ensure; intros _ _; apply Z.leb_le; lia|]. intros []. rewrite (in_entries _ _ Hin).
  eapply total_bind.
  { eapply total_pre; [apply (total_extract_entries items [] no_extraction Hx0 Hpf)|].
    - intros before it after ->. rewrite length_app in Hlen. cbn in Hlen. rewrite total_bytes_app in Htot. cbn in Htot.
      pose proof (total_bytes_nonneg after). apply Forall_app in Hfiles as [_ [Hf _]%Forall_cons].
      unfold fits. cbn [app]. unfold total_bytes in *. split_and!; [lia|done|lia].
    - intros s (Ha & Hd & Hfree). split; try done; [by intros it ?%elem_of_nil|..].
      + intros p n E. by rewrite (Hfree p) in E.
      + intros p n E. by rewrite (Hfree p) in E.
      + intros p p' n n' E. by rewrite (Hfree p) in E. }
  intros x. cbn [app]. apply total_pure. intros Hx.
  eapply total_bind with (Q := λ _, built items (x_identities x)); [|intros []; by apply total_finish].
  unfold verify_stream. rewrite (in_checksum _ _ Hin), (in_close _ _ Hin), (in_after _ _ Hin).
  destruct (in_size _ _ Hin). eapply total_bind; [apply total_trailer; [apply total_noop|apply Hin|lia]|].
  intros left. apply total_pure. intros Hleft.
  eapply total_bind; [apply total_ensure; intros _ _; by rewrite (proj2 (Z.eqb_neq _ _)) by lia|]. intros [].
  eapply total_bind; [apply total_skip|]. intros []. eapply total_bind; [apply total_skip|]. intros [].
  apply total_ensure. intros _ _. apply Z.ltb_lt. pose proof (in_compressed _ _ Hin). lia.
Qed.
End restore.
