(* ===== verification/ArchiveCreate.v ===== *)
(** * Archive creation ([internal/runner/runnerfs/archive.go], [directory.go])

    [CreateArchive] walks a source tree and writes a tar entry for every file
    and directory, following links on request.  A source is a graph of files by
    identity (device and inode), since links can make cycles; reading it can
    fail at every call and can find that a file changed.  The tar and gzip
    layers are their documented round trip: the entries written. *)

From Stdlib Require Import ZArith Lia.
From stdpp Require Import gmap strings prelude.
From S2P Require Import Prelude GoText GoPath ArchiveJournal ArchiveCopy.
Local Open Scope string_scope.
Local Open Scope Z_scope.
Local Open Scope crab_scope.

(** ** Data *)

Record CreateOptions := mkCreateOptions { FollowLinks : bool; RejectHardLinks : bool }.

(** A file of the source: [s_batches] is what [ReadDir] returns call by call
    (names and the files they name), [s_resolves] where [EvalSymlinks] leads. *)
Record snode := mkSource {
  s_kind : kind; s_mode : Z; s_mtime : Z; s_links : Z; s_data : list Z;
  s_batches : list (list (string * Z)); s_resolves : option Z }.
Definition s_children (n : snode) : list (string * Z) := concat (s_batches n).

(** [copyArchiveCreateState], with the calls made so far. *)
Record copyArchiveCreateState := mkCreation {
  cr_entries : Z; cr_totalBytes : Z; cr_activeDirs : list Z;
  cr_written : list (tar_header * list Z); cr_tick : nat }.

Record Reader := mkReader {
  rd_fault : nat → option error;      (** the error of a call *)
  rd_changed : nat → bool             (** a file is not what it was *) }.

Section create.
Context (reader : Reader) (src : gmap Z snode) (options : CreateOptions) (limits : ArchiveLimits).
Context (outputIdentity : option Z).
Local Abbreviation CM := (M copyArchiveCreateState).

(** ** Operations *)

Definition access : CM () := λ st,
  let st' := mkCreation (cr_entries st) (cr_totalBytes st) (cr_activeDirs st) (cr_written st) (S (cr_tick st)) in
  match rd_fault reader (cr_tick st) with Some e => (Err e, st') | None => (Ok (), st') end.
(** A second look at a file: [Stat] and [os.SameFile], size and time. *)
Definition verify : CM () :=
  access;;
  changed ← gets (λ st, rd_changed reader (cr_tick st));
  ensure (negb changed) (Msg "copy source changed while it was being archived: %s").

Definition set_active (active : list Z) : CM () := modify (λ st,
  mkCreation (cr_entries st) (cr_totalBytes st) active (cr_written st) (cr_tick st)).

(** The limits on entries and bytes. *)
Definition count_entry (info : snode) : CM () :=
  modify (λ st, mkCreation (cr_entries st + 1) (cr_totalBytes st) (cr_activeDirs st) (cr_written st) (cr_tick st));;
  entries ← gets cr_entries;
  ensure (entries <=? MaxEntries limits) (Msg "copy archive exceeds entry limit (%d)");;
  if s_kind info =s Regular then
    ensure (negb (RejectHardLinks options && (1 <? s_links info))) (Msg "copy archive source contains a hard link: %s");;
    ensure (zlen (s_data info) <=? MaxFileBytes limits) (Msg "copy archive file exceeds size limit (%d bytes): %s");;
    total ← gets cr_totalBytes;
    ensure (zlen (s_data info) <=? MaxTotalBytes limits - total) (Msg "copy archive exceeds total size limit (%d bytes)");;
    modify (λ st, mkCreation (cr_entries st) (cr_totalBytes st + zlen (s_data info)) (cr_activeDirs st)
                    (cr_written st) (cr_tick st))
  else mret ().

(** [tar.FileInfoHeader] with the name of the entry *)
Definition entry_header (info : snode) (archiveName : string) : tar_header :=
  mkHeader archiveName (if s_kind info =s Directory then TypeDir else TypeReg)
    (if s_kind info =s Directory then 0 else zlen (s_data info)) (s_mode info) (Some (s_mtime info)).
Definition write_entry (info : snode) (archiveName : string) : CM () :=
  access (* WriteHeader *);;
  (if s_kind info =s Regular then access (* Copy *);; verify else mret ());;
  modify (λ st, mkCreation (cr_entries st) (cr_totalBytes st) (cr_activeDirs st)
    (cr_written st ++ [(entry_header info archiveName, if s_kind info =s Directory then [] else s_data info)])%list
    (cr_tick st)).

(** [readDirectory] *)
Fixpoint visit_batch (visit : string * Z → CM ()) (batch : list (string * Z)) : CM () :=
  match batch with
  | [] => mret ()
  | child :: batch => access;; visit child;; visit_batch visit batch
  end.
Fixpoint readDirectory (visit : string * Z → CM ()) (batches : list (list (string * Z))) : CM () :=
  access (* ctx.Err *);;
  access (* ReadDir *);;
  match batches with
  | [] => mret ()
  | batch :: batches => visit_batch visit batch;; readDirectory visit batches
  end.

(** A directory is active while its entries are visited; an active directory
    met again is a cycle. *)
Definition enter (key : Z) (body : CM ()) : CM () :=
  active ← gets cr_activeDirs;
  ensure (bool_decide (key ∉ active)) (Msg "copy source symlink cycle at %s");;
  set_active (active ++ [key])%list;;
  r ← attempt body;
  set_active active;;
  lift r.

Definition out_of_fuel : error := Panic "fuel".

(** [copyArchiveCreateState.append] *)
Fixpoint append (fuel : nat) (key : Z) (archiveName : string) : CM () :=
  match fuel with
  | O => fail out_of_fuel
  | S fuel =>
      access;;
      access;;
      match src !! key with
      | None => fail (Msg "read copy source %s: %v")
      | Some info =>
          if bool_decide (outputIdentity = Some key) then mret ()
          else match s_kind info with
          | Symlink =>
              ensure (FollowLinks options) (Msg "archive copy source contains a symlink; use -L to follow it: %s");;
              access;;
              match s_resolves info with
              | None => fail (Msg "follow copy source symlink %s: %v")
              | Some target => access;; append fuel target archiveName
              end
          | Special => fail (Msg "copy archive source contains unsupported special file: %s")
          | Regular | Directory =>
              access;;
              verify;;
              count_entry info;;
              write_entry info archiveName;;
              if s_kind info =s Directory then
                enter key (
                  access;;
                  verify;;
                  readDirectory (λ child, append fuel child.2 (path_Join archiveName child.1)) (s_batches info))
              else mret ()
          end
      end
  end.

(** Closing the writers, the size of the archive and rewinding it. *)
Definition finish_payload (compressed : Z) : CM (list (tar_header * list Z)) :=
  access (* root.Close *);;
  access (* tw.Close *);;
  access (* gz.Close *);;
  access (* archive.Stat *);;
  ensure (compressed <=? MaxCompressedBytes limits) (Msg "copy archive exceeds compressed size limit (%d bytes)");;
  access (* archive.Seek *);;
  gets cr_written.

(** The archive of the file [key]: what [CreateArchive] writes once the source
    is opened, for a compressed size of [compressed] bytes. *)
Definition create_payload (fuel : nat) (key compressed : Z) : CM (list (tar_header * list Z)) :=
  ensure (validate limits) (Msg "invalid copy archive limits");;
  access (* OpenRoot *);;
  verify;;
  append fuel key ArchivePayloadRoot;;
  finish_payload compressed.
End create.
