(* ===== verification/ArchiveRoundTrip.v ===== *)
(** * Copying a tree through an archive

    Creation terminates, cycles of links included, and writes a listing of the
    source; extracting that listing rebuilds the source. *)

From Stdlib Require Import ZArith Lia.
From stdpp Require Import gmap strings prelude.
From S2P Require Import Prelude GoText GoPath ArchiveJournal ArchiveSafety ArchiveLive ArchiveCopy ArchiveExtract ArchiveRestore ArchiveCreate.
Local Open Scope string_scope.
Local Open Scope Z_scope.
Local Open Scope crab_scope.

(** ** Termination *)

Section termination.
Context (reader : Reader) (src : gmap Z snode) (options : CreateOptions) (limits : ArchiveLimits).
Context (outputIdentity : option Z).
Local Abbreviation append := (append reader src options limits outputIdentity).

Definition same_active (st st' : copyArchiveCreateState) : Prop := cr_activeDirs st' = cr_activeDirs st.
#[export] Instance same_active_preorder : PreOrder same_active.
Proof. split; [done|]. intros x y z H1 H2. unfold same_active in *. congruence. Qed.

Lemma access_active : keeps same_active (access reader).
Proof. intros st. unfold access. by destruct (rd_fault reader _). Qed.
Lemma verify_active : keeps same_active (verify reader).
Proof. unfold verify. apply keeps_bind; [apply _|apply access_active|]. intros _. keeps_steps. Qed.
Lemma modify_active f : (∀ st, same_active st (f st)) → keeps same_active (modify f).
Proof. intros H st. apply H. Qed.
Hint Resolve access_active verify_active : crab.
Lemma count_active info : keeps same_active (count_entry options limits info).
Proof. unfold count_entry. keeps_steps; by apply modify_active. Qed.
Lemma write_active info name : keeps same_active (write_entry reader info name).
Proof. unfold write_entry. keeps_steps; by apply modify_active. Qed.
Hint Resolve count_active write_active : crab.

(** Visiting the entries of a directory restores the active directories. *)
Lemma enter_active key body : keeps same_active (enter key body).
Proof.
  intros st. unfold enter, mbind, M_bind, gets, ensure, set_active, modify, attempt, lift.
  destruct (bool_decide _); [|done]. cbn. by destruct (body _) as [r st'].
Qed.

Hint Resolve enter_active : crab.

(** [m] does not run out of fuel while [active] are the active directories. *)
Definition fueled {A : Type} (active : list Z) (m : M copyArchiveCreateState A) : Prop :=
  ∀ st, cr_activeDirs st = active → (m st).1 ≠ Err out_of_fuel.
Lemma fueled_enter active key body :
  (key ∉ active → fueled (active ++ [key])%list body) → fueled active (enter key body).
Proof.
  intros H st E. unfold enter, mbind, M_bind, gets, ensure, set_active, modify, attempt, lift. rewrite E.
  case_bool_decide as Hk; [|done]. cbn. specialize (H Hk (mkCreation (cr_entries st) (cr_totalBytes st) (active ++ [key])%list (cr_written st) (cr_tick st)) eq_refl).
  by destruct (body _) as [r st'].
Qed.
#[local] Opaque enter.

Section visit.
Context (visit : string * Z → M copyArchiveCreateState ()) (Hv : ∀ child, keeps same_active (visit child)).
Lemma visit_batch_active batch : keeps same_active (visit_batch reader visit batch).
Proof. induction batch as [|child batch IH]; cbn [visit_batch]; keeps_steps. Qed.
Hint Resolve visit_batch_active : crab.
Lemma visit_active batches : keeps same_active (readDirectory reader visit batches).
Proof. induction batches as [|batch batches IH]; cbn [readDirectory]; keeps_steps. Qed.
End visit.
Hint Resolve visit_batch_active visit_active : crab.

Lemma append_active fuel : ∀ key name, keeps same_active (append fuel key name).
Proof.
  induction fuel as [|fuel IH]; intros key name; cbn [ArchiveCreate.append]; [keeps_steps|].
  keeps_steps.
Qed.

(** ** Enough fuel *)

Lemma fueled_bind {A B : Type} active (m : M copyArchiveCreateState A) (k : A → M copyArchiveCreateState B) :
  keeps same_active m → fueled active m → (∀ a, fueled active (k a)) → fueled active (m ≫= k).
Proof.
  intros Ha Hm Hk st E. unfold mbind, M_bind. specialize (Hm st E). specialize (Ha st). unfold same_active in Ha.
  destruct (m st) as [[a|e] st']; cbn in *; [apply Hk; congruence|congruence].
Qed.

Context (Hfault : ∀ n, rd_fault reader n ≠ Some out_of_fuel).

Lemma fueled_access active : fueled active (access reader).
Proof. intros st _. unfold access. specialize (Hfault (cr_tick st)). destruct (rd_fault reader _); cbn; congruence. Qed.
Lemma fueled_ret {A : Type} active (a : A) : fueled active (mret a).
Proof. by intros st _. Qed.
Lemma fueled_gets {A : Type} active (f : copyArchiveCreateState → A) : fueled active (gets f).
Proof. by intros st _. Qed.
Lemma fueled_modify active f : fueled active (modify f).
Proof. by intros st _. Qed.
Lemma fueled_ensure active b msg : fueled active (ensure b (Msg msg)).
Proof. intros st _. by destruct b. Qed.
Lemma fueled_msg {A : Type} active msg : fueled active (fail (A := A) (Msg msg)).
Proof. by intros st _. Qed.
Hint Resolve fueled_access fueled_ret fueled_gets fueled_modify fueled_ensure fueled_msg modify_active : crab.
Ltac fueled_steps :=
  repeat first [ progress (eauto 2 with crab) | apply fueled_bind; [| |intros ?] | progress case_match
               | progress keeps_steps | by apply modify_active ].
Lemma fueled_verify active : fueled active (verify reader).
Proof. unfold verify. fueled_steps. Qed.
Lemma fueled_count active info : fueled active (count_entry options limits info).
Proof. unfold count_entry. fueled_steps. Qed.
Hint Resolve fueled_verify : crab.
Lemma fueled_write active info name : fueled active (write_entry reader info name).
Proof. unfold write_entry. fueled_steps. Qed.
Hint Resolve fueled_count fueled_write : crab.

Section fueled_visit.
Context (active : list Z) (visit : string * Z → M copyArchiveCreateState ()).
Context (Hv : ∀ child, keeps same_active (visit child)) (Hf : ∀ child, fueled active (visit child)).
Lemma fueled_visit_batch batch : fueled active (visit_batch reader visit batch).
Proof. induction batch as [|child batch IH]; cbn [visit_batch]; fueled_steps. Qed.
Hint Resolve fueled_visit_batch : crab.
Lemma fueled_visit batches : fueled active (readDirectory reader visit batches).
Proof. induction batches as [|batch batches IH]; cbn [readDirectory]; fueled_steps. Qed.
End fueled_visit.

(** A link is resolved before the directories it leads to. *)
Definition weight (key : Z) : nat :=
  match src !! key with Some n => if s_kind n =s Symlink then 2 else 1 | None => 1 end.
Context (Hresolved : ∀ k n t, src !! k = Some n → s_resolves n = Some t → weight t = 1%nat).

Lemma active_bound active key : NoDup active → Forall (λ k, is_Some (src !! k)) active →
  key ∉ active → is_Some (src !! key) → (length active < size src)%nat.
Proof.
  intros Hnd Hall Hk Hkey. assert (NoDup (key :: active)) as Hnd' by (by constructor).
  assert (size (list_to_set (C := gset Z) (key :: active)) ≤ size (dom src))%nat as H.
  { apply subseteq_size. intros k [->|Hin]%elem_of_list_to_set%elem_of_cons; apply elem_of_dom; [done|].
    rewrite Forall_forall in Hall. by apply Hall. }
  rewrite size_list_to_set, size_dom in H by done. cbn in H. lia.
Qed.

Ltac fueled_step := apply fueled_bind; [keeps_steps|auto with crab|intros ?].

Lemma fueled_append fuel : ∀ key name active,
  NoDup active → Forall (λ k, is_Some (src !! k)) active →
  (2 * (size src - length active) + weight key ≤ fuel)%nat → fueled active (append fuel key name).
Proof.
  induction fuel as [|fuel IH]; intros key name active Hnd Hall Hfuel.
  { unfold weight in Hfuel. repeat case_match; lia. }
  cbn [ArchiveCreate.append]. fueled_step. fueled_step.
  destruct (src !! key) as [info|] eqn:Ek; [|auto with crab]. destruct (bool_decide _); [auto with crab|].
  destruct (s_kind info) eqn:Hkind; [..|auto with crab].
  - fueled_steps.
  - fueled_step. fueled_step.
    fueled_step. fueled_step.
    rewrite bool_decide_eq_true_2 by done. apply fueled_enter. intros Hnew.
    pose proof (active_bound active key Hnd Hall Hnew ltac:(by eexists)) as Hlt.
    assert (weight key = 1%nat) as Hw by (unfold weight; by rewrite Ek, Hkind).
    fueled_step. fueled_step.
    apply fueled_visit; [intros child; apply append_active|]. intros child. apply IH.
    + apply NoDup_app. split; [done|]. split; [|apply NoDup_singleton]. intros k Hin ->%list_elem_of_singleton. done.
    + apply Forall_app. split; [done|]. apply Forall_singleton. by eexists.
    + rewrite length_app. cbn. assert (weight child.2 ≤ 2)%nat by (unfold weight; repeat case_match; lia). lia.
  - fueled_step. fueled_step.
    destruct (s_resolves info) as [target|] eqn:Et; [|auto with crab]. fueled_step.
    apply IH; [done|done|]. rewrite (Hresolved _ _ _ Ek Et). unfold weight in Hfuel. rewrite Ek, Hkind in Hfuel.
    rewrite bool_decide_eq_true_2 in Hfuel by done. lia.
Qed.
End termination.

(** ** What creation writes *)

(** The item of a file or directory of the source. *)
Definition item_of (n : snode) (p : path) : item :=
  mkItem p (s_kind n =s Directory) (s_mode n) (s_mtime n) [s_data n].

(** The listing of the file [key], parents first. *)
Fixpoint walk (src : gmap Z snode) (output : option Z) (fuel : nat) (key : Z) (p : path) : list item :=
  match fuel with
  | O => []
  | S fuel =>
      match src !! key with
      | None => []
      | Some n =>
          if bool_decide (output = Some key) then []
          else match s_kind n with
          | Symlink => match s_resolves n with Some target => walk src output fuel target p | None => [] end
          | Special => []
          | Regular => [item_of n p]
          | Directory => item_of n p :: concat ((λ child, walk src output fuel child.2 (p ++ [child.1])%list) <$> s_children n)
          end
      end
  end.

(** Names that a POSIX directory can have. *)
Definition proper_names (src : gmap Z snode) : Prop := ∀ k n, src !! k = Some n →
  Forall (λ child : string * Z, plain child.1 ∧ no_nul child.1) (s_children n) ∧ NoDup (s_children n).*1.

Section emits.
Context (reader : Reader) (src : gmap Z snode) (options : CreateOptions) (limits : ArchiveLimits) (output : option Z).
Context (Hnames : proper_names src) (Hmax : 0 ≤ MaxFileBytes limits).
Local Abbreviation append := (append reader src options limits output).
Local Abbreviation walk := (walk src output).

Definition rendered (it : item) : tar_header * list Z := (item_header it, i_data it).

(** When [m] succeeds it has written the entries of [items], within the limits. *)
Definition emits {A : Type} (m : M copyArchiveCreateState A) (items : list item) : Prop := ∀ st a st',
  m st = (Ok a, st') →
  cr_written st' = (cr_written st ++ (rendered <$> items))%list ∧
  cr_entries st' = cr_entries st + Z.of_nat (length items) ∧
  cr_totalBytes st' = cr_totalBytes st + total_bytes items ∧
  Forall (λ it, zlen (i_data it) ≤ MaxFileBytes limits) items ∧
  (cr_entries st ≤ MaxEntries limits → cr_entries st' ≤ MaxEntries limits) ∧
  (cr_totalBytes st ≤ MaxTotalBytes limits → cr_totalBytes st' ≤ MaxTotalBytes limits).

Definition unwritten (st st' : copyArchiveCreateState) : Prop :=
  cr_written st' = cr_written st ∧ cr_entries st' = cr_entries st ∧ cr_totalBytes st' = cr_totalBytes st.
#[local] Instance unwritten_preorder : PreOrder unwritten.
Proof. split; [done|]. intros x y z (? & ? & ?) (? & ? & ?). split_and!; congruence. Qed.

Lemma emits_nothing {A : Type} (m : M copyArchiveCreateState A) : keeps unwritten m → emits m [].
Proof.
  intros H st a st' E. specialize (H st). rewrite E in H. destruct H as (H1 & H2 & H3). cbn in *.
  rewrite H1, H2, H3, app_nil_r. split_and!; try done; lia.
Qed.
Lemma emits_bind {A B : Type} (m : M copyArchiveCreateState A) (k : A → M copyArchiveCreateState B) items items' :
  emits m items → (∀ a, emits (k a) items') → emits (m ≫= k) (items ++ items')%list.
Proof.
  intros Hm Hk st b st' E. apply M_bind_ok in E as (a & st1 & E1 & E2).
  destruct (Hm _ _ _ E1) as (W1 & N1 & T1 & F1 & L1 & L1'), (Hk _ _ _ _ E2) as (W2 & N2 & T2 & F2 & L2 & L2').
  rewrite W2, W1, N2, N1, T2, T1, fmap_app, <-app_assoc, length_app, total_bytes_app.
  split_and!; [done|lia|lia|by apply Forall_app|..]; intros H.
  - rewrite <-N1, <-N2. auto.
  - rewrite <-T1, <-T2. auto.
Qed.
Lemma emits_then {A B : Type} (m : M copyArchiveCreateState A) (k : A → M copyArchiveCreateState B) items :
  keeps unwritten m → (∀ a, emits (k a) items) → emits (m ≫= k) items.
Proof. intros Hm Hk. apply (emits_bind m k [] items); [by apply emits_nothing|done]. Qed.

Lemma access_unwritten : keeps unwritten (access reader).
Proof. intros st. unfold access. by destruct (rd_fault reader _). Qed.
Hint Resolve access_unwritten : crab.
Lemma verify_unwritten : keeps unwritten (verify reader).
Proof. unfold verify. keeps_steps. Qed.
Lemma active_unwritten active : keeps unwritten (set_active active).
Proof. by intros st. Qed.
Hint Resolve verify_unwritten active_unwritten : crab.

Lemma emits_enter key body items : emits body items → emits (enter key body) items.
Proof.
  intros Hb. unfold enter. apply emits_then; [keeps_steps|]. intros active. apply emits_then; [keeps_steps|]. intros _.
  apply emits_then; [keeps_steps|]. intros _ st a st' E. unfold mbind, M_bind, attempt in E.
  destruct (body st) as [[b|e] st1] eqn:Eb; [|done]. injection E as <- <-. exact (Hb _ _ _ Eb).
Qed.

Lemma emits_visit (visit : string * Z → M copyArchiveCreateState ()) f batches :
  Forall (λ child, emits (visit child) (f child)) (concat batches) →
  emits (readDirectory reader visit batches) (concat (f <$> concat batches)).
Proof.
  induction batches as [|batch batches IH]; intros Hall; cbn [readDirectory concat];
    (apply emits_then; [keeps_steps|]; intros []; apply emits_then; [keeps_steps|]; intros []).
  { by apply emits_nothing. }
  cbn [concat] in Hall. apply Forall_app in Hall as [Hbatch Hrest]. rewrite fmap_app, concat_app.
  apply emits_bind; [|intros []; by apply IH]. clear IH Hrest. induction Hbatch as [|child batch Hc _ IH]; cbn [visit_batch].
  { by apply emits_nothing. }
  apply emits_then; [keeps_steps|]. intros []. apply emits_bind; [done|]. by intros [].
Qed.

Lemma item_of_header n p : s_kind n = Regular ∨ s_kind n = Directory →
  rendered (item_of n p) = (entry_header n (join_slash (ArchivePayloadRoot :: p)), if s_kind n =s Directory then [] else s_data n).
Proof.
  intros H. unfold rendered, item_header, entry_header, i_data. cbn [item_of i_dir i_chunks i_mode i_time].
  fold (item_name (item_of n p)). destruct H as [-> | ->]; [|done].
  rewrite bool_decide_eq_false_2 by done. cbn [concat]. by rewrite app_nil_r.
Qed.

Lemma entry_count_ok n st a st' : count_entry options limits n st = (Ok a, st') →
  cr_written st' = cr_written st ∧ cr_entries st' = cr_entries st + 1 ∧ cr_entries st' ≤ MaxEntries limits ∧
  (s_kind n ≠ Regular ∧ cr_totalBytes st' = cr_totalBytes st ∨
   s_kind n = Regular ∧ zlen (s_data n) ≤ MaxFileBytes limits ∧
   cr_totalBytes st' = cr_totalBytes st + zlen (s_data n) ∧ cr_totalBytes st' ≤ MaxTotalBytes limits).
Proof.
  unfold count_entry. intros E. apply M_bind_ok in E as ([] & st1 & [= <-] & E).
  apply M_bind_ok in E as (entries & st2 & [= <- <-] & E). apply ensure_bind_ok in E as [Hent%Z.leb_le E]. cbn in Hent.
  destruct (decide (s_kind n = Regular)) as [Hk|Hk].
  - rewrite bool_decide_eq_true_2 in E by done. apply ensure_bind_ok in E as [_ E]. apply ensure_bind_ok in E as [Hfile%Z.leb_le E].
    apply M_bind_ok in E as (total & st3 & [= <- <-] & E). apply ensure_bind_ok in E as [Htot%Z.leb_le E].
    injection E as _ <-. cbn in *. do 3 (split; [done|]). right. do 3 (split; [done|]). lia.
  - rewrite bool_decide_eq_false_2 in E by done. injection E as _ <-. cbn. split_and!; [done..|by left].
Qed.

Lemma write_ok n name st a st' : write_entry reader n name st = (Ok a, st') →
  cr_written st' = (cr_written st ++ [(entry_header n name, if s_kind n =s Directory then [] else s_data n)])%list ∧
  cr_entries st' = cr_entries st ∧ cr_totalBytes st' = cr_totalBytes st.
Proof.
  unfold write_entry. intros E. apply M_bind_ok in E as ([] & st1 & E1 & E). apply M_bind_ok in E as ([] & st2 & E2 & E).
  assert (unwritten st st1) as (W1 & N1 & T1) by (pose proof (access_unwritten st) as H; by rewrite E1 in H).
  assert (unwritten st1 st2) as (W2 & N2 & T2).
  { assert (keeps unwritten (if s_kind n =s Regular then access reader;; verify reader else mret ())) as H by keeps_steps.
    specialize (H st1). by rewrite E2 in H. }
  injection E as _ <-. cbn. split_and!; congruence.
Qed.

(** One entry is counted and written. *)
Lemma emits_entry {B : Type} n p (k : M copyArchiveCreateState B) items : s_kind n = Regular ∨ s_kind n = Directory →
  emits k items →
  emits (count_entry options limits n;; write_entry reader n (join_slash (ArchivePayloadRoot :: p));; k) (item_of n p :: items).
Proof.
  intros Hkind Hk. change (item_of n p :: items) with ([item_of n p] ++ items)%list. intros st b st' E.
  apply M_bind_ok in E as (a & st1 & E1 & E). apply M_bind_ok in E as (a' & st2 & E2 & E).
  apply entry_count_ok in E1 as (W1 & N1 & L1 & T1). apply write_ok in E2 as (W2 & N2 & T2).
  rewrite <-item_of_header in W2 by done. destruct (Hk _ _ _ E) as (W3 & N3 & T3 & F3 & L3 & L3').
  assert (zlen (i_data (item_of n p)) ≤ MaxFileBytes limits ∧ cr_totalBytes st2 = cr_totalBytes st + zlen (i_data (item_of n p)) ∧
    (cr_totalBytes st ≤ MaxTotalBytes limits → cr_totalBytes st2 ≤ MaxTotalBytes limits)) as (F & T & L).
  { unfold i_data. cbn [item_of i_dir i_chunks concat]. rewrite app_nil_r. destruct T1 as [[Hne T1]|(Hreg & Hf & T1 & Hm)].
    - destruct Hkind as [?|Hkind]; [done|]. rewrite Hkind, bool_decide_eq_true_2 by done. unfold zlen. cbn [length Z.of_nat]. split; [done|]. split; [rewrite T2, T1; lia|intros H; rewrite T2, T1; exact H].
    - rewrite Hreg, bool_decide_eq_false_2 by done. split_and!; [done|lia|lia]. }
  rewrite W3, W2, W1, fmap_app, <-app_assoc. split_and!; [done|rewrite length_app; cbn [length]; lia| |by constructor|..].
  - rewrite total_bytes_app. unfold total_bytes at 1. cbn [foldr]. lia.
  - intros H. apply L3. lia.
  - intros H. by apply L3', L.
Qed.

Lemma emits_append fuel : ∀ key p, Forall plain p →
  emits (append fuel key (join_slash (ArchivePayloadRoot :: p))) (walk fuel key p).
Proof.
  induction fuel as [|fuel IH]; intros key p Hp; cbn [ArchiveCreate.append ArchiveRoundTrip.walk].
  { by intros st a st' E. }
  apply emits_then; [keeps_steps|]. intros []. apply emits_then; [keeps_steps|]. intros [].
  destruct (src !! key) as [n|] eqn:En; [|by intros st a st' E]. destruct (bool_decide _); [by apply emits_nothing|].
  destruct (s_kind n) eqn:Hk; [..|by intros st a st' E].
  - do 2 (apply emits_then; [keeps_steps|]; intros []). apply emits_entry; [by left|]. by apply emits_nothing.
  - do 2 (apply emits_then; [keeps_steps|]; intros []). apply emits_entry; [by right|].
    rewrite bool_decide_eq_true_2 by done. apply emits_enter. do 2 (apply emits_then; [keeps_steps|]; intros []).
    apply emits_visit. destruct (Hnames _ _ En) as [Hchildren _]. eapply Forall_impl; [exact Hchildren|].
    intros [x c] [Hx _]. cbn [fst snd].
    assert (path_Join (join_slash (ArchivePayloadRoot :: p)) x = join_slash (ArchivePayloadRoot :: (p ++ [x])%list)) as ->.
    { apply (Join_relative (ArchivePayloadRoot :: p)); [done|constructor; [apply payload_plain|done]|done]. }
    apply IH. apply Forall_app. split; [done|by apply Forall_singleton].
  - do 2 (apply emits_then; [keeps_steps|]; intros []). destruct (s_resolves n) as [target|]; [|by intros st a st' E].
    apply emits_then; [keeps_steps|]. intros []. by apply IH.
Qed.
End emits.

(** ** The listing *)

Lemma parents_first_app items items' : ∀ done,
  parents_first done items → parents_first (done ++ items)%list items' → parents_first done (items ++ items')%list.
Proof.
  induction items as [|it items IH]; intros before H H'; [by rewrite app_nil_r in H'|]. destruct H as [Hf H].
  split; [done|]. apply IH; [done|]. by rewrite <-app_assoc.
Qed.

Section listing.
Context (src : gmap Z snode) (output : option Z) (Hnames : proper_names src).
Local Abbreviation walk := (walk src output).

(** Items of a listing lie beneath its place. *)
Lemma walk_beneath fuel : ∀ key p, Forall (λ it, is_Some (strip p (i_path it))) (walk fuel key p).
Proof.
  induction fuel as [|fuel IH]; intros key p; cbn; [done|]. destruct (src !! key) as [n|]; [|done].
  destruct (bool_decide _); [done|]. assert (is_Some (strip p (i_path (item_of n p)))) as Hself.
  { exists []. apply strip_Some. cbn. by rewrite app_nil_r. }
  destruct (s_kind n); [by apply Forall_singleton| |by destruct (s_resolves n)|done]. constructor; [done|].
  apply Forall_concat, Forall_fmap, Forall_true. intros [x c]. cbn. eapply Forall_impl; [apply IH|].
  intros it [q Hq%strip_Some]. exists ([x] ++ q)%list. apply strip_Some. by rewrite Hq, <-app_assoc.
Qed.

(** Names and paths of the items. *)
Definition outside (p : path) (done : list item) : Prop := Forall (λ it, strip p (i_path it) = None) done.

Lemma beneath_sibling (p : path) x y q : x ≠ y → is_Some (strip (p ++ [x])%list q) → strip (p ++ [y])%list q = None.
Proof.
  intros Hne [s ->%strip_Some]. apply strip_None. intros s'. rewrite <-!app_assoc. intros E%app_inv_head.
  cbn in E. congruence.
Qed.
Lemma above_child (p : path) x : strip (p ++ [x])%list p = None.
Proof.
  apply strip_None. intros s E. apply (f_equal length) in E. rewrite !length_app in E. cbn in E. lia.
Qed.

(** The entries of a directory, one after the other. *)
Lemma children_first (f : string * Z → list item) p d children :
  i_dir d = true → i_path d = p → Forall plain p → Forall no_nul p →
  Forall (λ child : string * Z, plain child.1 ∧ no_nul child.1) children → NoDup children.*1 →
  (∀ child, Forall (λ it, is_Some (strip (p ++ [child.1])%list (i_path it))) (f child)) →
  (∀ child done, child ∈ children → d ∈ done → outside (p ++ [child.1])%list done → parents_first done (f child)) →
  ∀ done, d ∈ done → Forall (λ child : string * Z, outside (p ++ [child.1])%list done) children →
  parents_first done (concat (f <$> children)).
Proof.
  intros Hd Hpath Hp Hn Hch Hnd Hbelow Hf. induction children as [|[x c] children IH]; [by intros|]; intros before Hin Hout.
  cbn. apply Forall_cons in Hch as [_ Hch]. apply Forall_cons in Hout as [Hx Hout]. cbn in Hnd. apply NoDup_cons in Hnd as [Hxn Hnd].
  apply parents_first_app; [apply Hf; [by left|done|done]|]. apply IH; [done|done|..].
  - intros child done' Hc. apply Hf. by right.
  - apply elem_of_app. by left.
  - apply Forall_forall. intros [y c'] Hy. apply Forall_app. rewrite Forall_forall in Hout. split; [by apply (Hout (y, c'))|].
    eapply Forall_impl; [apply (Hbelow (x, c))|]. cbn. intros it. apply beneath_sibling. intros <-. apply Hxn.
    apply list_elem_of_fmap. by exists (x, c').
Qed.

Lemma walk_first fuel : ∀ key p done,
  Forall plain p → Forall no_nul p → (p = [] ∨ ∃ d, d ∈ done ∧ i_dir d = true ∧ i_path d = parent_of p) →
  outside p done → parents_first done (walk fuel key p).
Proof.
  induction fuel as [|fuel IH]; [by intros|]. intros key p before Hp Hn Hpar Hout. cbn.
  destruct (src !! key) as [n|] eqn:En; [|done]. destruct (bool_decide _); [done|].
  assert (may_follow before (item_of n p)) as Hself.
  { split; [done|]. split; [done|]. split; [|done]. intros (it & E & Hin)%list_elem_of_fmap.
    unfold outside in Hout. rewrite Forall_forall in Hout. specialize (Hout it Hin). cbn in E. rewrite <-E in Hout.
    assert (strip p p = Some []) by (apply strip_Some; by rewrite app_nil_r). congruence. }
  destruct (s_kind n) eqn:Hk; [done| |by destruct (s_resolves n); [apply IH|]|done]. split; [done|].
  assert (i_dir (item_of n p) = true) as Hd by (cbn; by rewrite Hk).
  destruct (Hnames _ _ En) as [Hch Hnd].
  apply (children_first _ p (item_of n p)); try done.
  - intros child. apply walk_beneath.
  - intros child done' Hc Hin Hout'. rewrite Forall_forall in Hch. destruct (Hch child Hc) as [Hx Hx'].
    apply IH; [apply Forall_app; split; [done|by apply Forall_singleton]..| |done].
    right. exists (item_of n p). split; [done|]. split; [done|]. by rewrite parent_of_snoc.
  - apply elem_of_app. right. by left.
  - apply Forall_forall. intros child _. apply Forall_app. split.
    + eapply Forall_impl; [exact Hout|]. intros it Hit. apply strip_None. intros s E. cbn in Hit. rewrite E, <-app_assoc in Hit.
      by rewrite strip_app in Hit.
    + apply Forall_singleton. apply above_child.
Qed.
End listing.

(** ** What a source holds *)

(** [reaches key p k]: the path [p] from [key], links followed, names the file
    or directory [k]. *)
Inductive reaches (src : gmap Z snode) (output : option Z) : Z → path → Z → Prop :=
  | reaches_here key n :
      src !! key = Some n → output ≠ Some key → s_kind n = Regular ∨ s_kind n = Directory →
      reaches src output key [] key
  | reaches_link key n target p k :
      src !! key = Some n → output ≠ Some key → s_kind n = Symlink → s_resolves n = Some target →
      reaches src output target p k → reaches src output key p k
  | reaches_child key n x c p k :
      src !! key = Some n → output ≠ Some key → s_kind n = Directory → (x, c) ∈ s_children n →
      reaches src output c p k → reaches src output key (x :: p) k.

Lemma walk_sound src output fuel : ∀ key p it, it ∈ walk src output fuel key p →
  ∃ q k n, reaches src output key q k ∧ src !! k = Some n ∧ it = item_of n (p ++ q)%list.
Proof.
  induction fuel as [|fuel IH]; intros key p it; [by intros ?%elem_of_nil|]. cbn.
  destruct (src !! key) as [n|] eqn:En; [|by intros ?%elem_of_nil]. case_bool_decide as Ho; [by intros ?%elem_of_nil|].
  destruct (s_kind n) eqn:Hk; [..|by intros ?%elem_of_nil].
  - intros ->%list_elem_of_singleton. exists [], key, n. rewrite app_nil_r. split; [|done]. econstructor; eauto.
  - intros [->|Hin]%elem_of_cons; [exists [], key, n; rewrite app_nil_r; split; [|done]; econstructor; eauto|].
    apply list_elem_of_In, in_concat in Hin as (items & Hin & Hit). apply list_elem_of_In in Hit, Hin.
    apply list_elem_of_fmap in Hin as ([x c] & -> & Hc). destruct (IH _ _ _ Hit) as (q & k & n' & Hr & En' & ->).
    exists (x :: q), k, n'. split; [|split; [done|by rewrite <-app_assoc]]. econstructor 3; eauto.
  - destruct (s_resolves n) as [target|] eqn:Et; [|by intros ?%elem_of_nil]. intros (q & k & n' & Hr & En' & ->)%IH.
    exists q, k, n'. split; [|done]. econstructor 2; eauto.
Qed.

Section complete.
Context (reader : Reader) (src : gmap Z snode) (options : CreateOptions) (limits : ArchiveLimits) (output : option Z).
Local Abbreviation append := (append reader src options limits output).

(** Every entry of a directory that was read was visited. *)
Lemma visited (visit : string * Z → M copyArchiveCreateState ()) batches child : ∀ st st',
  readDirectory reader visit batches st = (Ok (), st') → child ∈ concat batches →
  ∃ st1 st2, visit child st1 = (Ok (), st2).
Proof.
  induction batches as [|batch batches IH]; intros st st' E Hin; [by apply elem_of_nil in Hin|]. cbn [readDirectory] in E.
  apply M_bind_ok in E as ([] & st1 & _ & E). apply M_bind_ok in E as ([] & st2 & _ & E).
  apply M_bind_ok in E as ([] & st3 & E1 & E2). cbn in Hin. apply elem_of_app in Hin as [Hin|Hin]; [|by eapply IH].
  clear E2 IH. revert st2 E1. induction batch as [|child' batch IH]; intros st2 E1; [by apply elem_of_nil in Hin|].
  cbn [visit_batch] in E1. apply M_bind_ok in E1 as ([] & st4 & _ & E). apply M_bind_ok in E as ([] & st5 & E5 & E6).
  apply elem_of_cons in Hin as [->|Hin]; [by eauto|by eapply IH].
Qed.

Lemma walk_complete fuel : ∀ key name st st' p q k,
  append fuel key name st = (Ok (), st') → reaches src output key q k →
  ∃ n, src !! k = Some n ∧ item_of n (p ++ q)%list ∈ walk src output fuel key p.
Proof.
  induction fuel as [|fuel IH]; intros key name st st' p q k E Hr; [done|]. cbn [ArchiveCreate.append] in E.
  apply M_bind_ok in E as ([] & st1 & _ & E). apply M_bind_ok in E as ([] & st2 & _ & E). cbn [walk].
  destruct Hr as [key n En Ho Hk|key n target p' k En Ho Hk Et Hr|key n x c p' k En Ho Hk Hc Hr];
    rewrite En in E |- *; rewrite bool_decide_eq_false_2 in E |- * by done.
  - exists n. split; [done|]. rewrite app_nil_r. destruct Hk as [Hk|Hk]; rewrite Hk; by left.
  - rewrite Hk, Et in *. apply M_bind_ok in E as ([] & st3 & _ & E). apply M_bind_ok in E as ([] & st4 & _ & E).
    apply M_bind_ok in E as ([] & st5 & _ & E). by eapply IH.
  - rewrite Hk in *. apply M_bind_ok in E as ([] & st3 & _ & E). apply M_bind_ok in E as ([] & st4 & _ & E).
    apply M_bind_ok in E as ([] & st5 & _ & E). apply M_bind_ok in E as ([] & st6 & _ & E).
    rewrite bool_decide_eq_true_2 in E by done. unfold enter in E.
    apply M_bind_ok in E as (active & st7 & _ & E). apply M_bind_ok in E as ([] & st8 & _ & E).
    apply M_bind_ok in E as ([] & st9 & _ & E). unfold mbind at 1, M_bind at 1, attempt in E.
    destruct ((access reader;; verify reader;; _) st9) as [[[]|e] st10] eqn:Eb; [|done].
    apply M_bind_ok in Eb as ([] & st11 & _ & Eb). apply M_bind_ok in Eb as ([] & st12 & _ & Eb).
    destruct (visited _ _ _ _ _ Eb Hc) as (st13 & st14 & Ec).
    destruct (IH _ _ _ _ (p ++ [x])%list _ _ Ec Hr) as (n' & En' & Hin). exists n'. split; [done|]. right.
    apply list_elem_of_In, in_concat. exists (walk src output fuel c (p ++ [x])%list).
    split; apply list_elem_of_In; [|by rewrite <-app_assoc in Hin].
    apply list_elem_of_fmap. by exists (x, c).
Qed.
End complete.

(** ** Through the stream *)

(** The stream delivers what was written, in any reads, undamaged and within
    the size limits. *)
Record delivers (limits : ArchiveLimits) (written : list (tar_header * list Z)) (stream : Stream) : Prop := mkDelivers {
  dl_entries : Forall2 (λ w next, ∃ chunks, next = Entry w.1 chunks None ∧ concat chunks = w.2) written (st_entries stream);
  dl_gzip : st_gzip stream = None;
  dl_checksum : st_checksum stream = None;
  dl_close : st_close stream = None;
  dl_after : st_after stream = None;
  dl_zeros : Forall (λ b, b = 0) (concat (st_trailer stream));
  dl_size : 0 ≤ st_consumed stream + zlen (concat (st_trailer stream)) ≤ MaxTotalBytes limits + MaxEntries limits * 4096 + 2 ^ 20;
  dl_compressed : st_compressed stream ≤ MaxCompressedBytes limits }.

Definition alike (it it' : item) : Prop :=
  i_path it = i_path it' ∧ i_dir it = i_dir it' ∧ i_mode it = i_mode it' ∧ i_time it = i_time it' ∧ i_data it = i_data it'.

Lemma delivered_items items entries :
  Forall2 (λ w next, ∃ chunks, next = Entry w.1 chunks None ∧ concat chunks = w.2) (rendered <$> items) entries →
  ∃ items', entries = item_entry <$> items' ∧ Forall2 alike items items'.
Proof.
  revert entries. induction items as [|it items IH]; intros entries H.
  - apply Forall2_nil_inv_l in H as ->. by exists [].
  - apply Forall2_cons_inv_l in H as (next & entries' & (chunks & -> & Hc) & H & ->).
    destruct (IH _ H) as (items' & -> & Hs).
    set (it' := mkItem (i_path it) (i_dir it) (i_mode it) (i_time it) chunks).
    assert (i_data it = i_data it') as Hdata.
    { unfold i_data. cbn [it' i_dir i_chunks]. destruct (i_dir it) eqn:Hd; [done|]. rewrite Hc. cbn. unfold i_data. by rewrite Hd. }
    exists (it' :: items'). split; [|by constructor].
    cbn [fmap list_fmap]. f_equal. unfold item_entry, rendered, item_header. by rewrite Hdata.
Qed.

Lemma alike_paths items items' : Forall2 alike items items' → i_path <$> items = i_path <$> items'.
Proof. induction 1 as [|it it' items items' (E & _) _ IH]; [done|]. cbn. by rewrite E, IH. Qed.
Lemma alike_elem items items' it : Forall2 alike items items' → it ∈ items → ∃ it', it' ∈ items' ∧ alike it it'.
Proof.
  induction 1 as [|it0 it' items items' Ha _ IH]; [by intros ?%elem_of_nil|].
  intros [->|Hin]%elem_of_cons; [exists it'; split; [by left|done]|]. destruct (IH Hin) as (i & ? & ?). exists i. split; [by right|done].
Qed.

Lemma alike_back items items' it' : Forall2 alike items items' → it' ∈ items' → ∃ it, it ∈ items ∧ alike it it'.
Proof.
  induction 1 as [|it it0 items items' Ha _ IH]; [by intros ?%elem_of_nil|].
  intros [->|Hin]%elem_of_cons; [exists it; split; [by left|done]|]. destruct (IH Hin) as (i & ? & ?). exists i. split; [by right|done].
Qed.

Lemma alike_first items items' : Forall2 alike items items' → ∀ before before',
  Forall2 alike before before' → parents_first before items → parents_first before' items'.
Proof.
  induction 1 as [|it it' items items' Ha H IH]; intros before before' Hb; [done|]. intros [Hf Hpf].
  pose proof Ha as (E1 & E2 & E3).
  assert (may_follow before' it') as Hf'.
  { destruct Hf as (Hp & Hn & Hnew & Hpar). unfold may_follow. rewrite <-E1, <-(alike_paths _ _ Hb).
    split; [done|]. split; [done|]. split; [done|]. destruct Hpar as [?|(d & Hin & Hd & Ed)]; [by left|right].
    destruct (alike_elem _ _ d Hb Hin) as (d' & Hin' & (Ep & Edir & _)). exists d'. split_and!; [done|congruence|congruence]. }
  split; [done|]. apply (IH (before ++ [it])%list); [|done]. apply Forall2_app; [done|]. constructor; [done|constructor].
Qed.

Lemma alike_sizes items items' : Forall2 alike items items' →
  length items = length items' ∧ total_bytes items = total_bytes items' ∧
  (∀ b, Forall (λ it, zlen (i_data it) ≤ b) items → Forall (λ it, zlen (i_data it) ≤ b) items').
Proof.
  induction 1 as [|it it' items items' (_ & _ & _ & _ & E) _ (IH1 & IH2 & IH3)]; [done|]. split_and!.
  - cbn. by rewrite IH1.
  - unfold total_bytes in *. cbn. by rewrite E, IH2.
  - intros b [H1 H2]%Forall_cons. constructor; [by rewrite <-E|by apply IH3].
Qed.

(** ** The round trip *)

Definition start_creation : copyArchiveCreateState := mkCreation 0 0 [] [] 0.

(** The copy of a file or directory: kind, contents, time and permissions. *)
Definition copied (host : Host) (preserve : bool) (n : snode) (m : node) : Prop :=
  n_kind m = s_kind n ∧ n_data m = (if s_kind n =s Directory then [] else s_data n) ∧ n_mtime m = s_mtime n ∧
  n_mode m = (if preserve then Z.land (s_mode n) (octal 7 7 7)
              else Z.ldiff (if s_kind n =s Directory then octal 7 5 5 else octal 6 4 4) (h_umask host)).

Lemma finished reader limits compressed st written st' :
  finish_payload reader limits compressed st = (Ok written, st') → written = cr_written st.
Proof.
  unfold finish_payload. pose proof (access_unwritten reader) as Hu. intros E.
  apply M_bind_ok in E as ([] & s1 & E1 & E). apply M_bind_ok in E as ([] & s2 & E2 & E).
  apply M_bind_ok in E as ([] & s3 & E3 & E). apply M_bind_ok in E as ([] & s4 & E4 & E).
  apply ensure_bind_ok in E as [_ E]. apply M_bind_ok in E as ([] & s5 & E5 & E). injection E as <- <-.
  pose proof (Hu st) as (W1 & _). pose proof (Hu s1) as (W2 & _). pose proof (Hu s2) as (W3 & _).
  pose proof (Hu s3) as (W4 & _). pose proof (Hu s4) as (W5 & _).
  rewrite E1 in W1. rewrite E2 in W2. rewrite E3 in W3. rewrite E4 in W4. rewrite E5 in W5. cbn in *. congruence.
Qed.

(** What creation promises to extraction. *)
Lemma created reader src options limits output fuel key compressed written st' :
  proper_names src →
  create_payload reader src options limits output fuel key compressed start_creation = (Ok written, st') →
  validate limits = true ∧ written = rendered <$> walk src output fuel key [] ∧
  Z.of_nat (length (walk src output fuel key [])) ≤ MaxEntries limits ∧
  Forall (λ it, zlen (i_data it) ≤ MaxFileBytes limits) (walk src output fuel key []) ∧
  total_bytes (walk src output fuel key []) ≤ MaxTotalBytes limits ∧
  (∀ q k, reaches src output key q k → ∃ n, src !! k = Some n ∧ item_of n q ∈ walk src output fuel key []).
Proof.
  intros Hn E. apply ensure_bind_ok in E as [Hv E]. split; [done|].
  assert (0 ≤ MaxFileBytes limits ∧ 0 ≤ MaxEntries limits ∧ 0 ≤ MaxTotalBytes limits) as (Hf & He & Ht).
  { unfold validate in Hv. rewrite negb_true_iff, !orb_false_iff in Hv. lia. }
  apply M_bind_ok in E as ([] & st0 & E0 & E). apply M_bind_ok in E as ([] & st1 & E1 & E).
  pose proof (access_unwritten reader start_creation) as H0. rewrite E0 in H0. destruct H0 as (W0 & N0 & T0).
  pose proof (verify_unwritten reader st0) as H1. rewrite E1 in H1. destruct H1 as (W & N & T). cbn in W, N, T, W0, N0, T0.
  rewrite W0 in W. rewrite N0 in N. rewrite T0 in T. apply M_bind_ok in E as ([] & st2 & E2 & E).
  destruct (emits_append reader src options limits output Hn Hf fuel key [] ltac:(constructor) _ _ _ E2)
    as (W2 & N2 & T2 & F2 & L2 & L2'). rewrite W, N, T in *. cbn in W2. apply finished in E.
  split; [congruence|]. specialize (L2 He). specialize (L2' Ht).
  split; [lia|]. split; [done|]. split; [lia|]. intros q k Hr.
  exact (walk_complete reader src options limits output fuel key _ _ _ [] q k E2 Hr).
Qed.

Lemma reaches_kind src output key p k n :
  reaches src output key p k → src !! k = Some n → s_kind n = Regular ∨ s_kind n = Directory.
Proof. induction 1; intros; [congruence|auto|auto]. Qed.

Lemma final_copied host preserve n p it m : s_kind n = Regular ∨ s_kind n = Directory →
  alike (item_of n p) it → final host preserve it m → copied host preserve n m.
Proof.
  intros Hkind (_ & Ed & Em & Et & Edata) (Hk & Hd & Hm & Hti). unfold final_mode in Hm.
  rewrite <-Ed in Hk, Hm. rewrite <-Edata in Hd. rewrite <-Em in Hm. rewrite <-Et in Hti. unfold i_data in Hd.
  cbn [item_of i_dir i_mode i_time i_chunks concat] in *. rewrite app_nil_r in Hd.
  split; [|split_and!; [done|done|by destruct preserve]]. rewrite Hk. by destruct Hkind as [-> | ->].
Qed.

(** C11. A tree copied through an archive arrives unchanged: when an archive of
    a source is created (links followed or refused, any file read call by call)
    and the stream delivers it undamaged, extraction into a fresh stage, where
    no call fails, succeeds; every file and directory the source holds is then
    at its path beneath the payload with its kind, contents, modification time
    and permissions, and nothing else is there. *)
Theorem copy_round_trip reader src options limits output fuel key compressed written st' stream host preserve stage s :
  proper_names src →
  create_payload reader src options limits output fuel key compressed start_creation = (Ok written, st') →
  written ≠ [] → delivers limits written stream →
  calm host → (∀ n n', inode_id host n = inode_id host n' → n = n') →
  IsAbs stage = true → fs_alive s = true → is_directory (fs_tree s) (components stage) = true →
  free (fs_tree s) (components stage ++ [ArchivePayloadRoot])%list →
  ∃ s', ExtractArchive host preserve limits stream stage ArchivePayloadRoot s = (Ok (), s') ∧
    (∀ p k n, reaches src output key p k → src !! k = Some n →
       ∃ m, fs_tree s' !! (components stage ++ ArchivePayloadRoot :: p)%list = Some m ∧ copied host preserve n m) ∧
    (∀ p m, fs_tree s' !! (components stage ++ ArchivePayloadRoot :: p)%list = Some m → ∃ k, reaches src output key p k).
Proof.
  intros Hnames Hcreate Hne Hdel Hcalm Hino Habs Ha Hdir Hfree.
  destruct (created _ _ _ _ _ _ _ _ _ _ Hnames Hcreate) as (Hv & -> & Hlen & Hfiles & Htot & Hall).
  destruct (delivered_items _ _ (dl_entries _ _ _ Hdel)) as (items & Hentries & Halike).
  destruct (alike_sizes _ _ Halike) as (El & Et & Ef).
  assert (intact limits items stream) as Hin by (by destruct Hdel).
  assert (parents_first [] items) as Hpf.
  { eapply alike_first; [exact Halike|constructor|]. by apply walk_first; [..|left|constructor]. }
  destruct (total_extract host Hcalm preserve limits stage Habs Hino items stream) with (s := s) as ([] & s' & E & Hr); try done.
  - intros ->. apply Forall2_nil_inv_r in Halike. by rewrite Halike in Hne.
  - by rewrite <-El.
  - by apply Ef.
  - by rewrite <-Et.
  - exists s'. split; [done|]. change (ArchivePayloadRoot :: ?p) with ([ArchivePayloadRoot] ++ p)%list.
    setoid_rewrite app_assoc. split.
    + intros p k n Hreach En. destruct (Hall p k Hreach) as (n' & En' & Hit). assert (n' = n) as -> by congruence.
      destruct (alike_elem _ _ _ Halike Hit) as (it' & Hit' & Hal).
      destruct (rs_items _ _ _ _ _ _ Hr it' Hit') as (m & Em & [[[]%elem_of_nil _]|[_ Hfinal]]).
      exists m. split; [destruct Hal as [Ep _]; cbn in Ep; by rewrite Ep|]. eapply final_copied; [by eapply reaches_kind|done..].
    + intros p m Em. destruct (rs_only _ _ _ _ _ _ Hr p m Em) as (it' & Hit' & <-).
      destruct (alike_back _ _ it' Halike Hit') as (it & Hit & (<- & _)).
      destruct (walk_sound _ _ _ _ _ _ Hit) as (q & k & n & Hreach & _ & ->). by exists k.
Qed.

(** C12. Creating an archive terminates, whatever links the source has and
    whatever fails while it is read: a recursion of twice as many levels as the
    source has files is enough, since a directory met again while it is being
    visited is refused as a cycle. *)
Theorem create_terminates reader src options limits output key compressed st fuel :
  (∀ n, rd_fault reader n ≠ Some out_of_fuel) →
  (∀ k n t, src !! k = Some n → s_resolves n = Some t → weight src t = 1%nat) →
  cr_activeDirs st = [] → (2 * size src + 2 ≤ fuel)%nat →
  (create_payload reader src options limits output fuel key compressed st).1 ≠ Err out_of_fuel.
Proof.
  intros Hfault Hres Hact Hfuel.
  assert (fueled [] (create_payload reader src options limits output fuel key compressed)) as H; [|by apply H].
  assert (keeps same_active (verify reader)) by apply verify_active.
  assert (keeps same_active (access reader)) by apply access_active.
  assert (∀ (A : Type) (k : () → M copyArchiveCreateState A), fueled [] (k ()) → fueled [] (access reader ≫= k)) as Hacc.
  { intros A k Hk. apply fueled_bind; [done|by apply fueled_access|by intros []]. }
  unfold create_payload. apply fueled_bind; [apply keeps_ensure; apply _|apply fueled_ensure|intros []]. apply Hacc.
  apply fueled_bind; [done|by apply fueled_verify|intros []].
  apply fueled_bind; [apply append_active| |intros []].
  { apply fueled_append; [done|done|constructor|constructor|]. cbn.
    assert (weight src key ≤ 2)%nat by (unfold weight; repeat case_match; lia). lia. }
  unfold finish_payload. do 4 apply Hacc.
  apply fueled_bind; [apply keeps_ensure; apply _|apply fueled_ensure|intros []]. apply Hacc. apply fueled_gets.
Qed.

(** ** Examples *)

(** A directory with a file, a directory and a link to that directory. *)
Definition example_source : gmap Z snode := list_to_map [
  (1, mkSource Directory (octal 7 5 0) 11 2 [] [[("a", 2); ("d", 3)]; [("l", 4)]] None);
  (2, mkSource Regular (octal 6 4 0) 12 1 [1; 2] [] None);
  (3, mkSource Directory (octal 7 0 0) 13 2 [] [[("b", 5)]] None);
  (4, mkSource Symlink (octal 7 7 7) 14 1 [] [] (Some 3));
  (5, mkSource Regular (octal 7 5 5) 15 1 [7] [] None)].
Definition steady : Reader := mkReader (λ _, None) (λ _, false).
Definition following : CreateOptions := mkCreateOptions true false.
Definition example_creation :=
  create_payload steady example_source following small_limits None 12 1 300 start_creation.
Definition example_written : list (tar_header * list Z) :=
  match example_creation.1 with Ok written => written | Err _ => [] end.
Definition example_stream : Stream :=
  mkStream None ((λ w, Entry w.1 [w.2] None) <$> example_written) 5000 [[0; 0]] None None None 300.

#[export] Instance no_nul_dec x : Decision (no_nul x).
Proof. unfold no_nul. apply _. Defined.
Lemma proper_check (src : gmap Z snode) :
  bool_decide (map_Forall (λ _ n, Forall (λ child : string * Z, plain child.1 ∧ no_nul child.1) (s_children n) ∧
                                  NoDup (s_children n).*1) src) = true → proper_names src.
Proof. intros H%bool_decide_eq_true k n E. exact (H k n E). Qed.

Lemma quiet_inodes n n' : inode_id quiet_host n = inode_id quiet_host n' → n = n'.
Proof.
  unfold inode_id. cbn [quiet_host h_inode fst snd]. intros E. apply (inj (String.append _)) in E.
  apply (inj (String.append ":")) in E. apply FormatInt_inj in E; lia.
Qed.

Lemma copy_round_trip_witness :
  length example_written = 6%nat ∧
  ∃ s', ExtractArchive quiet_host true small_limits example_stream "/srv/stage" ArchivePayloadRoot staged_state = (Ok (), s') ∧
    (∀ p k n, reaches example_source None 1 p k → example_source !! k = Some n →
       ∃ m, fs_tree s' !! (components "/srv/stage" ++ ArchivePayloadRoot :: p)%list = Some m ∧ copied quiet_host true n m) ∧
    (∀ p m, fs_tree s' !! (components "/srv/stage" ++ ArchivePayloadRoot :: p)%list = Some m →
       ∃ k, reaches example_source None 1 p k).
Proof.
  split; [vm_compute; reflexivity|].
  apply (copy_round_trip steady example_source following small_limits None 12 1 300 example_written example_creation.2
           example_stream quiet_host true "/srv/stage" staged_state).
  - apply proper_check. vm_compute. reflexivity.
  - vm_compute. reflexivity.
  - vm_compute. discriminate.
  - split; try reflexivity.
    + apply Forall2_fmap_r, Forall_Forall2_diag, Forall_true. intros w. exists [w.2]. split; [reflexivity|]. apply app_nil_r.
    + repeat constructor.
    + vm_compute. split; discriminate.
    + vm_compute. discriminate.
  - intros n. reflexivity.
  - exact quiet_inodes.
  - reflexivity.
  - reflexivity.
  - reflexivity.
  - apply (wf_free (fs_tree staged_state)); [apply wf_check; vm_compute; reflexivity|reflexivity|discriminate].
Defined.

(** A link back to the directory that holds it. *)
Definition cyclic_source : gmap Z snode := list_to_map [
  (1, mkSource Directory (octal 7 5 0) 11 2 [] [[("up", 2)]] None);
  (2, mkSource Symlink (octal 7 7 7) 14 1 [] [] (Some 1))].

Lemma create_terminates_witness :
  (create_payload steady cyclic_source following small_limits None 6 1 300 start_creation).1
    = Err (Msg "copy source symlink cycle at %s") ∧
  (create_payload steady cyclic_source following small_limits None 6 1 300 start_creation).1 ≠ Err out_of_fuel.
Proof.
  split; [vm_compute; reflexivity|]. apply (create_terminates steady cyclic_source).
  - discriminate.
  - intros k n t. unfold cyclic_source. cbn [list_to_map foldr].
    intros [[<- <-]|[_ E]]%lookup_insert_Some; [discriminate|].
    apply lookup_insert_Some in E as [[<- <-]|[_ E]]; [|by rewrite lookup_empty in E]. intros [= <-]. vm_compute. reflexivity.
  - reflexivity.
  - vm_compute. lia.
Defined.
