(* ===== verification/RunnerServer.v ===== *)
(** * The runner's two ends ([runner/server.go], [runner/client.go])

    The helper on the box serves one operation: it says who it is, reads a
    request, does what is asked, and answers with files and an outcome or with
    an error.  The archive operations are those of an interface, [ArchiveFS];
    collecting results is [RunnerResults.CollectResults]. *)

From Stdlib Require Import ZArith Lia.
From stdpp Require Import gmap strings prelude.
From S2P Require Import Prelude GoText GoPath GoJson GoIO GoTime ArchiveCopy RunnerWire RunnerProtocol RunnerCodec RunnerResults.
Local Open Scope Z_scope.

(** ** Sending frames *)

(** The metadata of a frame: checked, then marshalled. *)
Definition metadata {A} `{Encoded A} (a : A) : res (list Z) :=
  validateMetadataText a;;
  v ← marshal a;
  Ok (print v).
Definition no_metadata : res (list Z) := Ok [].

(** [writeFrame] *)
Definition writeFrame (kind : string) (meta : res (list Z)) (size : Z) (body : option chunked) : M sink () := λ w,
  match meta with
  | Err e => (Err e, w)
  | Ok meta => let '(r, st) := WriteFrame (mkHeader 0 kind size meta) (w, body) in (r, st.1)
  end.

(** [validateResultPaths] *)
Definition validateResultPaths (paths : option (list string)) : res () :=
  reject_if (ExplicitMaxFiles <? zlen (default [] paths)) (Msg "explicit result path limit is %d").

Definition ArchiveKeepDestination : string := "keep-destination".
Definition ArchiveRestoreBackup : string := "restore-backup".

(** [WriteRequest] *)
Definition WriteRequest (request : RunnerRequest) (size : Z) (body : option chunked) : M sink () :=
  ensure (negb (bool_decide (rq_BuildID request = ""%string))) (Msg "runner request requires a build identity");;
  ensure (negb (bool_decide (rq_Operation request = RecoverArchive) &&
                negb (bool_decide (rq_RecoveryChoice request = ArchiveKeepDestination)) &&
                negb (bool_decide (rq_RecoveryChoice request = ArchiveRestoreBackup))))
    (Msg "choose keep-destination or restore-backup");;
  (if bool_decide (rq_Operation request = Collect) then lift (validateResultPaths (rq_Paths request)) else mret ());;
  ensure (negb (negb (bool_decide (rq_Operation request = Upload)) && negb (size =? 0)))
    (Msg "runner operation cannot send a payload");;
  writeFrame Request (metadata request) size body;;
  writeFrame End no_metadata 0 None.

(** ** The helper's surroundings *)

(** What a workspace root gives: opening a file, and the tree, at a point of the
    run. *)
Record Root := mkRoot { rt_open : nat → string → res handle; rt_tree : nat → option (directory node) }.

(** The system, at the points of a run. *)
Record Machine := mkMachine {
  m_windows : bool;
  m_UserHomeDir : res string;
  m_ctx : nat → option error;
  m_cause : nat → option error;
  m_containsJUnitFailure : list Z → bool;
  m_OpenRoot : nat → string → res Root;
  m_EvalSymlinks : nat → string → res string;
  m_Abs : nat → string → res string;
  (** [git rev-parse --git-path crabbox/results-start]: what it writes, and how it exits *)
  m_git : nat → string → list (list Z) * option error;
  (** [os.Stat]: whether the file is regular, and its time *)
  m_Stat : nat → string → res (bool * Z);
  (** [err.Error()], and what [errors.As] finds *)
  m_text : error → string;
  m_invalid : error → bool;
  m_adoption : error → option string }.

(** The archive operations on a file system [W]: a stage is filled from the body
    of a frame, then published and closed. *)
Class ArchiveFS (S W : Type) := {
  stage : Type;
  ArchiveTarget : nat → string → string → bool → M W string;
  StageArchive : nat → string → M (W * Reader S) stage;
  Publish : nat → stage → M W ();
  CloseStage : nat → stage → M W ();
  AdoptArchiveRecovery : nat → string → string → M W string;
  (** the archive's source, its bytes and its size; [Remove] closes and deletes it *)
  CreateArchive : nat → string → M W (ArchiveSource * chunked);
  StatArchive : nat → chunked → M W Z;
  RemoveArchive : nat → chunked → M W () }.

(** ** Paths and the marker *)

(** [expandPath] *)
Definition expandPath (home : res string) (name : string) : res string :=
  reject_if (bool_decide (TrimSpace name = ""%string) || ContainsAny name [0; 13; 10])
    (Msg "runner path is empty or contains control characters");;
  if HasPrefix name "~" then
    reject_if (negb (bool_decide (name = "~"%string)) && negb (HasPrefix name "~/"))
      (Msg "named-user home paths are unsupported");;
    home ← home;
    Ok (home +:+ (CutPrefix name "~").1)
  else Ok name.

(** [limitedOutput] *)
Record limitedOutput := mkLimitedOutput { lo_written : list Z; lo_remaining : Z }.
Definition limitedOutput_Write (data : list Z) (w : limitedOutput) : res limitedOutput :=
  reject_if (lo_remaining w <? zlen data) (Msg "runner subprocess output exceeds limit");;
  Ok (mkLimitedOutput (lo_written w ++ data) (lo_remaining w - zlen data)).

(** What a command writes to a limited output: it stops at the first refusal. *)
Fixpoint command_output (chunks : list (list Z)) (w : limitedOutput) : res limitedOutput :=
  match chunks with
  | [] => Ok w
  | data :: chunks => w ← limitedOutput_Write data w; command_output chunks w
  end.
Definition Run (command : list (list Z) * option error) (w : limitedOutput) : res limitedOutput :=
  match command.2 with Some e => Err e | None => command_output command.1 w end.

(** [resultsMarkerTime] *)
Definition resultsMarkerTime (m : Machine) (t : nat) (workdir : string) : res Z :=
  resolved ← m_EvalSymlinks m t workdir;
  workdir ← m_Abs m t resolved;
  let marker :=
    match Run (m_git m t workdir) (mkLimitedOutput [] (16 * 2 ^ 10)) with
    | Ok output =>
        let name := TrimSpace (of_bytes (lo_written output)) in
        if bool_decide (name = ""%string) then path_Join (path_Join workdir ".crabbox") "results-start"
        else if IsAbs name then name else path_Join workdir name
    | Err _ => path_Join (path_Join workdir ".crabbox") "results-start"
    end in
  '(regular, time) ← m_Stat m t marker;
  reject_if (negb regular) (Msg "results marker is not regular");;
  Ok time.

(** ** Warnings *)

(** [boundedResultWarnings] *)
Definition warnings_budget : Z := 48 * 2 ^ 10.
Definition warning_bytes (w : Warning) : Z := zlen (print (marshal_warning w)) + 1.
Fixpoint retain_warnings (warnings : list Warning) (used omitted : Z) : list Warning * Z :=
  match warnings with
  | [] => ([], omitted)
  | w :: warnings =>
      if warnings_budget - used <? warning_bytes w then retain_warnings warnings used (omitted + 1)
      else let '(retained, omitted) := retain_warnings warnings (used + warning_bytes w) omitted in (w :: retained, omitted)
  end.
Definition omitted_warning (n : Z) : Warning :=
  mkWarning "" (FormatInt n +:+ " additional result warnings omitted to keep the response bounded").
Definition boundedResultWarnings (warnings : list Warning) : list Warning :=
  let '(retained, omitted) := retain_warnings warnings 0 0 in
  if omitted =? 0 then retained else retained ++ [omitted_warning omitted].

(** ** Serving *)

Record Server (S W : Type) := mkServer { sv_out : sink; sv_frames : Reader S; sv_tick : nat; sv_fs : W }.
Arguments mkServer {S W}. Arguments sv_out {S W}. Arguments sv_frames {S W}. Arguments sv_tick {S W}. Arguments sv_fs {S W}.

(** The zero [time.Time] is in UTC. *)
Definition utc : Zone := λ _, 0.

Section Serving.
Context {S W : Type} `{Source S} `{Zone} `{ArchiveFS S W} (m : Machine).

Definition SM : Type → Type := M (Server S W).

Definition on_output {A} (f : M sink A) : SM A := λ st,
  let '(r, w) := f (sv_out st) in (r, mkServer w (sv_frames st) (sv_tick st) (sv_fs st)).
Definition on_input {A} (f : M (Reader S) A) : SM A := λ st,
  let '(r, i) := f (sv_frames st) in (r, mkServer (sv_out st) i (sv_tick st) (sv_fs st)).
Definition on_fs {A} (f : nat → M W A) : SM A := λ st,
  let '(r, w) := f (sv_tick st) (sv_fs st) in (r, mkServer (sv_out st) (sv_frames st) (Datatypes.S (sv_tick st)) w).
Definition on_body {A} (f : nat → M (W * Reader S) A) : SM A := λ st,
  let '(r, (w, i)) := f (sv_tick st) (sv_fs st, sv_frames st) in (r, mkServer (sv_out st) i (Datatypes.S (sv_tick st)) w).
Definition ask {A} (f : nat → res A) : SM A := λ st,
  (f (sv_tick st), mkServer (sv_out st) (sv_frames st) (Datatypes.S (sv_tick st)) (sv_fs st)).
Definition ctx_Err : SM () := ask (λ t, match m_ctx m t with Some e => Err e | None => Ok () end).

(** A deferred call, whose error is dropped. *)
Definition finally {A} (body : SM A) (cleanup : SM ()) : SM A := λ st,
  let '(r, st1) := body st in (r, (cleanup st1).2).

Definition send (kind : string) (meta : res (list Z)) (size : Z) (body : option chunked) : SM () :=
  on_output (writeFrame kind meta size body).

(** [root.CollectResults] *)
Definition collect (root : Root) (options : ResultOptions) : SM collected := λ st,
  let '(r, (t, k)) :=
    CollectResults (m_containsJUnitFailure m) (m_ctx m) (rt_open root) (rt_tree root) options (sv_tick st, nothing) in
  (match r with Ok _ => Ok k | Err e => Err e end, mkServer (sv_out st) (sv_frames st) t (sv_fs st)).

(** A report as a frame: [bytes.NewReader] gives what is asked for. *)
Fixpoint send_files (files : list ReportFile) : SM () :=
  match files with
  | [] => mret ()
  | f :: files =>
      ctx_Err;;
      send File (metadata (sent_file f).1) (zlen (f_Data f)) (Some (Chunked [f_Data f] EOF false));;
      send_files files
  end.

(** Whether to discover reports, and since when: the time of the marker. *)
Definition discovery_window (request : RunnerRequest) (workdir : string) : SM (bool * option Z) :=
  if rq_Auto request && negb (bool_decide (rq_Marker request = ""%string)) then
    ensure (bool_decide (rq_Marker request = "crabbox/results-start"%string)) (Msg "unsupported results marker");;
    after ← attempt (ask (λ t, resultsMarkerTime m t workdir));
    mret (match after with Ok time => (true, Some time) | Err _ => (false, None) end)
  else mret (rq_Auto request, None).

(** [serveResults] *)
Definition serveResults (request : RunnerRequest) : SM Outcome :=
  lift (validateResultPaths (rq_Paths request));;
  workdir ← lift (expandPath (m_UserHomeDir m) (rq_Workdir request));
  root ← ask (λ t, m_OpenRoot m t workdir);
  '(auto, after) ← discovery_window request workdir;
  results ← collect root (serve_options (default [] (rq_Paths request)) auto after);
  send_files (k_files results);;
  mret (mkOutcome "" (Some (boundedResultWarnings (k_warnings results))) false).

(** The branches of [serveOperation]. *)
Definition serve_upload (request : RunnerRequest) (size : Z) : SM Outcome :=
  ensure (negb (m_windows m)) (Msg "archive publication requires a POSIX target");;
  ensure (negb (size =? 0)) (Msg "upload request has no archive");;
  destination ← lift (expandPath (m_UserHomeDir m) (rq_Destination request));
  target ← on_fs (λ t, ArchiveTarget t destination (as_Base (rq_Source request)) (as_ContentsOnly (rq_Source request)));
  staged ← on_body (λ t, StageArchive t target);
  finally
    (on_input readEnd;;
     ctx_Err;;
     on_fs (λ t, Publish t staged);;
     mret (mkOutcome "" None true))
    (on_fs (λ t, CloseStage t staged)).

Definition serve_recovery (request : RunnerRequest) : SM Outcome :=
  ensure (negb (m_windows m)) (Msg "archive recovery requires a POSIX target");;
  ctx_Err;;
  destination ← lift (expandPath (m_UserHomeDir m) (rq_Destination request));
  retained ← on_fs (λ t, AdoptArchiveRecovery t destination (rq_RecoveryChoice request));
  mret (mkOutcome retained None false).

Definition serve_download (request : RunnerRequest) : SM Outcome :=
  ensure (negb (m_windows m)) (Msg "archive download requires a POSIX target");;
  lift (DownloadSource (rq_SourcePath request));;
  path ← lift (expandPath (m_UserHomeDir m) (rq_SourcePath request));
  '(source, archive) ← on_fs (λ t, CreateArchive t path);
  finally
    (size ← on_fs (λ t, StatArchive t archive);
     send File (metadata (H0 := @FileInfo_encoded utc) (mkFileInfo "" zero_time true source)) size (Some archive);;
     mret (mkOutcome "" None false))
    (on_fs (λ t, RemoveArchive t archive)).

(** [serveOperation] *)
Definition serveOperation (identity : Identity) : SM Outcome :=
  h ← on_input Next;
  ensure (bool_decide (h_Kind h = Request)) (Msg "missing runner request");;
  request ← lift (decodeObject RunnerRequest (h_Meta h));
  ensure (negb (bool_decide (rq_BuildID request = ""%string) || negb (bool_decide (rq_BuildID request = id_BuildID identity))))
    (Msg "runner build identity mismatch");;
  ctx_Err;;
  if bool_decide (rq_Operation request = Upload) then serve_upload request (h_Size h)
  else
    ensure (h_Size h =? 0) (Msg "operation does not accept a request payload");;
    on_input readEnd;;
    if bool_decide (rq_Operation request = RecoverArchive) then serve_recovery request
    else if bool_decide (rq_Operation request = Collect) then serveResults request
    else if bool_decide (rq_Operation request = Download) then serve_download request
    else fail (Msg "unknown runner operation").

(** [errors.Join(err, context.Cause(ctx))] *)
Definition join_cause {A} (r : res A) (cause : option error) : res A :=
  match r, cause with
  | r, None => r
  | Ok _, Some c => Err c
  | Err e, Some c => Err (Join e c)
  end.

(** The error that the other end is told. *)
Definition remote_of (e : error) : RemoteError :=
  match m_adoption m e with
  | Some target => mkRemoteError target "recovery-required" (m_text m e)
  | None => mkRemoteError "" (if m_invalid m e then "invalid" else "operation") (m_text m e)
  end.

(** The end of [Serve]: an outcome, or an error. *)
Definition respond (r : res Outcome) : SM () :=
  match r with
  | Ok outcome =>
      send Result (metadata outcome) 0 None;;
      send End no_metadata 0 None
  | Err e =>
      w ← attempt (send Error (metadata (remote_of e)) 0 None;; send End no_metadata 0 None);
      fail (match w with Ok _ => e | Err e' => Join e e' end)
  end.

(** [Serve] *)
Definition serve (identity : Identity) : SM () :=
  send Hello (metadata identity) 0 None;;
  r ← attempt (serveOperation identity);
  cause ← ask (λ t, Ok (m_cause m t));
  respond (join_cause r cause).
Definition Serve (input : S) (output : sink) (identity : Identity) (fs : W) : res () * Server S W :=
  serve identity (mkServer output (NewReader input DefaultMaxCompressedBytes) 0 fs).
End Serving.

(** ** What is sent can be read *)

Lemma writeFrame_wire kind meta size body w r w' :
  writeFrame kind (Ok meta) size body w = (r, w') → size = zlen (body_bytes body) →
  (∃ e, r = Err e ∧ snk_out w' = snk_out w) ∨
  ∃ hd, (∀ limit, size ≤ limit → framed limit (received (mkHeader Version kind size meta)) hd) ∧
    wrote (hd ++ body_bytes body) r w w'.
Proof.
  intros HW Hs. pose proof (zlen_nonneg (body_bytes body)) as Hn. unfold writeFrame in HW.
  destruct (WriteFrame _ _) as [r0 st] eqn:E in HW. injection HW as <- <-.
  apply WriteFrame_spec in E as [(e & -> & Ho)|(data & j & HV & HT & Ho & Hj & Hj' & Hr & Hsp)]; cbn [fst snd h_Size] in *;
    [left; eauto| |lia].
  right. change (default_version (mkHeader 0 kind size meta)) with (mkHeader Version kind size meta) in *.
  exists (magic ++ PutUint32 (zlen data) ++ data). split; [intros limit Hl; eapply framed_text; [done|cbn; lia|done]|].
  unfold frame in *. rewrite !app_assoc in *. set (full := ((magic ++ _) ++ _) ++ _) in *.
  assert (length full = 8 + length data + Z.to_nat size)%nat as HL.
  { unfold full. rewrite !length_app. cbn [length]. rewrite Hs. unfold zlen. change (length magic) with 4%nat.
    change (length (PutUint32 _)) with 4%nat. lia. }
  exists j. rewrite <-HL in *. rewrite Nat.min_id in Hsp. by split_and!.
Qed.

Lemma metadata_received {A} `{EncodedLaws A} (a : A) meta kind size : metadata a = Ok meta → storable a →
  decodeObject A (h_Meta (received (mkHeader Version kind size meta))) = Ok a.
Proof.
  unfold metadata, validateMetadataText. intros HM Hs. res_steps. guards. apply Ok_inj in HM as <-.
  assert (Forall (λ s, utf8_valid s = true) (texts a)) as HT.
  { apply Forall_forall. intros s Hin. rewrite forallb_forall in H2. by eapply H2, list_elem_of_In. }
  destruct (marshal_decodes _ _ Hs HT H3) as (HW & [l ->] & HK & HU).
  unfold received. cbn [h_Meta]. unfold marshal_meta. rewrite bool_decide_eq_false_2 by done.
  rewrite parse_print by done. cbn [of_option mbind res_bind]. unfold decodeObject.
  rewrite parse_print by by apply escape_well_formed. cbn [of_option mbind res_bind]. by rewrite HK.
Qed.

(** A frame with metadata: refused, or written in part or in full. *)
Lemma sent_frame {A} `{EncodedLaws A} kind (a : A) size body w r w' :
  writeFrame kind (metadata a) size body w = (r, w') → storable a → size = zlen (body_bytes body) →
  (∃ e, r = Err e ∧ snk_out w' = snk_out w) ∨
  ∃ h hd, (∀ limit, size ≤ limit → framed limit h hd) ∧ h_Kind h = kind ∧ h_Size h = size ∧
    decodeObject A (h_Meta h) = Ok a ∧ wrote (hd ++ body_bytes body) r w w'.
Proof.
  intros HW Hs Hz. destruct (metadata a) as [meta|e] eqn:EM; [|injection HW as <- <-; left; eauto].
  apply writeFrame_wire in HW as [HW|(hd & HF & HW)]; [by left| |done]. right.
  eexists _, hd. split_and!; [exact HF|done|done|by apply metadata_received|done].
Qed.
Lemma sent_end w r w' : writeFrame End no_metadata 0 None w = (r, w') →
  (∃ e, r = Err e ∧ snk_out w' = snk_out w) ∨ ∃ hd, (∀ limit, 0 ≤ limit → end_frame limit hd) ∧ wrote hd r w w'.
Proof.
  intros HW. apply writeFrame_wire in HW as [HW|(hd & HF & HW)]; [by left| |done]. right. exists hd.
  cbn [body_bytes] in HW. rewrite app_nil_r in HW. split; [|done]. intros limit Hl. by eexists _; split_and!; [apply HF|..].
Qed.

(** ** A stream has one reading *)

Lemma framed_unique l1 l2 h1 h2 hd1 hd2 x y : framed l1 h1 hd1 → framed l2 h2 hd2 → hd1 ++ x = hd2 ++ y →
  h1 = h2 ∧ hd1 = hd2 ∧ x = y.
Proof.
  intros (s1 & d1 & -> & L1 & E1 & _ & D1 & _) (s2 & d2 & -> & L2 & E2 & _ & D2 & _) E.
  rewrite <-!app_assoc in E. apply app_inv_head in E. apply app_inj_1 in E as [-> E]; [|lia].
  apply app_inj_1 in E as [-> ->]; [|unfold zlen in *; lia]. rewrite D1 in D2. by injection D2 as ->.
Qed.

(** The start of a frame that is not all there. *)
Definition stump (y : list Z) : Prop :=
  y = [] ∨ ∃ limit h hd body j, framed limit h hd ∧ h_Size h = zlen body ∧ y = take j (hd ++ body) ∧ (j < length (hd ++ body))%nat.

Lemma framed_nonempty limit h hd x : framed limit h hd → hd ++ x ≠ [].
Proof. intros (s1 & d1 & -> & _). by rewrite <-app_assoc. Qed.

Lemma stump_no_frame y limit h hd body x : stump y → framed limit h hd → h_Size h = zlen body → y ≠ hd ++ body ++ x.
Proof.
  intros [->|(l' & h' & hd' & body' & j & HF' & HS' & -> & Hj)] HF HS E.
  - symmetry in E. by eapply framed_nonempty in E.
  - assert (hd ++ body ++ x ++ drop j (hd' ++ body') = hd' ++ body') as E'.
    { rewrite <-(take_drop j (hd' ++ body')) at 2. rewrite E, <-!app_assoc. done. }
    destruct (framed_unique _ _ _ _ _ _ _ _ HF HF' E') as (-> & -> & _).
    apply (f_equal length) in E. rewrite length_take, !length_app in E. unfold zlen in HS, HS'. rewrite length_app in Hj. lia.
Qed.

Lemma wrote_stump limit h hd body r w w' : framed limit h hd → h_Size h = zlen body → wrote (hd ++ body) r w w' → r ≠ Ok () →
  ∃ y, snk_out w' = snk_out w ++ y ∧ stump y ∧ snk_room w' = Some 0%nat.
Proof.
  intros HF HS (k & Ho & Hl & Hr & _ & Hroom) Hne. assert (k ≠ length (hd ++ body)) by tauto.
  exists (take k (hd ++ body)). split_and!; [done| |apply Hroom; lia]. right. exists limit, h, hd, body, k. split_and!; [done..|lia].
Qed.

Lemma wrote_all p w w' : wrote p (Ok ()) w w' → snk_out w' = snk_out w ++ p.
Proof. intros (k & -> & _ & E & _). by rewrite (proj1 E), firstn_all. Qed.

(** Nothing is written where there is no room. *)
Lemma wrote_no_room p r w w' : wrote p r w w' → snk_room w = Some 0%nat → snk_out w' = snk_out w.
Proof. intros (k & -> & _ & _ & Hs & _) Hw. destruct (Hs _ Hw) as [Hk _]. replace k with 0%nat by lia. by rewrite app_nil_r. Qed.

(** After some files, an outcome and an end frame. *)
Definition ending (limit : Z) (z : list Z) : Prop :=
  ∃ files fb o ob eb tail, z = fb ++ ob ++ eb ++ tail ∧ file_frames limit files fb ∧ outcome_frame limit o ob ∧
    end_frame limit eb.

Lemma ending_first limit h hd z : framed limit h hd → ending limit (hd ++ z) → h_Kind h = File ∨ h_Kind h = Result.
Proof.
  intros HF (files & fb & o & ob & eb & tail & E & HFF & (oh & HO & HK & _) & _).
  destruct HFF as [|f fs b bs (h' & hd' & HF' & HK' & _ & _ & ->) _].
  - destruct (framed_unique _ _ _ _ _ _ _ _ HF HO E) as (-> & _). by right.
  - rewrite <-!app_assoc in E. destruct (framed_unique _ _ _ _ _ _ _ _ HF HF' E) as (-> & _). by left.
Qed.

Lemma ending_file limit f b z : file_frame limit f b → ending limit (b ++ z) → ending limit z.
Proof.
  intros (h & hd & HF & HK & _ & HS & ->) (files & fb & o & ob & eb & tail & E & HFF & HO & HE). rewrite <-app_assoc in E.
  destruct HFF as [|f' fs b bs (h' & hd' & HF' & HK' & _ & HS' & ->) HFF].
  - destruct HO as (oh & HO & HK' & _). destruct (framed_unique _ _ _ _ _ _ _ _ HF HO E) as (-> & _). by rewrite HK in HK'.
  - rewrite <-!app_assoc in E. destruct (framed_unique _ _ _ _ _ _ _ _ HF HF' E) as (-> & -> & E').
    apply app_inj_1 in E' as [_ ->]; [|unfold zlen in *; lia]. by exists fs, bs, o, ob, eb, tail.
Qed.
Lemma ending_files limit files fb z : file_frames limit files fb → ending limit (fb ++ z) → ending limit z.
Proof. induction 1 as [|f fs b bs Hb _ IH]; [done|]. rewrite <-app_assoc. intros HE. by apply IH, (ending_file _ f b). Qed.

Lemma ending_stump limit y : stump y → ¬ ending limit y.
Proof.
  intros Hy (files & fb & o & ob & eb & tail & E & HFF & (oh & HO & _ & _ & HS) & _).
  destruct HFF as [|f fs b bs (h' & hd' & HF' & _ & _ & HS' & ->) _].
  - by eapply (stump_no_frame _ _ _ _ [] _ Hy HO HS).
  - rewrite <-!app_assoc in E. by eapply (stump_no_frame _ _ _ _ _ _ Hy HF' HS').
Qed.

(** An outcome without the end of the response. *)
Lemma ending_cut limit o ob y : outcome_frame limit o ob → stump y → ¬ ending limit (ob ++ y).
Proof.
  intros (h & HF & HK & _ & _) Hy (files & fb & o' & ob' & eb & tail & E & HFF & (oh & HO & _) & (eh & HE & _ & _ & HS)).
  destruct HFF as [|f fs b bs (h' & hd' & HF' & HK' & _ & HS' & ->) _].
  - destruct (framed_unique _ _ _ _ _ _ _ _ HF HO E) as (_ & _ & E'). by eapply (stump_no_frame _ _ _ _ [] _ Hy HE HS).
  - rewrite <-!app_assoc in E. destruct (framed_unique _ _ _ _ _ _ _ _ HF HF' E) as (-> & _). by rewrite HK in HK'.
Qed.

Lemma response_ending expected i files o hb z : hello_frame (max_body Collect) i hb →
  response Collect expected files o (hb ++ z) → ending (max_body Collect) z.
Proof.
  intros (h & HF & _) (hb' & fb & ob & eb & tail & E & (h' & HF' & _) & HFF & HO & HE & _).
  destruct (framed_unique _ _ _ _ _ _ _ _ HF HF' E) as (_ & _ & ->). by exists files, fb, o, ob, eb, tail.
Qed.
Lemma response_stump expected files o y : stump y → ¬ response Collect expected files o y.
Proof.
  intros Hy (hb' & fb & ob & eb & tail & E & (h' & HF' & _ & _ & HS) & _).
  by eapply (stump_no_frame _ _ _ _ [] _ Hy HF' HS).
Qed.

(** ** What the helper answers *)

Section Answer.
Context {S W : Type} `{SourceLaws S} `{HZ : WholeMinutes} `{ArchiveFS S W} (m : Machine).
Implicit Types st : Server S W.

Definition output st : list Z := snk_out (sv_out st).
Local Abbreviation limit := (max_body Collect).

(** Files, then nothing or a part of a frame that fills the output. *)
Definition broken_off st (x : list Z) : Prop :=
  ∃ files fb y, x = fb ++ y ∧ file_frames limit files fb ∧ stump y ∧ (y = [] ∨ snk_room (sv_out st) = Some 0%nat).

Lemma broken_off_nil st : broken_off st [].
Proof. exists [], [], []. split_and!; [done|constructor|by left|by left]. Qed.

Lemma send_files_spec files : ∀ st r st', Forall (λ f, zlen (f_Data f) ≤ limit) files → send_files m files st = (r, st') →
  ∃ x, output st' = output st ++ x ∧
  match r with Ok _ => file_frames limit (sent_file <$> files) x | Err _ => broken_off st' x end.
Proof.
  induction files as [|f files IH]; intros st r st' HL HR; cbn [send_files] in HR.
  { injection HR as <- <-. exists []. rewrite app_nil_r. split; [done|constructor]. }
  apply Forall_cons in HL as [Hf HL]. unfold mbind at 1, M_bind at 1, ctx_Err, ask in HR. cbn [fst snd] in HR.
  destruct (m_ctx m (sv_tick st)).
  { injection HR as <- <-. exists []. rewrite app_nil_r. split; [done|apply broken_off_nil]. }
  unfold mbind at 1, M_bind at 1, send, on_output in HR. cbn [sv_out] in HR.
  destruct (writeFrame _ _ _ _ (sv_out st)) as [rw w] eqn:EW in HR.
  apply sent_frame in EW as [(e & -> & Ho)|(h & hd & HF & HK & HS & HD & HW)]; [| |done|cbn; by rewrite app_nil_r].
  { injection HR as <- <-. exists []. rewrite app_nil_r. split; [exact Ho|apply broken_off_nil]. }
  change (body_bytes _) with (f_Data f ++ []) in HW. rewrite app_nil_r in HW. specialize (HF _ Hf).
  destruct rw as [[]|e].
  - apply wrote_all in HW. apply IH in HR as (x & Hx & HR); [|done]. unfold output in *. cbn [sv_out] in Hx.
    assert (file_frame limit (sent_file f) (hd ++ f_Data f)) as HFf by (exists h, hd; split_and!; done).
    exists ((hd ++ f_Data f) ++ x). split; [by rewrite Hx, HW, <-!app_assoc|]. destruct r; [by constructor|].
    destruct HR as (fs & fb & y & -> & HFF & Hy). exists (sent_file f :: fs), ((hd ++ f_Data f) ++ fb), y.
    split_and!; [by rewrite <-!app_assoc|by constructor|apply Hy|apply Hy].
  - injection HR as <- <-. destruct (wrote_stump _ _ _ _ _ _ _ HF HS HW) as (y & Hy & Hst & Hroom); [done|].
    exists y. split; [exact Hy|]. exists [], [], y. split_and!; [done|constructor|done|by right].
Qed.

(** The results a request asks for: a run of [CollectResults] in its working
    directory. *)
Definition results_of (request : RunnerRequest) (k : collected) : Prop :=
  ∃ workdir root t auto after t1 t2, expandPath (m_UserHomeDir m) (rq_Workdir request) = Ok workdir ∧
    m_OpenRoot m t workdir = Ok root ∧ (auto = true → rq_Auto request = true) ∧
    CollectResults (m_containsJUnitFailure m) (m_ctx m) (rt_open root) (rt_tree root)
      (serve_options (default [] (rq_Paths request)) auto after) (t1, nothing) = (Ok (), (t2, k)).
Definition outcome_of (k : collected) : Outcome := mkOutcome "" (Some (boundedResultWarnings (k_warnings k))) false.

(** What [serveResults] sends, and returns. *)
Definition answered (request : RunnerRequest) st (r : res Outcome) st' : Prop :=
  ∃ x, output st' = output st ++ x ∧
  match r with
  | Ok o => ∃ k, results_of request k ∧ o = outcome_of k ∧ file_frames limit (sent_file <$> k_files k) x
  | Err _ => broken_off st' x
  end.

Lemma answered_err request st e st' : output st' = output st → answered request st (Err e) st'.
Proof. intros E. exists []. rewrite app_nil_r. split; [done|apply broken_off_nil]. Qed.

Lemma collected_sizes root options t r t' k :
  CollectResults (m_containsJUnitFailure m) (m_ctx m) (rt_open root) (rt_tree root) options (t, nothing) = (r, (t', k)) →
  ro_ExplicitMaxBytes options = ExplicitMaxFileBytes → Forall (λ f, zlen (f_Data f) ≤ limit) (k_files k).
Proof.
  intros HR HO. apply CollectResults_ok in HR as (ex & au & EF & _ & _ & Oex & _ & _ & Oau & _ & _). cbn [snd] in EF. rewrite EF. apply Forall_app. split.
  - eapply Forall_impl; [exact Oex|]. intros f (H3 & _). by rewrite HO in H3.
  - eapply Forall_impl; [exact Oau|]. intros f (H3 & _). etrans; [exact H3|done].
Qed.

Lemma discovery_window_ok request workdir st r st' : discovery_window m request workdir st = (r, st') →
  output st' = output st ∧ (∀ after, r = Ok (true, after) → rq_Auto request = true).
Proof.
  unfold discovery_window, mbind, M_bind, ensure, attempt, ask. destruct (rq_Auto request); cbn [andb].
  - intros HR. split; [|done]. destruct (negb _) in HR; [destruct (bool_decide _) in HR|]; unfold mret, M_ret, fail in HR; by simplify_eq.
  - intros [= <- <-]. split; [done|]. intros after [=].
Qed.

Lemma serveResults_answers request st r st' : serveResults m request st = (r, st') → answered request st r st'.
Proof.
  unfold serveResults, mbind, M_bind, lift, ask, attempt, ensure. intros HR.
  destruct (validateResultPaths _); [|injection HR as <- <-; by apply answered_err].
  destruct (expandPath _ _) as [workdir|] eqn:EP; [|injection HR as <- <-; by apply answered_err].
  destruct (m_OpenRoot m _ workdir) as [root|] eqn:ER; [|injection HR as <- <-; by apply answered_err].
  destruct (discovery_window m request workdir _) as [[[auto after]|e] st1] eqn:EA in HR;
    apply discovery_window_ok in EA as [E1 HAuto]; [|injection HR as <- <-; by apply answered_err].
  change (output st1 = output st) in E1.
  assert (auto = true → rq_Auto request = true) by (intros ->; by eapply HAuto).
  destruct (collect m root _ st1) as [rc st2] eqn:EC. unfold collect in EC.
  destruct (CollectResults _ _ _ _ _ _) as [r3 [t3 k3]] eqn:EK in EC. injection EC as <- <-.
  destruct r3 as [[]|e]; [|injection HR as <- <-; by apply answered_err].
  destruct (send_files m (k_files k3) _) as [r4 st4] eqn:ES in HR.
  apply send_files_spec in ES as (x & Hx & ES); [|by eapply collected_sizes].
  change (output st4 = output st1 ++ x) in Hx. rewrite E1 in Hx.
  destruct r4 as [[]|e]; injection HR as <- <-; exists x; (split; [done|]); [|done].
  exists k3. split_and!; [|done|done]. by exists workdir, root, (sv_tick st), auto, after, (sv_tick st1), t3.
Qed.

(** The bytes of a request without a payload. *)
Definition requested (request : RunnerRequest) (bs : list Z) : Prop :=
  ∃ h rb eb, bs = rb ++ eb ∧ framed DefaultMaxCompressedBytes h rb ∧ h_Kind h = Request ∧ h_Size h = 0 ∧
    decodeObject RunnerRequest (h_Meta h) = Ok request ∧ end_frame DefaultMaxCompressedBytes eb.

Lemma serve_collect request identity st r st' bs : at_frame (sv_frames st) bs →
  rd_maxBody (sv_frames st) = DefaultMaxCompressedBytes → requested request bs → rq_Operation request = Collect →
  serveOperation m identity st = (r, st') →
  answered request st r st' ∧ (∀ o, r = Ok o → id_BuildID identity ≠ ""%string).
Proof.
  intros HA Hmax (h & rb & eb & -> & HF & HK & HS & HD & HE) HO. rewrite <-Hmax in HF, HE.
  destruct (next_at_frame _ _ _ _ HA HF) as (s1 & EN & EC & He). rewrite HS in EN.
  destruct (readEnd_complete (mkReader s1 (rd_maxBody (sv_frames st)) (Z.to_N 0) None) eb []) as (r1 & EE);
    [rewrite <-EC, app_nil_r; by split_and!|exact HE|by left|].
  unfold serveOperation, mbind, M_bind, on_input, ensure, lift, ctx_Err, ask. rewrite EN, HK, HD. cbn [fst snd].
  rewrite bool_decide_eq_true_2 by done. unfold mret, M_ret, fail. cbn [sv_frames].
  destruct (negb (_ || _)) eqn:EB; [|intros [= <- <-]; split; [by apply answered_err|done]].
  assert (id_BuildID identity ≠ ""%string) as HB.
  { apply negb_true_iff, orb_false_iff in EB as [EB1 EB2]. guards. congruence. }
  cbn [sv_tick sv_frames sv_out sv_fs]. destruct (m_ctx m (sv_tick st)); [intros [= <- <-]; split; [by apply answered_err|done]|].
  rewrite HO, HS. change (bool_decide (Collect = Upload)) with false. change (bool_decide (Collect = RecoverArchive)) with false.
  change (bool_decide (Collect = Collect)) with true. cbn [Z.eqb sv_frames sv_out sv_tick sv_fs]. rewrite EE. intros HR%serveResults_answers. split; [exact HR|done].
Qed.

(** The frame after an operation that has failed. *)
Lemma error_sent (re : RemoteError) st r st' x :
  broken_off st x →
  (send Error (metadata re) 0 None;; send End no_metadata 0 None) st = (r, st') →
  ∃ y, output st' = output st ++ y ∧ ¬ ending limit (x ++ y).
Proof.
  intros (files & fb & y & -> & HFF & Hst & Hy).
  assert (∀ z, ¬ ending limit (y ++ z) → ¬ ending limit ((fb ++ y) ++ z)) as Hfiles.
  { intros z Hz HE. rewrite <-app_assoc in HE. by apply Hz, (ending_files _ _ _ _ HFF). }
  assert (¬ ending limit (y ++ [])) as Hnil by (rewrite app_nil_r; by apply ending_stump).
  unfold mbind, M_bind, send, on_output. destruct (writeFrame Error _ _ _ _) as [rw w] eqn:EW.
  apply sent_frame in EW as [(e & -> & Ho)|(h & hd & HF & HK & HS & HD & HW)]; [| |done|done].
  { intros [= <- <-]. exists []. rewrite app_nil_r. split; [exact Ho|by apply Hfiles]. }
  specialize (HF limit ltac:(done)). cbn [body_bytes] in HW. destruct Hy as [->|Hroom].
  2:{ pose proof (wrote_no_room _ _ _ _ HW Hroom) as Ho. destruct HW as (k & Hk & Hl & Hr & Hs & _). rewrite (app_nil_r hd) in Hk, Hl, Hr.
      destruct (Hs _ Hroom) as [Hk0 _]. assert (k = 0)%nat as -> by lia. destruct rw as [[]|e].
      - destruct (framed_nonempty _ _ _ [] HF). rewrite app_nil_r. apply nil_length_inv. symmetry. by apply Hr.
      - intros [= <- <-]. exists []. rewrite app_nil_r. split; [exact Ho|by apply Hfiles]. }
  destruct rw as [[]|e].
  - apply wrote_all in HW. rewrite app_nil_r in HW. cbn [sv_out]. destruct (writeFrame End _ _ _ w) as [r2 w2] eqn:EW2.
    assert (∃ z, snk_out w2 = snk_out w ++ z) as [z Hz].
    { apply sent_end in EW2 as [(e & _ & ->)|(hd2 & _ & (k & -> & _))]; [exists []; by rewrite app_nil_r|eauto]. }
    intros [= <- <-]. exists (hd ++ z). split; [unfold output; cbn [sv_out]; by rewrite Hz, HW, <-app_assoc|].
    apply Hfiles. intros [HE|HE]%(ending_first _ _ _ _ HF); by rewrite HK in HE.
  - intros [= <- <-]. destruct (wrote_stump limit h hd [] _ _ _ HF HS HW) as (y & Hy & Hst2 & _); [done|].
    exists y. split; [exact Hy|]. apply Hfiles. by apply ending_stump.
Qed.

(** The frames after an operation that has succeeded. *)
Lemma outcome_sent (o : Outcome) st r st' files x :
  file_frames limit files x →
  (send Result (metadata o) 0 None;; send End no_metadata 0 None) st = (r, st') →
  ∃ y, output st' = output st ++ y ∧
  match r with
  | Ok _ => ∃ ob eb, y = ob ++ eb ∧ outcome_frame limit o ob ∧ end_frame limit eb
  | Err _ => ¬ ending limit (x ++ y)
  end.
Proof.
  intros HFF. assert (∀ y, ¬ ending limit y → ¬ ending limit (x ++ y)) as Hfiles
    by (intros y Hy HE; by apply Hy, (ending_files _ _ _ _ HFF)).
  assert (stump []) as Hnil by by left.
  unfold mbind, M_bind, send, on_output. destruct (writeFrame Result _ _ _ _) as [rw w] eqn:EW.
  apply sent_frame in EW as [(e & -> & Ho)|(h & ob & HF & HK & HS & HD & HW)]; [| |done|done].
  { intros [= <- <-]. exists []. split; [unfold output; cbn [sv_out]; by rewrite Ho, app_nil_r|by apply Hfiles, ending_stump]. }
  specialize (HF limit ltac:(done)). cbn [body_bytes] in HW. destruct rw as [[]|e].
  2:{ intros [= <- <-]. destruct (wrote_stump limit h ob [] _ _ _ HF HS HW) as (y & Hy & Hst & _); [done|].
      exists y. split; [exact Hy|by apply Hfiles, ending_stump]. }
  assert (outcome_frame limit o ob) as HO by (by exists h; split_and!).
  apply wrote_all in HW. rewrite app_nil_r in HW. cbn [sv_out]. destruct (writeFrame End _ _ _ w) as [r2 w2] eqn:EW2.
  apply sent_end in EW2 as [(e & -> & Ho)|(eb & HE & HW2)]; intros [= <- <-]; unfold output; cbn [sv_out].
  { exists ob. rewrite Ho, HW. split; [done|]. apply Hfiles. rewrite <-(app_nil_r ob). by eapply ending_cut. }
  specialize (HE limit ltac:(done)). pose proof HE as (eh & HEf & _ & _ & HES). destruct r2 as [[]|e].
  - apply wrote_all in HW2. exists (ob ++ eb). split; [by rewrite HW2, HW, <-app_assoc|]. by exists ob, eb.
  - rewrite <-(app_nil_r eb) in HW2. destruct (wrote_stump _ _ _ [] _ _ _ HEf HES HW2) as (y & Hy & Hst & _); [done|].
    exists (ob ++ y). split; [by rewrite Hy, HW, <-app_assoc|]. apply Hfiles. by eapply ending_cut.
Qed.

Lemma respond_sent ro st r st' files x :
  match ro with Ok _ => file_frames limit files x | Err _ => broken_off st x end →
  respond m ro st = (r, st') →
  ∃ y, output st' = output st ++ y ∧
  match r with
  | Ok _ => ∃ o ob eb, ro = Ok o ∧ y = ob ++ eb ∧ outcome_frame limit o ob ∧ end_frame limit eb
  | Err _ => ¬ ending limit (x ++ y)
  end.
Proof.
  destruct ro as [o|e]; intros HX HR.
  - apply (outcome_sent _ _ _ _ _ _ HX) in HR as (y & Hy & HR). exists y. split; [done|]. destruct r; [|done].
    destruct HR as (ob & eb & ? & ? & ?). by exists o, ob, eb.
  - unfold respond in HR. unfold mbind at 1, M_bind at 1, attempt in HR.
    destruct ((send Error (metadata (remote_of m e)) 0 None;; send End no_metadata 0 None) st) as [rw st1] eqn:EW.
    cbn [fst snd] in HR. injection HR as <- <-. by apply (error_sent _ _ _ _ _ HX) in EW.
Qed.

(** What is answered to a request, in full or not. *)
Lemma serve_answer request identity (input : S) out fs r st' :
  snk_out out = [] → storable identity → (∀ x, ends input x → x = EOF) → requested request (content input) →
  rq_Operation request = Collect → Serve m input out identity fs = (r, st') →
  match r with
  | Ok _ => id_BuildID identity ≠ ""%string ∧ ∃ k hb fb ob eb, results_of request k ∧ output st' = hb ++ fb ++ ob ++ eb ∧
      hello_frame limit identity hb ∧ file_frames limit (sent_file <$> k_files k) fb ∧
      outcome_frame limit (outcome_of k) ob ∧ end_frame limit eb
  | Err _ => ∀ expected files o, ¬ response Collect expected files o (output st')
  end.
Proof.
  intros Ho Hid HE HQ HO. unfold Serve, serve, mbind, M_bind, send, on_output. cbn [sv_out].
  destruct (writeFrame Hello _ _ _ _) as [rw w] eqn:EW.
  apply sent_frame in EW as [(e & -> & Hw)|(h & hb & HF & HK & HS & HD & HW)]; [| |done|done].
  { intros [= <- <-] expected files o. unfold output. cbn [sv_out]. rewrite Hw, Ho. apply response_stump. by left. }
  specialize (HF limit ltac:(done)). assert (hello_frame limit identity hb) as Hhello by (by exists h; split_and!).
  cbn [body_bytes] in HW. destruct rw as [[]|e].
  2:{ intros [= <- <-] expected files o. destruct (wrote_stump limit h hb [] _ _ _ HF HS HW) as (y & Hy & Hst & _); [done|].
      unfold output. cbn [sv_out]. rewrite Hy, Ho. by apply response_stump. }
  apply wrote_all in HW. rewrite Ho, app_nil_r in HW. cbn [app] in HW. unfold attempt, ask. cbn [sv_tick sv_frames sv_fs].
  destruct (serveOperation m identity _) as [r1 st1] eqn:E1.
  apply (serve_collect request _ _ _ _ (content input)) in E1 as [(x & Hx & HA) HB]; [|by split_and!|done|done|done].
  unfold output in Hx. cbn [sv_out] in Hx. rewrite HW in Hx. cbn [fst snd].
  assert (∀ z, ¬ ending limit z → ∀ st2 expected files o, output st2 = hb ++ z → ¬ response Collect expected files o (output st2)) as Hno.
  { intros z Hz st2 expected files o -> HR. by eapply Hz, response_ending. }
  assert (∃ files, match join_cause r1 (m_cause m (sv_tick st1)) with
    | Ok o => (∃ k, results_of request k ∧ o = outcome_of k ∧ files = sent_file <$> k_files k) ∧ r1 = Ok o ∧ file_frames limit files x
    | Err _ => broken_off st1 x end) as (files & Hfiles).
  { destruct r1 as [o|e]; [|exists []; by destruct (m_cause m _)]. destruct HA as (k & HK' & -> & HFF).
    exists (sent_file <$> k_files k). destruct (m_cause m _); cbn [join_cause]; [|eauto 6].
    exists (sent_file <$> k_files k), x, []. split_and!; [by rewrite app_nil_r|done|by left|by left]. }
  intros HR. apply (respond_sent _ _ _ _ files x) in HR as (y & Hy & HR); [|destruct (join_cause _ _); [apply Hfiles|exact Hfiles]].
  unfold output at 2 in Hy. cbn [sv_out] in Hy. rewrite Hx, <-app_assoc in Hy.
  destruct r as [[]|e]; [|exact (λ ex fi o, Hno _ HR st' ex fi o Hy)].
  destruct HR as (o & ob & eb & EJ & -> & HO' & HE'). rewrite EJ in Hfiles.
  destruct Hfiles as ((k & HK' & -> & ->) & Hr1 & HFF). split; [by eapply HB|]. by exists k, hb, x, ob, eb.
Qed.
End Answer.

(** ** From one end to the other *)

(** What a request without a payload puts on the stream. *)
Lemma WriteRequest_wire request w w' : WriteRequest request 0 None w = (Ok (), w') →
  ∃ bs, snk_out w' = snk_out w ++ bs ∧ requested request bs ∧
    (rq_Operation request = Collect → zlen (default [] (rq_Paths request)) ≤ ExplicitMaxFiles).
Proof.
  unfold WriteRequest, mbind, M_bind, ensure, lift, mret, M_ret, fail. destruct (negb _); [|done]. destruct (negb (_ && _)); [|done].
  assert (∀ (b : bool) (r : res ()) (k : sink → res () * sink), (let '(r', s) := (if b then λ s, (r, s) else λ s, (Ok (), s)) w in
    match r' with Ok _ => k s | Err e => (Err e, s) end) = (Ok (), w') → (b = true → r = Ok ()) ∧ k w = (Ok (), w')) as Hif.
  { intros [] r k; [|done]. by destruct r as [[]|]. }
  intros HW. apply Hif in HW as [HP HW]. destruct (negb _) in HW; [|done].
  destruct (writeFrame Request _ _ _ w) as [[[]|e] w1] eqn:E1 in HW; [|done].
  apply sent_frame in E1 as [(e & ? & _)|(h & rb & HF & HK & HS & HD & H1)]; [done| |done|done].
  apply sent_end in HW as [(e & ? & _)|(eb & HE & H2)]; [done|].
  apply wrote_all in H1, H2. rewrite app_nil_r in H1. exists (rb ++ eb). rewrite H2, H1, app_assoc. split_and!; [done| |].
  - exists h, rb, eb. split_and!; try done; [by apply HF|by apply HE].
  - intros HC. rewrite HC in HP. specialize (HP eq_refl). unfold validateResultPaths in HP. res_steps. lia.
Qed.

Lemma collect_refused {T : Type} `{SourceLaws T} room ctx paths expected (resp : T) :
  (∀ i, ctx i = None) → zlen paths ≤ ExplicitMaxFiles → (∀ x, ends resp x → x = EOF) →
  (∀ files o, ¬ response Collect expected files o (content resp)) →
  ∃ e, ClientCollect room ctx paths expected None resp = Err e.
Proof.
  intros Hc Hp He HN. destruct (ClientCollect _ _ _ _ _ _) as [[files ws]|e] eqn:E; [|eauto].
  apply (collect_response room ctx paths expected resp files ws Hc Hp He) in E as (fr & o & HR & _). by destruct (HN fr o).
Qed.

(** A box where, in every directory that can be opened, a path keeps naming the
    same file and the empty path names none. *)
Definition steady (m : Machine) : Prop :=
  ∀ t dir root, m_OpenRoot m t dir = Ok root → steady_paths (rt_open root).

(** C13. Results reach the caller as they were collected, or not at all.  A
    request to collect is written to the helper, the helper serves it, and its
    output (on a stream that may break at any byte) is the client's input.  When
    [Serve] succeeds and the box is steady (while the helper reads, a path keeps
    naming the same file, and the empty path names none), the client returns
    exactly the files that [CollectResults] read in the requested directory,
    paths, times and bytes, with the bounded warnings.  When [Serve] fails, for
    whatever reason and however much it has written, and whether or not the box
    is steady, the client returns an error. *)
Theorem results_delivered {S W T : Type} `{SourceLaws S} `{HZ : WholeMinutes} `{ArchiveFS S W} `{SourceLaws T}
    (m : Machine) request identity (input : S) w out fs r st' room ctx (resp : T) :
  rq_Operation request = Collect → id_Protocol identity = Version →
  WriteRequest request 0 None (Sink [] None None) = (Ok (), w) →
  content input = snk_out w → (∀ x, ends input x → x = EOF) →
  snk_out out = [] → Serve m input out identity fs = (r, st') →
  content resp = output st' → (∀ x, ends resp x → x = EOF) → (∀ i, ctx i = None) →
  match r with
  | Ok _ => ∃ k, results_of m request k ∧
      (steady m →
       ClientCollect room ctx (default [] (rq_Paths request)) identity None resp =
         Ok (result_file <$> (sent_file <$> k_files k), Some (boundedResultWarnings (k_warnings k))))
  | Err _ => ∃ e, ClientCollect room ctx (default [] (rq_Paths request)) identity None resp = Err e
  end.
Proof.
  intros HO Hv HW HI HIe Ho HS HR HRe Hctx. apply WriteRequest_wire in HW as (bs & Hbs & HQ & HP). specialize (HP HO).
  cbn [app snk_out] in Hbs. rewrite Hbs in HI. rewrite <-HI in HQ.
  apply (serve_answer m request) in HS; [|done|cbn; rewrite Hv; done|done..].
  destruct r as [[]|e]; [|apply collect_refused; rewrite ?HR; auto].
  destruct HS as (Hb & k & hb & fb & ob & eb & HK & EO & Hhello & HF & Hout & Hend). exists k. split; [done|]. intros Hroot.
  apply collect_response; [done..|]. exists (sent_file <$> k_files k), (outcome_of k). split; [|done].
  destruct HK as (dir & root & t & auto & after & t1 & t2 & _ & HRt & _ & HC).
  apply CollectResults_ok, (collected_fit _ _ _ _ _ HP (Hroot _ _ _ HRt)) in HC.
  exists hb, fb, ob, eb, []. rewrite HR, EO, app_nil_r. split_and!; try done; first [by left|by split; split].
Qed.

(** ** Nothing changes before the request is whole *)

(** What the archive operations promise, but for publication and recovery: they
    keep [R], and staging does nothing with the frames but read the body. *)
Class ArchiveLaws {S W : Type} `{SourceLaws S} `{ArchiveFS S W} (R : relation W) := {
  archive_preorder : PreOrder R;
  target_keeps t d base only : keeps R (ArchiveTarget t d base only);
  stage_keeps t target w (i : Reader S) : R w (StageArchive t target (w, i)).2.1;
  stage_reads t target w (i : Reader S) s w' i' : StageArchive t target (w, i) = (Ok s, (w', i')) → payload_reads i i';
  close_keeps t s : keeps R (CloseStage t s);
  create_keeps t path : keeps R (CreateArchive t path);
  stat_keeps t a : keeps R (StatArchive t a);
  remove_keeps t a : keeps R (RemoveArchive t a) }.

(** A whole request for [operation] from this build: the request, the body it
    announces, the end frame, and then nothing more. *)
Definition whole_request (identity : Identity) (operation : string) (bs : list Z) : Prop :=
  ∃ h request rb body eb tail, bs = rb ++ body ++ eb ++ tail ∧ framed DefaultMaxCompressedBytes h rb ∧
    h_Kind h = Request ∧ decodeObject RunnerRequest (h_Meta h) = Ok request ∧ rq_Operation request = operation ∧
    rq_BuildID request = id_BuildID identity ∧ id_BuildID identity ≠ ""%string ∧
    h_Size h = zlen body ∧ end_frame DefaultMaxCompressedBytes eb ∧ stream_end tail.

Section Unchanged.
Context {S W : Type} `{SourceLaws S} `{Zone} `{ArchiveFS S W} (m : Machine) (R : relation W) `{!ArchiveLaws R}.
(** What has to hold for a change. *)
Variable cause : Prop.

Definition kept (st st' : Server S W) : Prop := R (sv_fs st) (sv_fs st') ∨ cause.
#[export] Instance kept_preorder : PreOrder kept.
Proof.
  pose proof archive_preorder. split; [intros st; left; reflexivity|].
  intros a b c [?|?] [?|?]; [left; by etrans|by right..].
Qed.

Lemma kept_same st st' : sv_fs st' = sv_fs st → kept st st'.
Proof. pose proof archive_preorder. intros E. left. by rewrite E. Qed.
Lemma on_output_kept {A} (f : M sink A) : keeps kept (on_output f).
Proof. intros st. apply kept_same. unfold on_output. by destruct (f _). Qed.
Lemma on_input_kept {A} (f : M (Reader S) A) : keeps kept (on_input f).
Proof. intros st. apply kept_same. unfold on_input. by destruct (f _). Qed.
Lemma ask_kept {A} (f : nat → res A) : keeps kept (ask f).
Proof. intros st. by apply kept_same. Qed.
Lemma collect_kept root options : keeps kept (collect m root options).
Proof. intros st. apply kept_same. unfold collect. by destruct (CollectResults _ _ _ _ _ _) as [? [? ?]]. Qed.
Lemma on_fs_kept {A} (f : nat → M W A) : (∀ t, keeps R (f t)) → keeps kept (on_fs f).
Proof. intros Hf st. left. unfold on_fs. specialize (Hf (sv_tick st) (sv_fs st)). by destruct (f _ _). Qed.
Lemma stage_kept target : keeps kept (on_body (λ t, StageArchive t target)).
Proof.
  intros st. left. unfold on_body. pose proof (stage_keeps (sv_tick st) target (sv_fs st) (sv_frames st)) as HS.
  by destruct (StageArchive _ _ _) as [? [? ?]].
Qed.
Lemma finally_kept {A} (body : SM A) cleanup st :
  kept st (body st).2 → keeps kept cleanup → kept st (finally body cleanup st).2.
Proof. unfold finally. intros HB HC. destruct (body st) as [r st1]. cbn [snd] in *. etrans; [exact HB|apply HC]. Qed.
Hint Resolve on_output_kept on_input_kept ask_kept collect_kept stage_kept kept_preorder : crab.
Hint Extern 1 (keeps kept (on_fs _)) =>
  apply on_fs_kept; intros ?; first [apply target_keeps|apply close_keeps|apply create_keeps|apply stat_keeps|apply remove_keeps] : crab.

Lemma send_kept kind meta size body : keeps kept (send kind meta size body).
Proof. apply on_output_kept. Qed.
Hint Resolve send_kept : crab.

Lemma send_files_kept files : keeps kept (send_files m files).
Proof. induction files as [|f files IH]; cbn [send_files]; unfold ctx_Err; keeps_steps. Qed.
Hint Resolve send_files_kept : crab.

Lemma serveResults_kept request : keeps kept (serveResults m request).
Proof. unfold serveResults, discovery_window. keeps_steps. Qed.

Lemma serve_download_kept request : keeps kept (serve_download m request).
Proof.
  unfold serve_download. keeps_steps. intros st. apply finally_kept; [|eauto with crab].
  match goal with |- kept _ (?b _).2 => enough (keeps kept b) as HK by apply HK end. keeps_steps.
Qed.

Lemma respond_kept r : keeps kept (respond m r).
Proof. unfold respond. keeps_steps. Qed.

(** With a cause nothing is claimed. *)
Lemma kept_any {A} (f : SM A) : cause → keeps kept f.
Proof. intros HC st. by right. Qed.

Lemma serve_upload_kept request size st :
  (∀ (i1 i2 : Reader S), payload_reads (sv_frames st) i1 → readEnd i1 = (Ok (), i2) → cause) →
  kept st (serve_upload m request size st).2.
Proof.
  intros HC. unfold serve_upload. apply (bind_at kept); [apply keeps_ensure; apply _|]. intros [] s1 [_ ->]%ensure_ok.
  apply (bind_at kept); [apply keeps_ensure; apply _|]. intros [] s1 [_ ->]%ensure_ok.
  apply (bind_at kept); [apply keeps_lift; apply _|]. intros dest s1 [= _ <-].
  apply (bind_at kept); [apply on_fs_kept; intros; apply target_keeps|]. intros target s1 E1.
  apply (bind_at kept); [apply stage_kept|]. intros staged s2 E2.
  apply finally_kept; [|eauto with crab].
  apply (bind_at kept); [apply on_input_kept|]. intros [] s3 E3. enough cause by by apply kept_any.
  assert (sv_frames s1 = sv_frames st) as EF by (unfold on_fs in E1; destruct (ArchiveTarget _ _ _ _ _); by simplify_eq/=).
  unfold on_body in E2. destruct (StageArchive _ _ _) as [rs [w i]] eqn:ES in E2. injection E2 as -> <-.
  rewrite EF in ES. apply stage_reads in ES. unfold on_input in E3. cbn [sv_frames] in E3.
  destruct (readEnd i) as [r3 i3] eqn:ER. injection E3 as -> <-. by eapply HC.
Qed.

Lemma serveOperation_kept identity st : rd_maxBody (sv_frames st) = DefaultMaxCompressedBytes →
  (whole_request identity Upload (content (rd_reader (sv_frames st))) → cause) →
  (whole_request identity RecoverArchive (content (rd_reader (sv_frames st))) → cause) →
  kept st (serveOperation m identity st).2.
Proof.
  intros Hmax HU HV. unfold serveOperation. apply (bind_at kept); [apply on_input_kept|]. intros h s1 E1.
  unfold on_input in E1. destruct (Next _) as [r1 i1] eqn:EN. injection E1 as -> <-.
  apply next_inv in EN as (_ & _ & ER & _ & rb & EC & HF). rewrite Hmax in *.
  apply (bind_at kept); [apply keeps_ensure; apply _|]. intros [] s1 [HK ->]%ensure_ok. guards.
  apply (bind_at kept); [apply keeps_lift; apply _|]. intros request s1 [= HD <-].
  apply (bind_at kept); [apply keeps_ensure; apply _|]. intros [] s1 [HB ->]%ensure_ok.
  apply negb_true_iff, orb_false_iff in HB as [HB1 HB2]. guards.
  apply (bind_at kept); [apply ask_kept|]. intros [] s1 E1. unfold ctx_Err, ask in E1. injection E1 as _ <-.
  assert (∀ op body i2, rq_Operation request = op → content (rd_reader i1) = body ++ content (rd_reader i2) →
    h_Size h = zlen body → ∀ i3, readEnd i2 = (Ok (), i3) → rd_maxBody i2 = DefaultMaxCompressedBytes →
    whole_request identity op (content (rd_reader (sv_frames st)))) as HWhole.
  { intros op body i2 Hop HC HS i3 HE HM. apply readEnd_sound in HE as (eb & tail & EE & HEf & HT & _).
    rewrite HM in HEf. exists h, request, rb, body, eb, tail. rewrite EC, HC, EE. split_and!; try done. congruence. }
  pose proof (framed_nonneg _ _ _ HF) as Hpos. case_bool_decide as HOp.
  { apply serve_upload_kept. cbn [sv_frames]. intros i2 i3 HR HE. apply HU.
    destruct (payload_reads_spec _ _ HR) as (EM & body & EB & EL). pose proof HE as (_ & _ & _ & _ & _ & _ & Ec)%readEnd_sound.
    rewrite ER in EM, EL. cbn [rd_maxBody rd_current] in *. rewrite Ec in EL.
    eapply (HWhole _ body i2); [done|done| |exact HE|done]. unfold zlen. lia. }
  apply (bind_at kept); [apply keeps_ensure; apply _|]. intros [] s1 [HS ->]%ensure_ok.
  apply (bind_at kept); [apply on_input_kept|]. intros [] s1 E1. unfold on_input in E1. cbn [sv_frames] in E1.
  destruct (readEnd i1) as [r2 i2] eqn:EE. injection E1 as -> <-.
  case_bool_decide as HOr; [apply kept_any, HV; eapply (HWhole _ [] i1); [done|done|unfold zlen; cbn; lia|exact EE|by rewrite ER]|].
  case_bool_decide; [apply serveResults_kept|]. case_bool_decide; [apply serve_download_kept|]. by apply kept_same.
Qed.
End Unchanged.

(** C14. The helper changes what is on the box only for a request that has
    arrived whole.  Whatever the stream holds (a request cut short, an archive
    with bytes missing, data after the end, another build's request), as long as
    the archive operations other than publication and recovery keep [R], so does
    the whole of [Serve]; otherwise its input is a request to upload or to recover
    from this very build, with all of the body it announces and its end frame,
    after which the stream ends or holds the eight bytes of a frame prefix and
    nothing more (at such a stump the reader, too, stops). *)
Theorem changes_need_whole_request {S W : Type} `{SourceLaws S} `{Zone} `{ArchiveFS S W} (m : Machine)
    (R : relation W) `{!ArchiveLaws R} (input : S) out identity fs :
  R fs (sv_fs (Serve m input out identity fs).2) ∨
  whole_request identity Upload (content input) ∨ whole_request identity RecoverArchive (content input).
Proof.
  set (cause := whole_request identity Upload (content input) ∨ whole_request identity RecoverArchive (content input)).
  change fs with (sv_fs (mkServer out (NewReader input DefaultMaxCompressedBytes) 0%nat fs)) at 1.
  set (st := mkServer _ _ _ _). change (kept R cause st (serve m identity st).2). unfold serve.
  apply (bind_at (kept R cause)); [by apply send_kept|]. intros [] s1 E1.
  assert (sv_frames s1 = NewReader input DefaultMaxCompressedBytes) as EF.
  { unfold send, on_output in E1. destruct (writeFrame _ _ _ _ _). by injection E1 as _ <-. }
  apply (bind_at (kept R cause)).
  - unfold attempt. destruct (serveOperation m identity s1) as [r s2] eqn:E2. cbn [snd].
    change s2 with (r, s2).2. rewrite <-E2. apply serveOperation_kept; rewrite ?EF; [done|done|by left|by right].
  - intros r s2 _. apply (bind_at (kept R cause)); [by apply ask_kept|]. intros c s3 _. by apply respond_kept.
Qed.

(** ** Examples *)

#[local] Instance ex_zone : Zone := λ _, 7200.
#[local] Instance ex_minutes : WholeMinutes.
Proof. done. Qed.
(** A box that lists what has been published. *)
#[local] Instance ex_archives : ArchiveFS chunked (list string) := {
  stage := string;
  ArchiveTarget _ destination _ _ := mret destination;
  StageArchive _ target := λ st,
    let '(r, (_, i)) := collect_file (λ n, n) (mkFileInfo "" 0 true (mkArchiveSource "" false)) ([], st.2) in
    (match r with Ok _ => Ok target | Err e => Err e end, (st.1, i));
  Publish _ s := modify (cons s);
  CloseStage _ _ := mret ();
  AdoptArchiveRecovery _ _ _ := fail (Msg "nothing to recover");
  CreateArchive _ _ := fail (Msg "no such file or directory");
  StatArchive _ _ := mret 0;
  RemoveArchive _ _ := mret () }.
#[local] Instance ex_archive_laws : ArchiveLaws (@eq (list string)).
Proof.
  split; try done; [apply _| |].
  - intros t target w i. cbn. by destruct (collect_file _ _ _) as [? [? ?]].
  - intros t target w i s w' i'. cbn. destruct (collect_file _ _ _) as [[[]|e] [files i1]] eqn:E; [|done].
    intros [= _ _ <-]. by eapply collect_file_reads.
Qed.
Definition ex_machine : Machine :=
  mkMachine false (Ok "/home/u"%string) (λ _, None) (λ _, None) ex_failure (λ _ _, Ok (mkRoot ex_open (λ _, Some (Last [] EOF))))
    (λ _ p, Ok p) (λ _ p, Ok p) (λ _ _, ([to_bytes ".git/crabbox/results-start"; [10]], None)) (λ _ _, Ok (true, 3))
    (λ _, "failed"%string) (λ _, false) (λ _, None).
Definition ex_request : RunnerRequest :=
  mkRequest "" "b1" Collect "~/w" (Some ["a.xml"; "b.xml"; "a.xml"]%string) true "crabbox/results-start" "" "" (mkArchiveSource "" false).
Definition ex_written : sink := (WriteRequest ex_request 0 None (Sink [] None None)).2.
Definition ex_served (room : option nat) : res () * Server chunked (list string) :=
  Serve ex_machine (Chunked [snk_out ex_written] EOF false) (Sink [] room None) ex_identity [].

Lemma results_delivered_witness :
  (∃ k, results_of ex_machine ex_request k ∧
    result_file <$> (sent_file <$> k_files k) = [mkResultFile "a.xml" 7 [60; 97; 62]] ∧
    boundedResultWarnings (k_warnings k) = [mkWarning "b.xml" (error_message ErrChanged)]) ∧
  ∃ e, ClientCollect (λ n, n) (λ _, None) ["a.xml"; "b.xml"; "a.xml"]%string ex_identity None
    (Chunked [output (ex_served (Some 400%nat)).2] EOF false) = Err e.
Proof.
  assert (steady ex_machine) as Hroot.
  { intros t dir root [= <-]. split; [intros; by eexists|]. intros t1 t2 name h1 h2. cbn [rt_open]. unfold ex_open.
    repeat case_bool_decide; by intros [= <-] [= <-]. }
  assert (WriteRequest ex_request 0 None (Sink [] None None) = (Ok (), ex_written)) as HW by (vm_compute; reflexivity).
  assert (∀ room r resp, Serve ex_machine (Chunked [snk_out ex_written] EOF false) (Sink [] room None) ex_identity [] = (r, resp) →
    match r with
    | Ok _ => ∃ k, results_of ex_machine ex_request k ∧
        (steady ex_machine →
         ClientCollect (λ n, n) (λ _, None) ["a.xml"; "b.xml"; "a.xml"]%string ex_identity None (Chunked [output resp] EOF false) =
           Ok (result_file <$> (sent_file <$> k_files k), Some (boundedResultWarnings (k_warnings k))))
    | Err _ => ∃ e, ClientCollect (λ n, n) (λ _, None) ["a.xml"; "b.xml"; "a.xml"]%string ex_identity None
        (Chunked [output resp] EOF false) = Err e
    end) as HT.
  { intros room r resp HS.
    apply (results_delivered ex_machine ex_request ex_identity (Chunked [snk_out ex_written] EOF false) ex_written
      (Sink [] room None) [] r resp (λ n, n) (λ _, None) (Chunked [output resp] EOF false));
      [reflexivity|reflexivity|exact HW|apply app_nil_r|intros x E; exact E|reflexivity|exact HS|apply app_nil_r|
       intros x E; exact E|reflexivity]. }
  split.
  - destruct (HT None (Ok ()) (ex_served None).2) as (k & HK & HC); [vm_compute; reflexivity|].
    assert (ClientCollect (λ n, n) (λ _, None) ["a.xml"; "b.xml"; "a.xml"]%string ex_identity None
      (Chunked [output (ex_served None).2] EOF false) =
      Ok ([mkResultFile "a.xml" 7 [60; 97; 62]], Some [mkWarning "b.xml" (error_message ErrChanged)])) as E by (vm_compute; reflexivity).
    specialize (HC Hroot). rewrite E in HC. exists k. split; [exact HK|]. injection HC as HC1 HC2. rewrite <-HC1, <-HC2. split; reflexivity.
  - destruct (HT (Some 400%nat) (Err ErrShortWrite) (ex_served (Some 400%nat)).2) as (e & HC); [vm_compute; reflexivity|].
    exists e. exact HC.
Defined.

Definition ex_upload : RunnerRequest :=
  mkRequest "" "b1" Upload "" None false "" "" "~/w" (mkArchiveSource "w" false).
Definition ex_uploaded : sink := (WriteRequest ex_upload 3 (Some (Chunked [[1; 2]; [3]] EOF false)) (Sink [] None None)).2.

Lemma changes_need_whole_request_witness :
  let input := Chunked [snk_out ex_uploaded] EOF false in
  sv_fs (Serve ex_machine input (Sink [] None None) ex_identity []).2 = ["/home/u/w"]%string ∧
  (whole_request ex_identity Upload (content input) ∨ whole_request ex_identity RecoverArchive (content input)).
Proof.
  intros input. assert (sv_fs (Serve ex_machine input (Sink [] None None) ex_identity []).2 = ["/home/u/w"]%string) as E
    by (vm_compute; reflexivity).
  split; [exact E|]. destruct (changes_need_whole_request ex_machine eq input (Sink [] None None) ex_identity []) as [HR|HR]; [|exact HR].
  rewrite E in HR. discriminate HR.
Defined.
