(* ===== verification/ClaimData.v ===== *)
(** * The claim record

    [leaseClaim] (internal/cli/claim.go) is the durable local record of a
    lease: who owns it, which provider resource it is bound to and, for a
    caller-supplied lease identity, the create intent and its journal.  This
    file holds the data of the claim and of the fixed-lease journal, with one
    setter per field.  A pointer to a struct is an [option]; the model copies
    values, so a pointer shared by two records is represented by re-reading
    the record that owns it.  A nil slice and an empty slice are identified
    (every reader and cloner of the claim normalises them); a nil map and an
    empty map are not. *)

From Stdlib Require Import ZArith Lia.
From stdpp Require Import gmap strings prelude.
From S2P Require Import Prelude GoText.
Local Open Scope string_scope.

(** [fixed_session_retention.go]: immutable retention policy, its window, the
    lifecycle operation in progress and the state that carries both. *)
Record SessionDiskRetentionPolicy := mkPolicy {
  p_Mode : string;
  p_OwnerBinding : string;
  p_ComputeWindowSeconds : Z }.

(** One authorised compute window. *)
Record RetainedComputeWindow := mkWindow {
  w_ID : string;
  w_AuthorizedAt : string;
  w_ExpiresAt : string;
  w_State : string }.

(** A pause or resume in progress. *)
Record RetentionLifecycleOperation := mkOperation {
  op_ID : string;
  op_Action : string;
  op_Phase : string;
  op_ExpectedClaimRevision : string }.

(** Desired state, window and operation. *)
Record SessionDiskRetentionState := mkRetention {
  rs_DesiredState : string;
  rs_ComputeWindow : RetainedComputeWindow;
  rs_Operation : option RetentionLifecycleOperation }.

(** [fixed_lease_engine.go FixedKeyedSubmission] *)
Record FixedKeyedSubmission := mkSubmission {
  s_Key : string;
  s_FirstSubmittedAt : string;
  s_Count : Z }.

(** [fixed_lease_engine.go FixedLeaseJournal]; [Revision] is a uint64. *)
Record FixedLeaseJournal := mkJournal {
  j_Retention : option SessionDiskRetentionState;
  j_Version : Z;
  j_Phase : string;
  j_Revision : Z;
  j_Submission : option FixedKeyedSubmission }.

(** [claim.go FixedCreateIntent] *)
Record FixedCreateIntent_t := mkIntent {
  i_Retention : option SessionDiskRetentionPolicy;
  i_Version : Z;
  i_Fingerprint : string;
  i_ProviderScope : string;
  i_CheckpointID : string;
  i_Slug : string;
  i_CreatedAt : string;
  i_State : string;
  i_Attempt : gomap;
  i_FailedAttempts : list string;
  i_Journal : option FixedLeaseJournal }.

Record CheckpointCaptureBinding := mkCapture {
  cc_ID : string; cc_Revision : string; cc_BoundRevision : string }.

Record ActionsWorkspaceBinding := mkActionsWorkspace {
  aw_Origin : string; aw_MarkerFingerprint : string }.

Record ActionsRunnerBinding := mkActionsRunner {
  ar_Scope : string; ar_RunnerID : Z; ar_Name : string; ar_Group : string;
  ar_Ephemeral : bool; ar_LeaseFingerprint : string }.

Record PendingGuestExtension_t := mkPendingGuestExtension {
  pg_BySeconds : Z; pg_TTLSeconds : Z; pg_Reason : string;
  pg_OldExpiresAt : string; pg_NewTTL : string }.

Record LeaseHeldResource := mkHeldResource {
  hr_Kind : string; hr_ID : string; hr_ImmutableID : string; hr_State : string }.

Record LeaseRecoveryHold := mkHold {
  h_Schema : string; h_Provider : string; h_LeaseID : string; h_Status : string;
  h_Resources : list LeaseHeldResource; h_UnacceptedChanges : string }.

Record ImageEvidence_t := mkImageEvidence {
  ie_ConfiguredReference : string; ie_RuntimeImageID : string;
  ie_RepositoryDigests : list string; ie_RepositoryDigestStatus : string }.

(** [claim.go leaseClaim] *)
Record LeaseClaim := mkClaim {
  PendingGuestExtension : option PendingGuestExtension_t;
  RecoveryHold : option LeaseRecoveryHold;
  ImageEvidence : option ImageEvidence_t;
  LeaseID : string;
  Revision : string;
  CheckpointCapture : option CheckpointCaptureBinding;
  ActionsRunner : option ActionsRunnerBinding;
  ActionsWorkspace : option ActionsWorkspaceBinding;
  Slug : string;
  Provider : string;
  CloudID : string;
  CloudNumericID : Z;
  CloudImmutableID : string;
  ProviderScope : string;
  StaticHost : string;
  StaticUser : string;
  StaticPort : string;
  StaticWorkRoot : string;
  TargetOS : string;
  WindowsMode : string;
  Pond : string;
  RepoRoot : string;
  ClaimedAt : string;
  LastUsedAt : string;
  IdleTimeoutSeconds : Z;
  TailscaleIPv4 : string;
  TailscaleFQDN : string;
  TailscaleHostname : string;
  TailscaleTags : list string;
  TailscaleLoginURL : string;
  TailscaleExitNode : string;
  TailscaleExitLAN : bool;
  SSHHost : string;
  SSHPort : Z;
  BridgeURL : string;
  CoordinatorRegistrationURL : string;
  RuntimeAdapterRegistrationID : string;
  RuntimeAdapterPendingRegistrationID : string;
  CacheVolumes : list string;
  Labels : gomap;
  FixedCreateIntent : option FixedCreateIntent_t }.

(** The zero value [leaseClaim{}]. *)
Definition empty_claim : LeaseClaim := mkClaim
  None None None "" "" None None None "" "" "" 0%Z "" "" "" "" "" "" "" "" "" "" "" "" 0%Z "" "" "" [] "" "" false "" 0%Z "" "" "" "" [] None None.

(** ** Setters *)
Definition window_eta (x : RetainedComputeWindow) : RetainedComputeWindow := mkWindow
  (w_ID x) (w_AuthorizedAt x) (w_ExpiresAt x) (w_State x).
#[export] Instance set_w_ID : Setter w_ID := ltac:(field_setter window_eta w_ID).
#[export] Instance set_w_AuthorizedAt : Setter w_AuthorizedAt := ltac:(field_setter window_eta w_AuthorizedAt).
#[export] Instance set_w_ExpiresAt : Setter w_ExpiresAt := ltac:(field_setter window_eta w_ExpiresAt).
#[export] Instance set_w_State : Setter w_State := ltac:(field_setter window_eta w_State).
Definition operation_eta (x : RetentionLifecycleOperation) : RetentionLifecycleOperation := mkOperation
  (op_ID x) (op_Action x) (op_Phase x) (op_ExpectedClaimRevision x).
#[export] Instance set_op_ID : Setter op_ID := ltac:(field_setter operation_eta op_ID).
#[export] Instance set_op_Action : Setter op_Action := ltac:(field_setter operation_eta op_Action).
#[export] Instance set_op_Phase : Setter op_Phase := ltac:(field_setter operation_eta op_Phase).
#[export] Instance set_op_ExpectedClaimRevision : Setter op_ExpectedClaimRevision := ltac:(field_setter operation_eta op_ExpectedClaimRevision).
Definition retention_eta (x : SessionDiskRetentionState) : SessionDiskRetentionState := mkRetention
  (rs_DesiredState x) (rs_ComputeWindow x) (rs_Operation x).
#[export] Instance set_rs_DesiredState : Setter rs_DesiredState := ltac:(field_setter retention_eta rs_DesiredState).
#[export] Instance set_rs_ComputeWindow : Setter rs_ComputeWindow := ltac:(field_setter retention_eta rs_ComputeWindow).
#[export] Instance set_rs_Operation : Setter rs_Operation := ltac:(field_setter retention_eta rs_Operation).
Definition journal_eta (x : FixedLeaseJournal) : FixedLeaseJournal := mkJournal
  (j_Retention x) (j_Version x) (j_Phase x) (j_Revision x) (j_Submission x).
#[export] Instance set_j_Retention : Setter j_Retention := ltac:(field_setter journal_eta j_Retention).
#[export] Instance set_j_Version : Setter j_Version := ltac:(field_setter journal_eta j_Version).
#[export] Instance set_j_Phase : Setter j_Phase := ltac:(field_setter journal_eta j_Phase).
#[export] Instance set_j_Revision : Setter j_Revision := ltac:(field_setter journal_eta j_Revision).
#[export] Instance set_j_Submission : Setter j_Submission := ltac:(field_setter journal_eta j_Submission).
Definition intent_eta (x : FixedCreateIntent_t) : FixedCreateIntent_t := mkIntent
  (i_Retention x) (i_Version x) (i_Fingerprint x) (i_ProviderScope x) (i_CheckpointID x) (i_Slug x) (i_CreatedAt x) (i_State x) (i_Attempt x) (i_FailedAttempts x) (i_Journal x).
#[export] Instance set_i_Retention : Setter i_Retention := ltac:(field_setter intent_eta i_Retention).
#[export] Instance set_i_Version : Setter i_Version := ltac:(field_setter intent_eta i_Version).
#[export] Instance set_i_Fingerprint : Setter i_Fingerprint := ltac:(field_setter intent_eta i_Fingerprint).
#[export] Instance set_i_ProviderScope : Setter i_ProviderScope := ltac:(field_setter intent_eta i_ProviderScope).
#[export] Instance set_i_CheckpointID : Setter i_CheckpointID := ltac:(field_setter intent_eta i_CheckpointID).
#[export] Instance set_i_Slug : Setter i_Slug := ltac:(field_setter intent_eta i_Slug).
#[export] Instance set_i_CreatedAt : Setter i_CreatedAt := ltac:(field_setter intent_eta i_CreatedAt).
#[export] Instance set_i_State : Setter i_State := ltac:(field_setter intent_eta i_State).
#[export] Instance set_i_Attempt : Setter i_Attempt := ltac:(field_setter intent_eta i_Attempt).
#[export] Instance set_i_FailedAttempts : Setter i_FailedAttempts := ltac:(field_setter intent_eta i_FailedAttempts).
#[export] Instance set_i_Journal : Setter i_Journal := ltac:(field_setter intent_eta i_Journal).
Definition claim_eta (x : LeaseClaim) : LeaseClaim := mkClaim
  (PendingGuestExtension x) (RecoveryHold x) (ImageEvidence x) (LeaseID x) (Revision x) (CheckpointCapture x) (ActionsRunner x) (ActionsWorkspace x) (Slug x) (Provider x) (CloudID x) (CloudNumericID x) (CloudImmutableID x) (ProviderScope x) (StaticHost x) (StaticUser x) (StaticPort x) (StaticWorkRoot x) (TargetOS x) (WindowsMode x) (Pond x) (RepoRoot x) (ClaimedAt x) (LastUsedAt x) (IdleTimeoutSeconds x) (TailscaleIPv4 x) (TailscaleFQDN x) (TailscaleHostname x) (TailscaleTags x) (TailscaleLoginURL x) (TailscaleExitNode x) (TailscaleExitLAN x) (SSHHost x) (SSHPort x) (BridgeURL x) (CoordinatorRegistrationURL x) (RuntimeAdapterRegistrationID x) (RuntimeAdapterPendingRegistrationID x) (CacheVolumes x) (Labels x) (FixedCreateIntent x).
#[export] Instance set_PendingGuestExtension : Setter PendingGuestExtension := ltac:(field_setter claim_eta PendingGuestExtension).
#[export] Instance set_RecoveryHold : Setter RecoveryHold := ltac:(field_setter claim_eta RecoveryHold).
#[export] Instance set_ImageEvidence : Setter ImageEvidence := ltac:(field_setter claim_eta ImageEvidence).
#[export] Instance set_LeaseID : Setter LeaseID := ltac:(field_setter claim_eta LeaseID).
#[export] Instance set_Revision : Setter Revision := ltac:(field_setter claim_eta Revision).
#[export] Instance set_CheckpointCapture : Setter CheckpointCapture := ltac:(field_setter claim_eta CheckpointCapture).
#[export] Instance set_ActionsRunner : Setter ActionsRunner := ltac:(field_setter claim_eta ActionsRunner).
#[export] Instance set_ActionsWorkspace : Setter ActionsWorkspace := ltac:(field_setter claim_eta ActionsWorkspace).
#[export] Instance set_Slug : Setter Slug := ltac:(field_setter claim_eta Slug).
#[export] Instance set_Provider : Setter Provider := ltac:(field_setter claim_eta Provider).
#[export] Instance set_CloudID : Setter CloudID := ltac:(field_setter claim_eta CloudID).
#[export] Instance set_CloudNumericID : Setter CloudNumericID := ltac:(field_setter claim_eta CloudNumericID).
#[export] Instance set_CloudImmutableID : Setter CloudImmutableID := ltac:(field_setter claim_eta CloudImmutableID).
#[export] Instance set_ProviderScope : Setter ProviderScope := ltac:(field_setter claim_eta ProviderScope).
#[export] Instance set_StaticHost : Setter StaticHost := ltac:(field_setter claim_eta StaticHost).
#[export] Instance set_StaticUser : Setter StaticUser := ltac:(field_setter claim_eta StaticUser).
#[export] Instance set_StaticPort : Setter StaticPort := ltac:(field_setter claim_eta StaticPort).
#[export] Instance set_StaticWorkRoot : Setter StaticWorkRoot := ltac:(field_setter claim_eta StaticWorkRoot).
#[export] Instance set_TargetOS : Setter TargetOS := ltac:(field_setter claim_eta TargetOS).
#[export] Instance set_WindowsMode : Setter WindowsMode := ltac:(field_setter claim_eta WindowsMode).
#[export] Instance set_Pond : Setter Pond := ltac:(field_setter claim_eta Pond).
#[export] Instance set_RepoRoot : Setter RepoRoot := ltac:(field_setter claim_eta RepoRoot).
#[export] Instance set_ClaimedAt : Setter ClaimedAt := ltac:(field_setter claim_eta ClaimedAt).
#[export] Instance set_LastUsedAt : Setter LastUsedAt := ltac:(field_setter claim_eta LastUsedAt).
#[export] Instance set_IdleTimeoutSeconds : Setter IdleTimeoutSeconds := ltac:(field_setter claim_eta IdleTimeoutSeconds).
#[export] Instance set_TailscaleIPv4 : Setter TailscaleIPv4 := ltac:(field_setter claim_eta TailscaleIPv4).
#[export] Instance set_TailscaleFQDN : Setter TailscaleFQDN := ltac:(field_setter claim_eta TailscaleFQDN).
#[export] Instance set_TailscaleHostname : Setter TailscaleHostname := ltac:(field_setter claim_eta TailscaleHostname).
#[export] Instance set_TailscaleTags : Setter TailscaleTags := ltac:(field_setter claim_eta TailscaleTags).
#[export] Instance set_TailscaleLoginURL : Setter TailscaleLoginURL := ltac:(field_setter claim_eta TailscaleLoginURL).
#[export] Instance set_TailscaleExitNode : Setter TailscaleExitNode := ltac:(field_setter claim_eta TailscaleExitNode).
#[export] Instance set_TailscaleExitLAN : Setter TailscaleExitLAN := ltac:(field_setter claim_eta TailscaleExitLAN).
#[export] Instance set_SSHHost : Setter SSHHost := ltac:(field_setter claim_eta SSHHost).
#[export] Instance set_SSHPort : Setter SSHPort := ltac:(field_setter claim_eta SSHPort).
#[export] Instance set_BridgeURL : Setter BridgeURL := ltac:(field_setter claim_eta BridgeURL).
#[export] Instance set_CoordinatorRegistrationURL : Setter CoordinatorRegistrationURL := ltac:(field_setter claim_eta CoordinatorRegistrationURL).
#[export] Instance set_RuntimeAdapterRegistrationID : Setter RuntimeAdapterRegistrationID := ltac:(field_setter claim_eta RuntimeAdapterRegistrationID).
#[export] Instance set_RuntimeAdapterPendingRegistrationID : Setter RuntimeAdapterPendingRegistrationID := ltac:(field_setter claim_eta RuntimeAdapterPendingRegistrationID).
#[export] Instance set_CacheVolumes : Setter CacheVolumes := ltac:(field_setter claim_eta CacheVolumes).
#[export] Instance set_Labels : Setter Labels := ltac:(field_setter claim_eta Labels).
#[export] Instance set_FixedCreateIntent : Setter FixedCreateIntent := ltac:(field_setter claim_eta FixedCreateIntent).

(** ** Decidable equality ([reflect.DeepEqual]) *)
#[export] Instance SessionDiskRetentionPolicy_eq_dec : EqDecision SessionDiskRetentionPolicy.
Proof. solve_decision. Defined.
#[export] Instance RetainedComputeWindow_eq_dec : EqDecision RetainedComputeWindow.
Proof. solve_decision. Defined.
#[export] Instance RetentionLifecycleOperation_eq_dec : EqDecision RetentionLifecycleOperation.
Proof. solve_decision. Defined.
#[export] Instance SessionDiskRetentionState_eq_dec : EqDecision SessionDiskRetentionState.
Proof. solve_decision. Defined.
#[export] Instance FixedKeyedSubmission_eq_dec : EqDecision FixedKeyedSubmission.
Proof. solve_decision. Defined.
#[export] Instance FixedLeaseJournal_eq_dec : EqDecision FixedLeaseJournal.
Proof. solve_decision. Defined.
#[export] Instance FixedCreateIntent_t_eq_dec : EqDecision FixedCreateIntent_t.
Proof. solve_decision. Defined.
#[export] Instance CheckpointCaptureBinding_eq_dec : EqDecision CheckpointCaptureBinding.
Proof. solve_decision. Defined.
#[export] Instance ActionsWorkspaceBinding_eq_dec : EqDecision ActionsWorkspaceBinding.
Proof. solve_decision. Defined.
#[export] Instance ActionsRunnerBinding_eq_dec : EqDecision ActionsRunnerBinding.
Proof. solve_decision. Defined.
#[export] Instance PendingGuestExtension_t_eq_dec : EqDecision PendingGuestExtension_t.
Proof. solve_decision. Defined.
#[export] Instance LeaseHeldResource_eq_dec : EqDecision LeaseHeldResource.
Proof. solve_decision. Defined.
#[export] Instance LeaseRecoveryHold_eq_dec : EqDecision LeaseRecoveryHold.
Proof. solve_decision. Defined.
#[export] Instance ImageEvidence_t_eq_dec : EqDecision ImageEvidence_t.
Proof. solve_decision. Defined.
#[export] Instance LeaseClaim_eq_dec : EqDecision LeaseClaim.
Proof. solve_decision. Defined.

(** [reflect.DeepEqual] on claims *)
Definition claim_eqb (a b : LeaseClaim) : bool := bool_decide (a = b).

(** ** Servers and targets

    [hcloud.go Server], [ssh.go SSHTarget] and [provider_backend.go
    LeaseTarget], with the fields the lease components read or write. *)
Record Server := mkServer {
  sv_CloudID : string;
  sv_Provider : string;
  sv_ImmutableID : string;
  sv_ID : Z;
  sv_Name : string;
  sv_Status : string;
  sv_Labels : gomap;
  sv_ImageEvidence : option ImageEvidence_t;
  sv_claimSnapshot : LeaseClaim;
  sv_claimSnapshotSet : bool;
  sv_claimSnapshotExists : bool }.

Record SSHTarget := mkSSH {
  ssh_Host : string;
  ssh_Port : string;
  ssh_NetworkKind : string }.

Record LeaseTarget := mkTarget {
  lt_Server : Server;
  lt_SSH : SSHTarget;
  lt_LeaseID : string }.

Definition empty_server : Server :=
  mkServer "" "" "" 0%Z "" "" None None empty_claim false false.
Definition empty_target : LeaseTarget := mkTarget empty_server (mkSSH "" "" "") "".

(** [blank(value, fallback)] and [firstNonBlank(values...)] *)
Definition blank (value fallback : string) : string :=
  if bool_decide (value = "") then fallback else value.

Fixpoint firstNonBlank (values : list string) : string :=
  match values with
  | [] => ""
  | v :: vs => if bool_decide (TrimSpace v = "") then firstNonBlank vs else TrimSpace v
  end.
