(* ===== verification/Slug.v ===== *)
(** * Lease slugs and names

    [internal/cli/slug.go]: the human-readable name of a lease, its
    normalisation, its allocation against the names in use, and the provider
    resource name derived from it.  The claim directory is consulted through
    [claimInUse], a parameter as in the code; a cancelled context is the
    parameter [ctx_err], the result of [ctx.Err()] at each check. *)

From Stdlib Require Import ZArith Lia.
From stdpp Require Import gmap strings prelude.
From S2P Require Import Prelude GoText Sha256 ClaimData.
Local Open Scope string_scope.
Local Open Scope Z_scope.

Definition maxRequestedLeaseSlugLength : nat := 41.

Definition leaseSlugAdjectives : list string :=
  ["amber"; "blue"; "brisk"; "coral"; "crimson"; "golden"; "harbor"; "jade";
   "pearl"; "quick"; "silver"; "swift"; "tidal"; "violet"].

Definition leaseSlugNouns : list string :=
  ["barnacle"; "crab"; "crayfish"; "hermit"; "krill"; "lobster"; "prawn"; "shrimp"].

Definition leaseSlugHash (value : string) : Z := fnv32a value.

(** [None] is the panic of an index out of range. *)
Definition NewLeaseSlug (leaseID : string) : option string :=
  let hash := leaseSlugHash leaseID in
  adjective ← leaseSlugAdjectives !! Z.to_nat (hash mod zlen leaseSlugAdjectives);
  noun ← leaseSlugNouns !!
    Z.to_nat ((hash / zlen leaseSlugAdjectives) mod zlen leaseSlugNouns);
  Some (adjective +:+ "-" +:+ noun).

Definition generatedLeaseSlug (leaseID : string) : option string :=
  slug ← NewLeaseSlug leaseID;
  Some (slug +:+ "-" +:+ hex_of_bytes (take 4 (sha256 leaseID))).

Definition dash : Z := 45.
Definition slug_rune (r : Z) : bool :=
  ((97 <=? r) && (r <=? 122)) || ((48 <=? r) && (r <=? 57)).

(** The loop of [NormalizeLeaseSlug] over the runes, with its [lastDash]. *)
Fixpoint slug_loop (lastDash : bool) (rs : list Z) : list Z :=
  match rs with
  | [] => []
  | r :: rs =>
      if slug_rune r then r :: slug_loop false rs
      else if lastDash then slug_loop true rs
      else dash :: slug_loop true rs
  end.

Definition NormalizeLeaseSlug (value : string) : string :=
  let value := ToLower (TrimSpace value) in
  Trim (of_bytes (slug_loop false (fst <$> runes (to_bytes value)))) [dash].

(** [slug[:41]] is reached only when [len(base) > 41]. *)
Definition SlugWithCollisionSuffix (base seed : string) : option string :=
  let base := NormalizeLeaseSlug base in
  base ← (if bool_decide (base = "") then NewLeaseSlug seed else Some base);
  let base :=
    if (maxRequestedLeaseSlugLength <? String.length base)%nat
    then Trim (sprefix base maxRequestedLeaseSlugLength) [dash] else base in
  Some (base +:+ "-" +:+ format_hex 4 (Z.land (leaseSlugHash seed) 0xffff)).

Definition requestedLeaseSlug (value : string) : res string :=
  if bool_decide (TrimSpace value = "") then Ok ""
  else
    let slug := NormalizeLeaseSlug value in
    if bool_decide (slug = "") then
      Err (Exit 2 "--slug must contain at least one letter or digit")
    else if (maxRequestedLeaseSlugLength <? String.length slug)%nat then
      Err (Exit 2 "--slug must be %d characters or fewer after normalization")
    else Ok slug.

Definition LeaseProviderName (leaseID slug : string) : string :=
  let slug := NormalizeLeaseSlug slug in
  if bool_decide (slug = "") then ReplaceByte ("crabbox-" +:+ leaseID) 95 dash
  else "crabbox-" +:+ slug +:+ "-" +:+ format_hex 8 (leaseSlugHash leaseID).

Definition ServerSlug (server : Server) : string :=
  NormalizeLeaseSlug (mlookup (sv_Labels server) "slug").

Definition serverSlugInUse (slug : string) (servers : list Server) : bool :=
  let slug := NormalizeLeaseSlug slug in
  existsb (λ server, bool_decide (ServerSlug server = slug)) servers.

(** The anchored pattern [^cbx_[a-f0-9]{12}$]. *)
Definition IsCanonicalLeaseID (value : string) : bool :=
  HasPrefix value "cbx_" && (String.length value =? 16)%nat &&
  forallb (λ b, is_digit b || ((97 <=? b) && (b <=? 102))) (drop 4 (to_bytes value)).

Definition ProviderKeyForLease (leaseID : string) : string :=
  ReplaceByte ("crabbox-" +:+ leaseID) 95 dash.

(** ** Allocation *)
Section allocate.
Context (claimInUse : string → string → res bool) (ctx_err : nat → option error).

Definition slug_in_use (generated : bool) (leaseID slug : string) (servers : list Server)
    : res bool :=
  let inUse := serverSlugInUse slug servers in
  if negb inUse && negb generated then claimInUse slug leaseID else Ok inUse.

(** The loop [for attempt := 0; attempt < 20; attempt++]: [Some] the slug
    found free, [None] when all attempts were in use. *)
Fixpoint slug_attempts (generated : bool) (leaseID base slug : string)
    (servers : list Server) (attempt fuel : nat) : res (option string) :=
  match fuel with
  | O => Ok None
  | S fuel =>
      match ctx_err attempt with
      | Some e => Err e
      | None =>
          inUse ← slug_in_use generated leaseID slug servers;
          if inUse : bool then
            match SlugWithCollisionSuffix base
                    (leaseID +:+ "-" +:+ FormatInt (Z.of_nat attempt)) with
            | Some slug' =>
                slug_attempts generated leaseID base slug' servers (S attempt) fuel
            | None => Err (Panic "index out of range")
            end
          else Ok (Some slug)
      end
  end.

Definition allocateDirectLeaseSlug (leaseID requested : string) (servers : list Server)
    : res string :=
  let base := NormalizeLeaseSlug requested in
  let generated := bool_decide (base = "") in
  match (if generated then generatedLeaseSlug leaseID else Some base) with
  | None => Err (Panic "index out of range")
  | Some base =>
      found ← slug_attempts generated leaseID base base servers 0 20;
      match found with
      | Some slug => Ok slug
      | None =>
          match SlugWithCollisionSuffix base leaseID with
          | None => Err (Panic "index out of range")
          | Some fallback =>
              inUse ← slug_in_use generated leaseID fallback servers;
              if inUse : bool then Err (Exit 2 "could not allocate a unique lease slug for %s")
              else Ok fallback
          end
      end
  end.
End allocate.

Example normalize_example : NormalizeLeaseSlug "  My  Box__42! " = "my-box-42".
Proof. vm_compute. reflexivity. Qed.
Example canonical_example : IsCanonicalLeaseID "cbx_0123456789ab" = true.
Proof. vm_compute. reflexivity. Qed.

(** ** Normal form

    A normalised slug consists of lower-case letters, digits and single
    dashes, and neither starts nor ends with a dash. *)
Fixpoint single_dashes (afterDash : bool) (bs : list Z) : Prop :=
  match bs with
  | [] => True
  | b :: bs => (b = dash → afterDash = false) ∧ single_dashes (b =? dash) bs
  end.

Definition slug_char (b : Z) : Prop := slug_rune b = true ∨ b = dash.

Definition normal_slug (bs : list Z) : Prop :=
  Forall slug_char bs ∧ single_dashes false bs ∧
  head bs ≠ Some dash ∧ last bs ≠ Some dash.

Lemma slug_char_ascii b : slug_char b → ascii_byte b.
Proof. unfold slug_char, slug_rune, ascii_byte, dash. lia. Qed.

Lemma slug_chars_ascii bs : Forall slug_char bs → Forall ascii_byte bs.
Proof. intros H. eapply Forall_impl; [exact H|]. apply slug_char_ascii. Qed.

Lemma single_dashes_weaken d bs : single_dashes d bs → single_dashes false bs.
Proof. destruct bs; cbn; naive_solver. Qed.

Lemma single_dashes_app d p q :
  single_dashes d (p ++ q) → single_dashes d p ∧ single_dashes false q.
Proof.
  revert d; induction p as [|b p IH]; intros d; cbn.
  - eauto using single_dashes_weaken.
  - intros [H1 H2]. destruct (IH _ H2). done.
Qed.

Lemma single_dashes_infix d p k q :
  single_dashes d (p ++ k ++ q) → single_dashes false k.
Proof. intros [_ H]%single_dashes_app. apply single_dashes_app in H. naive_solver. Qed.

Lemma slug_loop_chars d rs : Forall slug_char (slug_loop d rs).
Proof.
  revert d; induction rs as [|r rs IH]; intros d; cbn; [constructor|].
  destruct (slug_rune r) eqn:E; [constructor; [by left|done]|].
  destruct d; [done|]. constructor; [by right|done].
Qed.

Lemma slug_rune_not_dash r : slug_rune r = true → (r =? dash) = false.
Proof. unfold slug_rune, dash. lia. Qed.

Lemma slug_loop_single d rs : single_dashes d (slug_loop d rs).
Proof.
  revert d; induction rs as [|r rs IH]; intros d; cbn; [done|].
  destruct (slug_rune r) eqn:E.
  - cbn. rewrite slug_rune_not_dash by done. split; [|done].
    intros ->. by apply slug_rune_not_dash in E.
  - destruct d; [done|]. cbn. done.
Qed.

Lemma slug_loop_id d bs :
  Forall slug_char bs → single_dashes d bs → slug_loop d bs = bs.
Proof.
  intros H. revert d; induction H as [|b bs Hb _ IH]; intros d; cbn; [done|].
  intros [Hd Hs]. destruct Hb as [Hb | ->].
  - rewrite Hb. f_equal. apply IH. by rewrite slug_rune_not_dash in Hs.
  - rewrite (Hd eq_refl). f_equal. apply IH. done.
Qed.

Lemma Trim_dash bs :
  Forall slug_char bs →
  Trim (of_bytes bs) [dash] = of_bytes (trim_both (λ b, bool_decide (b ∈ [dash])) bs).
Proof.
  intros H. unfold Trim. rewrite to_of_bytes; [done|].
  by apply ascii_is_byte, slug_chars_ascii.
Qed.

Lemma trim_dash_normal d bs :
  Forall slug_char bs → single_dashes d bs →
  normal_slug (trim_both (λ b, bool_decide (b ∈ [dash])) bs).
Proof.
  intros H Hs. split_and!.
  - by apply Forall_trim_both.
  - destruct (trim_both_infix (λ b, bool_decide (b ∈ [dash])) bs) as (p & q & E).
    rewrite E in Hs. by eapply single_dashes_infix.
  - intros Hh%trim_both_head. apply bool_decide_eq_false in Hh. set_solver.
  - intros Hh%trim_both_last. apply bool_decide_eq_false in Hh. set_solver.
Qed.

Lemma normal_trim_id bs :
  normal_slug bs → trim_both (λ b, bool_decide (b ∈ [dash])) bs = bs.
Proof.
  intros (_ & _ & Hh & Hl); apply trim_both_id; intros x Hx;
    apply bool_decide_eq_false; rewrite list_elem_of_singleton; naive_solver.
Qed.

Lemma to_bytes_normal bs : Forall slug_char bs → to_bytes (of_bytes bs) = bs.
Proof. intros H. by apply to_of_bytes, ascii_is_byte, slug_chars_ascii. Qed.

Lemma NormalizeLeaseSlug_normal value : normal_slug (to_bytes (NormalizeLeaseSlug value)).
Proof.
  unfold NormalizeLeaseSlug. rewrite Trim_dash by apply slug_loop_chars.
  rewrite to_bytes_normal by apply Forall_trim_both, slug_loop_chars.
  eapply trim_dash_normal; [apply slug_loop_chars | apply slug_loop_single].
Qed.

Lemma slug_char_not_space b : slug_char b → is_space b = false.
Proof. unfold slug_char, slug_rune, dash, is_space. lia. Qed.

Lemma lower_slug_char b : slug_char b → lower_rune b = b.
Proof. unfold slug_char, slug_rune, dash, lower_rune. intros. repeat case_match; lia. Qed.

Lemma head_elem {A} (l : list A) x : head l = Some x → x ∈ l.
Proof. destruct l; cbn; [done|]. intros [= ->]. by left. Qed.

Lemma last_elem {A} (l : list A) x : last l = Some x → x ∈ l.
Proof. rewrite <-head_reverse. intros H%head_elem. apply elem_of_reverse. exact H. Qed.

Lemma TrimSpace_slug bs : Forall slug_char bs → TrimSpace (of_bytes bs) = of_bytes bs.
Proof.
  intros H. rewrite TrimSpace_ascii by (by apply slug_chars_ascii).
  rewrite Forall_forall in H.
  rewrite trim_both_id; [done| |]; intros x Hx; apply slug_char_not_space, H.
  - by apply head_elem.
  - by apply last_elem.
Qed.

Lemma NormalizeLeaseSlug_id bs :
  normal_slug bs → NormalizeLeaseSlug (of_bytes bs) = of_bytes bs.
Proof.
  intros Hn. pose proof Hn as (Hc & Hs & _ & _). unfold NormalizeLeaseSlug.
  assert (Forall ascii_byte bs) as Ha by (by apply slug_chars_ascii).
  rewrite TrimSpace_slug, ToLower_ascii by done.
  assert (lower_rune <$> bs = bs) as ->.
  { rewrite <-(list_fmap_id bs) at 2. apply list_fmap_ext. intros i x Hx.
    rewrite Forall_lookup in Hc. by apply lower_slug_char, (Hc i). }
  rewrite to_bytes_normal, runes_ascii, <-list_fmap_compose by done.
  change (fst ∘ (λ b : Z, (b, [b]))) with (λ b : Z, b). rewrite list_fmap_id.
  rewrite slug_loop_id by done. by rewrite Trim_dash, normal_trim_id.
Qed.

Lemma NormalizeLeaseSlug_idemp value :
  NormalizeLeaseSlug (NormalizeLeaseSlug value) = NormalizeLeaseSlug value.
Proof.
  rewrite <-(of_to_bytes (NormalizeLeaseSlug value)).
  apply NormalizeLeaseSlug_id, NormalizeLeaseSlug_normal.
Qed.

Lemma requestedLeaseSlug_ok value r :
  requestedLeaseSlug value = Ok r →
  NormalizeLeaseSlug r = r ∧ (String.length r ≤ 41)%nat.
Proof.
  unfold requestedLeaseSlug, maxRequestedLeaseSlugLength.
  destruct (bool_decide (TrimSpace value = "")).
  { intros [= <-]. split; [vm_compute; reflexivity|apply Nat.le_0_l]. }
  destruct (bool_decide (NormalizeLeaseSlug value = "")); [discriminate|].
  destruct (Nat.ltb_spec 41 (String.length (NormalizeLeaseSlug value))); [discriminate|].
  intros [= <-]. split; [apply NormalizeLeaseSlug_idemp|assumption].
Qed.

(** [NormalizeLeaseSlug] maps every string to a slug in normal form (only
    [a-z0-9] and single inner dashes) and is idempotent, so a stored slug and
    a requested one compare equal exactly when they normalise alike. *)
Theorem normalize_slug_normal_form value :
  normal_slug (to_bytes (NormalizeLeaseSlug value)) ∧
  NormalizeLeaseSlug (NormalizeLeaseSlug value) = NormalizeLeaseSlug value.
Proof.
  split; [apply NormalizeLeaseSlug_normal | apply NormalizeLeaseSlug_idemp].
Qed.

(** ** Lengths *)

Lemma slug_length_app s t : String.length (s +:+ t) = (String.length s + String.length t)%nat.
Proof. rewrite <-!length_to_bytes, to_bytes_app, length_app. done. Qed.

Lemma length_Trim s cut : (String.length (Trim s cut) ≤ String.length s)%nat.
Proof.
  unfold Trim. rewrite length_of_bytes, <-(length_to_bytes s). apply trim_both_length.
Qed.

Lemma format_hex_length k n :
  0 ≤ n < 16 ^ Z.of_nat (S k) → String.length (format_hex (S k) n) = S k.
Proof.
  intros H. unfold format_hex, format_uint.
  pose proof (digits_rev_length 16 k (digits_fuel n) n ltac:(lia) H) as Hl.
  rewrite length_of_bytes, length_app, length_replicate, length_fmap, length_reverse. lia.
Qed.

Lemma leaseSlugHash_hex8 s : String.length (format_hex 8 (leaseSlugHash s)) = 8%nat.
Proof.
  apply format_hex_length. pose proof (fnv32a_range s). unfold leaseSlugHash.
  change (16 ^ Z.of_nat 8) with (2 ^ 32). lia.
Qed.

Lemma leaseSlugHash_hex4 s :
  String.length (format_hex 4 (Z.land (leaseSlugHash s) 0xffff)) = 4%nat.
Proof.
  apply format_hex_length. change 0xffff with (Z.ones 16). rewrite Z.land_ones by lia.
  change (16 ^ Z.of_nat 4) with (2 ^ 16). apply Z.mod_pos_bound. lia.
Qed.

(** The two table lookups of [NewLeaseSlug] are in range. *)
Lemma NewLeaseSlug_total leaseID :
  ∃ slug, NewLeaseSlug leaseID = Some slug ∧ (String.length slug ≤ 16)%nat.
Proof.
  unfold NewLeaseSlug. pose proof (fnv32a_range leaseID) as Hh.
  set (h := leaseSlugHash leaseID). fold (leaseSlugHash leaseID) in Hh. fold h in Hh.
  change (zlen leaseSlugAdjectives) with 14. change (zlen leaseSlugNouns) with 8.
  assert (∀ (l : list string) n i, Forall (λ s, (String.length s ≤ n)%nat) l →
            (i < length l)%nat → ∃ s, l !! i = Some s ∧ (String.length s ≤ n)%nat) as Hget.
  { intros l n i Hl [s Hs]%lookup_lt_is_Some_2. exists s. split; [done|].
    rewrite Forall_lookup in Hl. eauto. }
  pose proof (Z.mod_pos_bound h 14). pose proof (Z.mod_pos_bound (h / 14) 8).
  destruct (Hget leaseSlugAdjectives 7%nat (Z.to_nat (h mod 14))) as (a & -> & Ha).
  { repeat constructor. } { cbn. lia. }
  destruct (Hget leaseSlugNouns 8%nat (Z.to_nat ((h / 14) mod 8))) as (b & -> & Hb).
  { repeat constructor. } { cbn. lia. }
  cbn. eexists. split; [done|]. rewrite !slug_length_app. cbn. lia.
Qed.

Lemma sprefix_length s n : (String.length (sprefix s n) ≤ n)%nat.
Proof. unfold sprefix. rewrite length_of_bytes, length_take. lia. Qed.

Lemma SlugWithCollisionSuffix_total base seed :
  ∃ slug, SlugWithCollisionSuffix base seed = Some slug ∧ (String.length slug ≤ 46)%nat.
Proof.
  unfold SlugWithCollisionSuffix.
  assert (∃ b, (if bool_decide (NormalizeLeaseSlug base = "") then NewLeaseSlug seed
                else Some (NormalizeLeaseSlug base)) = Some b) as [b Hb].
  { case_bool_decide; [destruct (NewLeaseSlug_total seed) as (? & ? & _)|]; eauto. }
  rewrite Hb. cbn [mbind option_bind]. eexists. split; [done|].
  rewrite !slug_length_app, leaseSlugHash_hex4.
  destruct (Nat.ltb_spec maxRequestedLeaseSlugLength (String.length b)) as [Hlt|Hge].
  - pose proof (length_Trim (sprefix b maxRequestedLeaseSlugLength) [dash]).
    pose proof (sprefix_length b maxRequestedLeaseSlugLength).
    unfold maxRequestedLeaseSlugLength in *. cbn. lia.
  - unfold maxRequestedLeaseSlugLength in *. cbn. lia.
Qed.

(** ** Every allocated slug is in normal form *)

Lemma single_dashes_join d a b :
  single_dashes d a → a ≠ [] → last a ≠ Some dash →
  single_dashes false b → head b ≠ Some dash → single_dashes d (a ++ dash :: b).
Proof.
  revert d; induction a as [|x a IH]; intros d; cbn; [done|].
  intros [Hx Ha] _ Hl Hb Hh. split; [done|].
  destruct a as [|y a]; [|by apply IH].
  assert (x ≠ dash) as Hxd by (cbn in Hl; congruence).
  cbn. split; [by rewrite (proj2 (Z.eqb_neq x dash) Hxd)|].
  destruct b as [|z b]; cbn in *; [done|]. split; [congruence|naive_solver].
Qed.

Lemma normal_join a b :
  normal_slug a → normal_slug b → a ≠ [] → b ≠ [] → normal_slug (a ++ dash :: b).
Proof.
  intros (Hca & Hsa & Hha & Hla) (Hcb & Hsb & Hhb & Hlb) Ha Hb. split_and!.
  - apply Forall_app. split; [done|]. constructor; [by right|done].
  - by apply single_dashes_join.
  - by destruct a.
  - rewrite last_app. destruct b as [|z b]; [done|].
    change (dash :: z :: b) with ([dash] ++ (z :: b))%list. rewrite last_app.
    destruct (last (z :: b)) eqn:E; [done|]. by apply last_None in E.
Qed.

Lemma slug_runes_normal bs : Forall (λ b, slug_rune b = true) bs → normal_slug bs.
Proof.
  intros H. assert (dash ∉ bs) as Hd.
  { intros Hin. rewrite Forall_forall in H. by specialize (H _ Hin). }
  split_and!.
  - eapply Forall_impl; [exact H|]. by left.
  - clear Hd. generalize false as d.
    induction H as [|b bs Hb _ IH]; intros d; cbn; [done|]. split; [|done].
    intros ->. done.
  - intros ?%head_elem. done.
  - intros ?%last_elem. done.
Qed.

Lemma digits_rev_range base fuel : ∀ n,
  0 < base → 0 ≤ n → Forall (λ d, 0 ≤ d < base) (digits_rev base fuel n).
Proof.
  induction fuel as [|fuel IH]; intros n Hb Hn; cbn; [constructor|].
  destruct (Z.ltb_spec n base).
  - by repeat constructor.
  - constructor; [by apply Z.mod_pos_bound|]. apply IH; [done|]. by apply Z.div_pos.
Qed.

Lemma digit_char_slug d : 0 ≤ d < 16 → slug_rune (digit_char d) = true.
Proof. unfold slug_rune, digit_char. intros. case_match; lia. Qed.

Lemma format_hex_normal w n :
  0 ≤ n → normal_slug (to_bytes (format_hex w n)).
Proof.
  intros Hn. unfold format_hex, format_uint.
  assert (Forall (λ b, slug_rune b = true)
            (replicate (w - length (digit_char <$> reverse (digits_rev 16 (digits_fuel n) n))) 48 ++
             (digit_char <$> reverse (digits_rev 16 (digits_fuel n) n)))%list) as H.
  { apply Forall_app. split; [by apply Forall_replicate|].
    apply Forall_fmap, Forall_reverse. eapply Forall_impl; [by apply digits_rev_range|].
    intros d ?. by apply digit_char_slug. }
  rewrite to_of_bytes; [by apply slug_runes_normal|].
  apply ascii_is_byte, slug_chars_ascii. eapply Forall_impl; [exact H|]. by left.
Qed.

Lemma elem_of_drop_while {A} (f : A → bool) l x :
  x ∈ l → f x = false → x ∈ drop_while f l.
Proof.
  intros Hin Hf. induction l as [|y l IH]; cbn; [done|].
  destruct (f y) eqn:E; [|done].
  apply elem_of_cons in Hin as [-> | Hin]; [congruence|auto].
Qed.

Lemma elem_of_trim_both {A} (f : A → bool) l x :
  x ∈ l → f x = false → x ∈ trim_both f l.
Proof.
  intros Hin Hf. unfold trim_both. apply elem_of_reverse, elem_of_drop_while; [|done].
  by apply elem_of_reverse, elem_of_drop_while.
Qed.

(** Truncating a normal slug and trimming it leaves a nonempty normal slug. *)
Lemma normal_truncate bs n :
  normal_slug bs → bs ≠ [] → (0 < n)%nat →
  let t := trim_both (λ b, bool_decide (b ∈ [dash])) (take n bs) in
  normal_slug t ∧ t ≠ [].
Proof.
  intros (Hc & Hs & Hh & _) Hne Hn t. split.
  - apply (trim_dash_normal false); [by apply Forall_take|].
    rewrite <-(take_drop n bs) in Hs. by apply single_dashes_app in Hs as [? _].
  - destruct bs as [|x bs]; [done|]. destruct n as [|n]; [lia|].
    assert (x ∈ t) as Hx; [|by intros E; rewrite E in Hx; set_solver].
    apply elem_of_trim_both; [by left|].
    apply bool_decide_eq_false. rewrite list_elem_of_singleton. cbn in Hh. congruence.
Qed.

Lemma NewLeaseSlug_normal leaseID slug :
  NewLeaseSlug leaseID = Some slug → normal_slug (to_bytes slug) ∧ slug ≠ "".
Proof.
  unfold NewLeaseSlug. intros (a & Ha & (b & Hb & [= <-])%bind_Some)%bind_Some.
  assert (∀ (l : list string) i s, l !! i = Some s →
            forallb (λ s, forallb slug_rune (to_bytes s) && negb (bool_decide (s = ""))) l = true →
            Forall (λ b, slug_rune b = true) (to_bytes s) ∧ to_bytes s ≠ []) as Hword.
  { intros l i s Hs Hl. rewrite forallb_forall in Hl.
    apply list_elem_of_lookup_2, list_elem_of_In, Hl, andb_true_iff in Hs as [H1 H2].
    split; [by apply Forall_forall; intros x Hx; rewrite forallb_forall in H1;
            apply H1, list_elem_of_In|].
    destruct s; done. }
  destruct (Hword _ _ _ Ha) as [Ha1 Ha2]; [done|].
  destruct (Hword _ _ _ Hb) as [Hb1 Hb2]; [done|].
  rewrite !to_bytes_app. change (to_bytes "-") with [dash].
  split; [apply normal_join; auto using slug_runes_normal|].
  intros E. apply (f_equal to_bytes) in E. rewrite !to_bytes_app in E.
  by destruct (to_bytes a).
Qed.

Lemma SlugWithCollisionSuffix_normal base seed slug :
  SlugWithCollisionSuffix base seed = Some slug → normal_slug (to_bytes slug).
Proof.
  unfold SlugWithCollisionSuffix. intros (b & Hb & [= <-])%bind_Some.
  assert (normal_slug (to_bytes b) ∧ b ≠ "") as [Hn Hne].
  { revert Hb. case_bool_decide as Hz; [apply NewLeaseSlug_normal|].
    intros [= <-]. split; [apply NormalizeLeaseSlug_normal|done]. }
  assert (to_bytes b ≠ []) as Hne' by (by destruct b).
  rewrite !to_bytes_app. change (to_bytes "-") with [dash].
  assert (0 ≤ Z.land (leaseSlugHash seed) 0xffff) as Hh by (apply Z.land_nonneg; lia).
  assert (to_bytes (format_hex 4 (Z.land (leaseSlugHash seed) 0xffff)) ≠ []) as Hx.
  { intros E. apply (f_equal length) in E.
    by rewrite length_to_bytes, leaseSlugHash_hex4 in E. }
  destruct (Nat.ltb_spec maxRequestedLeaseSlugLength (String.length b)).
  - destruct (normal_truncate (to_bytes b) maxRequestedLeaseSlugLength) as [Ht Ht']; [done..| |].
    { unfold maxRequestedLeaseSlugLength. lia. }
    unfold sprefix. rewrite Trim_dash by (apply Forall_take, Hn).
    rewrite to_bytes_normal by apply Ht.
    apply normal_join; auto using format_hex_normal.
  - apply normal_join; auto using format_hex_normal.
Qed.

Lemma hex_of_bytes_slug bs :
  Forall (λ b, 0 ≤ b < 256) bs →
  Forall (λ b, slug_rune b = true)
    (concat ((λ b, [digit_char (b / 16); digit_char (b mod 16)]) <$> bs)).
Proof.
  induction 1 as [|b bs Hb _ IH]; cbn; [constructor|].
  constructor; [|constructor; [|done]]; apply digit_char_slug.
  - split; [apply Z.div_pos; lia|apply Z.div_lt_upper_bound; lia].
  - by apply Z.mod_pos_bound.
Qed.

Lemma generatedLeaseSlug_total leaseID :
  ∃ slug, generatedLeaseSlug leaseID = Some slug ∧
          normal_slug (to_bytes slug) ∧ slug ≠ "" ∧ (String.length slug ≤ 25)%nat.
Proof.
  unfold generatedLeaseSlug. destruct (NewLeaseSlug_total leaseID) as (s & Hs & Hl).
  destruct (NewLeaseSlug_normal _ _ Hs) as [Hn Hne]. rewrite Hs. cbn -[sha256 hex_of_bytes].
  eexists. split; [done|].
  assert (Forall (λ b, 0 ≤ b < 256) (take 4 (sha256 leaseID))) as Hr.
  { apply Forall_take, sha256_range. }
  pose proof (hex_of_bytes_slug _ Hr) as Hx. unfold hex_of_bytes.
  assert (length (take 4 (sha256 leaseID)) = 4%nat) as H4.
  { by rewrite length_take, length_sha256. }
  set (h := concat _) in *.
  assert (length h = 8%nat) as Hh.
  { subst h. destruct (take 4 (sha256 leaseID)) as [|? [|? [|? [|? [|]]]]]; done. }
  assert (to_bytes (of_bytes h) = h) as Eh.
  { apply to_of_bytes, ascii_is_byte, slug_chars_ascii.
    eapply Forall_impl; [exact Hx|]. by left. }
  rewrite !to_bytes_app, Eh, !slug_length_app, length_of_bytes, Hh.
  change (to_bytes "-") with [dash]. split_and!.
  - apply normal_join; [done|by apply slug_runes_normal|by destruct s|].
    by intros ->.
  - by destruct s.
  - cbn. lia.
Qed.

(** ** Allocation *)

Local Opaque generatedLeaseSlug.

Section allocate_facts.
Context (claimInUse : string → string → res bool) (ctx_err : nat → option error).

Lemma slug_in_use_false generated leaseID slug servers :
  slug_in_use claimInUse generated leaseID slug servers = Ok false →
  serverSlugInUse slug servers = false ∧
  (generated = false → claimInUse slug leaseID = Ok false).
Proof. unfold slug_in_use. destruct (serverSlugInUse _ _), generated; naive_solver. Qed.

Lemma slug_attempts_free generated leaseID base servers fuel : ∀ attempt slug found,
  slug_attempts claimInUse ctx_err generated leaseID base slug servers attempt fuel
    = Ok (Some found) →
  slug_in_use claimInUse generated leaseID found servers = Ok false ∧
  (found = slug ∨ ∃ seed, SlugWithCollisionSuffix base seed = Some found).
Proof.
  induction fuel as [|fuel IH]; intros attempt slug found; cbn; [done|].
  destruct (ctx_err attempt); [done|].
  destruct (slug_in_use _ _ _ slug _) as [[]|e] eqn:E; cbn; [|naive_solver|done].
  destruct (SlugWithCollisionSuffix base _) as [slug'|] eqn:Es; [|done].
  intros [? [-> | ?]]%IH; eauto.
Qed.

Lemma allocate_cases leaseID requested servers slug :
  allocateDirectLeaseSlug claimInUse ctx_err leaseID requested servers = Ok slug →
  let generated := bool_decide (NormalizeLeaseSlug requested = "") in
  ∃ base, (if generated then generatedLeaseSlug leaseID
           else Some (NormalizeLeaseSlug requested)) = Some base ∧
  slug_in_use claimInUse generated leaseID slug servers = Ok false ∧
  (slug = base ∨ ∃ seed, SlugWithCollisionSuffix base seed = Some slug).
Proof.
  unfold allocateDirectLeaseSlug. cbv zeta.
  destruct (if bool_decide _ then _ else _) as [base|]; [|done].
  destruct (slug_attempts _ _ _ _ _ _ _ _ _) as [[found|]|] eqn:E; cbn; [| |done].
  - intros [= <-]. apply slug_attempts_free in E as [? ?]. eauto.
  - destruct (SlugWithCollisionSuffix base leaseID) as [fb|] eqn:Es; [|done].
    destruct (slug_in_use _ _ _ _ _) as [[]|] eqn:Eu; cbn; [done| |done].
    intros [= <-]. eauto 10.
Qed.
End allocate_facts.

(** A slug that allocation returns is in normal form, is carried by none of
    the provider's servers and, when the caller asked for a name, the claim
    directory reported it free for this lease. *)
Theorem allocated_slug_is_free claimInUse ctx_err leaseID requested servers slug :
  allocateDirectLeaseSlug claimInUse ctx_err leaseID requested servers = Ok slug →
  normal_slug (to_bytes slug) ∧
  (∀ server, server ∈ servers → ServerSlug server ≠ slug) ∧
  (NormalizeLeaseSlug requested ≠ "" → claimInUse slug leaseID = Ok false).
Proof.
  intros (base & Hb & [Hs Hc]%slug_in_use_false & Hslug)%allocate_cases.
  assert (normal_slug (to_bytes slug)) as Hn.
  { destruct Hslug as [-> | [seed ?]]; [|by eapply SlugWithCollisionSuffix_normal].
    revert Hb. case_bool_decide.
    - destruct (generatedLeaseSlug_total leaseID) as (? & -> & ? & _). by intros [= <-].
    - intros [= <-]. apply NormalizeLeaseSlug_normal. }
  split_and!; [done| |intros Hne; apply Hc; by apply bool_decide_eq_false].
  intros server Hin Heq. apply not_true_iff_false in Hs. apply Hs.
  unfold serverSlugInUse. rewrite <-(of_to_bytes slug), (NormalizeLeaseSlug_id _ Hn), of_to_bytes.
  apply existsb_exists. exists server. split; [by apply list_elem_of_In|].
  by apply bool_decide_eq_true.
Qed.

Lemma allocated_slug_witness :
  normal_slug (to_bytes "my-box") ∧
  (∀ server, server ∈ ([] : list Server) → ServerSlug server ≠ "my-box") ∧
  (NormalizeLeaseSlug "My Box" ≠ "" → Ok false = Ok false).
Proof.
  apply (allocated_slug_is_free (λ _ _, Ok false) (λ _, None) "cbx_0123456789ab" "My Box" []).
  vm_compute. reflexivity.
Defined.

(** Provider resource names fit in a DNS label: for a slug the command
    line accepts and the slug allocated from it (or generated when none is
    requested), [LeaseProviderName] has at most 63 characters. *)
Theorem provider_name_fits_label claimInUse ctx_err value leaseID requested servers slug :
  requestedLeaseSlug value = Ok requested →
  allocateDirectLeaseSlug claimInUse ctx_err leaseID requested servers = Ok slug →
  (String.length (LeaseProviderName leaseID slug) ≤ 63)%nat.
Proof.
  intros Hreq Halloc.
  pose proof (allocate_cases _ _ _ _ _ _ Halloc) as (base & Hb & _ & Hslug).
  assert (NormalizeLeaseSlug requested = requested ∧ (String.length requested ≤ 41)%nat) as [Hn Hl].
  { by eapply requestedLeaseSlug_ok. }
  assert (normal_slug (to_bytes base) ∧ base ≠ "" ∧ (String.length base ≤ 41)%nat) as (Hbn & Hbe & Hbl).
  { revert Hb. case_bool_decide as Hz.
    - destruct (generatedLeaseSlug_total leaseID) as (s & -> & ? & ? & ?).
      intros [= <-]. split_and!; [done..|lia].
    - intros [= <-]. rewrite Hn. split_and!; [|congruence|done].
      rewrite <-Hn. apply NormalizeLeaseSlug_normal. }
  assert (normal_slug (to_bytes slug) ∧ slug ≠ "" ∧ (String.length slug ≤ 46)%nat) as (Hsn & Hse & Hsl).
  { destruct Hslug as [-> | [seed Hs]]; [split_and!; [done..|lia]|].
    pose proof (SlugWithCollisionSuffix_normal _ _ _ Hs).
    destruct (SlugWithCollisionSuffix_total base seed) as (s & Hs' & ?).
    rewrite Hs in Hs'. injection Hs' as <-. split_and!; [done| |done].
    intros ->. unfold SlugWithCollisionSuffix in Hs.
    apply bind_Some in Hs as (b & _ & [= E]).
    apply (f_equal String.length) in E. rewrite !slug_length_app in E. cbn in E. lia. }
  unfold LeaseProviderName. rewrite <-(of_to_bytes slug), (NormalizeLeaseSlug_id _ Hsn), of_to_bytes.
  rewrite bool_decide_eq_false_2 by done.
  rewrite !slug_length_app, leaseSlugHash_hex8. cbn. lia.
Qed.

Lemma provider_name_witness :
  (String.length (LeaseProviderName "cbx_0123456789ab" "my-box") ≤ 63)%nat.
Proof.
  apply (provider_name_fits_label (λ _ _, Ok false) (λ _, None) "My Box"
           "cbx_0123456789ab" "my-box" [] "my-box").
  - vm_compute. reflexivity.
  - vm_compute. reflexivity.
Defined.
