(* ===== verification/Labels.v ===== *)
(** * Provider labels and lease expiry

    [internal/cli/provider_labels.go], the duration clamping of
    [internal/cli/config.go] and the reaper's decision of
    [internal/cli/pool.go]: the labels a lease is created with, how a touch
    renews them, and when the resource they describe is cleaned up.

    [time.ParseDuration], which only reads hand-written labels such as [1h30m],
    is the parameter [ParseDuration]: the theorems hold for every result. *)

From Stdlib Require Import ZArith Lia.
From stdpp Require Import gmap strings prelude.
From S2P Require Import Prelude GoText GoTime Sha256 ClaimData Slug.
Local Open Scope string_scope.
Local Open Scope Z_scope.

(** The fields of [Config] the labels depend on. *)
Record TailscaleConfig := mkTailscale {
  ts_Enabled : bool; ts_Hostname : string; ts_Tags : list string;
  ts_ExitNode : string; ts_ExitNodeAllowLANAccess : bool }.

Record Config := mkConfig {
  cfg_Class : string; cfg_Profile : string; cfg_ProviderKey : string;
  cfg_TargetOS : string; cfg_WindowsMode : string; cfg_ServerType : string;
  cfg_TTL : Z; cfg_MaxTTL : Z; cfg_IdleTimeout : Z;
  cfg_Pond : string; cfg_ExposedPorts : list string;
  cfg_Desktop : bool; cfg_DesktopEnv : string; cfg_Browser : bool; cfg_Code : bool;
  cfg_Tailscale : TailscaleConfig }.

(** [defaultConfig()] sets both to 30 minutes. *)
Definition default_TTL : Z := 30 * Minute.
Definition default_IdleTimeout : Z := 30 * Minute.

Definition EffectiveMaxTTL (cfg : Config) : Z :=
  if cfg_MaxTTL cfg <=? 0 then 4 * Hour else Z.min (cfg_MaxTTL cfg) (24 * Hour).

Definition clampDirectLeaseDurations (cfg : Config) : Config :=
  let maxTTL := EffectiveMaxTTL cfg in
  let ttl := Z.min (cfg_TTL cfg) maxTTL in
  let idle := Z.min (cfg_IdleTimeout cfg) ttl in
  mkConfig (cfg_Class cfg) (cfg_Profile cfg) (cfg_ProviderKey cfg) (cfg_TargetOS cfg)
    (cfg_WindowsMode cfg) (cfg_ServerType cfg) ttl maxTTL idle (cfg_Pond cfg)
    (cfg_ExposedPorts cfg) (cfg_Desktop cfg) (cfg_DesktopEnv cfg) (cfg_Browser cfg)
    (cfg_Code cfg) (cfg_Tailscale cfg).

Definition directLeaseExpiresAtFrom (createdAt lastTouchedAt ttl idleTimeout : Z) : Z :=
  let expiresAt := time_add lastTouchedAt idleTimeout in
  if ttl >? 0 then
    let ttlExpiresAt := time_add createdAt ttl in
    if ttlExpiresAt <? expiresAt then ttlExpiresAt else expiresAt
  else expiresAt.

Definition directLeaseExpiresAt (now : Z) (cfg : Config) : Z :=
  directLeaseExpiresAtFrom now now (cfg_TTL cfg) (cfg_IdleTimeout cfg).

Definition LeaseLabelTime (t : Z) : string := FormatInt (UnixSeconds t).

Definition parseLeaseLabelTime (value : string) : option Z :=
  let value := TrimSpace value in
  if bool_decide (value = "") then None
  else match ParseInt value with
  | Some seconds => if seconds >? 0 then Some (UnixTime seconds) else ParseRFC3339 value
  | None => ParseRFC3339 value
  end.

Definition durationSecondsLabel (duration : Z) : string :=
  if duration <=? 0 then "" else FormatInt (Z.quot (RoundSecond duration) Second).

(** ** Label values *)

Definition label_rune (r : Z) : bool :=
  ((97 <=? r) && (r <=? 122)) || ((65 <=? r) && (r <=? 90)) ||
  ((48 <=? r) && (r <=? 57)) || (r =? 95) || (r =? 46) || (r =? 45).

(** The loop over the runes: each writes one byte, and the loop stops once 63
    bytes are written. *)
Definition label_loop (rs : list Z) : list Z :=
  take 63 ((λ r, if label_rune r then r else 95) <$> rs).

Definition sanitizeProviderLabelValue (value : string) : string :=
  let value := TrimSpace value in
  if bool_decide (value = "") then "unknown"
  else
    let out := Trim (of_bytes (label_loop (fst <$> runes (to_bytes value)))) [95; 46; 45] in
    if bool_decide (out = "") then "unknown" else out.

Definition sanitizeProviderLabels (labels : gmap string string) : gmap string string :=
  map_imap (λ key value,
    Some (if bool_decide (key = "work_root") then value
          else sanitizeProviderLabelValue value)) labels.

(** ** Labels of a new lease *)

Definition fmt_bool (b : bool) : string := if b then "true" else "false".

Fixpoint join (sep : string) (parts : list string) : string :=
  match parts with
  | [] => ""
  | [p] => p
  | p :: ps => p +:+ sep +:+ join sep ps
  end.

Definition NormalizePondName (value : string) : string := NormalizeLeaseSlug value.
Definition renderExposedPortsLabel (ports : list string) : string := join "-" ports.
Definition normalizedDesktopEnv (value : string) : string :=
  let value := ToLower (TrimSpace value) in
  if bool_decide (value = "") then "xfce" else value.

(** [labels[k] = v], executed only under the condition [b]. *)
Definition set_when (b : bool) (k v : string) (labels : gmap string string) :=
  if b then <[k := v]> labels else labels.

Definition DirectLeaseLabels (cfg : Config) (leaseID slug provider market : string)
    (keep : bool) (now : Z) : gmap string string :=
  let cfg := clampDirectLeaseDurations cfg in
  let expiresAt := directLeaseExpiresAt now cfg in
  let labels : gmap string string := list_to_map [
    ("class", cfg_Class cfg); ("crabbox", "true"); ("created_by", "crabbox");
    ("keep", fmt_bool keep); ("lease", leaseID); ("slug", NormalizeLeaseSlug slug);
    ("profile", cfg_Profile cfg); ("provider_key", cfg_ProviderKey cfg);
    ("provider", provider); ("target", cfg_TargetOS cfg);
    ("server_type", cfg_ServerType cfg); ("state", "leased");
    ("created_at", LeaseLabelTime now); ("last_touched_at", LeaseLabelTime now);
    ("idle_timeout", durationSecondsLabel (cfg_IdleTimeout cfg));
    ("idle_timeout_secs", durationSecondsLabel (cfg_IdleTimeout cfg));
    ("ttl_secs", durationSecondsLabel (cfg_TTL cfg));
    ("max_ttl_secs", durationSecondsLabel (EffectiveMaxTTL cfg));
    ("expires_at", LeaseLabelTime expiresAt)] in
  let pond := NormalizePondName (cfg_Pond cfg) in
  let ports := renderExposedPortsLabel (cfg_ExposedPorts cfg) in
  let ts := cfg_Tailscale cfg in
  let labels := set_when (negb (bool_decide (market = ""))) "market" market labels in
  let labels := set_when (negb (bool_decide (pond = ""))) "pond" pond labels in
  let labels := set_when (negb (bool_decide (ports = ""))) "crabbox_exposed_ports" ports labels in
  let labels := set_when (bool_decide (cfg_TargetOS cfg = "windows"))
                  "windows_mode" (cfg_WindowsMode cfg) labels in
  let labels := set_when (cfg_Desktop cfg) "desktop" "true" labels in
  let labels := set_when (cfg_Desktop cfg)
                  "desktop_env" (normalizedDesktopEnv (cfg_DesktopEnv cfg)) labels in
  let labels := set_when (cfg_Browser cfg) "browser" "true" labels in
  let labels := set_when (cfg_Code cfg) "code" "true" labels in
  let labels := set_when (ts_Enabled ts) "tailscale" "true" labels in
  let labels := set_when (ts_Enabled ts) "tailscale_state" "requested" labels in
  let labels := set_when (ts_Enabled ts) "tailscale_hostname" (ts_Hostname ts) labels in
  let labels := set_when (ts_Enabled ts) "tailscale_tags" (join "," (ts_Tags ts)) labels in
  let exit := ts_Enabled ts && negb (bool_decide (ts_ExitNode ts = "")) in
  let labels := set_when exit "tailscale_exit_node" (ts_ExitNode ts) labels in
  let labels := set_when exit "tailscale_exit_node_allow_lan_access"
                  (fmt_bool (ts_ExitNodeAllowLANAccess ts)) labels in
  sanitizeProviderLabels labels.

(** ** The reaper's decision *)

Definition guestExpiryTimeValid (t : Z) : bool :=
  (UnixSeconds t >? 0) && (String.length (FormatInt (UnixSeconds t)) <=? 12)%nat.

Fixpoint cleanupExpiry_keys (labels : gomap) (keys : list string) : option Z :=
  match keys with
  | [] => None
  | key :: keys =>
      let value := TrimSpace (mlookup labels key) in
      if bool_decide (value = "") then cleanupExpiry_keys labels keys
      else match parseLeaseLabelTime value with
      | Some parsed => if guestExpiryTimeValid parsed then Some parsed
                       else cleanupExpiry_keys labels keys
      | None => cleanupExpiry_keys labels keys
      end
  end.

Definition cleanupExpiry (labels : gomap) : option Z :=
  cleanupExpiry_keys labels ["expires_at"; "ttl"].

Definition shouldCleanupServer (server : Server) (now : Z) : bool * string :=
  let labels := sv_Labels server in
  if bool_decide (labels = None) || negb (bool_decide (mlookup labels "crabbox" = "true"))
  then (false, "missing labels")
  else
    let state := ToLower (mlookup labels "state") in
    if bool_decide (state ∈ ["running"; "provisioning"]) then
      match cleanupExpiry labels with
      | Some expiresAt => if now >? time_add expiresAt Hour then (true, "stale state=" +:+ state)
                          else (false, "state=" +:+ state)
      | None => (false, "state=" +:+ state)
      end
    else if bool_decide (state ∈ ["leased"; "ready"; "active"]) then
      match cleanupExpiry labels with
      | Some expiresAt => if now >? expiresAt then (true, "expired state=" +:+ state)
                          else (false, "state=" +:+ state)
      | None => (false, "state=" +:+ state)
      end
    else if bool_decide (state ∈ ["failed"; "released"; "expired"]) then (true, "state=" +:+ state)
    else match cleanupExpiry labels with
    | None => (false, "missing expires_at")
    | Some expiresAt => if now >? expiresAt then (true, "expired") else (false, "not expired")
    end.

(** ** Touching a lease *)
Section touch.
Context (ParseDuration : string → option Z).

(** [time.Duration(seconds) * time.Second] wraps around. *)
Definition parseDurationSecondsLabel (value : string) : option Z :=
  let value := TrimSpace value in
  if bool_decide (value = "") then None
  else
    let fallback :=
      match ParseDuration value with
      | Some duration => if duration >? 0 then Some duration else None
      | None => None
      end in
    match Atoi value with
    | Some seconds => if seconds >? 0 then Some (wrap64 (seconds * Second)) else fallback
    | None => fallback
    end.

Definition directLeaseIdleTimeout (labels : gomap) : option Z :=
  match parseDurationSecondsLabel (mlookup labels "idle_timeout_secs") with
  | Some d => Some d
  | None => parseDurationSecondsLabel (mlookup labels "idle_timeout")
  end.

Definition TouchDirectLeaseLabelsWithIdleTimeoutOverride (labels : gmap string string)
    (cfg : Config) (state : string) (now : Z) (idleTimeoutOverride : option Z)
    : gmap string string :=
  let get (m : gmap string string) k := mlookup (Some m) k in
  let next := labels in
  let next := set_when (negb (bool_decide (state = "")))
                "state" (sanitizeProviderLabelValue state) next in
  let '(createdAt, next) :=
    match parseLeaseLabelTime (get next "created_at") with
    | Some createdAt => (createdAt, next)
    | None => (now, <["created_at" := LeaseLabelTime now]> next)
    end in
  let idleTimeout :=
    match idleTimeoutOverride with
    | Some override => override
    | None =>
        match parseDurationSecondsLabel (get next "idle_timeout_secs") with
        | Some stored => stored
        | None =>
            match parseDurationSecondsLabel (get next "idle_timeout") with
            | Some stored => stored
            | None => cfg_IdleTimeout cfg
            end
        end
    end in
  let idleTimeout := if idleTimeout <=? 0 then default_IdleTimeout else idleTimeout in
  let ttl :=
    match parseDurationSecondsLabel (get next "ttl_secs") with
    | Some stored => stored
    | None => cfg_TTL cfg
    end in
  let ttl := if ttl <=? 0 then default_TTL else ttl in
  let ttl := Z.min ttl (EffectiveMaxTTL cfg) in
  let idleTimeout := Z.min idleTimeout ttl in
  let next := <["last_touched_at" := LeaseLabelTime now]> next in
  let next := <["idle_timeout" := durationSecondsLabel idleTimeout]> next in
  let next := <["idle_timeout_secs" := durationSecondsLabel idleTimeout]> next in
  let next := <["ttl_secs" := durationSecondsLabel ttl]> next in
  <["expires_at" := LeaseLabelTime (directLeaseExpiresAtFrom createdAt now ttl idleTimeout)]> next.

Definition TouchDirectLeaseLabels (labels : gmap string string) (cfg : Config)
    (state : string) (now : Z) : gmap string string :=
  TouchDirectLeaseLabelsWithIdleTimeoutOverride labels cfg state now None.
End touch.

(** ** Label values are valid *)

Lemma label_rune_ascii b : label_rune b = true → ascii_byte b.
Proof. unfold label_rune, ascii_byte. lia. Qed.

Lemma label_loop_chars rs : Forall (λ b, label_rune b = true) (label_loop rs).
Proof.
  unfold label_loop. apply Forall_take, Forall_fmap, Forall_forall. intros r _. cbn.
  by destruct (label_rune r) eqn:E.
Qed.

Lemma label_chars_ascii bs : Forall (λ b, label_rune b = true) bs → Forall ascii_byte bs.
Proof. intros H. eapply Forall_impl; [exact H|]. apply label_rune_ascii. Qed.

Definition label_edge (b : Z) : bool := bool_decide (b ∈ [95; 46; 45]).

(** A label value the providers accept: one to 63 characters of [A-Za-z0-9_.-],
    with no separator at either end. *)
Definition valid_label (bs : list Z) : Prop :=
  bs ≠ [] ∧ (length bs ≤ 63)%nat ∧ Forall (λ b, label_rune b = true) bs ∧
  (∀ b, head bs = Some b → label_edge b = false) ∧
  (∀ b, last bs = Some b → label_edge b = false).

Lemma Trim_edges bs :
  Forall (λ b, label_rune b = true) bs →
  to_bytes (Trim (of_bytes bs) [95; 46; 45]) = trim_both label_edge bs.
Proof.
  intros H. pose proof (label_chars_ascii _ H) as Ha.
  unfold Trim. rewrite (to_of_bytes bs) by by apply ascii_is_byte.
  apply to_of_bytes, ascii_is_byte, Forall_trim_both, Ha.
Qed.

(** Every value [sanitizeProviderLabelValue] produces is a valid provider
    label value, whatever the input: nonempty, at most 63 characters drawn
    from letters, digits, [_], [.] and [-], starting and ending with a letter
    or digit. *)
Theorem sanitized_label_valid value :
  valid_label (to_bytes (sanitizeProviderLabelValue value)).
Proof.
  assert (valid_label (to_bytes "unknown")) as Hu.
  { split_and!; [done|cbn; lia|by repeat constructor| |]; intros b [= <-]; done. }
  unfold sanitizeProviderLabelValue. case_bool_decide; [done|].
  case_bool_decide as Hne; [done|].
  set (bs := label_loop _) in *. pose proof (label_loop_chars (fst <$> runes (to_bytes (TrimSpace value)))) as Hc.
  fold bs in Hc. rewrite Trim_edges by done. split_and!.
  - intros E. apply Hne. apply to_bytes_inj. by rewrite Trim_edges.
  - etrans; [apply trim_both_length|]. subst bs. unfold label_loop. rewrite length_take. lia.
  - by apply Forall_trim_both.
  - apply trim_both_head.
  - apply trim_both_last.
Qed.

Lemma digit_not_edge b : is_digit b = true → label_edge b = false.
Proof.
  intros Hd. apply bool_decide_eq_false. unfold is_digit in Hd.
  rewrite !elem_of_cons, elem_of_nil. lia.
Qed.

(** Digits survive sanitisation. *)
Lemma sanitize_FormatInt n :
  0 ≤ n < 10 ^ 18 → sanitizeProviderLabelValue (FormatInt n) = FormatInt n.
Proof.
  intros Hn. pose proof (format_uint_digits n ltac:(lia)) as Hd.
  pose proof (to_bytes_FormatInt n ltac:(lia)) as Hb.
  pose proof (length_FormatInt 17 n Hn) as Hl. rewrite <-length_to_bytes, Hb in Hl.
  assert (Forall (λ b, label_rune b = true) (format_uint 10 n)) as Hr.
  { eapply Forall_impl; [exact Hd|]. unfold is_digit, label_rune. lia. }
  unfold sanitizeProviderLabelValue. rewrite TrimSpace_FormatInt by lia.
  rewrite bool_decide_eq_false_2 by (apply FormatInt_nonempty; lia).
  rewrite Hb, runes_ascii, <-list_fmap_compose by by apply digit_ascii.
  change (fst ∘ (λ b : Z, (b, [b]))) with (λ b : Z, b). rewrite list_fmap_id.
  assert (label_loop (format_uint 10 n) = format_uint 10 n) as ->.
  { unfold label_loop. rewrite take_ge by (rewrite length_fmap; lia).
    rewrite <-(list_fmap_id (format_uint 10 n)) at 2. apply list_fmap_ext. intros i x Hx.
    rewrite Forall_lookup in Hr. by rewrite (Hr i). }
  assert (Trim (of_bytes (format_uint 10 n)) [95; 46; 45] = FormatInt n) as ->.
  { apply to_bytes_inj. rewrite Trim_edges, Hb by done.
    rewrite Forall_forall in Hd.
    apply trim_both_id; intros x Hx; apply digit_not_edge, Hd;
      [by apply head_elem | by apply last_elem]. }
  by rewrite bool_decide_eq_false_2 by (apply FormatInt_nonempty; lia).
Qed.

(** ** Lifetimes *)

Lemma EffectiveMaxTTL_bounds cfg : 0 < EffectiveMaxTTL cfg ≤ 24 * Hour.
Proof.
  unfold EffectiveMaxTTL, Hour, Minute, Second. case_match; lia.
Qed.

Lemma directLeaseExpiresAtFrom_min createdAt touched ttl idle :
  0 < ttl →
  directLeaseExpiresAtFrom createdAt touched ttl idle =
    Z.min (time_add createdAt ttl) (time_add touched idle).
Proof. intros H. unfold directLeaseExpiresAtFrom. repeat case_match; lia. Qed.

(** The keys a touch writes besides [state] and [created_at]. *)
Definition touch_keys : list string :=
  ["last_touched_at"; "idle_timeout"; "idle_timeout_secs"; "ttl_secs"; "expires_at";
   "state"; "created_at"].

Lemma set_when_ne b k v m j : j ≠ k → set_when b k v m !! j = m !! j.
Proof. intros H. unfold set_when. destruct b; [|done]. by rewrite lookup_insert_ne. Qed.

Lemma clock_time_labels t : 0 < Unix t < 10 ^ 12 → clock_time t.
Proof. unfold clock_time. change (2 ^ 62) with 4611686018427387904. lia. Qed.

(** The seconds of a time in the clock's range, or a lifetime after it. *)
Lemma LeaseLabelTime_clock t d :
  clock_time t → 0 ≤ d ≤ 24 * Hour → LeaseLabelTime (t + d) = FormatInt (Unix (t + d)).
Proof.
  unfold LeaseLabelTime, UnixSeconds. intros Ht Hd. rewrite wrap64_id; [done|].
  unfold clock_time, Unix, min_int64, max_int64, Hour, Minute, Second in *.
  change (2 ^ 62) with 4611686018427387904 in *. change (2 ^ 63) with 9223372036854775808.
  Z.div_mod_to_equations; lia.
Qed.

Lemma LeaseLabelTime_min created now ttl idle :
  clock_time created → clock_time now → 0 ≤ ttl ≤ 24 * Hour → 0 ≤ idle ≤ 24 * Hour →
  LeaseLabelTime (Z.min (time_add created ttl) (time_add now idle)) =
  FormatInt (Unix (Z.min (created + ttl) (now + idle))).
Proof.
  intros Hc Hn Ht Hi. assert (24 * Hour ≤ max_int64) by (by vm_compute).
  rewrite !time_add_clock by (done || lia).
  destruct (Z.min_spec (created + ttl) (now + idle)) as [[_ ->]|[_ ->]];
    by apply LeaseLabelTime_clock.
Qed.

(** C39. A touch never extends a lease beyond the lifetime policy.  Whatever
    the labels, the configuration and the requested override, the new expiry is
    the earlier, in Go's time arithmetic, of [created] plus [ttl] and [now] plus
    [idle], where [0 < idle <= ttl <= EffectiveMaxTTL <= 24h] and [created] is
    the recorded creation time (or [now] when the label is unreadable); no label
    other than the lifecycle labels changes.  When the recorded creation time
    and the clock are both within [2^62] seconds of the epoch, so that no time
    wraps around, the expiry written is the exact earlier of the two sums, in
    seconds. *)
Theorem touch_bounds_lifetime ParseDuration labels cfg state now override :
  let touched :=
    TouchDirectLeaseLabelsWithIdleTimeoutOverride ParseDuration labels cfg state now override in
  let created := default now (parseLeaseLabelTime (mlookup (Some labels) "created_at")) in
  (∃ ttl idle, 0 < idle ∧ idle ≤ ttl ∧ ttl ≤ EffectiveMaxTTL cfg ∧ ttl ≤ 24 * Hour ∧
     touched !! "expires_at"
       = Some (LeaseLabelTime (Z.min (time_add created ttl) (time_add now idle))) ∧
     touched !! "ttl_secs" = Some (durationSecondsLabel ttl) ∧
     touched !! "idle_timeout_secs" = Some (durationSecondsLabel idle) ∧
     (clock_time created → clock_time now →
      touched !! "expires_at"
        = Some (FormatInt (Unix (Z.min (created + ttl) (now + idle)))))) ∧
  (∀ key, key ∉ touch_keys → touched !! key = labels !! key).
Proof.
  cbv zeta. unfold TouchDirectLeaseLabelsWithIdleTimeoutOverride. cbv zeta.
  set (next := set_when _ _ _ _).
  assert (mlookup (Some next) "created_at" = mlookup (Some labels) "created_at") as ->.
  { unfold mlookup, next. cbn [mbind option_bind]. by rewrite set_when_ne. }
  assert (∀ key, key ∉ touch_keys → next !! key = labels !! key) as Hnext.
  { intros key Hk. subst next. apply set_when_ne. set_solver. }
  clearbody next. pose proof (EffectiveMaxTTL_bounds cfg) as HM.
  set (parsed := parseLeaseLabelTime _). clearbody parsed.
  set (p := match parsed with Some _ => _ | None => _ end).
  assert (default now parsed = p.1) as -> by (subst p; by destruct parsed).
  assert (∀ key, key ∉ touch_keys → p.2 !! key = labels !! key) as Hother.
  { intros key Hk. rewrite <-(Hnext key Hk). subst p. destruct parsed; cbn [snd]; [done|].
    apply lookup_insert_ne. unfold touch_keys in Hk. set_solver. }
  clearbody p. destruct p as [created nxt]; cbn [fst snd] in *.
  set (idle0 := match override with Some o => o | None => _ end).
  set (ttl0 := match parseDurationSecondsLabel _ _ with Some s => s | None => cfg_TTL cfg end).
  clearbody idle0 ttl0.
  set (ttl := Z.min (if ttl0 <=? 0 then default_TTL else ttl0) (EffectiveMaxTTL cfg)).
  set (idle := Z.min (if idle0 <=? 0 then default_IdleTimeout else idle0) ttl).
  assert (0 < ttl ∧ ttl ≤ EffectiveMaxTTL cfg) as [Ht Ht'].
  { subst ttl. unfold default_TTL, Minute, Second. case_match; lia. }
  assert (0 < idle ∧ idle ≤ ttl) as [Hi Hi'].
  { subst idle. unfold default_IdleTimeout, Minute, Second. case_match; lia. }
  clearbody idle. clearbody ttl. split.
  - exists ttl, idle.
    rewrite lookup_insert_eq, directLeaseExpiresAtFrom_min by done.
    split_and!; [done|lia|lia|lia|done| | |].
    + by rewrite lookup_insert_ne, lookup_insert_eq.
    + do 2 (rewrite lookup_insert_ne; [|done]). by rewrite lookup_insert_eq.
    + intros Hc Hn. rewrite LeaseLabelTime_min by (done || lia). done.
  - intros key Hk. rewrite <-(Hother key Hk). unfold touch_keys in Hk.
    repeat (rewrite lookup_insert_ne; [|set_solver]). done.
Qed.

Definition sample_config : Config :=
  mkConfig "" "" "" "linux" "" "" (30 * Minute) 0 (30 * Minute) "" [] false "" false false
    (mkTailscale false "" [] "" false).

Definition sample_labels (created : string) : gmap string string :=
  list_to_map [("created_at", created); ("ttl_secs", "3600"); ("work_root", "/work")].

Lemma touch_witness :
  let touched := TouchDirectLeaseLabelsWithIdleTimeoutOverride (λ _, None)
    (sample_labels "1700000000") sample_config "ready" (1700001000 * Second) None in
  (∃ ttl idle, 0 < idle ∧ idle ≤ ttl ∧ ttl ≤ 24 * Hour ∧
     touched !! "expires_at"
       = Some (FormatInt (Unix (Z.min (1700000000 * Second + ttl) (1700001000 * Second + idle))))) ∧
  touched !! "work_root" = Some "/work".
Proof.
  assert (default (1700001000 * Second) (parseLeaseLabelTime
    (mlookup (Some (sample_labels "1700000000")) "created_at")) = 1700000000 * Second) as E
    by (vm_compute; reflexivity).
  assert (clock_time (1700000000 * Second)) as C by (apply clock_time_labels; by vm_compute).
  assert (clock_time (1700001000 * Second)) as N by (apply clock_time_labels; by vm_compute).
  destruct (touch_bounds_lifetime (λ _, None) (sample_labels "1700000000") sample_config "ready"
    (1700001000 * Second) None) as [(ttl & idle & H1 & H2 & _ & H3 & _ & _ & _ & H4) H5].
  rewrite E in H4. specialize (H4 C N). split.
  - exists ttl, idle. exact (conj H1 (conj H2 (conj H3 H4))).
  - rewrite H5; [reflexivity|].
    apply (bool_decide_eq_false_1 ("work_root" ∈ touch_keys)). reflexivity.
Defined.

(** A creation label within [unixToInternal] seconds of the largest int64 wraps
    around inside [time.Time]: the touch takes it for a time long past, and
    writes an expiry the reaper cannot use. *)
Lemma touch_wraps_created :
  let touched := TouchDirectLeaseLabelsWithIdleTimeoutOverride (λ _, None)
    (sample_labels "9223372036854700000") sample_config "ready" (1700001000 * Second) None in
  touched !! "expires_at" = Some "9223372036854703600" ∧ cleanupExpiry (Some touched) = None.
Proof. by vm_compute. Qed.

(** ** The reaper agrees with the labels *)

Lemma lookup_sanitize m k :
  k ≠ "work_root" →
  sanitizeProviderLabels m !! k = sanitizeProviderLabelValue <$> (m !! k).
Proof.
  intros Hk. unfold sanitizeProviderLabels. rewrite map_lookup_imap.
  destruct (m !! k); cbn; [|done]. by rewrite bool_decide_eq_false_2.
Qed.

Lemma parseLeaseLabelTime_LeaseLabelTime t :
  0 < Unix t < 10 ^ 12 → parseLeaseLabelTime (LeaseLabelTime t) = Some (Unix t * Second).
Proof.
  intros Ht. unfold parseLeaseLabelTime, LeaseLabelTime.
  pose proof (clock_time_labels t Ht) as Hct. rewrite UnixSeconds_clock by done.
  rewrite TrimSpace_FormatInt by lia.
  rewrite bool_decide_eq_false_2 by (apply FormatInt_nonempty; lia).
  assert (10 ^ 12 ≤ max_int64) by (vm_compute; discriminate).
  rewrite ParseInt_FormatInt by lia. replace (Unix t >? 0) with true by lia.
  by rewrite (UnixTime_clock (Unix t) Hct).
Qed.

Lemma Unix_whole n : Unix (n * Second) = n.
Proof. unfold Unix. rewrite Z.div_mul; [done|]. unfold Second. lia. Qed.

(** The expiry a new lease is given. *)
Definition new_lease_expiry (cfg : Config) (now : Z) : Z :=
  directLeaseExpiresAt now (clampDirectLeaseDurations cfg).

Lemma DirectLeaseLabels_lookups cfg leaseID slug provider market keep now :
  let labels := DirectLeaseLabels cfg leaseID slug provider market keep now in
  labels !! "crabbox" = Some "true" ∧ labels !! "state" = Some "leased" ∧
  labels !! "expires_at"
    = Some (sanitizeProviderLabelValue (LeaseLabelTime (new_lease_expiry cfg now))).
Proof.
  cbv zeta. unfold DirectLeaseLabels, new_lease_expiry.
  split_and!; rewrite lookup_sanitize, !set_when_ne by done; reflexivity || (by vm_compute).
Qed.

(** The reaper removes a freshly labelled lease exactly when it has
    expired: for labels written by [DirectLeaseLabels] at [now] (with sane
    durations and a clock within the range the labels support),
    [shouldCleanupServer] at any later time [t] answers yes if and only if [t]
    is past the recorded whole-second expiry. *)
Theorem reaper_respects_expiry cfg leaseID slug provider market keep now t server :
  0 < cfg_TTL cfg → 0 < cfg_IdleTimeout cfg →
  0 < Unix now → Unix now < 10 ^ 12 - 86401 →
  sv_Labels server = Some (DirectLeaseLabels cfg leaseID slug provider market keep now) →
  fst (shouldCleanupServer server t) = (t >? Unix (new_lease_expiry cfg now) * Second).
Proof.
  intros Httl Hidle Hnow Hmax Hs.
  destruct (DirectLeaseLabels_lookups cfg leaseID slug provider market keep now) as (Hc & Hst & He).
  pose proof (EffectiveMaxTTL_bounds cfg) as HM.
  assert (0 < Unix (new_lease_expiry cfg now) < 10 ^ 12) as Hexp.
  { unfold new_lease_expiry, directLeaseExpiresAt. rewrite directLeaseExpiresAtFrom_min;
      cbn [cfg_TTL cfg_IdleTimeout clampDirectLeaseDurations]; [|lia].
    set (d := Z.min _ (EffectiveMaxTTL cfg)). set (i := Z.min _ d).
    assert (0 < i ≤ 86400 * Second ∧ i ≤ d) as [Hd Hd'] by (unfold Hour, Minute, Second in *; lia).
    assert (clock_time now) as Hct by (apply clock_time_labels; lia).
    assert (86400 * Second ≤ max_int64) by (by vm_compute).
    rewrite !time_add_clock by (done || unfold Hour, Minute, Second in *; lia).
    replace (Z.min _ _) with (now + i) by lia. unfold Unix in *.
    pose proof (Z.div_le_mono now (now + i) Second) as H1.
    pose proof (Z.div_le_mono (now + i) (now + 86400 * Second) Second) as H2.
    rewrite Z.div_add in H2 by done. unfold Second in *. lia. }
  assert (cleanupExpiry (sv_Labels server) = Some (Unix (new_lease_expiry cfg now) * Second)) as Hcl.
  { unfold cleanupExpiry, cleanupExpiry_keys, mlookup. rewrite Hs. cbn [mbind option_bind].
    rewrite He. cbn [default from_option id]. set (e := new_lease_expiry cfg now) in *.
    unfold LeaseLabelTime. rewrite UnixSeconds_clock by by apply clock_time_labels.
    rewrite sanitize_FormatInt, TrimSpace_FormatInt by lia.
    rewrite bool_decide_eq_false_2 by (apply FormatInt_nonempty; lia).
    replace (FormatInt (Unix e)) with (LeaseLabelTime e)
      by (unfold LeaseLabelTime; by rewrite UnixSeconds_clock by by apply clock_time_labels).
    rewrite parseLeaseLabelTime_LeaseLabelTime by done.
    unfold guestExpiryTimeValid.
    rewrite UnixSeconds_clock by (apply clock_time_labels; by rewrite Unix_whole).
    rewrite Unix_whole.
    pose proof (length_FormatInt 11 (Unix e)) as Hl.
    replace ((Unix e >? 0) && (String.length (FormatInt (Unix e)) <=? 12)%nat) with true; [done|].
    symmetry. apply andb_true_iff. split; [lia|]. apply Nat.leb_le, Hl. lia. }
  unfold shouldCleanupServer. rewrite Hcl. unfold mlookup. rewrite Hs. cbn [mbind option_bind].
  rewrite Hc, Hst. cbn [default from_option id].
  rewrite bool_decide_eq_false_2 by done. cbn [orb].
  replace (ToLower "leased") with "leased" by (vm_compute; reflexivity).
  change (negb (bool_decide ("true" = "true"))) with false.
  change (bool_decide ("leased" ∈ ["running"; "provisioning"])) with false.
  change (bool_decide ("leased" ∈ ["leased"; "ready"; "active"])) with true. cbv iota.
  by destruct (t >? Unix _ * Second).
Qed.

Lemma reaper_witness :
  fst (shouldCleanupServer
         (mkServer "" "" "" 0 "" ""
            (Some (DirectLeaseLabels sample_config "cbx_0123456789ab" "box" "aws" "" false
                     (1700000000 * Second))) None empty_claim false false)
         (1700002000 * Second)) = true.
Proof.
  rewrite (reaper_respects_expiry sample_config "cbx_0123456789ab" "box" "aws" "" false
             (1700000000 * Second)); [vm_compute; reflexivity| | | | |reflexivity];
    vm_compute; reflexivity.
Defined.

(** The reaper never removes a resource that does not carry crabbox's
    ownership label, and keeps a live lease whose expiry cannot be read. *)
Theorem reaper_requires_ownership server now :
  (mlookup (sv_Labels server) "crabbox" ≠ "true" → fst (shouldCleanupServer server now) = false) ∧
  (cleanupExpiry (sv_Labels server) = None →
   ToLower (mlookup (sv_Labels server) "state") ∉ ["failed"; "released"; "expired"] →
   fst (shouldCleanupServer server now) = false).
Proof.
  split.
  - intros H. unfold shouldCleanupServer.
    rewrite (bool_decide_eq_false_2 (mlookup _ _ = _)) by done. by rewrite orb_true_r.
  - intros He Hs. unfold shouldCleanupServer. rewrite He.
    rewrite (bool_decide_eq_false_2 (_ ∈ ["failed"; "released"; "expired"])) by done.
    by repeat case_match.
Qed.

Lemma reaper_ownership_witness :
  fst (shouldCleanupServer empty_server 5) = false.
Proof. apply (proj1 (reaper_requires_ownership empty_server 5)). vm_compute. discriminate. Defined.

(** A label of more than [max_int64 / Second] seconds wraps around: the
    parser reports success with a negative duration. *)
Lemma duration_label_overflows :
  parseDurationSecondsLabel (λ _, None) "9223372037" = Some (-9223372036709551616).
Proof. vm_compute. reflexivity. Qed.
