(* ===== verification/Identity.v ===== *)
(** * Lease and resource identities

    [internal/cli/claim.go] (claim file names), [provider_backend.go]
    (provider identity expectations) and [controller_subprocess.go] (inventory
    identities): the checks a caller-supplied identity passes before it names
    a file or selects a resource for destructive release. *)

From Stdlib Require Import ZArith Lia.
From stdpp Require Import gmap strings prelude.
From S2P Require Import Prelude GoText ClaimData Slug.
Local Open Scope string_scope.
Local Open Scope Z_scope.
Local Open Scope crab_scope.

(** ** Claim file names *)

(** The characters a claim ID must not contain: angle brackets, colon, double
    quote, slash, backslash, bar, question mark, asterisk. *)
Definition forbidden_chars : list Z := [60; 62; 58; 34; 47; 92; 124; 63; 42].

Definition before_dot (bs : list Z) : list Z :=
  (fix go bs := match bs with
    | [] => []
    | b :: bs => if b =? 46 then [] else b :: go bs
    end) bs.

Definition validLeaseClaimID (leaseID : string) : bool :=
  if bool_decide (leaseID ∈ [""; "."; ".."]) then false
  else if ContainsAny leaseID forbidden_chars || ContainsAny leaseID [0] || HasSuffix leaseID "."
  then false
  else if existsb (λ p : Z * list Z, p.1 <? 32) (runes (to_bytes leaseID)) then false
  else
    let name := before_dot (to_bytes (ToUpper leaseID)) in
    if bool_decide (of_bytes name ∈ ["CON"; "PRN"; "AUX"; "NUL"]) then false
    else match name with
    | [a; b; c; d] =>
        negb (bool_decide (of_bytes [a; b; c] ∈ ["COM"; "LPT"]) && (49 <=? d) && (d <=? 57))
    | _ => true
    end.

Definition validLeaseClaimPathID (leaseID : string) : bool :=
  (leaseID =s TrimSpace leaseID) && validLeaseClaimID leaseID.

(** [filepath.Join(dir, "claims", leaseID+".json")] for a clean [dir]: the last
    component holds no separator and is neither [.] nor [..], so cleaning the
    joined path changes nothing. *)
Definition leaseClaimPath (stateDir leaseID : string) : res string :=
  if validLeaseClaimPathID leaseID
  then Ok (stateDir +:+ "/claims/" +:+ leaseID +:+ ".json")
  else Err (Msg "invalid lease claim ID").

(** ** Expected provider identities *)

Definition validControllerInventoryIdentity (value : string) : bool :=
  if (value =s "") || (4096 <? slen value) then false
  else forallb (λ p : Z * list Z, negb ((p.1 <? 32) || (p.1 =? 127))) (runes (to_bytes value)).

Record ProviderIdentityExpectation := mkExpectation {
  ex_LeaseID : string; ex_AttemptLeaseID : string; ex_Slug : string; ex_ResourceID : string }.

Definition expectation_empty (i : ProviderIdentityExpectation) : bool :=
  (ex_LeaseID i =s "") && (ex_AttemptLeaseID i =s "") && (ex_Slug i =s "") && (ex_ResourceID i =s "").

Definition ValidateProviderIdentityExpectation (i : ProviderIdentityExpectation) : res () :=
  let bad_id value := (value <>s "") && ((value <>s TrimSpace value) || negb (validLeaseClaimID value)) in
  reject_if (bad_id (ex_LeaseID i)) (Exit 2 "invalid expected provider %s");;
  reject_if (bad_id (ex_AttemptLeaseID i)) (Exit 2 "invalid expected provider %s");;
  reject_if ((ex_Slug i <>s "") &&
             ((ex_Slug i <>s TrimSpace (ex_Slug i)) || (NormalizeLeaseSlug (ex_Slug i) <>s ex_Slug i)))
    (Exit 2 "invalid expected provider slug");;
  reject_if ((ex_ResourceID i <>s "") &&
             ((ex_ResourceID i <>s TrimSpace (ex_ResourceID i)) ||
              negb (validControllerInventoryIdentity (ex_ResourceID i))))
    (Exit 2 "invalid expected provider resource ID");;
  reject_if ((ex_LeaseID i =s "") && (ex_AttemptLeaseID i =s ""))
    (Exit 2 "expected provider identity requires a lease or attempt lease ID").

(** [hcloud.go Server.DisplayID] *)
Definition DisplayID (s : Server) : string :=
  if sv_CloudID s <>s "" then sv_CloudID s else FormatInt (sv_ID s).

Definition ValidateLeaseTargetProviderIdentity (lease : LeaseTarget)
    (expected : ProviderIdentityExpectation) : res () :=
  if expectation_empty expected then Ok ()
  else
    ValidateProviderIdentityExpectation expected;;
    let actualLeaseID := lt_LeaseID lease in
    let mismatch value := (value <>s "") && (actualLeaseID <>s value) in
    reject_if (mismatch (ex_LeaseID expected))
      (Exit 4 "provider %s mismatch before release: expected %s, found %s");;
    reject_if (mismatch (ex_AttemptLeaseID expected))
      (Exit 4 "provider %s mismatch before release: expected %s, found %s");;
    reject_if ((ex_Slug expected <>s "") && (ServerSlug (lt_Server lease) <>s ex_Slug expected))
      (Exit 4 "provider slug mismatch before release: expected %s, found %s");;
    reject_if ((ex_ResourceID expected <>s "") &&
               (DisplayID (lt_Server lease) <>s ex_ResourceID expected))
      (Exit 4 "provider resource ID mismatch before release: expected %s, found %s").

(** ** Facts *)

(** The claim files of valid IDs live directly in the claims directory. *)
Lemma leaseClaimPath_ok dir id path :
  leaseClaimPath dir id = Ok path →
  validLeaseClaimPathID id = true ∧ path = dir +:+ "/claims/" +:+ id +:+ ".json".
Proof. unfold leaseClaimPath. case_match; [|done]. by intros [= <-]. Qed.

Lemma ContainsAny_false s chars b :
  ContainsAny s chars = false → b ∈ to_bytes s → b ∉ chars.
Proof.
  unfold ContainsAny. intros H Hb Hc.
  assert (existsb (λ b, bool_decide (b ∈ chars)) (to_bytes s) = true) as E; [|congruence].
  apply existsb_exists. exists b. split; [by apply list_elem_of_In|by apply bool_decide_eq_true].
Qed.

Lemma validLeaseClaimID_chars id b :
  validLeaseClaimID id = true → b ∈ to_bytes id → b ∉ forbidden_chars ∧ b ≠ 0.
Proof.
  unfold validLeaseClaimID. case_bool_decide; [done|].
  destruct (_ || _) eqn:E; [done|]. intros _ Hb. guards. split.
  - by eapply ContainsAny_false.
  - intros ->. by eapply (ContainsAny_false id [0] 0); [| |left].
Qed.

(** C40. A lease ID that names a claim file cannot escape the claims directory
    or alias another lease: the path is [<dir>/claims/<id>.json] where the last
    component is nonempty, is not a dot name and contains no path separator
    (neither slash nor backslash) and no NUL byte; and two lease IDs with the
    same claim path are the same lease ID. *)
Theorem claim_path_confined dir id path :
  leaseClaimPath dir id = Ok path →
  path = dir +:+ "/claims/" +:+ id +:+ ".json" ∧
  id ∉ [""; "."; ".."] ∧
  (∀ b, b ∈ to_bytes (id +:+ ".json") → b ≠ 47 ∧ b ≠ 92 ∧ b ≠ 0) ∧
  (∀ id', leaseClaimPath dir id' = Ok path → id' = id).
Proof.
  intros H. apply leaseClaimPath_ok in H as [Hv ->].
  unfold validLeaseClaimPathID in Hv. guards. split_and!; [done| | |].
  - unfold validLeaseClaimID in Hv. by case_bool_decide.
  - intros b Hb. rewrite to_bytes_app, elem_of_app in Hb. destruct Hb as [Hb|Hb].
    + destruct (validLeaseClaimID_chars id b) as [Hf H0]; [done|done|].
      unfold forbidden_chars in Hf. rewrite !not_elem_of_cons in Hf. naive_solver.
    + change (to_bytes ".json") with [46; 106; 115; 111; 110] in Hb.
      rewrite !elem_of_cons, elem_of_nil in Hb. lia.
  - intros id' H'. apply leaseClaimPath_ok in H' as [_ H'].
    apply (f_equal to_bytes) in H'. rewrite !to_bytes_app in H'.
    apply app_inv_head, app_inv_head, app_inv_tail in H'. by apply to_bytes_inj.
Qed.

Lemma claim_path_witness :
  leaseClaimPath "/s" "cbx_0123456789ab" = Ok "/s/claims/cbx_0123456789ab.json" ∧
  "cbx_0123456789ab" ∉ [""; "."; ".."].
Proof.
  assert (leaseClaimPath "/s" "cbx_0123456789ab" = Ok "/s/claims/cbx_0123456789ab.json") as H
    by (vm_compute; reflexivity).
  split; [exact H|]. apply (claim_path_confined _ _ _ H).
Defined.

(** [value != "" && bad] was false. *)
Lemma guarded_false (value : string) bad :
  (value <>s "") && bad = false → value ≠ "" → bad = false.
Proof. intros H Hn. by rewrite (bool_decide_eq_false_2 _ Hn) in H. Qed.

Lemma ValidateProviderIdentityExpectation_ok i u :
  ValidateProviderIdentityExpectation i = Ok u →
  (ex_LeaseID i ≠ "" → validLeaseClaimID (ex_LeaseID i) = true) ∧
  (ex_AttemptLeaseID i ≠ "" → validLeaseClaimID (ex_AttemptLeaseID i) = true) ∧
  (ex_LeaseID i ≠ "" ∨ ex_AttemptLeaseID i ≠ "").
Proof.
  unfold ValidateProviderIdentityExpectation. intros H.
  apply res_bind_ok in H as (? & H1%reject_if_ok & H).
  apply res_bind_ok in H as (? & H2%reject_if_ok & H).
  apply res_bind_ok in H as (? & _ & H). apply res_bind_ok in H as (? & _ & H%reject_if_ok).
  split_and!.
  - intros Hn. apply guarded_false in H1; [|exact Hn]. apply orb_false_iff in H1 as [_ H1].
    by apply negb_false_iff in H1.
  - intros Hn. apply guarded_false in H2; [|exact Hn]. apply orb_false_iff in H2 as [_ H2].
    by apply negb_false_iff in H2.
  - apply andb_false_iff in H as [H|H]; apply bool_decide_eq_false in H; [by left|by right].
Qed.

(** A release target accepted against a persisted expectation satisfies
    every identity the expectation names: each nonempty expected lease ID,
    slug and resource ID equals the one of the target, and the lease is always
    identified (an expectation with only a slug or resource ID is refused). *)
Theorem release_target_matches_expectation lease expected :
  ValidateLeaseTargetProviderIdentity lease expected = Ok () →
  expectation_empty expected = false →
  (ex_LeaseID expected ≠ "" → lt_LeaseID lease = ex_LeaseID expected) ∧
  (ex_AttemptLeaseID expected ≠ "" → lt_LeaseID lease = ex_AttemptLeaseID expected) ∧
  (ex_Slug expected ≠ "" → ServerSlug (lt_Server lease) = ex_Slug expected) ∧
  (ex_ResourceID expected ≠ "" → DisplayID (lt_Server lease) = ex_ResourceID expected) ∧
  validLeaseClaimID (lt_LeaseID lease) = true.
Proof.
  unfold ValidateLeaseTargetProviderIdentity. intros H He. rewrite He in H.
  apply res_bind_ok in H as (? & Hv%ValidateProviderIdentityExpectation_ok & H).
  apply res_bind_ok in H as (? & H1%reject_if_ok & H).
  apply res_bind_ok in H as (? & H2%reject_if_ok & H).
  apply res_bind_ok in H as (? & H3%reject_if_ok & H4%reject_if_ok).
  assert (∀ a b : string, (a <>s "") && (b <>s a) = false → a ≠ "" → b = a) as Hc.
  { intros a b E Hn. apply guarded_false in E; [|exact Hn]. exact (proj1 negb_bool_decide_false E). }
  pose proof (Hc _ _ H1) as L1. pose proof (Hc _ _ H2) as L2.
  split_and!; [exact L1|exact L2|apply Hc, H3|apply Hc, H4|].
  destruct Hv as (V1 & V2 & [Hn|Hn]); [rewrite (L1 Hn)|rewrite (L2 Hn)]; auto.
Qed.

Definition sample_expectation : ProviderIdentityExpectation :=
  mkExpectation "cbx_0123456789ab" "" "box" "i-1".
Definition sample_target : LeaseTarget :=
  mkTarget (mkServer "i-1" "" "" 0 "" "" (Some {["slug" := "box"]}) None empty_claim false false)
    (mkSSH "" "" "") "cbx_0123456789ab".

Lemma release_target_witness : lt_LeaseID sample_target = ex_LeaseID sample_expectation.
Proof.
  refine (proj1 (release_target_matches_expectation sample_target sample_expectation _ _) _);
    [vm_compute; reflexivity|vm_compute; reflexivity|discriminate].
Defined.
