(* ===== verification/Journal.v ===== *)
(** * Fixed-lease journals, retention windows and tombstones

    The pure part of the fixed-lease protocol: [fixed_lease_engine.go]
    ([validateFixedJournal], [terminalFixedJournal]), [fixed_lease_claim.go]
    (kinds and terminal claims), [fixed_session_retention.go] (retention
    policies, compute windows and their admission) and the claim predicates of
    [fixed_lease_protocol.go]. *)

From Stdlib Require Import ZArith Lia.
From stdpp Require Import gmap strings prelude.
From S2P Require Import Prelude GoText GoTime Sha256 ClaimData Slug Labels Identity.
Local Open Scope string_scope.
Local Open Scope Z_scope.
Local Open Scope crab_scope.

(** Times are compared through their round trip only. *)
#[local] Opaque ParseRFC3339 FormatRFC3339Nano FormatRFC3339.

(** ** Kinds

    [FixedLeaseKind].  [AfterTerminal] is a callback of the engine and is a
    parameter there; [HasAfterTerminal] says whether it is set. *)
Record FixedLeaseKind := mkKind {
  k_RemoveKeyAfterRejection : bool;
  k_ClaimProvider : string;
  k_IntentVersion : Z;
  k_Label : string;
  k_DeletionState : string;
  k_ResourcePlural : string;
  k_HasAfterTerminal : bool;
  k_TerminalIdentityLabels : list string }.

Definition IsFixedClaim (k : FixedLeaseKind) (claim : LeaseClaim) : bool :=
  (Provider claim =s k_ClaimProvider k) && bool_decide (is_Some (FixedCreateIntent claim)).

(** ** Journal validation *)

Definition FixedSHA256 (value : string) : bool :=
  match hex_DecodeString value with
  | Some decoded => (length decoded =? 32)%nat && (value =s ToLower value)
  | None => false
  end.

Definition validRetentionOperationID (id : string) : bool :=
  (0 <? slen id) && (slen id <=? 128) && (TrimSpace id =s id) &&
  forallb (λ p : Z * list Z, negb ((p.1 <? 33) || (126 <? p.1))) (runes (to_bytes id)).

(** [t.Sub(u)] saturates at the ends of the int64 range. *)
Definition time_Sub (t u : Z) : Z := Z.max min_int64 (Z.min max_int64 (t - u)).

Definition valid_policy (p : SessionDiskRetentionPolicy) : bool :=
  (p_Mode p =s "session-disk") && FixedSHA256 (p_OwnerBinding p) &&
  (0 <? p_ComputeWindowSeconds p) && (p_ComputeWindowSeconds p <=? max_int64 / Second).

Definition validateSessionDiskRetention (i : FixedCreateIntent_t) : res () :=
  match i_Retention i with
  | None =>
      match i_Journal i with
      | Some j => reject_if (negb (j_Version j =? 1) || bool_decide (is_Some (j_Retention j)))
                    (Exit 4 "unsupported fixed retention journal")
      | None => Ok ()
      end
  | Some p =>
      let bad := Err (Exit 4 "invalid retained lease policy or journal") in
      if negb (valid_policy p) then bad else
      match i_Journal i with
      | None => bad
      | Some j =>
          if negb (j_Version j =? 2) then bad else
          match j_Retention j with
          | None => bad
          | Some s =>
              reject_if (negb (rs_DesiredState s ∈s ["running"; "suspended"; "retired"]))
                (Exit 4 "invalid retained lease disposition");;
              let w := rs_ComputeWindow s in
              let window_ok :=
                match ParseRFC3339 (w_AuthorizedAt w), ParseRFC3339 (w_ExpiresAt w) with
                | Some start, Some stop =>
                    (w_ID w <>s "") && (stop >? start) &&
                    (time_Sub stop start =? wrap64 (p_ComputeWindowSeconds p * Second)) &&
                    (w_State w ∈s ["active"; "closed"])
                | _, _ => false
                end in
              reject_if (negb window_ok) (Exit 4 "invalid retained compute window");;
              reject_if ((rs_DesiredState s <>s "running") && (w_State w <>s "closed"))
                (Exit 4 "retained suspended or retired window is not closed");;
              match rs_Operation s with
              | Some op =>
                  reject_if (negb (validRetentionOperationID (op_ID op)) ||
                             negb (op_Action op ∈s ["pause"; "resume"]) ||
                             negb (op_Phase op ∈s ["pending"; "observed"]) ||
                             (op_ExpectedClaimRevision op =s ""))
                    (Exit 4 "invalid retained lifecycle operation")
              | None => Ok ()
              end
          end
      end
  end.

Definition journal_phases : list string :=
  ["prepared"; "observed"; "submitting"; "bound"; "acquired"; "deleting"; "released"].

Definition validateFixedJournal (intent : option FixedCreateIntent_t) : res () :=
  match intent with
  | None => Err (Exit 4 "lease_id_conflict: missing fixed create intent")
  | Some intent =>
      match i_Journal intent with
      | Some j =>
          reject_if (negb (j_Version j ∈s [1; 2]) || (j_Revision j =? 0))
            (Exit 4 "lease_id_conflict: unsupported fixed lease journal");;
          match j_Submission j with
          | Some s =>
              reject_if (bool_decide (ParseRFC3339 (s_FirstSubmittedAt s) = None) ||
                         (s_Key s =s "") || (s_Count s <? 1) || (2 <? s_Count s))
                (Exit 4 "lease_id_conflict: invalid keyed submission journal")
          | None => Ok ()
          end;;
          reject_if (negb (j_Phase j ∈s journal_phases))
            (Exit 4 "lease_id_conflict: invalid fixed lease journal phase %q")
      | None => Ok ()
      end;;
      validateSessionDiskRetention intent
  end.

Definition initializeSessionDiskRetention (i : FixedCreateIntent_t) (p : SessionDiskRetentionPolicy)
    (j : FixedLeaseJournal) (id : string) (now : Z) : res FixedCreateIntent_t :=
  if negb (valid_policy p) then Err (Msg "invalid session disk retention policy") else
  let window := mkWindow id (FormatRFC3339Nano now)
                  (FormatRFC3339Nano (now + wrap64 (p_ComputeWindowSeconds p * Second))) "active" in
  let i := i <| i_Retention := Some p |>
             <| i_Journal := Some (j <| j_Version := 2 |>
                  <| j_Retention := Some (mkRetention "running" window None) |>) |> in
  validateSessionDiskRetention i;; Ok i.

(** ** Execution windows *)

Definition SessionDiskWindowDeadline (claim : LeaseClaim) (now : Z) : res Z :=
  let none := Err (Exit 4 "lease has no session disk policy") in
  match FixedCreateIntent claim with
  | None => none
  | Some i =>
      if bool_decide (i_Retention i = None) then none else
      validateFixedJournal (Some i);;
      match i_Journal i ≫= λ j, (λ s, (j, s)) <$> j_Retention j with
      | None => Err (Panic "nil journal")
      | Some (j, s) =>
          let w := rs_ComputeWindow s in
          let stop := default 0 (ParseRFC3339 (w_ExpiresAt w)) in
          let start := default 0 (ParseRFC3339 (w_AuthorizedAt w)) in
          let pending := match rs_Operation s with
                         | Some op => op_Phase op <>s "observed" | None => false end in
          if (j_Phase j ∈s ["deleting"; "released"]) || (rs_DesiredState s <>s "running") ||
             (w_State w <>s "active") || pending || negb (stop >? now) || (now <? start)
          then Err (Exit 4 "retained compute window is closed, expired or uncertain; explicit lifecycle recovery required")
          else Ok stop
      end
  end.

Definition SessionDiskExecutionDeadline (claim : LeaseClaim) (now : Z) : res Z :=
  let refuse := Err (Exit 4 "retained allocation is not acquired") in
  match FixedCreateIntent claim with
  | None => refuse
  | Some i => if (i_State i <>s "acquired") || (CloudID claim =s "") then refuse
              else SessionDiskWindowDeadline claim now
  end.

(** ** Terminal claims *)

Definition add_u64 (x y : Z) : Z := (x + y) mod 2 ^ 64.

Definition retire (s : SessionDiskRetentionState) : SessionDiskRetentionState :=
  s <| rs_DesiredState := "retired" |>
    <| rs_ComputeWindow := (rs_ComputeWindow s) <| w_State := "closed" |> |>
    <| rs_Operation := None |>.

Definition terminalFixedJournal (intent : FixedCreateIntent_t) : FixedCreateIntent_t :=
  let revision := match i_Journal intent with Some j => add_u64 (j_Revision j) 1 | None => 1 end in
  let version := match i_Journal intent with Some j => j_Version j | None => 1 end in
  let retention := i_Journal intent ≫= j_Retention in
  intent <| i_Journal := Some (mkJournal (retire <$> retention) version "released" revision None) |>.

(** The labels of [labels] whose key is listed, as the loop of [TerminalClaim]
    collects them: the map is only made when one is found. *)
Definition select_labels (labels : gomap) (keys : list string) : gomap :=
  foldl (λ acc key, match mlookup_ok labels key with
                    | Some value => mset acc key value | None => acc end) None keys.

Definition has_identity_labels (k : FixedLeaseKind) : bool :=
  negb (bool_decide (k_TerminalIdentityLabels k = [])).

Definition TerminalClaim (k : FixedLeaseKind) (claim : LeaseClaim) (now : Z) : res LeaseClaim :=
  match FixedCreateIntent claim with
  | None => Err (Panic "nil dereference")
  | Some intent =>
      let intent := terminalFixedJournal (intent <| i_State := "released" |>) in
      let intent := intent <| i_Attempt := None |> <| i_FailedAttempts := [] |> in
      let terminal := empty_claim
        <| LeaseID := LeaseID claim |> <| ClaimData.Slug := i_Slug intent |>
        <| Provider := k_ClaimProvider k |> <| ProviderScope := i_ProviderScope intent |>
        <| ClaimedAt := ClaimedAt claim |> <| LastUsedAt := FormatRFC3339 now |>
        <| FixedCreateIntent := Some intent |>
        <| CoordinatorRegistrationURL := CoordinatorRegistrationURL claim |>
        <| RuntimeAdapterRegistrationID := RuntimeAdapterRegistrationID claim |>
        <| RuntimeAdapterPendingRegistrationID := RuntimeAdapterPendingRegistrationID claim |>
        <| ActionsRunner := ActionsRunner claim |> in
      Ok (if has_identity_labels k then
            terminal <| CloudID := CloudID claim |> <| CloudNumericID := CloudNumericID claim |>
              <| CloudImmutableID := CloudImmutableID claim |> <| RepoRoot := RepoRoot claim |>
              <| ClaimData.Labels :=
                   select_labels (ClaimData.Labels claim) (k_TerminalIdentityLabels k) |>
          else terminal)
  end.

Definition labels_within (labels : gomap) (keys : list string) : bool :=
  forallb (λ kv : string * string, kv.1 ∈s keys) (map_to_list (mentries labels)).

Definition terminal_identity_ok (k : FixedLeaseKind) (claim : LeaseClaim) : bool :=
  if has_identity_labels k then labels_within (ClaimData.Labels claim) (k_TerminalIdentityLabels k)
  else (CloudID claim =s "") && (mlen (ClaimData.Labels claim) =? 0).

Definition terminal_shape_ok (k : FixedLeaseKind) (claim : LeaseClaim) (intent : FixedCreateIntent_t)
    (leaseID : string) : bool :=
  negb ((LeaseID claim <>s leaseID) || negb (IsFixedClaim k claim) ||
        negb (i_Version intent =? k_IntentVersion k) ||
        (TrimSpace (i_Fingerprint intent) =s "") || (TrimSpace (i_ProviderScope intent) =s "") ||
        (ProviderScope claim <>s i_ProviderScope intent) || (ClaimData.Slug claim <>s i_Slug intent) ||
        (i_State intent <>s "released") || negb (terminal_identity_ok k claim) ||
        (SSHHost claim <>s "") || negb (SSHPort claim =? 0) ||
        negb (mlen (i_Attempt intent) =? 0) || negb (bool_decide (i_FailedAttempts intent = []))).

(** The checks against the claim the tombstone replaces. *)
Definition terminal_matches_previous (k : FixedLeaseKind) (claim previous : LeaseClaim)
    (intent : FixedCreateIntent_t) (leaseID : string) : res () :=
  match FixedCreateIntent previous with
  | None => Ok ()
  | Some previousIntent =>
      expected ← TerminalClaim k previous 0;
      reject_if (has_identity_labels k &&
          ((CloudID claim <>s CloudID expected) || negb (CloudNumericID claim =? CloudNumericID expected) ||
           (CloudImmutableID claim <>s CloudImmutableID expected) || (RepoRoot claim <>s RepoRoot expected) ||
           negb (mequal (ClaimData.Labels claim) (ClaimData.Labels expected))))
        (Exit 4 "lease_id_conflict: fixed %s lease %s terminal tombstone changed resource identity");;
      reject_if ((CoordinatorRegistrationURL claim <>s CoordinatorRegistrationURL previous) ||
                 (RuntimeAdapterRegistrationID claim <>s RuntimeAdapterRegistrationID previous) ||
                 (RuntimeAdapterPendingRegistrationID claim <>s RuntimeAdapterPendingRegistrationID previous) ||
                 negb (bool_decide (ActionsRunner claim = ActionsRunner previous)))
        (Exit 4 "lease_id_conflict: fixed %s lease %s terminal tombstone changed registration");;
      reject_if ((LeaseID previous <>s leaseID) ||
                 negb (i_Version previousIntent =? i_Version intent) ||
                 negb (bool_decide (i_Retention previousIntent = i_Retention intent)) ||
                 (i_Fingerprint previousIntent <>s i_Fingerprint intent) ||
                 (i_ProviderScope previousIntent <>s i_ProviderScope intent) ||
                 (i_CheckpointID previousIntent <>s i_CheckpointID intent) ||
                 (i_Slug previousIntent <>s i_Slug intent))
        (Exit 4 "lease_id_conflict: fixed %s lease %s terminal tombstone changed identity")
  end.

Definition ValidateTerminalClaim (k : FixedLeaseKind) (claim previous : LeaseClaim)
    (leaseID : string) (extra : option (LeaseClaim → res ())) : res () :=
  validateFixedJournal (FixedCreateIntent claim);;
  match FixedCreateIntent claim with
  | None => Err (Panic "nil dereference")
  | Some intent =>
      reject_if (negb (terminal_shape_ok k claim intent leaseID))
        (Exit 4 "lease_id_conflict: fixed %s lease %s has an invalid terminal tombstone");;
      match extra with Some check => check claim | None => Ok () end;;
      if IsFixedClaim k previous then terminal_matches_previous k claim previous intent leaseID
      else Ok ()
  end.

Definition ResolveTerminal (k : FixedLeaseKind) (claim : LeaseClaim) (releaseOnly : bool)
    : LeaseTarget * bool * res () :=
  match FixedCreateIntent claim with
  | None => (empty_target, false, Err (Panic "nil dereference"))
  | Some intent =>
      if i_State intent <>s "released" then (empty_target, false, Ok ())
      else if negb releaseOnly then (empty_target, true, Err (Exit 4 "%s fixed lease is terminal"))
      else (mkTarget empty_server (mkSSH "" "" "") (LeaseID claim), true,
            ValidateTerminalClaim k claim claim (LeaseID claim) None)
  end.

(** ** Claim predicates *)

Definition FixedPristineRecord (claim : LeaseClaim) (k : FixedLeaseKind) (scopePrefix : string) : bool :=
  match FixedCreateIntent claim with
  | None => false
  | Some intent =>
      let unusable :=
        negb (IsFixedClaim k claim) || negb (i_Version intent =? k_IntentVersion k) ||
        (i_State intent <>s "prepared") || negb (IsCanonicalLeaseID (LeaseID claim)) ||
        (i_Slug intent =s "") || (ClaimData.Slug claim <>s i_Slug intent) ||
        (ProviderScope claim <>s i_ProviderScope intent) ||
        negb (mlen (i_Attempt intent) =? 0) || negb (bool_decide (i_FailedAttempts intent = [])) ||
        negb (mlen (ClaimData.Labels claim) =? 0) ||
        (CloudID claim <>s "") || (CloudImmutableID claim <>s "") || negb (CloudNumericID claim =? 0) ||
        (SSHHost claim <>s "") || negb (SSHPort claim =? 0) ||
        (StaticHost claim <>s "") || (StaticUser claim <>s "") || (StaticPort claim <>s "") ||
        (StaticWorkRoot claim <>s "") in
      let journal_unusable :=
        match i_Journal intent with
        | Some j => negb (j_Version j =? 1) || (j_Revision j =? 0) || (j_Phase j <>s "prepared")
        | None => false
        end in
      let digest s := match hex_DecodeString s with
                      | Some bs => (length bs =? 32)%nat | None => false end in
      if unusable || journal_unusable then false
      else
        let '(scope, ok) := CutPrefix (i_ProviderScope intent) scopePrefix in
        ok && digest scope && digest (i_Fingerprint intent) &&
        bool_decide (is_Some (ParseRFC3339 (i_CreatedAt intent)))
  end.

Definition CheckFixedAttemptActive (claim : LeaseClaim) (identityKey : string)
    (cleanupKeys : list string) : res () :=
  let inactive := Err (Exit 4 "fixed lease %s has no active create attempt; it cannot allocate a replacement") in
  match FixedCreateIntent claim with
  | None => inactive
  | Some intent =>
      if (i_State intent =s "released") || (mlookup (i_Attempt intent) identityKey =s "") then inactive
      else reject_if (existsb (λ key, mlookup (i_Attempt intent) key <>s "") cleanupKeys)
             (Exit 4 "fixed lease %s has entered cleanup and cannot be reused; retry stop to reconcile deletion")
  end.

(** [FixedClaimRules] *)
Record FixedClaimRules := mkRules {
  r_RequireIntentScope : bool; r_NumericMatchesID : bool; r_GenerationAfterPrepared : bool;
  r_ExpectedID : string; r_RequiredLabels : list string; r_BoundLabels : gomap;
  r_RequireBound : bool; r_UnboundMustBeBare : bool; r_Kind : FixedLeaseKind;
  r_States : list string; r_Scope : string; r_IntentScope : string;
  r_RequireCanonicalID : bool; r_RequireSlug : bool; r_RequireTimestamp : bool;
  r_RequireSHA256 : bool; r_NoCheckpoint : bool; r_NoFailedAttempts : bool;
  r_NoNumericID : bool; r_SameImmutableID : bool; r_EmptyAttemptMustBePristine : bool }.

Definition ValidateFixedClaim (c : LeaseClaim) (r : FixedClaimRules) : res () :=
  match FixedCreateIntent c with
  | None => Err (Exit 4 "lease_id_conflict: invalid fixed %s identity or provider scope for %s")
  | Some i =>
      reject_if (negb (IsFixedClaim (r_Kind r) c) || negb (i_Version i =? k_IntentVersion (r_Kind r)) ||
          (i_Fingerprint i =s "") || (i_Slug i <>s ClaimData.Slug c) ||
          (negb (bool_decide (r_States r = [])) && negb (i_State i ∈s r_States r)) ||
          ((r_IntentScope r <>s "") && (i_ProviderScope i <>s r_IntentScope r)) ||
          (r_RequireCanonicalID r && negb (IsCanonicalLeaseID (LeaseID c))) ||
          (r_RequireSlug r && (i_Slug i =s "")) ||
          (r_NoCheckpoint r && (i_CheckpointID i <>s "")) ||
          (r_NoFailedAttempts r && negb (bool_decide (i_FailedAttempts i = []))))
        (Exit 4 "lease_id_conflict: invalid fixed %s identity or provider scope for %s");;
      reject_if (((r_Scope r <>s "") && (ProviderScope c <>s r_Scope r)) ||
          (r_NoNumericID r && negb (CloudNumericID c =? 0)) ||
          (r_SameImmutableID r && (CloudImmutableID c <>s CloudID c)))
        (Exit 4 "lease_id_conflict: fixed %s lease %s has inconsistent immutable identity or provider scope");;
      reject_if ((r_RequireIntentScope r && (i_ProviderScope i =s "")) ||
          ((r_ExpectedID r <>s "") && (CloudID c <>s r_ExpectedID r)) ||
          (r_NumericMatchesID r && (CloudID c <>s FormatInt (CloudNumericID c))) ||
          (r_GenerationAfterPrepared r && (i_State i <>s "prepared") && (CloudImmutableID c =s "")))
        (Exit 4 "lease_id_conflict: fixed lease %s has inconsistent durable identity");;
      reject_if (existsb (λ key, mlookup (ClaimData.Labels c) key =s "") (r_RequiredLabels r))
        (Exit 4 "lease_id_conflict: fixed lease %s has no durable %s");;
      reject_if (r_RequireTimestamp r && bool_decide (ParseRFC3339 (i_CreatedAt i) = None))
        (Exit 4 "lease_id_conflict: invalid fixed create timestamp for %s");;
      reject_if (r_RequireSHA256 r && negb (FixedSHA256 (i_Fingerprint i)))
        (Exit 4 "lease_id_conflict: invalid fixed intent fingerprint for %s");;
      reject_if (r_EmptyAttemptMustBePristine r && (mlen (i_Attempt i) =? 0) &&
          ((i_State i <>s "prepared") || (CloudID c <>s "") || negb (CloudNumericID c =? 0) ||
           (CloudImmutableID c <>s "") || negb (mlen (ClaimData.Labels c) =? 0) ||
           (SSHHost c <>s "") || negb (SSHPort c =? 0)))
        (Exit 4 "lease_id_conflict: fixed lease %s has no durable attempt");;
      reject_if (r_RequireBound r && (CloudID c =s ""))
        (Exit 4 "lease_id_conflict: fixed lease %s has no bound identity");;
      reject_if ((CloudID c =s "") && r_UnboundMustBeBare r &&
          ((i_State i =s "acquired") || negb (mlen (ClaimData.Labels c) =? 0) ||
           (SSHHost c <>s "") || negb (SSHPort c =? 0)))
        (Exit 4 "lease_id_conflict: fixed lease %s has inconsistent unbound identity");;
      reject_if ((CloudID c <>s "") &&
          existsb (λ kv : string * string, mlookup (ClaimData.Labels c) kv.1 <>s kv.2)
            (map_to_list (mentries (r_BoundLabels r))))
        (Exit 4 "lease_id_conflict: fixed lease %s has inconsistent bound label %s");;
      validateFixedJournal (Some i)
  end.

(** ** Lifecycle requests *)
Record RetentionLifecycleRequest := mkLifecycleRequest {
  lr_OperationID : string; lr_OwnerBinding : string; lr_ExpectedClaimRevision : string;
  lr_ExpectedProviderIdentity : ProviderIdentityExpectation }.

Definition claim_target (claim : LeaseClaim) : LeaseTarget :=
  mkTarget (mkServer (CloudID claim) "" (CloudImmutableID claim) 0 (ClaimData.Slug claim) ""
              (Some {["slug" := ClaimData.Slug claim]}) None empty_claim false false)
    (mkSSH "" "" "") (LeaseID claim).

Definition ValidateRetentionLifecycleRequest (claim : LeaseClaim) (req : RetentionLifecycleRequest)
    (action : string) : res () :=
  let id := lr_ExpectedProviderIdentity req in
  reject_if (negb (validRetentionOperationID (lr_OperationID req)) ||
             (lr_ExpectedClaimRevision req =s "") || negb (IsCanonicalLeaseID (LeaseID claim)) ||
             (ex_LeaseID id <>s LeaseID claim) || (ex_AttemptLeaseID id <>s LeaseID claim) ||
             (ex_Slug id <>s ClaimData.Slug claim) || (ex_ResourceID id =s ""))
    (Exit 2 "retained lifecycle requires operation, revision and complete exact provider identity");;
  reject_if (negb (action ∈s ["pause"; "resume"])) (Exit 2 "invalid retention lifecycle action");;
  match FixedCreateIntent claim ≫= λ i, (λ p, (i, p)) <$> i_Retention i with
  | None => Err (Exit 4 "retained lifecycle owner mismatch")
  | Some (i, p) =>
      reject_if (p_OwnerBinding p <>s lr_OwnerBinding req)
        (Exit 4 "retained lifecycle owner mismatch");;
      validateFixedJournal (Some i);;
      match i_Journal i ≫= λ j, (λ s, (j, s)) <$> j_Retention j with
      | None => Err (Panic "nil journal")
      | Some (j, s) =>
          reject_if ((i_State i <>s "acquired") || (j_Phase j =s "deleting") ||
                     bool_decide (is_Some (RecoveryHold claim)))
            (Exit 4 "retained ownership is unavailable for lifecycle admission");;
          ValidateLeaseTargetProviderIdentity (claim_target claim) id;;
          let fresh_checks :=
            reject_if ((Revision claim <>s lr_ExpectedClaimRevision req) ||
                       match rs_Operation s with
                       | Some op => op_Phase op =s "pending" | None => false end)
              (Exit 4 "retained lifecycle revision conflict") in
          match rs_Operation s with
          | Some op =>
              if op_ID op =s lr_OperationID req then
                reject_if ((op_Action op <>s action) ||
                           (op_ExpectedClaimRevision op <>s lr_ExpectedClaimRevision req))
                  (Exit 4 "retained operation identity conflict")
              else fresh_checks
          | None => fresh_checks
          end
      end
  end.

(** ** What validation establishes *)

Lemma res_unit_cases (r : res ()) : r = Ok () ∨ ∃ e, r = Err e.
Proof. destruct r as [[]|e]; [by left|right; by eexists]. Qed.

(** A window of exactly the authorised length. *)
Definition window_valid (p : SessionDiskRetentionPolicy) (w : RetainedComputeWindow) : Prop :=
  w_ID w ≠ "" ∧ w_State w ∈ ["active"; "closed"] ∧
  ∃ start, ParseRFC3339 (w_AuthorizedAt w) = Some start ∧
           ParseRFC3339 (w_ExpiresAt w) = Some (start + p_ComputeWindowSeconds p * Second).

Definition operation_valid (op : RetentionLifecycleOperation) : Prop :=
  validRetentionOperationID (op_ID op) = true ∧ op_Action op ∈ ["pause"; "resume"] ∧
  op_Phase op ∈ ["pending"; "observed"] ∧ op_ExpectedClaimRevision op ≠ "".

Definition retention_valid (p : SessionDiskRetentionPolicy) (s : SessionDiskRetentionState) : Prop :=
  rs_DesiredState s ∈ ["running"; "suspended"; "retired"] ∧
  window_valid p (rs_ComputeWindow s) ∧
  (rs_DesiredState s ≠ "running" → w_State (rs_ComputeWindow s) = "closed") ∧
  (∀ op, rs_Operation s = Some op → operation_valid op).

Lemma policy_seconds p :
  valid_policy p = true →
  0 < p_ComputeWindowSeconds p * Second < max_int64 ∧
  wrap64 (p_ComputeWindowSeconds p * Second) = p_ComputeWindowSeconds p * Second.
Proof.
  unfold valid_policy. intros H. guards.
  assert (max_int64 / Second * Second < max_int64) by (vm_compute; reflexivity).
  assert (0 < p_ComputeWindowSeconds p * Second < max_int64) as Hb by (unfold Second in *; lia).
  split; [done|]. apply wrap64_id. unfold min_int64, max_int64 in *. lia.
Qed.

Lemma time_Sub_window stop start w :
  0 < w < max_int64 → time_Sub stop start = w ↔ stop = start + w.
Proof. unfold time_Sub, min_int64, max_int64. lia. Qed.

Lemma window_check p w :
  valid_policy p = true →
  match ParseRFC3339 (w_AuthorizedAt w), ParseRFC3339 (w_ExpiresAt w) with
  | Some start, Some stop =>
      (w_ID w <>s "") && (stop >? start) &&
      (time_Sub stop start =? wrap64 (p_ComputeWindowSeconds p * Second)) &&
      (w_State w ∈s ["active"; "closed"])
  | _, _ => false
  end = true ↔ window_valid p w.
Proof.
  intros Hp. destruct (policy_seconds p Hp) as [Hb ->]. unfold window_valid.
  set (d := p_ComputeWindowSeconds p * Second) in *.
  destruct (ParseRFC3339 (w_AuthorizedAt w)) as [start|]; [|naive_solver].
  destruct (ParseRFC3339 (w_ExpiresAt w)) as [stop|]; [|naive_solver].
  rewrite !andb_true_iff, negb_bool_decide_true, bool_decide_eq_true, Z.eqb_eq,
    (time_Sub_window stop start d Hb). split.
  - intros [[[? ?] ->] ?]. split_and!; [done|done|by exists start].
  - intros (? & ? & s' & [= <-] & [= ->]). split_and!; try done. lia.
Qed.

Lemma operation_check op :
  negb (validRetentionOperationID (op_ID op)) || negb (op_Action op ∈s ["pause"; "resume"]) ||
  negb (op_Phase op ∈s ["pending"; "observed"]) || (op_ExpectedClaimRevision op =s "") = false
  ↔ operation_valid op.
Proof.
  unfold operation_valid. rewrite !orb_false_iff, !negb_false_iff, !bool_decide_eq_true,
    bool_decide_eq_false. tauto.
Qed.

Lemma reject_ok b e : reject_if b e = Ok () ↔ b = false.
Proof. apply reject_if_ok. Qed.

Lemma res_seq_ok (r k : res ()) : (r;; k) = Ok () ↔ r = Ok () ∧ k = Ok ().
Proof.
  destruct (res_unit_cases r) as [-> | [e ->]]; cbn; [tauto|]. split; [done|by intros []].
Qed.

(** Retained claims: policy, journal of version 2, and a valid state. *)
Lemma retained_check i p :
  i_Retention i = Some p →
  validateSessionDiskRetention i = Ok () ↔
  valid_policy p = true ∧
  ∃ j s, i_Journal i = Some j ∧ j_Version j = 2 ∧ j_Retention j = Some s ∧ retention_valid p s.
Proof.
  intros Hr. unfold validateSessionDiskRetention. rewrite Hr.
  destruct (valid_policy p) eqn:Hp; cbn [negb]; [|split; [done|by intros []]].
  destruct (i_Journal i) as [j|]; [|split; [done|naive_solver]].
  destruct (Z.eqb_spec (j_Version j) 2) as [Hv|Hv]; cbn [negb]; [|split; [done|naive_solver]].
  destruct (j_Retention j) as [s|] eqn:Hs; [|split; [done|naive_solver]].
  rewrite !res_seq_ok, !reject_ok, negb_bool_decide_false, negb_false_iff, window_check by done.
  rewrite andb_false_iff, !negb_bool_decide_false.
  assert (match rs_Operation s with
          | Some op => reject_if (negb (validRetentionOperationID (op_ID op)) ||
                             negb (op_Action op ∈s ["pause"; "resume"]) ||
                             negb (op_Phase op ∈s ["pending"; "observed"]) ||
                             (op_ExpectedClaimRevision op =s ""))
                    (Exit 4 "invalid retained lifecycle operation")
          | None => Ok () end = Ok () ↔ ∀ op, rs_Operation s = Some op → operation_valid op) as ->.
  { destruct (rs_Operation s) as [op|]; [|naive_solver].
    rewrite reject_ok, operation_check. naive_solver. }
  assert ((rs_DesiredState s = "running" ∨ w_State (rs_ComputeWindow s) = "closed") ↔
          (rs_DesiredState s ≠ "running" → w_State (rs_ComputeWindow s) = "closed")) as ->.
  { destruct (decide (rs_DesiredState s = "running")); tauto. }
  split.
  - intros (? & ? & ? & ?). split; [done|]. exists j, s. by split_and!.
  - intros (_ & j' & s' & [= <-] & _ & E & H). rewrite Hs in E. injection E as <-.
    destruct H as (? & ? & ? & ?). by split_and!.
Qed.

(** Unretained claims carry a version-1 journal without a window. *)
Lemma unretained_check i :
  i_Retention i = None →
  validateSessionDiskRetention i = Ok () ↔
  ∀ j, i_Journal i = Some j → j_Version j = 1 ∧ j_Retention j = None.
Proof.
  intros Hr. unfold validateSessionDiskRetention. rewrite Hr.
  destruct (i_Journal i) as [j|]; [|naive_solver].
  rewrite reject_ok, orb_false_iff, negb_false_iff, Z.eqb_eq, bool_decide_eq_false.
  rewrite <-eq_None_not_Some. naive_solver.
Qed.

Definition submission_valid (s : FixedKeyedSubmission) : Prop :=
  is_Some (ParseRFC3339 (s_FirstSubmittedAt s)) ∧ s_Key s ≠ "" ∧ 1 ≤ s_Count s ≤ 2.

Definition journal_valid (j : FixedLeaseJournal) : Prop :=
  j_Version j ∈ [1; 2] ∧ j_Revision j ≠ 0 ∧ j_Phase j ∈ journal_phases ∧
  (∀ s, j_Submission j = Some s → submission_valid s).

Lemma journal_check i :
  validateFixedJournal (Some i) = Ok () ↔
  (∀ j, i_Journal i = Some j → journal_valid j) ∧ validateSessionDiskRetention i = Ok ().
Proof.
  unfold validateFixedJournal. rewrite res_seq_ok.
  destruct (i_Journal i) as [j|]; [|naive_solver].
  rewrite !res_seq_ok, !reject_ok, orb_false_iff, !negb_bool_decide_false, Z.eqb_neq.
  assert (match j_Submission j with
          | Some s => reject_if (bool_decide (ParseRFC3339 (s_FirstSubmittedAt s) = None) ||
                         (s_Key s =s "") || (s_Count s <? 1) || (2 <? s_Count s))
                (Exit 4 "lease_id_conflict: invalid keyed submission journal")
          | None => Ok () end = Ok () ↔ ∀ s, j_Submission j = Some s → submission_valid s) as ->.
  { destruct (j_Submission j) as [s|]; [|naive_solver]. unfold submission_valid.
    rewrite reject_ok, !orb_false_iff, !bool_decide_eq_false, not_eq_None_Some.
    split; [intros [[[? ?] ?] ?] ? [= <-]; split_and!; (done || lia)|].
    intros H. destruct (H s eq_refl) as (? & ? & ?). split_and!; (done || lia). }
  unfold journal_valid. split.
  - intros [[[? ?] [? ?]] ?]. split; [|done]. intros ? [= <-]. by split_and!.
  - intros [H ?]. destruct (H j eq_refl) as (? & ? & ? & ?). by split_and!.
Qed.

(** ** Windows *)

Lemma window_deadline_cases claim now i p j s :
  FixedCreateIntent claim = Some i → i_Retention i = Some p →
  validateFixedJournal (Some i) = Ok () →
  i_Journal i = Some j → j_Retention j = Some s →
  ∃ start, ParseRFC3339 (w_AuthorizedAt (rs_ComputeWindow s)) = Some start ∧
    let stop := start + p_ComputeWindowSeconds p * Second in
    let open := j_Phase j ∉ ["deleting"; "released"] ∧ rs_DesiredState s = "running" ∧
      w_State (rs_ComputeWindow s) = "active" ∧
      (∀ op, rs_Operation s = Some op → op_Phase op = "observed") ∧ start ≤ now < stop in
    (open → SessionDiskWindowDeadline claim now = Ok stop) ∧
    (¬ open → ∃ e, SessionDiskWindowDeadline claim now = Err e).
Proof.
  intros Hi Hp Hv Hj Hs. pose proof Hv as Hv'.
  apply journal_check in Hv as [_ Hv]. apply (retained_check i p Hp) in Hv as (Hpol & j' & s' & Ej & _ & Es & Hr).
  rewrite Hj in Ej. injection Ej as <-. rewrite Hs in Es. injection Es as <-.
  destruct Hr as (_ & (_ & _ & start & Ea & Ee) & _ & _).
  exists start. split; [exact Ea|]. cbv zeta.
  unfold SessionDiskWindowDeadline. rewrite Hi, Hp, Hv', Hj. cbn [mbind option_bind res_bind fmap option_fmap option_map].
  rewrite bool_decide_eq_false_2 by done. rewrite Hs. cbn [fmap option_fmap option_map].
  rewrite Ea, Ee. cbn [default from_option id].
  set (stop := start + _). set (cond := _ || _).
  assert (cond = false ↔ j_Phase j ∉ ["deleting"; "released"] ∧ rs_DesiredState s = "running" ∧
      w_State (rs_ComputeWindow s) = "active" ∧
      (∀ op, rs_Operation s = Some op → op_Phase op = "observed") ∧ start ≤ now < stop) as Hc.
  { subst cond. rewrite !orb_false_iff, !negb_bool_decide_false, bool_decide_eq_false, negb_false_iff.
    assert (match rs_Operation s with Some op => op_Phase op <>s "observed" | None => false end = false
            ↔ ∀ op, rs_Operation s = Some op → op_Phase op = "observed") as ->.
    { destruct (rs_Operation s) as [op|]; [|naive_solver]. rewrite negb_bool_decide_false. naive_solver. }
    rewrite Z.gtb_lt, Z.ltb_ge. split; [intros [[[[[? ?] ?] ?] ?] ?]|intros (? & ? & ? & ? & ? & ?)];
      split_and!; done. }
  destruct cond; split; intros H.
  - apply Hc in H. done.
  - by eexists.
  - done.
  - exfalso. apply H, Hc. done.
Qed.

(** Work is admitted only inside an authorised window: whenever
    [SessionDiskExecutionDeadline] grants a deadline, the allocation is
    acquired and bound, its journal is valid and not in cleanup, the window is
    active with no operation pending, the deadline is exactly the policy's
    number of seconds after the authorisation and the current time lies
    between them. *)
Theorem execution_deadline_sound claim now stop :
  SessionDiskExecutionDeadline claim now = Ok stop →
  CloudID claim ≠ "" ∧
  ∃ i p j s start,
    FixedCreateIntent claim = Some i ∧ i_Retention i = Some p ∧ i_Journal i = Some j ∧
    j_Retention j = Some s ∧ validateFixedJournal (Some i) = Ok () ∧ i_State i = "acquired" ∧
    j_Phase j ∉ ["deleting"; "released"] ∧ rs_DesiredState s = "running" ∧
    w_State (rs_ComputeWindow s) = "active" ∧
    (∀ op, rs_Operation s = Some op → op_Phase op = "observed") ∧
    ParseRFC3339 (w_AuthorizedAt (rs_ComputeWindow s)) = Some start ∧
    stop = start + p_ComputeWindowSeconds p * Second ∧ start ≤ now < stop.
Proof.
  unfold SessionDiskExecutionDeadline.
  destruct (FixedCreateIntent claim) as [i|] eqn:Hi; [|done].
  destruct ((i_State i <>s "acquired") || (CloudID claim =s "")) eqn:Hg; [done|]. guards.
  intros Hdl. split; [done|]. pose proof Hdl as Hd.
  unfold SessionDiskWindowDeadline in Hdl. rewrite Hi in Hdl.
  destruct (i_Retention i) as [p|] eqn:Hp; [|done]. rewrite bool_decide_eq_false_2 in Hdl by done.
  apply res_bind_ok in Hdl as ([] & Hv & Hdl).
  destruct (i_Journal i) as [j|] eqn:Hj; [|done]. cbn [mbind option_bind] in Hdl.
  destruct (j_Retention j) as [s|] eqn:Hs; [|done]. clear Hdl.
  destruct (window_deadline_cases claim now i p j s) as (start & Ea & Hopen & Hclosed); [done..|].
  destruct (decide (j_Phase j ∉ ["deleting"; "released"])) as [|]; [|destruct Hclosed; [tauto|congruence]].
  destruct (decide (rs_DesiredState s = "running")); [|destruct Hclosed; [tauto|congruence]].
  destruct (decide (w_State (rs_ComputeWindow s) = "active")); [|destruct Hclosed; [tauto|congruence]].
  destruct (decide (start ≤ now < start + p_ComputeWindowSeconds p * Second));
    [|destruct Hclosed; [tauto|congruence]].
  assert (∀ op, rs_Operation s = Some op → op_Phase op = "observed") as Hop.
  { intros op Eop. destruct (decide (op_Phase op = "observed")); [done|].
    destruct Hclosed; [intros (_ & _ & _ & Ho & _); by apply Ho in Eop|congruence]. }
  assert (SessionDiskWindowDeadline claim now = Ok (start + p_ComputeWindowSeconds p * Second)) as E
    by (apply Hopen; tauto).
  rewrite Hd in E. injection E as ->. exists i, p, j, s, start. split_and!; (done || lia || tauto).
Qed.

(** A retained claim as a fresh acquisition writes it, with its window opened
    at [now] for a minute, then marked acquired and bound. *)
Definition sample_policy : SessionDiskRetentionPolicy :=
  mkPolicy "session-disk" "0123456789abcdef0123456789abcdef0123456789abcdef0123456789abcdef" 60.
Definition sample_intent : FixedCreateIntent_t :=
  mkIntent (Some sample_policy) 1 "fp" "scope" "" "box" "2023-11-14T22:13:20Z" "acquired" None []
    (Some (mkJournal None 1 "prepared" 1 None)).
Definition sample_retained_claim : LeaseClaim :=
  match initializeSessionDiskRetention sample_intent sample_policy (mkJournal None 1 "prepared" 1 None)
          "cbx_0123456789ab" (1700000000 * Second) with
  | Ok i => empty_claim <| LeaseID := "cbx_0123456789ab" |> <| CloudID := "i-1" |>
              <| ClaimData.Slug := "box" |> <| Provider := "aws" |> <| ProviderScope := "scope" |>
              <| FixedCreateIntent := Some i |>
  | Err _ => empty_claim
  end.

Lemma execution_deadline_witness :
  SessionDiskExecutionDeadline sample_retained_claim (1700000010 * Second)
    = Ok (1700000060 * Second) ∧ CloudID sample_retained_claim ≠ "".
Proof.
  assert (SessionDiskExecutionDeadline sample_retained_claim (1700000010 * Second)
    = Ok (1700000060 * Second)) as H by (vm_compute; reflexivity).
  split; [exact H|]. exact (proj1 (execution_deadline_sound _ _ _ H)).
Defined.

(** The window of a fresh acquisition or resume. *)
Lemma fresh_window_valid p id now d :
  id ≠ "" → four_digit_year now → four_digit_year (now + d) → d = p_ComputeWindowSeconds p * Second →
  window_valid p (mkWindow id (FormatRFC3339Nano now) (FormatRFC3339Nano (now + d)) "active").
Proof.
  intros Hid Hnow Hend ->. split_and!; [done|set_solver|].
  exists now. cbn [w_AuthorizedAt w_ExpiresAt]. by rewrite !time_round_trip.
Qed.

(** A retained acquisition opens a valid window: for every valid policy,
    nonempty window ID and clock reading whose window ends before the year
    10000, [initializeSessionDiskRetention] succeeds on a valid journal that
    has no retention state, the intent it returns passes
    [validateFixedJournal], and until the claim leaves the "running" state the
    window admits work exactly from [now] up to (not including) [now] plus the
    policy's seconds. *)
Theorem initial_window_exact i p j id now claim :
  valid_policy p = true → id ≠ "" → journal_valid j → j_Phase j ∉ ["deleting"; "released"] →
  four_digit_year now → four_digit_year (now + p_ComputeWindowSeconds p * Second) →
  ∃ i', initializeSessionDiskRetention i p j id now = Ok i' ∧
    validateFixedJournal (Some i') = Ok () ∧
    ∀ t, SessionDiskWindowDeadline (claim <| FixedCreateIntent := Some i' |>) t
           = Ok (now + p_ComputeWindowSeconds p * Second) ↔
         now ≤ t < now + p_ComputeWindowSeconds p * Second.
Proof.
  intros Hp Hid Hjv Hph Hnow Hend. unfold initializeSessionDiskRetention. rewrite Hp. cbn [negb].
  destruct (policy_seconds p Hp) as [Hb ->].
  pose proof (fresh_window_valid p id now _ Hid Hnow Hend eq_refl) as Hw.
  pose proof (time_round_trip _ Hnow) as Ht.
  remember (p_ComputeWindowSeconds p * Second) as d eqn:Hd.
  remember (mkWindow id _ _ "active") as w eqn:Ew.
  assert (w_AuthorizedAt w = FormatRFC3339Nano now ∧ w_State w = "active") as [Ewa Ews] by by rewrite Ew.
  clear Ew. cbv zeta.
  set (s := mkRetention "running" w None). set (j' := (j <| j_Version := 2 |>) <| j_Retention := Some s |>).
  set (i' := (i <| i_Retention := Some p |>) <| i_Journal := Some j' |>).
  assert (retention_valid p s) as Hrv by (split_and!; cbn; [set_solver|exact Hw|done|done]).
  assert (validateSessionDiskRetention i' = Ok ()) as Hv.
  { apply (retained_check i' p eq_refl). split; [done|]. by exists j', s. }
  assert (validateFixedJournal (Some i') = Ok ()) as Hv'.
  { apply journal_check. split; [|exact Hv]. intros ? [= <-]. destruct Hjv as (? & ? & ? & ?).
    split_and!; cbn; [set_solver|done..]. }
  exists i'. rewrite Hv. split; [done|]. split; [exact Hv'|]. intros t.
  destruct (window_deadline_cases (claim <| FixedCreateIntent := Some i' |>) t i' p j' s)
    as (start & Ea & Hopen & Hclosed); [done..|].
  change (rs_ComputeWindow s) with w in *. rewrite Ewa, Ht in Ea. injection Ea as <-.
  cbv zeta in *. rewrite <-Hd in *.
  destruct (decide (now ≤ t < now + d)) as [Htd|Htd].
  - split; [done|]. intros _. apply Hopen. split_and!; [done|done|done|done|lia|lia].
  - split; [|done]. intros E. destruct Hclosed as [e He]; [tauto|congruence].
Qed.

Lemma initial_window_witness :
  ∃ i', initializeSessionDiskRetention sample_intent sample_policy
          (mkJournal None 1 "prepared" 1 None) "cbx_0123456789ab" (1700000000 * Second) = Ok i' ∧
    SessionDiskWindowDeadline (empty_claim <| FixedCreateIntent := Some i' |>) (1700000059 * Second)
      = Ok (1700000060 * Second).
Proof.
  destruct (initial_window_exact sample_intent sample_policy (mkJournal None 1 "prepared" 1 None)
              "cbx_0123456789ab" (1700000000 * Second) empty_claim) as (i' & Hi & _ & Ht).
  - vm_compute; reflexivity.
  - discriminate.
  - split_and!; cbn; [set_solver|done|set_solver|done].
  - cbn. set_solver.
  - split; vm_compute; [discriminate|reflexivity].
  - split; vm_compute; [discriminate|reflexivity].
  - exists i'. split; [exact Hi|]. apply (Ht (1700000059 * Second)).
    split; vm_compute; [discriminate|reflexivity].
Defined.

(** ** Tombstones *)

Lemma retire_valid p s : retention_valid p s → retention_valid p (retire s).
Proof.
  intros (_ & (Hid & _ & start & Ha & He) & _ & _). split_and!; cbn; [set_solver| |done|done].
  split_and!; [done|cbn; set_solver|]. by exists start.
Qed.

Lemma terminal_journal_valid i :
  validateFixedJournal (Some i) = Ok () →
  (∀ j, i_Journal i = Some j → 0 < j_Revision j < 2 ^ 64 - 1) →
  validateFixedJournal (Some (terminalFixedJournal i)) = Ok ().
Proof.
  intros Hv Hrev. apply journal_check in Hv as [Hj Hr]. apply journal_check. split.
  - intros ? [= <-]. split_and!; cbn; [| |set_solver|done].
    + destruct (i_Journal i) as [j|]; [apply (Hj j eq_refl)|set_solver].
    + destruct (i_Journal i) as [j|]; [|lia]. specialize (Hrev j eq_refl).
      unfold add_u64. rewrite Z.mod_small by lia. lia.
  - destruct (i_Retention i) as [p|] eqn:Hp.
    + apply (retained_check i p Hp) in Hr as (Hpol & j & s & Ej & Hver & Es & Hs).
      apply (retained_check _ p); [done|]. split; [done|].
      eexists _, (retire s). split; [reflexivity|]. cbn. rewrite Ej. cbn [mbind option_bind].
      rewrite Es. split_and!; [done|done|by apply retire_valid].
    + pose proof (proj1 (unretained_check _ Hp) Hr) as Hr'. apply unretained_check; [done|].
      intros ? [= <-]. cbn. destruct (i_Journal i) as [j|]; [|done].
      destruct (Hr' j eq_refl) as [-> Hn]. cbn. by rewrite Hn.
Qed.

(** What [select_labels] keeps. *)
Lemma select_labels_lookup labels keys k :
  mentries (select_labels labels keys) !! k =
  if bool_decide (k ∈ keys) then mlookup_ok labels k else None.
Proof.
  unfold select_labels. induction keys as [|key keys IH] using rev_ind.
  { rewrite bool_decide_eq_false_2 by set_solver. apply lookup_empty. }
  rewrite foldl_snoc. destruct (decide (k = key)) as [->|Hne].
  - rewrite bool_decide_eq_true_2 by set_solver.
    destruct (mlookup_ok labels key) eqn:E; [cbn; by rewrite lookup_insert_eq|].
    rewrite IH. by destruct (bool_decide (key ∈ keys)).
  - assert (bool_decide (k ∈ (keys ++ [key])%list) = bool_decide (k ∈ keys)) as ->.
    { apply bool_decide_ext. set_solver. }
    rewrite <-IH. destruct (mlookup_ok labels key); [|done].
    cbn. by rewrite lookup_insert_ne.
Qed.

Lemma select_labels_within labels keys : labels_within (select_labels labels keys) keys = true.
Proof.
  apply forallb_forall. intros [k v] Hin. apply list_elem_of_In, elem_of_map_to_list in Hin.
  rewrite select_labels_lookup in Hin. cbn. by case_bool_decide.
Qed.

Lemma released_no_window claim i t :
  FixedCreateIntent claim = Some i → validateFixedJournal (Some i) = Ok () →
  (∀ j, i_Journal i = Some j → j_Phase j = "released") →
  ∃ e, SessionDiskWindowDeadline claim t = Err e.
Proof.
  intros Hi Hv Hph. unfold SessionDiskWindowDeadline. rewrite Hi.
  destruct (i_Retention i) as [p|] eqn:Hp; [|by eexists].
  destruct (bool_decide _); [by eexists|]. rewrite Hv. cbn [mbind res_bind].
  destruct (i_Journal i ≫= _) as [[j s]|] eqn:E; [|by eexists].
  apply bind_Some in E as (j0 & Ej & E). apply fmap_Some in E as (s0 & _ & [= -> ->]).
  rewrite (Hph _ Ej). eexists. reflexivity.
Qed.

(** The tombstone of a valid claim is valid. *)
Lemma terminal_claim_valid k claim i now :
  FixedCreateIntent claim = Some i → Provider claim = k_ClaimProvider k →
  i_Version i = k_IntentVersion k →
  TrimSpace (i_Fingerprint i) ≠ "" → TrimSpace (i_ProviderScope i) ≠ "" →
  validateFixedJournal (Some i) = Ok () →
  (∀ j, i_Journal i = Some j → 0 < j_Revision j < 2 ^ 64 - 1) →
  ∃ tomb, TerminalClaim k claim now = Ok tomb ∧
    ValidateTerminalClaim k tomb claim (LeaseID claim) None = Ok () ∧
    ∀ t, ∃ e, SessionDiskWindowDeadline tomb t = Err e.
Proof.
  intros Hi Hpr Hver Hfp Hsc Hv Hrev.
  unfold TerminalClaim at 1. rewrite Hi.
  set (i1 := terminalFixedJournal _).
  set (i2 := (i1 <| i_Attempt := None |>) <| i_FailedAttempts := [] |>).
  assert (validateFixedJournal (Some i2) = Ok ()) as Hv2.
  { assert (validateFixedJournal (Some i1) = Ok ()) as H1.
    { apply terminal_journal_valid; [|exact Hrev].
      apply journal_check. apply journal_check in Hv. exact Hv. }
    apply journal_check in H1. apply journal_check. exact H1. }
  eexists. split; [reflexivity|]. set (tomb := if has_identity_labels k then _ else _).
  assert (FixedCreateIntent tomb = Some i2) as Ht by (subst tomb; by destruct (has_identity_labels k)).
  split.
  - unfold ValidateTerminalClaim. rewrite Ht, Hv2. cbn [mbind res_bind].
    assert (terminal_shape_ok k tomb i2 (LeaseID claim) = true) as ->.
    { assert (terminal_identity_ok k tomb = true) as Hid.
      { unfold terminal_identity_ok. subst tomb. destruct (has_identity_labels k); [|reflexivity].
        apply select_labels_within. }
      unfold terminal_shape_ok. rewrite Hid. apply negb_true_iff. rewrite !orb_false_iff, !negb_false_iff.
      assert (IsFixedClaim k tomb = true) as ->.
      { unfold IsFixedClaim. rewrite Ht. apply andb_true_iff.
        split; [|by apply bool_decide_eq_true_2]. apply bool_decide_eq_true_2.
        subst tomb. by destruct (has_identity_labels k). }
      rewrite !bool_decide_eq_true, !bool_decide_eq_false.
      split_and!; try (subst tomb; by destruct (has_identity_labels k)); try done.
      by apply Z.eqb_eq. }
    cbn [negb reject_if mbind res_bind].
    assert (IsFixedClaim k claim = true) as ->.
    { unfold IsFixedClaim. rewrite Hi. apply andb_true_iff.
      split; [by apply bool_decide_eq_true_2|by apply bool_decide_eq_true_2]. }
    unfold terminal_matches_previous, TerminalClaim. rewrite Hi. cbn [mbind res_bind].
    rewrite !res_seq_ok, !reject_ok. split_and!.
    + subst tomb. destruct (has_identity_labels k); [|done].
      rewrite !andb_true_l, !orb_false_iff, !negb_false_iff, !bool_decide_eq_true.
      split_and!; cbn; try done; [apply Z.eqb_refl|by apply bool_decide_eq_true_2].
    + rewrite !orb_false_iff, !negb_false_iff, !bool_decide_eq_true.
      split_and!; subst tomb; by destruct (has_identity_labels k).
    + rewrite !orb_false_iff, !negb_false_iff, !bool_decide_eq_true.
      split_and!; try done. apply Z.eqb_refl.
  - intros t. apply (released_no_window tomb i2 t Ht Hv2). by intros j [= <-].
Qed.

(** A tombstone that passes the checks passes them as its own predecessor. *)
Lemma terminal_self_valid k t previous leaseID :
  ValidateTerminalClaim k t previous leaseID None = Ok () → ValidateTerminalClaim k t t leaseID None = Ok ().
Proof.
  unfold ValidateTerminalClaim. destruct (validateFixedJournal (FixedCreateIntent t)) as [[]|]; [|done].
  cbn [mbind res_bind]. destruct (FixedCreateIntent t) as [i|] eqn:Hi; [|done].
  destruct (terminal_shape_ok k t i leaseID) eqn:Hs; [|done]. cbn [negb reject_if mbind res_bind]. intros _.
  destruct (IsFixedClaim k t); [|done]. unfold terminal_matches_previous, TerminalClaim. rewrite Hi.
  unfold terminal_shape_ok in Hs. apply negb_true_iff in Hs. rewrite !orb_false_iff in Hs.
  destruct Hs as [[[[[[[[[[[[HL _] _] _] _] HP] HSl] _] HI] _] _] _] _].
  apply negb_false_iff in HI. unfold terminal_identity_ok in HI. cbn [mbind res_bind].
  rewrite !res_seq_ok, !reject_ok. split_and!.
  - destruct (has_identity_labels k); [|done]. cbn.
    rewrite !orb_false_iff, !negb_false_iff, !bool_decide_eq_true, Z.eqb_refl. split_and!; try done.
    unfold mequal. apply bool_decide_eq_true_2. apply map_eq. intros key.
    rewrite select_labels_lookup. unfold mlookup_ok, mentries.
    destruct (ClaimData.Labels t) as [m|] eqn:Hm; cbn [default option_fmap mbind option_bind];
      [|destruct (_ ∈s _); apply lookup_empty].
    unfold id. destruct (key ∈s k_TerminalIdentityLabels k) eqn:Hk; [done|]. apply bool_decide_eq_false in Hk.
    destruct (m !! key) as [v|] eqn:Hv; [|done]. exfalso. apply Hk.
    unfold labels_within in HI. rewrite forallb_forall in HI. specialize (HI (key, v)).
    cbn in HI. eapply bool_decide_eq_true_1, HI. by apply list_elem_of_In, elem_of_map_to_list.
  - rewrite !orb_false_iff, !negb_false_iff, !bool_decide_eq_true. by split_and!.
  - rewrite !orb_false_iff, !negb_false_iff, !bool_decide_eq_true, Z.eqb_refl.
    split_and!; try done. by apply negb_false_iff, bool_decide_eq_true in HL.
Qed.

(** Releasing a lease always writes a tombstone its own validator
    accepts: for every claim of a kind with a valid journal (whose revision is
    not at the end of the 64-bit range), nonblank fingerprint and scope, the
    claim [TerminalClaim] builds passes [ValidateTerminalClaim] against the
    claim it replaces, with retained windows retired and closed, the attempt
    cleared and no window that admits work at any time. *)
Theorem tombstone_validates k claim i now :
  FixedCreateIntent claim = Some i → Provider claim = k_ClaimProvider k →
  i_Version i = k_IntentVersion k →
  TrimSpace (i_Fingerprint i) ≠ "" → TrimSpace (i_ProviderScope i) ≠ "" →
  validateFixedJournal (Some i) = Ok () →
  (∀ j, i_Journal i = Some j → 0 < j_Revision j < 2 ^ 64 - 1) →
  ∃ tomb, TerminalClaim k claim now = Ok tomb ∧
    ValidateTerminalClaim k tomb claim (LeaseID claim) None = Ok () ∧
    ∀ t, ∃ e, SessionDiskWindowDeadline tomb t = Err e.
Proof. apply terminal_claim_valid. Qed.

Definition sample_kind : FixedLeaseKind := mkKind false "aws" 1 "EC2" "deleting" "" false ["slug"].

Lemma tombstone_witness :
  ∃ tomb, TerminalClaim sample_kind sample_retained_claim (1700000030 * Second) = Ok tomb ∧
    ValidateTerminalClaim sample_kind tomb sample_retained_claim "cbx_0123456789ab" None = Ok ().
Proof.
  destruct (FixedCreateIntent sample_retained_claim) as [i|] eqn:Hi; [|vm_compute in Hi; discriminate].
  destruct (tombstone_validates sample_kind sample_retained_claim i (1700000030 * Second) Hi)
    as (tomb & Ht & Hv & _).
  - vm_compute. reflexivity.
  - vm_compute in Hi. injection Hi as <-. reflexivity.
  - vm_compute in Hi. injection Hi as <-. vm_compute. discriminate.
  - vm_compute in Hi. injection Hi as <-. vm_compute. discriminate.
  - vm_compute in Hi. injection Hi as <-. vm_compute. reflexivity.
  - vm_compute in Hi. injection Hi as <-. intros j [= <-]. split; vm_compute; reflexivity.
  - exists tomb. split; [exact Ht|exact Hv].
Defined.
