(* ===== verification/ClaimStore.v ===== *)
(** * The claim store and its transactions

    [internal/cli/claim.go], [claim_transaction.go] and [claim_lock.go]: the
    directory of claim files, the transaction that is the only way to publish
    a claim, and the claim operations built on it.

    A claim file is keyed by its lease ID ([Identity.claim_path_confined]: a
    valid lease ID and its path determine each other).  The environment decides
    what the file system, the lock and the random source do at each
    interaction; an interaction is identified by the number of interactions
    before it.  Everything between taking and releasing a claim lock runs
    without interference, so a run of the store is a sequence of these
    operations; the callbacks a caller supplies act on the world outside the
    store (its contract forbids re-entering claim operations). *)

From Stdlib Require Import ZArith Lia.
From stdpp Require Import gmap strings prelude.
From S2P Require Import Prelude GoText GoTime Sha256 ClaimData Slug Labels Identity Journal.
Local Open Scope string_scope.
Local Open Scope Z_scope.
Local Open Scope crab_scope.

(** ** State and environment *)

(** A file of the claims directory: a decodable claim, or bytes that cannot be
    read or decoded. *)
Inductive claim_file :=
  | Stored (claim : LeaseClaim)
  | Corrupt.

#[export] Instance claim_file_eq_dec : EqDecision claim_file.
Proof. solve_decision. Defined.

(** What an atomic replacement or a removal of a file does: it takes effect
    and is synced; it fails before the rename; or the rename has happened and
    syncing the directory fails. *)
Inductive fate :=
  | Done
  | Lost
  | Unsynced.

Record Env := mkEnv {
  env_random : nat → option (list Z);  (** [rand.Read]: the bytes, or failure *)
  env_clock : nat → Z;                 (** [time.Now] *)
  env_file : nat → fate;
  env_lock : nat → option error;       (** taking the claim lock *)
  env_directory : nat → option error   (** inspecting and creating directories *) }.

Record Sys (W : Type) := mkSys {
  sys_disk : gmap string claim_file;
  sys_tick : nat;
  sys_world : W }.
Arguments mkSys {W} _ _ _.
Arguments sys_disk {W} _.
Arguments sys_tick {W} _.
Arguments sys_world {W} _.

(** ** Claims as values *)

(** [cloneLeaseClaim]; slices and pointers are values of the model, so cloning
    only turns empty maps into nil ones.  Encoding a claim has the same
    effect on what is read back, since the maps are omitted when empty. *)
Definition cloneLeaseClaim (claim : LeaseClaim) : LeaseClaim :=
  let claim := claim <| ClaimData.Labels := cloneStringMap (ClaimData.Labels claim) |> in
  match FixedCreateIntent claim with
  | Some intent =>
      claim <| FixedCreateIntent :=
        Some (intent <| i_Attempt := cloneStringMap (i_Attempt intent) |>) |>
  | None => claim
  end.

Definition decodeLeaseClaim (file : claim_file) : res LeaseClaim :=
  match file with
  | Corrupt => Err (Exit 2 "parse claim %s: %v")
  | Stored claim =>
      match FixedCreateIntent claim with
      | Some intent =>
          if bool_decide (is_Some (i_Journal intent)) || bool_decide (is_Some (i_Retention intent))
          then validateFixedJournal (Some intent);; Ok claim
          else Ok claim
      | None => Ok claim
      end
  end.

Definition validateLeaseClaimFileIdentity (leaseID : string) (claim : LeaseClaim) (exists_ : bool) : res () :=
  reject_if (exists_ && (LeaseID claim <>s "") && (LeaseID claim <>s leaseID))
    (Exit 2 "claim file %s contains lease id %s; refusing misfiled claim").

Definition unchangedLeaseClaimGuard (expected : LeaseClaim) (expectedExists : bool)
    (existing : LeaseClaim) (exists_ : bool) : res () :=
  reject_if (negb (Bool.eqb exists_ expectedExists) || (exists_ && negb (claim_eqb existing expected)))
    (Exit 2 "lease %s claim changed; retry").

Definition endpointClaimGuard (next : option (LeaseClaim → bool → res ()))
    (existing : LeaseClaim) (exists_ : bool) : res () :=
  reject_if (exists_ && (LeaseID existing =s ""))
    (Exit 2 "lease %s claim is incomplete; refusing endpoint rewrite");;
  match next with Some guard => guard existing exists_ | None => Ok () end.

(** [SetLeaseClaimResourceIdentity] *)
Definition same_resource (claim : LeaseClaim) (cloudID : string) (numericID : Z) (immutableID : string) : bool :=
  (CloudID claim =s cloudID) && (CloudNumericID claim =? numericID) && (CloudImmutableID claim =s immutableID).

Definition SetLeaseClaimResourceIdentity (claim : LeaseClaim) (cloudID : string) (numericID : Z)
    (immutableID : string) (evidence : option ImageEvidence_t) : LeaseClaim :=
  let same := same_resource claim cloudID numericID immutableID in
  let claim := if negb same then claim <| ActionsWorkspace := None |> else claim in
  let claim :=
    match evidence with
    | Some e => claim <| ImageEvidence := Some e |>
    | None => if negb same then claim <| ImageEvidence := None |> else claim
    end in
  claim <| CloudID := cloudID |> <| CloudNumericID := numericID |> <| CloudImmutableID := immutableID |>.

Definition sameActionsWorkspaceClaimOwner (a b : LeaseClaim) : bool :=
  (LeaseID a =s LeaseID b) && (RepoRoot a =s RepoRoot b) && (Provider a =s Provider b) &&
  (ProviderScope a =s ProviderScope b) && (CloudID a =s CloudID b) &&
  (CloudNumericID a =? CloudNumericID b) && (CloudImmutableID a =s CloudImmutableID b) &&
  (StaticHost a =s StaticHost b) && (StaticUser a =s StaticUser b) && (StaticPort a =s StaticPort b) &&
  (StaticWorkRoot a =s StaticWorkRoot b) && (TargetOS a =s TargetOS b) && (WindowsMode a =s WindowsMode b).

(** ** Transactions *)
Section store.
Context {W : Type} (env : Env).
Local Abbreviation SM := (M (Sys W)).

(** One interaction with the environment. *)
Definition interact {A} (f : nat → A) : SM A := λ s,
  (Ok (f (sys_tick s)), mkSys (sys_disk s) (S (sys_tick s)) (sys_world s)).

(** A caller's action on the outside world. *)
Definition outside {A} (m : M W A) : SM A := λ s,
  let '(r, w) := m (sys_world s) in (r, mkSys (sys_disk s) (sys_tick s) w).

Definition set_file (leaseID : string) (file : option claim_file) : SM () := λ s,
  (Ok (), mkSys (match file with
                 | Some f => <[leaseID := f]> (sys_disk s)
                 | None => delete leaseID (sys_disk s)
                 end) (sys_tick s) (sys_world s)).

Definition fail_with (e : option error) : SM () :=
  match e with Some e => fail e | None => mret () end.

(** [leaseClaimPath], as far as it can fail *)
Definition checkLeaseClaimPath (leaseID : string) : SM () :=
  ensure (validLeaseClaimPathID leaseID) (Msg "invalid lease claim ID").

(** [readLeaseClaimPathWithPresence] *)
Definition readLeaseClaimPathWithPresence (leaseID : string) : SM (LeaseClaim * bool) := λ s,
  match sys_disk s !! leaseID with
  | None => (Ok (empty_claim, false), s)
  | Some file => ((claim ← decodeLeaseClaim file; Ok (claim, true)), s)
  end.

Definition refreshLeaseClaimRevision (claim : LeaseClaim) : SM LeaseClaim :=
  bytes ← interact (env_random env);
  match bytes with
  | Some bs => mret (claim <| Revision := hex_of_bytes bs |>)
  | None => fail (Exit 2 "generate lease claim revision: %v")
  end.

(** [writeLeaseClaimAtomic], which does not report a failed directory sync, and
    [writeLeaseClaimAtomicDurable], which does. *)
Definition writeLeaseClaim (durable : bool) (leaseID : string) (claim : LeaseClaim) : SM () :=
  outcome ← interact (env_file env);
  match outcome with
  | Lost => fail (Exit 2 "write claim %s: %v")
  | Done => set_file leaseID (Some (Stored (cloneLeaseClaim claim)))
  | Unsynced =>
      set_file leaseID (Some (Stored (cloneLeaseClaim claim)));;
      if durable then fail (Exit 2 "write claim %s: %v") else mret ()
  end.

(** [withLeaseClaimLockContext] *)
Definition withLeaseClaimLock {A} (action : SM A) : SM A :=
  e ← interact (env_lock env); fail_with e;; action.

Definition claim_directories : SM () := e ← interact (env_directory env); fail_with e.

Inductive claimRevisionPhase := BeforeAction | BeforeMutation | AfterMutation.
Inductive claimDirectoryPolicy := DirectoryExisting | DirectoryCreate | DirectoryDurableNamespace.
Inductive claimPublicationPolicy := Publish | SkipEmpty.
Inductive claimActionDecision := ActionContinue | ActionKeepSnapshot.

(** [leaseClaimTransaction].  An action returns its decision and its error
    together, as in Go. *)
Record leaseClaimTransaction := mkTransaction {
  tx_guard : option (LeaseClaim → bool → res ());
  tx_action : option (M W (claimActionDecision * option error));
  tx_mutate : LeaseClaim → M W LeaseClaim;
  tx_revision : claimRevisionPhase;
  tx_directory : claimDirectoryPolicy;
  tx_publication : claimPublicationPolicy;
  tx_durable : bool }.

Definition phase_eqb (a b : claimRevisionPhase) : bool :=
  match a, b with
  | BeforeAction, BeforeAction | BeforeMutation, BeforeMutation | AfterMutation, AfterMutation => true
  | _, _ => false
  end.

Definition refresh_at (tx : leaseClaimTransaction) (phase : claimRevisionPhase) (claim : LeaseClaim)
    : SM LeaseClaim :=
  if phase_eqb (tx_revision tx) phase then refreshLeaseClaimRevision claim else mret claim.

Definition transaction_durable (tx : leaseClaimTransaction) : bool :=
  match tx_directory tx with DirectoryDurableNamespace => true | _ => tx_durable tx end.

(** The body of [transactLeaseClaim] under the lock.  It returns the value of
    [updated] and the error side by side: [updated] is assigned before the
    write, so it is returned even when the write fails. *)
Definition publish_claim (leaseID : string) (tx : leaseClaimTransaction) (claim : LeaseClaim)
    : SM (LeaseClaim * option error) :=
  claim ← refresh_at tx BeforeMutation claim;
  claim ← outside (tx_mutate tx claim);
  let skip := match tx_publication tx with SkipEmpty => LeaseID claim =s "" | Publish => false end in
  if skip then mret (empty_claim, None)
  else
    claim ← refresh_at tx AfterMutation claim;
    r ← attempt (writeLeaseClaim (transaction_durable tx) leaseID claim);
    mret (cloneLeaseClaim claim, match r with Ok _ => None | Err e => Some e end).

Definition transaction_body (leaseID : string) (tx : leaseClaimTransaction)
    : SM (LeaseClaim * option error) :=
  '(claim, exists_) ← readLeaseClaimPathWithPresence leaseID;
  lift (validateLeaseClaimFileIdentity leaseID claim exists_);;
  lift (match tx_guard tx with Some guard => guard claim exists_ | None => Ok () end);;
  let original := cloneLeaseClaim claim in
  claim ← refresh_at tx BeforeAction claim;
  match tx_action tx with
  | None => publish_claim leaseID tx claim
  | Some action =>
      '(decision, err) ← outside action;
      match decision, err with
      | ActionKeepSnapshot, err => mret (original, err)
      | ActionContinue, Some e => fail e
      | ActionContinue, None => publish_claim leaseID tx claim
      end
  end.

(** [transactLeaseClaim]: the updated claim and the error. *)
Definition transactLeaseClaim (leaseID : string) (tx : leaseClaimTransaction)
    (s : Sys W) : LeaseClaim * option error * Sys W :=
  let run : SM (LeaseClaim * option error) :=
    checkLeaseClaimPath leaseID;;
    match tx_directory tx with DirectoryDurableNamespace => claim_directories | _ => mret () end;;
    match tx_directory tx with DirectoryExisting => mret () | _ => claim_directories end;;
    withLeaseClaimLock (transaction_body leaseID tx) in
  match run s with
  | (Ok (updated, err), s') => (updated, err, s')
  | (Err e, s') => (empty_claim, Some e, s')
  end.

(** [claimTransactionAction] *)
Definition claimTransactionAction (action : option (M W ())) : option (M W (claimActionDecision * option error)) :=
  match action with
  | None => None
  | Some m => Some (λ w, match m w with
                         | (Ok _, w') => (Ok (ActionContinue, None), w')
                         | (Err e, w') => (Ok (ActionContinue, Some e), w')
                         end)
  end.

(** ** Operations built on transactions *)

Definition pure_mutate (f : LeaseClaim → res LeaseClaim) : LeaseClaim → M W LeaseClaim :=
  λ claim, lift (f claim).

(** [mutateLeaseClaimGuarded] *)
Definition mutateLeaseClaimGuarded (leaseID : string) (guard : option (LeaseClaim → bool → res ()))
    (mutate : LeaseClaim → res LeaseClaim) : Sys W → LeaseClaim * option error * Sys W :=
  transactLeaseClaim leaseID
    (mkTransaction guard None (pure_mutate mutate) BeforeAction DirectoryCreate SkipEmpty false).

Definition UpdateLeaseClaimLabelsIfUnchanged (leaseID : string) (expected : LeaseClaim) (labels : gomap)
    (s : Sys W) : LeaseClaim * option error * Sys W :=
  if leaseID =s "" then (empty_claim, None, s)
  else mutateLeaseClaimGuarded leaseID (Some (unchangedLeaseClaimGuard expected true))
    (λ claim, if LeaseID claim =s "" then Ok claim
              else Ok (claim <| ClaimData.Labels := cloneStringMap labels |>)) s.

Definition UpdateLeaseClaimLabelsIfUnchangedAfter (leaseID : string) (expected : LeaseClaim)
    (labels : gomap) (action : option (M W ())) (s : Sys W) : LeaseClaim * option error * Sys W :=
  if leaseID =s "" then (empty_claim, None, s)
  else transactLeaseClaim leaseID
    (mkTransaction (Some (unchangedLeaseClaimGuard expected true)) (claimTransactionAction action)
       (pure_mutate (λ claim, Ok (claim <| ClaimData.Labels := cloneStringMap labels |>)))
       BeforeMutation DirectoryExisting Publish false) s.

(** [replaceLeaseClaimTransactionContext] *)
Definition replaceLeaseClaimTransaction (leaseID : string) (current replacement : LeaseClaim)
    (action : option (M W ())) (durable : bool) : Sys W → LeaseClaim * option error * Sys W :=
  transactLeaseClaim leaseID
    (mkTransaction (Some (unchangedLeaseClaimGuard current true)) (claimTransactionAction action)
       (pure_mutate (λ claim,
          let replacement := if negb (sameActionsWorkspaceClaimOwner claim replacement)
                             then replacement <| ActionsWorkspace := None |> else replacement in
          Ok (cloneLeaseClaim replacement)))
       AfterMutation DirectoryExisting Publish durable).

Definition ReplaceLeaseClaimIfUnchanged (leaseID : string) (current replacement : LeaseClaim) :=
  replaceLeaseClaimTransaction leaseID current replacement None false.

Definition ReplaceLeaseClaimIfUnchangedDurableReturning (leaseID : string) (current replacement : LeaseClaim) :=
  replaceLeaseClaimTransaction leaseID current replacement None true.

Definition ReplaceLeaseClaimIfUnchangedDurableAfter (leaseID : string) (current replacement : LeaseClaim)
    (action : option (M W ())) :=
  replaceLeaseClaimTransaction leaseID current (replacement <| LeaseID := leaseID |>) action true.

(** [withLeaseClaimUnchangedContext] and [VerifyLeaseClaimUnchanged] *)
Definition withLeaseClaimUnchanged (leaseID : string) (expected : LeaseClaim) (action : option (M W ())) : SM () :=
  checkLeaseClaimPath leaseID;;
  withLeaseClaimLock (
    '(claim, exists_) ← readLeaseClaimPathWithPresence leaseID;
    lift (unchangedLeaseClaimGuard expected true claim exists_);;
    match action with Some m => outside m | None => mret () end).

Definition VerifyLeaseClaimUnchanged (leaseID : string) (expected : LeaseClaim) : SM () :=
  checkLeaseClaimPath leaseID;;
  withLeaseClaimLock (
    '(claim, exists_) ← readLeaseClaimPathWithPresence leaseID;
    lift (validateLeaseClaimFileIdentity leaseID claim exists_);;
    lift (unchangedLeaseClaimGuard expected true claim exists_)).

(** [removeControllerFile] followed by the directory sync; a file that is
    already absent is not an error. *)
Definition remove_claim_file (leaseID : string) : SM () :=
  outcome ← interact (env_file env);
  match outcome with
  | Lost => fail (Exit 2 "remove claim %s: %v")
  | Done => set_file leaseID None
  | Unsynced => set_file leaseID None;; fail (Exit 2 "sync removed claim directory %s: %v")
  end.

(** [finalizeLeaseClaimIfUnchangedAfterContext]; the action says whether to
    remove the claim. *)
Definition finalizeLeaseClaimIfUnchangedAfter (leaseID : string) (expected : LeaseClaim)
    (expectedExists : bool) (action : M W bool) : SM () :=
  checkLeaseClaimPath leaseID;;
  withLeaseClaimLock (
    '(claim, exists_) ← readLeaseClaimPathWithPresence leaseID;
    lift (unchangedLeaseClaimGuard expected expectedExists claim exists_);;
    remove ← outside action;
    if negb remove then mret () else remove_claim_file leaseID).

(** [cleanupLeaseClaimIfUnchangedAfterContext] and
    [RemoveLeaseClaimIfUnchangedAfter] *)
Definition CleanupLeaseClaimIfUnchangedAfter (leaseID : string) (expected : LeaseClaim)
    (expectedExists : bool) (action : option (M W ())) : SM () :=
  finalizeLeaseClaimIfUnchangedAfter leaseID expected expectedExists
    (match action with Some m => m;; mret true | None => mret true end).

Definition RemoveLeaseClaimIfUnchangedAfter (leaseID : string) (expected : LeaseClaim)
    (action : option (M W ())) : SM () :=
  CleanupLeaseClaimIfUnchangedAfter leaseID expected true action.

Definition RestoreLeaseClaimIfUnchanged (leaseID : string) (current previous : LeaseClaim)
    (previousExists : bool) (s : Sys W) : option error * Sys W :=
  if negb previousExists then
    match RemoveLeaseClaimIfUnchangedAfter leaseID current None s with
    | (Ok _, s') => (None, s')
    | (Err e, s') => (Some e, s')
    end
  else let '(_, err, s') := replaceLeaseClaimTransaction leaseID current previous None false s in (err, s').
End store.

(** ** Framing

    What an operation may change. *)

(** Nothing but the number of interactions. *)
Definition untouched {W} (s s' : Sys W) : Prop :=
  sys_disk s' = sys_disk s ∧ sys_world s' = sys_world s.
(** The files of other leases are as before. *)
Definition only_file {W} (leaseID : string) (s s' : Sys W) : Prop :=
  ∀ other, other ≠ leaseID → sys_disk s' !! other = sys_disk s !! other.
Definition same_disk {W} (s s' : Sys W) : Prop := sys_disk s' = sys_disk s.

#[export] Instance untouched_preorder {W} : PreOrder (@untouched W).
Proof. split; [done|]. unfold untouched. intros ??? [] []. split; congruence. Qed.
#[export] Instance same_disk_preorder {W} : PreOrder (@same_disk W).
Proof. split; [done|]. unfold same_disk. intros ???. congruence. Qed.
#[export] Instance only_file_preorder {W} id : PreOrder (@only_file W id).
Proof. split; [done|]. intros x y z Hxy Hyz other Hne. rewrite Hyz, Hxy; done. Qed.

Section framing.
Context {W : Type} (env : Env).
Implicit Types s : Sys W.

Lemma untouched_same_disk s s' : untouched s s' → same_disk s s'.
Proof. by intros []. Qed.
Lemma same_disk_only_file id s s' : same_disk s s' → only_file id s s'.
Proof. intros H other _. by rewrite H. Qed.

Lemma interact_keeps {A} (f : nat → A) : keeps (@untouched W) (interact f).
Proof. intros s. done. Qed.
Lemma outside_keeps {A} (m : M W A) : keeps same_disk (outside m).
Proof. intros s. unfold outside. by destruct (m (sys_world s)). Qed.
Lemma set_file_keeps id f : keeps (@only_file W id) (set_file id f).
Proof.
  intros s other Hne. destruct f; cbn; [by rewrite lookup_insert_ne|by rewrite lookup_delete_ne].
Qed.
Lemma read_keeps id : keeps (@untouched W) (readLeaseClaimPathWithPresence id).
Proof. intros s. unfold readLeaseClaimPathWithPresence. by case_match. Qed.
End framing.

(** ** The transaction is atomic *)
Section atomicity.
Context {W : Type} (env : Env).
Implicit Types (s : Sys W) (tx : @leaseClaimTransaction W).

Lemma refresh_untouched claim : keeps (@untouched W) (refreshLeaseClaimRevision env claim).
Proof.
  unfold refreshLeaseClaimRevision. apply keeps_bind; [apply _|apply interact_keeps|].
  intros [bs|]; [apply keeps_ret|apply keeps_fail]; apply _.
Qed.

Lemma refresh_at_untouched tx phase claim : keeps untouched (refresh_at env tx phase claim).
Proof.
  unfold refresh_at. case_match; [apply refresh_untouched|apply keeps_ret; apply _].
Qed.

Lemma lock_untouched : keeps (@untouched W) (e ← interact (env_lock env); fail_with e).
Proof.
  apply keeps_bind; [apply _|apply interact_keeps|].
  intros [e|]; [apply keeps_fail|apply keeps_ret]; apply _.
Qed.

(** A write either leaves the disk alone and fails, or publishes the claim. *)
Lemma writeLeaseClaim_spec durable id claim s r s' :
  writeLeaseClaim env durable id claim s = (r, s') →
  sys_world s' = sys_world s ∧
  (sys_disk s' = <[id := Stored (cloneLeaseClaim claim)]> (sys_disk s) ∨
   sys_disk s' = sys_disk s ∧ ∃ e, r = Err e).
Proof.
  unfold writeLeaseClaim, mbind, M_bind, interact. cbn.
  destruct (env_file env (sys_tick s)); [|intros [= <- <-]; cbn; eauto|].
  - intros [= <- <-]. cbn. eauto.
  - unfold set_file. destruct durable; intros [= <- <-]; cbn; eauto.
Qed.

Definition published id u s s' : Prop := sys_disk s' = <[id := Stored u]> (sys_disk s).

Lemma publish_claim_spec id tx claim s r s' :
  publish_claim env id tx claim s = (r, s') →
  match r with
  | Err _ => same_disk s s'
  | Ok (u, err) => published id u s s' ∨
      (same_disk s s' ∧ (err = None → tx_publication tx = SkipEmpty ∧ u = empty_claim))
  end.
Proof.
  unfold publish_claim, mbind, M_bind.
  pose proof (refresh_at_untouched tx BeforeMutation claim s) as H1.
  destruct (refresh_at env tx BeforeMutation claim s) as [[c1|e1] s1]; cbn in H1;
    [|intros [= <- <-]; apply untouched_same_disk, H1].
  pose proof (outside_keeps (tx_mutate tx c1) s1) as H2.
  destruct (outside (tx_mutate tx c1) s1) as [[c2|e2] s2]; cbn in H2;
    [|intros [= <- <-]; etrans; [apply untouched_same_disk, H1|exact H2]].
  assert (same_disk s s2) as H12 by (etrans; [apply untouched_same_disk, H1|exact H2]).
  destruct (match tx_publication tx with SkipEmpty => _ | Publish => false end) eqn:Hskip.
  { intros [= <- <-]. right. split; [done|]. intros _. by destruct (tx_publication tx). }
  pose proof (refresh_at_untouched tx AfterMutation c2 s2) as H3.
  destruct (refresh_at env tx AfterMutation c2 s2) as [[c3|e3] s3]; cbn in H3;
    [|intros [= <- <-]; etrans; [exact H12|apply untouched_same_disk, H3]].
  assert (same_disk s s3) as H13 by (etrans; [exact H12|apply untouched_same_disk, H3]).
  unfold attempt. destruct (writeLeaseClaim _ _ _ _ s3) as [rw sw] eqn:Ew.
  apply writeLeaseClaim_spec in Ew as [_ [Ew|[Ew [e ->]]]]; intros [= <- <-].
  - left. unfold published. by rewrite Ew, H13.
  - right. split; [etrans; [exact H13|exact Ew]|done].
Qed.

(** The body under the lock. *)
Lemma transaction_body_spec id tx s r s' :
  transaction_body env id tx s = (r, s') →
  match r with
  | Err _ => same_disk s s'
  | Ok (u, err) => published id u s s' ∨
      (same_disk s s' ∧
       (err = None → (tx_publication tx = SkipEmpty ∧ u = empty_claim) ∨ tx_action tx ≠ None))
  end.
Proof.
  unfold transaction_body, mbind at 1, M_bind at 1.
  pose proof (read_keeps id s) as H0.
  destruct (readLeaseClaimPathWithPresence id s) as [[[c ex]|e] s0]; cbn in H0;
    [|intros [= <- <-]; apply untouched_same_disk, H0].
  unfold mbind at 1, M_bind at 1, lift at 1.
  destruct (validateLeaseClaimFileIdentity id c ex); [|intros [= <- <-]; apply untouched_same_disk, H0].
  unfold mbind at 1, M_bind at 1, lift at 1.
  destruct (match tx_guard tx with Some g => g c ex | None => _ end);
    [|intros [= <- <-]; apply untouched_same_disk, H0].
  unfold mbind at 1, M_bind at 1.
  pose proof (refresh_at_untouched tx BeforeAction c s0) as H1.
  destruct (refresh_at env tx BeforeAction c s0) as [[c1|e1] s1]; cbn in H1;
    [|intros [= <- <-]; apply untouched_same_disk; etrans; [exact H0|exact H1]].
  assert (same_disk s s1) as H01 by (apply untouched_same_disk; etrans; [exact H0|exact H1]).
  assert (∀ s2, same_disk s s2 → publish_claim env id tx c1 s2 = (r, s') →
    match r with
    | Err _ => same_disk s s'
    | Ok (u, err) => published id u s s' ∨
        (same_disk s s' ∧
         (err = None → (tx_publication tx = SkipEmpty ∧ u = empty_claim) ∨ tx_action tx ≠ None))
    end) as Hpub.
  { intros s2 H02 H. apply publish_claim_spec in H. destruct r as [[u err]|e].
    - destruct H as [H|[H Hs]]; [left; unfold published in *; by rewrite H, H02|].
      right. split; [by etrans|]. intros E. left. by apply Hs.
    - by etrans. }
  destruct (tx_action tx) as [action|]; [|by apply Hpub].
  unfold mbind, M_bind. pose proof (outside_keeps action s1) as H2.
  destruct (outside action s1) as [[[dec err]|e] s2]; cbn in H2;
    [|intros [= <- <-]; by etrans].
  assert (same_disk s s2) as H02 by (by etrans).
  destruct dec; [destruct err|]; [intros [= <- <-]; done|by apply Hpub|].
  intros [= <- <-]. right. split; [done|]. by right.
Qed.

Lemma transact_inv id tx s u err s' :
  transactLeaseClaim env id tx s = (u, err, s') →
  ∃ s1, untouched s s1 ∧
    ((u = empty_claim ∧ err ≠ None ∧ s' = s1) ∨
     (validLeaseClaimPathID id = true ∧ transaction_body env id tx s1 = (Ok (u, err), s')) ∨
     (validLeaseClaimPathID id = true ∧
      ∃ e, transaction_body env id tx s1 = (Err e, s') ∧ u = empty_claim ∧ err = Some e)).
Proof.
  unfold transactLeaseClaim. set (run := mbind _ _).
  assert (∃ s1, untouched s s1 ∧ ((∃ e, run s = (Err e, s1)) ∨
            (validLeaseClaimPathID id = true ∧ run s = transaction_body env id tx s1))) as (s1 & Hu & H).
  { unfold run, checkLeaseClaimPath, withLeaseClaimLock, claim_directories, ensure.
    destruct (validLeaseClaimPathID id) eqn:Hv; [|exists s; split; [done|left; by eexists]].
    unfold mbind, M_bind, mret, M_ret, interact, fail_with, fail, mbind.
    destruct (tx_directory tx); cbn;
      repeat match goal with |- context [match ?o with Some _ => _ | None => _ end] =>
        destruct o; cbn end;
      try (eexists; split; [|left; by eexists]; done);
      (eexists; split; [|right; split; [done|reflexivity]]; done). }
  destruct H as [[e He]|[Hv He]].
  - rewrite He. intros [= <- <- <-]. exists s1. split; [done|]. by left.
  - rewrite He. destruct (transaction_body env id tx s1) as [[[u' err']|e] s2] eqn:E;
      intros [= <- <- <-]; exists s1; split; try done; right; [by left|right; eauto].
Qed.
End atomicity.

Section guarantees.
Context {W : Type} (env : Env).
Implicit Types (s : Sys W) (tx : @leaseClaimTransaction W).

(** The possible outcomes. *)
Lemma transact_outcome id tx s u err s' :
  transactLeaseClaim env id tx s = (u, err, s') →
  published id u s s' ∨
  (same_disk s s' ∧
   (err = None → (tx_publication tx = SkipEmpty ∧ u = empty_claim) ∨ tx_action tx ≠ None)).
Proof.
  intros H. apply transact_inv in H as (s1 & [Hd _] & H).
  unfold published, same_disk. rewrite <-Hd.
  destruct H as [(-> & Hne & ->)|[[_ H]|(_ & e & H & -> & ->)]]; [by right| |].
  - by apply transaction_body_spec in H.
  - apply transaction_body_spec in H. by right.
Qed.

(** C30. Every claim transaction is atomic, whatever the guard, the action, the
    transformation and the failures of lock, random source and file system:
    it touches no other lease's file; the file of its own lease is either as
    before or exactly the claim the transaction returns; and a transaction
    that reports success without an action to keep the snapshot, and that may
    not skip, has published the claim it returns. *)
Theorem transaction_atomic id tx s u err s' :
  transactLeaseClaim env id tx s = (u, err, s') →
  only_file id s s' ∧
  (sys_disk s' = sys_disk s ∨ sys_disk s' = <[id := Stored u]> (sys_disk s)) ∧
  (err = None → tx_action tx = None → tx_publication tx = Publish →
   sys_disk s' = <[id := Stored u]> (sys_disk s)).
Proof.
  intros H. apply transact_outcome in H as [H|[H Hs]]; unfold published, same_disk in H.
  - split_and!; [|by right|done]. intros other Hne. by rewrite H, lookup_insert_ne.
  - split_and!; [|by left|].
    + intros other Hne. by rewrite H.
    + intros -> Ha Hp. destruct (Hs eq_refl) as [[Hp' _]|Ha']; congruence.
Qed.

(** What the disk holds for a lease, as a transaction reads it. *)
Definition on_disk (s : Sys W) (id : string) (claim : LeaseClaim) : Prop :=
  sys_disk s !! id = Some (Stored claim).

Lemma read_stored s id c ex s' :
  readLeaseClaimPathWithPresence id s = (Ok (c, ex), s') →
  s' = s ∧ (if ex then on_disk s id c else sys_disk s !! id = None).
Proof.
  unfold readLeaseClaimPathWithPresence, on_disk. destruct (sys_disk s !! id) as [f|] eqn:E.
  - destruct f as [c'|]; [|done]. cbn [decodeLeaseClaim].
    destruct (FixedCreateIntent c') as [i|]; [|by intros [= <- <- <-]].
    case_match; [|by intros [= <- <- <-]].
    destruct (validateFixedJournal (Some i)) as [[]|e]; [by intros [= <- <- <-]|done].
  - by intros [= <- <- <-].
Qed.

Lemma unchanged_guard_ok expected b c ex u :
  unchangedLeaseClaimGuard expected b c ex = Ok u → ex = b ∧ (b = true → c = expected).
Proof.
  unfold unchangedLeaseClaimGuard. intros H%reject_if_ok.
  apply orb_false_iff in H as [He Hc]. apply negb_false_iff, eqb_prop in He as ->.
  split; [done|]. intros ->. cbn in Hc. apply negb_false_iff in Hc.
  unfold claim_eqb in Hc. by apply bool_decide_eq_true_1 in Hc.
Qed.

(** A body whose guard requires [expected] runs nothing else. *)
Lemma guarded_body id tx expected s r s' :
  tx_guard tx = Some (unchangedLeaseClaimGuard expected true) →
  transaction_body env id tx s = (r, s') →
  on_disk s id expected ∨ (s' = s ∧ ∃ e, r = Err e).
Proof.
  intros Hg. unfold transaction_body, mbind at 1, M_bind at 1.
  destruct (readLeaseClaimPathWithPresence id s) as [[[c ex]|e] s0] eqn:Er.
  2: { intros [= <- <-]. right. pose proof (read_keeps id s) as Hk.
       unfold readLeaseClaimPathWithPresence in Er. case_match; [|done].
       injection Er as _ <-. split; [done|by eexists]. }
  apply read_stored in Er as [-> Hd].
  unfold mbind at 1, M_bind at 1, lift at 1.
  destruct (validateLeaseClaimFileIdentity id c ex); [|intros [= <- <-]; right; eauto].
  unfold mbind at 1, M_bind at 1, lift at 1. rewrite Hg.
  destruct (unchangedLeaseClaimGuard expected true c ex) as [v|] eqn:Eg;
    [|intros [= <- <-]; right; eauto].
  apply unchanged_guard_ok in Eg as [-> Hc]. rewrite (Hc eq_refl) in Hd. by left.
Qed.

Lemma guarded_transact id tx expected s u err s' :
  tx_guard tx = Some (unchangedLeaseClaimGuard expected true) →
  ¬ on_disk s id expected →
  transactLeaseClaim env id tx s = (u, err, s') →
  err ≠ None ∧ untouched s s'.
Proof.
  intros Hg Hne H. apply transact_inv in H as (s1 & Hu & H).
  assert (¬ on_disk s1 id expected) as Hne'.
  { unfold on_disk. destruct Hu as [-> _]. exact Hne. }
  destruct H as [(-> & He & ->)|[[_ H]|(_ & e & H & -> & ->)]]; [done| |].
  - apply (guarded_body _ _ _ _ _ _ Hg) in H as [H|[_ [e H]]]; [done|congruence].
  - apply (guarded_body _ _ _ _ _ _ Hg) in H as [H|[-> _]]; [done|]. done.
Qed.

(** A fenced section whose expected claim is not on disk does not start. *)
Lemma fenced_section id expected {A} (body : LeaseClaim → bool → M (Sys W) A) s r s' :
  ¬ on_disk s id expected →
  (checkLeaseClaimPath id;;
   withLeaseClaimLock env (
     '(claim, exists_) ← readLeaseClaimPathWithPresence id;
     lift (unchangedLeaseClaimGuard expected true claim exists_);; body claim exists_)) s = (r, s') →
  (∃ e, r = Err e) ∧ untouched s s'.
Proof.
  intros Hne. unfold checkLeaseClaimPath, ensure, withLeaseClaimLock, mbind, M_bind.
  destruct (validLeaseClaimPathID id); [|intros [= <- <-]; split; [by eexists|done]]. cbn.
  destruct (env_lock env (sys_tick s)) as [e|]; cbn;
    [intros [= <- <-]; split; [by eexists|done]|].
  set (s1 := mkSys _ _ _).
  destruct (readLeaseClaimPathWithPresence id s1) as [[[c ex]|er] s2] eqn:Er.
  2: { intros [= <- <-]. split; [by eexists|]. pose proof (read_keeps id s1) as Hk.
       rewrite Er in Hk. exact Hk. }
  apply read_stored in Er as [-> Hd]. unfold lift.
  destruct (unchangedLeaseClaimGuard expected true c ex) as [v|] eqn:Eg;
    [|intros [= <- <-]; split; [by eexists|done]].
  apply unchanged_guard_ok in Eg as [-> Hc]. rewrite (Hc eq_refl) in Hd. done.
Qed.

(** The claim fence: an operation that names the claim it expects has no
    effect at all when the file holds anything else (another claim, an
    unreadable file or none).  A guarded transaction returns an error with the
    disk and the world unchanged, so neither its action nor its transformation
    has run; the same holds for an action fenced by
    [withLeaseClaimUnchanged] and for a fenced removal. *)
Theorem stale_claim_refused id expected s :
  ¬ on_disk s id expected →
  (∀ tx u err s', tx_guard tx = Some (unchangedLeaseClaimGuard expected true) →
     transactLeaseClaim env id tx s = (u, err, s') → err ≠ None ∧ untouched s s') ∧
  (∀ action r s', withLeaseClaimUnchanged env id expected action s = (r, s') →
     (∃ e, r = Err e) ∧ untouched s s') ∧
  (∀ action r s', RemoveLeaseClaimIfUnchangedAfter env id expected action s = (r, s') →
     (∃ e, r = Err e) ∧ untouched s s').
Proof.
  intros Hne. split_and!.
  - intros tx u err s' Hg H. by eapply guarded_transact in H.
  - intros action r s' H. by eapply fenced_section in H.
  - intros action r s' H.
    unfold RemoveLeaseClaimIfUnchangedAfter, CleanupLeaseClaimIfUnchangedAfter,
      finalizeLeaseClaimIfUnchangedAfter in H. by eapply fenced_section in H.
Qed.

(** The claim a replacement publishes. *)
Definition replaced_by (current replacement updated : LeaseClaim) : Prop :=
  ∃ bytes, updated = (cloneLeaseClaim
    (if negb (sameActionsWorkspaceClaimOwner current replacement)
     then replacement <| ActionsWorkspace := None |> else replacement))
    <| Revision := hex_of_bytes bytes |>.

Lemma clone_idemp c : cloneLeaseClaim (cloneLeaseClaim c) = cloneLeaseClaim c.
Proof.
  assert (∀ m, cloneStringMap (cloneStringMap m) = cloneStringMap m) as Hm.
  { intros [m|]; cbn; [|done]. case_bool_decide as E; [done|]. cbn. by rewrite bool_decide_eq_false_2. }
  unfold cloneLeaseClaim. destruct c. destruct FixedCreateIntent; cbn; by rewrite ?Hm.
Qed.

Lemma clone_set_revision c r :
  cloneLeaseClaim (c <| Revision := r |>) = (cloneLeaseClaim c) <| Revision := r |>.
Proof. destruct c. unfold cloneLeaseClaim. by destruct FixedCreateIntent. Qed.

(** The successful run of a durable replacement. *)
Lemma replace_success id current replacement s u s' :
  ReplaceLeaseClaimIfUnchangedDurableReturning env id current replacement s = (u, None, s') →
  on_disk s id current ∧ replaced_by current replacement u ∧
  sys_disk s' = <[id := Stored u]> (sys_disk s) ∧ sys_world s' = sys_world s.
Proof.
  intros H. unfold ReplaceLeaseClaimIfUnchangedDurableReturning, replaceLeaseClaimTransaction in H.
  apply transact_inv in H as (s1 & [Hd Hw] & [(_ & Hne & _)|[[_ H]|(_ & e & _ & _ & He)]]); [done| |done].
  unfold on_disk. rewrite <-Hd, <-Hw. clear Hd Hw s.
  unfold transaction_body, mbind at 1, M_bind at 1 in H.
  destruct (readLeaseClaimPathWithPresence id s1) as [[[c ex]|e] s0] eqn:Er; [|done].
  apply read_stored in Er as [-> Hdisk].
  unfold mbind at 1, M_bind at 1, lift at 1 in H.
  destruct (validateLeaseClaimFileIdentity id c ex); [|done].
  unfold mbind at 1, M_bind at 1, lift at 1 in H. cbn [tx_guard] in H.
  destruct (unchangedLeaseClaimGuard current true c ex) as [v|] eqn:Eg; [|done].
  apply unchanged_guard_ok in Eg as [-> Hc]. rewrite (Hc eq_refl) in *. clear c Hc.
  split; [exact Hdisk|].
  cbn [refresh_at phase_eqb tx_revision tx_action claimTransactionAction] in H.
  unfold mbind, M_bind, mret, M_ret, publish_claim, refresh_at in H.
  cbn [phase_eqb tx_revision tx_mutate pure_mutate tx_publication] in H.
  unfold mbind, M_bind, mret, M_ret, outside, lift, pure_mutate in H. cbn in H.
  unfold refreshLeaseClaimRevision, mbind, M_bind, interact in H.
  cbn [sys_tick sys_disk sys_world] in H.
  destruct (env_random env (sys_tick s1)) as [bs|]; [|done]. cbn in H.
  unfold attempt in H.
  match type of H with context [writeLeaseClaim ?e ?d ?i ?c ?s] =>
    destruct (writeLeaseClaim e d i c s) as [rw sw] eqn:Ew end.
  apply writeLeaseClaim_spec in Ew as [Hworld [Ew|[_ [e ->]]]]; [|done].
  cbn in Ew, Hworld. destruct rw as [?|?]; [|done]. injection H as <- <-.
  rewrite clone_set_revision, clone_idemp in *. split; [by exists bs|]. done.
Qed.

(** C29. Durable replacement is a compare-and-swap: if it succeeds, the file
    held exactly the expected claim and now holds exactly the returned claim,
    which is the replacement (losing its workspace binding when the owner
    changes) under a new revision, with every other file and the world
    unchanged; if the file held anything else it fails with no effect; and if
    it fails at all, the file is as before or holds the claim it returns. *)
Theorem replace_is_compare_and_swap id current replacement s u err s' :
  ReplaceLeaseClaimIfUnchangedDurableReturning env id current replacement s = (u, err, s') →
  (err = None →
     on_disk s id current ∧ replaced_by current replacement u ∧
     sys_disk s' = <[id := Stored u]> (sys_disk s) ∧ sys_world s' = sys_world s) ∧
  (¬ on_disk s id current → err ≠ None ∧ untouched s s') ∧
  (err ≠ None → sys_disk s' = sys_disk s ∨ sys_disk s' = <[id := Stored u]> (sys_disk s)).
Proof.
  intros H. split_and!.
  - intros ->. by apply replace_success in H.
  - intros Hne. unfold ReplaceLeaseClaimIfUnchangedDurableReturning, replaceLeaseClaimTransaction in H.
    by eapply guarded_transact in H.
  - intros _. apply transact_outcome in H as [H|[H _]]; [by right|by left].
Qed.
End guarantees.

(** ** Interleaved writers *)
Section history.
Context {W : Type} (env : Env) (id : string).

(** A run of the store as one lease sees it: replacements by any number of
    writers in any order, each with its own expectation, interleaved with
    steps that do not change this lease's file.  The history records, for each
    replacement that changed the disk (reported as successful or not), what it
    expected and what it published. *)
Inductive cas_run : Sys W → list (LeaseClaim * LeaseClaim) → Sys W → Prop :=
  | run_stop s : cas_run s [] s
  | run_other s s1 h s' :
      sys_disk s1 !! id = sys_disk s !! id → cas_run s1 h s' → cas_run s h s'
  | run_replace s expected replacement u err s1 h s' :
      ReplaceLeaseClaimIfUnchangedDurableReturning env id expected replacement s = (u, err, s1) →
      sys_disk s1 ≠ sys_disk s →
      cas_run s1 h s' → cas_run s ((expected, u) :: h) s'
  | run_refused s expected replacement u err s1 h s' :
      ReplaceLeaseClaimIfUnchangedDurableReturning env id expected replacement s = (u, err, s1) →
      sys_disk s1 = sys_disk s →
      cas_run s1 h s' → cas_run s h s'.

Fixpoint chained (claim : LeaseClaim) (h : list (LeaseClaim * LeaseClaim)) : Prop :=
  match h with
  | [] => True
  | (expected, updated) :: h => expected = claim ∧ chained updated h
  end.

Fixpoint latest (claim : LeaseClaim) (h : list (LeaseClaim * LeaseClaim)) : LeaseClaim :=
  match h with
  | [] => claim
  | (_, updated) :: h => latest updated h
  end.

(** C28. No update is ever lost: in every interleaving of writers, failed
    writes included, the replacements that took effect form a chain in which
    each was computed from exactly the claim its predecessor published
    (the first from the initial claim), and the file ends up holding the last
    one. *)
Theorem no_lost_update s h s' claim :
  cas_run s h s' → on_disk s id claim → chained claim h ∧ on_disk s' id (latest claim h).
Proof.
  intros Hrun. revert claim.
  induction Hrun as [s|s s1 h s' Hsame _ IH|s e r u err s1 h s' H Hne _ IH|s e r u err s1 h s' H Heq _ IH];
    intros claim Hd; cbn [chained latest].
  - done.
  - apply IH. unfold on_disk. by rewrite Hsame.
  - assert (on_disk s id e) as He.
    { unfold on_disk. destruct (decide (sys_disk s !! id = Some (Stored e))) as [|Hn]; [done|].
      exfalso. apply Hne. refine (proj1 (proj2 (guarded_transact env id _ e s u err s1 _ Hn H))). done. }
    unfold on_disk in He, Hd. rewrite Hd in He. injection He as <-.
    apply transact_outcome in H as [H|[H _]]; [|done]. unfold published in H.
    split; [split; [done|]|]; apply IH; unfold on_disk; by rewrite H, lookup_insert_eq.
  - apply IH. unfold on_disk. by rewrite Heq.
Qed.
End history.

(** ** A concrete store *)

Definition calm : Env := mkEnv (λ n, Some [Z.of_nat n]) (λ n, Z.of_nat n * Second) (λ _, Done)
  (λ _, None) (λ _, None).
Definition sample_claim : LeaseClaim :=
  empty_claim <| LeaseID := "cbx_0123456789ab" |> <| Revision := "r0" |> <| RepoRoot := "/repo" |>.
Definition sample_sys : Sys () :=
  mkSys {["cbx_0123456789ab" := Stored sample_claim]} 0 ().
Definition sample_replacement : LeaseClaim := sample_claim <| SSHHost := "10.0.0.1" |>.
Definition sample_published : LeaseClaim := sample_replacement <| Revision := "01" |>.

Lemma transaction_atomic_witness :
  ∃ s', ReplaceLeaseClaimIfUnchanged calm "cbx_0123456789ab" sample_claim sample_replacement sample_sys
          = (sample_published, None, s') ∧
        sys_disk s' = <["cbx_0123456789ab" := Stored sample_published]> (sys_disk sample_sys).
Proof.
  eexists. split; [vm_compute; reflexivity|].
  refine (proj2 (proj2 (transaction_atomic calm "cbx_0123456789ab"
    (mkTransaction (Some (unchangedLeaseClaimGuard sample_claim true)) (claimTransactionAction None)
       (pure_mutate (λ claim,
          Ok (cloneLeaseClaim (if negb (sameActionsWorkspaceClaimOwner claim sample_replacement)
              then sample_replacement <| ActionsWorkspace := None |> else sample_replacement))))
       AfterMutation DirectoryExisting Publish false) sample_sys sample_published None _ _))
    _ _ _); vm_compute; reflexivity.
Defined.

Lemma stale_claim_witness :
  ∃ u s', ReplaceLeaseClaimIfUnchangedDurableReturning calm "cbx_0123456789ab" sample_published
            sample_replacement sample_sys = (u, Some (Exit 2 "lease %s claim changed; retry"), s') ∧
          sys_disk s' = sys_disk sample_sys.
Proof.
  eexists _, _. split; [vm_compute; reflexivity|].
  refine (proj1 (proj2 (proj1 (stale_claim_refused calm "cbx_0123456789ab" sample_published sample_sys _)
    (mkTransaction (Some (unchangedLeaseClaimGuard sample_published true)) None
       (pure_mutate Ok) AfterMutation DirectoryExisting Publish true)
    empty_claim (Some (Exit 2 "lease %s claim changed; retry")) _ eq_refl _))).
  - intros H. vm_compute in H. discriminate.
  - vm_compute. reflexivity.
Defined.

Lemma compare_and_swap_witness :
  ∃ s', ReplaceLeaseClaimIfUnchangedDurableReturning calm "cbx_0123456789ab" sample_claim
          sample_replacement sample_sys = (sample_published, None, s') ∧
        replaced_by sample_claim sample_replacement sample_published.
Proof.
  eexists. assert (ReplaceLeaseClaimIfUnchangedDurableReturning calm "cbx_0123456789ab" sample_claim
    sample_replacement sample_sys = (sample_published, None,
      mkSys {["cbx_0123456789ab" := Stored sample_published]} 3 ())) as H by (vm_compute; reflexivity).
  split; [exact H|].
  exact (proj1 (proj2 (proj1 (replace_is_compare_and_swap calm _ _ _ _ _ _ _ H) eq_refl))).
Defined.

(** Two writers start from the same claim: the first wins, the second is
    refused. *)
Definition after_first : Sys () := mkSys {["cbx_0123456789ab" := Stored sample_published]} 3 ().
Definition after_second : Sys () := mkSys {["cbx_0123456789ab" := Stored sample_published]} 4 ().

Lemma first_writer :
  ReplaceLeaseClaimIfUnchangedDurableReturning calm "cbx_0123456789ab" sample_claim
    sample_replacement sample_sys = (sample_published, None, after_first).
Proof. vm_compute. reflexivity. Qed.
Lemma second_writer :
  ReplaceLeaseClaimIfUnchangedDurableReturning calm "cbx_0123456789ab" sample_claim
    sample_claim after_first = (empty_claim, Some (Exit 2 "lease %s claim changed; retry"), after_second).
Proof. vm_compute. reflexivity. Qed.

Lemma no_lost_update_witness :
  cas_run calm "cbx_0123456789ab" sample_sys [(sample_claim, sample_published)] after_second ∧
  on_disk after_second "cbx_0123456789ab" sample_published.
Proof.
  assert (sys_disk after_first ≠ sys_disk sample_sys) as Hne.
  { intros E. apply (f_equal (λ m, m !! "cbx_0123456789ab")) in E. vm_compute in E. discriminate. }
  pose proof (run_replace calm "cbx_0123456789ab" _ _ _ _ _ _ _ _ first_writer Hne
    (run_refused calm "cbx_0123456789ab" _ _ _ _ _ _ _ _ second_writer eq_refl
      (run_stop calm "cbx_0123456789ab" after_second))) as H.
  split; [exact H|].
  exact (proj2 (no_lost_update calm "cbx_0123456789ab" _ _ _ sample_claim H eq_refl)).
Defined.
