(* ===== verification/ClaimOps.v ===== *)
(** * Claiming, updating and resolving leases

    The operations of [internal/cli/claim.go] on top of the claim store: a
    repository claims a lease, an endpoint or tailnet address is recorded, and
    a user-supplied identifier is resolved to a claim.

    The provider registry is the table the provider packages fill in at start
    up ([provider_backend.go]); it is an argument here, and so are
    [time.ParseDuration] and the readings of the clock. *)

From Stdlib Require Import ZArith Lia.
From stdpp Require Import gmap strings prelude.
From S2P Require Import Prelude GoText GoTime Sha256 ClaimData Slug Labels Identity Journal ClaimStore.
Local Open Scope string_scope.
Local Open Scope Z_scope.
Local Open Scope crab_scope.

(** ** Repository ownership *)

Definition ClaimRepositoryMatches (stored root : string) (legacyRoot : list string) : bool :=
  if stored =s root then true
  else match legacyRoot with
  | [legacy] => (legacy <>s "") && (stored =s legacy)
  | _ => false
  end.

Definition CheckLeaseClaimRepositoryOwner (existing : LeaseClaim) (repoRoot : string) (reclaim : bool)
    (legacyRoot : list string) : res () :=
  reject_if ((LeaseID existing <>s "") && (RepoRoot existing <>s "") &&
             negb (ClaimRepositoryMatches (RepoRoot existing) repoRoot legacyRoot) && negb reclaim)
    (Exit 2 "lease %s is claimed by repo %s; use --reclaim to claim it for %s").

(** ** Idle timeouts *)

Inductive claimIdlePolicy := IdlePreserveRecorded | IdleReplaceExplicitly | IdleCoordinatorProjection.

(** The duration and whether the labels are rewritten to match. *)
Definition selectClaimIdleTimeout (recorded proposed : Z) (policy : claimIdlePolicy) : res (Z * bool) :=
  match policy with
  | IdleReplaceExplicitly =>
      if proposed <=? 0 then Err (Exit 2 "idle timeout override must be positive")
      else
        let seconds := Z.quot (RoundSecond proposed) Second in
        let seconds := if seconds <? 1 then 1 else seconds in
        Ok (wrap64 (seconds * Second), true)
  | IdlePreserveRecorded =>
      if recorded >? 0 then Ok (wrap64 (recorded * Second), true) else Ok (proposed, false)
  | IdleCoordinatorProjection => Ok (proposed, false)
  end.

Definition claimLabelsWithIdleTimeout (labels : gomap) (idle : Z) : gomap :=
  let labels := mset (cloneStringMap labels) "idle_timeout" (durationSecondsLabel idle) in
  mset labels "idle_timeout_secs" (mlookup labels "idle_timeout").

(** [int(d.Seconds())].  The code goes through a float64, which is exact for
    durations below 2^23 seconds (97 days). *)
Definition whole_seconds (d : Z) : Z := Z.quot d Second.

(** ** Endpoints *)

Definition tailscale_keys : list string := ["tailscale"; "tailscale_state"; "tailscale_ipv4"; "tailscale_fqdn"].

Definition clearLeaseClaimTailscaleFields (claim : LeaseClaim) : LeaseClaim :=
  claim <| TailscaleIPv4 := "" |> <| TailscaleFQDN := "" |>
        <| ClaimData.Labels := foldl mdelete (ClaimData.Labels claim) tailscale_keys |>.

Definition setLeaseClaimTailscale (claim : LeaseClaim) (ipv4 fqdn : string) : LeaseClaim :=
  let claim := if ipv4 <>s "" then claim <| TailscaleIPv4 := ipv4 |> else claim in
  let claim := if fqdn <>s "" then claim <| TailscaleFQDN := fqdn |> else claim in
  if (TailscaleIPv4 claim =s "") && (TailscaleFQDN claim =s "") then claim
  else
    let labels := mset (mset (ClaimData.Labels claim) "tailscale" "true") "tailscale_state" "ready" in
    let labels := if TailscaleIPv4 claim <>s "" then mset labels "tailscale_ipv4" (TailscaleIPv4 claim) else labels in
    let labels := if TailscaleFQDN claim <>s "" then mset labels "tailscale_fqdn" (TailscaleFQDN claim) else labels in
    claim <| ClaimData.Labels := labels |>.

Definition statusTerminalState (state : string) : bool :=
  ToLower (TrimSpace state) ∈s ["dead"; "deleting"; "exited"; "expired"; "failed"; "missing";
    "released"; "shutting-down"; "stopped"; "stopped_with_code"; "terminated"].

(** [strings.EqualFold] with an ASCII word: simple folding identifies U+017F
    with [s] and U+212A with [k]. *)
Definition fold_rune (r : Z) : Z :=
  if (65 <=? r) && (r <=? 90) then r + 32
  else if r =? 0x17F then 115 else if r =? 0x212A then 107 else r.
Definition EqualFold (a b : string) : bool := map_runes fold_rune a =s map_runes fold_rune b.

Definition claimEndpointInactiveState (state : string) : bool :=
  let state := TrimSpace state in
  statusTerminalState state || EqualFold state "stopped" || EqualFold state "paused" || EqualFold state "deleting".

Inductive leaseClaimEndpointMode := EndpointUpdate | EndpointReplace.
Definition is_replace (mode : leaseClaimEndpointMode) : bool :=
  match mode with EndpointReplace => true | EndpointUpdate => false end.

Definition applyLeaseClaimEndpoint (claim : LeaseClaim) (server : Server) (target : SSHTarget)
    (mode : leaseClaimEndpointMode) : LeaseClaim :=
  let claim :=
    if is_replace mode
    then (clearLeaseClaimTailscaleFields claim) <| BridgeURL := "" |> <| ActionsWorkspace := None |>
    else claim in
  let cloudID := if sv_CloudID server <>s "" then sv_CloudID server else CloudID claim in
  let numericID := if negb (sv_ID server =? 0) then sv_ID server else CloudNumericID claim in
  let immutableID := if sv_ImmutableID server <>s "" then sv_ImmutableID server else CloudImmutableID claim in
  let claim := SetLeaseClaimResourceIdentity claim cloudID numericID immutableID (sv_ImageEvidence server) in
  let claim := if mlen (sv_Labels server) >? 0
               then claim <| ClaimData.Labels := cloneStringMap (sv_Labels server) |> else claim in
  let ipv4 := mlookup (sv_Labels server) "tailscale_ipv4" in
  let fqdn := mlookup (sv_Labels server) "tailscale_fqdn" in
  let claim := if ipv4 <>s "" then claim <| TailscaleIPv4 := ipv4 |> else claim in
  let claim := if fqdn <>s "" then claim <| TailscaleFQDN := fqdn |> else claim in
  let claim := if (ssh_NetworkKind target =s "tailscale") && (ssh_Host target <>s "") &&
                  (TailscaleFQDN claim =s "") && (TailscaleIPv4 claim =s "")
               then claim <| TailscaleFQDN := ssh_Host target |> else claim in
  let inactive := is_replace mode || claimEndpointInactiveState (mlookup (sv_Labels server) "state") in
  let claim := if ssh_Host target <>s "" then claim <| SSHHost := ssh_Host target |>
               else if inactive then claim <| SSHHost := "" |> else claim in
  match Atoi (TrimSpace (ssh_Port target)) with
  | Some port => if port >? 0 then claim <| SSHPort := port |>
                 else if inactive then claim <| SSHPort := 0 |> else claim
  | None => if inactive then claim <| SSHPort := 0 |> else claim
  end.

(** ** Providers *)

(** A registered provider: its canonical name and, when it implements
    [LeaseClaimEndpointPreparer], its endpoint preparation. *)
Record ProviderEntry := mkProvider {
  pe_Name : string;
  pe_Prepare : option (LeaseClaim → string → string → Server → bool → res Server) }.

Definition normalizeProviderName (name : string) : string := ToLower (TrimSpace name).

Definition isStaticProvider (provider : string) : bool :=
  ToLower (TrimSpace provider) ∈s ["ssh"; "static"; "static-ssh"].

Section claims.
Context (registry : string → option ProviderEntry) (ParseDuration : string → option Z).

Definition ProviderFor (name : string) : option ProviderEntry := registry (normalizeProviderName name).

Definition fixed_claim_providers : list (string * string) :=
  [("agent-sandbox-fixed-v1", "agent-sandbox"); ("aws-fixed-v1", "aws"); ("machine0-fixed-v1", "machine0");
   ("daytona-fixed-v1", "daytona"); ("local-container-fixed-v1", "local-container");
   ("parallels-fixed-v1", "parallels"); ("proxmox-fixed-v1", "proxmox"); ("exec-provider", "external")].

Definition canonicalClaimProvider (provider : string) : string :=
  match list_find (λ p : string * string, p.1 = TrimSpace provider) fixed_claim_providers with
  | Some (_, (_, name)) => name
  | None => match ProviderFor provider with
            | Some resolved => pe_Name resolved
            | None => normalizeProviderName provider
            end
  end.

Inductive leaseClaimMetadataPolicy := MetadataPreserve | MetadataAdmitProvider.

Definition prepareLeaseClaimEndpoint (existing : LeaseClaim) (providerName slug : string)
    (server : Server) (metadata : leaseClaimMetadataPolicy) : res Server :=
  match ProviderFor (canonicalClaimProvider (firstNonBlank [Provider existing; providerName])) with
  | None => Err (Exit 2 "lease %s claim has unavailable provider %q")
  | Some provider =>
      match pe_Prepare provider with
      | None => Ok server
      | Some prepare => prepare existing providerName slug server
                          (match metadata with MetadataAdmitProvider => true | MetadataPreserve => false end)
      end
  end.

(** ** Claiming a lease for a repository *)

Record staticClaimDetails := mkStatic {
  sd_Present : bool; sd_Host : string; sd_User : string; sd_Port : string;
  sd_WorkRoot : string; sd_TargetOS : string; sd_WindowsMode : string }.

(** The data of [claimMetadata] (its guard, action and directory policy belong
    to the transaction). *)
Record claimMetadata := mkMetadata {
  cm_legacyRepoRoot : string;
  cm_cacheVolumes : option (list string);
  cm_endpoint : option (Server * SSHTarget * leaseClaimEndpointMode);
  cm_reservationLabel : string;
  cm_reservationDuration : Z;
  cm_providerMetadata : leaseClaimMetadataPolicy;
  cm_labels : option gomap;
  cm_idlePolicy : claimIdlePolicy }.

(** The owner of the claim changes here: who claimed it and from where. *)
Definition record_owner (existing : LeaseClaim) (leaseID slug repoRoot : string) (reclaim : bool)
    (legacy : string) (now : string) : LeaseClaim :=
  let existing :=
    if (ClaimedAt existing =s "") || reclaim ||
       negb (ClaimRepositoryMatches (RepoRoot existing) repoRoot [legacy])
    then existing <| CheckpointCapture := None |> <| ClaimedAt := now |> else existing in
  existing <| LeaseID := leaseID |> <| ClaimData.Slug := slug |>.

Definition record_provider (existing : LeaseClaim) (provider : string) : res LeaseClaim :=
  if provider <>s "" then
    if bool_decide (is_Some (FixedCreateIntent existing)) && (Provider existing <>s "") then
      if canonicalClaimProvider (Provider existing) <>s canonicalClaimProvider provider
      then Err (Exit 2 "lease %s fixed claim provider changed from %s to %s")
      else Ok existing
    else Ok (existing <| Provider := provider |>)
  else Ok existing.

Definition record_static (existing : LeaseClaim) (provider : string) (sd : staticClaimDetails) : LeaseClaim :=
  if sd_Present sd then
    existing <| StaticHost := sd_Host sd |> <| StaticUser := sd_User sd |> <| StaticPort := sd_Port sd |>
      <| StaticWorkRoot := sd_WorkRoot sd |> <| TargetOS := sd_TargetOS sd |> <| WindowsMode := sd_WindowsMode sd |>
  else if (provider <>s "") && negb (isStaticProvider provider) then
    existing <| StaticHost := "" |> <| StaticUser := "" |> <| StaticPort := "" |>
      <| StaticWorkRoot := "" |> <| TargetOS := "" |> <| WindowsMode := "" |>
  else existing.

Definition record_endpoint (existing : LeaseClaim) (metadata : claimMetadata) (server : Server)
    (clock : Z) : LeaseClaim :=
  match cm_endpoint metadata with
  | None => existing
  | Some (_, target, mode) =>
      let existing := applyLeaseClaimEndpoint existing server target mode in
      if (cm_reservationLabel metadata <>s "") && (cm_reservationDuration metadata >? 0)
      then existing <| ClaimData.Labels := mset (ClaimData.Labels existing) (cm_reservationLabel metadata)
                         (LeaseLabelTime (time_add clock (cm_reservationDuration metadata))) |>
      else existing
  end.

(** Scope, pond, static host, repository and time of use. *)
Definition record_details (existing : LeaseClaim) (provider providerScope pond : string)
    (sd : staticClaimDetails) (repoRoot now : string) : LeaseClaim :=
  let existing := if providerScope <>s "" then existing <| ProviderScope := providerScope |> else existing in
  let pond := NormalizePondName pond in
  let existing := if pond <>s "" then existing <| Pond := pond |> else existing in
  let existing := record_static existing provider sd in
  existing <| RepoRoot := repoRoot |> <| LastUsedAt := now |>.

(** Idle timeout, cache volumes, labels and endpoint. *)
Definition record_usage (existing : LeaseClaim) (metadata : claimMetadata) (server : Server) (clock : Z)
    (idleTimeout : Z) (normalizeIdle : bool) : LeaseClaim :=
  let existing := if idleTimeout >? 0
                  then existing <| IdleTimeoutSeconds := whole_seconds idleTimeout |> else existing in
  let existing := match cm_cacheVolumes metadata with
                  | Some volumes => existing <| CacheVolumes := volumes |> | None => existing end in
  let existing := match cm_labels metadata with
                  | Some labels => existing <| ClaimData.Labels := cloneStringMap labels |>
                  | None => existing end in
  let existing := record_endpoint existing metadata server clock in
  if normalizeIdle
  then existing <| ClaimData.Labels := claimLabelsWithIdleTimeout (ClaimData.Labels existing) idleTimeout |>
  else existing.

(** [transformLeaseClaimForRepo]; [now] is the formatted time of the claim and
    [clock] the time a reservation starts. *)
Definition transformLeaseClaimForRepo (existing : LeaseClaim) (leaseID slug provider providerScope pond : string)
    (sd : staticClaimDetails) (repoRoot : string) (idleTimeout : Z) (reclaim : bool)
    (metadata : claimMetadata) (now : string) (clock : Z) : res LeaseClaim :=
  let hadExisting := LeaseID existing <>s "" in
  let original := cloneLeaseClaim existing in
  let legacy := cm_legacyRepoRoot metadata in
  server ← match cm_endpoint metadata with
           | Some (server, _, _) =>
               if hadExisting then prepareLeaseClaimEndpoint original provider slug server (cm_providerMetadata metadata)
               else Ok server
           | None => Ok empty_server
           end;
  CheckLeaseClaimRepositoryOwner existing repoRoot reclaim [legacy];;
  claimed ← record_provider (record_owner existing leaseID slug repoRoot reclaim legacy now) provider;
  let claimed := record_details claimed provider providerScope pond sd repoRoot now in
  let recordedIdle := if hadExisting then IdleTimeoutSeconds original else 0 in
  let idleTimeout :=
    match cm_idlePolicy metadata with
    | IdleCoordinatorProjection =>
        default idleTimeout
          (parseDurationSecondsLabel ParseDuration (mlookup (sv_Labels server) "idle_timeout_secs"))
    | _ => idleTimeout
    end in
  '(idleTimeout, normalizeIdle) ← selectClaimIdleTimeout recordedIdle idleTimeout (cm_idlePolicy metadata);
  let claimed := record_usage claimed metadata server clock idleTimeout normalizeIdle in
  let owner := if ClaimRepositoryMatches (RepoRoot original) repoRoot [legacy]
               then original <| RepoRoot := repoRoot |> else original in
  Ok (if reclaim || negb (sameActionsWorkspaceClaimOwner owner claimed)
      then claimed <| ActionsWorkspace := None |> else claimed).

(** [claimLeaseForRepoProviderScopePondDetailsMetadata] *)
Definition claimLeaseForRepo {W} (env : Env) (leaseID slug provider providerScope pond : string)
    (sd : staticClaimDetails) (repoRoot : string) (idleTimeout : Z) (reclaim : bool)
    (metadata : claimMetadata) (allowEmptyRepoRoot : bool) (guard : option (LeaseClaim → bool → res ()))
    (action : option (M W ())) (directory : claimDirectoryPolicy) (now clock : Z)
    (s : Sys W) : LeaseClaim * option error * Sys W :=
  if (leaseID =s "") || ((repoRoot =s "") && negb allowEmptyRepoRoot) then (empty_claim, None, s)
  else
    let guard := match cm_endpoint metadata with
                 | Some _ => Some (endpointClaimGuard guard) | None => guard end in
    let directory := match directory with DirectoryExisting => DirectoryCreate | d => d end in
    transactLeaseClaim env leaseID
      (mkTransaction guard (claimTransactionAction action)
         (pure_mutate (λ existing,
            transformLeaseClaimForRepo existing leaseID slug provider providerScope pond sd repoRoot
              idleTimeout reclaim metadata (FormatRFC3339 now) clock))
         BeforeAction directory SkipEmpty false) s.

(** ** Updates of an existing claim *)

(** [transformLeaseClaimEndpoint] *)
Definition transformLeaseClaimEndpoint (claim : LeaseClaim) (server : Server) (target : SSHTarget)
    (mode : leaseClaimEndpointMode) (metadata : leaseClaimMetadataPolicy) : res LeaseClaim :=
  let provider := firstNonBlank [mlookup (sv_Labels server) "provider"; sv_Provider server] in
  prepared ← prepareLeaseClaimEndpoint claim provider (mlookup (sv_Labels server) "slug") server metadata;
  Ok (applyLeaseClaimEndpoint claim prepared target mode).

Section updates.
Context {W : Type} (env : Env).
Local Abbreviation outcome := (LeaseClaim * option error * Sys W)%type.

Definition UpdateLeaseClaimEndpoint (leaseID : string) (server : Server) (target : SSHTarget)
    (s : Sys W) : outcome :=
  if leaseID =s "" then (empty_claim, None, s)
  else mutateLeaseClaimGuarded env leaseID (Some (endpointClaimGuard None))
    (λ claim, if LeaseID claim =s "" then Ok claim
              else transformLeaseClaimEndpoint claim server target EndpointUpdate MetadataPreserve) s.

(** [updateLeaseClaimEndpointIfUnchangedMode] *)
Definition updateLeaseClaimEndpointIfUnchangedMode (leaseID : string) (expected : LeaseClaim)
    (server : Server) (target : SSHTarget) (mode : leaseClaimEndpointMode)
    (metadata : leaseClaimMetadataPolicy) (s : Sys W) : outcome :=
  if leaseID =s "" then (empty_claim, None, s)
  else transactLeaseClaim env leaseID
    (mkTransaction (Some (endpointClaimGuard (Some (unchangedLeaseClaimGuard expected true)))) None
       (pure_mutate (λ claim, transformLeaseClaimEndpoint claim server target mode metadata))
       BeforeMutation DirectoryCreate SkipEmpty false) s.

Definition UpdateLeaseClaimEndpointIfUnchangedAfter (leaseID : string) (expected : LeaseClaim)
    (server : Server) (target : SSHTarget) (action : option (M W ())) (s : Sys W) : outcome :=
  if leaseID =s "" then (empty_claim, None, s)
  else transactLeaseClaim env leaseID
    (mkTransaction (Some (endpointClaimGuard (Some (unchangedLeaseClaimGuard expected true))))
       (claimTransactionAction action)
       (pure_mutate (λ claim, transformLeaseClaimEndpoint claim server target EndpointUpdate MetadataPreserve))
       BeforeMutation DirectoryExisting Publish false) s.

Definition UpdateLeaseClaimLabelsAndLastUsedIfUnchanged (leaseID : string) (expected : LeaseClaim)
    (labels : gomap) (lastUsed : Z) (s : Sys W) : outcome :=
  if leaseID =s "" then (empty_claim, None, s)
  else mutateLeaseClaimGuarded env leaseID (Some (unchangedLeaseClaimGuard expected true))
    (λ claim, if LeaseID claim =s "" then Ok claim
              else Ok (claim <| ClaimData.Labels := cloneStringMap labels |>
                             <| LastUsedAt := FormatRFC3339 lastUsed |>)) s.

(** The transformation of [UpdateLeaseClaimTouchIfUnchanged];
    [authorized] is the outcome of [AuthorizeCheckpointRelease]. *)
Definition touch_claim (authorized : res ()) (labels : gomap) (lastUsed : Z) (idleTimeoutOverride : option Z)
    (claim : LeaseClaim) : res LeaseClaim :=
  if LeaseID claim =s "" then Ok claim
  else
    authorized;;
    let claim := claim <| ClaimData.Labels := cloneStringMap labels |>
                       <| LastUsedAt := FormatRFC3339 lastUsed |> in
    claim ← match idleTimeoutOverride with
            | Some override =>
                let seconds := Z.quot (RoundSecond override) Second in
                if seconds <=? 0 then Err (Exit 2 "lease %s idle timeout override must be at least one second")
                else Ok (claim <| IdleTimeoutSeconds := seconds |>)
            | None => Ok claim
            end;
    Ok (match directLeaseIdleTimeout ParseDuration labels with
        | Some effective => claim <| IdleTimeoutSeconds := Z.quot (RoundSecond effective) Second |>
        | None => claim
        end).

Definition UpdateLeaseClaimTouchIfUnchanged (authorized : res ()) (leaseID : string) (expected : LeaseClaim)
    (labels : gomap) (lastUsed : Z) (idleTimeoutOverride : option Z) (s : Sys W) : outcome :=
  if leaseID =s "" then (empty_claim, None, s)
  else if match idleTimeoutOverride with Some o => o <=? 0 | None => false end
  then (empty_claim, Some (Exit 2 "lease %s idle timeout override must be positive"), s)
  else transactLeaseClaim env leaseID
    (mkTransaction (Some (unchangedLeaseClaimGuard expected true)) None
       (pure_mutate (touch_claim authorized labels lastUsed idleTimeoutOverride))
       BeforeAction DirectoryCreate SkipEmpty false) s.

Definition update_existing (leaseID : string) (f : LeaseClaim → LeaseClaim) (s : Sys W) : outcome :=
  if leaseID =s "" then (empty_claim, None, s)
  else mutateLeaseClaimGuarded env leaseID None
    (λ claim, if LeaseID claim =s "" then Ok claim else Ok (f claim)) s.

Definition UpdateLeaseClaimTailscale (leaseID ipv4 fqdn : string) : Sys W → outcome :=
  update_existing leaseID (λ claim, setLeaseClaimTailscale claim ipv4 fqdn).
Definition ClearLeaseClaimTailscale (leaseID : string) : Sys W → outcome :=
  update_existing leaseID clearLeaseClaimTailscaleFields.
Definition UpdateLeaseClaimCacheVolumes (leaseID : string) (specs : list string) : Sys W → outcome :=
  update_existing leaseID (λ claim, claim <| CacheVolumes := specs |>).
Definition UpdateLeaseClaimTailscaleSettings (leaseID hostname : string) (tags : list string)
    (loginURL exitNode : string) (exitLAN : bool) : Sys W → outcome :=
  update_existing leaseID (λ claim,
    claim <| TailscaleHostname := hostname |> <| TailscaleTags := tags |>
          <| TailscaleLoginURL := loginURL |> <| TailscaleExitNode := exitNode |>
          <| TailscaleExitLAN := exitLAN |>).
End updates.

(** ** Resolution

    Published claim files are immutable snapshots, so reading is a function of
    the disk.  [entries] is the directory listing: the lease IDs of the files
    with the [.json] extension, in the order the directory is read. *)
Section resolve.
Context (disk : gmap string claim_file) (entries : list string).

(** The claim, whether the file exists, and the error if any. *)
Definition ReadLeaseClaimWithPresence (leaseID : string) : res (LeaseClaim * bool) :=
  if negb (validLeaseClaimPathID leaseID) then Ok (empty_claim, false)
  else match disk !! leaseID with
  | None => Ok (empty_claim, false)
  | Some file =>
      claim ← decodeLeaseClaim file;
      validateLeaseClaimFileIdentity leaseID claim true;;
      Ok (claim, true)
  end.

Definition ReadLeaseClaim (leaseID : string) : res LeaseClaim :=
  '(claim, _) ← ReadLeaseClaimWithPresence leaseID; Ok claim.

Fixpoint list_claims (prefix : string) (ids : list string) : res (list LeaseClaim) :=
  match ids with
  | [] => Ok []
  | id :: ids =>
      if (prefix <>s "") && negb (HasPrefix id prefix) then list_claims prefix ids
      else
        claim ← ReadLeaseClaim id;
        claims ← list_claims prefix ids;
        Ok (if LeaseID claim <>s "" then claim :: claims else claims)
  end.

(** [ListLeaseClaimsWithPrefixContext] *)
Definition ListLeaseClaimsWithPrefix (prefix : string) : res (list LeaseClaim) := list_claims prefix entries.

Definition claimLookupSlug (identifier : string) : string :=
  if IsCanonicalLeaseID identifier then "" else NormalizeLeaseSlug identifier.

Definition is_receipt (claim : LeaseClaim) : bool :=
  match FixedCreateIntent claim with Some i => i_State i =s "released" | None => false end.

(** The scan of [findMatchingLeaseClaim]: the live match and receipt found so
    far and their counts. *)
Record scan := mkScan { sc_live : LeaseClaim; sc_receipt : LeaseClaim; sc_lives : Z; sc_receipts : Z }.

Definition identifier_matches (identifier : string) (match_ : LeaseClaim → bool) (claim : LeaseClaim) : bool :=
  let slug := claimLookupSlug identifier in
  ((LeaseID claim =s identifier) || ((slug <>s "") && (NormalizeLeaseSlug (ClaimData.Slug claim) =s slug))) &&
  match_ claim.

Fixpoint scan_claims (identifier : string) (match_ : LeaseClaim → bool) (unique : bool) (st : scan)
    (ids : list string) : res (LeaseClaim * bool) :=
  match ids with
  | [] =>
      if (sc_lives st =? 0) && (1 <? sc_receipts st)
      then Err (Exit 2 "multiple claims match identifier %s")
      else if sc_lives st =? 1 then Ok (sc_live st, true)
      else Ok (sc_receipt st, sc_receipts st =? 1)
  | id :: ids =>
      '(claim, _) ← ReadLeaseClaimWithPresence id;
      if negb (identifier_matches identifier match_ claim) then scan_claims identifier match_ unique st ids
      else if negb unique then Ok (claim, true)
      else if is_receipt claim then
        scan_claims identifier match_ unique (mkScan (sc_live st) claim (sc_lives st) (sc_receipts st + 1)) ids
      else if 1 <? sc_lives st + 1 then Err (Exit 2 "multiple claims match identifier %s")
      else scan_claims identifier match_ unique (mkScan claim (sc_receipt st) (sc_lives st + 1) (sc_receipts st)) ids
  end.

Definition findMatchingLeaseClaim (identifier : string) (match_ : LeaseClaim → bool) (unique : bool)
    : res (LeaseClaim * bool) :=
  if identifier =s "" then Ok (empty_claim, false)
  else if IsCanonicalLeaseID identifier then
    '(claim, exists_) ← ReadLeaseClaimWithPresence identifier;
    if exists_ && (LeaseID claim <>s "") && match_ claim then Ok (claim, true) else Ok (empty_claim, false)
  else scan_claims identifier match_ unique (mkScan empty_claim empty_claim 0 0) entries.

Definition findUniqueLeaseClaim (identifier : string) (match_ : LeaseClaim → bool) : res (LeaseClaim * bool) :=
  findMatchingLeaseClaim identifier match_ true.

(** [ResolveLeaseClaimContext] *)
Definition ResolveLeaseClaim (identifier : string) : res (LeaseClaim * bool) :=
  if identifier =s "" then Ok (empty_claim, false)
  else
    claim ← ReadLeaseClaim identifier;
    if LeaseID claim <>s "" then Ok (claim, true)
    else findUniqueLeaseClaim identifier (λ _, true).

(** [ResolveLeaseClaimForProviderContext] *)
Definition ResolveLeaseClaimForProvider (identifier provider : string) : res (LeaseClaim * bool) :=
  if provider =s "" then ResolveLeaseClaim identifier
  else if identifier =s "" then Ok (empty_claim, false)
  else
    '(claim, exists_) ← ReadLeaseClaimWithPresence identifier;
    if exists_ && (LeaseID claim <>s "") && (canonicalClaimProvider (Provider claim) =s provider)
    then Ok (claim, true)
    else if IsCanonicalLeaseID identifier then Ok (empty_claim, false)
    else findUniqueLeaseClaim identifier (λ candidate, canonicalClaimProvider (Provider candidate) =s provider).

(** [ResolveLeaseClaimForProviderScopeWithExactContext]: the claim, whether it
    is a match, and whether a file of that exact name exists. *)
Definition ResolveLeaseClaimForProviderScopeWithExact (identifier provider providerScope : string)
    : res (LeaseClaim * bool * bool) :=
  if identifier =s "" then Ok (empty_claim, false, false)
  else
    '(exact, exists_) ← ReadLeaseClaimWithPresence identifier;
    if exists_ : bool then
      if (LeaseID exact =s "") || (canonicalClaimProvider (Provider exact) <>s provider) ||
         (ProviderScope exact <>s providerScope)
      then Ok (exact, false, true) else Ok (exact, true, true)
    else
      '(claim, ok) ← findUniqueLeaseClaim identifier (λ candidate,
         (canonicalClaimProvider (Provider candidate) =s provider) && (ProviderScope candidate =s providerScope));
      Ok (claim, ok, false).

Fixpoint scan_cloud_id (cloudID provider providerScope : string) (found : LeaseClaim) (ids : list string)
    : res (LeaseClaim * bool) :=
  match ids with
  | [] => Ok (found, LeaseID found <>s "")
  | id :: ids =>
      claim ← ReadLeaseClaim id;
      if (canonicalClaimProvider (Provider claim) <>s provider) || (CloudID claim <>s cloudID)
      then scan_cloud_id cloudID provider providerScope found ids
      else if (providerScope <>s "") && (ProviderScope claim <>s providerScope)
      then scan_cloud_id cloudID provider providerScope found ids
      else if LeaseID found <>s "" then Err (Exit 2 "multiple provider=%s scope=%s claims match cloud id %s")
      else scan_cloud_id cloudID provider providerScope claim ids
  end.

(** [ResolveLeaseClaimForProviderCloudIDScopeContext] *)
Definition ResolveLeaseClaimForProviderCloudIDScope (cloudID provider providerScope : string)
    : res (LeaseClaim * bool) :=
  if (cloudID =s "") || (provider =s "") then Ok (empty_claim, false)
  else scan_cloud_id cloudID provider providerScope empty_claim entries.
End resolve.
End claims.

(** ** Resolving an identifier is unambiguous *)

(** Every claim of the listing, or the first read error. *)
Fixpoint read_all (disk : gmap string claim_file) (ids : list string) : res (list LeaseClaim) :=
  match ids with
  | [] => Ok []
  | id :: ids => '(claim, _) ← ReadLeaseClaimWithPresence disk id; claims ← read_all disk ids; Ok (claim :: claims)
  end.

(** The reference: the only live match, or else the only receipt; anything
    ambiguous is refused. *)
Definition unique_match (matches : list LeaseClaim) : res (LeaseClaim * bool) :=
  match filter (λ c, is_receipt c = false) matches, filter (λ c, is_receipt c = true) matches with
  | [live], _ => Ok (live, true)
  | [], [receipt] => Ok (receipt, true)
  | [], [] => Ok (empty_claim, false)
  | _, _ => Err (Exit 2 "multiple claims match identifier %s")
  end.

(** The state of the scan after the matches [seen]. *)
Definition scan_state (seen : list LeaseClaim) (st : scan) : Prop :=
  let lives := filter (λ c, is_receipt c = false) seen in
  let receipts := filter (λ c, is_receipt c = true) seen in
  sc_lives st = zlen lives ∧ sc_receipts st = zlen receipts ∧ (length lives ≤ 1)%nat ∧
  (∀ c, lives = [c] → sc_live st = c) ∧
  sc_receipt st = default empty_claim (last receipts).

Lemma many_lives seen c rest :
  length (filter (λ c, is_receipt c = false) seen) = 1%nat → is_receipt c = false →
  unique_match (seen ++ c :: rest) = Err (Exit 2 "multiple claims match identifier %s").
Proof.
  intros Hl Hc. unfold unique_match.
  rewrite !filter_app, !filter_cons, Hc, decide_True by done.
  destruct (filter (λ c, is_receipt c = false) seen) as [|x [|]]; [done| |done]. done.
Qed.

Lemma scan_finish seen st :
  scan_state seen st →
  (if (sc_lives st =? 0) && (1 <? sc_receipts st)
   then Err (Exit 2 "multiple claims match identifier %s")
   else if sc_lives st =? 1 then Ok (sc_live st, true)
   else Ok (sc_receipt st, sc_receipts st =? 1)) = unique_match seen.
Proof.
  intros (Hl & Hr & Hle & Hlive & Hrec). unfold unique_match.
  destruct (filter (λ c, is_receipt c = false) seen) as [|l [|]]; cbn in Hle; [| |lia].
  - rewrite Hl, Hr, Hrec. change (zlen []) with 0.
    destruct (filter (λ c, is_receipt c = true) seen) as [|r [|r' rs]]; [done|done|].
    replace ((0 =? 0) && (1 <? zlen (r :: r' :: rs))) with true; [done|].
    symmetry. apply andb_true_iff. split; [done|]. apply Z.ltb_lt. unfold zlen. cbn [length]. lia.
  - rewrite Hl. change (zlen [l]) with 1. by rewrite (Hlive l).
Qed.

(** Lists that are permutations of each other look the same up to their
    first element. *)
Lemma unique_match_perm a b : a ≡ₚ b → unique_match a = unique_match b.
Proof.
  intros H. unfold unique_match.
  pose proof (filter_Permutation (λ c, is_receipt c = false) _ _ H) as Hl.
  pose proof (filter_Permutation (λ c, is_receipt c = true) _ _ H) as Hr.
  pose proof (Permutation_length Hl) as El. pose proof (Permutation_length Hr) as Er.
  destruct (filter (λ c, is_receipt c = false) a) as [|x [|x' xs]],
    (filter (λ c, is_receipt c = false) b) as [|y [|y' ys]]; try done.
  - destruct (filter (λ c, is_receipt c = true) a) as [|u [|u' us]],
      (filter (λ c, is_receipt c = true) b) as [|v [|v' vs]]; try done.
    by apply Permutation_length_1 in Hr as ->.
  - by apply Permutation_length_1 in Hl as ->.
Qed.

Lemma read_all_perm disk a b claims :
  a ≡ₚ b → read_all disk b = Ok claims → ∃ claims', read_all disk a = Ok claims' ∧ claims' ≡ₚ claims.
Proof.
  intros H. revert claims. induction H as [|id a b H IH|x y l|a b c _ IH1 _ IH2]; intros claims; cbn [read_all].
  - intros [= <-]. by exists [].
  - destruct (ReadLeaseClaimWithPresence disk id) as [[c ex]|]; cbn [mbind res_bind]; [|done].
    destruct (read_all disk b) as [cs|]; cbn [mbind res_bind]; [|done]. intros [= <-].
    destruct (IH cs eq_refl) as (cs' & -> & Hp). exists (c :: cs'). cbn. split; [done|by constructor].
  - destruct (ReadLeaseClaimWithPresence disk x) as [[cx ex]|]; cbn [mbind res_bind]; [|done].
    destruct (ReadLeaseClaimWithPresence disk y) as [[cy ey]|]; cbn [mbind res_bind]; [|done].
    destruct (read_all disk l) as [cs|]; cbn [mbind res_bind]; [|done]. intros [= <-].
    exists (cy :: cx :: cs). split; [done|constructor].
  - intros Hc. destruct (IH2 _ Hc) as (cs & Hb & Hp). destruct (IH1 _ Hb) as (cs' & Ha & Hp').
    exists cs'. split; [done|by etrans].
Qed.

Section resolution.
Context (disk : gmap string claim_file) (identifier : string) (match_ : LeaseClaim → bool).

Lemma scan_claims_reference ids : ∀ seen st,
  scan_state seen st →
  match read_all disk ids with
  | Ok claims => scan_claims disk identifier match_ true st ids
      = unique_match (seen ++ filter (λ c, identifier_matches identifier match_ c = true) claims)
  | Err _ => ∃ e, scan_claims disk identifier match_ true st ids = Err e
  end.
Proof.
  induction ids as [|id ids IH]; intros seen st Hst; cbn [read_all scan_claims].
  { cbn [filter list_filter]. rewrite app_nil_r. by apply scan_finish. }
  destruct (ReadLeaseClaimWithPresence disk id) as [[c ex]|e]; cbn [mbind res_bind]; [|by eexists].
  assert (∀ seen' st', scan_state seen' st' →
    (∀ claims, (seen' ++ filter (λ c, identifier_matches identifier match_ c = true) claims)%list
               = (seen ++ filter (λ c, identifier_matches identifier match_ c = true) (c :: claims))%list) →
    match mbind (λ claims, Ok (c :: claims)) (read_all disk ids) with
    | Ok claims => scan_claims disk identifier match_ true st' ids
        = unique_match (seen ++ filter (λ c, identifier_matches identifier match_ c = true) claims)
    | Err _ => ∃ e, scan_claims disk identifier match_ true st' ids = Err e
    end) as Hstep.
  { intros seen' st' Hst' Hf. specialize (IH seen' st' Hst').
    destruct (read_all disk ids) as [claims|]; cbn [mbind res_bind]; [|done]. by rewrite <-Hf. }
  destruct (identifier_matches identifier match_ c) eqn:Hm; cbn [negb].
  2: { apply (Hstep seen); [done|]. intros claims. rewrite filter_cons, decide_False by congruence. done. }
  destruct Hst as (Hl & Hr & Hle & Hlive & Hrec).
  assert (∀ claims, ((seen ++ [c]) ++ filter (λ c, identifier_matches identifier match_ c = true) claims)%list
     = (seen ++ filter (λ c, identifier_matches identifier match_ c = true) (c :: claims))%list) as Hsnoc.
  { intros claims. rewrite filter_cons, decide_True by done. by rewrite <-app_assoc. }
  destruct (is_receipt c) eqn:Hrc.
  - apply (Hstep (seen ++ [c])%list); [|done]. unfold scan_state. cbn [sc_lives sc_receipts sc_live sc_receipt].
    rewrite !filter_app, !filter_cons, Hrc, decide_False, decide_True by done.
    rewrite !filter_nil, app_nil_r, zlen_app, last_snoc. change (zlen [c]) with 1.
    split_and!; [done|lia|done|done|done].
  - destruct (1 <? sc_lives st + 1) eqn:Hlt.
    + assert (length (filter (λ c, is_receipt c = false) seen) = 1%nat) as H1 by (unfold zlen in Hl; lia).
      destruct (read_all disk ids) as [claims|]; cbn [mbind res_bind]; [|by eexists].
      rewrite filter_cons, decide_True by done. by rewrite many_lives.
    + assert (filter (λ c, is_receipt c = false) seen = []) as H0.
      { apply length_zero_iff_nil. unfold zlen in Hl. lia. }
      apply (Hstep (seen ++ [c])%list); [|done]. unfold scan_state. cbn [sc_lives sc_receipts sc_live sc_receipt].
      rewrite !filter_app, !filter_cons, Hrc, decide_True, decide_False by done.
      rewrite !filter_nil, app_nil_r, H0. rewrite Hl, H0. change (zlen []) with 0.
      split_and!; [done|done|cbn; lia|by intros ? [= <-]|done].
Qed.

(** C37. An identifier that is not a canonical lease ID resolves to a claim
    only when it is unambiguous: if every claim file is readable, the scan
    returns exactly the only live claim that matches, or, when no live claim
    matches, the only matching receipt of a released lease; it reports no
    match exactly when nothing matches and refuses every other case.  The
    answer does not depend on the order of the directory.  If some claim file
    cannot be read, it returns an error. *)
Theorem resolution_unambiguous entries :
  identifier ≠ "" → IsCanonicalLeaseID identifier = false →
  match read_all disk entries with
  | Ok claims =>
      findUniqueLeaseClaim disk entries identifier match_
        = unique_match (filter (λ c, identifier_matches identifier match_ c = true) claims) ∧
      ∀ entries', entries' ≡ₚ entries →
        findUniqueLeaseClaim disk entries' identifier match_
          = findUniqueLeaseClaim disk entries identifier match_
  | Err _ => ∃ e, findUniqueLeaseClaim disk entries identifier match_ = Err e
  end.
Proof.
  intros Hid Hcan.
  assert (∀ ids, findUniqueLeaseClaim disk ids identifier match_
            = scan_claims disk identifier match_ true (mkScan empty_claim empty_claim 0 0) ids) as Hfind.
  { intros ids. unfold findUniqueLeaseClaim, findMatchingLeaseClaim.
    by rewrite bool_decide_eq_false_2, Hcan. }
  assert (scan_state [] (mkScan empty_claim empty_claim 0 0)) as Hst
    by (split_and!; cbn; (done || lia)).
  pose proof (scan_claims_reference entries [] _ Hst) as H.
  destruct (read_all disk entries) as [claims|] eqn:Er; rewrite !Hfind; [|done].
  split; [done|]. intros entries' Hp. rewrite !Hfind, H.
  destruct (read_all_perm _ _ _ _ Hp Er) as (claims' & Er' & Hpc).
  pose proof (scan_claims_reference entries' [] _ Hst) as H'. rewrite Er' in H'. rewrite H'.
  apply unique_match_perm. cbn [app]. by apply filter_Permutation.
Qed.
End resolution.

Definition released_intent : FixedCreateIntent_t :=
  mkIntent None 1 "fp" "scope" "" "box" "" "released" None [] None.
Definition sample_disk : gmap string claim_file :=
  {["cbx_000000000001" := Stored (empty_claim <| LeaseID := "cbx_000000000001" |> <| ClaimData.Slug := "box" |>);
    "cbx_000000000002" := Stored (empty_claim <| LeaseID := "cbx_000000000002" |> <| ClaimData.Slug := "box" |>
                                    <| FixedCreateIntent := Some released_intent |>)]}.

(** A receipt and a live lease share a slug: the live lease is found, in
    either directory order. *)
Lemma resolution_witness :
  findUniqueLeaseClaim sample_disk ["cbx_000000000001"; "cbx_000000000002"] "Box" (λ _, true)
    = Ok (empty_claim <| LeaseID := "cbx_000000000001" |> <| ClaimData.Slug := "box" |>, true) ∧
  findUniqueLeaseClaim sample_disk ["cbx_000000000002"; "cbx_000000000001"] "Box" (λ _, true)
    = findUniqueLeaseClaim sample_disk ["cbx_000000000001"; "cbx_000000000002"] "Box" (λ _, true).
Proof.
  pose proof (resolution_unambiguous sample_disk "Box" (λ _, true)
    ["cbx_000000000001"; "cbx_000000000002"] ltac:(discriminate) ltac:(vm_compute; reflexivity)) as H.
  split; [vm_compute; reflexivity|].
  replace (read_all sample_disk ["cbx_000000000001"; "cbx_000000000002"])
    with (Ok [empty_claim <| LeaseID := "cbx_000000000001" |> <| ClaimData.Slug := "box" |>;
              empty_claim <| LeaseID := "cbx_000000000002" |> <| ClaimData.Slug := "box" |>
                <| FixedCreateIntent := Some released_intent |>]) in H by (vm_compute; reflexivity).
  apply (proj2 H). constructor.
Defined.


(** ** Claiming keeps what it must not change *)

(** The fields endpoint recording never writes. *)
Definition ownership (c : LeaseClaim) :=
  (LeaseID c, RepoRoot c, Provider c, FixedCreateIntent c, RecoveryHold c, CheckpointCapture c,
   LastUsedAt c, IdleTimeoutSeconds c, ClaimedAt c).

(** Those the recording of details keeps as well. *)
Definition custody (c : LeaseClaim) :=
  (LeaseID c, Provider c, FixedCreateIntent c, RecoveryHold c, CheckpointCapture c, IdleTimeoutSeconds c).

Lemma SetResource_ownership c a n i e :
  ownership (SetLeaseClaimResourceIdentity c a n i e) = ownership c.
Proof. cbv beta delta [SetLeaseClaimResourceIdentity]. repeat kept_step ownership. Qed.

Lemma applyEndpoint_ownership c server target mode :
  ownership (applyLeaseClaimEndpoint c server target mode) = ownership c.
Proof.
  cbv beta delta [applyLeaseClaimEndpoint].
  repeat first [kept_step ownership | rewrite SetResource_ownership].
Qed.

Lemma record_endpoint_ownership c md server clock :
  ownership (record_endpoint c md server clock) = ownership c.
Proof.
  cbv beta delta [record_endpoint]. destruct (cm_endpoint md) as [[[? target] mode]|]; [|done].
  repeat first [rewrite applyEndpoint_ownership | kept_step ownership].
Qed.

Lemma record_details_custody c provider scope pond sd repo now :
  custody (record_details c provider scope pond sd repo now) = custody c ∧
  RepoRoot (record_details c provider scope pond sd repo now) = repo ∧
  LastUsedAt (record_details c provider scope pond sd repo now) = now.
Proof.
  split; [|done]. cbv beta delta [record_details record_static]. repeat kept_step custody.
Qed.

(** What [record_usage] writes. *)
Lemma record_usage_ownership c md server clock idle norm :
  ownership (record_usage c md server clock idle norm)
    = ownership (if idle >? 0 then c <| IdleTimeoutSeconds := whole_seconds idle |> else c) ∧
  (norm = true →
   mlookup (ClaimData.Labels (record_usage c md server clock idle norm)) "idle_timeout_secs"
     = durationSecondsLabel idle).
Proof.
  split.
  - cbv beta delta [record_usage].
    set (c1 := if idle >? 0 then _ else _). clearbody c1. cbv beta zeta.
    set (c2 := match cm_cacheVolumes md with Some _ => _ | None => _ end).
    assert (ownership c2 = ownership c1) as <- by (subst c2; by destruct (cm_cacheVolumes md)).
    clearbody c2. set (c3 := match cm_labels md with Some _ => _ | None => _ end).
    assert (ownership c3 = ownership c2) as <- by (subst c3; by destruct (cm_labels md)).
    clearbody c3. rewrite <-(record_endpoint_ownership c3 md server clock). by destruct norm.
  - intros ->. unfold record_usage. cbn [setter]. unfold mlookup, claimLabelsWithIdleTimeout, mset.
    cbn. rewrite lookup_insert_eq. unfold mlookup. cbn. by rewrite lookup_insert_eq.
Qed.

Lemma clone_RepoRoot c : RepoRoot (cloneLeaseClaim c) = RepoRoot c.
Proof. destruct c. unfold cloneLeaseClaim. cbn. by destruct FixedCreateIntent. Qed.
Lemma clone_IdleTimeout c : IdleTimeoutSeconds (cloneLeaseClaim c) = IdleTimeoutSeconds c.
Proof. destruct c. unfold cloneLeaseClaim. cbn. by destruct FixedCreateIntent. Qed.

Section transform.
Context (registry : string → option ProviderEntry) (ParseDuration : string → option Z).

Lemma record_provider_ok c provider c' :
  record_provider registry c provider = Ok c' →
  (c' = c ∨ c' = c <| Provider := provider |> ∧ ¬ (is_Some (FixedCreateIntent c) ∧ Provider c ≠ "")) ∧
  (provider ≠ "" → is_Some (FixedCreateIntent c) → Provider c ≠ "" →
   canonicalClaimProvider registry (Provider c) = canonicalClaimProvider registry provider).
Proof.
  unfold record_provider. destruct (provider <>s "") eqn:Hp.
  - destruct (bool_decide (is_Some (FixedCreateIntent c)) && (Provider c <>s "")) eqn:Hf.
    + destruct (canonicalClaimProvider registry (Provider c) <>s canonicalClaimProvider registry provider) eqn:Hc;
        [done|]. intros [= <-]. split; [by left|]. intros _ _ _. by guards.
    + intros [= <-]. apply andb_false_iff in Hf.
      assert (¬ (is_Some (FixedCreateIntent c) ∧ Provider c ≠ "")) as Hn.
      { intros [H1 H2]. destruct Hf as [Hf|Hf]; guards; done. }
      split; [right; done|]. intros _ H1 H2. exfalso. by apply Hn.
  - intros [= <-]. guards. split; [by left|done].
Qed.

Lemma record_owner_ok existing leaseID slug repo reclaim legacy now :
  let c := record_owner existing leaseID slug repo reclaim legacy now in
  LeaseID c = leaseID ∧ FixedCreateIntent c = FixedCreateIntent existing ∧
  RecoveryHold c = RecoveryHold existing ∧ Provider c = Provider existing ∧
  (reclaim = true ∨ ClaimRepositoryMatches (RepoRoot existing) repo [legacy] = false → CheckpointCapture c = None).
Proof.
  unfold record_owner. destruct (_ || _ || _) eqn:Hb; [by split_and!|].
  split_and!; try done. guards. intros [?|?]; congruence.
Qed.

(** C38. Claiming a lease for a repository respects its owner: it succeeds
    only for an unclaimed lease, a lease of the same repository (or its one
    legacy root) or an explicit reclaim; it never changes the create intent, a
    salvage hold or, for a fixed lease, the recorded provider (a different
    provider is refused); and the checkpoint capture and workspace consent of
    the previous owner do not survive a reclaim or a change of repository or
    resource. *)
Theorem repo_claim_respects_owner existing leaseID slug provider scope pond sd repo idle reclaim md now clock c :
  transformLeaseClaimForRepo registry ParseDuration existing leaseID slug provider scope pond sd repo
    idle reclaim md now clock = Ok c →
  let matches := ClaimRepositoryMatches (RepoRoot existing) repo [cm_legacyRepoRoot md] in
  (LeaseID existing = "" ∨ RepoRoot existing = "" ∨ matches = true ∨ reclaim = true) ∧
  LeaseID c = leaseID ∧ RepoRoot c = repo ∧ LastUsedAt c = now ∧
  FixedCreateIntent c = FixedCreateIntent existing ∧ RecoveryHold c = RecoveryHold existing ∧
  (is_Some (FixedCreateIntent existing) → Provider existing ≠ "" →
   Provider c = Provider existing ∧
   (provider ≠ "" → canonicalClaimProvider registry (Provider existing) = canonicalClaimProvider registry provider)) ∧
  (reclaim = true ∨ matches = false → CheckpointCapture c = None) ∧
  (ActionsWorkspace c ≠ None → reclaim = false ∧
   sameActionsWorkspaceClaimOwner
     (if matches then (cloneLeaseClaim existing) <| RepoRoot := repo |> else cloneLeaseClaim existing) c = true).
Proof.
  unfold transformLeaseClaimForRepo. intros H.
  apply res_bind_ok in H as (server & _ & H). apply res_bind_ok in H as (? & Hown%reject_if_ok & H).
  apply res_bind_ok in H as (c1 & Hc1 & H).
  apply res_bind_ok in H as ([idle' norm] & Hidle & H).
  set (matches := ClaimRepositoryMatches (RepoRoot existing) repo [cm_legacyRepoRoot md]) in *.
  set (c0 := record_owner _ _ _ _ _ _ _) in Hc1.
  destruct (record_owner_ok existing leaseID slug repo reclaim (cm_legacyRepoRoot md) now) as (E1 & E2 & E3 & E4 & E5).
  fold matches c0 in E1, E2, E3, E4, E5.
  clearbody c0. apply record_provider_ok in Hc1 as [Hc1 Hcan]. rewrite E2, E4 in Hcan.
  assert (custody c1 = custody (c0 <| Provider := Provider c1 |>)) as Hcu.
  { destruct Hc1 as [-> | [-> _]]; [|done]. by destruct c0. }
  destruct (record_details_custody c1 provider scope pond sd repo now) as (D1 & D2 & D3).
  set (c2 := record_details _ _ _ _ _ _ _) in *. clearbody c2.
  destruct (record_usage_ownership c2 md server clock idle' norm) as [U1 _].
  set (c3 := record_usage _ _ _ _ _ _) in *. clearbody c3.
  assert (LeaseID c3 = LeaseID c2 ∧ RepoRoot c3 = RepoRoot c2 ∧ Provider c3 = Provider c2 ∧
          FixedCreateIntent c3 = FixedCreateIntent c2 ∧ RecoveryHold c3 = RecoveryHold c2 ∧
          CheckpointCapture c3 = CheckpointCapture c2 ∧ LastUsedAt c3 = LastUsedAt c2)
    as (F1 & F2 & F3 & F4 & F5 & F6 & F7) by (unfold ownership in U1; destruct (idle' >? 0); by injection U1).
  unfold custody in D1, Hcu. injection D1 as G1 G2 G3 G4 G5 _. injection Hcu as K1 K3 K4 K5 _.
  rewrite clone_RepoRoot in H. fold matches in H. injection H as H.
  set (keep := reclaim || _) in H.
  assert (∀ f : LeaseClaim → Prop, f c3 → f (c3 <| ActionsWorkspace := None |>) → f c) as Hc.
  { intros f H1 H2. rewrite <-H. by destruct keep. }
  split_and!; try (apply Hc; cbn; congruence).
  - destruct (decide (LeaseID existing = "")); [by left|].
    destruct (decide (RepoRoot existing = "")); [by right; left|]. fold matches in Hown.
    rewrite !bool_decide_eq_false_2 in Hown by done. right; right.
    destruct matches; [by left|]. destruct reclaim; [by right|done].
  - intros Hs Hne. split; [|by intros; apply Hcan].
    assert (Provider c1 = Provider existing) as Hp.
    { destruct Hc1 as [-> | [-> Hn]]; [done|]. exfalso. apply Hn. by rewrite E2, E4. }
    apply Hc; cbn; congruence.
  - intros Hor. apply Hc; cbn; rewrite ?F6, ?G5, ?K5; by apply E5.
  - intros Haw. destruct keep eqn:Hk; subst keep.
    + rewrite <-H in Haw. done.
    + apply orb_false_iff in Hk as [-> Hk]. rewrite <-H. split; [done|]. by apply negb_false_iff in Hk.
Qed.

Lemma RoundSecond_whole n : 0 < n → RoundSecond (n * Second) = n * Second.
Proof.
  intros Hn. unfold RoundSecond. rewrite Z.rem_mul by done.
  replace (n * Second <? 0) with false by (unfold Second; lia).
  change (0 + 0 <? Second) with true. cbv iota. lia.
Qed.

Lemma durationSecondsLabel_whole n : 0 < n → durationSecondsLabel (n * Second) = FormatInt n.
Proof.
  intros Hn. unfold durationSecondsLabel. replace (n * Second <=? 0) with false by (unfold Second; lia).
  by rewrite RoundSecond_whole, Z.quot_mul.
Qed.

Lemma wrap64_seconds n : 0 < n ≤ max_int64 / Second → wrap64 (n * Second) = n * Second ∧ n * Second > 0.
Proof.
  intros Hn. assert (max_int64 / Second * Second ≤ max_int64) by (vm_compute; discriminate).
  split; [|unfold Second; lia]. apply wrap64_id. unfold min_int64, max_int64, Second in *. lia.
Qed.

(** The part of the transformation that decides the idle timeout. *)
Lemma transform_idle existing leaseID slug provider scope pond sd repo idle reclaim md now clock c n :
  transformLeaseClaimForRepo registry ParseDuration existing leaseID slug provider scope pond sd repo
    idle reclaim md now clock = Ok c →
  0 < n ≤ max_int64 / Second →
  (∀ idle' norm, selectClaimIdleTimeout (if LeaseID existing <>s "" then IdleTimeoutSeconds existing else 0)
      (match cm_idlePolicy md with IdleCoordinatorProjection => idle' | _ => idle end) (cm_idlePolicy md)
      = Ok norm → norm = (wrap64 (n * Second), true)) →
  IdleTimeoutSeconds c = n ∧ mlookup (ClaimData.Labels c) "idle_timeout_secs" = FormatInt n.
Proof.
  unfold transformLeaseClaimForRepo. intros H Hn Hsel.
  apply res_bind_ok in H as (server & _ & H). apply res_bind_ok in H as (? & _ & H).
  apply res_bind_ok in H as (c1 & _ & H). apply res_bind_ok in H as ([idle' norm] & Hidle & H).
  rewrite clone_IdleTimeout in Hidle.
  destruct (wrap64_seconds n Hn) as [Hw Hpos].
  assert (idle' = n * Second ∧ norm = true) as [-> ->].
  { rewrite <-Hw. destruct (cm_idlePolicy md); [apply (Hsel 0) in Hidle|apply (Hsel 0) in Hidle|eapply Hsel in Hidle];
      by injection Hidle as -> ->. }
  set (c2 := record_details _ _ _ _ _ _ _) in *. clearbody c2.
  destruct (record_usage_ownership c2 md server clock (n * Second) true) as [U1 U2].
  set (c3 := record_usage _ _ _ _ _ _) in *. clearbody c3.
  replace (n * Second >? 0) with true in U1 by lia. injection U1 as _ _ _ _ _ _ _ U _.
  specialize (U2 eq_refl). rewrite durationSecondsLabel_whole in U2 by lia.
  injection H as H. rewrite <-H. unfold whole_seconds in U. rewrite Z.quot_mul in U by done.
  by destruct (reclaim || _).
Qed.

(** The recorded idle timeout of a lease changes only on request: under
    the default policy, claiming a lease again keeps the recorded idle timeout
    whatever is proposed; an explicit override replaces it by the override
    rounded to whole seconds and at least one second (and a non-positive
    override is refused); in both cases the claim's label states the same
    number of seconds as its field. *)
Theorem idle_timeout_policy existing leaseID slug provider scope pond sd repo idle reclaim md now clock c :
  transformLeaseClaimForRepo registry ParseDuration existing leaseID slug provider scope pond sd repo
    idle reclaim md now clock = Ok c →
  (cm_idlePolicy md = IdlePreserveRecorded → LeaseID existing ≠ "" →
   0 < IdleTimeoutSeconds existing ≤ max_int64 / Second →
   IdleTimeoutSeconds c = IdleTimeoutSeconds existing ∧
   mlookup (ClaimData.Labels c) "idle_timeout_secs" = FormatInt (IdleTimeoutSeconds existing)) ∧
  (cm_idlePolicy md = IdleReplaceExplicitly → idle ≤ max_int64 - Second →
   let seconds := Z.max 1 (Z.quot (RoundSecond idle) Second) in
   0 < idle ∧ IdleTimeoutSeconds c = seconds ∧
   mlookup (ClaimData.Labels c) "idle_timeout_secs" = FormatInt seconds).
Proof.
  intros H. split.
  - intros Hp Hne Hr. eapply transform_idle; [exact H|exact Hr|].
    intros idle' r. rewrite Hp. rewrite bool_decide_eq_false_2 by done. cbn.
    replace (IdleTimeoutSeconds existing >? 0) with true by lia. by intros [= <-].
  - intros Hp Hmax. cbv zeta.
    assert (0 < idle) as Hpos.
    { unfold transformLeaseClaimForRepo in H. apply res_bind_ok in H as (server & _ & H).
      apply res_bind_ok in H as (? & _ & H). apply res_bind_ok in H as (c1 & _ & H).
      apply res_bind_ok in H as (? & Hidle & _). rewrite Hp in Hidle. cbn in Hidle.
      destruct (idle <=? 0) eqn:E; [done|lia]. }
    split; [done|]. eapply transform_idle; [exact H| |].
    + split; [lia|]. apply Z.max_lub; [by vm_compute|].
      assert (RoundSecond idle ≤ max_int64).
      { pose proof (Z.rem_bound_pos idle Second ltac:(lia) ltac:(done)) as Hrem.
        unfold RoundSecond. replace (idle <? 0) with false by lia.
        destruct (_ <? Second); [lia|]. case_match; lia. }
      etrans; [apply Z.quot_le_mono; [done|eassumption]|]. by vm_compute.
    + intros idle' r. rewrite Hp. cbn. replace (idle <=? 0) with false by lia. intros [= <-].
      do 3 f_equal. case_match; lia.
Qed.
End transform.

(** One registered provider without endpoint preparation. *)
Definition sample_registry : string → option ProviderEntry :=
  λ name, if name =s "aws" then Some (mkProvider "aws" None) else None.
Definition sample_metadata (policy : claimIdlePolicy) : claimMetadata :=
  mkMetadata "" None None "" 0 MetadataPreserve None policy.
Definition no_static : staticClaimDetails := mkStatic false "" "" "" "" "" "".

Lemma repo_claim_witness :
  ∃ c, transformLeaseClaimForRepo sample_registry (λ _, None) sample_claim "cbx_0123456789ab" "box" "aws"
         "" "" no_static "/repo" 0 false (sample_metadata IdlePreserveRecorded) "2023" 0 = Ok c ∧
       RepoRoot c = "/repo".
Proof.
  eexists. assert (transformLeaseClaimForRepo sample_registry (λ _, None) sample_claim "cbx_0123456789ab" "box" "aws"
         "" "" no_static "/repo" 0 false (sample_metadata IdlePreserveRecorded) "2023" 0
     = Ok (sample_claim <| ClaimedAt := "2023" |> <| LastUsedAt := "2023" |> <| ClaimData.Slug := "box" |>
             <| Provider := "aws" |>)) as H by (vm_compute; reflexivity).
  split; [exact H|]. exact (proj1 (proj2 (proj2 (repo_claim_respects_owner _ _ _ _ _ _ _ _ _ _ _ _ _ _ _ _ H)))).
Defined.

Lemma idle_timeout_witness :
  ∃ c, transformLeaseClaimForRepo sample_registry (λ _, None)
         (sample_claim <| IdleTimeoutSeconds := 90 |>) "cbx_0123456789ab" "box" "aws"
         "" "" no_static "/repo" (600 * Second) false (sample_metadata IdlePreserveRecorded) "2023" 0 = Ok c ∧
       IdleTimeoutSeconds c = 90.
Proof.
  destruct (transformLeaseClaimForRepo sample_registry (λ _, None)
         (sample_claim <| IdleTimeoutSeconds := 90 |>) "cbx_0123456789ab" "box" "aws"
         "" "" no_static "/repo" (600 * Second) false (sample_metadata IdlePreserveRecorded) "2023" 0)
    as [c|e] eqn:H; [|vm_compute in H; discriminate].
  exists c. split; [reflexivity|].
  refine (proj1 (proj1 (idle_timeout_policy _ _ _ _ _ _ _ _ _ _ _ _ _ _ _ _ H) eq_refl _ _)).
  - discriminate.
  - split; vm_compute; [reflexivity|discriminate].
Defined.
