(* ===== verification/FixedTx.v ===== *)
(** * Fixed-lease transactions

    [FixedTransaction] and its operations ([fixed_lease_engine.go],
    [fixed_lease_protocol.go]), inside the durable claim lock of
    [claim.go WithDurableLeaseClaimLockContext].  The transaction works on the
    claim read under the lock; every change becomes durable only through
    [persist].

    JSON values inside an attempt are text: the codec of [encoding/json] is an
    argument ([Json]) and nothing is assumed about it.  So are the effects
    outside the store (removing SSH keys and artifacts). *)

From Stdlib Require Import ZArith Lia.
From stdpp Require Import gmap strings prelude.
From S2P Require Import Prelude GoText GoTime Sha256 ClaimData Slug Labels Identity Journal ClaimStore ClaimOps.
Local Open Scope string_scope.
Local Open Scope Z_scope.
Local Open Scope crab_scope.

(** ** Policies and evidence *)

Record FixedKeyedRetry := mkKeyedRetry { kr_AttemptKey : string; kr_Window : Z }.

Record FixedAdmission := mkAdmission {
  ad_KeyedRetry : option FixedKeyedRetry;
  ad_FreshOnly : bool;
  ad_RepeatSameIdentity : bool;
  ad_PendingKey : string;
  ad_PendingValue : string;
  ad_SubmittedValue : string }.

Record FixedResourceBinding := mkBinding {
  b_ImageEvidence : option ImageEvidence_t;
  b_SSH : option SSHTarget;
  b_AttemptJSONKey : string;
  b_OnlyUnbound : bool;
  b_FingerprintLabel : string;
  b_CloudID : string;
  b_ImmutableID : string;
  b_NumericID : Z;
  b_AttemptIdentityKey : string;
  b_AttemptValues : gomap;
  b_Labels : gomap;
  b_ProviderScope : string }.

Record FixedDirectLabels := mkDirectLabels {
  dl_Config : Config; dl_Provider : string; dl_Market : string; dl_Keep : bool;
  dl_Now : option Z  (** [None] is the zero time *) }.

(** [FixedAttemptPlan]; [pl_Payload] is the marshalled payload, [None] when
    marshalling fails. *)
Record FixedAttemptPlan := mkPlan {
  pl_OwnerLabel : string; pl_PrivateLabels : gomap; pl_UniqueLabel : string;
  pl_UniqueProviders : list string; pl_AttemptLabels : gomap; pl_JSONKey : string;
  pl_Payload : option string; pl_NonceBytes : Z; pl_Values : gomap; pl_NonceKey : string;
  pl_LowerNonce : bool; pl_NoncePrefix : string; pl_Labels : gomap;
  pl_DirectLabels : option FixedDirectLabels; pl_FingerprintLabel : string;
  pl_NonceLabel : string; pl_Identity : FixedResourceBinding }.

(** [encoding/json] as the attempts use it: objects of raw values and strings. *)
Record Json := mkJson {
  js_object : string → option gomap;   (** the text [null] decodes to the nil map *)
  js_object_text : gomap → string;
  js_string : string → option string;
  js_string_text : string → string }.

(** ** State

    [t_claim] is the claim the transaction points to.  [t_detached] is the
    intent the caller of the engine still points to after the claim has been
    replaced as a whole (by a terminal claim); [None] while it is the claim's
    own intent.  [t_log] records, for the theorems only, each call of an
    adapter callback with the claim and the claim file at that moment.
    [t_started] and [t_terminal] are the variables a release policy points to
    ([Started] and [Outcome.Terminal]).  [t_readonly] is set for an inspection,
    whose [persist] refuses. *)
Inductive callback := CObserve | CPlan | CSubmit | CPrepareAccess | CDeleteExact | CAfterTerminal.

#[export] Instance callback_eq_dec : EqDecision callback.
Proof. solve_decision. Defined.

Record event := mkEvent { ev_callback : callback; ev_claim : LeaseClaim; ev_file : option claim_file }.

Section tx.
Context {W : Type}.

Record Tx := mkTx {
  t_claim : LeaseClaim;
  t_detached : option FixedCreateIntent_t;
  t_sys : Sys W;
  t_log : list event;
  t_failedSet : option (gset string);
  t_createLabels : gomap;
  t_fresh : bool;
  t_initialUnallocated : bool;
  t_initial : FixedCreateIntent_t;
  t_cloudID : string;
  t_immutableID : string;
  t_leaseID : string;
  t_provider : string;
  t_attempt : gomap;
  t_failures : list string;
  t_admission : option FixedAdmission;
  t_started : bool;
  t_terminal : bool;
  t_readonly : bool }.

Definition tx_eta (x : Tx) : Tx := mkTx (t_claim x) (t_detached x) (t_sys x) (t_log x) (t_failedSet x) (t_createLabels x) (t_fresh x) (t_initialUnallocated x) (t_initial x) (t_cloudID x) (t_immutableID x) (t_leaseID x) (t_provider x) (t_attempt x) (t_failures x) (t_admission x) (t_started x) (t_terminal x) (t_readonly x).
#[export] Instance set_t_claim : Setter t_claim := ltac:(field_setter tx_eta t_claim).
#[export] Instance set_t_detached : Setter t_detached := ltac:(field_setter tx_eta t_detached).
#[export] Instance set_t_sys : Setter t_sys := ltac:(field_setter tx_eta t_sys).
#[export] Instance set_t_log : Setter t_log := ltac:(field_setter tx_eta t_log).
#[export] Instance set_t_failedSet : Setter t_failedSet := ltac:(field_setter tx_eta t_failedSet).
#[export] Instance set_t_createLabels : Setter t_createLabels := ltac:(field_setter tx_eta t_createLabels).
#[export] Instance set_t_fresh : Setter t_fresh := ltac:(field_setter tx_eta t_fresh).
#[export] Instance set_t_initialUnallocated : Setter t_initialUnallocated := ltac:(field_setter tx_eta t_initialUnallocated).
#[export] Instance set_t_initial : Setter t_initial := ltac:(field_setter tx_eta t_initial).
#[export] Instance set_t_cloudID : Setter t_cloudID := ltac:(field_setter tx_eta t_cloudID).
#[export] Instance set_t_immutableID : Setter t_immutableID := ltac:(field_setter tx_eta t_immutableID).
#[export] Instance set_t_leaseID : Setter t_leaseID := ltac:(field_setter tx_eta t_leaseID).
#[export] Instance set_t_provider : Setter t_provider := ltac:(field_setter tx_eta t_provider).
#[export] Instance set_t_attempt : Setter t_attempt := ltac:(field_setter tx_eta t_attempt).
#[export] Instance set_t_failures : Setter t_failures := ltac:(field_setter tx_eta t_failures).
#[export] Instance set_t_admission : Setter t_admission := ltac:(field_setter tx_eta t_admission).
#[export] Instance set_t_started : Setter t_started := ltac:(field_setter tx_eta t_started).
#[export] Instance set_t_terminal : Setter t_terminal := ltac:(field_setter tx_eta t_terminal).
#[export] Instance set_t_readonly : Setter t_readonly := ltac:(field_setter tx_eta t_readonly).
End tx.
Arguments Tx W : clear implicits.

Definition FixedUncertainCustody : error :=
  Exit 4 "lease_id_conflict: lease %s has an unresolved or unattested creation attempt; no replacement allocated; claim, attempt and key retained; inspect the original provider resource before retrying".

(** ** Operations *)
Section operations.
Context {W : Type} (env : Env) (json : Json).
(** [RemoveStoredTestboxConnectionArtifacts] *)
Context (remove_artifacts : string → M W ()).
(** The claims of the store, as [ListLeaseClaims] returns them. *)
Context (other_claims : Sys W → res (list LeaseClaim)).
(** The result of [FixedRejectionSettled] for errors that implement it. *)
Context (rejection_settled : error → option (option error)).

Local Abbreviation TM := (M (Tx W)).

Definition sys {A} (m : M (Sys W) A) : TM A := λ t,
  let '(r, s) := m (t_sys t) in (r, t <| t_sys := s |>).
Definition claim : TM LeaseClaim := gets t_claim.
Definition set_claim (f : LeaseClaim → LeaseClaim) : TM () := modify (λ t, t <| t_claim := f (t_claim t) |>).

(** [tx.Claim.FixedCreateIntent], which a transaction never makes nil. *)
Definition intent : TM FixedCreateIntent_t :=
  c ← claim;
  match FixedCreateIntent c with Some i => mret i | None => fail (Panic "nil intent") end.
Definition set_intent (f : FixedCreateIntent_t → FixedCreateIntent_t) : TM () :=
  set_claim (λ c, c <| FixedCreateIntent := f <$> FixedCreateIntent c |>).

Definition now : TM Z := sys (interact (env_clock env)).

(** The [persist] of [WithDurableLeaseClaimLockContext], and that of
    [InspectFixedResource], which refuses. *)
Definition persist (leaseID : string) : TM () :=
  t ← gets id;
  ensure (negb (t_readonly t)) (Exit 4 "fixed lease inspection cannot mutate state");;
  set_claim (λ c, if LeaseID c =s "" then c <| LeaseID := leaseID |> else c);;
  c ← claim;
  ensure (LeaseID c =s leaseID) (Msg "invalid lease claim ID");;
  c ← sys (refreshLeaseClaimRevision env c);
  let c := match CheckpointCapture c with
           | Some cc => if cc_BoundRevision cc =s ""
                        then c <| CheckpointCapture := Some (mkCapture (cc_ID cc) (cc_Revision cc) (Revision c)) |>
                        else c
           | None => c
           end in
  set_claim (λ _, c);;
  sys (writeLeaseClaim env true leaseID c).

(** [validateFixedJournal] on the claim *)
Definition validate_journal : TM () := c ← claim; lift (validateFixedJournal (FixedCreateIntent c)).

(** The transaction still works on the intent it started from. *)
Definition same_intent (t : Tx W) (c : LeaseClaim) (i : FixedCreateIntent_t) : bool :=
  let i0 := t_initial t in
  (LeaseID c =s t_leaseID t) && (Provider c =s t_provider t) && (ClaimData.Slug c =s i_Slug i0) &&
  (i_Version i =? i_Version i0) && (i_Fingerprint i =s i_Fingerprint i0) &&
  (i_ProviderScope i =s i_ProviderScope i0) && (i_CheckpointID i =s i_CheckpointID i0) &&
  (i_Slug i =s i_Slug i0) && (i_CreatedAt i =s i_CreatedAt i0) &&
  bool_decide (i_Retention i = i_Retention i0).

(** The journal [Record] writes. *)
Definition next_journal (t : Tx W) (i : FixedCreateIntent_t) (phase : string) : FixedLeaseJournal :=
  match i_Journal i with
  | Some j =>
      let revision :=
        if (j_Phase j <>s phase) || negb (mequal (i_Attempt i) (t_attempt t)) ||
           negb (bool_decide (i_FailedAttempts i = t_failures t))
        then add_u64 (j_Revision j) 1 else j_Revision j in
      mkJournal (j_Retention j) (j_Version j) phase revision (j_Submission j)
  | None => mkJournal None 1 phase 1 None
  end.

Definition RecordPhase (phase : string) : TM () :=
  t ← gets id;
  let c := t_claim t in
  match FixedCreateIntent c with
  | None => fail (Exit 4 "lease_id_conflict: fixed intent changed during transaction")
  | Some i =>
      ensure (same_intent t c i) (Exit 4 "lease_id_conflict: fixed intent changed during transaction");;
      validate_journal;;
      ensure (negb ((phase =s "submitting") && ((i_State i <>s "prepared") || (mlen (i_Attempt i) =? 0))))
        (Exit 4 "lease_id_conflict: submission has no prepared native attempt");;
      ensure (negb (((t_cloudID t <>s "") && (CloudID c <>s t_cloudID t)) ||
                    ((t_immutableID t <>s "") && (CloudImmutableID c <>s t_immutableID t))))
        (Exit 4 "lease_id_conflict: bound fixed resource identity changed during transaction");;
      let phase := if (i_State i =s "acquired") && (phase =s "bound") then "acquired" else phase in
      set_intent (λ i, i <| i_Journal := Some (next_journal t i phase) |>);;
      validate_journal;;
      persist (t_leaseID t);;
      modify (λ t, t <| t_cloudID := CloudID (t_claim t) |> <| t_immutableID := CloudImmutableID (t_claim t) |>
                     <| t_attempt := i_Attempt i |> <| t_failures := i_FailedAttempts i |>)
  end.

(** [FixedAdmission.permits]; [time] is the clock reading it may take. *)
Definition permits (p : FixedAdmission) (t : Tx W) (i : FixedCreateIntent_t) (time : Z) : bool :=
  match ad_KeyedRetry p with
  | Some retry =>
      if negb (ad_FreshOnly p) || ad_RepeatSameIdentity p || (kr_AttemptKey retry =s "") || (kr_Window retry <=? 0)
      then false
      else if t_fresh t && (mlen (i_Attempt i) =? 0) then true
      else match i_Journal i ≫= j_Submission with
      | None => false
      | Some sub =>
          if negb (s_Count sub =? 1) || (s_Key sub <>s mlookup (i_Attempt i) (kr_AttemptKey retry)) then false
          else match ParseRFC3339 (s_FirstSubmittedAt sub) with
          | None => false
          | Some first => negb (time <? first) && (time <? first + kr_Window retry)
          end
      end
  | None =>
      if ad_RepeatSameIdentity p then true
      else if ad_FreshOnly p then t_fresh t && (mlen (i_Attempt i) =? 0)
      else (mlen (i_Attempt i) =? 0) ||
           ((ad_PendingKey p <>s "") && (mlookup (i_Attempt i) (ad_PendingKey p) =s ad_PendingValue p))
  end.

(** Binding evidence contradicts what is already recorded. *)
Definition identity_changed (c : LeaseClaim) (b : FixedResourceBinding) : bool :=
  ((b_CloudID b <>s "") && (CloudID c <>s "") && (CloudID c <>s b_CloudID b)) ||
  ((b_ImmutableID b <>s "") && (CloudImmutableID c <>s "") && (CloudImmutableID c <>s b_ImmutableID b)) ||
  (negb (b_NumericID b =? 0) && negb (CloudNumericID c =? 0) && negb (CloudNumericID c =? b_NumericID b)).

Definition bound_claim (c : LeaseClaim) (b : FixedResourceBinding) : LeaseClaim :=
  let cloudID := if b_CloudID b <>s "" then b_CloudID b else CloudID c in
  let numericID := if negb (b_NumericID b =? 0) then b_NumericID b else CloudNumericID c in
  let immutableID := if b_ImmutableID b <>s "" then b_ImmutableID b else CloudImmutableID c in
  let c := SetLeaseClaimResourceIdentity c cloudID numericID immutableID (b_ImageEvidence b) in
  match b_SSH b with
  | Some ssh =>
      let c := c <| SSHHost := ssh_Host ssh |> in
      match Atoi (TrimSpace (ssh_Port ssh)) with
      | Some port => if port >? 0 then c <| SSHPort := port |> else c
      | None => c
      end
  | None => c
  end.

(** The attempt values a binding adds, or its error. *)
Definition binding_values (b : FixedResourceBinding) : res gomap :=
  if b_AttemptIdentityKey b <>s "" then
    if b_CloudID b =s "" then
      Err (Exit 4 "lease_id_conflict: fixed lease %s returned no resource identity; claim retained")
    else Ok (mset (b_AttemptValues b) (b_AttemptIdentityKey b) (b_CloudID b))
  else Ok (b_AttemptValues b).

(** The JSON payload of the attempt, when the binding names one. *)
Definition attempt_payload (i : FixedCreateIntent_t) (b : FixedResourceBinding) : res gomap :=
  if b_AttemptJSONKey b <>s "" then
    match js_object json (mlookup (i_Attempt i) (b_AttemptJSONKey b)) with
    | Some fields => Ok fields
    | None => Err (Exit 4 "lease_id_conflict: invalid fixed attempt payload")
    end
  else Ok None.

Definition recorded_values (i : FixedCreateIntent_t) (b : FixedResourceBinding) (payload : gomap) : gomap :=
  if b_AttemptJSONKey b <>s "" then Some (omap (js_string json) (mentries payload)) else i_Attempt i.

(** Values for a payload that decoded to the nil map cannot be assigned. *)
Definition nil_payload (b : FixedResourceBinding) (payload values : gomap) : bool :=
  negb (mlen values =? 0) && (b_AttemptJSONKey b <>s "") && bool_decide (payload = None).

Definition values_conflict (attempt values : gomap) : bool :=
  existsb (λ kv : string * string,
    let old := mlookup attempt kv.1 in (old <>s "") && (old <>s kv.2)) (map_to_list (mentries values)).

Definition add_values (i : FixedCreateIntent_t) (b : FixedResourceBinding) (payload : gomap)
    (values : gomap) : FixedCreateIntent_t :=
  if mlen values =? 0 then i
  else if b_AttemptJSONKey b <>s "" then
    i <| i_Attempt := mset (i_Attempt i) (b_AttemptJSONKey b)
           (js_object_text json (mcopy payload (Some (js_string_text json <$> mentries values)))) |>
  else i <| i_Attempt := mcopy (i_Attempt i) values |>.

Definition applyBinding (b : FixedResourceBinding) : TM () :=
  c ← claim;
  i ← intent;
  if b_OnlyUnbound b && (CloudID c <>s "") then mret ()
  else
    ensure (negb (identity_changed c b)) (Exit 4 "lease_id_conflict: fixed lease %s resource identity changed");;
    values ← lift (binding_values b);
    payload ← lift (attempt_payload i b);
    ensure (negb (values_conflict (recorded_values i b payload) values))
      (Exit 4 "lease_id_conflict: fixed lease %s attempt %s changed");;
    set_claim (λ c, bound_claim c b);;
    ensure (negb (nil_payload b payload values)) (Panic "assignment to nil map");;
    set_intent (λ i, add_values i b payload values);;
    (match b_Labels b with
     | Some labels => set_claim (λ c, c <| ClaimData.Labels := Some labels |>)
     | None => mret ()
     end);;
    (if b_FingerprintLabel b <>s ""
     then set_claim (λ c, c <| ClaimData.Labels := mset (ClaimData.Labels c) (b_FingerprintLabel b) (i_Fingerprint i) |>)
     else mret ());;
    if b_ProviderScope b <>s "" then set_claim (λ c, c <| ProviderScope := b_ProviderScope b |>) else mret ().

Definition Bind (b : FixedResourceBinding) : TM () :=
  c ← claim;
  if b_OnlyUnbound b && (CloudID c <>s "") then mret ()
  else applyBinding b;; RecordPhase "bound".

Definition Observe (b : FixedResourceBinding) : TM () := applyBinding b;; RecordPhase "observed".

Definition PersistDeletionEvidence : TM () := RecordPhase "deleting".

(** The keyed submission an admission records, or its refusal. *)
Definition admit_submission (retry : FixedKeyedRetry) (p : FixedAdmission) (t : Tx W) (i : FixedCreateIntent_t)
    (time : Z) : res FixedKeyedSubmission :=
  let key := mlookup (i_Attempt i) (kr_AttemptKey retry) in
  if key =s "" then Err FixedUncertainCustody
  else match i_Journal i with
  | None => Err (Panic "nil journal")
  | Some j =>
      match j_Submission j with
      | None => if negb (t_fresh t) then Err FixedUncertainCustody
                else Ok (mkSubmission key (FormatRFC3339Nano time) 1)
      | Some sub => if negb (permits p t i time) then Err FixedUncertainCustody
                    else Ok (mkSubmission (s_Key sub) (s_FirstSubmittedAt sub) (s_Count sub + 1))
      end
  end.

Definition Admit : TM () :=
  t ← gets id;
  i ← intent;
  (match t_admission t ≫= ad_KeyedRetry, t_admission t with
   | Some retry, Some p =>
       time ← now;
       sub ← lift (admit_submission retry p t i time);
       set_intent (λ i, i <| i_Journal := (λ j, j <| j_Submission := Some sub |>) <$> i_Journal i |>)
   | _, _ => mret ()
   end);;
  (match t_admission t with
   | Some p =>
       if ad_PendingKey p <>s ""
       then (i ← intent; ensure (bool_decide (is_Some (i_Attempt i))) (Panic "assignment to nil map"));;
            set_intent (λ i, i <| i_Attempt := mset (i_Attempt i) (ad_PendingKey p) (ad_SubmittedValue p) |>)
       else mret ()
   | None => mret ()
   end);;
  RecordPhase "submitting".

(** [FailedAttemptSet] *)
Definition FailedAttemptSet : TM (gset string) :=
  t ← gets id;
  match t_failedSet t with
  | Some set => mret set
  | None => i ← intent; let set : gset string := list_to_set (i_FailedAttempts i) in
            modify (λ t, t <| t_failedSet := Some set |>);; mret set
  end.

(** [*tx.Claim = kind.TerminalClaim(...)]: the claim gets a new intent, and the
    caller keeps the old one. *)
Definition become_terminal (kind : FixedLeaseKind) (time : Z) : TM () :=
  c ← claim;
  terminal ← lift (TerminalClaim kind c time);
  modify (λ t, t <| t_detached := match t_detached t with Some i => Some i | None => FixedCreateIntent c end |>
                 <| t_claim := terminal |>).

Definition RejectAttempt (kind : FixedLeaseKind) (token : string) (terminal : bool) : TM () :=
  t ← gets id;
  i ← intent;
  let c := t_claim t in
  ensure (negb (negb (IsFixedClaim kind c) || negb (i_Version i =? k_IntentVersion kind) ||
                (i_State i <>s "prepared") || (token =s "") || (CloudID c <>s "") ||
                negb (CloudNumericID c =? 0) || (CloudImmutableID c <>s "")))
    (Exit 4 "lease_id_conflict: cannot reject a bound or unidentified fixed attempt");;
  if terminal then
    time ← now;
    become_terminal kind time;;
    persist (t_leaseID t);;
    if k_RemoveKeyAfterRejection kind
    then attempt (sys (outside (remove_artifacts (LeaseID c))));; mret () else mret ()
  else
    failed ← FailedAttemptSet;
    set_intent (λ i, if bool_decide (token ∈ failed) then i
                     else i <| i_FailedAttempts := (i_FailedAttempts i ++ [token])%list |>);;
    set_intent (λ i, i <| i_Attempt := None |>);;
    RecordPhase "prepared";;
    modify (λ t, t <| t_failedSet := (λ s : gset string, {[token]} ∪ s) <$> t_failedSet t |>).

(** ** Rejected creations *)

(** [errors.As(err, &rejected)]: the wrapped error of the first
    [*FixedCreateRejected] in the tree. *)
Fixpoint find_rejected (e : error) : option error :=
  match e with
  | Rejected cause => Some cause
  | Wrap _ cause => find_rejected cause
  | Join a b => match find_rejected a with Some r => Some r | None => find_rejected b end
  | _ => None
  end.

Definition CanSettleCreateRejection (kind : FixedLeaseKind) (t : Tx W) : bool :=
  match FixedCreateIntent (t_claim t) with
  | None => false
  | Some i =>
      IsFixedClaim kind (t_claim t) && t_initialUnallocated t && (i_State i =s "prepared") &&
      (CloudImmutableID (t_claim t) =s "") &&
      match i_Journal i with
      | Some j => j_Phase j ∈s ["prepared"; "submitting"]
      | None => false
      end
  end.

(** Removing the claim file; an absent file is an error here. *)
Definition remove_intent (leaseID : string) : M (Sys W) () :=
  s ← gets id;
  ensure (validLeaseClaimPathID leaseID && bool_decide (is_Some (sys_disk s !! leaseID))) (Msg "remove claim");;
  remove_claim_file env leaseID.

(** [settleCreateRejection]: the error to return, if any. *)
Definition settleCreateRejection (kind : FixedLeaseKind) (cause : error) : TM (option error) :=
  match find_rejected cause with
  | None => mret (Some cause)
  | Some inner =>
      t ← gets id;
      if negb (CanSettleCreateRejection kind t) then
        mret (Some (Join cause (Exit 4 "lease_id_conflict: rejection cannot settle an earlier or bound fixed attempt; claim retained")))
      else
        removed ← attempt (sys (remove_intent (t_leaseID t)));
        match removed with
        | Err e => mret (Some (Join cause (Wrap "remove rejected fixed intent: %w" e)))
        | Ok _ =>
            if k_RemoveKeyAfterRejection kind then
              cleaned ← attempt (sys (outside (remove_artifacts (t_leaseID t))));
              mret (Some (match cleaned with Ok _ => cause | Err e => Join cause e end))
            else match rejection_settled inner with
            | Some outcome => mret outcome
            | None => mret (Some cause)
            end
        end
  end.

(** [settleCreateRejection] returned as the error of the caller *)
Definition settle {A} (kind : FixedLeaseKind) (zero : A) (cause : error) : TM A :=
  outcome ← settleCreateRejection kind cause;
  match outcome with Some e => fail e | None => mret zero end.

(** ** Plans *)

(** [rand.Text()]: 26 letters of the base32 alphabet *)
Definition base32_alphabet : list Z := to_bytes "ABCDEFGHIJKLMNOPQRSTUVWXYZ234567".
Definition rand_text (bytes : list Z) : string :=
  of_bytes ((λ b, default 65 (base32_alphabet !! Z.to_nat (b mod 32))) <$> take 26 bytes).

(** [ValidateFixedLocalClaimUniqueness] *)
Definition ValidateFixedLocalClaimUniqueness (kind : FixedLeaseKind) (c : LeaseClaim) (providers : list string)
    (claims : list LeaseClaim) : res () :=
  let conflicting other :=
    negb ((LeaseID other =s LeaseID c) || (CloudID other <>s CloudID c) || negb (Provider other ∈s providers)) &&
    negb ((ProviderScope other <>s "") && (ProviderScope other <>s ProviderScope c)) &&
    negb (IsFixedClaim kind other && is_receipt other) in
  reject_if (existsb conflicting claims)
    (Exit 4 "lease_id_conflict: multiple local %s claims bind resource %s").

(** The nonce of a plan: [rand.Text] or hexadecimal random bytes. *)
Definition plan_nonce (plan : FixedAttemptPlan) : TM string :=
  bytes ← sys (interact (env_random env));
  match bytes with
  | None => fail (Msg "random source")
  | Some bs =>
      let nonce := if pl_NonceBytes plan >? 0 then hex_of_bytes (take (Z.to_nat (pl_NonceBytes plan)) bs)
                   else rand_text bs in
      mret (if pl_LowerNonce plan then ToLower nonce else nonce)
  end.

(** The attempt as it is stored: the values, or one JSON text that holds the
    payload's fields and the values. *)
Definition stored_attempt (plan : FixedAttemptPlan) (values : gmap string string) : res gomap :=
  if pl_JSONKey plan <>s "" then
    match pl_Payload plan with
    | None => Err (Msg "marshal payload")
    | Some text =>
        match js_object json text with
        | None => Err (Msg "unmarshal payload")
        | Some fields =>
            reject_if (bool_decide (fields = None) && negb (bool_decide (values = ∅))) (Panic "assignment to nil map");;
            Ok (Some {[pl_JSONKey plan := js_object_text json
                         (if bool_decide (values = ∅) then fields
                          else mcopy fields (Some (js_string_text json <$> values)))]})
        end
    end
  else Ok (Some values).

(** The labels a plan records: those sent to the provider and the private ones. *)
Definition plan_labels (plan : FixedAttemptPlan) (c : LeaseClaim) (i : FixedCreateIntent_t)
    (values : gmap string string) : gomap :=
  let labels : gomap :=
    match pl_DirectLabels plan with
    | Some d =>
        let time := match dl_Now d with
                    | Some t => t
                    | None => default (-62135596800 * Second) (ParseRFC3339 (i_CreatedAt i))
                    end in
        mcopy (Some (DirectLeaseLabels (dl_Config d) (LeaseID c) (ClaimData.Slug c) (dl_Provider d)
                       (dl_Market d) (dl_Keep d) time)) (pl_Labels plan)
    | None => Some (mentries (pl_Labels plan))
    end in
  let labels := if pl_OwnerLabel plan <>s "" then mset labels (pl_OwnerLabel plan) (Provider c) else labels in
  let labels := if pl_FingerprintLabel plan <>s ""
                then mset labels (pl_FingerprintLabel plan) (i_Fingerprint i) else labels in
  let labels := if pl_NonceLabel plan <>s ""
                then mset labels (pl_NonceLabel plan) (mlookup (Some values) (pl_NonceKey plan)) else labels in
  mcopy labels (Some ((λ key, mlookup (Some values) key) <$> mentries (pl_AttemptLabels plan))).

(** [FixedTransaction.plan] *)
Definition plan_attempt (plan : FixedAttemptPlan) : TM () :=
  i ← intent;
  if negb (mlen (i_Attempt i) =? 0) then mret ()
  else
    values ← (if pl_NonceKey plan <>s ""
              then nonce ← plan_nonce plan;
                   mret (<[pl_NonceKey plan := pl_NoncePrefix plan +:+ nonce]> (mentries (pl_Values plan)))
              else mret (mentries (pl_Values plan)));
    stored ← lift (stored_attempt plan values);
    set_intent (λ i, i <| i_Attempt := stored |>);;
    c ← claim;
    let labels := plan_labels plan c i values in
    modify (λ t, t <| t_createLabels := labels |>);;
    let labels := mcopy labels (pl_PrivateLabels plan) in
    (if negb (mlen labels =? 0) then set_claim (λ c, c <| ClaimData.Labels := labels |>) else mret ());;
    applyBinding (pl_Identity plan);;
    if negb (bool_decide (pl_UniqueProviders plan = [])) then
      t ← gets id;
      claims ← lift (other_claims (t_sys t));
      c ← claim;
      lift (ValidateFixedLocalClaimUniqueness
              (mkKind false (Provider c) 0 (pl_UniqueLabel plan) "" "" false []) c (pl_UniqueProviders plan) claims)
    else mret ().

(** [newFixedTransaction] on the claim of a lock session *)
Definition newFixedTransaction (fresh : bool) (admission : option FixedAdmission) : TM () :=
  validate_journal;;
  c ← claim;
  i ← intent;
  modify (λ t,
    t <| t_fresh := fresh |>
      <| t_initial := default i (FixedCreateIntent (cloneLeaseClaim c)) |>
      <| t_initialUnallocated := (i_State i =s "prepared") && (mlen (i_Attempt i) =? 0) && (CloudID c =s "") &&
                                 (CloudNumericID c =? 0) && (CloudImmutableID c =s "") |>
      <| t_cloudID := CloudID c |> <| t_immutableID := CloudImmutableID c |>
      <| t_leaseID := LeaseID c |> <| t_provider := Provider c |>
      <| t_attempt := i_Attempt i |> <| t_failures := i_FailedAttempts i |>
      <| t_failedSet := None |> <| t_createLabels := None |> <| t_admission := admission |>).

(** [RecordFixedWitness], in a session whose [persist] is given. *)
Definition RecordFixedWitness (key value : string) (persist : TM ()) : TM () :=
  c ← claim;
  match FixedCreateIntent c with
  | Some i =>
      ensure (bool_decide (is_Some (i_Attempt i)) && (key <>s "") && (value <>s ""))
        (Exit 4 "lease_id_conflict: incomplete fixed attempt witness");;
      let old := mlookup (i_Attempt i) key in
      ensure (negb ((old <>s "") && (old <>s value))) (Exit 4 "lease_id_conflict: fixed attempt witness %s changed");;
      set_intent (λ i, i <| i_Attempt := mset (i_Attempt i) key value |>);;
      persist
  | None => fail (Exit 4 "lease_id_conflict: incomplete fixed attempt witness")
  end.

(** What adapters write on [tx.Claim] themselves: a label, which panics on a nil
    map, and the scope of the claim. *)
Definition write_label (key value : string) : TM () :=
  c ← claim;
  ensure (bool_decide (is_Some (ClaimData.Labels c))) (Panic "assignment to nil map");;
  set_claim (λ c, c <| ClaimData.Labels := mset (ClaimData.Labels c) key value |>).
Definition write_scope (scope : string) : TM () := set_claim (λ c, c <| ProviderScope := scope |>).

(** ** Adapters

    A provider adapter is a program: it acts on the outside world, looks at
    the claim, calls the exported operations of the transaction and makes the
    writes on its claim that the adapters make (a witness of the attempt, a
    label, the scope), in any order and depending on anything it has seen. *)
Inductive tx_call :=
  | CallBind (b : FixedResourceBinding)
  | CallObserve (b : FixedResourceBinding)
  | CallAdmit
  | CallRejectAttempt (token : string) (terminal : bool)
  | CallPersistDeletionEvidence
  | CallRecord (phase : string)
  | CallFailedAttemptSet
  | CallRecordWitness (key value : string)
  | CallWriteLabel (key value : string)
  | CallWriteScope (scope : string).

Inductive prog (A : Type) :=
  | Return (r : res A)
  | Native (effect : W → W) (k : W → prog A)
  | View (k : LeaseClaim → gomap → prog A)
  | Call (op : tx_call) (k : res () → prog A).

Definition run_call (kind : FixedLeaseKind) (op : tx_call) : TM () :=
  match op with
  | CallBind b => Bind b
  | CallObserve b => Observe b
  | CallAdmit => Admit
  | CallRejectAttempt token terminal => RejectAttempt kind token terminal
  | CallPersistDeletionEvidence => PersistDeletionEvidence
  | CallRecord phase => RecordPhase phase
  | CallFailedAttemptSet => FailedAttemptSet;; mret ()
  | CallRecordWitness key value => RecordFixedWitness key value PersistDeletionEvidence
  | CallWriteLabel key value => write_label key value
  | CallWriteScope scope => write_scope scope
  end.

Fixpoint run_prog {A} (kind : FixedLeaseKind) (p : prog A) : TM A :=
  match p with
  | Return _ r => lift r
  | Native _ effect k =>
      sys (outside (modify effect));;
      t ← gets id; run_prog kind (k (sys_world (t_sys t)))
  | View _ k => t ← gets id; run_prog kind (k (t_claim t) (t_createLabels t))
  | Call _ op k => r ← attempt (run_call kind op); run_prog kind (k r)
  end.

(** A callback of the adapter, logged with the claim and its file. *)
Definition callback_run {A} (kind : FixedLeaseKind) (cb : callback) (leaseID : string) (p : prog A) : TM A :=
  modify (λ t, t <| t_log := (t_log t ++ [mkEvent cb (t_claim t) (sys_disk (t_sys t) !! leaseID)])%list |>);;
  run_prog kind p.
End operations.

(** ** What no adapter can change *)

(** The create intent keeps its identity, and a released one stays released. *)
Definition same_core (i i' : FixedCreateIntent_t) : Prop :=
  i_Version i' = i_Version i ∧ i_Fingerprint i' = i_Fingerprint i ∧
  i_ProviderScope i' = i_ProviderScope i ∧ i_CheckpointID i' = i_CheckpointID i ∧
  i_Slug i' = i_Slug i ∧ i_CreatedAt i' = i_CreatedAt i ∧ i_Retention i' = i_Retention i ∧
  (i_State i = "released" → i_State i' = "released").

(** The resource identity grows monotonically. *)
Definition evolves (c c' : LeaseClaim) : Prop :=
  (LeaseID c ≠ "" → LeaseID c' = LeaseID c) ∧
  (CloudID c ≠ "" → CloudID c' = CloudID c) ∧
  (CloudImmutableID c ≠ "" → CloudImmutableID c' = CloudImmutableID c) ∧
  (CloudNumericID c ≠ 0 → CloudNumericID c' = CloudNumericID c) ∧
  (∀ i, FixedCreateIntent c = Some i →
     Provider c' = Provider c ∧ ∃ i', FixedCreateIntent c' = Some i' ∧ same_core i i').

#[export] Instance same_core_preorder : PreOrder same_core.
Proof.
  split; [by intros i|]. unfold same_core. intros x y z H1 H2. decompose [and] H1. decompose [and] H2.
  split_and!; try congruence. auto.
Qed.

#[export] Instance evolves_preorder : PreOrder evolves.
Proof.
  split.
  - intros c. split_and!; try done. intros i Hi. split; [done|]. by exists i.
  - intros x y z (L1 & C1 & I1 & N1 & F1) (L2 & C2 & I2 & N2 & F2). split_and!.
    + intros H. rewrite <-(L1 H) in H |- *. auto.
    + intros H. rewrite <-(C1 H) in H |- *. auto.
    + intros H. rewrite <-(I1 H) in H |- *. auto.
    + intros H. rewrite <-(N1 H) in H |- *. auto.
    + intros i Hi. destruct (F1 i Hi) as (P1 & i1 & E1 & S1).
      destruct (F2 i1 E1) as (P2 & i2 & E2 & S2). split; [congruence|]. exists i2. split; [done|by etrans].
Qed.

(** Updates that leave these fields alone. *)
Definition identity_fields (c : LeaseClaim) :=
  (LeaseID c, CloudID c, CloudImmutableID c, CloudNumericID c, Provider c, FixedCreateIntent c).

Lemma evolves_fields c c' : identity_fields c' = identity_fields c → evolves c c'.
Proof.
  unfold identity_fields. intros [= E1 E2 E3 E4 E5 E6]. split_and!; try congruence.
  intros i Hi. split; [done|]. exists i. split; [congruence|reflexivity].
Qed.

Lemma clone_evolves c : evolves c (cloneLeaseClaim c) ∧ evolves (cloneLeaseClaim c) c.
Proof.
  destruct c. unfold cloneLeaseClaim. cbn. destruct FixedCreateIntent as [i|]; cbn.
  - split; (split_and!; try done; intros i0 [= <-]; (split; [done|]); eexists; (split; [done|]); by split_and!).
  - split; by apply evolves_fields.
Qed.

Lemma set_intent_evolves c f :
  (∀ i, same_core i (f i)) → evolves c (c <| FixedCreateIntent := f <$> FixedCreateIntent c |>).
Proof.
  intros Hf. split_and!; try done. intros i Hi. cbn. rewrite Hi. split; [done|]. exists (f i). by split.
Qed.

Lemma stored_inj c c' : Some (Stored c) = Some (Stored c') → c = c'.
Proof. by intros [= ->]. Qed.

Section retention.
Context {W : Type} (env : Env) (json : Json).
Context (remove_artifacts : string → M W ()).
Context (lid : string).

Definition file_of (t : Tx W) : option claim_file := sys_disk (t_sys t) !! lid.

Definition anchored (t : Tx W) : Prop := ∀ c, file_of t = Some (Stored c) → evolves c (t_claim t).

(** From a session anchored at its file: it stays anchored, its claim and the
    file's claim only evolve, and the file is never removed. *)
Definition retained (t t' : Tx W) : Prop :=
  anchored t →
  anchored t' ∧ evolves (t_claim t) (t_claim t') ∧
  (∀ c, file_of t = Some (Stored c) → ∃ c', file_of t' = Some (Stored c') ∧ evolves c c').

#[export] Instance retained_preorder : PreOrder retained.
Proof.
  split.
  - intros t Ha. split_and!; [done|reflexivity|]. intros c Hc. by exists c.
  - intros x y z H1 H2 Ha. destruct (H1 Ha) as (A1 & E1 & F1). destruct (H2 A1) as (A2 & E2 & F2).
    split_and!; [done|by etrans|]. intros c Hc. destruct (F1 c Hc) as (c1 & Hc1 & Ev1).
    destruct (F2 c1 Hc1) as (c2 & Hc2 & Ev2). exists c2. split; [done|by etrans].
Qed.

(** Steps that only change the claim, or not even that. *)
Lemma claim_step t t' :
  file_of t' = file_of t → evolves (t_claim t) (t_claim t') → retained t t'.
Proof.
  intros Hf He Ha. split_and!; [|done|].
  - intros c Hc. rewrite Hf in Hc. etrans; [by apply Ha|done].
  - intros c Hc. exists c. split; [congruence|reflexivity].
Qed.

Lemma set_claim_retained f : (∀ c, evolves c (f c)) → keeps retained (set_claim f).
Proof. intros Hf t. apply claim_step; [done|apply Hf]. Qed.

Lemma set_intent_retained f : (∀ i, same_core i (f i)) → keeps retained (set_intent f).
Proof. intros Hf. apply set_claim_retained. intros c. by apply set_intent_evolves. Qed.

Lemma quiet_retained {A} (m : M (Sys W) A) : keeps same_disk m → keeps retained (sys m).
Proof.
  intros Hm t. unfold sys. specialize (Hm (t_sys t)). destruct (m (t_sys t)) as [r s].
  apply claim_step; [|reflexivity]. unfold file_of. cbn in *. by rewrite Hm.
Qed.

Lemma interact_retained {A} (f : nat → A) : keeps retained (sys (interact f)).
Proof. apply quiet_retained. intros s. done. Qed.
Lemma outside_retained {A} (m : M W A) : keeps retained (sys (outside m)).
Proof. apply quiet_retained, outside_keeps. Qed.

Lemma intent_retained : keeps retained intent.
Proof.
  intros t. unfold intent, mbind, M_bind, claim, gets. cbn.
  destruct (FixedCreateIntent _); cbn; reflexivity.
Qed.

(** Writing the claim in memory keeps the session anchored. *)
Lemma write_retained id c t :
  evolves (t_claim t) c →
  retained t ((set_claim (λ _, c);; sys (writeLeaseClaim env true id c)) t).2.
Proof.
  intros He Ha. unfold mbind, M_bind, set_claim, modify, sys. cbn.
  destruct (writeLeaseClaim env true id c (t_sys t)) as [r s] eqn:Ew.
  apply writeLeaseClaim_spec in Ew as [_ [Ew|[Ew _]]]; cbn; unfold anchored, file_of in *; cbn; rewrite Ew.
  - destruct (decide (id = lid)) as [->|Hne].
    + rewrite lookup_insert_eq. destruct (clone_evolves c) as [Hc1 Hc2]. split_and!; [|done|].
      * by intros ? [= <-].
      * intros c0 Hc0. eexists. split; [done|]. etrans; [apply Ha, Hc0|]. by etrans.
    + rewrite lookup_insert_ne by done. split_and!; [|done|].
      * intros c0 Hc0. etrans; [apply Ha, Hc0|done].
      * intros c0 Hc0. exists c0. split; [done|reflexivity].
  - split_and!; [|done|].
    + intros c0 Hc0. etrans; [apply Ha, Hc0|done].
    + intros c0 Hc0. exists c0. split; [done|reflexivity].
Qed.

Lemma persist_retained id : keeps retained (persist env id).
Proof.
  unfold persist. apply keeps_bind; [apply _|by apply keeps_gets, _|intros t0].
  apply keeps_bind; [apply _|by apply keeps_ensure, _|intros _].
  apply keeps_bind; [apply _| |intros _].
  { apply set_claim_retained. intros c. case_bool_decide as E; [|reflexivity].
    split_and!; try done. intros i Hi. split; [done|]. exists i. by split. }
  intros t. apply bind_at; [apply _|reflexivity|]. intros c t1 [= <- <-].
  apply bind_at; [apply _|by apply keeps_ensure, _|]. intros [] t2 E.
  assert (t2 = t) as -> by (unfold ensure in E; case_bool_decide; by injection E).
  apply bind_at; [apply _|apply quiet_retained|].
  { eapply keeps_weaken; [apply refresh_untouched|]. apply untouched_same_disk. }
  intros c t3 E3.
  assert (t_claim t3 = t_claim t ∧ identity_fields c = identity_fields (t_claim t)) as [Hc3 Hid].
  { unfold sys, refreshLeaseClaimRevision, mbind, M_bind, interact in E3. cbn in E3.
    destruct (env_random env _); [|done]. injection E3 as <- <-. done. }
  apply write_retained. rewrite Hc3. apply evolves_fields. rewrite <-Hid.
  destruct (CheckpointCapture c) as [cc|]; [|done]. destruct (cc_BoundRevision cc =s ""); reflexivity.
Qed.

Lemma validate_retained : keeps retained validate_journal.
Proof. intros t. cbn. reflexivity. Qed.

Lemma RecordPhase_retained phase : keeps retained (RecordPhase env phase).
Proof.
  unfold RecordPhase. apply keeps_bind; [apply _|by apply keeps_gets, _|intros t0].
  destruct (FixedCreateIntent (t_claim t0)) as [i|]; [|by apply keeps_fail, _].
  apply keeps_bind; [apply _|by apply keeps_ensure, _|intros _].
  apply keeps_bind; [apply _|apply validate_retained|intros _].
  do 2 (apply keeps_bind; [apply _|by apply keeps_ensure, _|intros _]).
  apply keeps_bind; [apply _|by apply set_intent_retained; intros ?; split_and!|intros _].
  apply keeps_bind; [apply _|apply validate_retained|intros _].
  apply keeps_bind; [apply _|apply persist_retained|intros _].
  intros t. by apply claim_step.
Qed.

Ltac retained_steps :=
  repeat first
    [ apply keeps_ret; apply _ | apply keeps_fail; apply _ | apply keeps_lift; apply _
    | apply keeps_gets; apply _ | apply keeps_ensure; apply _
    | apply RecordPhase_retained | apply persist_retained | apply interact_retained
    | apply outside_retained | apply intent_retained | apply validate_retained
    | (apply set_intent_retained; by intros ?; split_and!)
    | (apply keeps_bind; [apply _| |intros ?])
    | (apply keeps_attempt; [idtac])
    | case_match ].

Lemma identity_changed_false c b :
  identity_changed c b = false →
  (b_CloudID b ≠ "" → CloudID c ≠ "" → CloudID c = b_CloudID b) ∧
  (b_ImmutableID b ≠ "" → CloudImmutableID c ≠ "" → CloudImmutableID c = b_ImmutableID b) ∧
  (b_NumericID b ≠ 0 → CloudNumericID c ≠ 0 → CloudNumericID c = b_NumericID b).
Proof.
  unfold identity_changed. rewrite !orb_false_iff, !andb_false_iff, !negb_bool_decide_false, !negb_false_iff,
    !Z.eqb_eq. tauto.
Qed.

Lemma keep_if (x y : string) :
  (x ≠ "" → y ≠ "" → y = x) → y ≠ "" → (if x <>s "" then x else y) = y.
Proof. intros H Hy. case_bool_decide; cbn; [done|]. symmetry. auto. Qed.

Lemma bound_claim_evolves c b : identity_changed c b = false → evolves c (bound_claim c b).
Proof.
  intros Hid. apply identity_changed_false in Hid as (H1 & H2 & H3).
  assert (identity_fields (bound_claim c b) =
    (LeaseID c, (if b_CloudID b <>s "" then b_CloudID b else CloudID c),
     (if b_ImmutableID b <>s "" then b_ImmutableID b else CloudImmutableID c),
     (if negb (b_NumericID b =? 0) then b_NumericID b else CloudNumericID c), Provider c, FixedCreateIntent c)) as E.
  { unfold bound_claim, SetLeaseClaimResourceIdentity.
    set (same := same_resource _ _ _ _). clearbody same.
    destruct (b_ImageEvidence b), same, (b_SSH b) as [ssh|]; cbn; try reflexivity;
      repeat case_match; reflexivity. }
  injection E as E1 E2 E3 E4 E5 E6. split_and!.
  - done.
  - rewrite E2. by apply keep_if.
  - rewrite E3. by apply keep_if.
  - rewrite E4. intros Hc. destruct (Z.eqb_spec (b_NumericID b) 0); cbn; [done|]. symmetry. auto.
  - intros i Hi. split; [done|]. exists i. split; [congruence|reflexivity].
Qed.

Lemma labels_evolves c l : evolves c (c <| ClaimData.Labels := l |>).
Proof. by apply evolves_fields. Qed.
Lemma scope_evolves c v : evolves c (c <| ProviderScope := v |>).
Proof. by apply evolves_fields. Qed.

Lemma add_values_core i b payload values : same_core i (add_values json i b payload values).
Proof. unfold add_values. repeat case_match; by split_and!. Qed.

Lemma applyBinding_retained b : keeps retained (applyBinding json b).
Proof.
  intros t. unfold applyBinding. apply bind_at; [apply _|reflexivity|]. intros c t1 [= <- <-].
  apply bind_at; [apply _|apply intent_retained|]. intros i t1 Hi.
  assert (t1 = t) as ->.
  { unfold intent, mbind, M_bind, claim, gets in Hi. cbn in Hi. destruct (FixedCreateIntent _); by injection Hi. }
  destruct (b_OnlyUnbound b && _); [reflexivity|].
  destruct (identity_changed (t_claim t) b) eqn:Hid; [reflexivity|].
  apply bind_at; [apply _|reflexivity|]. intros ? ? [= _ <-].
  apply bind_at; [apply _|reflexivity|]. intros values ? [= _ <-].
  apply bind_at; [apply _|reflexivity|]. intros payload ? [= _ <-].
  apply bind_at; [apply _|apply keeps_ensure, _|]. intros ? t2 E2.
  assert (t2 = t) as -> by (unfold ensure in E2; case_match; by injection E2).
  apply bind_at; [apply _| |].
  { apply claim_step; [done|]. by apply bound_claim_evolves. }
  intros _ t3 _. revert t3. change (keeps retained (
    ensure (negb (nil_payload b payload values)) (Panic "assignment to nil map");;
    set_intent (λ i, add_values json i b payload values);;
    (match b_Labels b with
     | Some labels => set_claim (λ c, c <| ClaimData.Labels := Some labels |>)
     | None => mret ()
     end);;
    (if b_FingerprintLabel b <>s ""
     then set_claim (λ c, c <| ClaimData.Labels := mset (ClaimData.Labels c) (b_FingerprintLabel b) (i_Fingerprint i) |>)
     else mret ());;
    if b_ProviderScope b <>s "" then set_claim (λ c, c <| ProviderScope := b_ProviderScope b |>) else mret ())).
  apply keeps_bind; [apply _|by apply keeps_ensure, _|intros _].
  apply keeps_bind; [apply _|apply set_intent_retained, (λ i, add_values_core i b payload values)|intros _].
  apply keeps_bind; [apply _| |intros _].
  { destruct (b_Labels b); [apply set_claim_retained; intros; apply labels_evolves|by apply keeps_ret, _]. }
  apply keeps_bind; [apply _| |intros _].
  { destruct (_ <>s _); [apply set_claim_retained; intros; apply labels_evolves|by apply keeps_ret, _]. }
  destruct (_ <>s _); [apply set_claim_retained; intros; apply scope_evolves|by apply keeps_ret, _].
Qed.

Lemma Bind_retained b : keeps retained (Bind env json b).
Proof.
  unfold Bind. apply keeps_bind; [apply _|by apply keeps_gets, _|intros c].
  case_match; [by apply keeps_ret, _|].
  apply keeps_bind; [apply _|apply applyBinding_retained|intros _]. apply RecordPhase_retained.
Qed.

Lemma Observe_retained b : keeps retained (Observe env json b).
Proof.
  unfold Observe. apply keeps_bind; [apply _|apply applyBinding_retained|intros _]. apply RecordPhase_retained.
Qed.

Lemma Admit_retained : keeps retained (Admit env).
Proof.
  unfold Admit, now. retained_steps.
Qed.

(** The terminal claim of an unbound fixed claim evolves from it. *)
Lemma terminal_evolves kind c terminal time :
  TerminalClaim kind c time = Ok terminal → IsFixedClaim kind c = true →
  CloudID c = "" → CloudImmutableID c = "" → CloudNumericID c = 0 →
  evolves c terminal.
Proof.
  unfold TerminalClaim. destruct (FixedCreateIntent c) as [i|] eqn:Hi; [|done].
  intros Et%Ok_inj Hf H1 H2 H3. rewrite <-Et. unfold IsFixedClaim in Hf. apply andb_true_iff in Hf as [Hp _].
  apply bool_decide_eq_true_1 in Hp.
  destruct (has_identity_labels kind); split_and!; try done; try congruence;
    intros i0 E; rewrite Hi in E; injection E as <-; (split; [done|]);
    eexists; (split; [reflexivity|]); by split_and!.
Qed.

Lemma FailedAttemptSet_retained : keeps retained (FailedAttemptSet : M (Tx W) (gset string)).
Proof.
  unfold FailedAttemptSet. apply keeps_bind; [apply _|by apply keeps_gets, _|intros t0].
  destruct (t_failedSet t0); [by apply keeps_ret, _|].
  apply keeps_bind; [apply _|apply intent_retained|intros i].
  apply keeps_bind; [apply _| |intros _; by apply keeps_ret, _]. intros t. by apply claim_step.
Qed.

Lemma RejectAttempt_retained kind token terminal :
  keeps retained (RejectAttempt env remove_artifacts kind token terminal).
Proof.
  intros t. unfold RejectAttempt. apply bind_at; [apply _|reflexivity|]. intros ? ? [= <- <-].
  apply bind_at; [apply _|apply intent_retained|]. intros i t1 Hi.
  assert (t1 = t) as ->.
  { unfold intent, mbind, M_bind, claim, gets in Hi. cbn in Hi. destruct (FixedCreateIntent _); by injection Hi. }
  apply bind_at; [apply _|apply keeps_ensure, _|]. intros ? t2 E.
  unfold ensure in E. destruct (negb (_ || _)) eqn:Hg; [|done]. injection E as _ <-.
  apply negb_true_iff in Hg. rewrite !orb_false_iff, !negb_false_iff in Hg.
  destruct Hg as [[[[[[Hf _] _] _] Hc] Hn] Hm].
  apply bool_decide_eq_true_1 in Hc, Hm. apply Z.eqb_eq in Hn.
  destruct terminal.
  - apply bind_at; [apply _|apply interact_retained|]. intros time t1 Ht1.
    assert (t_claim t1 = t_claim t) as Hc1 by (unfold now, sys, interact in Ht1; by injection Ht1 as _ <-).
    apply bind_at; [apply _| |].
    + unfold become_terminal, mbind, M_bind, claim, gets, lift, modify. rewrite Hc1.
      destruct (TerminalClaim kind (t_claim t) time) as [term|] eqn:Et; [|reflexivity].
      apply claim_step; [done|]. cbn. rewrite Hc1. by eapply terminal_evolves.
    + intros _ t3 _. revert t3.
      change (keeps retained (persist env (t_leaseID t);;
        if k_RemoveKeyAfterRejection kind
        then attempt (sys (outside (remove_artifacts (LeaseID (t_claim t)))));; mret () else mret ())).
      retained_steps.
  - clear - W. revert t. change (keeps retained (λ t, (failed ← FailedAttemptSet;
      set_intent (λ i, if bool_decide (token ∈ failed) then i
                       else i <| i_FailedAttempts := (i_FailedAttempts i ++ [token])%list |>);;
      set_intent (λ i, i <| i_Attempt := None |>);;
      RecordPhase env "prepared";;
      modify (λ t, t <| t_failedSet := (λ s : gset string, {[token]} ∪ s) <$> t_failedSet t |>)) t)).
    apply keeps_bind; [apply _|apply FailedAttemptSet_retained|intros failed].
    apply keeps_bind; [apply _| |intros _].
    { apply set_intent_retained. intros i. case_bool_decide; by split_and!. }
    apply keeps_bind; [apply _|by apply set_intent_retained; intros ?; split_and!|intros _].
    apply keeps_bind; [apply _|apply RecordPhase_retained|intros _].
    intros t. by apply claim_step.
Qed.

Lemma RecordFixedWitness_retained key value (persist : M (Tx W) ()) :
  keeps retained persist → keeps retained (RecordFixedWitness key value persist).
Proof.
  intros Hp. unfold RecordFixedWitness. apply keeps_bind; [apply _|by apply keeps_gets, _|intros c].
  destruct (FixedCreateIntent c) as [i|]; [|by apply keeps_fail, _].
  apply keeps_bind; [apply _|by apply keeps_ensure, _|intros _].
  apply keeps_bind; [apply _|by apply keeps_ensure, _|intros _].
  apply keeps_bind; [apply _|by apply set_intent_retained; intros ?; split_and!|intros _]. exact Hp.
Qed.

Lemma write_label_retained key value : keeps retained (write_label key value).
Proof.
  unfold write_label. apply keeps_bind; [apply _|by apply keeps_gets, _|intros c].
  apply keeps_bind; [apply _|by apply keeps_ensure, _|intros _].
  apply set_claim_retained. intros c0. by apply evolves_fields.
Qed.

Lemma write_scope_retained scope : keeps retained (write_scope scope).
Proof. apply set_claim_retained. intros c. by apply evolves_fields. Qed.

Lemma run_call_retained kind op : keeps retained (run_call env json remove_artifacts kind op).
Proof.
  destruct op; cbn [run_call].
  - apply Bind_retained.
  - apply Observe_retained.
  - apply Admit_retained.
  - apply RejectAttempt_retained.
  - apply RecordPhase_retained.
  - apply RecordPhase_retained.
  - apply keeps_bind; [apply _|apply FailedAttemptSet_retained|intros _]. by apply keeps_ret, _.
  - apply RecordFixedWitness_retained, RecordPhase_retained.
  - apply write_label_retained.
  - apply write_scope_retained.
Qed.

Lemma run_prog_retained {A} kind (p : prog A) : keeps retained (run_prog env json remove_artifacts kind p).
Proof.
  induction p as [r|effect k IH|k IH|op k IH]; cbn [run_prog].
  - by apply keeps_lift, _.
  - apply keeps_bind; [apply _|apply outside_retained|intros _].
    apply keeps_bind; [apply _|by apply keeps_gets, _|intros t]. apply IH.
  - apply keeps_bind; [apply _|by apply keeps_gets, _|intros t]. apply IH.
  - apply keeps_bind; [apply _|apply keeps_attempt, run_call_retained|intros r]. apply IH.
Qed.

(** C31. No provider adapter can retarget a fixed lease: whatever program an
    adapter runs (any native effects, any sequence of the exported operations of
    the transaction and of the adapters' own writes to its claim, which are
    attempt witnesses, labels and the scope, with any evidence, phase and
    failures of the store), a claim file that existed
    still exists, with the same lease ID, every nonempty resource identity
    (cloud ID, immutable ID, numeric ID) unchanged, the same provider and
    create intent (version, fingerprint, scope, checkpoint, slug, creation time
    and retention policy), and a released lease still released. *)
Theorem adapter_cannot_retarget {A} kind (p : prog A) (t : Tx W) c :
  anchored t → file_of t = Some (Stored c) →
  ∃ c', file_of (run_prog env json remove_artifacts kind p t).2 = Some (Stored c') ∧ evolves c c'.
Proof. intros Ha Hf. by apply (run_prog_retained kind p t Ha). Qed.
End retention.

(** ** A concrete session *)
Definition no_json : Json := mkJson (λ _, None) (λ _, "") (λ _, None) (λ s, s).
Definition keep_artifacts : string → M () () := λ _, mret ().
Definition sample_session : Tx () :=
  mkTx sample_retained_claim None (mkSys {["cbx_0123456789ab" := Stored sample_retained_claim]} 0 ()) [] None None
    false false sample_intent (CloudID sample_retained_claim) "" "cbx_0123456789ab" "aws" None [] None false false false.
(** An adapter that reports another resource, ignores the refusal, records
    evidence and a phase of its own, and rejects the attempt for good. *)
Definition rogue_adapter : @prog () () :=
  Native _ id (λ _,
  Call _ (CallBind (mkBinding None None "" false "" "another" "" 0 "" None None "")) (λ _,
  Call _ (CallWriteLabel "state" "deleting") (λ _,
  Call _ (CallRecordWitness "deletion_operation_id" "op-1") (λ _,
  Call _ (CallRecord "released") (λ _,
  Call _ (CallRejectAttempt "token" true) (λ _, Return _ (Ok ()))))))).

Lemma sample_session_file : file_of "cbx_0123456789ab" sample_session = Some (Stored sample_retained_claim).
Proof. exact (lookup_singleton_eq _ _). Qed.

Lemma adapter_witness :
  ∃ c', file_of "cbx_0123456789ab" (run_prog calm no_json keep_artifacts sample_kind rogue_adapter sample_session).2
          = Some (Stored c') ∧ evolves sample_retained_claim c'.
Proof.
  apply (adapter_cannot_retarget calm no_json keep_artifacts "cbx_0123456789ab" sample_kind rogue_adapter
           sample_session sample_retained_claim).
  - intros c Hc. rewrite <-(stored_inj _ _ (eq_trans (eq_sym sample_session_file) Hc)).
    apply (PreOrder_Reflexive (R := evolves)).
  - exact sample_session_file.
Defined.
