(* ===== verification/FixedFrame.v ===== *)
(** * What the transaction operations leave alone, and what they establish

    The frame of every operation of [FixedTx] (the log of callbacks, the
    parameters of the transaction, and the state of the create intent), and the
    durable state after a successful [persist] and [RecordPhase].  The theorems
    on the engine are proved from these lemmas. *)

From Stdlib Require Import ZArith Lia.
From stdpp Require Import gmap strings prelude.
From S2P Require Import Prelude GoText GoTime Sha256 ClaimData Slug Labels Identity Journal ClaimStore ClaimOps FixedTx.
Local Open Scope string_scope.
Local Open Scope Z_scope.
Local Open Scope crab_scope.

Create HintDb frame.

Section frame.
Context {W : Type} (env : Env) (json : Json).
Context (remove_artifacts : string → M W ()).
Context (other_claims : Sys W → res (list LeaseClaim)).
Local Abbreviation TM := (M (Tx W)).

(** The parameters of a transaction and the log, which only the engine sets. *)
Definition parameters (t : Tx W) :=
  (t_log t, t_leaseID t, t_admission t, t_fresh t, t_initialUnallocated t, t_readonly t, t_started t, t_terminal t).

(** The state of the create intent in memory. *)
Definition intent_state (c : LeaseClaim) : option string := i_State <$> FixedCreateIntent c.

(** A transaction whose claim has not been replaced keeps its intent's state. *)
Definition frame (t t' : Tx W) : Prop :=
  parameters t' = parameters t ∧
  (t_detached t' = None → t_detached t = None ∧ intent_state (t_claim t') = intent_state (t_claim t)).

#[export] Instance frame_preorder : PreOrder frame.
Proof.
  split; [done|]. intros x y z [P1 D1] [P2 D2]. split; [congruence|].
  intros H. destruct (D2 H) as [H1 E1]. destruct (D1 H1) as [H2 E2]. split; congruence.
Qed.

Lemma sys_frame {A} (m : M (Sys W) A) : keeps frame (sys m).
Proof. intros t. unfold sys. by destruct (m (t_sys t)). Qed.

Lemma set_claim_frame f :
  (∀ c, intent_state (f c) = intent_state c) → keeps frame (set_claim f).
Proof. intros Hf t. split; [done|]. intros H. split; [exact H|apply Hf]. Qed.

Lemma set_intent_frame f : (∀ i, i_State (f i) = i_State i) → keeps frame (set_intent f).
Proof.
  intros Hf. apply set_claim_frame. intros c. unfold intent_state. cbn.
  destruct (FixedCreateIntent c); cbn; [by rewrite Hf|done].
Qed.

Lemma claim_frame : keeps frame claim.
Proof. apply keeps_gets, _. Qed.

Lemma intent_frame : keeps frame intent.
Proof.
  unfold intent. apply keeps_bind; [apply _|apply claim_frame|intros c].
  destruct (FixedCreateIntent c); [apply keeps_ret|apply keeps_fail]; apply _.
Qed.

Lemma validate_frame : keeps frame validate_journal.
Proof. unfold validate_journal. apply keeps_bind; [apply _|apply claim_frame|intros]. apply keeps_lift, _. Qed.

Lemma bound_claim_intent c b : FixedCreateIntent (bound_claim c b) = FixedCreateIntent c.
Proof.
  unfold bound_claim, SetLeaseClaimResourceIdentity.
  set (same := same_resource _ _ _ _). clearbody same.
  destruct (b_ImageEvidence b), same, (b_SSH b) as [ssh|]; cbn; try reflexivity;
    repeat case_match; reflexivity.
Qed.

Lemma add_values_state i b payload values : i_State (add_values json i b payload values) = i_State i.
Proof. unfold add_values. repeat case_match; done. Qed.
End frame.

#[export] Hint Resolve sys_frame claim_frame intent_frame validate_frame : frame.
#[export] Hint Resolve set_claim_frame set_intent_frame : frame.

Ltac frame_steps :=
  repeat first
    [ apply keeps_ret; apply _ | apply keeps_fail; apply _ | apply keeps_lift; apply _
    | apply keeps_gets; apply _ | apply keeps_ensure; apply _
    | solve [ eauto 2 with frame ]
    | (apply set_intent_frame; intros ?; reflexivity)
    | (apply set_claim_frame; intros ?; reflexivity)
    | (apply keeps_bind; [apply _| |intros ?])
    | (apply keeps_attempt)
    | case_match ].

Section operations.
Context {W : Type} (env : Env) (json : Json).
Context (remove_artifacts : string → M W ()).
Context (other_claims : Sys W → res (list LeaseClaim)).
Local Abbreviation TM := (M (Tx W)).

Lemma sys_inv {A} (m : M (Sys W) A) t r t' :
  sys m t = (r, t') → t' = t <| t_sys := (m (t_sys t)).2 |> ∧ r = (m (t_sys t)).1.
Proof. unfold sys. destruct (m (t_sys t)). by intros [= <- <-]. Qed.

(** The claim [persist] starts from, and the checkpoint binding it completes. *)
Definition named (leaseID : string) (c : LeaseClaim) : LeaseClaim :=
  if LeaseID c =s "" then c <| LeaseID := leaseID |> else c.
Definition rebound (c : LeaseClaim) : LeaseClaim :=
  match CheckpointCapture c with
  | Some cc => if cc_BoundRevision cc =s ""
               then c <| CheckpointCapture := Some (mkCapture (cc_ID cc) (cc_Revision cc) (Revision c)) |>
               else c
  | None => c
  end.

Lemma rebound_fields c : identity_fields (rebound c) = identity_fields c.
Proof. unfold rebound. destruct (CheckpointCapture c) as [cc|]; [|done]. by destruct (cc_BoundRevision cc =s ""). Qed.

Lemma named_intent id c : FixedCreateIntent (named id c) = FixedCreateIntent c.
Proof. unfold named. by case_bool_decide. Qed.

Lemma refresh_fields c (s : Sys W) c' s' :
  refreshLeaseClaimRevision env c s = (Ok c', s') → identity_fields c' = identity_fields c ∧ sys_disk s' = sys_disk s.
Proof.
  unfold refreshLeaseClaimRevision, mbind, M_bind, interact. cbn.
  destruct (env_random env (sys_tick s)); [|done]. intros H. injection H as H1 H2. subst. done.
Qed.

Lemma sys_refresh_fields c (t : Tx W) c' t' :
  sys (refreshLeaseClaimRevision env c) t = (Ok c', t') →
  identity_fields c' = identity_fields c ∧ ∃ s, sys_disk s = sys_disk (t_sys t) ∧ t' = t <| t_sys := s |>.
Proof.
  intros H. apply sys_inv in H as [-> H]. destruct (refreshLeaseClaimRevision env c (t_sys t)) as [r s] eqn:E.
  cbn in H. subst r. apply refresh_fields in E as [Hc Hs]. split; [done|]. exists s. by split.
Qed.

Lemma identity_state c c' : identity_fields c' = identity_fields c → intent_state c' = intent_state c.
Proof. unfold identity_fields, intent_state. intros [= _ _ _ _ _ ->]. done. Qed.

Lemma persist_frame id : keeps frame (persist env id : TM ()).
Proof.
  unfold persist. apply keeps_bind; [apply _|apply keeps_gets, _|intros t0].
  apply keeps_bind; [apply _|apply keeps_ensure, _|intros _].
  apply keeps_bind; [apply _|apply set_claim_frame|intros _].
  { intros c. unfold intent_state. change (i_State <$> FixedCreateIntent (named id c) = i_State <$> FixedCreateIntent c).
    by rewrite named_intent. }
  intros t. apply bind_at; [apply _|reflexivity|]. intros c t1 [= <- <-].
  apply bind_at; [apply _|by apply keeps_ensure, _|]. intros [] t2 E.
  assert (t2 = t) as -> by (unfold ensure in E; case_bool_decide; by injection E).
  apply bind_at; [apply _|apply sys_frame|]. intros c t3 E3.
  apply sys_refresh_fields in E3 as (Hc & s & _ & ->). fold (rebound c).
  apply bind_at; [apply _| |intros ? ? _; apply sys_frame].
  split; [done|]. intros H. split; [exact H|]. cbn. apply identity_state. rewrite rebound_fields. exact Hc.
Qed.

(** After a successful [persist] the claim in memory is on disk. *)
Lemma persist_ok lid (t : Tx W) u t' :
  persist env lid t = (Ok u, t') →
  t_readonly t = false ∧ LeaseID (t_claim t') = lid ∧
  identity_fields (t_claim t') = identity_fields (named lid (t_claim t)) ∧
  sys_disk (t_sys t') = <[lid := Stored (cloneLeaseClaim (t_claim t'))]> (sys_disk (t_sys t)).
Proof.
  intros H. unfold persist in H. apply M_bind_ok in H as (? & ? & [= <- <-] & H). cbn [id] in H.
  apply M_bind_ok in H as ([] & t1 & H1 & H). unfold ensure in H1.
  destruct (t_readonly t); [done|]. injection H1 as <-. split; [done|].
  apply M_bind_ok in H as ([] & t1 & H1 & H). injection H1 as <-. fold (named lid (t_claim t)) in H.
  set (t1 := t <| t_claim := named lid (t_claim t) |>) in H.
  apply M_bind_ok in H as (? & ? & [= <- <-] & H).
  apply M_bind_ok in H as ([] & t2 & H2 & H). unfold ensure in H2.
  destruct (bool_decide _) eqn:Hid; [|done]. injection H2 as <-. apply bool_decide_eq_true_1 in Hid.
  apply M_bind_ok in H as (c & t3 & H3 & H). apply sys_refresh_fields in H3 as (Hc & s & Hs & ->).
  fold (rebound c) in H. apply M_bind_ok in H as ([] & t4 & H4 & H). injection H4 as <-.
  apply sys_inv in H as [-> H]. cbn in H |- *.
  destruct (writeLeaseClaim env true lid (rebound c) s) as [r s'] eqn:Ew. cbn in H. subst r.
  apply writeLeaseClaim_spec in Ew as [_ [Ew|[_ [e [=]]]]].
  assert (identity_fields (rebound c) = identity_fields (named lid (t_claim t))) as Hf.
  { rewrite rebound_fields. exact Hc. }
  split_and!; [|exact Hf|].
  - apply (f_equal (λ x, x.1.1.1.1.1)) in Hf. cbn in Hf. by rewrite Hf.
  - cbn. rewrite Ew, Hs. done.
Qed.

(** Whatever [persist] returns, the disk is as it was, or holds the claim. *)
Lemma persist_cases lid (t : Tx W) r t' :
  persist env lid t = (r, t') →
  (sys_disk (t_sys t') = sys_disk (t_sys t) ∧ ∃ e, r = Err e) ∨
  ∃ c, identity_fields c = identity_fields (named lid (t_claim t)) ∧
    sys_disk (t_sys t') = <[lid := Stored (cloneLeaseClaim c)]> (sys_disk (t_sys t)).
Proof.
  intros H. unfold persist in H. unfold mbind at 1, M_bind at 1, gets at 1 in H. cbn [id] in H.
  unfold mbind at 1, M_bind at 1, ensure at 1 in H. destruct (t_readonly t); cbn [negb] in H.
  { injection H as <- <-. left. split; [done|by eexists]. }
  unfold mret at 1, M_ret at 1 in H. unfold mbind at 1, M_bind at 1, set_claim at 1, modify at 1 in H.
  fold (named lid (t_claim t)) in H. set (t1 := t <| t_claim := named lid (t_claim t) |>) in H.
  unfold mbind at 1, M_bind at 1, claim at 1, gets at 1 in H.
  unfold mbind at 1, M_bind at 1, ensure at 1 in H. destruct (LeaseID (t_claim t1) =s lid).
  2: { injection H as <- <-. left. split; [done|by eexists]. }
  unfold mret at 1, M_ret at 1 in H. unfold mbind at 1, M_bind at 1 in H.
  pose proof (refresh_untouched env (t_claim t1) (t_sys t1)) as [Hd _].
  destruct (sys (refreshLeaseClaimRevision env (t_claim t1)) t1) as [[c|e] t2] eqn:E2.
  2: { injection H as <- <-. left. apply sys_inv in E2 as [-> _]. split; [exact Hd|by eexists]. }
  apply sys_refresh_fields in E2 as (Hc & s & Hs & ->). fold (rebound c) in H.
  unfold mbind at 1, M_bind at 1, set_claim at 1, modify at 1 in H.
  apply sys_inv in H as [-> ->]. cbn [t_sys setter set_t_sys set_t_claim].
  destruct (writeLeaseClaim env true lid (rebound c) s) as [r s'] eqn:Ew. cbn [fst snd].
  apply writeLeaseClaim_spec in Ew as [_ [Ew|[Ew He]]].
  - right. exists (rebound c). split; [by rewrite rebound_fields|]. rewrite Ew, Hs. done.
  - left. split; [|done]. rewrite Ew, Hs. done.
Qed.

Lemma RecordPhase_frame phase : keeps frame (RecordPhase env phase : TM ()).
Proof.
  unfold RecordPhase. apply keeps_bind; [apply _|by apply keeps_gets, _|intros t0].
  destruct (FixedCreateIntent (t_claim t0)) as [i|]; [|by apply keeps_fail, _].
  apply keeps_bind; [apply _|by apply keeps_ensure, _|intros _].
  apply keeps_bind; [apply _|apply validate_frame|intros _].
  do 2 (apply keeps_bind; [apply _|by apply keeps_ensure, _|intros _]).
  apply keeps_bind; [apply _|by apply set_intent_frame|intros _].
  apply keeps_bind; [apply _|apply validate_frame|intros _].
  apply keeps_bind; [apply _|apply persist_frame|intros _].
  intros t. by split.
Qed.

(** A step that checks something and changes nothing. *)

Lemma validate_ok (t : Tx W) u t' :
  validate_journal t = (Ok u, t') → validateFixedJournal (FixedCreateIntent (t_claim t)) = Ok () ∧ t' = t.
Proof.
  intros H. unfold validate_journal in H. apply M_bind_ok in H as (? & ? & [= <- <-] & H).
  unfold lift in H. destruct (validateFixedJournal _) as [[]|]; [|done]. by injection H as _ <-.
Qed.

(** The phase [Record] stores for a requested one. *)
Definition stored_phase (i : FixedCreateIntent_t) (phase : string) : string :=
  if (i_State i =s "acquired") && (phase =s "bound") then "acquired" else phase.

(** After a successful [Record] the claim in memory is on disk, with the phase
    in its journal; a submission has a prepared native attempt. *)
Lemma RecordPhase_ok phase (t : Tx W) u t' :
  RecordPhase env phase t = (Ok u, t') →
  ∃ i, FixedCreateIntent (t_claim t) = Some i ∧
    (phase = "submitting" → i_State i = "prepared" ∧ mlen (i_Attempt i) ≠ 0) ∧
    FixedCreateIntent (t_claim t') = Some (i <| i_Journal := Some (next_journal t i (stored_phase i phase)) |>) ∧
    LeaseID (t_claim t') = t_leaseID t ∧ CloudID (t_claim t') = CloudID (t_claim t) ∧
    CloudImmutableID (t_claim t') = CloudImmutableID (t_claim t) ∧ Provider (t_claim t') = Provider (t_claim t) ∧
    sys_disk (t_sys t') = <[t_leaseID t := Stored (cloneLeaseClaim (t_claim t'))]> (sys_disk (t_sys t)).
Proof.
  intros H. unfold RecordPhase in H. apply M_bind_ok in H as (? & ? & [= <- <-] & H). cbn [id] in H.
  destruct (FixedCreateIntent (t_claim t)) as [i|] eqn:Hi; [|done]. exists i. split; [done|].
  apply M_bind_ok in H as ([] & ? & H1 & H). apply ensure_ok in H1 as [_ ->].
  apply M_bind_ok in H as ([] & ? & H1 & H). apply validate_ok in H1 as [_ ->].
  apply M_bind_ok in H as ([] & ? & H1 & H). apply ensure_ok in H1 as [Hsub ->].
  apply M_bind_ok in H as ([] & ? & H1 & H). apply ensure_ok in H1 as [_ ->].
  fold (stored_phase i phase) in H.
  apply M_bind_ok in H as ([] & ? & H1 & H). injection H1 as <-.
  apply M_bind_ok in H as ([] & ? & H1 & H). apply validate_ok in H1 as [_ ->].
  apply M_bind_ok in H as ([] & t2 & H1 & H). apply persist_ok in H1 as (_ & Hid & Hf & Hd).
  injection H as _ <-. cbn in *. rewrite Hi in Hf.
  set (c1 := set_FixedCreateIntent _ _) in Hf.
  assert (identity_fields (named (t_leaseID t) c1) =
    (LeaseID (named (t_leaseID t) c1), CloudID (t_claim t), CloudImmutableID (t_claim t), CloudNumericID (t_claim t),
     Provider (t_claim t), Some (i <| i_Journal := Some (next_journal t i (stored_phase i phase)) |>))) as Hf2.
  { unfold named. destruct (LeaseID c1 =s EmptyString); reflexivity. }
  rewrite Hf2 in Hf. injection Hf as F1 F2 F3 F4 F5 F6. split_and!; try assumption.
  intros ->. rewrite bool_decide_eq_true_2 in Hsub by done. cbn in Hsub.
  apply negb_true_iff, orb_false_iff in Hsub as [Hs Ha]. guards. split; [done|]. by apply Z.eqb_neq.
Qed.

#[local] Hint Resolve persist_frame RecordPhase_frame : frame.

Lemma applyBinding_frame b : keeps frame (applyBinding json b : TM ()).
Proof.
  unfold applyBinding. apply keeps_bind; [apply _|apply claim_frame|intros c].
  apply keeps_bind; [apply _|apply intent_frame|intros i].
  destruct (b_OnlyUnbound b && _); [apply keeps_ret, _|].
  apply keeps_bind; [apply _|apply keeps_ensure, _|intros _].
  apply keeps_bind; [apply _|apply keeps_lift, _|intros values].
  apply keeps_bind; [apply _|apply keeps_lift, _|intros payload].
  apply keeps_bind; [apply _|apply keeps_ensure, _|intros _].
  apply keeps_bind; [apply _|apply set_claim_frame|intros _].
  { intros c0. unfold intent_state. by rewrite bound_claim_intent. }
  apply keeps_bind; [apply _|apply keeps_ensure, _|intros _].
  apply keeps_bind; [apply _|apply set_intent_frame|intros _].
  { intros i0. apply add_values_state. }
  frame_steps.
Qed.
#[local] Hint Resolve applyBinding_frame : frame.

Lemma Bind_frame b : keeps frame (Bind env json b : TM ()).
Proof. unfold Bind. frame_steps. Qed.
Lemma Observe_frame b : keeps frame (Observe env json b : TM ()).
Proof. unfold Observe. frame_steps. Qed.
Lemma Admit_frame : keeps frame (Admit env : TM ()).
Proof. unfold Admit, now. frame_steps. Qed.

Lemma become_terminal_frame kind time : keeps frame (become_terminal kind time : TM ()).
Proof.
  intros t. unfold become_terminal, mbind, M_bind, claim, gets, lift, modify.
  destruct (TerminalClaim kind (t_claim t) time) as [c|] eqn:E; [|reflexivity].
  split; [done|]. cbn. unfold TerminalClaim in E.
  destruct (FixedCreateIntent (t_claim t)); [|done]. destruct (t_detached t); done.
Qed.
#[local] Hint Resolve Bind_frame Observe_frame Admit_frame become_terminal_frame : frame.

Lemma FailedAttemptSet_frame : keeps frame (FailedAttemptSet : TM (gset string)).
Proof.
  unfold FailedAttemptSet. apply keeps_bind; [apply _|apply keeps_gets, _|intros t0].
  destruct (t_failedSet t0); [apply keeps_ret, _|].
  apply keeps_bind; [apply _|apply intent_frame|intros i].
  apply keeps_bind; [apply _|by intros t; split|intros _]. apply keeps_ret, _.
Qed.

Lemma RejectAttempt_frame kind token terminal :
  keeps frame (RejectAttempt env remove_artifacts kind token terminal : TM ()).
Proof.
  unfold RejectAttempt, now. apply keeps_bind; [apply _|apply keeps_gets, _|intros t0].
  apply keeps_bind; [apply _|apply intent_frame|intros i].
  apply keeps_bind; [apply _|apply keeps_ensure, _|intros _]. destruct terminal; [frame_steps|].
  apply keeps_bind; [apply _|apply FailedAttemptSet_frame|intros failed].
  apply keeps_bind; [apply _|apply set_intent_frame; intros; by case_bool_decide|intros _].
  apply keeps_bind; [apply _|by apply set_intent_frame|intros _].
  apply keeps_bind; [apply _|apply RecordPhase_frame|intros _]. by intros t.
Qed.

Lemma RecordFixedWitness_frame key value (persist : TM ()) :
  keeps frame persist → keeps frame (RecordFixedWitness key value persist).
Proof.
  intros Hp. unfold RecordFixedWitness. apply keeps_bind; [apply _|apply claim_frame|intros c].
  destruct (FixedCreateIntent c) as [i|]; [|apply keeps_fail, _].
  apply keeps_bind; [apply _|apply keeps_ensure, _|intros _].
  apply keeps_bind; [apply _|apply keeps_ensure, _|intros _].
  apply keeps_bind; [apply _|by apply set_intent_frame|intros _]. exact Hp.
Qed.

Lemma run_call_frame kind op : keeps frame (run_call env json remove_artifacts kind op : TM ()).
Proof.
  destruct op; cbn [run_call]; eauto using RejectAttempt_frame with frame.
  - apply keeps_bind; [apply _|apply FailedAttemptSet_frame|intros _]. apply keeps_ret, _.
  - apply RecordFixedWitness_frame, RecordPhase_frame.
  - apply keeps_bind; [apply _|apply claim_frame|intros c].
    apply keeps_bind; [apply _|apply keeps_ensure, _|intros _]. by apply set_claim_frame.
Qed.

Lemma run_prog_frame {A} kind (p : prog A) : keeps frame (run_prog env json remove_artifacts kind p).
Proof.
  induction p as [r|effect k IH|k IH|op k IH]; cbn [run_prog].
  - by apply keeps_lift, _.
  - apply keeps_bind; [apply _|apply sys_frame|intros _].
    apply keeps_bind; [apply _|by apply keeps_gets, _|intros t]. apply IH.
  - apply keeps_bind; [apply _|by apply keeps_gets, _|intros t]. apply IH.
  - apply keeps_bind; [apply _|apply keeps_attempt, run_call_frame|intros r; apply IH].
Qed.

Lemma settleCreateRejection_frame rejection_settled kind cause :
  keeps frame (settleCreateRejection env remove_artifacts rejection_settled kind cause : TM (option error)).
Proof. unfold settleCreateRejection. frame_steps. Qed.

Lemma settle_frame {A} rejection_settled kind (zero : A) cause :
  keeps frame (settle env remove_artifacts rejection_settled kind zero cause).
Proof.
  unfold settle. apply keeps_bind; [apply _|apply settleCreateRejection_frame|intros [e|]];
    [apply keeps_fail|apply keeps_ret]; apply _.
Qed.

Lemma plan_attempt_frame plan : keeps frame (plan_attempt env json other_claims plan : TM ()).
Proof.
  unfold plan_attempt, plan_nonce. apply keeps_bind; [apply _|apply intent_frame|intros i].
  case_match; [apply keeps_ret, _|].
  apply keeps_bind; [apply _| |intros values].
  { case_match; [|apply keeps_ret, _]. apply keeps_bind; [apply _| |intros; apply keeps_ret, _]. frame_steps. }
  apply keeps_bind; [apply _|apply keeps_lift, _|intros stored].
  apply keeps_bind; [apply _|by apply set_intent_frame|intros _].
  apply keeps_bind; [apply _|apply claim_frame|intros c].
  apply keeps_bind; [apply _|by intros t|intros _].
  frame_steps.
Qed.
End operations.

#[export] Hint Resolve persist_frame RecordPhase_frame applyBinding_frame Bind_frame Observe_frame Admit_frame
  become_terminal_frame RejectAttempt_frame run_call_frame run_prog_frame settle_frame plan_attempt_frame : frame.
