(* ===== verification/FixedEngine.v ===== *)
(** * The fixed-lease engine

    [fixed_lease.go] and [fixed_lease_engine.go]: acquisition, inspection and
    deletion of the provider resource of a caller-supplied lease identity,
    with the provider adapter supplied as programs ([FixedTx.prog]).

    Every function runs inside one session of the durable claim lock.  The
    cancellation of the context, the file system, the lock, the clock and the
    random source are decided by the environment at each interaction. *)

From Stdlib Require Import ZArith Lia.
From stdpp Require Import gmap strings prelude.
From S2P Require Import Prelude GoText GoTime Sha256 ClaimData Slug Labels Identity Journal ClaimStore ClaimOps FixedTx.
Local Open Scope string_scope.
Local Open Scope Z_scope.
Local Open Scope crab_scope.

Record FixedLeaseBinding := mkLeaseBinding {
  lb_InitialLabels : gomap; lb_AllocateSlug : bool; lb_RejectExistingLease : bool;
  lb_RequestedSlug : string; lb_Inventory : list Server; lb_ProviderScope : string;
  lb_Fingerprint : string; lb_Slug : string }.

Record FixedAcquireOptions := mkOptions {
  ao_Retention : option SessionDiskRetentionPolicy;
  ao_Kind : FixedLeaseKind;
  ao_LeaseID : string;
  ao_CheckpointID : string;
  ao_RepoRoot : string;
  ao_LegacyRepoRoot : string;
  ao_Reclaim : bool;
  ao_TargetOS : string;
  ao_WindowsMode : string;
  ao_TTL : Z;
  ao_IdleTimeout : Z;
  ao_journal : bool }.

Inductive FixedObserveMode := ObserveAcquire | ObserveInspect | ObserveDelete.

Record FixedReleasePolicy := mkRelease {
  rp_RepoRoot : string; rp_LegacyRepoRoot : string; rp_CheckpointID : option string;
  rp_PristineScopePrefix : string; rp_SkipTerminalObservation : bool;
  rp_Binding : option FixedResourceBinding }.

(** The initial state of a lock session on a claim. *)
Definition open_session {W} (c : LeaseClaim) (s : Sys W) (started readonly : bool) : Tx W :=
  let i := default (mkIntent None 0 "" "" "" "" "" "" None [] None) (FixedCreateIntent c) in
  mkTx c None s [] None None false false i "" "" "" "" None [] None started false readonly.

Section engine.
Context {W T : Type} (env : Env) (json : Json).
Context (remove_artifacts : string → M W ()).
Context (other_claims : Sys W → res (list LeaseClaim)).
Context (rejection_settled : error → option (option error)).
(** [ctx.Err()] at each check *)
Context (ctx : nat → option error).
(** [AllocateDirectLeaseSlug], with the claims it consults *)
Context (slug_claims : string → string → res bool).
(** [AuthorizeCheckpointRelease], which reads the checkpoint journal *)
Context (authorize_checkpoint : LeaseClaim → string → res ()).
(** [FixedLeaseKind.AfterTerminal] *)
Context (after_terminal : LeaseClaim → M W ()).

Local Abbreviation TM := (M (Tx W)).

Record FixedObservation := mkObservation {
  ob_Binding : option FixedResourceBinding; ob_Candidates : list T; ob_CanSubmit : bool;
  ob_AbsenceProven : bool; ob_Conflict : string }.

Record FixedLeaseOperations := mkOperations {
  op_Release : option FixedReleasePolicy;
  op_PlanReservationKey : string;
  op_PlanDuringSubmit : bool;
  op_Admission : option FixedAdmission;
  op_Plan : option (LeaseClaim → M W FixedAttemptPlan);
  op_Identity : option (T → FixedResourceBinding);
  op_DeferredAdmission : bool;
  op_DescribeIntent : option (LeaseClaim → bool → M W FixedLeaseBinding);
  op_ObserveExact : option (FixedObserveMode → @prog W FixedObservation);
  op_Submit : option (@prog W T);
  op_PrepareAccess : option (T → @prog W LeaseTarget);
  op_DeleteExact : option (T → @prog W ()) }.

Definition ctx_check : TM () := e ← sys (interact ctx); match e with Some e => fail e | None => mret () end.

(** [WithDurableLeaseClaimLockContext]: taking the lock and reading the claim. *)
Definition open_claim (leaseID : string) : M (Sys W) (LeaseClaim * bool) :=
  checkLeaseClaimPath leaseID;;
  claim_directories env;;
  claim_directories env;;
  withLeaseClaimLock env (
    '(c, exists_) ← readLeaseClaimPathWithPresence leaseID;
    lift (validateLeaseClaimFileIdentity leaseID c exists_);;
    mret (c, exists_)).

(** The result and the final state of the session, or of the store when the
    claim was not opened. *)
Definition WithDurableLeaseClaimLock {A} (leaseID : string) (started : bool) (action : bool → TM A) (s : Sys W)
    : res A * Sys W * list event * bool * bool :=
  match open_claim leaseID s with
  | (Err e, s') => (Err e, s', [], started, false)
  | (Ok (c, exists_), s') =>
      let '(r, t) := action exists_ (open_session c s' started false) in
      (r, t_sys t, t_log t, t_started t, t_terminal t)
  end.

(** ** Acquisition *)

(** The intent the engine holds: the claim's own, unless the claim has been
    replaced by a terminal one. *)
Definition held_intent : TM FixedCreateIntent_t :=
  t ← gets id;
  match t_detached t with Some i => mret i | None => intent end.
Definition set_held_intent (f : FixedCreateIntent_t → FixedCreateIntent_t) : TM () :=
  t ← gets id;
  match t_detached t with
  | Some i => modify (λ t, t <| t_detached := Some (f i) |>)
  | None => set_intent f
  end.

(** The claim a first acquisition writes, from the empty claim. *)
Definition initial_claim (opts : FixedAcquireOptions) (binding : FixedLeaseBinding) (current : Z)
    (c : LeaseClaim) : res LeaseClaim :=
  let i := mkIntent (ao_Retention opts) (k_IntentVersion (ao_Kind opts)) (lb_Fingerprint binding)
             (lb_ProviderScope binding) (ao_CheckpointID opts) (lb_Slug binding)
             (FormatRFC3339Nano current) "prepared" None [] None in
  let c := c <| LeaseID := ao_LeaseID opts |> <| ClaimData.Slug := lb_Slug binding |>
             <| Provider := k_ClaimProvider (ao_Kind opts) |> <| ProviderScope := lb_ProviderScope binding |>
             <| TargetOS := ao_TargetOS opts |> <| WindowsMode := ao_WindowsMode opts |>
             <| RepoRoot := ao_RepoRoot opts |> <| ClaimedAt := FormatRFC3339 current |>
             <| LastUsedAt := FormatRFC3339 current |>
             <| IdleTimeoutSeconds := whole_seconds (ao_IdleTimeout opts) |>
             <| ClaimData.Labels := lb_InitialLabels binding |> in
  if ao_journal opts then
    let j := mkJournal None 1 "prepared" 1 None in
    i ← match ao_Retention opts with
        | Some p => initializeSessionDiskRetention (i <| i_Journal := Some j |>) p j (ao_LeaseID opts) current
        | None => Ok (i <| i_Journal := Some j |>)
        end;
    Ok (c <| FixedCreateIntent := Some i |>)
  else Ok (c <| FixedCreateIntent := Some i |>).

(** An existing claim must carry the same create intent. *)
Definition check_existing (opts : FixedAcquireOptions) (binding : FixedLeaseBinding) (c : LeaseClaim) : res () :=
  let other := Exit 4 "lease_id_conflict: lease %s is bound to another create intent" in
  match FixedCreateIntent c with
  | None => Err other
  | Some i =>
      reject_if (negb (bool_decide (i_Retention i = ao_Retention opts)) ||
                 negb (i_Version i =? k_IntentVersion (ao_Kind opts)) ||
                 (i_Fingerprint i <>s lb_Fingerprint binding) ||
                 (i_ProviderScope i <>s lb_ProviderScope binding)) other;;
      reject_if (Provider c <>s k_ClaimProvider (ao_Kind opts))
        (Exit 4 "lease_id_conflict: lease %s is bound to provider=%s");;
      reject_if ((RepoRoot c <>s "") &&
                 negb (ClaimRepositoryMatches (RepoRoot c) (ao_RepoRoot opts) [ao_LegacyRepoRoot opts]) &&
                 negb (ao_Reclaim opts))
        (Exit 4 "lease_id_conflict: lease %s is bound to another repository")
  end.

(** The guards on the claim found under the lock. *)
Definition check_found (opts : FixedAcquireOptions) (c : LeaseClaim) (exists_ : bool) : res () :=
  let released := match FixedCreateIntent c with Some i => i_State i =s "released" | None => false end in
  reject_if (exists_ && IsFixedClaim (ao_Kind opts) c && released)
    (Exit 4 "lease_id_conflict: fixed lease %s is terminal and cannot be replayed");;
  reject_if (exists_ && match FixedCreateIntent c with
                        | Some i => i_CheckpointID i <>s ao_CheckpointID opts | None => false end)
    (Exit 4 "lease_id_conflict: lease %s is bound to checkpoint %s, not checkpoint %s");;
  reject_if (exists_ && (Provider c <>s k_ClaimProvider (ao_Kind opts)))
    (Exit 4 "lease_id_conflict: lease %s is bound to provider=%s; it already has another owner").

(** Slug allocation for a new lease. *)
Definition resolve_slug (opts : FixedAcquireOptions) (exists_ : bool) (binding : FixedLeaseBinding)
    : res FixedLeaseBinding :=
  if negb exists_ && lb_AllocateSlug binding then
    reject_if (lb_RejectExistingLease binding &&
               existsb (λ server, mlookup (sv_Labels server) "lease" =s ao_LeaseID opts) (lb_Inventory binding))
      (Exit 4 "lease_id_conflict: resource exists without its create intent");;
    slug ← allocateDirectLeaseSlug slug_claims (λ _, None) (ao_LeaseID opts) (lb_RequestedSlug binding)
             (lb_Inventory binding);
    Ok (mkLeaseBinding (lb_InitialLabels binding) (lb_AllocateSlug binding) (lb_RejectExistingLease binding)
          (lb_RequestedSlug binding) (lb_Inventory binding) (lb_ProviderScope binding)
          (lb_Fingerprint binding) slug)
  else Ok binding.

(** [AcquireFixedIntent], inside the lock.  [prepare] is given the claim it
    finds; [acquire] runs between the prepared and the acquired state. *)
Definition acquire_intent_body {A} (opts : FixedAcquireOptions)
    (prepare : LeaseClaim → bool → M W FixedLeaseBinding) (acquire : TM A) (exists_ : bool)
    : TM (A * LeaseClaim) :=
  c ← claim;
  lift (check_found opts c exists_);;
  binding ← sys (outside (prepare c exists_));
  binding ← lift (resolve_slug opts exists_ binding);
  (if exists_ then lift (check_existing opts binding c)
   else
     current ← now env;
     c ← lift (initial_claim opts binding current c);
     set_claim (λ _, c);;
     persist env (ao_LeaseID opts));;
  i ← intent;
  ensure (i_State i ∈s ["prepared"; "acquired"])
    (Exit 4 "lease_id_conflict: fixed lease %s has invalid create state %q");;
  match ParseRFC3339 (i_CreatedAt i) with
  | None => fail (Exit 4 "lease_id_conflict: lease %s has invalid fixed create timestamp")
  | Some createdAt =>
      current ← now env;
      ensure (negb (bool_decide (ao_Retention opts = None) && (ao_TTL opts >? 0) &&
                    (current >? createdAt + ao_TTL opts)))
        (Exit 4 "lease_id_conflict: fixed create intent for lease %s has expired");;
      acquired ← acquire;
      finished ← now env;
      set_claim (λ c, c <| LastUsedAt := FormatRFC3339 finished |>);;
      set_held_intent (λ i, i <| i_State := "acquired" |>);;
      set_held_intent (λ i,
        match i_Journal i with
        | Some j => if j_Phase j <>s "acquired"
                    then i <| i_Journal := Some ((j <| j_Phase := "acquired" |>) <| j_Revision := add_u64 (j_Revision j) 1 |>) |>
                    else i
        | None => i
        end);;
      persist env (ao_LeaseID opts);;
      c ← claim;
      mret (acquired, c)
  end.

(** [AcquireFixedIntent] *)
Definition AcquireFixedIntent {A} (opts : FixedAcquireOptions)
    (prepare : LeaseClaim → bool → M W FixedLeaseBinding) (acquire : bool → TM A) (s : Sys W)
    : res (A * LeaseClaim) * Sys W * list event :=
  if bool_decide (is_Some (ao_Retention opts)) && negb (ao_journal opts)
  then (Err (Exit 4 "retained acquisition requires the fixed resource journal owner"), s, [])
  else
    let '(r, s', log, _, _) :=
      WithDurableLeaseClaimLock (ao_LeaseID opts) false
        (λ exists_, acquire_intent_body opts prepare (acquire exists_) exists_) s in
    (r, s', log).

(** What [AcquireFixedLease] writes to the claim after a successful [acquire]. *)
Definition record_lease (opts : FixedAcquireOptions) (lease : LeaseTarget) : TM () :=
  i ← held_intent;
  let server := lt_Server lease in
  set_claim (λ c, SetLeaseClaimResourceIdentity c (sv_CloudID server) (CloudNumericID c)
                    (sv_ImmutableID server) (sv_ImageEvidence server));;
  set_claim (λ c, c <| ClaimData.Slug := i_Slug i |> <| Provider := k_ClaimProvider (ao_Kind opts) |>
                    <| ClaimData.Labels := sv_Labels server |> <| SSHHost := ssh_Host (lt_SSH lease) |>);;
  set_claim (λ c, match Atoi (TrimSpace (ssh_Port (lt_SSH lease))) with
                  | Some port => c <| SSHPort := port |> | None => c end).

(** [fixedObservationConflict] *)
Definition fixedObservationConflict (ob : FixedObservation) : res () :=
  reject_if (ob_Conflict ob <>s "") (Exit 4 "lease_id_conflict: %s");;
  reject_if (1 <? zlen (ob_Candidates ob)) (Exit 4 "lease_id_conflict: multiple %s match fixed lease %s").

(** [withFixedPlanReservation] *)
Definition withFixedPlanReservation (key : string) (action : TM ()) : TM () :=
  if key =s "" then action else (e ← sys (interact (env_lock env)); match e with Some e => fail e | None => mret () end);; action.

Local Abbreviation tx_settle := (settle env remove_artifacts rejection_settled).
Local Abbreviation run cb id p := (callback_run env json remove_artifacts cb id p).

(** An adapter call that may certify a rejection: its error is settled. *)
Definition settling {A} (kind : FixedLeaseKind) (zero : A) (m : TM A) (k : A → TM LeaseTarget) : TM LeaseTarget :=
  r ← attempt m;
  match r with
  | Ok a => k a
  | Err e => tx_settle kind empty_target e
  end.

(** Planning and journalling the attempt before submission. *)
Definition prepare_attempt (ops : FixedLeaseOperations) : TM () :=
  i ← intent;
  (match op_Plan ops with
   | Some plan =>
       if mlen (i_Attempt i) =? 0 then
         c ← claim;
         modify (λ t, t <| t_log := (t_log t ++ [mkEvent CPlan c (sys_disk (t_sys t) !! t_leaseID t)])%list |>);;
         p ← sys (outside (plan (cloneLeaseClaim c)));
         ctx_check;;
         plan_attempt env json other_claims p
       else mret ()
   | None => mret ()
   end);;
  i ← intent;
  ensure (negb ((mlen (i_Attempt i) =? 0) && negb (op_PlanDuringSubmit ops)))
    (Exit 4 "lease_id_conflict: fixed lease submission has no native attempt");;
  RecordPhase env "prepared".

(** The deadline of a keyed retry. *)
Definition keyed_window (admission : FixedAdmission) : TM () :=
  match ad_KeyedRetry admission with
  | None => mret ()
  | Some policy =>
      i ← intent;
      time ← now env;
      match i_Journal i ≫= j_Submission with
      | None => fail (Panic "nil submission")
      | Some sub =>
          let first := default (-62135596800 * Second) (ParseRFC3339 (s_FirstSubmittedAt sub)) in
          ensure (negb (time_Sub (first + kr_Window policy) time <=? 0)) FixedUncertainCustody
      end
  end.

(** Access and the final binding. *)
Definition finish_acquisition (kind : FixedLeaseKind) (leaseID : string) (ops : FixedLeaseOperations)
    (access : T → @prog W LeaseTarget) (resource : T) : TM LeaseTarget :=
  (match op_Identity ops with
   | Some identity => Bind env json (identity resource)
   | None => mret ()
   end);;
  lease ← run kind CPrepareAccess leaseID (access resource);
  c ← claim;
  ensure (negb ((lt_LeaseID lease <>s LeaseID c) ||
                ((CloudID c <>s "") && (CloudID c <>s sv_CloudID (lt_Server lease))) ||
                ((CloudImmutableID c <>s "") && (CloudImmutableID c <>s sv_ImmutableID (lt_Server lease)))))
    (Exit 4 "lease_id_conflict: prepared access changed the fixed resource identity");;
  RecordPhase env "bound";;
  mret lease.

(** Submission of a new resource. *)
Definition submit_resource (kind : FixedLeaseKind) (leaseID : string) (ops : FixedLeaseOperations)
    (admission : FixedAdmission) (submit : @prog W T) (access : T → @prog W LeaseTarget) (canSubmit : bool)
    : TM LeaseTarget :=
  time ← now env;
  t ← gets id;
  i ← intent;
  let c := t_claim t in
  ensure (negb (negb canSubmit || negb (permits admission t i time) || (i_State i <>s "prepared") ||
                (CloudID c <>s "") || negb (CloudNumericID c =? 0) || (CloudImmutableID c <>s "")))
    (Exit 4 "lease_id_conflict: fixed %s lease %s has an unresolved or missing resource; retain its claim for recovery");;
  settling kind () (withFixedPlanReservation (op_PlanReservationKey ops) (prepare_attempt ops)) (λ _,
    (if negb (op_DeferredAdmission ops) then Admit env else mret ());;
    keyed_window admission;;
    ctx_check;;
    r ← attempt (run kind CSubmit leaseID submit);
    match r with
    | Err e => tx_settle kind empty_target e
    | Ok resource =>
        i ← intent;
        ensure (negb (mlen (i_Attempt i) =? 0))
          (Exit 4 "lease_id_conflict: fixed %s lease %s has no valid durable launch attempt after provisioning");;
        finish_acquisition kind leaseID ops access resource
    end).

(** The [acquire] callback of [AcquireFixedResource], in its transaction *)
Definition acquire_observed (opts : FixedAcquireOptions) (ops : FixedLeaseOperations)
    (admission : FixedAdmission) (observe : FixedObserveMode → @prog W FixedObservation)
    (submit : @prog W T) (access : T → @prog W LeaseTarget) : TM LeaseTarget :=
  let kind := ao_Kind opts in
  c ← claim;
  r ← attempt (run kind CObserve (LeaseID c) (observe ObserveAcquire));
  match r with
  | Err e => tx_settle kind empty_target e
  | Ok ob =>
      lift (fixedObservationConflict ob);;
      match ob_Candidates ob with
      | [resource] =>
          (match ob_Binding ob with Some b => Bind env json b | None => mret () end);;
          finish_acquisition kind (LeaseID c) ops access resource
      | _ => submit_resource kind (LeaseID c) ops admission submit access (ob_CanSubmit ob)
      end
  end.

Definition acquire_resource (opts : FixedAcquireOptions) (ops : FixedLeaseOperations) (fresh : bool)
    (admission : FixedAdmission) (observe : FixedObserveMode → @prog W FixedObservation)
    (submit : @prog W T) (access : T → @prog W LeaseTarget) : TM LeaseTarget :=
  newFixedTransaction fresh (Some admission);;
  acquire_observed opts ops admission observe submit access.

(** [AcquireFixedResource] requires its operations. *)
Definition valid_operations (ops : FixedLeaseOperations) : res () :=
  reject_if (bool_decide (op_Admission ops = None) || match op_DescribeIntent ops with None => true | _ => false end ||
             match op_Plan ops with None => negb (op_PlanDuringSubmit ops) | _ => false end ||
             match op_ObserveExact ops with None => true | _ => false end ||
             match op_Submit ops with None => true | _ => false end ||
             match op_PrepareAccess ops with None => true | _ => false end)
    (Msg "fixed lease engine requires all acquisition operations");;
  reject_if ((op_PlanReservationKey ops <>s "") &&
             (match op_Plan ops with None => true | _ => false end || op_PlanDuringSubmit ops))
    (Msg "fixed identity reservation requires a pre-submission plan");;
  match op_Admission ops with
  | Some ad =>
      match ad_KeyedRetry ad with
      | Some retry =>
          reject_if (op_DeferredAdmission ops || op_PlanDuringSubmit ops || negb (ad_FreshOnly ad) ||
                     ad_RepeatSameIdentity ad || (ad_PendingKey ad <>s "") ||
                     (kr_AttemptKey retry =s "") || (kr_Window retry <=? 0))
            (Msg "keyed recovery requires fresh-only admission and a pre-submission plan")
      | None => Ok ()
      end
  | None => Ok ()
  end.

(** The claim found is usable: its journal is valid and not in cleanup. *)
Definition usable_journal (c : LeaseClaim) (exists_ : bool) : res () :=
  if negb exists_ then Ok ()
  else
    validateFixedJournal (FixedCreateIntent c);;
    reject_if (match FixedCreateIntent c ≫= i_Journal with
               | Some j => j_Phase j ∈s ["deleting"; "released"] | None => false end)
      (Exit 4 "lease_id_conflict: fixed lease has entered cleanup; retry stop").

(** [SetServerLeaseClaimSnapshot] *)
Definition SetServerLeaseClaimSnapshot (server : Server) (c : LeaseClaim) (exists_ : bool) : Server :=
  mkServer (sv_CloudID server) (sv_Provider server) (sv_ImmutableID server) (sv_ID server) (sv_Name server)
    (sv_Status server) (sv_Labels server) (sv_ImageEvidence server)
    (if exists_ then cloneLeaseClaim c else empty_claim) true exists_.

(** [AcquireFixedLease] *)
Definition AcquireFixedLease (opts : FixedAcquireOptions)
    (prepare : LeaseClaim → bool → M W FixedLeaseBinding) (acquire : bool → TM LeaseTarget) (s : Sys W)
    : res LeaseTarget * Sys W * list event :=
  let '(r, s', log) :=
    AcquireFixedIntent opts prepare
      (λ exists_, lease ← acquire exists_; record_lease opts lease;; mret lease) s in
  (('(lease, c) ← r;
    Ok (mkTarget (SetServerLeaseClaimSnapshot (lt_Server lease) c true) (lt_SSH lease) (lt_LeaseID lease))),
   s', log).

(** [AcquireFixedResource] *)
Definition AcquireFixedResource (opts : FixedAcquireOptions) (ops : FixedLeaseOperations) (s : Sys W)
    : res LeaseTarget * Sys W * list event :=
  match valid_operations ops, op_Admission ops, op_DescribeIntent ops, op_ObserveExact ops, op_Submit ops,
        op_PrepareAccess ops with
  | Ok _, Some admission, Some describe, Some observe, Some submit, Some access =>
      let opts := mkOptions (ao_Retention opts) (ao_Kind opts) (ao_LeaseID opts) (ao_CheckpointID opts)
                    (ao_RepoRoot opts) (ao_LegacyRepoRoot opts) (ao_Reclaim opts) (ao_TargetOS opts)
                    (ao_WindowsMode opts) (ao_TTL opts) (ao_IdleTimeout opts) true in
      AcquireFixedLease opts
        (λ c exists_, lift (usable_journal c exists_);; describe c exists_)
        (λ exists_, acquire_resource opts ops (negb exists_) admission observe submit access) s
  | Err e, _, _, _, _, _ => (Err e, s, [])
  | _, _, _, _, _, _ => (Err (Msg "fixed lease engine requires all acquisition operations"), s, [])
  end.

(** ** Deletion *)

Definition mark_started (started : bool) : TM () := modify (λ t, t <| t_started := started |>).
Definition mark_terminal : TM () := modify (λ t, t <| t_terminal := true |>).

Definition run_after_terminal (kind : FixedLeaseKind) : TM () :=
  c ← claim;
  if k_HasAfterTerminal kind then
    modify (λ t, t <| t_log := (t_log t ++ [mkEvent CAfterTerminal c (sys_disk (t_sys t) !! LeaseID c)])%list |>);;
    sys (outside (after_terminal c))
  else mret ().

(** A claim that is already released is re-validated and finished. *)
Definition finish_released (kind : FixedLeaseKind) (expected : LeaseClaim) : TM () :=
  c ← claim;
  lift (ValidateTerminalClaim kind c expected (LeaseID c) None);;
  mark_started true;;
  mark_terminal;;
  run_after_terminal kind.

(** Release policy: repository owner and checkpoint authority. *)
Definition check_release_policy (policy : option FixedReleasePolicy) (c : LeaseClaim) : res () :=
  match policy with
  | None => Ok ()
  | Some p =>
      (if rp_RepoRoot p <>s "" then
         reject_if (RepoRoot c =s "") (Exit 4 "%s fixed lease %s has no current repository owner");;
         CheckLeaseClaimRepositoryOwner c (rp_RepoRoot p) false [rp_LegacyRepoRoot p]
       else Ok ());;
      match rp_CheckpointID p with Some id => authorize_checkpoint c id | None => Ok () end
  end.

Definition is_released (c : LeaseClaim) : bool :=
  match FixedCreateIntent c with Some i => i_State i =s "released" | None => false end.

(** The cleanup bindings that apply, and whether one was recorded. *)
Fixpoint apply_cleanup_bindings (bindings : list (option FixedResourceBinding)) (persisted : bool) : TM bool :=
  match bindings with
  | [] => mret persisted
  | None :: bindings => apply_cleanup_bindings bindings persisted
  | Some b :: bindings =>
      c ← claim;
      if b_OnlyUnbound b && (CloudID c <>s "") then apply_cleanup_bindings bindings persisted
      else applyBinding json b;; apply_cleanup_bindings bindings true
  end.

(** Retires a retained window. *)
Definition retire_window (persisted : bool) : TM bool :=
  i ← intent;
  match i_Journal i with
  | Some j =>
      match j_Retention j with
      | Some s => set_intent (λ i, i <| i_Journal := Some (j <| j_Retention := Some (retire s) |>) |>);; mret true
      | None => mret persisted
      end
  | None => mret persisted
  end.

(** Durable deletion entry. *)
Definition enter_deletion (kind : FixedLeaseKind) (bindings : list (option FixedResourceBinding)) : TM () :=
  persisted ← apply_cleanup_bindings bindings false;
  persisted ← retire_window persisted;
  (if k_DeletionState kind <>s "" then set_intent (λ i, i <| i_State := k_DeletionState kind |>) else mret ());;
  if (k_DeletionState kind <>s "") || persisted then RecordPhase env "deleting" else mret ().

(** The observation a deletion relies on. *)
Definition observe_for_delete (kind : FixedLeaseKind) (policy : option FixedReleasePolicy)
    (observe : FixedObserveMode → @prog W FixedObservation) : TM FixedObservation :=
  c ← claim;
  let pristine := match policy with
                  | Some p => (rp_PristineScopePrefix p <>s "") && FixedPristineRecord c kind (rp_PristineScopePrefix p)
                  | None => false
                  end in
  if pristine then mret (mkObservation None [] false true "")
  else run kind CObserve (LeaseID c) (observe ObserveDelete).

(** The tombstone, and the kind's last step. *)
Definition write_tombstone (kind : FixedLeaseKind) (expected : LeaseClaim) : TM () :=
  mark_terminal;;
  time ← now env;
  become_terminal kind time;;
  persist env (LeaseID expected);;
  run_after_terminal kind.

(** From the admitted observation to the tombstone. *)
Definition delete_resource (kind : FixedLeaseKind) (expected : LeaseClaim) (policy : option FixedReleasePolicy)
    (delete_exact : T → @prog W ()) (observed : FixedObservation) : TM () :=
  enter_deletion kind (ob_Binding observed :: match policy with Some p => [rp_Binding p] | None => [] end);;
  mark_started true;;
  (match ob_Candidates observed with
   | resource :: _ => c ← claim; run kind CDeleteExact (LeaseID c) (delete_exact resource)
   | [] => mret ()
   end);;
  write_tombstone kind expected.

Definition delete_observed (kind : FixedLeaseKind) (expected : LeaseClaim) (policy : option FixedReleasePolicy)
    (observe : FixedObserveMode → @prog W FixedObservation) (delete_exact : T → @prog W ()) : TM () :=
  c ← claim;
  lift (check_release_policy policy c);;
  observed ← observe_for_delete kind policy observe;
  lift (fixedObservationConflict observed);;
  c ← claim;
  if is_released c then finish_released kind expected
  else
    ensure (negb (bool_decide (zlen (ob_Candidates observed) = 0)) || ob_AbsenceProven observed)
      (Exit 4 "lease_id_conflict: fixed %s absence is unverified; claim retained");;
    delete_resource kind expected policy delete_exact observed.

Definition delete_session (kind : FixedLeaseKind) (expected : LeaseClaim) (policy : option FixedReleasePolicy)
    (observe : FixedObserveMode → @prog W FixedObservation) (delete_exact : T → @prog W ())
    (exists_ : bool) : TM () :=
  c ← claim;
  ensure (bool_decide (RecoveryHold c = None)) (Exit 4 "recovery_required: lease %s is held for salvage");;
  ensure (exists_ && claim_eqb c expected) (Exit 4 "lease_id_conflict: fixed claim changed before release; retry");;
  newFixedTransaction false None;;
  if match policy with Some p => rp_SkipTerminalObservation p | None => false end && is_released c
  then finish_released kind expected
  else delete_observed kind expected policy observe delete_exact.

(** [DeleteFixedResource]: the error, the store, the log, and the values of
    [Started] and [Outcome.Terminal]. *)
Definition DeleteFixedResource (kind : FixedLeaseKind) (expected : LeaseClaim) (ops : FixedLeaseOperations)
    (s : Sys W) : res () * Sys W * list event * bool * bool :=
  let previouslyStarted :=
    match FixedCreateIntent expected with
    | Some i => IsFixedClaim kind expected &&
                (((k_DeletionState kind <>s "") && (i_State i =s k_DeletionState kind)) ||
                 match i_Journal i with Some j => j_Phase j =s "deleting" | None => false end)
    | None => false
    end in
  if negb (IsFixedClaim kind expected) ||
     match FixedCreateIntent expected with Some i => negb (i_Version i =? k_IntentVersion kind) | None => true end
  then (Err (Exit 4 "lease_id_conflict: fixed deletion has no matching ownership dialect"), s, [], previouslyStarted, false)
  else match op_ObserveExact ops, op_DeleteExact ops with
  | Some observe, Some delete_exact =>
      WithDurableLeaseClaimLock (LeaseID expected) previouslyStarted
        (delete_session kind expected (op_Release ops) observe delete_exact) s
  | _, _ => (Err (Msg "fixed lease engine requires observation and exact deletion"), s, [], previouslyStarted, false)
  end.

(** ** Inspection *)

(** [InspectFixedResource]: the adapter's observation on a copy of the claim,
    with a [persist] that refuses. *)
Definition InspectFixedResource (kind : FixedLeaseKind) (c : LeaseClaim)
    (observe : option (FixedObserveMode → @prog W FixedObservation)) : M (Sys W) FixedObservation :=
  let dialect_ok := IsFixedClaim kind c &&
    match FixedCreateIntent c with Some i => i_Version i =? k_IntentVersion kind | None => false end in
  match dialect_ok, observe with
  | true, Some observe => λ s,
      let session : TM FixedObservation :=
        newFixedTransaction false None;;
        c ← claim;
        ob ← run kind CObserve (LeaseID c) (observe ObserveInspect);
        lift (fixedObservationConflict ob);;
        mret ob in
      let '(r, t) := session (open_session (cloneLeaseClaim c) s false true) in (r, t_sys t)
  | _, _ => fail (Exit 4 "lease_id_conflict: fixed inspection has no matching ownership dialect")
  end.
End engine.
