(* ===== verification/FixedSafety.v ===== *)
(** * Safety of the fixed-lease engine

    Theorems on [AcquireFixedResource], [DeleteFixedResource] and
    [InspectFixedResource], for every provider adapter and every failure of the
    store: submissions are written ahead and never repeated against policy,
    claims that may own a resource survive, a deletion is fenced and leaves a
    tombstone, an inspection changes nothing. *)

From Stdlib Require Import ZArith Lia.
From stdpp Require Import gmap strings prelude.
From S2P Require Import Prelude GoText GoTime Sha256 ClaimData Slug Labels Identity Journal ClaimStore ClaimOps FixedTx FixedFrame FixedEngine.
Local Open Scope string_scope.
Local Open Scope Z_scope.
Local Open Scope crab_scope.

(** The calls of the adapter's [Submit] in a log. *)
Definition submissions (log : list event) : list event := filter (λ e, ev_callback e = CSubmit) log.

(** A call of [Submit] that the claim file on disk announces: it holds the
    claim in memory, whose journal is in phase [submitting] and whose intent is
    still prepared and has a native attempt.  Under a keyed-retry policy it
    also holds the submission's key, and that this is the first or second one. *)
Definition written_ahead (admission : FixedAdmission) (fresh : bool) (e : event) : Prop :=
  ∃ i j, ev_file e = Some (Stored (cloneLeaseClaim (ev_claim e))) ∧
    FixedCreateIntent (ev_claim e) = Some i ∧ i_Journal i = Some j ∧
    j_Phase j = "submitting" ∧ i_State i = "prepared" ∧ mlen (i_Attempt i) ≠ 0 ∧
    ∀ retry, ad_KeyedRetry admission = Some retry →
      ∃ sub, j_Submission j = Some sub ∧ s_Key sub ≠ "" ∧
        s_Key sub = mlookup (i_Attempt i) (kr_AttemptKey retry) ∧
        (s_Count sub = 1 ∧ fresh = true ∨ s_Count sub = 2).

Section acquisition.
Context {W T : Type} (env : Env) (json : Json).
Context (remove_artifacts : string → M W ()).
Context (other_claims : Sys W → res (list LeaseClaim)).
Context (rejection_settled : error → option (option error)).
Context (ctx : nat → option error).
Context (slug_claims : string → string → res bool).
Local Abbreviation TM := (M (Tx W)).

(** The transaction's own parameters. *)
Definition fixed (t : Tx W) := (t_leaseID t, t_admission t, t_fresh t, t_initialUnallocated t, t_readonly t).
Definition subs (t : Tx W) : list event := submissions (t_log t).

(** Steps that do not submit. *)
Definition quiet (t t' : Tx W) : Prop := fixed t' = fixed t ∧ subs t' = subs t.
#[export] Instance quiet_preorder : PreOrder quiet.
Proof. split; [done|]. intros x y z [F1 S1] [F2 S2]. split; congruence. Qed.

Lemma frame_quiet {A} (m : TM A) : keeps frame m → keeps quiet m.
Proof.
  intros H. eapply keeps_weaken; [exact H|]. intros t t' [P _]. unfold parameters in P.
  injection P as P1 P2 P3 P4 P5 P6 P7 P8. split; unfold fixed, subs; congruence.
Qed.

(** Steps that submit at most once, with what [good] says of the call. *)
Definition submits (good : event → Prop) (t t' : Tx W) : Prop :=
  fixed t' = fixed t ∧ (subs t' = subs t ∨ ∃ e, subs t' = (subs t ++ [e])%list ∧ good e).

Lemma quiet_submits good t t' : quiet t t' → submits good t t'.
Proof. intros [F S]. split; [done|]. by left. Qed.

Lemma quiet_then {A B} good (m : TM A) (k : A → TM B) t :
  quiet t (m t).2 → (∀ a t1, m t = (Ok a, t1) → fixed t1 = fixed t → submits good t1 (k a t1).2) →
  submits good t ((m ≫= k) t).2.
Proof.
  intros [F1 S1] Hk. unfold mbind, M_bind. destruct (m t) as [[a|e] t1] eqn:E; cbn in *.
  - destruct (Hk a t1 eq_refl F1) as [F2 S2]. split; [congruence|]. by rewrite <-S1.
  - split; [done|]. by left.
Qed.

Lemma then_quiet {A B} good (m : TM A) (k : A → TM B) t :
  submits good t (m t).2 → (∀ a, keeps quiet (k a)) → submits good t ((m ≫= k) t).2.
Proof.
  intros [F1 S1] Hk. unfold mbind, M_bind. destruct (m t) as [[a|e] t1] eqn:E; cbn in *; [|done].
  destruct (Hk a t1) as [F2 S2]. split; [congruence|]. by rewrite S2.
Qed.

(** A callback is logged, then run. *)
Lemma callback_quiet {A} kind cb lid (p : prog A) :
  cb ≠ CSubmit → keeps quiet (callback_run env json remove_artifacts kind cb lid p).
Proof.
  intros Hcb. unfold callback_run. apply keeps_bind; [apply _| |intros _].
  - intros t. split; [done|]. unfold subs, submissions. cbn. rewrite filter_app.
    rewrite filter_cons_False by done. cbn. apply app_nil_r.
  - apply frame_quiet, run_prog_frame.
Qed.

Lemma callback_submits {A} (good : event → Prop) kind lid (p : prog A) t :
  good (mkEvent CSubmit (t_claim t) (sys_disk (t_sys t) !! lid)) →
  submits good t (callback_run env json remove_artifacts kind CSubmit lid p t).2.
Proof.
  intros Hg. unfold callback_run. apply then_quiet; [|intros _; apply frame_quiet, run_prog_frame].
  split; [done|]. right. eexists. split; [|exact Hg]. unfold subs, submissions. cbn. rewrite filter_app.
  rewrite filter_cons_True by done. done.
Qed.

(** ** Admission *)

Lemma intent_ok (t : Tx W) i t' : intent t = (Ok i, t') → FixedCreateIntent (t_claim t) = Some i ∧ t' = t.
Proof.
  intros H. unfold intent in H. apply M_bind_ok in H as (? & ? & [= <- <-] & H).
  destruct (FixedCreateIntent (t_claim t)); [|done]. injection H as -> ->. done.
Qed.

(** What an admission under a keyed-retry policy records. *)
Lemma admit_submission_ok retry p (t : Tx W) i time sub :
  ad_KeyedRetry p = Some retry → admit_submission retry p t i time = Ok sub →
  s_Key sub ≠ "" ∧ s_Key sub = mlookup (i_Attempt i) (kr_AttemptKey retry) ∧
  (s_Count sub = 1 ∧ t_fresh t = true ∨ s_Count sub = 2).
Proof.
  intros Hr. unfold admit_submission. set (key := mlookup _ _).
  destruct (bool_decide (key = "")) eqn:Hk; [done|]. apply bool_decide_eq_false_1 in Hk.
  destruct (i_Journal i) as [j|] eqn:Hj; [|done]. destruct (j_Submission j) as [sub0|] eqn:Hs.
  - destruct (permits p t i time) eqn:Hp; [|done]. cbn. intros <-%Ok_inj. cbn.
    unfold permits in Hp. rewrite Hr in Hp. destruct (_ || _) in Hp; [done|].
    destruct (t_fresh t && (mlen (i_Attempt i) =? 0)) eqn:Hf.
    { exfalso. apply andb_true_iff in Hf as [_ Hl]. apply Z.eqb_eq in Hl. apply Hk. unfold key, mlookup, mlen in *.
      destruct (i_Attempt i) as [m|]; [|done]. assert (m = ∅) as -> by (apply map_size_empty_iff; lia).
      cbn. by rewrite lookup_empty. }
    rewrite Hj in Hp. cbn in Hp. rewrite Hs in Hp.
    destruct (negb (s_Count sub0 =? 1) || _) eqn:Hc in Hp; [done|].
    apply orb_false_iff in Hc as [Hc Hkey]. guards. apply Z.eqb_eq in Hc.
    fold key in Hkey. split_and!; [congruence|done|]. right. lia.
  - destruct (t_fresh t) eqn:Hf; [|done]. cbn [negb]. set (first := FormatRFC3339Nano time). clearbody first.
    intros <-%Ok_inj. cbn [s_Key s_Count]. split_and!; [done|done|]. by left.
Qed.

(** A keyed-retry policy has no pending key ([AcquireFixedResource]'s checks). *)
Definition keyed_policy (p : FixedAdmission) : Prop :=
  is_Some (ad_KeyedRetry p) → ad_PendingKey p = "".

Lemma set_intent_ok f (t : Tx W) u t' :
  set_intent f t = (Ok u, t') → t' = t <| t_claim := (t_claim t) <| FixedCreateIntent := f <$> FixedCreateIntent (t_claim t) |> |>.
Proof. unfold set_intent, set_claim, modify. by intros [= _ <-]. Qed.

(** A successful [Admit] writes the submission ahead. *)
Lemma Admit_ok p (t : Tx W) u t' :
  t_admission t = Some p → keyed_policy p → Admit env t = (Ok u, t') →
  written_ahead p (t_fresh t) (mkEvent CSubmit (t_claim t') (sys_disk (t_sys t') !! t_leaseID t)).
Proof.
  intros Hp Hkp H. unfold Admit in H. apply M_bind_ok in H as (? & ? & [= <- <-] & H). cbn [id] in H.
  apply M_bind_ok in H as (i & ? & H1 & H). apply intent_ok in H1 as [Hi ->]. rewrite Hp in H. cbn in H.
  apply M_bind_ok in H as ([] & t1 & H1 & H). apply M_bind_ok in H as ([] & t2 & H2 & H).
  pose proof (RecordPhase_ok env "submitting" t2 u t' H) as (i2 & Hi2 & Hsub & Hi' & Hid & _ & _ & _ & Hd).
  specialize (Hsub eq_refl) as [Hst Hatt].
  assert (frame t t2) as [Hpar _].
  { etrans.
    - match type of H1 with ?m _ = _ => assert (keeps frame m) as K by (unfold now; frame_steps) end.
      specialize (K t). rewrite H1 in K. exact K.
    - match type of H2 with ?m _ = _ => assert (keeps frame m) as K by frame_steps end.
      specialize (K t1). rewrite H2 in K. exact K. }
  unfold parameters in Hpar. injection Hpar as _ Hl _ _ _ _ _ _. rewrite Hl in Hd.
  exists (i2 <| i_Journal := Some (next_journal t2 i2 (stored_phase i2 "submitting")) |>), (next_journal t2 i2 "submitting").
  cbn [ev_file ev_claim]. rewrite Hd, lookup_insert_eq. split_and!; try done.
  - cbn. unfold stored_phase. rewrite andb_false_r. reflexivity.
  - unfold next_journal. by destruct (i_Journal i2).
  - intros retry Hr. rewrite Hr in H1. rewrite (Hkp ltac:(by rewrite Hr)) in H2. cbn in H2. injection H2 as <-.
    apply M_bind_ok in H1 as (time & t0 & H0 & H1). apply sys_inv in H0 as [-> _].
    apply M_bind_ok in H1 as (sub & ? & H0 & H1). unfold lift in H0.
    destruct (admit_submission _ _ _ _ _) as [sub'|] eqn:Ha; [|done]. injection H0 as -> <-.
    apply set_intent_ok in H1 as ->. cbn in Hi2. rewrite Hi in Hi2. cbn in Hi2. injection Hi2 as <-.
    assert (is_Some (i_Journal i)) as [j Hj].
    { unfold admit_submission in Ha. destruct (bool_decide _); [done|]. destruct (i_Journal i); [by eexists|done]. }
    apply (admit_submission_ok _ _ _ _ _ _ Hr) in Ha. exists sub. unfold next_journal. cbn. rewrite Hj. cbn.
    split; [done|]. exact Ha.
Qed.

(** ** Submission *)
Local Abbreviation Submit_resource := (submit_resource (T:=T) env json remove_artifacts other_claims rejection_settled ctx).

(** Steps that only read the clock or the context. *)
Definition still (t t' : Tx W) : Prop :=
  t_claim t' = t_claim t ∧ sys_disk (t_sys t') = sys_disk (t_sys t) ∧ parameters t' = parameters t ∧
  t_detached t' = t_detached t.
#[export] Instance still_preorder : PreOrder still.
Proof. split; [done|]. intros x y z (A1 & B1 & C1 & D1) (A2 & B2 & C2 & D2). split_and!; congruence. Qed.
Lemma still_quiet t t' : still t t' → quiet t t'.
Proof.
  intros (_ & _ & P & _). unfold parameters in P. injection P as P1 P2 P3 P4 P5 P6 P7 P8.
  split; unfold fixed, subs; congruence.
Qed.

Lemma interact_still {A} (f : nat → A) : keeps still (sys (interact f)).
Proof. by intros t. Qed.
Lemma intent_still : keeps still intent.
Proof.
  unfold intent. apply keeps_bind; [apply _|apply keeps_gets, _|intros c].
  destruct (FixedCreateIntent c); [apply keeps_ret|apply keeps_fail]; apply _.
Qed.
Lemma ctx_check_still : keeps still (ctx_check ctx).
Proof.
  unfold ctx_check. apply keeps_bind; [apply _|apply interact_still|intros [e|]];
    [apply keeps_fail|apply keeps_ret]; apply _.
Qed.
Lemma keyed_window_still p : keeps still (keyed_window env p).
Proof.
  unfold keyed_window, now. destruct (ad_KeyedRetry p); [|apply keeps_ret, _].
  apply keeps_bind; [apply _|apply intent_still|intros i].
  apply keeps_bind; [apply _|apply interact_still|intros time].
  destruct (i_Journal i ≫= j_Submission); [apply keeps_ensure|apply keeps_fail]; apply _.
Qed.

Lemma prepare_attempt_quiet ops : keeps quiet (prepare_attempt (T:=T) env json other_claims ctx ops).
Proof.
  unfold prepare_attempt. apply keeps_bind; [apply _|apply frame_quiet, intent_frame|intros i].
  apply keeps_bind; [apply _| |intros _].
  - destruct (op_Plan ops) as [plan|]; [|apply keeps_ret, _]. destruct (_ =? _); [|apply keeps_ret, _].
    apply keeps_bind; [apply _|apply frame_quiet, claim_frame|intros c].
    apply keeps_bind; [apply _| |intros _].
    { intros t. split; [done|]. unfold subs, submissions. cbn. rewrite filter_app.
      rewrite filter_cons_False by done. cbn. apply app_nil_r. }
    apply keeps_bind; [apply _|apply frame_quiet, sys_frame|intros pl].
    apply keeps_bind; [apply _| |intros _; apply frame_quiet, plan_attempt_frame].
    eapply keeps_weaken; [apply ctx_check_still|apply still_quiet].
  - apply frame_quiet. frame_steps.
Qed.

Lemma reservation_quiet key (m : TM ()) : keeps quiet m → keeps quiet (withFixedPlanReservation env key m).
Proof.
  intros Hm. unfold withFixedPlanReservation. destruct (key =s ""); [done|].
  apply keeps_bind; [apply _|apply frame_quiet; frame_steps|done].
Qed.

Lemma finish_acquisition_quiet kind lid ops (access : T → @prog W LeaseTarget) resource :
  keeps quiet (finish_acquisition env json remove_artifacts kind lid ops access resource).
Proof.
  unfold finish_acquisition. apply keeps_bind; [apply _|apply frame_quiet; frame_steps|intros _].
  apply keeps_bind; [apply _|by apply callback_quiet|intros lease]. apply frame_quiet. frame_steps.
Qed.

Lemma submit_resource_submits kind lid ops p fresh submit access canSubmit t :
  t_admission t = Some p → t_leaseID t = lid → t_fresh t = fresh →
  keyed_policy p → op_DeferredAdmission ops = false →
  submits (written_ahead p fresh) t (Submit_resource kind lid ops p submit access canSubmit t).2.
Proof.
  intros Hp Hl Hfr Hk Hd. unfold submit_resource.
  apply quiet_then; [apply frame_quiet, sys_frame|]. intros time t1 _ F1.
  apply quiet_then; [done|]. intros t0 ? [= <- <-] _.
  apply quiet_then; [apply frame_quiet, intent_frame|]. intros i ? E _. apply intent_ok in E as [_ ->].
  apply quiet_then; [apply keeps_ensure, _|]. intros [] ? E _. apply ensure_ok in E as [_ ->].
  unfold settling. apply quiet_then.
  { apply (keeps_attempt quiet), reservation_quiet, prepare_attempt_quiet. }
  intros r t2 _ F2. destruct r as [[]|e]; [|apply quiet_submits, frame_quiet, settle_frame].
  rewrite Hd. cbn [negb]. apply quiet_then; [apply frame_quiet, Admit_frame|]. intros [] t3 E3 F3.
  assert (fixed t2 = fixed t) as F by congruence. unfold fixed in F. injection F as G1 G2 G3 _ _.
  pose proof (Admit_ok p t2 () t3 ltac:(congruence) Hk E3) as Hw. rewrite G1, G3, Hl, Hfr in Hw.
  apply quiet_then; [apply still_quiet, keyed_window_still|]. intros [] t4 E4 _.
  pose proof (keyed_window_still p t3) as S4. rewrite E4 in S4.
  apply quiet_then; [apply still_quiet, ctx_check_still|]. intros [] t5 E5 _.
  pose proof (ctx_check_still t4) as S5. rewrite E5 in S5. cbn in S4, S5.
  destruct S4 as (C4 & D4 & _), S5 as (C5 & D5 & _).
  apply then_quiet.
  - unfold attempt. pose proof (callback_submits (written_ahead p fresh) kind lid submit t5) as H.
    rewrite C5, C4, D5, D4 in H. specialize (H Hw). destruct (callback_run _ _ _ _ _ _ _ t5). exact H.
  - intros [resource|e]; [|apply frame_quiet, settle_frame].
    apply keeps_bind; [apply _|apply frame_quiet, intent_frame|intros i'].
    apply keeps_bind; [apply _|apply keeps_ensure, _|intros _]. apply finish_acquisition_quiet.
Qed.

(** ** Acquisition *)
Local Abbreviation Acquire_resource := (acquire_resource (T:=T) env json remove_artifacts other_claims rejection_settled ctx).

(** A claim that already names a resource. *)
Definition bound (c : LeaseClaim) : Prop := CloudID c ≠ "" ∨ CloudNumericID c ≠ 0 ∨ CloudImmutableID c ≠ "".

Lemma bound_evolves c c' : evolves c c' → bound c → bound c'.
Proof.
  intros (_ & H1 & H2 & H3 & _) [H|[H|H]]; unfold bound.
  - left. by rewrite (H1 H).
  - right; left. by rewrite (H3 H).
  - right; right. by rewrite (H2 H).
Qed.

(** A policy that only submits for a lease that had no claim. *)
Definition fresh_only (p : FixedAdmission) : Prop :=
  ad_FreshOnly p = true ∧ ad_KeyedRetry p = None ∧ ad_RepeatSameIdentity p = false.

Lemma submit_resource_denied kind lid ops p submit access canSubmit t :
  fresh_only p ∧ t_fresh t = false ∨ bound (t_claim t) →
  quiet t (Submit_resource kind lid ops p submit access canSubmit t).2.
Proof.
  intros Hno. unfold submit_resource.
  apply bind_at; [apply _|apply frame_quiet, sys_frame|]. intros time t1 E1. apply sys_inv in E1 as [-> _].
  apply bind_at; [apply _|done|]. intros t0 ? [= <- <-].
  apply bind_at; [apply _|apply frame_quiet, intent_frame|]. intros i ? E. apply intent_ok in E as [_ ->].
  apply bind_at; [apply _|apply keeps_ensure, _|]. intros [] ? E. apply ensure_ok in E as [E _]. exfalso.
  apply negb_true_iff in E. rewrite !orb_false_iff in E. cbn in E. destruct E as [[[[[_ Hp] _] H1] H2] H3].
  guards. apply Z.eqb_eq in H2. destruct Hno as [[(F1 & F2 & F3) Hf]|[H|[H|H]]]; try done.
  unfold permits in Hp. rewrite F1, F2, F3 in Hp. cbn in Hp. by rewrite Hf in Hp.
Qed.

(** The transaction [newFixedTransaction] opens. *)
Lemma new_transaction_ok fresh admission (t : Tx W) u t' :
  newFixedTransaction fresh admission t = (Ok u, t') →
  subs t' = subs t ∧ t_claim t' = t_claim t ∧ t_sys t' = t_sys t ∧ t_detached t' = t_detached t ∧
  t_admission t' = admission ∧ t_leaseID t' = LeaseID (t_claim t) ∧ t_fresh t' = fresh ∧
  t_readonly t' = t_readonly t ∧
  ∃ i, FixedCreateIntent (t_claim t) = Some i ∧
    t_initialUnallocated t' = ((i_State i =s "prepared") && (mlen (i_Attempt i) =? 0) && (CloudID (t_claim t) =s "") &&
                               (CloudNumericID (t_claim t) =? 0) && (CloudImmutableID (t_claim t) =s "")).
Proof.
  intros H. unfold newFixedTransaction in H. apply M_bind_ok in H as ([] & ? & H1 & H). apply validate_ok in H1 as [_ ->].
  apply M_bind_ok in H as (? & ? & [= <- <-] & H). apply M_bind_ok in H as (i & ? & H1 & H).
  apply intent_ok in H1 as [Hi ->]. apply (f_equal snd) in H. unfold modify in H. cbn [snd] in H. subst t'.
  split_and!; try reflexivity. exists i. by split.
Qed.

Definition same_subs (t t' : Tx W) : Prop := subs t' = subs t.
#[export] Instance same_subs_preorder : PreOrder same_subs.
Proof. split; [done|]. intros x y z. unfold same_subs. congruence. Qed.
Lemma frame_subs {A} (m : TM A) : keeps frame m → keeps same_subs m.
Proof. intros H. eapply keeps_weaken; [by apply frame_quiet|]. by intros t t' [_ S]. Qed.

Lemma new_transaction_subs fresh admission : keeps same_subs (newFixedTransaction fresh admission : TM ()).
Proof.
  unfold newFixedTransaction. apply keeps_bind; [apply _|apply frame_subs, validate_frame|intros _].
  apply keeps_bind; [apply _|apply frame_subs, claim_frame|intros c].
  apply keeps_bind; [apply _|apply frame_subs, intent_frame|intros i]. by intros t.
Qed.

(** What an acquisition may add to the log. *)
Definition adds (good : event → Prop) (l l' : list event) : Prop :=
  l' = l ∨ ∃ e, l' = (l ++ [e])%list ∧ good e.

Lemma submits_adds good t t' : submits good t t' → adds good (subs t) (subs t').
Proof. by intros [_ H]. Qed.
Lemma quiet_adds good t t' : quiet t t' → adds good (subs t) (subs t').
Proof. intros [_ H]. by left. Qed.

Lemma adds_bind {A B} good (m : TM A) (k : A → TM B) t :
  same_subs t (m t).2 → (∀ a t1, m t = (Ok a, t1) → adds good (subs t1) (subs (k a t1).2)) →
  adds good (subs t) (subs ((m ≫= k) t).2).
Proof.
  unfold same_subs, mbind, M_bind. intros Hm Hk. destruct (m t) as [[a|e] t1] eqn:E; cbn in *.
  - rewrite <-Hm. by apply Hk.
  - by left.
Qed.

Lemma adds_then {A B} good (m : TM A) (k : A → TM B) t :
  adds good (subs t) (subs (m t).2) → (∀ a, keeps same_subs (k a)) →
  adds good (subs t) (subs ((m ≫= k) t).2).
Proof.
  unfold mbind, M_bind. intros Hm Hk. destruct (m t) as [[a|e] t1] eqn:E; cbn in *; [|done].
  specialize (Hk a t1). unfold same_subs in Hk. by rewrite Hk.
Qed.

(** The transaction as the adapter's observation leaves it. *)
Lemma acquire_resource_adds good lid0 opts ops fresh p observe submit access t :
  (∀ lid t1 canSubmit,
     t_admission t1 = Some p → t_leaseID t1 = lid → t_fresh t1 = fresh →
     (anchored lid0 t → evolves (t_claim t) (t_claim t1)) →
     submits good t1 (Submit_resource (ao_Kind opts) lid ops p submit access canSubmit t1).2) →
  adds good (subs t) (subs (Acquire_resource opts ops fresh p observe submit access t).2).
Proof.
  intros Hsub. unfold acquire_resource, acquire_observed. apply adds_bind; [apply new_transaction_subs|].
  intros [] t1 E1. apply new_transaction_ok in E1 as (_ & Hc & Hs & _ & Hp & Hl & Hf & _).
  apply adds_bind; [done|]. intros ? ? [= <- <-]. rewrite <-Hc in Hl.
  apply adds_bind.
  { eapply (keeps_attempt same_subs), keeps_weaken; [by apply callback_quiet|by intros ? ? [_ ?]]. }
  intros r t2 E2.
  assert (quiet t1 t2 ∧ (anchored lid0 t → evolves (t_claim t) (t_claim t2))) as [[F2 _] Hev].
  { unfold attempt in E2. destruct (callback_run _ _ _ _ _ _ _ t1) as [r0 t0] eqn:E0. injection E2 as _ <-. split.
    - pose proof (callback_quiet (ao_Kind opts) CObserve (LeaseID (t_claim t1)) (observe ObserveAcquire) ltac:(done) t1) as K.
      rewrite E0 in K. exact K.
    - intros Ha. unfold callback_run, mbind, M_bind, modify in E0. rewrite <-Hc.
      set (t1' := t1 <| t_log := _ |>) in E0.
      pose proof (run_prog_retained env json remove_artifacts lid0 (ao_Kind opts)
                    (observe ObserveAcquire) t1') as K.
      rewrite E0 in K. apply K. intros c Hc0. cbn. rewrite Hc. apply Ha. unfold file_of in *. cbn in Hc0. by rewrite <-Hs. }
  destruct r as [ob|e].
  2: { apply quiet_adds, frame_quiet, settle_frame. }
  apply adds_bind; [by apply keeps_lift, _|]. intros [] ? E. assert (t0 = t2) as -> by (by injection E).
  assert (adds good (subs t2) (subs (Submit_resource (ao_Kind opts) (LeaseID (t_claim t1)) ops p submit access (ob_CanSubmit ob) t2).2)) as Hs2.
  { unfold fixed in F2. injection F2 as G1 G2 G3 _ _. apply submits_adds, Hsub; [congruence..|exact Hev]. }
  destruct (ob_Candidates ob) as [|resource [|? ?]]; [exact Hs2| |exact Hs2].
  apply (quiet_adds good). apply bind_at; [apply _| |intros; apply finish_acquisition_quiet].
  apply frame_quiet. frame_steps.
Qed.

(** Steps before the adapter is asked: an existing claim is not changed. *)
Definition opening (exists_ : bool) (t t' : Tx W) : Prop :=
  subs t' = subs t ∧ (exists_ = true → still t t').
#[export] Instance opening_preorder b : PreOrder (opening b).
Proof.
  split; [by split|]. intros x y z [S1 H1] [S2 H2]. split; [congruence|]. intros Hb. etrans; [by apply H1|by apply H2].
Qed.

Lemma still_opening {A} b (m : TM A) : keeps still m → keeps (opening b) m.
Proof.
  intros H. eapply keeps_weaken; [exact H|]. intros t t' S. split; [|done]. by apply still_quiet.
Qed.

Lemma opening_bind {A B} good b (m : TM A) (k : A → TM B) t0 t :
  keeps (opening b) m → opening b t0 t →
  (∀ a t1, opening b t0 t1 → adds good (subs t0) (subs (k a t1).2)) →
  adds good (subs t0) (subs ((m ≫= k) t).2).
Proof.
  intros Hm H0 Hk. assert (opening b t0 (m t).2) as H1 by (etrans; [exact H0|apply Hm]).
  unfold mbind, M_bind. destruct (m t) as [[a|e] t1]; [by apply Hk|]. destruct H1 as [H1 _]. by left.
Qed.

Lemma outside_still {A} (m : M W A) : keeps still (sys (outside m)).
Proof. intros t. unfold sys, outside. by destruct (m _). Qed.

Lemma write_intent_opening b opts binding c :
  keeps (opening b)
    (if b then lift (check_existing opts binding c)
     else current ← now env;
          c ← lift (initial_claim opts binding current c);
          set_claim (λ _, c);;
          persist env (ao_LeaseID opts)).
Proof.
  destruct b; [by apply keeps_lift, _|]. intros t. split; [|done].
  apply (bind_at same_subs); [apply frame_subs, sys_frame|]. intros time t1 _.
  apply (bind_at same_subs); [done|]. intros c1 t2 _.
  apply (bind_at same_subs); [done|]. intros [] t3 _. apply frame_subs, persist_frame.
Qed.

Lemma set_held_intent_subs f : keeps same_subs (set_held_intent f : TM ()).
Proof.
  unfold set_held_intent. apply keeps_bind; [apply _|by apply keeps_gets, _|intros t0].
  destruct (t_detached t0); by intros t.
Qed.

Lemma intent_body_adds {A} good opts prepare (acquire : TM A) exists_ t :
  (∀ t1, opening exists_ t t1 → adds good (subs t) (subs (acquire t1).2)) →
  adds good (subs t) (subs (acquire_intent_body env slug_claims opts prepare acquire exists_ t).2).
Proof.
  intros Hacq. unfold acquire_intent_body.
  apply (opening_bind good exists_); [by apply keeps_gets, _|reflexivity|]. intros c t1 H1.
  apply (opening_bind good exists_); [by apply keeps_lift, _|done|]. intros _ t2 H2.
  apply (opening_bind good exists_); [apply still_opening, outside_still|done|]. intros b t3 H3.
  apply (opening_bind good exists_); [by apply keeps_lift, _|done|]. intros b' t4 H4.
  apply (opening_bind good exists_); [apply write_intent_opening|done|]. intros _ t5 H5.
  apply (opening_bind good exists_); [apply still_opening, intent_still|done|]. intros i t6 H6.
  apply (opening_bind good exists_); [by apply keeps_ensure, _|done|]. intros _ t7 H7.
  destruct (ParseRFC3339 (i_CreatedAt i)) as [created|]; [|left; apply H7].
  apply (opening_bind good exists_); [apply still_opening, interact_still|done|]. intros current t8 H8.
  apply (opening_bind good exists_); [by apply keeps_ensure, _|done|]. intros _ t9 H9.
  specialize (Hacq t9 H9). rewrite <-(proj1 H9) in Hacq |- *. apply adds_then; [exact Hacq|]. intros a.
  apply keeps_bind; [apply _|apply frame_subs, sys_frame|intros finished].
  apply keeps_bind; [apply _|by intros t'|intros _].
  do 2 (apply keeps_bind; [apply _|apply set_held_intent_subs|intros _]).
  apply keeps_bind; [apply _|apply frame_subs, persist_frame|intros _].
  apply keeps_bind; [apply _|apply frame_subs, claim_frame|intros c']. apply keeps_ret, _.
Qed.

(** ** The lock session *)

Lemma open_claim_untouched lid : keeps (@untouched W) (open_claim env lid).
Proof.
  unfold open_claim, withLeaseClaimLock, claim_directories, fail_with.
  assert (∀ s, PreOrder (@untouched W)) as K by apply _.
  apply keeps_bind; [apply _|by apply keeps_ensure, _|intros _].
  do 2 (apply keeps_bind; [apply _|apply keeps_bind; [apply _|by intros s|]; intros [e|]; [apply keeps_fail|apply keeps_ret]; apply _|intros _]).
  apply keeps_bind; [apply _|by intros s|intros e].
  apply keeps_bind; [apply _|destruct e; [apply keeps_fail|apply keeps_ret]; apply _|intros _].
  apply keeps_bind; [apply _|apply read_keeps|intros [c ex]].
  apply keeps_bind; [apply _|by apply keeps_lift, _|intros _]. apply keeps_ret, _.
Qed.

Lemma open_claim_disk lid : keeps (@same_disk W) (open_claim env lid).
Proof. eapply keeps_weaken; [apply open_claim_untouched|apply untouched_same_disk]. Qed.

Lemma open_claim_ok lid (s : Sys W) c ex s1 :
  open_claim env lid s = (Ok (c, ex), s1) →
  sys_disk s1 = sys_disk s ∧
  (ex = true → sys_disk s !! lid = Some (Stored c) ∧ (LeaseID c = "" ∨ LeaseID c = lid)) ∧
  (ex = false → sys_disk s !! lid = None).
Proof.
  intros H. pose proof (open_claim_disk lid s) as Hd. rewrite H in Hd. cbn in Hd. split; [done|].
  unfold open_claim, withLeaseClaimLock in H.
  apply M_bind_ok in H as (? & s2 & H1 & H). apply ensure_ok in H1 as [_ ->].
  apply M_bind_ok in H as (? & s3 & H1 & H). apply M_bind_ok in H as (? & s4 & H2 & H).
  apply M_bind_ok in H as (? & s5 & H3 & H). apply M_bind_ok in H as (? & s6 & H4 & H).
  apply M_bind_ok in H as ([c0 ex0] & s7 & H5 & H). apply read_stored in H5 as [-> H5].
  apply M_bind_ok in H as ([] & s8 & H6 & H). injection H as -> -> ->.
  unfold lift in H6. injection H6 as H6 <-. apply reject_if_ok in H6. unfold same_disk, on_disk in *.
  rewrite Hd in H5. split; intros ->; [|done]. split; [done|]. cbn in H6. apply andb_false_iff in H6 as [H6|H6]; guards; auto.
Qed.

(** Taking the lock leaves the claim files alone, and the session starts from
    the file of the lease. *)
Lemma lock_inv {A} lid started (action : bool → TM A) s r s' log st tm :
  WithDurableLeaseClaimLock env lid started action s = (r, s', log, st, tm) →
  (log = [] ∧ sys_disk s' = sys_disk s ∧ (∃ e, r = Err e) ∧ st = started ∧ tm = false) ∨
  ∃ c exists_ s1 t', sys_disk s1 = sys_disk s ∧
    action exists_ (open_session c s1 started false) = (r, t') ∧
    s' = t_sys t' ∧ log = t_log t' ∧ st = t_started t' ∧ tm = t_terminal t' ∧
    (exists_ = true → sys_disk s !! lid = Some (Stored c)) ∧ (exists_ = false → sys_disk s !! lid = None) ∧
    (exists_ = true → LeaseID c = "" ∨ LeaseID c = lid).
Proof.
  unfold WithDurableLeaseClaimLock. destruct (open_claim env lid s) as [[[c ex]|e] s1] eqn:E.
  - destruct (action ex _) as [r0 t'] eqn:Ea. intros [= <- <- <- <- <-]. right. exists c, ex, s1, t'.
    apply open_claim_ok in E as (Hd & H1 & H2). split_and!; try done; intros ->; by apply H1.
  - intros [= <- <- <- <- <-]. left. split_and!; try done; [|by eexists].
    pose proof (open_claim_disk lid s) as H. by rewrite E in H.
Qed.

(** ** Acquisitions from the store *)
Local Abbreviation Acquire :=
  (AcquireFixedResource (T:=T) env json remove_artifacts other_claims rejection_settled ctx slug_claims).

Lemma record_lease_subs opts lease : keeps same_subs (record_lease opts lease : TM ()).
Proof.
  unfold record_lease, held_intent. apply keeps_bind; [apply _| |intros i].
  { apply keeps_bind; [apply _|by apply keeps_gets, _|intros t0].
    destruct (t_detached t0); [apply keeps_ret, _|apply frame_subs, intent_frame]. }
  do 2 (apply keeps_bind; [apply _|by intros t|intros _]). by intros t.
Qed.

(** The options of [AcquireFixedResource], with the journal on. *)
Definition journalled (opts : FixedAcquireOptions) : FixedAcquireOptions :=
  mkOptions (ao_Retention opts) (ao_Kind opts) (ao_LeaseID opts) (ao_CheckpointID opts)
    (ao_RepoRoot opts) (ao_LegacyRepoRoot opts) (ao_Reclaim opts) (ao_TargetOS opts)
    (ao_WindowsMode opts) (ao_TTL opts) (ao_IdleTimeout opts) true.

(** An acquisition either stops before its session, without touching a claim
    file, or runs its session from the file of the lease. *)
Lemma acquire_inv opts ops s r s' log :
  Acquire opts ops s = (r, s', log) →
  (log = [] ∧ sys_disk s' = sys_disk s ∧ ∃ e, r = Err e) ∨
  ∃ p describe observe submit access c exists_ s1 t' r',
    op_Admission ops = Some p ∧ valid_operations ops = Ok () ∧
    sys_disk s1 = sys_disk s ∧
    acquire_intent_body env slug_claims (journalled opts)
      (λ c exists_, lift (usable_journal c exists_);; describe c exists_)
      (lease ← Acquire_resource (journalled opts) ops (negb exists_) p observe submit access;
       record_lease (journalled opts) lease;; mret lease) exists_ (open_session c s1 false false) = (r', t') ∧
    s' = t_sys t' ∧ log = t_log t' ∧ (∀ e, r' = Err e → r = Err e) ∧
    (exists_ = true → sys_disk s !! ao_LeaseID opts = Some (Stored c)) ∧
    (exists_ = false → sys_disk s !! ao_LeaseID opts = None) ∧
    (exists_ = true → LeaseID c = "" ∨ LeaseID c = ao_LeaseID opts).
Proof.
  unfold AcquireFixedResource. destruct (valid_operations ops) as [[]|e] eqn:Hv.
  2: { intros [= <- <- <-]. left. split_and!; try done. by eexists. }
  destruct (op_Admission ops) as [p|], (op_DescribeIntent ops) as [describe|], (op_ObserveExact ops) as [observe|],
    (op_Submit ops) as [submit|], (op_PrepareAccess ops) as [access|];
    try (intros [= <- <- <-]; left; split_and!; try done; by eexists).
  fold (journalled opts). unfold AcquireFixedLease, AcquireFixedIntent. cbn [ao_journal ao_Retention journalled negb].
  rewrite andb_false_r.
  destruct (WithDurableLeaseClaimLock _ _ _ _ _) as [[[[r0 s0] log0] st] tm] eqn:E.
  intros H. apply lock_inv in E as [(-> & Hd & [e ->] & _)|(c & ex & s1 & t' & Hd & Hb & -> & -> & _ & _ & H1 & H2 & H3)].
  - injection H as <- <- <-. left. split_and!; try done. by eexists.
  - right. exists p, describe, observe, submit, access, c, ex, s1, t', r0.
    injection H as Hr <- <-. split_and!; try done. by intros e ->.
Qed.

Lemma acquire_adds good opts ops s r s' log :
  Acquire opts ops s = (r, s', log) →
  (∀ p t1 lid submit access canSubmit, op_Admission ops = Some p → valid_operations ops = Ok () →
     t_admission t1 = Some p → t_leaseID t1 = lid → t_fresh t1 = bool_decide (sys_disk s !! ao_LeaseID opts = None) →
     (∀ c, sys_disk s !! ao_LeaseID opts = Some (Stored c) → evolves c (t_claim t1)) →
     submits good t1 (Submit_resource (ao_Kind opts) lid ops p submit access canSubmit t1).2) →
  submissions log = [] ∨ ∃ e, submissions log = [e] ∧ good e.
Proof.
  intros H Hgood. apply acquire_inv in H
    as [(-> & _ & _)|(p & describe & observe & submit & access & c & ex & s1 & t' & r' & Hp & Hv & Hd & Hb & -> & -> & _ & H1 & H2 & H3)];
    [by left|].
  pose proof (intent_body_adds good (journalled opts) (λ c exists_, lift (usable_journal c exists_);; describe c exists_)
    (lease ← Acquire_resource (journalled opts) ops (negb ex) p observe submit access;
       record_lease (journalled opts) lease;; mret lease) ex (open_session c s1 false false)) as K.
  rewrite Hb in K. change (subs (open_session c s1 false false)) with (@nil event) in K. cbn [app] in K.
  apply K. clear K Hb. intros t1 [Hs Hst]. change (subs (open_session c s1 false false)) with (@nil event) in Hs.
  rewrite <-Hs at 1. apply adds_then.
  2: { intros lease. apply keeps_bind; [apply _|apply record_lease_subs|intros _]. apply keeps_ret, _. }
  apply (acquire_resource_adds good (ao_LeaseID opts)). intros lid t2 canSubmit Hp2 Hl2 Hf2 Hev.
  apply (Hgood p); try done.
  - rewrite Hf2. destruct ex; cbn.
    + rewrite bool_decide_eq_false_2; [done|]. by rewrite (H1 eq_refl).
    + by rewrite bool_decide_eq_true_2 by auto.
  - intros c1 Hfile. destruct ex; [|by rewrite (H2 eq_refl) in Hfile].
    rewrite (H1 eq_refl) in Hfile. apply stored_inj in Hfile as <-.
    destruct (Hst eq_refl) as (Hc & Hdk & _). cbn in Hc, Hdk. rewrite Hc in Hev. apply Hev.
    intros c0 Hc0. unfold file_of in Hc0. rewrite Hdk, Hd in Hc0. rewrite Hc, (stored_inj c0 c) by (by rewrite <-Hc0, <-(H1 eq_refl)).
    reflexivity.
Qed.

(** C1. Submissions are written ahead.  Whatever the adapter does and whatever
    fails, one acquisition calls the adapter's [Submit] at most once, and (when
    admission is not deferred to the adapter) at that moment the claim file on
    disk holds the claim in memory with its journal in phase [submitting], its
    intent prepared and its native attempt recorded.  Under a keyed-retry
    policy the file also holds the key of the attempt and that this is the
    first submission, of a lease that had no claim, or the second one. *)
Theorem submission_written_ahead opts ops s r s' log :
  Acquire opts ops s = (r, s', log) → op_DeferredAdmission ops = false →
  submissions log = [] ∨
  ∃ e p, submissions log = [e] ∧ op_Admission ops = Some p ∧
    written_ahead p (bool_decide (sys_disk s !! ao_LeaseID opts = None)) e.
Proof.
  intros H Hdef. set (fresh := bool_decide _).
  destruct (acquire_adds (λ e, ∃ p, op_Admission ops = Some p ∧ written_ahead p fresh e) _ _ _ _ _ _ H)
    as [?|(e & He & p & Hp & Hw)]; [|by left|right; by exists e, p].
  intros p t1 lid submit access canSubmit Hp Hv Hadm Hlid Hfr _.
  assert (keyed_policy p) as Hk.
  { unfold valid_operations in Hv. res_steps. rewrite Hp in *. intros [retry Hr]. rewrite Hr in *.
    match goal with H : reject_if _ _ = Ok _ |- _ => apply reject_if_ok in H end. guards. done. }
  pose proof (submit_resource_submits (ao_Kind opts) lid ops p fresh submit access canSubmit t1 Hadm Hlid Hfr Hk Hdef)
    as [HF HS]. split; [exact HF|]. destruct HS as [HS|(e & HS & Hw)]; [by left|]. right. exists e. by eauto.
Qed.

(** C2. No resubmission.  When the lease already has a claim that names a
    resource (a cloud, numeric or immutable ID), or has any claim file at all
    under a fresh-only policy, no acquisition calls the adapter's [Submit]. *)
Theorem no_resubmission opts ops p c s r s' log :
  Acquire opts ops s = (r, s', log) → op_Admission ops = Some p →
  sys_disk s !! ao_LeaseID opts = Some (Stored c) → bound c ∨ fresh_only p →
  submissions log = [].
Proof.
  intros H Hp Hfile Hor.
  destruct (acquire_adds (λ _, False) _ _ _ _ _ _ H) as [?|(e & _ & [])]; [|done].
  intros p' t1 lid submit access canSubmit Hp' Hv Hadm Hlid Hfr Hev.
  apply quiet_submits, submit_resource_denied. rewrite Hp' in Hp. injection Hp as ->.
  destruct Hor as [Hb|Hf].
  - right. eapply bound_evolves; [by apply Hev|exact Hb].
  - left. split; [done|]. rewrite Hfr. by apply bool_decide_eq_false_2; rewrite Hfile.
Qed.
End acquisition.

(** ** A concrete provider *)

Definition demo_kind : FixedLeaseKind := sample_kind.
Definition demo_options : FixedAcquireOptions :=
  mkOptions None demo_kind "cbx_0123456789ab" "" "/repo" "" false "linux" "" (3600 * Second) (600 * Second) false.
Definition demo_admission : FixedAdmission := mkAdmission None true false "" "" "".
Definition demo_binding (id : string) : FixedResourceBinding :=
  mkBinding None None "" false "" id "" 0 "" None None "".
Definition demo_plan : FixedAttemptPlan :=
  mkPlan "" None "" [] None "" None 0 (Some {["token" := "t1"]}) "" false "" None None "" "" (demo_binding "").
Definition demo_server (id : string) : Server := mkServer id "aws" "" 0 "" "running" None None empty_claim false false.
(** The provider's world is the list of the resources it created. *)
Definition demo_operations (admission : FixedAdmission) : FixedLeaseOperations (W := list string) (T := string) :=
  mkOperations None "" false (Some admission) (Some (λ _, mret demo_plan)) (Some demo_binding) false
    (Some (λ _ _, mret (mkLeaseBinding None false false "" [] "scope" "fp" "box")))
    (Some (λ _, Native _ id (λ world, Return _ (Ok (mkObservation None world true (bool_decide (world = [])) "")))))
    (Some (Native _ (λ world, "i-1" :: world) (λ _, Return _ (Ok "i-1"))))
    (Some (λ id, Return _ (Ok (mkTarget (demo_server id) (lt_SSH empty_target) "cbx_0123456789ab"))))
    (Some (λ _, Native _ (λ _, []) (λ _, Return _ (Ok ())))).

Definition demo_acquire (s : Sys (list string)) :=
  AcquireFixedResource calm no_json (λ _, mret ()) (λ _, Ok []) (λ _, None) (λ _, None) (λ _ _, Ok false)
    demo_options (demo_operations demo_admission) s.
Definition demo_empty : Sys (list string) := mkSys ∅ 0 [].
(** The store after a first acquisition. *)
Definition demo_acquired : Sys (list string) := (demo_acquire demo_empty).1.2.
Definition stored_claim {W} (s : Sys W) (id : string) : LeaseClaim :=
  match sys_disk s !! id with Some (Stored c) => c | _ => empty_claim end.
Definition demo_claim : LeaseClaim := stored_claim demo_acquired "cbx_0123456789ab".

Lemma demo_claim_stored : sys_disk demo_acquired !! "cbx_0123456789ab" = Some (Stored demo_claim).
Proof. vm_compute. reflexivity. Qed.

Lemma triple_eta {A B C} (x : A * B * C) : x = (x.1.1, x.1.2, x.2).
Proof. by destruct x as [[? ?] ?]. Qed.

Lemma written_ahead_witness :
  ∃ e p, submissions (demo_acquire demo_empty).2 = [e] ∧ op_Admission (demo_operations demo_admission) = Some p ∧
    written_ahead p true e.
Proof.
  assert (submissions (demo_acquire demo_empty).2 ≠ []) as Hne by (vm_compute; discriminate).
  unfold demo_acquire in *.
  destruct (submission_written_ahead calm no_json (λ _, mret ()) (λ _, Ok []) (λ _, None) (λ _, None) (λ _ _, Ok false)
    demo_options (demo_operations demo_admission) demo_empty _ _ _ (triple_eta _) eq_refl)
    as [H|H]; [destruct (Hne H)|exact H].
Defined.

Lemma no_resubmission_witness : bound demo_claim ∧ submissions (demo_acquire demo_acquired).2 = [].
Proof.
  assert (bound demo_claim) as Hb by (left; vm_compute; discriminate). split; [exact Hb|].
  unfold demo_acquire.
  exact (no_resubmission calm no_json (λ _, mret ()) (λ _, Ok []) (λ _, None) (λ _, None) (λ _ _, Ok false)
    demo_options (demo_operations demo_admission) demo_admission demo_claim demo_acquired _ _ _
    (triple_eta _) eq_refl demo_claim_stored (or_introl Hb)).
Defined.
