(* ===== verification/FixedCustody.v ===== *)
(** * Custody: claims that may own a resource survive an acquisition

    An acquisition can fail at any point, and its adapter can certify that the
    provider rejected the creation, which removes the claim.  The theorems say
    that this never happens to a claim that an earlier acquisition left with an
    attempt or a resource, and that a released claim is never acquired again. *)

From Stdlib Require Import ZArith Lia.
From stdpp Require Import gmap strings prelude.
From S2P Require Import Prelude GoText GoTime Sha256 ClaimData Slug Labels Identity Journal ClaimStore ClaimOps FixedTx FixedFrame FixedEngine FixedSafety.
Local Open Scope string_scope.
Local Open Scope Z_scope.
Local Open Scope crab_scope.

Section custody.
Context {W T : Type} (env : Env) (json : Json).
Context (remove_artifacts : string → M W ()).
Context (other_claims : Sys W → res (list LeaseClaim)).
Context (rejection_settled : error → option (option error)).
Context (ctx : nat → option error).
Context (slug_claims : string → string → res bool).
Context (lid : string).
Local Abbreviation TM := (M (Tx W)).

(** In a transaction that did not start unallocated. *)
Definition custody (t t' : Tx W) : Prop :=
  t_initialUnallocated t = false →
  t_initialUnallocated t' = false ∧ retained lid t t' ∧
  (t_detached t' = None → t_detached t = None ∧ intent_state (t_claim t') = intent_state (t_claim t)).

#[export] Instance custody_preorder : PreOrder custody.
Proof.
  split.
  - intros t H. split_and!; [done|reflexivity|done].
  - intros x y z H1 H2 H. destruct (H1 H) as (U1 & R1 & D1). destruct (H2 U1) as (U2 & R2 & D2).
    split_and!; [done|by etrans|]. intros H3. destruct (D2 H3) as [H4 E4]. destruct (D1 H4) as [H5 E5].
    split; congruence.
Qed.

Lemma custody_of {A} (m : TM A) : keeps frame m → keeps (retained lid) m → keeps custody m.
Proof.
  intros Hf Hr t U. destruct (Hf t) as [P D]. unfold parameters in P.
  injection P as _ _ _ _ P5 _ _ _. split_and!; [congruence|apply Hr|exact D].
Qed.

Lemma sys_custody {A} (m : M (Sys W) A) : keeps same_disk m → keeps custody (sys m).
Proof. intros H. apply custody_of; [apply sys_frame|by apply quiet_retained]. Qed.
Lemma interact_custody {A} (f : nat → A) : keeps custody (sys (interact f)).
Proof. by apply sys_custody. Qed.
Lemma outside_custody {A} (m : M W A) : keeps custody (sys (outside m)).
Proof. apply sys_custody, outside_keeps. Qed.
Lemma intent_custody : keeps custody intent.
Proof. apply custody_of; [apply intent_frame|apply intent_retained]. Qed.
Lemma log_custody e : keeps custody (modify (λ t : Tx W, t <| t_log := e t |>)).
Proof. intros t U. split_and!; [done|by apply claim_step|done]. Qed.
Lemma RecordPhase_custody phase : keeps custody (RecordPhase env phase).
Proof. apply custody_of; [apply RecordPhase_frame|apply RecordPhase_retained]. Qed.
Lemma Bind_custody b : keeps custody (Bind env json b).
Proof. apply custody_of; [apply Bind_frame|by apply Bind_retained]. Qed.
Lemma Admit_custody : keeps custody (Admit env).
Proof. apply custody_of; [apply Admit_frame|by apply Admit_retained]. Qed.

Lemma callback_custody {A} kind cb id (p : prog A) :
  keeps custody (callback_run env json remove_artifacts kind cb id p).
Proof.
  unfold callback_run. apply keeps_bind; [apply _|apply (log_custody (λ t, _))|intros _].
  apply custody_of; [apply run_prog_frame|apply run_prog_retained].
Qed.

(** A rejection cannot settle such a transaction: the claim stays. *)
Lemma settle_custody {A} kind (zero : A) cause :
  keeps custody (settle env remove_artifacts rejection_settled kind zero cause).
Proof.
  intros t U. assert (∃ e, settle env remove_artifacts rejection_settled kind zero cause t = (Err e, t)) as [e ->].
  { unfold settle, settleCreateRejection. destruct (find_rejected cause) as [inner|]; [|by eexists].
    unfold mbind, M_bind, gets, CanSettleCreateRejection. cbn [id].
    assert ((match FixedCreateIntent (t_claim t) with
      | Some i => IsFixedClaim kind (t_claim t) && t_initialUnallocated t && (i_State i =s "prepared") &&
          (CloudImmutableID (t_claim t) =s "") &&
          match i_Journal i with Some j => j_Phase j ∈s ["prepared"; "submitting"] | None => false end
      | None => false end) = false) as ->.
    { destruct (FixedCreateIntent _); [|done]. by rewrite U, andb_false_r. }
    by eexists. }
  split_and!; [done|reflexivity|done].
Qed.

Ltac custody_more := fail.
Ltac custody_steps :=
  repeat first
    [ custody_more | apply keeps_ret; apply _ | apply keeps_fail; apply _ | apply keeps_lift; apply _
    | apply keeps_gets; apply _ | apply keeps_ensure; apply _
    | apply interact_custody | apply outside_custody | apply intent_custody | apply RecordPhase_custody
    | apply Bind_custody | apply Admit_custody | apply callback_custody | apply settle_custody
    | (apply keeps_bind; [apply _| |intros ?])
    | (apply keeps_attempt) | case_match ].

Lemma plan_attempt_retained plan : keeps (retained lid) (plan_attempt env json other_claims plan).
Proof.
  unfold plan_attempt, plan_nonce. apply keeps_bind; [apply _|apply intent_retained|intros i].
  case_match; [apply keeps_ret, _|].
  apply keeps_bind; [apply _| |intros values].
  { case_match; [|apply keeps_ret, _]. apply keeps_bind; [apply _| |intros; apply keeps_ret, _].
    apply keeps_bind; [apply _|apply interact_retained|intros [bs|]]; [apply keeps_ret|apply keeps_fail]; apply _. }
  apply keeps_bind; [apply _|by apply keeps_lift, _|intros stored].
  apply keeps_bind; [apply _|by apply set_intent_retained; intros ?; split_and!|intros _].
  apply keeps_bind; [apply _|by apply keeps_gets, _|intros c].
  apply keeps_bind; [apply _|by intros t; apply claim_step|intros _].
  apply keeps_bind; [apply _| |intros _].
  { case_match; [apply set_claim_retained; intros; apply labels_evolves|apply keeps_ret, _]. }
  apply keeps_bind; [apply _|by apply applyBinding_retained|intros _].
  case_match; [|apply keeps_ret, _].
  apply keeps_bind; [apply _|by apply keeps_gets, _|intros t0].
  apply keeps_bind; [apply _|by apply keeps_lift, _|intros claims].
  apply keeps_bind; [apply _|by apply keeps_gets, _|intros c']. by apply keeps_lift, _.
Qed.

Lemma prepare_attempt_custody ops : keeps custody (prepare_attempt (T:=T) env json other_claims ctx ops).
Proof.
  unfold prepare_attempt, ctx_check. apply keeps_bind; [apply _|apply intent_custody|intros i].
  apply keeps_bind; [apply _| |intros _; custody_steps].
  destruct (op_Plan ops) as [plan|]; [|apply keeps_ret, _]. destruct (_ =? _); [|apply keeps_ret, _].
  apply keeps_bind; [apply _|apply keeps_gets, _|intros c].
  apply keeps_bind; [apply _|apply (log_custody (λ t, _))|intros _].
  apply keeps_bind; [apply _|apply outside_custody|intros pl].
  apply keeps_bind; [apply _|custody_steps|intros _].
  apply custody_of; [apply plan_attempt_frame|apply plan_attempt_retained].
Qed.

Lemma finish_acquisition_custody kind id ops (access : T → @prog W LeaseTarget) resource :
  keeps custody (finish_acquisition env json remove_artifacts kind id ops access resource).
Proof. unfold finish_acquisition. custody_steps. Qed.

(** The lease an acquisition returns has the identity of the claim. *)
Definition delivers (lease : LeaseTarget) (c : LeaseClaim) : Prop :=
  (CloudID c ≠ "" → CloudID c = sv_CloudID (lt_Server lease)) ∧
  (CloudImmutableID c ≠ "" → CloudImmutableID c = sv_ImmutableID (lt_Server lease)).

Lemma finish_acquisition_delivers kind id ops (access : T → @prog W LeaseTarget) resource t lease t' :
  finish_acquisition env json remove_artifacts kind id ops access resource t = (Ok lease, t') →
  delivers lease (t_claim t').
Proof.
  intros H. unfold finish_acquisition in H. apply M_bind_ok in H as (? & ? & _ & H).
  apply M_bind_ok in H as (lease' & t2 & _ & H). apply M_bind_ok in H as (? & ? & [= <- <-] & H).
  apply M_bind_ok in H as (? & ? & H1 & H). apply ensure_ok in H1 as [H1 ->].
  apply M_bind_ok in H as (? & t3 & H2 & H). injection H as -> ->.
  apply RecordPhase_ok in H2 as (i & _ & _ & _ & _ & Hc & Hm & _). unfold delivers. rewrite Hc, Hm.
  apply negb_true_iff in H1. rewrite !orb_false_iff, !andb_false_iff, !negb_bool_decide_false in H1. tauto.
Qed.

Ltac custody_more ::= first [ apply prepare_attempt_custody | apply finish_acquisition_custody ].

Lemma submit_resource_custody kind id ops p submit access canSubmit :
  keeps custody (submit_resource (T:=T) env json remove_artifacts other_claims rejection_settled ctx
                   kind id ops p submit access canSubmit).
Proof.
  unfold submit_resource, settling, now, keyed_window, ctx_check, withFixedPlanReservation.
  custody_steps.
Qed.

(** A failed settlement of such a transaction returns no lease. *)
Lemma settle_fails {A} kind (zero : A) cause t a t' :
  t_initialUnallocated t = false →
  settle env remove_artifacts rejection_settled kind zero cause t = (Ok a, t') → False.
Proof.
  intros U H. unfold settle, settleCreateRejection in H. destruct (find_rejected cause) as [inner|]; [|done].
  unfold mbind, M_bind, gets, CanSettleCreateRejection in H. cbn [id] in H.
  destruct (FixedCreateIntent (t_claim t)); [|done]. rewrite U, andb_false_r in H. done.
Qed.

(** Success in a chain of steps that keep custody. *)
Lemma custody_bind_ok {A B} (m : TM A) (k : A → TM B) t b t' :
  keeps custody m → t_initialUnallocated t = false → (m ≫= k) t = (Ok b, t') →
  ∃ a t1, m t = (Ok a, t1) ∧ t_initialUnallocated t1 = false ∧ k a t1 = (Ok b, t').
Proof.
  intros Hm U H. apply M_bind_ok in H as (a & t1 & H1 & H). exists a, t1. split_and!; [done| |done].
  specialize (Hm t U). rewrite H1 in Hm. by destruct Hm.
Qed.

Ltac custody_ok H U a :=
  apply custody_bind_ok in H as (a & ? & _ & ? & H);
    [clear U; rename select (t_initialUnallocated _ = false) into U|custody_steps|exact U].

Lemma submit_resource_delivers kind id ops p submit access canSubmit t lease t' :
  t_initialUnallocated t = false →
  submit_resource (T:=T) env json remove_artifacts other_claims rejection_settled ctx
    kind id ops p submit access canSubmit t = (Ok lease, t') →
  delivers lease (t_claim t').
Proof.
  intros U H. unfold submit_resource, settling, now, keyed_window, ctx_check, withFixedPlanReservation in H.
  custody_ok H U time. custody_ok H U t1. custody_ok H U i. custody_ok H U u1.
  custody_ok H U r1. destruct r1 as [[]|e]; [|by apply settle_fails in H].
  custody_ok H U u2. custody_ok H U u3. custody_ok H U u4.
  custody_ok H U r2. destruct r2 as [resource|e]; [|by apply settle_fails in H].
  custody_ok H U i2. custody_ok H U u5. by apply finish_acquisition_delivers in H.
Qed.

(** A claim that an earlier acquisition may have used: it is past the prepared
    state, records an attempt, or names a resource. *)
Definition allocated (c : LeaseClaim) : Prop :=
  ∀ i, FixedCreateIntent c = Some i → i_State i ≠ "prepared" ∨ mlen (i_Attempt i) ≠ 0 ∨ bound c.

Definition undisturbed (t t' : Tx W) : Prop :=
  t_detached t' = None → t_detached t = None ∧ intent_state (t_claim t') = intent_state (t_claim t).

Lemma new_transaction_state fresh admission (t : Tx W) :
  let t' := (newFixedTransaction fresh admission t).2 in
  t_claim t' = t_claim t ∧ t_sys t' = t_sys t ∧ t_detached t' = t_detached t.
Proof.
  cbv zeta. unfold newFixedTransaction, validate_journal, intent, claim, mbind, M_bind, gets, lift.
  destruct (validateFixedJournal (FixedCreateIntent (t_claim t))); [|done].
  by destruct (FixedCreateIntent (t_claim t)).
Qed.

Ltac custody_more ::=
  first [ apply prepare_attempt_custody | apply finish_acquisition_custody | apply submit_resource_custody ].

Lemma acquire_observed_custody opts ops p observe submit access :
  keeps custody (acquire_observed (T:=T) env json remove_artifacts other_claims rejection_settled ctx
                   opts ops p observe submit access).
Proof.
  unfold acquire_observed. custody_steps.
Qed.

Lemma acquire_observed_delivers opts ops p observe submit access t lease t' :
  t_initialUnallocated t = false →
  acquire_observed (T:=T) env json remove_artifacts other_claims rejection_settled ctx
    opts ops p observe submit access t = (Ok lease, t') →
  delivers lease (t_claim t').
Proof.
  intros U H. unfold acquire_observed in H. custody_ok H U c. custody_ok H U r.
  destruct r as [ob|e]; [|by apply settle_fails in H]. custody_ok H U u.
  destruct (ob_Candidates ob) as [|resource [|? ?]]; try (by apply submit_resource_delivers in H).
  custody_ok H U u2. by apply finish_acquisition_delivers in H.
Qed.

Lemma acquire_resource_custody opts ops fresh p observe submit access t r t' :
  acquire_resource (T:=T) env json remove_artifacts other_claims rejection_settled ctx
    opts ops fresh p observe submit access t = (r, t') →
  allocated (t_claim t) →
  retained lid t t' ∧ undisturbed t t' ∧ (∀ lease, r = Ok lease → delivers lease (t_claim t')).
Proof.
  intros H Hall. unfold acquire_resource, mbind at 1, M_bind at 1 in H.
  pose proof (new_transaction_state fresh (Some p) t) as S.
  destruct (newFixedTransaction fresh (Some p) t) as [[[]|e] t1] eqn:E1; cbn [snd] in S; destruct S as (S1 & S2 & S3).
  2: { injection H as <- <-. split_and!; [apply claim_step; [by unfold file_of; rewrite S2|by rewrite S1]| |done].
       unfold undisturbed. by rewrite S1, S3. }
  apply new_transaction_ok in E1 as (_ & _ & _ & _ & _ & _ & _ & _ & i & Hi & U).
  assert (t_initialUnallocated t1 = false) as U1.
  { rewrite U. destruct (Hall i Hi) as [Hs|[Hs|[Hs|[Hs|Hs]]]].
    - by rewrite bool_decide_eq_false_2.
    - by rewrite (proj2 (Z.eqb_neq _ _) Hs), andb_false_r.
    - by rewrite (bool_decide_eq_false_2 (CloudID _ = _)), !andb_false_r.
    - by rewrite (proj2 (Z.eqb_neq _ _) Hs), !andb_false_r.
    - by rewrite (bool_decide_eq_false_2 (CloudImmutableID _ = _)), !andb_false_r. }
  clear U.
  pose proof (acquire_observed_custody opts ops p observe submit access t1 U1) as K.
  rewrite H in K. destruct K as (_ & HR & HD). cbn [snd] in HR, HD. split_and!.
  - etrans; [|exact HR]. apply claim_step; [by unfold file_of; rewrite S2|by rewrite S1].
  - unfold undisturbed. by rewrite <-S1, <-S3.
  - intros lease ->. by eapply acquire_observed_delivers.
Qed.

(** ** After the adapter *)

Lemma identity_evolves c lease :
  delivers lease c →
  evolves c (SetLeaseClaimResourceIdentity c (sv_CloudID (lt_Server lease)) (CloudNumericID c)
               (sv_ImmutableID (lt_Server lease)) (sv_ImageEvidence (lt_Server lease))).
Proof.
  intros [H1 H2]. unfold SetLeaseClaimResourceIdentity. set (same := same_resource _ _ _ _). clearbody same.
  destruct (sv_ImageEvidence (lt_Server lease)), same; split_and!; cbn; try done; try (by intros H; symmetry; auto);
    intros i0 Hi; (split; [done|]); exists i0; (split; [done|reflexivity]).
Qed.

Lemma held_intent_still : keeps still (held_intent : TM _).
Proof.
  unfold held_intent. apply keeps_bind; [apply _|by apply keeps_gets, _|intros t0].
  destruct (t_detached t0); [apply keeps_ret, _|apply intent_still].
Qed.

Lemma still_retained t t' : still t t' → retained lid t t' ∧ undisturbed t t'.
Proof.
  intros (H1 & H2 & _ & H4). split; [apply claim_step; [by unfold file_of; rewrite H2|by rewrite H1]|].
  unfold undisturbed. by rewrite H1, H4.
Qed.

(** What [record_lease] makes of the claim. *)
Definition recorded (opts : FixedAcquireOptions) (lease : LeaseTarget) (slug : string) (c : LeaseClaim) : LeaseClaim :=
  let c := SetLeaseClaimResourceIdentity c (sv_CloudID (lt_Server lease)) (CloudNumericID c)
             (sv_ImmutableID (lt_Server lease)) (sv_ImageEvidence (lt_Server lease)) in
  let c := c <| ClaimData.Slug := slug |> <| Provider := k_ClaimProvider (ao_Kind opts) |>
             <| ClaimData.Labels := sv_Labels (lt_Server lease) |> <| SSHHost := ssh_Host (lt_SSH lease) |> in
  match Atoi (TrimSpace (ssh_Port (lt_SSH lease))) with Some port => c <| SSHPort := port |> | None => c end.

Lemma recorded_evolves opts lease slug c :
  delivers lease c → Provider c = k_ClaimProvider (ao_Kind opts) →
  evolves c (recorded opts lease slug c) ∧ intent_state (recorded opts lease slug c) = intent_state c.
Proof.
  intros Hdel Hpr. pose proof (identity_evolves c lease Hdel) as K. unfold recorded.
  set (c1 := SetLeaseClaimResourceIdentity _ _ _ _ _) in *. 
  assert (Provider c1 = Provider c ∧ FixedCreateIntent c1 = FixedCreateIntent c) as [P1 I1].
  { unfold c1, SetLeaseClaimResourceIdentity. set (same := same_resource _ _ _ _). clearbody same.
    by destruct (sv_ImageEvidence (lt_Server lease)), same. }
  clearbody c1. rewrite <-P1 in Hpr. split.
  - etrans; [exact K|]. apply evolves_fields. destruct (Atoi _); unfold identity_fields; cbn; by rewrite <-Hpr.
  - destruct (Atoi _); unfold intent_state; cbn; by rewrite I1.
Qed.

Lemma record_lease_state opts lease (t : Tx W) :
  delivers lease (t_claim t) → Provider (t_claim t) = k_ClaimProvider (ao_Kind opts) →
  retained lid t (record_lease opts lease t).2 ∧ undisturbed t (record_lease opts lease t).2.
Proof.
  intros Hdel Hpr. pose proof (held_intent_still t) as S.
  destruct (held_intent t) as [[i|e] t1] eqn:E; cbn [snd] in S.
  - assert ((record_lease opts lease t).2 = t1 <| t_claim := recorded opts lease (i_Slug i) (t_claim t1) |>) as ->.
    { unfold record_lease. unfold mbind at 1, M_bind at 1. rewrite E. reflexivity. }
    destruct S as (C & D & _ & N). rewrite C.
    destruct (recorded_evolves opts lease (i_Slug i) (t_claim t) Hdel Hpr) as [HE HI]. split.
    + apply claim_step; [|exact HE]. unfold file_of. by rewrite <-D.
    + unfold undisturbed. cbn. rewrite HI, N. done.
  - assert ((record_lease opts lease t).2 = t1) as ->.
    { unfold record_lease. unfold mbind at 1, M_bind at 1. by rewrite E. }
    by apply still_retained.
Qed.

Lemma set_held_intent_at f (t : Tx W) :
  (t_detached t = None → ∀ i, FixedCreateIntent (t_claim t) = Some i → same_core i (f i)) →
  retained lid t (set_held_intent f t).2.
Proof.
  intros Hf. unfold set_held_intent, mbind, M_bind, gets. cbn [id].
  destruct (t_detached t) eqn:E; [by apply claim_step|]. apply claim_step; [done|].
  cbn. split_and!; try done. intros i Hi. cbn. rewrite Hi. split; [done|]. exists (f i). split; [done|]. by apply Hf.
Qed.

(** The last steps of [AcquireFixedIntent]. *)
Lemma finish_intent_retained {A} opts (a : A) (t : Tx W) :
  (t_detached t = None → intent_state (t_claim t) ≠ Some "released") →
  retained lid t ((finished ← now env;
      set_claim (λ c, c <| LastUsedAt := FormatRFC3339 finished |>);;
      set_held_intent (λ i, i <| i_State := "acquired" |>);;
      set_held_intent (λ i,
        match i_Journal i with
        | Some j => if j_Phase j <>s "acquired"
                    then i <| i_Journal := Some ((j <| j_Phase := "acquired" |>) <| j_Revision := add_u64 (j_Revision j) 1 |>) |>
                    else i
        | None => i
        end);;
      persist env (ao_LeaseID opts);;
      c ← claim;
      mret (a, c)) t).2.
Proof.
  intros Hst. apply bind_at; [apply _|apply interact_retained|]. intros finished t1 E1. apply sys_inv in E1 as [-> _].
  apply bind_at; [apply _|by apply claim_step; [|apply evolves_fields]|]. intros [] t2 E2. apply (f_equal snd) in E2.
  unfold set_claim, modify in E2. cbn [snd] in E2. subst t2.
  apply bind_at; [apply _|apply set_held_intent_at|].
  { cbn. intros Hn i Hi. split_and!; try done. cbn. intros Hr. exfalso. apply (Hst Hn). unfold intent_state. rewrite Hi. cbn. by rewrite Hr. }
  intros [] t3 _. apply bind_at; [apply _|apply set_held_intent_at|].
  { intros _ i _. destruct (i_Journal i) as [j|]; [|reflexivity]. destruct (_ <>s _); [by split_and!|reflexivity]. }
  intros [] t4 _. apply bind_at; [apply _|apply persist_retained|]. intros [] t5 _.
  apply bind_at; [apply _|done|]. intros c t6 _. reflexivity.
Qed.

(** The adapter's part and the recording of its lease. *)
Lemma acquire_and_record opts ops p observe submit access (t : Tx W) :
  anchored lid t → allocated (t_claim t) → is_Some (FixedCreateIntent (t_claim t)) →
  Provider (t_claim t) = k_ClaimProvider (ao_Kind opts) →
  let t' := ((lease ← acquire_resource (T:=T) env json remove_artifacts other_claims rejection_settled ctx
                        opts ops false p observe submit access;
              record_lease opts lease;; mret lease) t).2 in
  retained lid t t' ∧ undisturbed t t'.
Proof.
  intros Ha Hall [i Hi] Hprov. cbv zeta.
  destruct (acquire_resource env json remove_artifacts other_claims rejection_settled ctx
              opts ops false p observe submit access t) as [r t1] eqn:E.
  pose proof (acquire_resource_custody _ _ _ _ _ _ _ _ _ _ E Hall) as (HR & HU & HD).
  unfold mbind at 1 3, M_bind at 1 3. rewrite E. destruct r as [lease|e]; [|done].
  destruct (HR Ha) as (_ & (_ & _ & _ & _ & HE) & _). destruct (HE i Hi) as [HP _].
  destruct (record_lease_state opts lease t1 (HD lease eq_refl) ltac:(congruence)) as [R2 U2].
  assert (((record_lease opts lease;; mret lease) t1).2 = (record_lease opts lease t1).2) as Heq.
  { unfold mbind, M_bind. by destruct (record_lease opts lease t1) as [[[]|] t2]. }
  rewrite Heq. split; [by etrans|]. intros H. destruct (U2 H) as [H1 E1]. destruct (HU H1) as [H2 E2]. split; congruence.
Qed.

(** The session of an acquisition on an existing claim. *)
Lemma intent_body_custody opts ops p prepare observe submit access (t : Tx W) :
  t_detached t = None → file_of lid t = Some (Stored (t_claim t)) → allocated (t_claim t) →
  retained lid t (acquire_intent_body env slug_claims opts prepare
    (lease ← acquire_resource (T:=T) env json remove_artifacts other_claims rejection_settled ctx
               opts ops false p observe submit access;
     record_lease opts lease;; mret lease) true t).2.
Proof.
  intros Hdet Hfile Hall. unfold acquire_intent_body.
  apply bind_at; [apply _|reflexivity|]. intros c ? [= <- <-].
  apply bind_at; [apply _|by apply keeps_lift, _|]. intros [] ? E. injection E as _ <-.
  apply bind_at; [apply _|apply outside_retained|]. intros b t1 E1.
  pose proof (outside_still (prepare (t_claim t) true) t) as S1. rewrite E1 in S1. cbn [snd] in S1. clear E1.
  apply bind_at; [apply _|by apply keeps_lift, _|]. intros b1 ? E. injection E as _ <-.
  apply bind_at; [apply _|by apply keeps_lift, _|]. intros [] ? E. injection E as Hex <-.
  apply bind_at; [apply _|apply intent_retained|]. intros i ? E. apply intent_ok in E as [Hi ->].
  apply bind_at; [apply _|by apply keeps_ensure, _|]. intros [] ? E. apply ensure_ok in E as [Hst ->].
  destruct (ParseRFC3339 (i_CreatedAt i)) as [created|]; [|reflexivity].
  apply bind_at; [apply _|apply interact_retained|]. intros current t2 E2.
  pose proof (interact_still (env_clock env) t1) as S2. unfold now in E2. rewrite E2 in S2. cbn [snd] in S2. clear E2.
  apply bind_at; [apply _|by apply keeps_ensure, _|]. intros [] ? E. apply ensure_ok in E as [_ ->].
  assert (still t t2) as (C2 & D2 & _ & N2) by (etrans; eassumption).
  assert (anchored lid t2) as Ha.
  { intros c Hc. unfold file_of in *. rewrite D2, Hfile in Hc. rewrite C2. by rewrite (stored_inj _ _ Hc). }
  assert (intent_state (t_claim t2) ≠ Some "released") as Hrel.
  { destruct S2 as (C & _). rewrite C. unfold intent_state. rewrite Hi. cbn. intros [= Hr]. rewrite Hr in Hst.
    by vm_compute in Hst. }
  assert (Provider (t_claim t2) = k_ClaimProvider (ao_Kind opts)) as Hprov.
  { rewrite C2. unfold check_existing in Hex. destruct (FixedCreateIntent (t_claim t)); [|done].
    res_steps. guards. done. }
  assert (∃ i2, FixedCreateIntent (t_claim t2) = Some i2) as [i2 Hi2].
  { destruct S2 as (C & _). rewrite C. by exists i. }
  rewrite <-C2 in Hall.
  destruct (acquire_and_record opts ops p observe submit access t2 Ha Hall ltac:(by exists i2) Hprov) as [HR HU].
  apply bind_at; [apply _|exact HR|]. intros a t3 E3. rewrite E3 in HU. cbn [snd] in HU. apply finish_intent_retained.
  intros Hn. destruct (HU Hn) as [_ ->]. exact Hrel.
Qed.
End custody.

Section theorems.
Context {W T : Type} (env : Env) (json : Json).
Context (remove_artifacts : string → M W ()).
Context (other_claims : Sys W → res (list LeaseClaim)).
Context (rejection_settled : error → option (option error)).
Context (ctx : nat → option error).
Context (slug_claims : string → string → res bool).
Local Abbreviation Acquire :=
  (AcquireFixedResource (T:=T) env json remove_artifacts other_claims rejection_settled ctx slug_claims).

(** C3. Custody.  When the lease's claim records an attempt, names a resource
    or is past the prepared state, then after an acquisition, successful or
    failed at any point, with any adapter, any certified rejection and any
    failure of the store, the claim file still exists and holds the same lease,
    provider, create intent and every resource identity it held before. *)
Theorem allocated_claim_survives opts ops c s r s' log :
  Acquire opts ops s = (r, s', log) →
  sys_disk s !! ao_LeaseID opts = Some (Stored c) → allocated c →
  ∃ c', sys_disk s' !! ao_LeaseID opts = Some (Stored c') ∧ evolves c c'.
Proof.
  intros H Hfile Hall. apply acquire_inv in H
    as [(_ & Hd & _)|(p & describe & observe & submit & access & c0 & ex & s1 & t' & r' & _ & _ & Hd & Hb & -> & _ & _ & H1 & H2 & _)].
  { exists c. split; [by rewrite Hd|reflexivity]. }
  destruct ex; [|by rewrite (H2 eq_refl) in Hfile]. rewrite (H1 eq_refl) in Hfile. apply stored_inj in Hfile as ->.
  set (t0 := open_session c s1 false false) in Hb.
  assert (file_of (ao_LeaseID opts) t0 = Some (Stored c)) as Hf0.
  { unfold file_of. cbn. rewrite Hd. by apply H1. }
  pose proof (intent_body_custody env json remove_artifacts other_claims rejection_settled ctx slug_claims (ao_LeaseID opts)
    (journalled opts) ops p (λ c exists_, lift (usable_journal c exists_);; describe c exists_) observe submit access
    t0 eq_refl Hf0 Hall) as K. cbn [negb] in Hb. rewrite Hb in K.
  destruct K as (_ & _ & K); [|exact (K c Hf0)].
  intros c1 Hc1. rewrite Hf0 in Hc1. rewrite <-(stored_inj _ _ Hc1). reflexivity.
Qed.

(** A call that fails having called no adapter and written no claim file. *)
Definition refused {A} (r : res A) (log : list event) (s s' : Sys W) : Prop :=
  (∃ e, r = Err e) ∧ log = [] ∧ sys_disk s' = sys_disk s.

(** A released lease is final: when the lease's claim is a fixed claim of
    this kind in state [released], an acquisition fails, calls nothing of the
    adapter, and leaves every claim file as it was. *)
Theorem released_lease_final opts ops c i s r s' log :
  Acquire opts ops s = (r, s', log) →
  sys_disk s !! ao_LeaseID opts = Some (Stored c) →
  IsFixedClaim (ao_Kind opts) c = true → FixedCreateIntent c = Some i → i_State i = "released" →
  refused r log s s'.
Proof.
  intros H Hfile Hfix Hi Hst. apply acquire_inv in H
    as [(-> & Hd & He)|(p & describe & observe & submit & access & c0 & ex & s1 & t' & r' & _ & _ & Hd & Hb & -> & -> & Hr & H1 & H2 & _)];
    [done|].
  destruct ex; [|by rewrite (H2 eq_refl) in Hfile]. rewrite (H1 eq_refl) in Hfile. apply stored_inj in Hfile as ->.
  assert (check_found (journalled opts) c true = Err (Exit 4 "lease_id_conflict: fixed lease %s is terminal and cannot be replayed")) as Hck.
  { unfold check_found. rewrite Hi, Hst. cbn [journalled ao_Kind andb]. rewrite Hfix. reflexivity. }
  unfold acquire_intent_body, mbind, M_bind, claim, gets, lift in Hb. cbn [open_session t_claim] in Hb.
  rewrite Hck in Hb. injection Hb as <- <-. split_and!; [by eexists; apply Hr|done|exact Hd].
Qed.
End theorems.

(** A certified rejection on replay: the adapter claims that the provider
    rejected the creation, and the claim stays. *)
Definition rejecting_operations : FixedLeaseOperations (W := list string) (T := string) :=
  mkOperations None "" false (Some demo_admission) (Some (λ _, mret demo_plan)) (Some demo_binding) false
    (Some (λ _ _, mret (mkLeaseBinding None false false "" [] "scope" "fp" "box")))
    (Some (λ _, Return _ (Err (Rejected (Msg "quota")))))
    (Some (Return _ (Err (Rejected (Msg "quota")))))
    (Some (λ id, Return _ (Ok empty_target))) None.
Definition rejected_acquire (s : Sys (list string)) :=
  AcquireFixedResource calm no_json (λ _, mret ()) (λ _, Ok []) (λ _, None) (λ _, None) (λ _ _, Ok false)
    demo_options rejecting_operations s.

Lemma allocated_claim_witness :
  ∃ c', sys_disk (rejected_acquire demo_acquired).1.2 !! "cbx_0123456789ab" = Some (Stored c') ∧ evolves demo_claim c'.
Proof.
  unfold rejected_acquire.
  apply (allocated_claim_survives calm no_json (λ _, mret ()) (λ _, Ok []) (λ _, None) (λ _, None) (λ _ _, Ok false)
    demo_options rejecting_operations demo_claim demo_acquired _ _ _ (triple_eta _)
    demo_claim_stored).
  intros i _. right. right. left. vm_compute. discriminate.
Defined.

(** The lease after its release. *)
Definition demo_tombstone : LeaseClaim :=
  match TerminalClaim demo_kind demo_claim (100 * Second) with Ok c => c | Err _ => empty_claim end.
Definition demo_released : Sys (list string) := mkSys {["cbx_0123456789ab" := Stored demo_tombstone]} 0 [].

Lemma demo_released_stored : sys_disk demo_released !! "cbx_0123456789ab" = Some (Stored demo_tombstone).
Proof. vm_compute. reflexivity. Qed.

Lemma released_lease_witness :
  (demo_acquire demo_released).2 = [] ∧ sys_disk (demo_acquire demo_released).1.2 = sys_disk demo_released.
Proof.
  unfold demo_acquire.
  destruct (FixedCreateIntent demo_tombstone) as [i|] eqn:Hi; [|vm_compute in Hi; discriminate].
  assert (i_State i = "released") as Hs by (vm_compute in Hi; injection Hi as <-; reflexivity).
  assert (IsFixedClaim (ao_Kind demo_options) demo_tombstone = true) as Hf by (vm_compute; reflexivity).
  exact (proj2 (released_lease_final calm no_json (λ _, mret ()) (λ _, Ok []) (λ _, None) (λ _, None) (λ _ _, Ok false)
    demo_options (demo_operations demo_admission) demo_tombstone i demo_released _ _ _ (triple_eta _)
    demo_released_stored Hf Hi Hs)).
Defined.
