(* ===== verification/FixedDelete.v ===== *)
(** * Deletion and inspection of fixed leases

    Theorems on [DeleteFixedResource] and [InspectFixedResource]: a deletion is
    fenced by the exact claim, announces itself on disk before the provider is
    asked to delete, never loses the claim, and leaves a tombstone when it
    succeeds; an inspection writes nothing. *)

From Stdlib Require Import ZArith Lia.
From stdpp Require Import gmap strings prelude.
From S2P Require Import Prelude GoText GoTime Sha256 ClaimData Slug Labels Identity Journal ClaimStore ClaimOps FixedTx FixedFrame FixedEngine FixedSafety FixedCustody.
Local Open Scope string_scope.
Local Open Scope Z_scope.
Local Open Scope crab_scope.

(** The calls of the adapter's [DeleteExact] in a log. *)
Definition deletions (log : list event) : list event := filter (λ e, ev_callback e = CDeleteExact) log.

Section deletion.
Context {W T : Type} (env : Env) (json : Json).
Context (remove_artifacts : string → M W ()).
Context (authorize_checkpoint : LeaseClaim → string → res ()).
Context (after_terminal : LeaseClaim → M W ()).
Local Abbreviation TM := (M (Tx W)).
Local Abbreviation Delete := (DeleteFixedResource (T:=T) env json remove_artifacts authorize_checkpoint after_terminal).
Local Abbreviation session := (delete_session (T:=T) env json remove_artifacts authorize_checkpoint after_terminal).

(** A deletion stops before its session, without touching a claim file, or
    runs its session from the file of the lease. *)
Lemma delete_inv kind expected ops s r s' log st tm :
  Delete kind expected ops s = (r, s', log, st, tm) →
  (log = [] ∧ sys_disk s' = sys_disk s ∧ (∃ e, r = Err e) ∧ tm = false) ∨
  ∃ observe delete_exact started c exists_ s1 t',
    op_ObserveExact ops = Some observe ∧ op_DeleteExact ops = Some delete_exact ∧
    IsFixedClaim kind expected = true ∧ sys_disk s1 = sys_disk s ∧
    session kind expected (op_Release ops) observe delete_exact exists_ (open_session c s1 started false) = (r, t') ∧
    s' = t_sys t' ∧ log = t_log t' ∧ tm = t_terminal t' ∧
    (exists_ = true → sys_disk s !! LeaseID expected = Some (Stored c)) ∧
    (exists_ = false → sys_disk s !! LeaseID expected = None).
Proof.
  unfold DeleteFixedResource.
  destruct (negb (IsFixedClaim kind expected)) eqn:Hfix; cbn [orb].
  { intros [= <- <- <- <- <-]. left. split_and!; try done. by eexists. }
  apply negb_false_iff in Hfix.
  destruct (match FixedCreateIntent expected with Some i => _ | None => true end).
  { intros [= <- <- <- <- <-]. left. split_and!; try done. by eexists. }
  destruct (op_ObserveExact ops) as [observe|], (op_DeleteExact ops) as [delete_exact|];
    try (intros [= <- <- <- <- <-]; left; split_and!; first [done|by eexists]).
  intros H. apply lock_inv in H
    as [(-> & Hd & He & _ & ->)|(c & ex & s1 & t' & Hd & Hb & -> & -> & _ & -> & H1 & H2 & _)]; [by left|right].
  eexists observe, delete_exact, _, c, ex, s1, t'. repeat split; eassumption.
Qed.

(** The fence passes only on the expected, unheld claim. *)
Lemma session_fence kind expected policy observe delete_exact exists_ t r t' :
  session kind expected policy observe delete_exact exists_ t = (r, t') →
  ((∃ e, r = Err e) ∧ t' = t) ∨ (exists_ = true ∧ t_claim t = expected ∧ RecoveryHold expected = None).
Proof.
  unfold delete_session. unfold mbind at 1, M_bind at 1, claim, gets.
  destruct (decide (RecoveryHold (t_claim t) = None)) as [Hh|Hh].
  - unfold ensure at 1. rewrite bool_decide_eq_true_2 by done. unfold mbind at 1, M_bind at 1, mret at 1, M_ret at 1.
    destruct exists_.
    + unfold claim_eqb. destruct (decide (t_claim t = expected)) as [He|He].
      * intros _. right. split_and!; congruence.
      * unfold ensure at 1. rewrite (bool_decide_eq_false_2 (t_claim t = expected)) by done. cbn [andb].
        intros [= <- <-]. left. split; [by eexists|done].
    + intros [= <- <-]. left. split; [by eexists|done].
  - unfold ensure at 1. rewrite bool_decide_eq_false_2 by done. intros [= <- <-]. left. split; [by eexists|done].
Qed.

(** The claim on file is not the expected one, or is held for recovery. *)
Definition fenced_off (expected : LeaseClaim) (s : Sys W) : Prop :=
  sys_disk s !! LeaseID expected ≠ Some (Stored expected) ∨ RecoveryHold expected ≠ None.

(** C7. Deletion is fenced by the exact claim: when the claim file of the
    lease does not hold exactly the expected claim, or that claim is held for
    recovery, a deletion fails, calls nothing of the adapter, and leaves every
    claim file as it was. *)
Theorem deletion_fenced kind expected ops s r s' log st tm :
  Delete kind expected ops s = (r, s', log, st, tm) →
  fenced_off expected s → refused r log s s' ∧ tm = false.
Proof.
  intros H Hne. apply delete_inv in H
    as [(-> & Hd & He & ->)|(observe & delete_exact & started & c & ex & s1 & t' & _ & _ & _ & Hd & Hb & -> & -> & -> & H1 & H2)];
    [done|].
  apply session_fence in Hb as [[He ->]|(-> & Hc & Hh)]; [done|]. exfalso. cbn in Hc. subst c.
  destruct Hne as [Hne|Hne]; [|done]. apply Hne, H1, eq_refl.
Qed.

(** ** Entry into deletion *)

(** Steps that keep the state of the intent in memory, and log nothing. *)
Definition steady (t t' : Tx W) : Prop :=
  intent_state (t_claim t') = intent_state (t_claim t) ∧ parameters t' = parameters t.
#[export] Instance steady_preorder : PreOrder steady.
Proof. split; [by intros t|]. intros x y z [H1 H2] [H3 H4]. split; congruence. Qed.

Lemma set_claim_steady f : (∀ c, intent_state (f c) = intent_state c) → keeps steady (set_claim f).
Proof. intros Hf t. split; [apply Hf|done]. Qed.
Lemma set_intent_steady f : (∀ i, i_State (f i) = i_State i) → keeps steady (set_intent f).
Proof.
  intros Hf. apply set_claim_steady. intros c. unfold intent_state. cbn.
  destruct (FixedCreateIntent c); cbn; [by rewrite Hf|done].
Qed.
Lemma still_steady {A} (m : TM A) : keeps still m → keeps steady m.
Proof. intros H. eapply keeps_weaken; [exact H|]. intros t t' (C & _ & P & _). split; [by rewrite C|done]. Qed.

Ltac steady_steps :=
  repeat first
    [ apply keeps_ret; apply _ | apply keeps_fail; apply _ | apply keeps_lift; apply _
    | apply keeps_gets; apply _ | apply keeps_ensure; apply _
    | (apply still_steady, intent_still)
    | (apply set_intent_steady; intros ?; reflexivity)
    | (apply set_claim_steady; intros ?; reflexivity)
    | (apply keeps_bind; [apply _| |intros ?]) | case_match ].

Lemma applyBinding_steady b : keeps steady (applyBinding json b : TM ()).
Proof.
  unfold applyBinding. apply keeps_bind; [apply _|apply keeps_gets, _|intros c].
  apply keeps_bind; [apply _|apply still_steady, intent_still|intros i].
  destruct (b_OnlyUnbound b && _); [apply keeps_ret, _|].
  apply keeps_bind; [apply _|apply keeps_ensure, _|intros _].
  apply keeps_bind; [apply _|apply keeps_lift, _|intros values].
  apply keeps_bind; [apply _|apply keeps_lift, _|intros payload].
  apply keeps_bind; [apply _|apply keeps_ensure, _|intros _].
  apply keeps_bind; [apply _|apply set_claim_steady|intros _].
  { intros c0. unfold intent_state. by rewrite bound_claim_intent. }
  apply keeps_bind; [apply _|apply keeps_ensure, _|intros _].
  apply keeps_bind; [apply _|apply set_intent_steady|intros _].
  { intros i0. apply add_values_state. }
  steady_steps.
Qed.

Lemma cleanup_bindings_steady bindings persisted : keeps steady (apply_cleanup_bindings json bindings persisted : TM bool).
Proof.
  revert persisted. induction bindings as [|[b|] bindings IH]; intros persisted; cbn [apply_cleanup_bindings].
  - apply keeps_ret, _.
  - apply keeps_bind; [apply _|apply keeps_gets, _|intros c]. case_match; [apply IH|].
    apply keeps_bind; [apply _|apply applyBinding_steady|intros _; apply IH].
  - apply IH.
Qed.

Lemma cleanup_bindings_retained lid bindings persisted :
  keeps (retained lid) (apply_cleanup_bindings json bindings persisted : TM bool).
Proof.
  revert persisted. induction bindings as [|[b|] bindings IH]; intros persisted; cbn [apply_cleanup_bindings].
  - apply keeps_ret, _.
  - apply keeps_bind; [apply _|apply keeps_gets, _|intros c]. case_match; [apply IH|].
    apply keeps_bind; [apply _|by apply applyBinding_retained|intros _; apply IH].
  - apply IH.
Qed.

Lemma retire_window_steady persisted : keeps steady (retire_window persisted : TM bool).
Proof. unfold retire_window. steady_steps. Qed.
Lemma retire_window_retained lid persisted : keeps (retained lid) (retire_window persisted : TM bool).
Proof.
  unfold retire_window. apply keeps_bind; [apply _|apply intent_retained|intros i].
  destruct (i_Journal i) as [j|]; [|apply keeps_ret, _]. destruct (j_Retention j); [|apply keeps_ret, _].
  apply keeps_bind; [apply _|by apply set_intent_retained; intros ?; split_and!|intros _]. apply keeps_ret, _.
Qed.

(** The claim of a deletion that has been announced. *)
Definition announced (kind : FixedLeaseKind) (c : LeaseClaim) (file : option claim_file) : Prop :=
  k_DeletionState kind ≠ "" →
  ∃ i j, file = Some (Stored (cloneLeaseClaim c)) ∧ FixedCreateIntent c = Some i ∧
    i_State i = k_DeletionState kind ∧ i_Journal i = Some j ∧ j_Phase j = "deleting".

Lemma enter_deletion_steps lid kind bindings (t : Tx W) r t' :
  enter_deletion env json kind bindings t = (r, t') → intent_state (t_claim t) ≠ Some "released" →
  retained lid t t' ∧ parameters t' = parameters t ∧
  (r = Ok () → announced kind (t_claim t') (sys_disk (t_sys t') !! LeaseID (t_claim t'))).
Proof.
  intros H Hst. unfold enter_deletion, mbind at 1, M_bind at 1 in H.
  pose proof (cleanup_bindings_retained lid bindings false t) as R1.
  pose proof (cleanup_bindings_steady bindings false t) as [S1 P1].
  destruct (apply_cleanup_bindings json bindings false t) as [[p1|e] t1]; cbn [snd] in *.
  2: { injection H as <- <-. by split_and!. }
  unfold mbind at 1, M_bind at 1 in H.
  pose proof (retire_window_retained lid p1 t1) as R2. pose proof (retire_window_steady p1 t1) as [S2 P2].
  destruct (retire_window p1 t1) as [[p2|e] t2]; cbn [snd] in *.
  2: { injection H as <- <-. split_and!; [by etrans|congruence|done]. }
  rewrite <-S1, <-S2 in Hst. assert (retained lid t t2) as R by (by etrans). assert (parameters t2 = parameters t) as P by congruence.
  clear R1 R2 S1 S2 P1 P2.
  destruct (decide (k_DeletionState kind = "")) as [He|He].
  - rewrite bool_decide_eq_true_2 in H by done. cbn [negb orb] in H. unfold mbind, M_bind in H. cbn [mret M_ret] in H.
    unfold mret, M_ret in H. destruct p2.
    + pose proof (RecordPhase_retained env lid "deleting" t2) as R3. pose proof (RecordPhase_frame env "deleting" t2) as [P3 _].
      rewrite H in R3, P3. cbn [snd] in *. split_and!; [by etrans|congruence|by intros _ ?].
    + injection H as <- <-. split_and!; [done|done|by intros _ ?].
  - rewrite bool_decide_eq_false_2 in H by done. cbn [negb orb] in H. unfold mbind, M_bind in H.
    set (t3 := t2 <| t_claim := (t_claim t2) <| FixedCreateIntent := (λ i, i <| i_State := k_DeletionState kind |>) <$> FixedCreateIntent (t_claim t2) |> |>).
    change (RecordPhase env "deleting" t3 = (r, t')) in H.
    pose proof (RecordPhase_retained env lid "deleting" t3) as R3. pose proof (RecordPhase_frame env "deleting" t3) as [P3 _].
    rewrite H in R3, P3. cbn [snd] in *. split_and!.
    + etrans; [exact R|]. etrans; [|exact R3]. apply claim_step; [done|]. cbn. split_and!; try done.
      intros i Hi. cbn. rewrite Hi. split; [done|]. eexists. split; [done|]. split_and!; try done.
      intros Hr. exfalso. apply Hst. unfold intent_state. rewrite Hi. cbn. by rewrite Hr.
    + rewrite P3. exact P.
    + intros -> _. apply RecordPhase_ok in H as (i & Hi & _ & Hi' & Hl & _ & _ & _ & Hd).
      rewrite Hd, Hl, lookup_insert_eq.
      cbn in Hi. destruct (FixedCreateIntent (t_claim t2)) as [i0|]; [|done]. injection Hi as <-.
      eexists _, _. split_and!; [done|exact Hi'|done|done|].
      unfold next_journal, stored_phase. rewrite andb_false_r. by destruct (i_Journal _).
Qed.

(** ** The tombstone *)

Definition tombstone (kind : FixedLeaseKind) (c : LeaseClaim) : Prop :=
  is_released c = true ∧ IsFixedClaim kind c = true.

Lemma terminal_is_tombstone kind c time tomb :
  TerminalClaim kind c time = Ok tomb →
  Provider tomb = k_ClaimProvider kind ∧ intent_state tomb = Some "released".
Proof.
  unfold TerminalClaim. destruct (FixedCreateIntent c) as [i|]; [|done]. intros <-%Ok_inj.
  by destruct (has_identity_labels kind).
Qed.

Lemma tombstone_fields kind c c' :
  identity_fields c' = identity_fields c →
  Provider c = k_ClaimProvider kind → intent_state c = Some "released" → tombstone kind (cloneLeaseClaim c').
Proof.
  unfold identity_fields, intent_state, tombstone, is_released, IsFixedClaim, cloneLeaseClaim.
  intros [= _ _ _ _ HP HI] Hp Hs. cbn. rewrite HI. destruct (FixedCreateIntent c) as [i|]; [|done]. cbn in *.
  injection Hs as Hs. rewrite HP, Hp, Hs. split; [done|]. by rewrite !bool_decide_eq_true_2.
Qed.

Lemma named_fields id c :
  Provider (named id c) = Provider c ∧ intent_state (named id c) = intent_state c.
Proof. unfold named. by destruct (LeaseID c =s ""). Qed.

(** Writing the tombstone either fails and leaves the disk alone, or replaces
    the claim file by a tombstone. *)
Lemma write_tombstone_steps kind expected (t : Tx W) r t' :
  write_tombstone env after_terminal kind expected t = (r, t') →
  t_terminal t' = true ∧ deletions (t_log t') = deletions (t_log t) ∧
  ((sys_disk (t_sys t') = sys_disk (t_sys t) ∧ ∃ e, r = Err e) ∨
   ∃ c, tombstone kind c ∧ sys_disk (t_sys t') = <[LeaseID expected := Stored c]> (sys_disk (t_sys t))).
Proof.
  intros H. unfold write_tombstone in H. unfold mbind at 1, M_bind at 1, mark_terminal, modify in H.
  set (t1 := t <| t_terminal := true |>) in H. unfold mbind at 1, M_bind at 1, now in H.
  destruct (sys (interact (env_clock env)) t1) as [[time|e] t2] eqn:E2; [|by apply sys_inv in E2 as [_ E2]].
  apply sys_inv in E2 as [-> _]. set (t2 := t1 <| t_sys := _ |>) in H.
  unfold mbind at 1, M_bind at 1 in H. destruct (become_terminal kind time t2) as [[[]|e] t3] eqn:E3.
  2: { injection H as <- <-. unfold become_terminal, mbind, M_bind, claim, gets, lift in E3.
       destruct (TerminalClaim kind (t_claim t2) time); [done|]. injection E3 as _ <-. split_and!; try done.
       left. split; [done|by eexists]. }
  assert (parameters t3 = parameters t2 ∧ t_sys t3 = t_sys t2 ∧ Provider (t_claim t3) = k_ClaimProvider kind ∧
          intent_state (t_claim t3) = Some "released") as (P3 & S3 & Hp & Hs).
  { unfold become_terminal, mbind, M_bind, claim, gets, lift, modify in E3.
    destruct (TerminalClaim kind (t_claim t2) time) as [tomb|] eqn:Et; [|done]. injection E3 as <-.
    apply terminal_is_tombstone in Et as [E1 E2]. by split_and!. }
  clear E3. unfold mbind at 1, M_bind at 1 in H.
  pose proof (persist_frame env (LeaseID expected) t3) as [P4 _].
  destruct (persist env (LeaseID expected) t3) as [r4 t4] eqn:E4. cbn [snd] in P4.
  assert (parameters t4 = parameters t2) as P by congruence. unfold parameters in P. injection P as PL _ _ _ _ _ _ PT.
  cbn in PL, PT. assert (sys_disk (t_sys t3) = sys_disk (t_sys t)) as Hd3 by (rewrite S3; done).
  apply persist_cases in E4 as [[Hd [e ->]]|(c & Hc & Hd)].
  { injection H as <- <-. rewrite PL, PT. split_and!; try done. left. split; [by rewrite Hd|by eexists]. }
  destruct (named_fields (LeaseID expected) (t_claim t3)) as [N1 N2].
  assert (tombstone kind (cloneLeaseClaim c)) as HT.
  { eapply tombstone_fields; [exact Hc|congruence|congruence]. }
  assert (t_terminal t' = true ∧ deletions (t_log t') = deletions (t_log t4) ∧ sys_disk (t_sys t') = sys_disk (t_sys t4))
    as (Ht & Hl & Hd').
  { destruct r4 as [[]|e]; [|by injection H as <- <-]. unfold run_after_terminal, mbind, M_bind, claim, gets, modify in H.
    destruct (k_HasAfterTerminal kind); [|by injection H as <- <-].
    apply sys_inv in H as [-> _]. split_and!; [done| |].
    - cbn. unfold deletions. rewrite filter_app, filter_cons_False by done. cbn. apply app_nil_r.
    - cbn. unfold outside. by destruct (after_terminal _ _). }
  split_and!; [done|by rewrite Hl, PL|]. right. exists (cloneLeaseClaim c). split; [done|]. by rewrite Hd', Hd, Hd3.
Qed.

(** ** The session *)

(** What a call of [DeleteExact] relies on. *)
Definition deletion_admitted (kind : FixedLeaseKind) (expected : LeaseClaim) (e : event) : Prop :=
  announced kind (ev_claim e) (ev_file e) ∧ evolves expected (ev_claim e).

(** The outcome of a session for the claim file and the log. *)
Definition outcome (kind : FixedLeaseKind) (expected : LeaseClaim) (r : res ()) (t' : Tx W) : Prop :=
  (∃ c', sys_disk (t_sys t') !! LeaseID expected = Some (Stored c') ∧
     (evolves expected c' ∨ tombstone kind c' ∧ t_terminal t' = true)) ∧
  (deletions (t_log t') = [] ∨
   ∃ e, deletions (t_log t') = [e] ∧ deletion_admitted kind expected e).

(** The state of a session while nothing has been deleted. *)
Definition underway (expected : LeaseClaim) (t : Tx W) : Prop :=
  anchored (LeaseID expected) t ∧ evolves expected (t_claim t) ∧ deletions (t_log t) = [] ∧
  ∃ c, file_of (LeaseID expected) t = Some (Stored c) ∧ evolves expected c.

Lemma underway_outcome kind expected r t : underway expected t → outcome kind expected r t.
Proof. intros (_ & _ & Hl & c & Hc & He). split; [exists c; auto|by left]. Qed.

Lemma underway_retained expected t t' :
  retained (LeaseID expected) t t' → deletions (t_log t') = deletions (t_log t) →
  underway expected t → underway expected t'.
Proof.
  intros HR HL (Ha & He & Hl & c & Hc & Hec). destruct (HR Ha) as (Ha' & He' & Hf).
  destruct (Hf c Hc) as (c' & Hc' & Hec').
  split; [done|]. split; [etrans; [exact He|exact He']|]. split; [congruence|].
  exists c'. split; [done|etrans; [exact Hec|exact Hec']].
Qed.

Lemma callback_deletions {A} kind cb id (p : prog A) (t : Tx W) :
  deletions (t_log (callback_run env json remove_artifacts kind cb id p t).2) =
  (deletions (t_log t) ++ deletions [mkEvent cb (t_claim t) (sys_disk (t_sys t) !! id)])%list.
Proof.
  unfold callback_run, mbind, M_bind, modify. set (t1 := t <| t_log := _ |>).
  pose proof (run_prog_frame env json remove_artifacts kind p t1) as [P _].
  destruct (run_prog env json remove_artifacts kind p t1) as [r t2]. cbn [snd] in *.
  unfold parameters in P. injection P as PL _ _ _ _ _ _ _. rewrite PL. unfold t1, deletions.
  cbn [t_log setter set_t_log]. apply filter_app.
Qed.

Lemma callback_retained {A} lid kind cb id (p : prog A) :
  keeps (retained lid) (callback_run env json remove_artifacts kind cb id p).
Proof.
  unfold callback_run. apply keeps_bind; [apply _|by intros t; apply claim_step|intros _]. apply run_prog_retained.
Qed.

Lemma write_tombstone_outcome kind expected (t : Tx W) r t' :
  write_tombstone env after_terminal kind expected t = (r, t') →
  (∃ c, file_of (LeaseID expected) t = Some (Stored c) ∧ evolves expected c) →
  (deletions (t_log t) = [] ∨ ∃ e, deletions (t_log t) = [e] ∧ deletion_admitted kind expected e) →
  outcome kind expected r t'.
Proof.
  intros H (c & Hc & He) Hl. apply write_tombstone_steps in H as (Ht & HL & HD). split; [|by rewrite HL].
  destruct HD as [[HD _]|(c' & Htomb & HD)]; rewrite HD.
  - exists c. split; [exact Hc|by left].
  - exists c'. rewrite lookup_insert_eq. split; [done|by right].
Qed.

Lemma delete_resource_outcome kind expected policy delete_exact observed (t : Tx W) r t' :
  delete_resource (T:=T) env json remove_artifacts after_terminal kind expected policy delete_exact observed t = (r, t') →
  intent_state (t_claim t) ≠ Some "released" → underway expected t → outcome kind expected r t'.
Proof.
  intros H Hst HU. unfold delete_resource, mbind at 1, M_bind at 1 in H.
  destruct (enter_deletion env json kind _ t) as [r1 t1] eqn:E1.
  apply (enter_deletion_steps (LeaseID expected)) in E1 as (R1 & P1 & A1); [|done].
  assert (underway expected t1) as HU1.
  { eapply underway_retained; [exact R1| |done]. unfold parameters in P1. by injection P1 as -> _ _ _ _ _ _ _. }
  destruct r1 as [[]|e]; [|injection H as <- <-; by apply underway_outcome]. specialize (A1 eq_refl).
  unfold mbind at 1, M_bind at 1, mark_started, modify in H. set (t2 := t1 <| t_started := true |>) in H.
  assert (underway expected t2) as HU2 by exact HU1.
  destruct (ob_Candidates observed) as [|resource rest].
  - unfold mbind at 1, M_bind at 1, mret at 1, M_ret at 1 in H.
    destruct HU2 as (_ & _ & Hl & Hf). eapply write_tombstone_outcome; [exact H|exact Hf|by left].
  - unfold mbind at 1, M_bind at 1 in H. unfold mbind at 1, M_bind at 1, claim at 1, gets at 1 in H.
    pose proof (callback_deletions kind CDeleteExact (LeaseID (t_claim t2)) (delete_exact resource) t2) as HL.
    pose proof (callback_retained (LeaseID expected) kind CDeleteExact (LeaseID (t_claim t2)) (delete_exact resource) t2) as HR.
    destruct (callback_run env json remove_artifacts kind CDeleteExact (LeaseID (t_claim t2)) (delete_exact resource) t2)
      as [r3 t3]. cbn [snd] in HL, HR. destruct HU2 as (Ha & He & Hl & c & Hc & Hec).
    destruct (HR Ha) as (_ & _ & Hf). destruct (Hf c Hc) as (c3 & Hc3 & He3). rewrite Hl in HL.
    assert (∃ e, deletions (t_log t3) = [e] ∧ deletion_admitted kind expected e) as Hdel.
    { eexists. split; [exact HL|]. split; [exact A1|exact He]. }
    assert (∃ c, file_of (LeaseID expected) t3 = Some (Stored c) ∧ evolves expected c) as Hfile.
    { exists c3. split; [done|etrans; [exact Hec|exact He3]]. }
    destruct r3 as [[]|e].
    + eapply write_tombstone_outcome; [exact H|exact Hfile|by right].
    + injection H as <- <-. destruct Hfile as (c4 & Hc4 & He4). split; [exists c4; auto|by right].
Qed.

(** Finishing a released claim writes nothing. *)
Lemma finish_released_steps kind expected (t : Tx W) r t' :
  finish_released after_terminal kind expected t = (r, t') →
  sys_disk (t_sys t') = sys_disk (t_sys t) ∧ deletions (t_log t') = deletions (t_log t) ∧
  (r = Ok () → t_terminal t' = true).
Proof.
  intros H. unfold finish_released in H. unfold mbind at 1, M_bind at 1, claim at 1, gets at 1 in H.
  unfold mbind at 1, M_bind at 1, lift at 1 in H.
  destruct (ValidateTerminalClaim _ _ _ _ _) as [[]|e]; [|by injection H as <- <-].
  unfold mbind, M_bind, mark_started, mark_terminal, run_after_terminal, modify, claim, gets in H. 
  unfold mbind, M_bind in H. destruct (k_HasAfterTerminal kind); [|by injection H as <- <-].
  apply sys_inv in H as [-> ->]. split_and!; [| |done].
  - cbn. unfold outside. by destruct (after_terminal _ _).
  - cbn [t_log setter set_t_sys set_t_log set_t_started set_t_terminal]. unfold deletions.
    rewrite filter_app, filter_cons_False by done. apply app_nil_r.
Qed.

Lemma released_state c : is_released c = false ↔ intent_state c ≠ Some "released".
Proof.
  unfold is_released, intent_state. destruct (FixedCreateIntent c) as [i|]; cbn; [|split; done].
  rewrite bool_decide_eq_false. split; [by intros H [= E]|intros H E; apply H; by rewrite E].
Qed.

Lemma observe_for_delete_steps kind policy (observe : FixedObserveMode → @prog W (FixedObservation (T:=T))) lid (t : Tx W) :
  let t' := (observe_for_delete env json remove_artifacts kind policy observe t).2 in
  retained lid t t' ∧ deletions (t_log t') = deletions (t_log t).
Proof.
  cbv zeta. unfold observe_for_delete, mbind, M_bind, claim, gets.
  destruct (match policy with Some p => _ | None => false end); [by split|]. split; [apply callback_retained|].
  rewrite callback_deletions. unfold deletions at 2. rewrite filter_cons_False by done. apply app_nil_r.
Qed.

Lemma delete_observed_outcome kind expected policy observe delete_exact (t : Tx W) r t' :
  delete_observed (T:=T) env json remove_artifacts authorize_checkpoint after_terminal
    kind expected policy observe delete_exact t = (r, t') →
  underway expected t → outcome kind expected r t'.
Proof.
  intros H HU. unfold delete_observed in H. unfold mbind at 1, M_bind at 1, claim at 1, gets at 1 in H.
  unfold mbind at 1, M_bind at 1, lift at 1 in H.
  destruct (check_release_policy _ _ _) as [[]|e]; [|injection H as <- <-; by apply underway_outcome].
  unfold mbind at 1, M_bind at 1 in H.
  pose proof (observe_for_delete_steps kind policy observe (LeaseID expected) t) as [R1 L1].
  destruct (observe_for_delete env json remove_artifacts kind policy observe t) as [r1 t1]. cbn [snd] in R1, L1.
  assert (underway expected t1) as HU1 by (by eapply underway_retained).
  destruct r1 as [ob|e]; [|injection H as <- <-; by apply underway_outcome].
  unfold mbind at 1, M_bind at 1, lift at 1 in H.
  destruct (fixedObservationConflict ob) as [[]|e]; [|injection H as <- <-; by apply underway_outcome].
  unfold mbind at 1, M_bind at 1, claim at 1, gets at 1 in H.
  destruct (is_released (t_claim t1)) eqn:Hrel.
  - apply finish_released_steps in H as (Hd & Hl & _). destruct HU1 as (_ & _ & L & c & Hc & He). split.
    + exists c. rewrite Hd. auto.
    + left. congruence.
  - unfold mbind at 1, M_bind at 1, ensure at 1 in H.
    destruct (negb _ || ob_AbsenceProven ob); [|injection H as <- <-; by apply underway_outcome].
    eapply delete_resource_outcome; [exact H| |exact HU1]. by apply released_state.
Qed.

(** The session after the fence: its transaction, and the branch taken. *)
Lemma session_admitted kind expected policy observe delete_exact (t : Tx W) r t' :
  session kind expected policy observe delete_exact true t = (r, t') →
  t_claim t = expected → RecoveryHold expected = None →
  (∃ e, r = Err e ∧ t_claim t' = t_claim t ∧ t_sys t' = t_sys t ∧ t_log t' = t_log t) ∨
  ∃ t1, t_claim t1 = expected ∧ t_sys t1 = t_sys t ∧ t_log t1 = t_log t ∧ t_leaseID t1 = LeaseID expected ∧
    (is_released expected = true ∧ finish_released after_terminal kind expected t1 = (r, t') ∨
     delete_observed (T:=T) env json remove_artifacts authorize_checkpoint after_terminal
       kind expected policy observe delete_exact t1 = (r, t')).
Proof.
  intros H Hc Hh. unfold delete_session in H. unfold mbind at 1, M_bind at 1, claim at 1, gets at 1 in H. rewrite Hc in H.
  unfold mbind at 1, M_bind at 1, ensure at 1 in H. rewrite bool_decide_eq_true_2 in H by done.
  unfold mret at 1, M_ret at 1 in H. unfold mbind at 1, M_bind at 1, ensure at 1, claim_eqb in H.
  rewrite bool_decide_eq_true_2 in H by done. cbn [andb] in H. unfold mret at 1, M_ret at 1 in H.
  unfold mbind at 1, M_bind at 1 in H. pose proof (new_transaction_state false None t) as (N1 & N2 & _).
  assert (t_log (newFixedTransaction false None t).2 = t_log t) as N3.
  { unfold newFixedTransaction, validate_journal, intent, claim, mbind, M_bind, gets, lift.
    destruct (validateFixedJournal (FixedCreateIntent (t_claim t))); [|done].
    by destruct (FixedCreateIntent (t_claim t)). }
  destruct (newFixedTransaction false None t) as [[[]|e] t1] eqn:E1; cbn [snd] in *.
  2: { injection H as <- <-. left. exists e. by split_and!. }
  apply new_transaction_ok in E1 as (_ & _ & _ & _ & _ & Hl & _). right. exists t1.
  rewrite Hc in Hl, N1. refine (conj N1 (conj N2 (conj N3 (conj Hl _)))).
  destruct (match policy with Some p => _ | None => false end) eqn:Es; cbn [andb] in H; [|by right].
  destruct (is_released expected); [by left|by right].
Qed.

Lemma session_outcome kind expected policy observe delete_exact (t : Tx W) r t' :
  session kind expected policy observe delete_exact true t = (r, t') →
  t_claim t = expected → RecoveryHold expected = None → t_log t = [] →
  file_of (LeaseID expected) t = Some (Stored expected) →
  outcome kind expected r t'.
Proof.
  intros H Hc Hh HL Hf.
  apply session_admitted in H as [(e & -> & H1 & H2 & H3)|(t1 & H1 & H2 & H3 & H4 & H)]; [| |done..].
  { split; [|left; by rewrite H3, HL]. exists expected. rewrite H2. split; [exact Hf|left; reflexivity]. }
  assert (underway expected t1) as HU.
  { assert (file_of (LeaseID expected) t1 = Some (Stored expected)) as Hf1 by (unfold file_of in *; by rewrite H2).
    split; [intros c Hc1; rewrite Hf1 in Hc1; rewrite <-(stored_inj _ _ Hc1), H1; reflexivity|].
    split; [rewrite H1; reflexivity|]. split; [by rewrite H3, HL|]. exists expected. split; [done|reflexivity]. }
  destruct H as [[Hrel H]|H]; [|by eapply delete_observed_outcome].
  apply finish_released_steps in H as (Hd & Hl & _). destruct HU as (_ & _ & L & c & Hc1 & He). split.
  - exists c. rewrite Hd. auto.
  - left. congruence.
Qed.

(** C5. A deletion never loses the claim: whatever the adapter does and
    whatever fails, the claim file still exists afterwards and holds either a
    claim that evolved from the expected one (same lease, provider, create
    intent and resource identities) or, only when the deletion is reported
    terminal, a tombstone of this kind. *)
Theorem deletion_keeps_claim kind expected ops s r s' log st tm :
  Delete kind expected ops s = (r, s', log, st, tm) →
  sys_disk s !! LeaseID expected = Some (Stored expected) →
  ∃ c', sys_disk s' !! LeaseID expected = Some (Stored c') ∧
    (evolves expected c' ∨ tombstone kind c' ∧ tm = true).
Proof.
  intros H Hf. apply delete_inv in H
    as [(_ & Hd & _)|(observe & delete_exact & started & c & ex & s1 & t' & _ & _ & _ & Hd & Hb & -> & -> & -> & H1 & H2)].
  { exists expected. rewrite Hd. split; [done|left; reflexivity]. }
  pose proof Hb as Hfence. apply session_fence in Hfence as [[_ ->]|(-> & Hc & Hh)].
  { exists expected. cbn. rewrite Hd. split; [done|left; reflexivity]. }
  apply session_outcome in Hb as [Ho _]; [exact Ho|done..|]. unfold file_of. cbn. by rewrite Hd.
Qed.

(** C4. Deletions are written ahead: a deletion calls the adapter's
    [DeleteExact] at most once, with a claim that evolved from the expected
    one (so for exactly the resource it names), and, for a kind with a deletion
    state, when the claim file already holds that claim in the deletion state
    with its journal in phase [deleting]. *)
Theorem deletion_written_ahead kind expected ops s r s' log st tm :
  Delete kind expected ops s = (r, s', log, st, tm) →
  deletions log = [] ∨ ∃ e, deletions log = [e] ∧ deletion_admitted kind expected e.
Proof.
  intros H. apply delete_inv in H
    as [(-> & _)|(observe & delete_exact & started & c & ex & s1 & t' & _ & _ & _ & Hd & Hb & -> & -> & -> & H1 & H2)];
    [by left|].
  pose proof Hb as Hfence. apply session_fence in Hfence as [[_ ->]|(-> & Hc & Hh)]; [by left|].
  apply session_outcome in Hb as [_ Ho]; [exact Ho|done..|]. unfold file_of. cbn in Hc |- *.
  rewrite Hd, (H1 eq_refl). by rewrite Hc.
Qed.

(** ** Success *)

(** An adapter program that reports the failure of a transaction operation as
    its own failure. *)
Inductive obedient {A} : @prog W A → Prop :=
  | obedient_return r : obedient (Return _ r)
  | obedient_native effect k : (∀ w, obedient (k w)) → obedient (Native _ effect k)
  | obedient_view k : (∀ c labels, obedient (k c labels)) → obedient (View _ k)
  | obedient_call op k :
      (∀ e, ∃ e', k (Err e) = Return _ (Err e')) → obedient (k (Ok ())) → obedient (Call _ op k).

(** The claim on disk has the provider and the intent's state of the claim in
    memory. *)
Definition standing (c : LeaseClaim) : string * option string := (Provider c, intent_state c).
Definition synced (lid : string) (t : Tx W) : Prop :=
  ∃ c, file_of lid t = Some (Stored c) ∧ standing c = standing (t_claim t).

Lemma clone_standing c : standing (cloneLeaseClaim c) = standing c.
Proof. destruct c. unfold standing, intent_state, cloneLeaseClaim. cbn. by destruct FixedCreateIntent. Qed.

Lemma record_synced phase (t : Tx W) u t' : RecordPhase env phase t = (Ok u, t') → synced (t_leaseID t) t'.
Proof.
  intros H. apply RecordPhase_ok in H as (i & _ & _ & _ & _ & _ & _ & _ & Hd).
  exists (cloneLeaseClaim (t_claim t')). unfold file_of. rewrite Hd, lookup_insert_eq. split; [done|apply clone_standing].
Qed.

Lemma frame_leaseID {A} (m : TM A) (t : Tx W) : keeps frame m → t_leaseID (m t).2 = t_leaseID t.
Proof. intros H. destruct (H t) as [P _]. unfold parameters in P. by injection P. Qed.

(** A sequence that ends with [Record]. *)
Lemma then_record_synced {A} (m : TM A) phase (t : Tx W) u t' :
  keeps frame m → (m ≫= λ _, RecordPhase env phase) t = (Ok u, t') → synced (t_leaseID t) t'.
Proof.
  intros Hm H. apply M_bind_ok in H as (a & t1 & H1 & H). apply record_synced in H.
  pose proof (frame_leaseID m t Hm) as HL. rewrite H1 in HL. cbn in HL. by rewrite <-HL.
Qed.

Lemma reject_synced kind token terminal (t : Tx W) u t' :
  RejectAttempt env remove_artifacts kind token terminal t = (Ok u, t') → synced (t_leaseID t) t'.
Proof.
  intros H. unfold RejectAttempt in H. apply M_bind_ok in H as (? & ? & [= <- <-] & H). cbn [id] in H.
  apply M_bind_ok in H as (i & ? & H1 & H). apply intent_ok in H1 as [_ ->].
  apply M_bind_ok in H as (? & ? & H1 & H). apply ensure_ok in H1 as [_ ->]. destruct terminal.
  - apply M_bind_ok in H as (time & t1 & _ & H). apply M_bind_ok in H as (? & t2 & _ & H).
    apply M_bind_ok in H as (? & t3 & H3 & H). apply persist_ok in H3 as (_ & _ & _ & Hd).
    assert (synced (t_leaseID t) t3) as Hs.
    { exists (cloneLeaseClaim (t_claim t3)). unfold file_of. rewrite Hd, lookup_insert_eq. split; [done|apply clone_standing]. }
    destruct (k_RemoveKeyAfterRejection kind); [|by injection H as _ <-].
    apply M_bind_ok in H as (r & t4 & H4 & H). injection H as _ <-. unfold attempt in H4.
    destruct (sys _ t3) as [r5 t5] eqn:E5. injection H4 as _ <-. apply sys_inv in E5 as [-> _].
    destruct Hs as (c & Hc & Hcc). exists c. split; [|exact Hcc]. unfold file_of in *. cbn. unfold outside.
    by destruct (remove_artifacts _ _).
  - apply M_bind_ok in H as (failed & t1 & H1 & H). apply M_bind_ok in H as (? & t2 & H2 & H).
    apply M_bind_ok in H as (? & t3 & H3 & H). apply M_bind_ok in H as (? & t4 & H4 & H). injection H as _ <-.
    assert (t_leaseID t3 = t_leaseID t) as HL.
    { pose proof (frame_leaseID FailedAttemptSet t FailedAttemptSet_frame) as L1. rewrite H1 in L1. cbn in L1.
      apply set_intent_ok in H2, H3. subst t2 t3. exact L1. }
    apply record_synced in H4. rewrite HL in H4. exact H4.
Qed.

Lemma call_synced kind op (t : Tx W) u t' :
  run_call env json remove_artifacts kind op t = (Ok u, t') → synced (t_leaseID t) t → synced (t_leaseID t) t'.
Proof.
  intros H Hs. destruct op as [b|b| |token terminal| |phase| |key value|key value|scope]; cbn [run_call] in H.
  - unfold Bind in H. apply M_bind_ok in H as (? & ? & [= <- <-] & H).
    destruct (b_OnlyUnbound b && _); [by injection H as _ <-|]. eapply then_record_synced; [|exact H]. apply applyBinding_frame.
  - eapply then_record_synced; [|exact H]. apply applyBinding_frame.
  - unfold Admit in H. apply M_bind_ok in H as (? & ? & [= <- <-] & H). apply M_bind_ok in H as (i & ? & H1 & H).
    apply intent_ok in H1 as [_ ->]. apply M_bind_ok in H as (? & t1 & H1 & H).
    apply then_record_synced in H; [|frame_steps].
    match type of H1 with ?m t = _ => pose proof (frame_leaseID m t ltac:(unfold now; frame_steps)) as HL end.
    rewrite H1 in HL. cbn in HL. by rewrite <-HL.
  - by eapply reject_synced.
  - by eapply record_synced.
  - by eapply record_synced.
  - apply M_bind_ok in H as (? & t1 & H1 & H). injection H as _ <-. unfold FailedAttemptSet in H1.
    apply M_bind_ok in H1 as (? & ? & [= <- <-] & H1). cbn [id] in H1.
    destruct (t_failedSet t); [by injection H1 as _ <-|].
    apply M_bind_ok in H1 as (i & ? & H2 & H1). apply intent_ok in H2 as [_ ->].
    apply M_bind_ok in H1 as (? & t2 & H2 & H1). injection H1 as _ <-. apply (f_equal snd) in H2. cbn [snd modify] in H2.
    subst t2. exact Hs.
  - unfold RecordFixedWitness in H. apply M_bind_ok in H as (? & ? & [= <- <-] & H).
    destruct (FixedCreateIntent (t_claim t)); [|done].
    apply M_bind_ok in H as (? & ? & H1 & H). apply ensure_ok in H1 as [_ ->].
    apply M_bind_ok in H as (? & ? & H1 & H). apply ensure_ok in H1 as [_ ->].
    apply then_record_synced in H; [done|]. by apply set_intent_frame.
  - unfold write_label in H. apply M_bind_ok in H as (? & ? & [= <- <-] & H).
    apply M_bind_ok in H as (? & ? & H1 & H). apply ensure_ok in H1 as [_ ->].
    apply (f_equal snd) in H. cbn [snd set_claim modify] in H. subst t'. exact Hs.
  - apply (f_equal snd) in H. cbn [snd write_scope set_claim modify] in H. subst t'. exact Hs.
Qed.

Lemma run_prog_synced {A} kind (p : @prog W A) (t : Tx W) a t' :
  obedient p → run_prog env json remove_artifacts kind p t = (Ok a, t') → synced (t_leaseID t) t → synced (t_leaseID t) t'.
Proof.
  intros Hp. revert t. induction Hp as [r|effect k _ IH|k _ IH|op k He _ IH]; intros t H Hs; cbn [run_prog] in H.
  - by injection H as _ <-.
  - apply M_bind_ok in H as (? & t1 & H1 & H). apply sys_inv in H1 as [-> _].
    apply M_bind_ok in H as (? & ? & [= <- <-] & H). by apply IH in H.
  - apply M_bind_ok in H as (? & ? & [= <- <-] & H). by apply IH in H.
  - apply M_bind_ok in H as (r & t1 & H1 & H). unfold attempt in H1.
    assert (keeps frame (run_call env json remove_artifacts kind op : TM ())) as Hf.
    { apply run_call_frame. }
    pose proof (frame_leaseID _ t Hf) as HL.
    destruct (run_call env json remove_artifacts kind op t) as [r1 t2] eqn:E. injection H1 as <- <-. cbn in HL.
    destruct r1 as [[]|e].
    + rewrite <-HL. apply IH; [exact H|]. rewrite HL. by eapply call_synced.
    + destruct (He e) as [e' Hk]. rewrite Hk in H. done.
Qed.

Lemma tombstone_standing kind c c' :
  is_released c' = true → IsFixedClaim kind c' = true → standing c = standing c' → tombstone kind c.
Proof.
  unfold standing, tombstone, is_released, IsFixedClaim, intent_state. intros Hr Hf [= HP HI].
  destruct (FixedCreateIntent c') as [i'|], (FixedCreateIntent c) as [i|]; try done.
  cbn in *. injection HI as HI. by rewrite HP, HI.
Qed.

Lemma observe_synced kind policy (observe : FixedObserveMode → @prog W (FixedObservation (T:=T))) (t : Tx W) ob t' :
  observe_for_delete env json remove_artifacts kind policy observe t = (Ok ob, t') →
  obedient (observe ObserveDelete) → synced (t_leaseID t) t → synced (t_leaseID t) t'.
Proof.
  intros H Hob Hs. unfold observe_for_delete in H. apply M_bind_ok in H as (? & ? & [= <- <-] & H).
  destruct (match policy with Some p => _ | None => false end); [by injection H as _ <-|].
  unfold callback_run in H. apply M_bind_ok in H as (? & t1 & H1 & H).
  apply (f_equal snd) in H1. cbn [snd modify] in H1. subst t1. exact (run_prog_synced kind _ _ _ _ Hob H Hs).
Qed.

Lemma delete_observed_ok kind expected policy observe delete_exact (t : Tx W) t' :
  delete_observed (T:=T) env json remove_artifacts authorize_checkpoint after_terminal
    kind expected policy observe delete_exact t = (Ok (), t') →
  obedient (observe ObserveDelete) → IsFixedClaim kind expected = true → t_claim t = expected →
  t_leaseID t = LeaseID expected → file_of (LeaseID expected) t = Some (Stored expected) →
  (∃ c, file_of (LeaseID expected) t' = Some (Stored c) ∧ tombstone kind c) ∧ t_terminal t' = true.
Proof.
  intros H Hob Hfix Hc Hl Hf. unfold delete_observed in H. apply M_bind_ok in H as (? & ? & [= <- <-] & H).
  apply M_bind_ok in H as (? & ? & H1 & H). injection H1 as _ <-. apply M_bind_ok in H as (ob & t1 & H1 & H).
  assert (synced (LeaseID expected) t1) as (c1 & Hc1 & Hcc).
  { rewrite <-Hl. eapply observe_synced; [exact H1|done|]. exists expected. rewrite Hl, Hc. auto. }
  pose proof (observe_for_delete_steps kind policy observe (LeaseID expected) t) as [R1 _]. rewrite H1 in R1. cbn in R1.
  assert (anchored (LeaseID expected) t) as Ha.
  { intros c Hc0. rewrite Hf in Hc0. rewrite <-(stored_inj _ _ Hc0), Hc. reflexivity. }
  destruct (R1 Ha) as (_ & HE & _). rewrite Hc in HE.
  assert (IsFixedClaim kind (t_claim t1) = true) as Hfix1.
  { unfold IsFixedClaim in *. apply andb_true_iff in Hfix as [Hp Hi]. guards. destruct Hi as [i Hi].
    destruct HE as (_ & _ & _ & _ & HE). destruct (HE i Hi) as (Hp1 & i1 & Hi1 & _).
    rewrite Hp1, Hi1, Hp. by rewrite !bool_decide_eq_true_2. }
  apply M_bind_ok in H as (? & ? & H2 & H). injection H2 as _ <-. apply M_bind_ok in H as (? & ? & [= <- <-] & H).
  destruct (is_released (t_claim t1)) eqn:Hrel.
  - apply finish_released_steps in H as (Hd & _ & Ht). split; [|by apply Ht]. exists c1. unfold file_of in *.
    rewrite Hd. split; [done|]. by eapply tombstone_standing.
  - apply M_bind_ok in H as (? & ? & H2 & H). apply ensure_ok in H2 as [_ ->]. unfold delete_resource in H.
    apply M_bind_ok in H as (? & t2 & _ & H). apply M_bind_ok in H as (? & t3 & _ & H).
    apply M_bind_ok in H as (? & t4 & _ & H). apply write_tombstone_steps in H as (Ht & _ & [[_ [e ?]]|(c & HT & Hd)]); [done|].
    split; [|done]. exists c. unfold file_of. rewrite Hd, lookup_insert_eq. done.
Qed.

(** C6. A successful deletion leaves a tombstone: when the adapter's
    observation reports the failures of the operations it calls, a deletion
    that returns no error leaves in the claim file a released claim of this
    kind, and reports the deletion as terminal. *)
Theorem deletion_leaves_tombstone kind expected ops observe s s' log st tm :
  Delete kind expected ops s = (Ok (), s', log, st, tm) →
  op_ObserveExact ops = Some observe → obedient (observe ObserveDelete) →
  ∃ c', sys_disk s' !! LeaseID expected = Some (Stored c') ∧ tombstone kind c' ∧ tm = true.
Proof.
  intros H Ho Hob. apply delete_inv in H
    as [(_ & _ & [e ?] & _)|(observe' & delete_exact & started & c & ex & s1 & t' & Ho' & _ & Hfix & Hd & Hb & -> & -> & -> & H1 & H2)];
    [done|].
  rewrite Ho' in Ho. injection Ho as ->.
  pose proof Hb as Hfence. apply session_fence in Hfence as [[[e ?] _]|(-> & Hc & Hh)]; [done|]. cbn in Hc. subst c.
  assert (sys_disk s1 !! LeaseID expected = Some (Stored expected)) as Hf by (rewrite Hd; by apply H1).
  apply session_admitted in Hb as [(e & ? & _)|(t1 & C1 & S1 & _ & L1 & Hb)]; [done| |done..].
  assert (file_of (LeaseID expected) t1 = Some (Stored expected)) as Hf1 by (unfold file_of; by rewrite S1).
  destruct Hb as [[Hrel Hb]|Hb].
  - apply finish_released_steps in Hb as (Hd1 & _ & Ht). exists expected. rewrite Hd1. split_and!; [exact Hf1|by split|by apply Ht].
  - apply delete_observed_ok in Hb as [(c & Hc & HT) Ht]; try done. by exists c.
Qed.

(** ** Inspection *)

(** In a read-only transaction no step writes a claim file. *)
Definition unwritten (t t' : Tx W) : Prop :=
  t_readonly t = true → t_readonly t' = true ∧ sys_disk (t_sys t') = sys_disk (t_sys t).
#[export] Instance unwritten_preorder : PreOrder unwritten.
Proof.
  split; [by intros t|]. intros x y z H1 H2 H. destruct (H1 H) as [R1 D1]. destruct (H2 R1) as [R2 D2].
  split; congruence.
Qed.

Lemma sys_unwritten {A} (m : M (Sys W) A) : keeps same_disk m → keeps unwritten (sys m).
Proof.
  intros Hm t Hr. unfold sys. specialize (Hm (t_sys t)). destruct (m (t_sys t)) as [r s]. cbn in *. by split.
Qed.
Lemma outside_unwritten {A} (m : M W A) : keeps unwritten (sys (outside m)).
Proof. apply sys_unwritten, outside_keeps. Qed.
Lemma interact_unwritten {A} (f : nat → A) : keeps unwritten (sys (interact f)).
Proof. by apply sys_unwritten. Qed.
Lemma set_claim_unwritten f : keeps unwritten (set_claim f).
Proof. by intros t. Qed.
Lemma persist_unwritten id : keeps unwritten (persist env id : TM ()).
Proof. intros t Hr. unfold persist, mbind, M_bind, gets. cbn [Datatypes.id]. rewrite Hr. done. Qed.
Lemma intent_unwritten : keeps unwritten intent.
Proof. eapply keeps_weaken; [apply intent_still|]. intros t t' (_ & D & P & _) Hr. unfold parameters in P.
  injection P as _ _ _ _ _ P6 _ _. split; congruence. Qed.

Ltac unwritten_more := fail.
Ltac unwritten_steps :=
  repeat first
    [ unwritten_more | apply keeps_ret; apply _ | apply keeps_fail; apply _ | apply keeps_lift; apply _
    | apply keeps_gets; apply _ | apply keeps_ensure; apply _
    | apply set_claim_unwritten | apply persist_unwritten | apply intent_unwritten
    | apply interact_unwritten | apply outside_unwritten
    | (apply keeps_bind; [apply _| |intros ?]) | (apply keeps_attempt)
    | (intros ?; intros ?; by split) | case_match ].

Lemma RecordPhase_unwritten phase : keeps unwritten (RecordPhase env phase : TM ()).
Proof. unfold RecordPhase, validate_journal, claim. unwritten_steps. Qed.

Lemma applyBinding_unwritten b : keeps unwritten (applyBinding json b : TM ()).
Proof. unfold applyBinding, set_intent, claim. unwritten_steps. Qed.

Ltac unwritten_more ::= first [ apply RecordPhase_unwritten | apply applyBinding_unwritten ].

Lemma call_unwritten kind op : keeps unwritten (run_call env json remove_artifacts kind op : TM ()).
Proof.
  destruct op; cbn [run_call]; unfold Bind, Observe, Admit, RejectAttempt, FailedAttemptSet,
    RecordFixedWitness, write_label, write_scope, become_terminal, set_intent, claim, now, PersistDeletionEvidence;
    unwritten_steps.
Qed.

Lemma run_prog_unwritten {A} kind (p : @prog W A) : keeps unwritten (run_prog env json remove_artifacts kind p).
Proof.
  induction p as [r|effect k IH|k IH|op k IH]; cbn [run_prog].
  - by apply keeps_lift, _.
  - apply keeps_bind; [apply _|apply outside_unwritten|intros _].
    apply keeps_bind; [apply _|by apply keeps_gets, _|intros t]. apply IH.
  - apply keeps_bind; [apply _|by apply keeps_gets, _|intros t]. apply IH.
  - apply keeps_bind; [apply _|apply keeps_attempt, call_unwritten|intros r; apply IH].
Qed.

Ltac unwritten_more ::= apply run_prog_unwritten.

Definition reads_only {A} (m : M (Sys W) A) : Prop := ∀ s, sys_disk (m s).2 = sys_disk s.

(** An inspection writes nothing: whatever program the adapter's
    observation runs, [InspectFixedResource] leaves every claim file as it was. *)
Theorem inspection_writes_nothing kind c (observe : option (FixedObserveMode → @prog W (FixedObservation (T:=T)))) :
  reads_only (InspectFixedResource env json remove_artifacts kind c observe).
Proof.
  intros s.   unfold InspectFixedResource. destruct (IsFixedClaim kind c && _); [|done]. destruct observe as [observe|]; [|done].
  set (t0 := open_session (cloneLeaseClaim c) s false true).
  match goal with |- context [?m t0] => assert (keeps unwritten m) as K; [|specialize (K t0 eq_refl); destruct (m t0) as [r t]; apply K] end.
  unfold newFixedTransaction, validate_journal, claim, callback_run. unwritten_steps.
Qed.
End deletion.

(** ** A concrete deletion *)

Definition demo_delete (expected : LeaseClaim) (s : Sys (list string)) :=
  DeleteFixedResource calm no_json (λ _, mret ()) (λ _ _, Ok ()) (λ _, mret ())
    demo_kind expected (demo_operations demo_admission) s.

Lemma quintuple_eta {A B C D E} (x : A * B * C * D * E) : x = (x.1.1.1.1, x.1.1.1.2, x.1.1.2, x.1.2, x.2).
Proof. by destruct x as [[[[? ?] ?] ?] ?]. Qed.

Definition stale_expectation : LeaseClaim := demo_claim <| Revision := "stale" |>.

Lemma deletion_fenced_witness :
  (demo_delete stale_expectation demo_acquired).1.1.2 = [] ∧
  sys_disk (demo_delete stale_expectation demo_acquired).1.1.1.2 = sys_disk demo_acquired.
Proof.
  assert (sys_disk demo_acquired !! LeaseID stale_expectation ≠ Some (Stored stale_expectation)) as Hne.
  { intros H. apply (f_equal (λ f, match f with Some (Stored c) => Revision c | _ => "" end)) in H.
    vm_compute in H. discriminate. }
  unfold demo_delete.
  destruct (deletion_fenced calm no_json (λ _, mret ()) (λ _ _, Ok ()) (λ _, mret ()) demo_kind stale_expectation
    (demo_operations demo_admission) demo_acquired _ _ _ _ _ (quintuple_eta _) (or_introl Hne)) as ((_ & H1 & H2) & _).
  split; [exact H1|exact H2].
Defined.

Lemma demo_lease_stored : sys_disk demo_acquired !! LeaseID demo_claim = Some (Stored demo_claim).
Proof. vm_compute. reflexivity. Qed.

Lemma deletion_keeps_claim_witness :
  ∃ c', sys_disk (demo_delete demo_claim demo_acquired).1.1.1.2 !! LeaseID demo_claim = Some (Stored c') ∧
    (evolves demo_claim c' ∨ tombstone demo_kind c' ∧ (demo_delete demo_claim demo_acquired).2 = true).
Proof.
  unfold demo_delete.
  exact (deletion_keeps_claim calm no_json (λ _, mret ()) (λ _ _, Ok ()) (λ _, mret ()) demo_kind demo_claim
    (demo_operations demo_admission) demo_acquired _ _ _ _ _ (quintuple_eta _) demo_lease_stored).
Defined.

Lemma deletion_written_ahead_witness :
  ∃ e, deletions (demo_delete demo_claim demo_acquired).1.1.2 = [e] ∧ deletion_admitted demo_kind demo_claim e.
Proof.
  assert (deletions (demo_delete demo_claim demo_acquired).1.1.2 ≠ []) as Hne by (vm_compute; discriminate).
  unfold demo_delete in *.
  destruct (deletion_written_ahead calm no_json (λ _, mret ()) (λ _ _, Ok ()) (λ _, mret ()) demo_kind demo_claim
    (demo_operations demo_admission) demo_acquired _ _ _ _ _ (quintuple_eta _)) as [H|H]; [destruct (Hne H)|exact H].
Defined.

Lemma deletion_tombstone_witness :
  ∃ c', sys_disk (demo_delete demo_claim demo_acquired).1.1.1.2 !! LeaseID demo_claim = Some (Stored c') ∧
    tombstone demo_kind c' ∧ (demo_delete demo_claim demo_acquired).2 = true.
Proof.
  assert ((demo_delete demo_claim demo_acquired).1.1.1.1 = Ok ()) as Hok by (vm_compute; reflexivity).
  pose proof (quintuple_eta (demo_delete demo_claim demo_acquired)) as E. rewrite Hok in E. unfold demo_delete in *.
  refine (deletion_leaves_tombstone calm no_json (λ _, mret ()) (λ _ _, Ok ()) (λ _, mret ()) demo_kind demo_claim
    (demo_operations demo_admission) _ demo_acquired _ _ _ _ E eq_refl _).
  apply obedient_native. intros w. apply obedient_return.
Defined.
