(* ===== verification/FixedRelease.v ===== *)
(** * Finalising a release

    [fixed_lease_claim.go] ([FinalizeAfterCleanup], [RetainClaimAfterRelease]),
    [fixed_lease_engine.go] ([finalizeFixedLeaseWithArtifacts]) and the recovery
    helpers of [fixed_lease_protocol.go]: how a claim becomes a tombstone after
    its resource is gone, how a later command re-attests it, and how a claim
    attested by the provider is restored. *)

From Stdlib Require Import ZArith Lia.
From stdpp Require Import gmap strings prelude.
From S2P Require Import Prelude GoText GoTime Sha256 ClaimData Slug Labels Identity Journal ClaimStore ClaimOps FixedTx FixedFrame FixedEngine FixedSafety.
Local Open Scope string_scope.
Local Open Scope Z_scope.
Local Open Scope crab_scope.

Section release.
Context {W : Type} (env : Env).
(** [FixedLeaseKind.AfterTerminal] *)
Context (after_terminal : LeaseClaim → M W ()).
Local Abbreviation TM := (M (Tx W)).

(** The session of [finalizeFixedLeaseWithArtifacts]. *)
Definition finalize_session (expected terminal : LeaseClaim) (deleteExact : M W ()) (exists_ : bool) : TM () :=
  c ← claim;
  ensure (exists_ && claim_eqb c expected) (Exit 2 "lease %s claim changed; retry");;
  sys (outside deleteExact);;
  set_claim (λ _, terminal);;
  persist env (LeaseID expected);;
  c ← claim;
  sys (outside (after_terminal c)).

Definition finalizeFixedLeaseWithArtifacts (expected terminal : LeaseClaim) (deleteExact : M W ())
    : M (Sys W) () := λ s,
  let '(r, s', _, _, _) :=
    WithDurableLeaseClaimLock env (LeaseID expected) false (finalize_session expected terminal deleteExact) s in
  (r, s').

(** The error of a replacement, as the caller returns it. *)
Definition replace_after (leaseID : string) (current replacement : LeaseClaim) (action : M W ())
    : M (Sys W) () := λ s,
  let '(_, err, s') := ReplaceLeaseClaimIfUnchangedDurableAfter env leaseID current replacement (Some action) s in
  (match err with None => Ok () | Some e => Err e end, s').

Definition FinalizeAfterCleanup (k : FixedLeaseKind) (c : LeaseClaim) (action : M W ()) : M (Sys W) () :=
  ensure (bool_decide (RecoveryHold c = None)) (Exit 4 "recovery_required: lease %s is held for salvage");;
  if negb (IsFixedClaim k c) then RemoveLeaseClaimIfUnchangedAfter env (LeaseID c) c (Some action)
  else
    time ← interact (env_clock env);
    tombstone ← lift (TerminalClaim k c time);
    if k_HasAfterTerminal k then finalizeFixedLeaseWithArtifacts c tombstone action
    else replace_after (LeaseID c) c tombstone action.

(** [PublishFixedRecoveryClaimIfAbsent] *)
Definition recovery_rules (k : FixedLeaseKind) : FixedClaimRules :=
  mkRules true false false "" [] None true false k ["acquired"] "" "" true true true true true true
    false false false.

Definition PublishFixedRecoveryClaimIfAbsent (k : FixedLeaseKind) (c : LeaseClaim) (s : Sys W)
    : LeaseClaim * option error * Sys W :=
  match ValidateFixedClaim c (recovery_rules k) with
  | Err e => (empty_claim, Some e, s)
  | Ok _ =>
      transactLeaseClaim env (LeaseID c)
        (mkTransaction (Some (unchangedLeaseClaimGuard empty_claim false)) None
           (pure_mutate (λ _, Ok (cloneLeaseClaim c)))
           AfterMutation DirectoryDurableNamespace Publish false) s
  end.

(** [ReconcileFixedReadiness]: whether the claim is retained, and the error. *)
Definition ReconcileFixedReadiness (expected : LeaseClaim) (keep identityConflict : bool)
    (prepare : option (M W ())) (rollbackExact : M W ()) (reconcile : M W (bool * option error))
    : M (Sys W) (bool * option error) :=
  if identityConflict then
    r ← attempt (VerifyLeaseClaimUnchanged env (LeaseID expected) expected);
    mret (match r with Ok _ => (true, None) | Err e => (false, Some e) end)
  else
    match prepare with Some p => outside p | None => mret () end;;
    if negb keep then
      r ← attempt (outside rollbackExact);
      match r with
      | Ok _ => mret (false, None)
      | Err rollbackErr =>
          '(retained, reconcileErr) ← outside reconcile;
          mret (retained, Some (match reconcileErr with
                                | Some e => Join rollbackErr e
                                | None => rollbackErr
                                end))
      end
    else outside reconcile.

(** [BindFixedClaim] *)
Definition BindFixedClaim (json : Json) (binding : FixedResourceBinding) (persist : TM ()) : TM () :=
  c ← claim;
  if b_OnlyUnbound binding && (CloudID c <>s "") then mret ()
  else
    newFixedTransaction false None;;
    applyBinding json binding;;
    persist.
End release.

(** ** Re-attestation

    Reading is a function of the disk; the extra checks are functions of the
    claim. *)
Definition retain_error : error :=
  Exit 4 "lease_id_conflict: fixed %s lease %s has no valid terminal tombstone after release".

Definition RetainClaimAfterRelease (disk : gmap string claim_file) (k : FixedLeaseKind) (leaseID : string)
    (previous : LeaseClaim) (providerEvidence : bool)
    (extraValidation afterValidation : option (LeaseClaim → res ())) : res bool :=
  match ReadLeaseClaimWithPresence disk leaseID with
  | Err e => Err (Wrap "re-attest released %s claim %s: %w" e)
  | Ok (c, exists_) =>
      if negb exists_ || negb (IsFixedClaim k c) then
        if IsFixedClaim k previous || providerEvidence then Err retain_error else Ok false
      else
        ValidateTerminalClaim k c previous leaseID extraValidation;;
        match afterValidation with Some check => check c | None => Ok () end;;
        Ok true
  end.

Definition RetainMatchingFingerprint (disk : gmap string claim_file) (k : FixedLeaseKind) (leaseID : string)
    (previous : LeaseClaim) (fingerprint : string) : res bool :=
  RetainClaimAfterRelease disk k leaseID previous (fingerprint <>s "") None
    (Some (λ c, match FixedCreateIntent c with
                | None => Err (Panic "nil dereference")
                | Some i =>
                    reject_if ((fingerprint <>s "") && (fingerprint <>s i_Fingerprint i))
                      (Exit 4 "lease_id_conflict: fixed lease %s resource label differs from its terminal tombstone")
                end)).

(** [ReadTerminal]: whether the lease is terminal, and the error. *)
Definition ReadTerminal (disk : gmap string claim_file) (k : FixedLeaseKind) (leaseID : string) : bool * res () :=
  match ReadLeaseClaimWithPresence disk leaseID with
  | Err e => (true, Err e)
  | Ok (c, exists_) =>
      let released := match FixedCreateIntent c with Some i => i_State i =s "released" | None => false end in
      if negb exists_ || negb (IsFixedClaim k c) || negb released then (false, Ok ())
      else (true, ValidateTerminalClaim k c c leaseID None)
  end.

(** ** Candidates *)
Section candidates.
Context {T : Type}.

Definition SelectFixedCandidate (items : list T) (match_ : T → bool) : res (option T) :=
  let matches := List.filter match_ items in
  fixedObservationConflict (mkObservation None matches false false "");;
  Ok (head matches).

(** [FixedLookupObservation]: what a native lookup by name means. *)
Definition FixedLookupObservation (c : LeaseClaim) (lookup : res T) (notFound : option (error → bool))
    (attest : LeaseClaim → T → res ()) : res (FixedObservation (T:=T)) :=
  match FixedCreateIntent c with
  | None => Err (Panic "nil dereference")
  | Some i =>
      match i_Attempt i, lookup with
      | None, Ok _ => Err (Exit 4 "lease_id_conflict: %s resource already exists without its create intent")
      | None, Err e =>
          if match notFound with Some f => f e | None => false end
          then Ok (mkObservation None [] true false "") else Err e
      | Some _, Err e => Err (Wrap "%s fixed create unresolved; no replacement allocated: %w" e)
      | Some _, Ok resource => attest c resource;; Ok (mkObservation None [resource] false false "")
      end
  end.
End candidates.

(** ** Native lookups through the engine *)
Section lookups.
Context {W T : Type} (env : Env) (json : Json) (remove_artifacts : string → M W ()).
Context (authorize_checkpoint : LeaseClaim → string → res ()).
Context (after_terminal : LeaseClaim → M W ()).

(** An adapter callback that only acts on the outside world. *)
Definition native {A} (m : M W A) : @prog W A :=
  Native _ id (λ w, Native _ (λ _, (m w).2) (λ _, Return _ (m w).1)).

(** [InspectFixedCandidate]: the matching resource, if there is one. *)
Definition InspectFixedCandidate (k : FixedLeaseKind) (c : LeaseClaim) (inventory : M W (list T))
    (match_ : T → bool) : M (Sys W) (option T) :=
  observed ← InspectFixedResource env json remove_artifacts k c
    (Some (λ _, native (items ← inventory;
                        mret (mkObservation None (List.filter match_ items) false false ""))));
  mret (head (ob_Candidates observed)).

(** [LookupFixedResource] *)
Definition LookupFixedResource (k : FixedLeaseKind) (c : LeaseClaim) (lookup : LeaseClaim → M W T)
    : M (Sys W) (option T) :=
  observed ← InspectFixedResource env json remove_artifacts k c
    (Some (λ _, View _ (λ claim _, native (resource ← lookup claim;
                                           mret (mkObservation None [resource] false false "")))));
  mret (head (ob_Candidates observed)).

(** [DeleteClaimedEvidence] *)
Definition DeleteClaimedEvidence (k : FixedLeaseKind) (c : LeaseClaim) (attest : M W T) (deleteExact : T → M W ())
    : M (Sys W) () :=
  if negb (IsFixedClaim k c) then FinalizeAfterCleanup env after_terminal k c (e ← attest; deleteExact e)
  else λ s,
    let '(r, s', _, _, _) :=
      DeleteFixedResource env json remove_artifacts authorize_checkpoint after_terminal k c
        (mkOperations None "" false None None None false None
           (Some (λ _, native (e ← attest; mret (mkObservation None [e] false false "")))) None None
           (Some (λ e, native (deleteExact e)))) s in
    (r, s').
End lookups.

(** ** The tombstone of a release *)

(** [t] is the tombstone of [c] as the store holds it: under a fresh revision. *)
Definition tombstone_of (k : FixedLeaseKind) (c t : LeaseClaim) : Prop :=
  ∃ time tomb bytes, TerminalClaim k c time = Ok tomb ∧
    t = (cloneLeaseClaim tomb) <| Revision := hex_of_bytes bytes |>.

Lemma terminal_plain k c time tomb : TerminalClaim k c time = Ok tomb →
  LeaseID tomb = LeaseID c ∧ CheckpointCapture tomb = None ∧ ActionsWorkspace tomb = None.
Proof.
  unfold TerminalClaim. destruct (FixedCreateIntent c) as [i|]; [|done]. intros <-%Ok_inj.
  by destruct (has_identity_labels k).
Qed.

Lemma set_same_lease c : c <| LeaseID := LeaseID c |> = c.
Proof. by destruct c. Qed.

Lemma named_same c : named (LeaseID c) c = c.
Proof. unfold named. case_bool_decide; [apply set_same_lease|done]. Qed.

Section finalize.
Context {W : Type} (env : Env).
Implicit Types s : Sys W.

Lemma refresh_result c s r s' : refreshLeaseClaimRevision env c s = (r, s') →
  untouched s s' ∧ match r with Ok c' => ∃ bs, c' = c <| Revision := hex_of_bytes bs |> | Err _ => True end.
Proof.
  unfold refreshLeaseClaimRevision, mbind, M_bind, interact. cbn.
  destruct (env_random env (sys_tick s)) as [bs|]; intros [= <- <-]; split; try done. by exists bs.
Qed.

(** A [persist] of a complete claim without a checkpoint capture. *)
Lemma persist_complete (t : Tx W) r t' :
  CheckpointCapture (t_claim t) = None → t_readonly t = false →
  persist env (LeaseID (t_claim t)) t = (r, t') →
  sys_world (t_sys t') = sys_world (t_sys t) ∧
  ((sys_disk (t_sys t') = sys_disk (t_sys t) ∧ ∃ e, r = Err e) ∨
   ∃ bs, sys_disk (t_sys t') = <[LeaseID (t_claim t) :=
     Stored (cloneLeaseClaim ((t_claim t) <| Revision := hex_of_bytes bs |>))]> (sys_disk (t_sys t))).
Proof.
  intros HC HR H. unfold persist in H. unfold mbind at 1, M_bind at 1, gets at 1 in H. cbn [id] in H.
  rewrite HR in H. unfold mbind at 1, M_bind at 1, ensure at 1 in H. cbn [negb] in H.
  unfold mret at 1, M_ret at 1 in H. unfold mbind at 1, M_bind at 1, set_claim at 1, modify at 1 in H.
  fold (named (LeaseID (t_claim t)) (t_claim t)) in H. rewrite named_same in H.
  unfold mbind at 1, M_bind at 1, claim at 1, gets at 1 in H. cbn [t_claim setter set_t_claim] in H.
  unfold mbind at 1, M_bind at 1, ensure at 1 in H. rewrite bool_decide_eq_true_2 in H by done.
  unfold mret at 1, M_ret at 1 in H. unfold mbind at 1, M_bind at 1, sys at 1 in H. cbn [t_sys setter set_t_claim] in H.
  destruct (refreshLeaseClaimRevision env (t_claim t) (t_sys t)) as [[c|e] s] eqn:E;
    apply refresh_result in E as [[Hd Hw] E].
  2: { injection H as <- <-. split; [exact Hw|]. left. split; [exact Hd|by eexists]. }
  destruct E as [bs ->]. cbn [CheckpointCapture setter set_Revision] in H. rewrite HC in H.
  unfold mbind at 1, M_bind at 1, set_claim at 1, modify at 1, sys in H.
  cbn [t_sys setter set_t_claim set_t_sys] in H.
  destruct (writeLeaseClaim env true _ _ s) as [rw sw] eqn:Ew.
  apply writeLeaseClaim_spec in Ew as [Hw' Ew]. injection H as <- <-. cbn.
  split; [congruence|]. destruct Ew as [Ew|[Ew He]]; [right; exists bs; by rewrite Ew, Hd|left; split; congruence].
Qed.

Lemma lock_run {A} lid (action : bool → M (Tx W) A) s r s' log st tm :
  WithDurableLeaseClaimLock env lid false action s = (r, s', log, st, tm) →
  (untouched s s' ∧ ∃ e, r = Err e) ∨
  ∃ c ex s1 t', untouched s s1 ∧ action ex (open_session c s1 false false) = (r, t') ∧ s' = t_sys t' ∧
    (ex = true → on_disk s lid c).
Proof.
  unfold WithDurableLeaseClaimLock. pose proof (open_claim_untouched env lid s) as U.
  destruct (open_claim env lid s) as [[[c ex]|e] s1] eqn:E; cbn [snd] in U.
  - destruct (action ex _) as [r0 t'] eqn:Ea. intros [= <- <- <- <- <-]. right. exists c, ex, s1, t'.
    apply open_claim_ok in E as (_ & H1 & _). split_and!; try done. intros Hx. exact (proj1 (H1 Hx)).
  - intros [= <- <- <- <- <-]. left. split; [done|by eexists].
Qed.

(** What a finalisation did: nothing at all for a stale claim; otherwise the
    disk is as before and an error is reported, or the cleanup succeeded and
    the tombstone is the claim file. *)
Definition concluded (k : FixedLeaseKind) (c : LeaseClaim) (action : M W ()) s (r : res ()) s' : Prop :=
  (¬ on_disk s (LeaseID c) c → (∃ e, r = Err e) ∧ untouched s s') ∧
  (sys_disk s' = sys_disk s ∧ (∃ e, r = Err e) ∨
   ∃ t w, tombstone_of k c t ∧ action (sys_world s) = (Ok (), w) ∧
     sys_disk s' = <[LeaseID c := Stored t]> (sys_disk s)).

Lemma untouched_concluded k c action s r s' : untouched s s' → (∃ e, r = Err e) → concluded k c action s r s'.
Proof. intros [Hd Hw] He. split; [done|by left]. Qed.

Lemma artifacts_concluded after k c time tomb action s r s' :
  TerminalClaim k c time = Ok tomb →
  finalizeFixedLeaseWithArtifacts env after c tomb action s = (r, s') → concluded k c action s r s'.
Proof.
  intros HT H. destruct (terminal_plain _ _ _ _ HT) as (Hid & Hcc & _). unfold finalizeFixedLeaseWithArtifacts in H.
  destruct (WithDurableLeaseClaimLock _ _ _ _ s) as [[[[r0 s0] log] st] tm] eqn:E. injection H as -> ->.
  apply lock_run in E as [[U He]|(c0 & ex & s1 & t' & U & H & -> & Hd)]; [by apply untouched_concluded|].
  unfold finalize_session in H. unfold mbind at 1, M_bind at 1, claim at 1, gets at 1 in H.
  unfold mbind at 1, M_bind at 1, ensure at 1 in H. cbn [t_claim open_session] in H.
  destruct (ex && claim_eqb c0 c) eqn:Eg.
  2: { injection H as <- <-. apply untouched_concluded; [exact U|by eexists]. }
  apply andb_true_iff in Eg as [-> Eg]. unfold claim_eqb in Eg. apply bool_decide_eq_true_1 in Eg as ->.
  split; [intros Hn; destruct Hn; by apply Hd|]. destruct U as [Ud Uw].
  unfold mret at 1, M_ret at 1 in H. unfold mbind at 1, M_bind at 1, sys at 1, outside at 1 in H.
  cbn [t_sys open_session] in H. rewrite Uw in H.
  destruct (action (sys_world s)) as [[[]|e] w] eqn:Ea.
  2: { injection H as <- <-. left. split; [exact Ud|by eexists]. }
  unfold mbind at 1, M_bind at 1, set_claim at 1, modify at 1 in H. cbn [t_claim setter set_t_claim] in H.
  match type of H with context [(persist _ _ ≫= _) ?t] => set (t1 := t) in H end.
  unfold mbind at 1, M_bind at 1 in H. destruct (persist env (LeaseID c) t1) as [rp t2] eqn:Ep.
  rewrite <-Hid in Ep.
  apply (persist_complete t1) in Ep as [_ [[Hd2 [e ->]]|[bs Hd2]]]; [| |exact Hcc|done].
  { injection H as <- <-. left. split; [|by eexists]. rewrite Hd2. exact Ud. }
  right. exists (cloneLeaseClaim (tomb <| Revision := hex_of_bytes bs |>)), w. split_and!; [|done|].
  - exists time, tomb, bs. split; [done|]. apply clone_set_revision.
  - transitivity (sys_disk (t_sys t2)).
    + destruct rp as [[]|e]; [|by injection H as _ <-].
      unfold mbind, M_bind, claim, gets, sys, outside in H. destruct (after _ _) as [ra wa]. by injection H as _ <-.
    + rewrite Hd2. cbn [t_sys t1 t_claim setter set_t_sys set_t_claim]. by rewrite Hid, Ud.
Qed.

(** The body of a replacement that carries an action, from the expected claim. *)
Lemma replace_body id current replacement action s r s' :
  on_disk s id current →
  transaction_body env id (mkTransaction (Some (unchangedLeaseClaimGuard current true))
    (claimTransactionAction (Some action))
    (pure_mutate (λ claim,
       let replacement := if negb (sameActionsWorkspaceClaimOwner claim replacement)
                          then replacement <| ActionsWorkspace := None |> else replacement in
       Ok (cloneLeaseClaim replacement))) AfterMutation DirectoryExisting Publish true) s = (r, s') →
  sys_disk s' = sys_disk s ∧ match r with Ok (_, err) => err ≠ None | Err _ => True end ∨
  ∃ u w, replaced_by current replacement u ∧ action (sys_world s) = (Ok (), w) ∧
    sys_disk s' = <[id := Stored u]> (sys_disk s).
Proof.
  intros Hd H. unfold transaction_body, mbind at 1, M_bind at 1 in H.
  destruct (readLeaseClaimPathWithPresence id s) as [[[c ex]|e] s0] eqn:Er.
  2: { pose proof (read_keeps id s) as Hk. rewrite Er in Hk. injection H as <- <-. left. split; [apply Hk|done]. }
  apply read_stored in Er as [-> Hc]. unfold mbind at 1, M_bind at 1, lift at 1 in H.
  destruct (validateLeaseClaimFileIdentity id c ex); [|injection H as <- <-; by left].
  unfold mbind at 1, M_bind at 1, lift at 1 in H. cbn [tx_guard] in H.
  destruct (unchangedLeaseClaimGuard current true c ex) as [v|] eqn:Eg; [|injection H as <- <-; by left].
  apply unchanged_guard_ok in Eg as [-> Ec]. rewrite (Ec eq_refl) in *. clear c Ec Hc.
  cbn [tx_action claimTransactionAction] in H.
  unfold mbind at 1, M_bind at 1, refresh_at at 1 in H. cbn [phase_eqb tx_revision] in H.
  unfold mret at 1, M_ret at 1 in H. unfold mbind at 1, M_bind at 1, outside at 1 in H.
  destruct (action (sys_world s)) as [[[]|e] w] eqn:Ea; cbn [fst snd] in H.
  2: { injection H as <- <-. by left. }
  unfold publish_claim, refresh_at in H. cbn [phase_eqb tx_revision tx_mutate tx_publication] in H.
  unfold mbind, M_bind, mret, M_ret, outside, pure_mutate, lift in H. cbn [sys_world sys_disk sys_tick] in H.
  match type of H with context [refreshLeaseClaimRevision env ?c ?s1] =>
    destruct (refreshLeaseClaimRevision env c s1) as [[c3|e] s3] eqn:Ef end;
    apply refresh_result in Ef as [[Hd3 _] Ef]; cbn [sys_disk] in Hd3.
  2: { injection H as <- <-. by left. }
  destruct Ef as [bs ->]. unfold attempt in H.
  match type of H with context [writeLeaseClaim ?e ?d ?i ?c ?s] =>
    destruct (writeLeaseClaim e d i c s) as [rw sw] eqn:Ew end.
  apply writeLeaseClaim_spec in Ew as [_ [Ew|[Ew [e ->]]]]; injection H as <- <-.
  - right. rewrite clone_set_revision, clone_idemp in Ew. eexists _, w. split_and!; [by exists bs|done|].
    by rewrite Ew, Hd3.
  - left. split; [congruence|done].
Qed.

Lemma replace_concluded k c time tomb action s r s' :
  TerminalClaim k c time = Ok tomb →
  replace_after env (LeaseID c) c tomb action s = (r, s') → concluded k c action s r s'.
Proof.
  intros HT H. destruct (terminal_plain _ _ _ _ HT) as (Hid & _ & Haw). unfold replace_after in H.
  destruct (ReplaceLeaseClaimIfUnchangedDurableAfter _ _ _ _ _ s) as [[u err] s0] eqn:E. injection H as <- <-.
  unfold ReplaceLeaseClaimIfUnchangedDurableAfter, replaceLeaseClaimTransaction in E.
  rewrite <-Hid, set_same_lease, Hid in E. split.
  { intros Hn. eapply guarded_transact in E as [He U]; [|done|exact Hn]. destruct err; [|done].
    split; [by eexists|exact U]. }
  destruct (decide (sys_disk s !! LeaseID c = Some (Stored c))) as [Hd|Hn].
  2: { eapply guarded_transact in E as [He [U _]]; [|done|exact Hn]. left. split; [exact U|].
       destruct err; [by eexists|done]. }
  apply transact_inv in E as (s1 & [Ud Uw] & E).
  assert (on_disk s1 (LeaseID c) c) as Hd1 by (unfold on_disk; by rewrite Ud).
  assert (∀ u', replaced_by c tomb u' → tombstone_of k c u') as Hu.
  { intros u' [bs ->]. exists time, tomb, bs. split; [done|]. do 2 f_equal.
    destruct (negb _); [|done]. clear -Haw. destruct tomb; cbn in *. by rewrite Haw. }
  destruct E as [(-> & Hne & ->)|[[_ E]|(_ & e & E & -> & ->)]].
  - left. split; [exact Ud|]. destruct err; [by eexists|done].
  - apply replace_body in E as [[E1 E2]|(u' & w & Hr & Ha & E)]; [| |exact Hd1].
    + left. split; [congruence|]. destruct err; [by eexists|done].
    + right. exists u', w. split_and!; [by apply Hu|congruence|congruence].
  - apply replace_body in E as [[E1 E2]|(u' & w & Hr & Ha & E)]; [| |exact Hd1].
    + left. split; [congruence|by eexists].
    + right. exists u', w. split_and!; [by apply Hu|congruence|congruence].
Qed.

Lemma finalize_concluded after k c action s r s' :
  IsFixedClaim k c = true → FinalizeAfterCleanup env after k c action s = (r, s') →
  concluded k c action s r s' ∧ (RecoveryHold c ≠ None → (∃ e, r = Err e) ∧ untouched s s').
Proof.
  intros Hf H. unfold FinalizeAfterCleanup in H. unfold mbind at 1, M_bind at 1, ensure at 1 in H.
  case_bool_decide as Hh.
  2: { injection H as <- <-. split; [apply untouched_concluded|]; [done|by eexists|]. split; [by eexists|done]. }
  rewrite Hf in H. cbn [negb] in H. unfold mret at 1, M_ret at 1, mbind at 1, M_bind at 1, interact at 1 in H.
  unfold mbind, M_bind, lift in H. split; [|done].
  destruct (TerminalClaim k c (env_clock env (sys_tick s))) as [tomb|e] eqn:HT.
  2: { injection H as <- <-. apply untouched_concluded; [done|by eexists]. }
  set (s1 := mkSys _ _ _) in H.
  enough (concluded k c action s1 r s') as [C1 C2].
  { split; [intros Hn; destruct (C1 Hn) as [He [U1 U2]]; done|exact C2]. }
  destruct (k_HasAfterTerminal k); [by eapply artifacts_concluded|by eapply replace_concluded].
Qed.
End finalize.

(** ** The tombstone as it is read back *)

Lemma cloned_entries m : mentries (cloneStringMap m) = mentries m ∧ mlen (cloneStringMap m) = mlen m.
Proof.
  destruct m as [m|]; [|done]. cbn. case_bool_decide as E; [|done].
  apply map_size_empty_inv in E as ->. done.
Qed.

Lemma terminal_intent k c time tomb : TerminalClaim k c time = Ok tomb →
  ∃ i, FixedCreateIntent tomb = Some i ∧ i_Attempt i = None ∧ i_State i = "released".
Proof.
  unfold TerminalClaim. destruct (FixedCreateIntent c) as [i|]; [|done]. intros <-%Ok_inj.
  destruct (has_identity_labels k); by eexists.
Qed.

Lemma stored_intent c rev i : FixedCreateIntent c = Some i → i_Attempt i = None →
  FixedCreateIntent ((cloneLeaseClaim c) <| Revision := rev |>) = Some i.
Proof. intros Hi Ha. unfold cloneLeaseClaim. cbn. rewrite Hi. cbn. rewrite Ha. destruct i; cbn in *. by subst. Qed.

(** Writing a tombstone does not change what its validator sees. *)
Lemma stored_valid k tomb previous id rev i :
  FixedCreateIntent tomb = Some i → i_Attempt i = None →
  ValidateTerminalClaim k ((cloneLeaseClaim tomb) <| Revision := rev |>) previous id None =
  ValidateTerminalClaim k tomb previous id None.
Proof.
  intros Hi Ha. pose proof (stored_intent tomb rev i Hi Ha) as Hs.
  destruct (cloned_entries (ClaimData.Labels tomb)) as [He Hl].
  unfold ValidateTerminalClaim. rewrite Hs, Hi.
  assert (∀ c', IsFixedClaim k c' = (Provider c' =s k_ClaimProvider k) && bool_decide (is_Some (FixedCreateIntent c'))) as HF by done.
  unfold terminal_shape_ok, terminal_identity_ok, terminal_matches_previous, labels_within, mequal.
  rewrite !HF, Hs, Hi. unfold cloneLeaseClaim. cbn -[cloneStringMap mlen mentries]. rewrite ?Hi.
  cbn -[cloneStringMap mlen mentries]. rewrite He, Hl. done.
Qed.

(** A claim that can be released: of the kind, with a valid journal whose
    revision is not at the end of its range, and an identity. *)
Definition releasable (k : FixedLeaseKind) (c : LeaseClaim) : Prop :=
  ∃ i, FixedCreateIntent c = Some i ∧ Provider c = k_ClaimProvider k ∧ i_Version i = k_IntentVersion k ∧
    TrimSpace (i_Fingerprint i) ≠ "" ∧ TrimSpace (i_ProviderScope i) ≠ "" ∧
    validateFixedJournal (Some i) = Ok () ∧
    (∀ j, i_Journal i = Some j → 0 < j_Revision j < 2 ^ 64 - 1) ∧
    validLeaseClaimPathID (LeaseID c) = true.

Lemma tombstone_reads k c t disk : releasable k c → tombstone_of k c t → disk !! LeaseID c = Some (Stored t) →
  RetainClaimAfterRelease disk k (LeaseID c) c true None None = Ok true ∧
  ReadTerminal disk k (LeaseID c) = (true, Ok ()).
Proof.
  intros (i & Hi & Hp & Hv & Hf & Hsc & Hj & Hr & Hid) (time & tomb & bs & HT & ->) Hd.
  destruct (terminal_claim_valid k c i time Hi Hp Hv Hf Hsc Hj Hr) as (tomb' & HT' & HV & _).
  rewrite HT in HT'. injection HT' as <-.
  destruct (terminal_intent _ _ _ _ HT) as (i2 & Hi2 & Ha2 & Hs2).
  destruct (terminal_plain _ _ _ _ HT) as (Hl & _ & _).
  set (t := (cloneLeaseClaim tomb) <| Revision := _ |>) in *.
  assert (FixedCreateIntent t = Some i2) as Ht by by apply stored_intent.
  assert (ValidateTerminalClaim k t c (LeaseID c) None = Ok ()) as HVt.
  { unfold t. by rewrite (stored_valid k tomb c _ _ i2). }
  pose proof (terminal_self_valid _ _ _ _ HVt) as HVs.
  assert (IsFixedClaim k t = true) as HF.
  { unfold ValidateTerminalClaim in HVt. rewrite Ht in HVt.
    destruct (validateFixedJournal (Some i2)) as [[]|]; [|done]. cbn [mbind res_bind] in HVt.
    destruct (terminal_shape_ok k t i2 (LeaseID c)) eqn:Hs; [|done]. unfold terminal_shape_ok in Hs.
    destruct (IsFixedClaim k t); [done|]. by rewrite orb_true_r in Hs. }
  assert (ReadLeaseClaimWithPresence disk (LeaseID c) = Ok (t, true)) as HR.
  { unfold ReadLeaseClaimWithPresence. rewrite Hid, Hd. cbn [negb decodeLeaseClaim]. rewrite Ht.
    assert (validateFixedJournal (Some i2) = Ok ()) as HJ.
    { unfold ValidateTerminalClaim in HVt. rewrite Ht in HVt. by destruct (validateFixedJournal (Some i2)) as [[]|]. }
    assert (LeaseID t = LeaseID c) as HL.
    { rewrite <-Hl. unfold t, cloneLeaseClaim. cbn. by rewrite Hi2. }
    rewrite HJ. cbn [mbind res_bind]. unfold validateLeaseClaimFileIdentity.
    destruct (_ || _); cbn [mbind res_bind]; rewrite HL, (bool_decide_eq_true_2 (LeaseID c = LeaseID c)) by done;
      cbn [negb]; by rewrite !andb_false_r. }
  split.
  - unfold RetainClaimAfterRelease. rewrite HR, HF, HVt. done.
  - unfold ReadTerminal. rewrite HR, HF, HVs, Ht, Hs2. done.
Qed.

Section theorems.
Context {W : Type} (env : Env) (after_terminal : LeaseClaim → M W ()).
Implicit Types s : Sys W.

(** C35. Finalising a release is fenced, loses nothing and is re-attested: for a
    fixed claim of the kind, whatever the cleanup does and whatever the store's
    failures, no other claim file changes; if the file does not hold exactly
    the claim, or the claim is held for salvage, an error is returned and
    neither the cleanup nor the store has had any effect; otherwise the claim
    files are as before and an error is returned, or the cleanup has succeeded
    and the file holds the claim's tombstone.  Success is only reported in the
    last case.  When the claim is moreover [releasable] (its intent has the
    kind's version, a fingerprint, a scope and a valid journal with a revision
    left, and its lease ID is valid), [RetainClaimAfterRelease] accepts that
    tombstone for the claim it replaced and [ReadTerminal] reports it as
    terminal; [FinalizeAfterCleanup] itself does not check this. *)
Theorem release_finalized k c action s r s' :
  IsFixedClaim k c = true → FinalizeAfterCleanup env after_terminal k c action s = (r, s') →
  only_file (LeaseID c) s s' ∧
  (¬ on_disk s (LeaseID c) c ∨ RecoveryHold c ≠ None → (∃ e, r = Err e) ∧ untouched s s') ∧
  (sys_disk s' = sys_disk s ∧ (∃ e, r = Err e) ∨
   ∃ t w, sys_disk s' = <[LeaseID c := Stored t]> (sys_disk s) ∧ action (sys_world s) = (Ok (), w) ∧
     tombstone_of k c t ∧
     (releasable k c →
      RetainClaimAfterRelease (sys_disk s') k (LeaseID c) c true None None = Ok true ∧
      ReadTerminal (sys_disk s') k (LeaseID c) = (true, Ok ()))).
Proof.
  intros Hf H. apply finalize_concluded in H as [[HS HO] HH]; [|done]. split_and!.
  - destruct HO as [[Hd _]|(t & w & _ & _ & Hd)]; intros other Hne; [by rewrite Hd|].
    by rewrite Hd, lookup_insert_ne.
  - intros [Hn|Hh]; [by apply HS|by apply HH].
  - destruct HO as [HO|(t & w & HT & Ha & Hd)]; [by left|]. right. exists t, w.
    split_and!; [done|done|done|]. intros Hrel. apply (tombstone_reads k c t); [done..|].
    by rewrite Hd, lookup_insert_eq.
Qed.

(** A recovered claim is published only where there is no claim file. *)
Lemma recovery_never_overwrites k c s u err s' :
  PublishFixedRecoveryClaimIfAbsent env k c s = (u, err, s') →
  sys_disk s !! LeaseID c ≠ None → err ≠ None ∧ sys_disk s' = sys_disk s.
Proof.
  intros H Hne. unfold PublishFixedRecoveryClaimIfAbsent in H.
  destruct (ValidateFixedClaim c (recovery_rules k)) as [[]|e]; [|by injection H as <- <- <-].
  apply transact_inv in H as (s1 & [Ud _] & [(-> & He & ->)|[[_ H]|(_ & e & H & -> & ->)]]); [done| |].
  all: unfold transaction_body in H; unfold mbind at 1, M_bind at 1 in H;
    pose proof (read_keeps (LeaseID c) s1) as Hk;
    destruct (readLeaseClaimPathWithPresence (LeaseID c) s1) as [[[c0 ex]|er] s2] eqn:Er; cbn [snd] in Hk;
    try (injection H as <- <-); try done; try (split; [done|]; destruct Hk as [Hk _]; congruence).
  all: apply read_stored in Er as [-> Hd]; destruct ex; [|by rewrite Ud in Hd];
    unfold mbind at 1, M_bind at 1, lift at 1 in H;
    destruct (validateLeaseClaimFileIdentity (LeaseID c) c0 true);
    unfold mbind, M_bind, lift in H; cbn in H; try done; injection H as <- <-; by split.
Qed.
End theorems.

(** A retained claim finalised over a store where nothing fails. *)
Definition finalized_sys : Sys () := mkSys {["cbx_0123456789ab" := Stored sample_retained_claim]} 0 ().

Lemma release_finalized_witness :
  ∃ s', FinalizeAfterCleanup calm (λ _, mret ()) sample_kind sample_retained_claim (mret ()) finalized_sys = (Ok (), s') ∧
    RetainClaimAfterRelease (sys_disk s') sample_kind "cbx_0123456789ab" sample_retained_claim true None None = Ok true.
Proof.
  assert (releasable sample_kind sample_retained_claim) as HR.
  { destruct (FixedCreateIntent sample_retained_claim) as [i|] eqn:Hi; [|vm_compute in Hi; discriminate].
    vm_compute in Hi. injection Hi as <-. eexists. split; [vm_compute; reflexivity|].
    split; [vm_compute; reflexivity|]. split; [reflexivity|]. split; [vm_compute; discriminate|].
    split; [vm_compute; discriminate|]. split; [vm_compute; reflexivity|].
    split; [intros j [= <-]; split; vm_compute; reflexivity|vm_compute; reflexivity]. }
  destruct (FinalizeAfterCleanup calm (λ _, mret ()) sample_kind sample_retained_claim (mret ()) finalized_sys)
    as [r s'] eqn:E.
  assert (fst (FinalizeAfterCleanup calm (λ _, mret ()) sample_kind sample_retained_claim (mret ()) finalized_sys)
    = Ok ()) as Hr by (vm_compute; reflexivity).
  rewrite E in Hr. cbn [fst] in Hr. subst r.
  exists s'. split; [reflexivity|].
  destruct (release_finalized calm (λ _, mret ()) sample_kind sample_retained_claim (mret ()) finalized_sys (Ok ()) s' eq_refl E)
    as (_ & _ & [[_ [e He]]|(t & w & _ & _ & _ & H)]); [discriminate|exact (proj1 (H HR))].
Defined.
