(* ===== verification/FixedResolve.v ===== *)
(** * Resolving a fixed lease for a command ([cli/fixed_lease_resolve.go])

    A command that names a fixed lease gets its target from the claim, inside one
    session of the claim's lock.  Status and release only inspect; any other
    command prepares access to the resource and publishes it in the claim.  The
    callbacks of the provider are arguments: [inspect] acts on the outside world,
    [prepare] may also change the claim it is given and persist it. *)

From Stdlib Require Import ZArith Lia.
From stdpp Require Import gmap strings prelude.
From S2P Require Import Prelude GoText GoTime Sha256 ClaimData Slug Labels Identity Journal ClaimStore ClaimOps FixedTx FixedFrame FixedEngine FixedSafety FixedRelease.
Local Open Scope string_scope.
Local Open Scope Z_scope.
Local Open Scope crab_scope.

(** The value of [strconv.Atoi] when its error is ignored: the nearest integer if
    there are only too many digits. *)
Definition Atoi_value (s : string) : Z :=
  match Atoi s with
  | Some v => v
  | None =>
      let '(neg, ds) := match to_bytes s with
                        | b :: rest => if b =? 45 then (true, rest) else if b =? 43 then (false, rest) else (false, b :: rest)
                        | [] => (false, [])
                        end in
      match ds, digits_value 0 ds with
      | _ :: _, Some _ => if (neg : bool) then min_int64 else max_int64
      | _, _ => 0
      end
  end.

(** The options with the parts of the request that resolution reads. *)
Record FixedResolveOptions := mkResolve {
  ro_Kind : FixedLeaseKind; ro_RepoRoot : string; ro_LegacyRoot : string; ro_StatusOnly : bool; ro_ReleaseOnly : bool;
  ro_NoLocalStateMutations : bool; ro_Expected : LeaseClaim; ro_Provider : string; ro_ResourceName : string; ro_TerminalState : string;
  ro_ValidateTerminal : option (LeaseClaim → res ()) }.

Section resolve.
Context {W : Type} (env : Env).
Context (ctx : nat → option error).
(** [AuthorizeCheckpointRelease], which reads the checkpoint journal *)
Context (authorize_checkpoint : LeaseClaim → string → res ()).
Local Abbreviation TM := (M (Tx W)).

(** What a preparation can do with the claim and the world. *)
Inductive preparation :=
  | Prepared (r : res LeaseTarget)
  | Outside (effect : W → W) (k : W → preparation)
  | ReadClaim (k : LeaseClaim → preparation)
  | ChangeClaim (f : LeaseClaim → LeaseClaim) (k : preparation)
  | PersistClaim (k : res () → preparation).

Fixpoint run_preparation (leaseID : string) (p : preparation) : TM LeaseTarget :=
  match p with
  | Prepared r => lift r
  | Outside effect k => sys (outside (modify effect));; t ← gets id; run_preparation leaseID (k (sys_world (t_sys t)))
  | ReadClaim k => c ← claim; run_preparation leaseID (k c)
  | ChangeClaim f k => set_claim f;; run_preparation leaseID k
  | PersistClaim k => r ← attempt (persist env leaseID); run_preparation leaseID (k r)
  end.

Section options.
Context (opts : FixedResolveOptions) (prepare : preparation) (inspect : LeaseClaim → M W LeaseTarget).
Local Abbreviation leaseID := (LeaseID (ro_Expected opts)).

Definition read_only : bool := ro_StatusOnly opts || ro_ReleaseOnly opts.
Definition is_released (c : LeaseClaim) : bool := match FixedCreateIntent c with Some i => i_State i =s "released" | None => false end.
Definition in_cleanup (c : LeaseClaim) : bool :=
  match FixedCreateIntent c with
  | Some i => ((k_DeletionState (ro_Kind opts) <>s "") && (i_State i =s k_DeletionState (ro_Kind opts))) ||
              match i_Journal i with Some j => j_Phase j =s "deleting" | None => false end
  | None => false
  end.

(** The target of a lease that is gone. *)
Definition terminal_target (c : LeaseClaim) : LeaseTarget :=
  let labels := mset (mset (mset (mset (Some (default ∅ (ClaimData.Labels c))) "lease" (LeaseID c)) "slug" (ClaimData.Slug c))
                  "provider" (ro_Provider opts)) "state" (ro_TerminalState opts) in
  mkTarget (mkServer (CloudID c) (ro_Provider opts) (CloudImmutableID c) 0 (ro_ResourceName opts) (ro_TerminalState opts) labels None empty_claim false false)
    (mkSSH "" "" "") (LeaseID c).

(** Access is prepared, and the claim says so before the target is returned. *)
Definition prepare_access : TM LeaseTarget :=
  c ← claim;
  ensure (negb (in_cleanup c)) (Exit 4 "lease_id_conflict: fixed lease has entered cleanup; retry stop");;
  ensure (negb (ro_NoLocalStateMutations opts)) (Exit 4 "fixed command preparation requires durable identity binding");;
  lift (authorize_checkpoint c "");;
  lease ← run_preparation leaseID prepare;
  set_claim (λ c, c <| ClaimData.Labels := sv_Labels (lt_Server lease) |> <| SSHHost := ssh_Host (lt_SSH lease) |>
                    <| SSHPort := Atoi_value (ssh_Port (lt_SSH lease)) |>);;
  time ← now env;
  set_claim (λ c, c <| LastUsedAt := FormatRFC3339 time |>);;
  intent;;
  set_intent (λ i, i <| i_State := "acquired" |>);;
  persist env leaseID;;
  mret lease.

Definition resolve_session (exists_ : bool) : TM LeaseTarget :=
  c ← claim;
  ensure (exists_ && claim_eqb c (ro_Expected opts)) (Exit 4 "lease_id_conflict: fixed claim changed during resolution; retry");;
  ctx_check ctx;;
  ensure (negb ((ro_RepoRoot opts <>s "") && negb (ClaimRepositoryMatches (RepoRoot c) (ro_RepoRoot opts) [ro_LegacyRoot opts])))
    (Exit 4 "lease_id_conflict: fixed lease %s belongs to another repository");;
  lease ← (if is_released c then
             lift (ValidateTerminalClaim (ro_Kind opts) c empty_claim (LeaseID c) (ro_ValidateTerminal opts));;
             ensure read_only (Exit 4 "lease_id_conflict: fixed lease %s is terminal");;
             mret (terminal_target c)
           else if negb read_only then prepare_access
           else sys (outside (inspect c)));
  ctx_check ctx;;
  c ← claim;
  mret (mkTarget (SetServerLeaseClaimSnapshot (lt_Server lease) c true) (lt_SSH lease) (lt_LeaseID lease)).

(** [ResolveFixedLeaseTarget]; the target that comes with an error is not kept. *)
Definition ResolveFixedLeaseTarget (s : Sys W) : res LeaseTarget * Sys W :=
  let '(r, s', _, _, _) := WithDurableLeaseClaimLock env leaseID false resolve_session s in (r, s').
End options.
End resolve.

(** ** What a resolution may do *)

Section confined.
Context {W : Type} (env : Env) (ctx : nat → option error) (authorize_checkpoint : LeaseClaim → string → res ()).
Context (opts : FixedResolveOptions) (prepare : @preparation W) (inspect : LeaseClaim → M W LeaseTarget).
Local Abbreviation TM := (M (Tx W)).
Local Abbreviation leaseID := (LeaseID (ro_Expected opts)).
Local Abbreviation session := (resolve_session env ctx authorize_checkpoint opts prepare inspect).

(** Only the file of the lease may change. *)
Definition own_file (t t' : Tx W) : Prop := only_file leaseID (t_sys t) (t_sys t').
#[local] Instance own_file_preorder : PreOrder own_file.
Proof. split; [by intros t o|]. intros x y z H1 H2 o Ho. by rewrite (H2 o Ho), (H1 o Ho). Qed.

Lemma still_own {A} (m : TM A) : keeps still m → keeps own_file m.
Proof. intros H. eapply keeps_weaken; [exact H|]. intros t t' (_ & Hd & _) o _. by rewrite Hd. Qed.
Lemma set_claim_own f : keeps own_file (set_claim f : TM ()).
Proof. by intros t o _. Qed.
Lemma persist_own : keeps own_file (persist env leaseID).
Proof.
  intros t. destruct (persist env leaseID t) as [r t'] eqn:E. apply persist_cases in E as [[Hd _]|(c & _ & Hd)]; intros o Ho; cbn; rewrite Hd; [done|].
  by rewrite lookup_insert_ne.
Qed.
Lemma preparation_own p : keeps own_file (run_preparation env leaseID p).
Proof.
  induction p as [r|effect k IH|k IH|f k IH|k IH]; cbn [run_preparation].
  - apply keeps_lift, _.
  - apply keeps_bind; [apply _|apply still_own, outside_still|intros _]. apply keeps_bind; [apply _|apply keeps_gets, _|]. intros t. apply IH.
  - apply keeps_bind; [apply _|apply keeps_gets, _|]. intros c. apply IH.
  - apply keeps_bind; [apply _|apply set_claim_own|intros _]. apply IH.
  - apply keeps_bind; [apply _|apply keeps_attempt, persist_own|]. intros r. apply IH.
Qed.

Lemma access_own : keeps own_file (prepare_access env authorize_checkpoint opts prepare).
Proof.
  unfold prepare_access.
  repeat first [apply keeps_ret, _|apply keeps_lift, _|apply keeps_ensure, _|apply keeps_gets, _|apply preparation_own|apply persist_own|apply set_claim_own
    |apply still_own, interact_still|apply still_own, intent_still|apply keeps_bind; [apply _| |intros ?]].
Qed.
Lemma session_own ex : keeps own_file (session ex).
Proof.
  unfold resolve_session. repeat first [apply keeps_ret, _|apply keeps_lift, _|apply keeps_ensure, _|apply keeps_gets, _|apply access_own
    |apply still_own, outside_still|apply still_own, ctx_check_still|apply keeps_bind; [apply _| |intros ?]|case_match].
Qed.
Lemma session_read_only ex : read_only opts = true → keeps still (session ex).
Proof.
  intros HR. unfold resolve_session. rewrite HR. cbn [negb].
  repeat first [apply keeps_ret, _|apply keeps_lift, _|apply keeps_ensure, _|apply keeps_gets, _
    |apply outside_still|apply ctx_check_still|apply keeps_bind; [apply _| |intros ?]|case_match].
Qed.

(** *** Refusals *)

(** The claim in memory, the disk and the world are as before. *)
Definition unmoved (t t' : Tx W) : Prop := t_claim t' = t_claim t ∧ untouched (t_sys t) (t_sys t').
#[local] Instance unmoved_preorder : PreOrder unmoved.
Proof. split; [done|]. intros x y z [H1 U1] [H2 U2]. split; [congruence|by etrans]. Qed.
Definition refuses {A} (c : LeaseClaim) (m : TM A) : Prop := ∀ t, t_claim t = c → unmoved t (m t).2 ∧ ∃ e, (m t).1 = Err e.

Lemma refuses_fail {A} c e : refuses (A:=A) c (fail e).
Proof. intros t _. split; [done|by exists e]. Qed.
Lemma refuses_left {A B} c (m : TM A) (k : A → TM B) : refuses c m → refuses c (m ≫= k).
Proof. intros H t Ht. destruct (H t Ht) as [HC [e He]]. revert HC He. unfold mbind, M_bind. destruct (m t) as [r t1]. cbn. intros HC ->. split; [exact HC|by exists e]. Qed.
Lemma refuses_after {A B} c (m : TM A) (k : A → TM B) : keeps unmoved m → (∀ a, refuses c (k a)) → refuses c (m ≫= k).
Proof.
  intros Hm Hk t Ht. specialize (Hm t). unfold mbind, M_bind. destruct (m t) as [[a|e] t1]; cbn in Hm; [|split; [done|by exists e]].
  destruct (Hk a t1) as [HC He]; [destruct Hm; congruence|]. split; [by etrans|done].
Qed.
Lemma refuses_claim {A} c (k : LeaseClaim → TM A) : refuses c (k c) → refuses c (claim ≫= k).
Proof. intros H t Ht. unfold claim, gets, mbind, M_bind. rewrite Ht. by apply H. Qed.
Lemma ctx_unmoved : keeps unmoved (ctx_check ctx).
Proof. intros t. unfold ctx_check, mbind, M_bind, sys, interact. cbn. by destruct (ctx _). Qed.

Lemma session_refuses ex c : ex && claim_eqb c (ro_Expected opts) = false ∨
  read_only opts = false ∧ (is_released c = true ∨ in_cleanup opts c = true ∨ ro_NoLocalStateMutations opts = true) → refuses c (session ex).
Proof.
  intros H. unfold resolve_session. apply refuses_claim. destruct H as [H|[HR H]].
  { rewrite H. apply refuses_left, refuses_fail. }
  apply refuses_after; [apply keeps_ensure, _|intros _]. apply refuses_after; [apply ctx_unmoved|intros _].
  apply refuses_after; [apply keeps_ensure, _|intros _]. apply refuses_left. rewrite HR. cbn [negb].
  destruct (is_released c) eqn:EL.
  { apply refuses_after; [apply keeps_lift, _|intros _]. apply refuses_left, refuses_fail. }
  destruct H as [H|H]; [done|]. unfold prepare_access. apply refuses_claim.
  destruct (in_cleanup opts c); [apply refuses_left, refuses_fail|]. destruct H as [H|H]; [done|]. rewrite H.
  apply refuses_after; [apply keeps_ensure, _|intros _]. apply refuses_left, refuses_fail.
Qed.

(** *** Success *)

Lemma persist_written lid (t : Tx W) u t' : persist env lid t = (Ok u, t') →
  ∃ bs, t_claim t' = rebound ((named lid (t_claim t)) <| Revision := hex_of_bytes bs |>).
Proof.
  intros H. unfold persist in H. apply M_bind_ok in H as (? & ? & [= <- <-] & H). cbn [id] in H.
  apply M_bind_ok in H as ([] & t1 & H1 & H). apply ensure_ok in H1 as [_ ->].
  apply M_bind_ok in H as ([] & t1 & [= <-] & H). fold (named lid (t_claim t)) in H.
  apply M_bind_ok in H as (? & ? & [= <- <-] & H). apply M_bind_ok in H as ([] & t2 & H2 & H). apply ensure_ok in H2 as [_ ->].
  apply M_bind_ok in H as (c & t3 & H3 & H). apply sys_inv in H3 as [-> H3]. cbn [t_claim t_sys setter set_t_claim] in H3.
  destruct (refreshLeaseClaimRevision env _ _) as [r s] eqn:E in H3. cbn in H3. subst r.
  apply refresh_result in E as [_ [bs ->]]. fold (rebound ((named lid (t_claim t)) <| Revision := hex_of_bytes bs |>)) in H.
  apply M_bind_ok in H as ([] & t4 & [= <-] & H). apply sys_inv in H as [-> _]. by exists bs.
Qed.

Definition access_of (c : LeaseClaim) := (ClaimData.Labels c, SSHHost c, SSHPort c).
Lemma written_access lid c bs : access_of (rebound ((named lid c) <| Revision := bs |>)) = access_of c.
Proof.
  assert (access_of (rebound ((named lid c) <| Revision := bs |>)) = access_of ((named lid c) <| Revision := bs |>)) as ->.
  { unfold rebound. destruct (CheckpointCapture _) as [cc|]; [|done]. by destruct (cc_BoundRevision cc =s ""). }
  unfold named. by destruct (LeaseID c =s "").
Qed.

(** The target's access is in the claim, which is acquired and on disk. *)
Definition published (lease : LeaseTarget) (t : Tx W) : Prop :=
  sys_disk (t_sys t) !! leaseID = Some (Stored (cloneLeaseClaim (t_claim t))) ∧
  access_of (t_claim t) = (sv_Labels (lt_Server lease), ssh_Host (lt_SSH lease), Atoi_value (ssh_Port (lt_SSH lease))) ∧
  ∃ i, FixedCreateIntent (t_claim t) = Some i ∧ i_State i = "acquired".

Lemma set_claim_run f (t : Tx W) u t' : set_claim f t = (Ok u, t') → t' = t <| t_claim := f (t_claim t) |>.
Proof. unfold set_claim, modify. by intros [= _ <-]. Qed.

Lemma access_published (t : Tx W) lease t' : prepare_access env authorize_checkpoint opts prepare t = (Ok lease, t') → published lease t'.
Proof.
  intros H. unfold prepare_access in H. apply M_bind_ok in H as (? & ? & [= <- <-] & H).
  apply M_bind_ok in H as ([] & ? & _ & H). apply M_bind_ok in H as ([] & ? & _ & H). apply M_bind_ok in H as ([] & ? & _ & H).
  apply M_bind_ok in H as (lease' & t1 & _ & H). apply M_bind_ok in H as ([] & t2 & H2 & H). apply set_claim_run in H2.
  apply M_bind_ok in H as (time & t3 & HT & H). pose proof (interact_still (env_clock env) t2) as (C3 & _). unfold now in HT. rewrite HT in C3. cbn [snd] in C3.
  apply M_bind_ok in H as ([] & t4 & H4 & H). apply set_claim_run in H4. apply M_bind_ok in H as (i & t5 & HI & H). apply intent_ok in HI as [EI ->].
  apply M_bind_ok in H as ([] & t6 & H6 & H). apply set_claim_run in H6. apply M_bind_ok in H as ([] & t7 & HP & H).
  assert (lease' = lease ∧ t7 = t') as [-> ->] by (unfold mret, M_ret in H; split; congruence). clear H.
  assert (access_of (t_claim t6) = (sv_Labels (lt_Server lease), ssh_Host (lt_SSH lease), Atoi_value (ssh_Port (lt_SSH lease)))) as HA
    by (rewrite H6, H4; cbn; rewrite C3, H2; done).
  assert (FixedCreateIntent (t_claim t6) = Some (i <| i_State := "acquired" |>)) as HF6 by (rewrite H6; cbn; by rewrite EI).
  pose proof (persist_written _ _ _ _ HP) as [bs HB]. apply persist_ok in HP as (_ & _ & HF & HD). split; [by rewrite HD, lookup_insert_eq|]. split.
  - rewrite HB, written_access. exact HA.
  - apply (f_equal snd) in HF. cbn in HF. rewrite HF, named_intent, HF6. by eexists.
Qed.

Lemma session_ok ex (t t' : Tx W) lease : session ex t = (Ok lease, t') →
  sv_claimSnapshot (lt_Server lease) = cloneLeaseClaim (t_claim t') ∧ sv_claimSnapshotExists (lt_Server lease) = true ∧
  (ro_RepoRoot opts = "" ∨ ClaimRepositoryMatches (RepoRoot (ro_Expected opts)) (ro_RepoRoot opts) [ro_LegacyRoot opts] = true) ∧
  (read_only opts = false → published lease t').
Proof.
  intros H. unfold resolve_session in H. apply M_bind_ok in H as (? & ? & [= <- <-] & H).
  apply M_bind_ok in H as ([] & t1 & HE & H). apply ensure_ok in HE as [[_ HE]%andb_true_iff ->]. unfold claim_eqb in HE. apply bool_decide_eq_true_1 in HE.
  apply M_bind_ok in H as ([] & t2 & _ & H). apply M_bind_ok in H as ([] & t3 & HM & H). apply ensure_ok in HM as [HM ->]. rewrite HE in HM, H.
  apply M_bind_ok in H as (lease' & t4 & HB & H). apply M_bind_ok in H as ([] & t5 & HC & H). apply M_bind_ok in H as (? & ? & [= <- <-] & [= <- <-]).
  split; [done|]. split; [done|]. split.
  - apply negb_true_iff, andb_false_iff in HM as [HM|HM]; [left; by apply negb_false_iff, bool_decide_eq_true_1 in HM|right; by apply negb_false_iff in HM].
  - intros HR. rewrite HR in HB. pose proof (ctx_check_still ctx t4) as HS. rewrite HC in HS. destruct HS as (S1 & S2 & _). cbn [snd] in S1, S2. unfold published. rewrite S1, S2.
    destruct (is_released _); cbn [negb] in HB; [|by apply access_published in HB].
    apply M_bind_ok in HB as ([] & ? & _ & HB). apply M_bind_ok in HB as ([] & ? & HX & _). by apply ensure_ok in HX as [? _].
Qed.
End confined.

(** C36. Resolving a fixed lease is fenced by the claim that was routed to, and
    reading it changes nothing.  Whatever the callbacks do: only the file of the
    lease can change; a claim on file that differs, or for a command other than
    status and release a claim that is released, in cleanup or not to be changed,
    means an error with the disk untouched and no callback run; status and
    release leave the disk as it was; and a target is only returned for the
    repository of the claim, carries a snapshot of the claim as it is on disk,
    and, when access was prepared, that claim is acquired and has its labels and
    address. *)
Theorem resolution_fenced {W} env ctx authorize_checkpoint opts (prepare : @preparation W) inspect s r s' :
  ResolveFixedLeaseTarget env ctx authorize_checkpoint opts prepare inspect s = (r, s') →
  let expected := ro_Expected opts in
  let id := LeaseID expected in
  only_file id s s' ∧
  (¬ on_disk s id expected ∨
   read_only opts = false ∧ (is_released expected = true ∨ in_cleanup opts expected = true ∨ ro_NoLocalStateMutations opts = true) →
   untouched s s' ∧ ∃ e, r = Err e) ∧
  (read_only opts = true → same_disk s s') ∧
  ∀ lease, r = Ok lease →
    (ro_RepoRoot opts = "" ∨ ClaimRepositoryMatches (RepoRoot expected) (ro_RepoRoot opts) [ro_LegacyRoot opts] = true) ∧
    ∃ c, sv_claimSnapshot (lt_Server lease) = cloneLeaseClaim c ∧
      (read_only opts = true → c = expected ∧ on_disk s' id c) ∧
      (read_only opts = false → on_disk s' id (cloneLeaseClaim c) ∧
        access_of c = (sv_Labels (lt_Server lease), ssh_Host (lt_SSH lease), Atoi_value (ssh_Port (lt_SSH lease))) ∧
        ∃ i, FixedCreateIntent c = Some i ∧ i_State i = "acquired").
Proof.
  intros H expected id. unfold ResolveFixedLeaseTarget in H. destruct (WithDurableLeaseClaimLock _ _ _ _ s) as [[[[r0 s0] log] st] tm] eqn:E. injection H as -> ->.
  apply lock_run in E as [[[Hd Hw] [e ->]]|(c & ex & s1 & t' & [Ud Uw] & HS & -> & HO)].
  { split_and!; [by intros o _; rewrite Hd|by intros _; split; [|by exists e]|by intros _|done]. }
  set (t := open_session c s1 false false) in HS. fold expected id in HS, HO.
  pose proof (session_own env ctx authorize_checkpoint opts prepare inspect ex t) as F1. rewrite HS in F1. cbn [snd] in F1.
  assert (ex && claim_eqb c expected = true ∨ ex && claim_eqb c expected = false) as HC by (destruct (ex && _); auto).
  split_and!.
  - intros o Ho. rewrite (F1 o Ho). cbn. by rewrite Ud.
  - intros HR. assert (refuses c (resolve_session env ctx authorize_checkpoint opts prepare inspect ex)) as HX.
    { apply session_refuses. destruct HC as [HC|HC]; [right|by left]. apply andb_true_iff in HC as [-> HC]. unfold claim_eqb in HC. apply bool_decide_eq_true_1 in HC as ->.
      destruct HR as [HR|HR]; [destruct HR; by apply HO|done]. }
    destruct (HX t eq_refl) as [[_ [V1 V2]] [e He]]. rewrite HS in V1, V2, He. cbn in V1, V2, He. split; [|by exists e]. split; congruence.
  - intros HR. pose proof (session_read_only env ctx authorize_checkpoint opts prepare inspect ex HR t) as (_ & HD & _). rewrite HS in HD. unfold same_disk. cbn in HD. congruence.
  - intros lease ->. destruct (session_ok _ _ _ _ _ _ _ _ _ _ HS) as (E1 & _ & E2 & E3). split; [done|]. exists (t_claim t'). split; [done|]. split; [|exact E3].
    intros HR. pose proof (session_read_only env ctx authorize_checkpoint opts prepare inspect ex HR t) as (H1 & HD & _). rewrite HS in H1, HD. cbn in H1, HD.
    destruct HC as [HC|HC].
    + apply andb_true_iff in HC as [-> HC]. unfold claim_eqb in HC. apply bool_decide_eq_true_1 in HC. rewrite H1, HC. split; [done|]. unfold on_disk. rewrite HD, Ud. rewrite <-HC. by apply HO.
    + exfalso. destruct (session_refuses env ctx authorize_checkpoint opts prepare inspect ex c (or_introl HC) t eq_refl) as [_ [e He]]. by rewrite HS in He.
Qed.

(** A lease resolved for a command, over a store where nothing fails. *)
Definition resolve_options (status : bool) : FixedResolveOptions :=
  mkResolve sample_kind "" "" status false false sample_retained_claim "aws" "box" "released" None.
Definition resolve_preparation : @preparation () :=
  ReadClaim (λ c, PersistClaim (λ _, Prepared (Ok (mkTarget (demo_server (CloudID c)) (mkSSH "10.0.0.7" "22" "") (LeaseID c))))).
Definition resolve_demo (status : bool) (s : Sys ()) : res LeaseTarget * Sys () :=
  ResolveFixedLeaseTarget calm (λ _, None) (λ _ _, Ok ()) (resolve_options status) resolve_preparation (λ c, mret (mkTarget (demo_server (CloudID c)) (mkSSH "" "" "") (LeaseID c))) s.

Lemma resolution_fenced_witness : ∃ lease s' c, resolve_demo false finalized_sys = (Ok lease, s') ∧
  on_disk s' "cbx_0123456789ab" (cloneLeaseClaim c) ∧ SSHHost c = "10.0.0.7" ∧ SSHPort c = 22 ∧ ∃ i, FixedCreateIntent c = Some i ∧ i_State i = "acquired".
Proof.
  destruct (resolve_demo false finalized_sys) as [r s'] eqn:E.
  assert (match (resolve_demo false finalized_sys).1 with Ok lease => lt_SSH lease = mkSSH "10.0.0.7" "22" "" | Err _ => False end) as HL by (vm_compute; reflexivity).
  rewrite E in HL. cbn [fst] in HL. destruct r as [lease|e]; [|destruct HL].
  destruct (resolution_fenced _ _ _ _ _ _ _ _ _ E) as (_ & _ & _ & HO). destruct (HO lease eq_refl) as (_ & c & _ & _ & HC).
  destruct (HC eq_refl) as (H1 & H2 & H3). exists lease, s', c. split; [reflexivity|]. split; [exact H1|]. rewrite HL in H2. unfold access_of in H2. injection H2 as _ H4 H5.
  split; [exact H4|]. split; [exact H5|exact H3].
Defined.
