(* ===== verification/Retention.v ===== *)
(** * Lifecycle of retained leases

    [fixed_session_retention.go MutateFixedRetention]: pausing and resuming the
    compute of a lease whose session disk is retained.  The operation is
    journalled in the fixed claim before the provider is asked to change
    anything, then the provider is polled until it reports the target state.

    The adapter's [observe] and [submit] are arguments.  The polling loop ends
    when the provider reports the target or the context is cancelled; the model
    runs it for a given number of rounds and returns [None] when it is still
    polling after them, so that what holds for every number of rounds holds for
    the loop. *)

From Stdlib Require Import ZArith Lia.
From stdpp Require Import gmap strings prelude.
From S2P Require Import Prelude GoText GoTime Sha256 ClaimData Slug Labels Identity Journal ClaimStore ClaimOps FixedTx FixedFrame FixedEngine FixedSafety.
Local Open Scope string_scope.
Local Open Scope Z_scope.
Local Open Scope crab_scope.

(** A call of [submit], for the theorems: the claim it is given, the claim file
    at that moment, and the target state. *)
Record lifecycle_call := mkCall { lc_claim : LeaseClaim; lc_file : option claim_file; lc_target : string }.

Section lifecycle.
Context {W : Type} (env : Env).
Context (ctx : nat → option error).
Context (observe : LeaseClaim → M W string).
Context (submit : LeaseClaim → string → M W ()).
Context (kind : FixedLeaseKind) (expected : LeaseClaim) (req : RetentionLifecycleRequest) (action : string).

Local Abbreviation TM := (M (Tx W)).
Local Abbreviation LM := (M (Tx W * list lifecycle_call)).

Definition tx {A} (m : TM A) : LM A := λ st, let '(r, t) := m st.1 in (r, (t, st.2)).

(** The journal and the retention state of the claim. *)
Definition retention : TM (FixedCreateIntent_t * FixedLeaseJournal * SessionDiskRetentionState) :=
  i ← intent;
  match i_Journal i with
  | Some j => match j_Retention j with Some s => mret (i, j, s) | None => fail (Panic "nil retention") end
  | None => fail (Panic "nil journal")
  end.
Definition retention_state : TM SessionDiskRetentionState := x ← retention; mret x.2.
Definition set_retention (f : SessionDiskRetentionState → SessionDiskRetentionState) : TM () :=
  set_intent (λ i, i <| i_Journal := (λ j, j <| j_Retention := f <$> j_Retention j |>) <$> i_Journal i |>).

Definition record : TM () :=
  set_intent (λ i, i <| i_Journal := (λ j, j <| j_Revision := add_u64 (j_Revision j) 1 |>) <$> i_Journal i |>);;
  persist env (LeaseID expected).

Definition zero_time : Z := -62135596800 * Second.

Definition expiredResume : TM bool :=
  if action =s "resume" then
    s ← retention_state;
    time ← now env;
    mret (negb (default zero_time (ParseRFC3339 (w_ExpiresAt (rs_ComputeWindow s))) >? time) ||
          (w_State (rs_ComputeWindow s) =s "closed"))
  else mret false.

Definition close_window (s : SessionDiskRetentionState) : SessionDiskRetentionState :=
  s <| rs_DesiredState := "suspended" |>
    <| rs_ComputeWindow := (rs_ComputeWindow s) <| w_State := "closed" |> |>.
Definition mark_observed (s : SessionDiskRetentionState) : SessionDiskRetentionState :=
  s <| rs_Operation := (λ op, op <| op_Phase := "observed" |>) <$> rs_Operation s |>.

(** The head of a round: an expired resume turns into a suspension. *)
Definition check_expiry (target : string) (submitted : bool) : TM (bool * string * bool) :=
  expired ← expiredResume;
  if (expired : bool) then
    s ← retention_state;
    (if (rs_DesiredState s <>s "suspended") || (w_State (rs_ComputeWindow s) <>s "closed")
     then set_retention close_window;; record else mret ());;
    mret (true, "suspended", if target <>s "suspended" then false else submitted)
  else mret (false, target, submitted).

Definition call_submit (target : string) : LM () := λ st,
  let c := t_claim st.1 in
  let call := mkCall c (sys_disk (t_sys st.1) !! LeaseID expected) target in
  tx (sys (outside (submit c target))) (st.1, (st.2 ++ [call])%list).

Definition observe_claim : TM string := c ← claim; sys (outside (observe c)).

Fixpoint converge (rounds : nat) (target state : string) (submitted : bool) : LM (option ()) :=
  match rounds with
  | O => mret None
  | S rounds =>
      round ← tx (check_expiry target submitted);
      let '(expired, target, submitted) := round in
      if state =s target then
        tx (set_retention mark_observed);;
        tx record;;
        if (expired : bool) then fail (Exit 4 "resume window expired; suspension confirmed before any new admission")
        else mret (Some ())
      else
        tx (ctx_check ctx);;
        submitted ← (if negb (submitted : bool) && (state ∈s ["running"; "suspended"])
                     then tx record;; call_submit target;; mret true
                     else mret submitted);
        state ← tx observe_claim;
        if state =s target then converge rounds target state submitted
        else tx (ctx_check ctx);; converge rounds target state submitted
  end.

Definition action_target : string := if action =s "resume" then "running" else "suspended".

(** The state a new operation writes. *)
Definition admit_operation (p : SessionDiskRetentionPolicy) (at_ : Z) (s : SessionDiskRetentionState)
    : SessionDiskRetentionState :=
  let op := mkOperation (lr_OperationID req) action "pending" (lr_ExpectedClaimRevision req) in
  let window :=
    if action =s "resume"
    then mkWindow (lr_OperationID req) (FormatRFC3339Nano at_)
           (FormatRFC3339Nano (at_ + wrap64 (p_ComputeWindowSeconds p * Second))) "active"
    else (rs_ComputeWindow s) <| w_State := "closed" |> in
  mkRetention action_target window (Some op).

(** Admission of a new operation. *)
Definition admit_new (i : FixedCreateIntent_t) (s : SessionDiskRetentionState) (state : string) : LM () :=
  ensure (negb ((action =s "resume") && ((state <>s "suspended") || (w_State (rs_ComputeWindow s) <>s "closed"))))
    (Exit 4 "resume requires a confirmed suspended resource and closed window");;
  at_ ← (if action =s "resume" then tx (now env) else mret 0);
  match i_Retention i with
  | None => fail (Panic "nil retention policy")
  | Some p => tx (set_retention (admit_operation p at_))
  end;;
  tx record.

(** Inside the lock. *)
Definition mutate_session (rounds : nat) (exists_ : bool) : LM (option ()) :=
  c ← tx claim;
  ensure (exists_ && claim_eqb c expected && IsFixedClaim kind c &&
          match FixedCreateIntent c with Some i => i_Version i =? k_IntentVersion kind | None => false end)
    (Exit 4 "retained claim changed; inspect and retry");;
  found ← tx retention;
  let '(i, j, s) := found in
  ensure (negb ((i_State i <>s "acquired") || (j_Phase j =s "deleting") || bool_decide (is_Some (RecoveryHold c))))
    (Exit 4 "retained ownership is unavailable for lifecycle admission");;
  let replay := match rs_Operation s with Some op => op_ID op =s lr_OperationID req | None => false end in
  let observed := match rs_Operation s with Some op => op_Phase op =s "observed" | None => false end in
  state ← tx observe_claim;
  if replay && observed then
    expired ← (if state <>s action_target then mret true else tx expiredResume);
    ensure (negb expired) (Exit 4 "observed lifecycle no longer has an active target; inspect before new admission");;
    mret (Some ())
  else
    (if negb replay then admit_new i s state else mret ());;
    converge rounds action_target state false.

(** A replay of an operation that was already observed, under a shared lock. *)
Definition observed_replay : M (Sys W) () :=
  checkLeaseClaimPath (LeaseID expected);;
  withLeaseClaimLock env (
    '(c, exists_) ← readLeaseClaimPathWithPresence (LeaseID expected);
    lift (unchangedLeaseClaimGuard expected true c exists_);;
    ensure (IsFixedClaim kind expected &&
            match FixedCreateIntent expected with Some i => i_Version i =? k_IntentVersion kind | None => false end)
      (Exit 4 "retained claim changed; inspect and retry");;
    state ← outside (observe expected);
    admission ← (if action =s "resume"
                 then time ← interact (env_clock env); mret (SessionDiskExecutionDeadline expected time)
                 else mret (Ok 0));
    ensure (negb ((state <>s action_target) || match admission with Err _ => true | Ok _ => false end))
      (Exit 4 "observed lifecycle no longer has an active target; inspect before new admission")).

(** [MutateFixedRetention]: the result, the store and the calls of [submit]. *)
Definition MutateFixedRetention (rounds : nat) (s : Sys W) : res (option ()) * Sys W * list lifecycle_call :=
  match ValidateRetentionLifecycleRequest expected req action with
  | Err e => (Err e, s, [])
  | Ok _ =>
      let completed :=
        match FixedCreateIntent expected ≫= λ i, i_Journal i ≫= λ j, j_Retention j ≫= rs_Operation with
        | Some op => (op_ID op =s lr_OperationID req) && (op_Phase op =s "observed")
        | None => false
        end in
      if completed then
        let '(r, s') := (observed_replay;; mret (Some ())) s in (r, s', [])
      else
        match open_claim env (LeaseID expected) s with
        | (Err e, s') => (Err e, s', [])
        | (Ok (c, exists_), s') =>
            let '(r, (t, calls)) := mutate_session rounds exists_ (open_session c s' false false, []) in
            (r, t_sys t, calls)
        end
  end.

(** ** What an operation keeps *)

(** Steps of a lifecycle operation keep [P]; a success gives [Q], a failure [E]. *)
Definition steps {S A} (P : S → Prop) (m : M S A) (Q : A → S → Prop) (E : S → Prop) : Prop :=
  ∀ s, P s → match m s with (Ok a, s') => Q a s' | (Err _, s') => E s' end.

Lemma steps_bind {S A B} P (m : M S A) R (k : A → M S B) Q E :
  steps P m R E → (∀ a, steps (R a) (k a) Q E) → steps P (m ≫= k) Q E.
Proof.
  intros Hm Hk s Hs. specialize (Hm s Hs). unfold mbind, M_bind.
  destruct (m s) as [[a|e] s']; [by apply Hk|done].
Qed.
Lemma steps_ret {S A} (P : S → Prop) (a : A) Q E : (∀ s, P s → Q a s) → steps P (mret a) Q E.
Proof. intros H s Hs. by apply H. Qed.
Lemma steps_fail {S A} (P : S → Prop) e (Q : A → S → Prop) E : (∀ s, P s → E s) → steps P (fail e) Q E.
Proof. intros H s Hs. by apply H. Qed.
Lemma steps_ensure {S} (P : S → Prop) b e E :
  (∀ s, P s → E s) → steps P (ensure b e) (λ _ s, P s ∧ b = true) E.
Proof. intros H s Hs. unfold ensure. destruct b; cbn; auto. Qed.
Lemma steps_weaken {S A} (P P' : S → Prop) (m : M S A) (Q Q' : A → S → Prop) E :
  steps P' m Q' E → (∀ s, P s → P' s) → (∀ a s, Q' a s → Q a s) → steps P m Q E.
Proof. intros H HP HQ s Hs. specialize (H s (HP s Hs)). destruct (m s) as [[a|e] s']; auto. Qed.

(** The window of a retention state, apart from being open or closed. *)
Definition window_core (w : RetainedComputeWindow) : string * string * string := (w_ID w, w_AuthorizedAt w, w_ExpiresAt w).

(** Running with an active window, or suspended with a closed one. *)
Definition disposed (s : SessionDiskRetentionState) : Prop :=
  (rs_DesiredState s = "running" ∧ w_State (rs_ComputeWindow s) = "active") ∨
  (rs_DesiredState s = "suspended" ∧ w_State (rs_ComputeWindow s) = "closed").

(** The claim carries this operation in [phase], over the window [window]. *)
Definition admitted (window : string * string * string) (phase : string) (c : LeaseClaim) : Prop :=
  ∃ i j s, FixedCreateIntent c = Some i ∧ i_Journal i = Some j ∧ j_Retention j = Some s ∧
    rs_Operation s = Some (mkOperation (lr_OperationID req) action phase (lr_ExpectedClaimRevision req)) ∧
    window_core (rs_ComputeWindow s) = window ∧ disposed s ∧
    (action = "pause" → rs_DesiredState s = "suspended").

(** A call of [submit] that the claim file on disk announces. *)
Definition announced_call (window : string * string * string) (call : lifecycle_call) : Prop :=
  lc_file call = Some (Stored (cloneLeaseClaim (lc_claim call))) ∧
  evolves expected (lc_claim call) ∧ admitted window "pending" (lc_claim call) ∧
  ∃ i j s, FixedCreateIntent (lc_claim call) = Some i ∧ i_Journal i = Some j ∧ j_Retention j = Some s ∧
    rs_DesiredState s = lc_target call ∧ (lc_target call = "running" → w_State (rs_ComputeWindow s) = "active").

Definition calls_ok (window : string * string * string) (l : list lifecycle_call) : Prop :=
  Forall (announced_call window) l ∧ NoDup (lc_target <$> l) ∧
  Forall (λ call, lc_target call ∈ ["running"; "suspended"]) l.

Definition stored_ok (window : string * string * string) (t : Tx W) : Prop :=
  ∃ c, file_of (LeaseID expected) t = Some (Stored c) ∧
    (c = expected ∨ evolves expected c ∧ ∃ phase, admitted window phase c).

Definition memory_ok (window : string * string * string) (phase : string) (t : Tx W) : Prop :=
  evolves expected (t_claim t) ∧ admitted window phase (t_claim t).

Lemma admitted_intent window phase c c' :
  FixedCreateIntent c' = FixedCreateIntent c → admitted window phase c → admitted window phase c'.
Proof. intros E (i & j & s & H). exists i, j, s. by rewrite E. Qed.

Lemma admitted_clone window phase c : admitted window phase c → admitted window phase (cloneLeaseClaim c).
Proof.
  intros (i & j & s & Hi & Hj & H). unfold cloneLeaseClaim. cbn. rewrite Hi.
  exists (i <| i_Attempt := cloneStringMap (i_Attempt i) |>), j, s.
  split; [done|]. split; [exact Hj|exact H].
Qed.

(** [set_intent] on an admitted claim. *)
Lemma journal_step window phase phase' f (t : Tx W) :
  (∀ i, same_core i (f i)) →
  (∀ i j s, i_Journal i = Some j → j_Retention j = Some s →
     ∃ j' s', i_Journal (f i) = Some j' ∧ j_Retention j' = Some s' ∧
       (rs_Operation s = Some (mkOperation (lr_OperationID req) action phase (lr_ExpectedClaimRevision req)) →
        rs_Operation s' = Some (mkOperation (lr_OperationID req) action phase' (lr_ExpectedClaimRevision req))) ∧
       window_core (rs_ComputeWindow s') = window_core (rs_ComputeWindow s) ∧ (disposed s → disposed s') ∧
       (rs_DesiredState s = "suspended" → rs_DesiredState s' = "suspended")) →
  memory_ok window phase t →
  memory_ok window phase' (t <| t_claim := (t_claim t) <| FixedCreateIntent := f <$> FixedCreateIntent (t_claim t) |> |>).
Proof.
  intros Hcore Hf [He (i & j & s & Hi & Hj & Hs & Ho & Hw & Hd & Hp)]. split.
  - etrans; [exact He|]. by apply set_intent_evolves.
  - destruct (Hf i j s Hj Hs) as (j' & s' & Hj' & Hs' & Ho' & Hw' & Hd' & Hx).
    exists (f i), j', s'. cbn. rewrite Hi. split_and!; auto; congruence.
Qed.

Lemma record_steps window phase :
  steps (λ t, memory_ok window phase t ∧ stored_ok window t) record
    (λ _ t, memory_ok window phase t ∧ stored_ok window t ∧
            file_of (LeaseID expected) t = Some (Stored (cloneLeaseClaim (t_claim t))))
    (stored_ok window).
Proof.
  intros t [Hm Hs]. unfold record, mbind, M_bind. unfold set_intent at 1, set_claim at 1, modify at 1.
  set (t1 := t <| t_claim := _ |>).
  assert (memory_ok window phase t1) as [He1 Ha1].
  { apply journal_step with phase; [by intros i; split_and!| |done]. intros i j s Hj Hs0.
    exists (j <| j_Revision := add_u64 (j_Revision j) 1 |>), s. cbn. rewrite Hj. by split_and!. }
  assert (stored_ok window t1) as Hs1 by exact Hs.
  destruct (persist env (LeaseID expected) t1) as [r t2] eqn:E.
  assert (∀ c, identity_fields c = identity_fields (named (LeaseID expected) (t_claim t1)) →
               evolves expected c ∧ admitted window phase c) as Hid.
  { intros c Hc. split.
    - etrans; [exact He1|]. etrans; [|apply evolves_fields; exact Hc].
      unfold named. destruct (LeaseID (t_claim t1) =s "") eqn:El; [|reflexivity]. guards.
      split_and!; try done. intros i Hi. split; [done|]. exists i. by split.
    - eapply admitted_intent; [|exact Ha1]. apply (f_equal snd) in Hc. cbn in Hc. rewrite Hc. apply named_intent. }
  assert (∀ c, evolves expected c ∧ admitted window phase c →
    stored_ok window t2 ∨ sys_disk (t_sys t2) ≠ <[LeaseID expected := Stored (cloneLeaseClaim c)]> (sys_disk (t_sys t1))) as Hst.
  { intros c [H1 H2]. destruct (decide (sys_disk (t_sys t2) = <[LeaseID expected := Stored (cloneLeaseClaim c)]> (sys_disk (t_sys t1)))) as [Hd|]; [|by right].
    left. exists (cloneLeaseClaim c). unfold file_of. rewrite Hd, lookup_insert_eq. split; [done|]. right.
    split; [etrans; [exact H1|apply clone_evolves]|]. exists phase. by apply admitted_clone. }
  pose proof E as E'. apply persist_cases in E' as [[Hd [e ->]]|(c & Hc & Hd)].
  - destruct Hs1 as (c & Hc & Hor). exists c. unfold file_of in *. by rewrite Hd.
  - destruct (Hst c (Hid c Hc)) as [Hok|Hno]; [|done]. destruct r as [[]|e]; [|done].
    apply persist_ok in E as (_ & _ & Hf & Hd2). split_and!; [|done|].
    + exact (Hid _ Hf).
    + unfold file_of. by rewrite Hd2, lookup_insert_eq.
Qed.

Lemma still_ok window phase t t' :
  still t t' → memory_ok window phase t ∧ stored_ok window t → memory_ok window phase t' ∧ stored_ok window t'.
Proof.
  intros (C & D & _) [Hm Hs]. unfold memory_ok, stored_ok, file_of in *. by rewrite C, D.
Qed.

Definition desires (d : string) (t : Tx W) : Prop :=
  ∃ i j s, FixedCreateIntent (t_claim t) = Some i ∧ i_Journal i = Some j ∧ j_Retention j = Some s ∧ rs_DesiredState s = d.

Lemma retention_still : keeps still (retention : TM _).
Proof.
  unfold retention. apply keeps_bind; [apply _|apply intent_still|intros i].
  destruct (i_Journal i) as [j|]; [|apply keeps_fail, _]. destruct (j_Retention j); [apply keeps_ret|apply keeps_fail]; apply _.
Qed.
Lemma retention_state_still : keeps still (retention_state : TM _).
Proof. unfold retention_state. apply keeps_bind; [apply _|apply retention_still|intros x]. apply keeps_ret, _. Qed.

Lemma retention_ok (t : Tx W) i j s t' :
  retention t = (Ok (i, j, s), t') →
  FixedCreateIntent (t_claim t) = Some i ∧ i_Journal i = Some j ∧ j_Retention j = Some s ∧ t' = t.
Proof.
  intros H. unfold retention in H. apply M_bind_ok in H as (i0 & ? & H1 & H). apply intent_ok in H1 as [Hi ->].
  destruct (i_Journal i0) as [j0|] eqn:Hj; [|done]. destruct (j_Retention j0) as [s0|] eqn:Hs; [|done].
  injection H as -> -> -> ->. done.
Qed.

Lemma retention_state_ok (t : Tx W) s t' :
  retention_state t = (Ok s, t') →
  t' = t ∧ ∃ i j, FixedCreateIntent (t_claim t) = Some i ∧ i_Journal i = Some j ∧ j_Retention j = Some s.
Proof.
  intros H. unfold retention_state in H. apply M_bind_ok in H as ([[i j] s0] & t1 & H1 & H).
  apply retention_ok in H1 as (Hi & Hj & Hs & ->). injection H as -> ->. split; [done|]. by exists i, j.
Qed.

Lemma expired_still : keeps still (expiredResume : TM bool).
Proof.
  unfold expiredResume, now. destruct (action =s "resume"); [|apply keeps_ret, _].
  apply keeps_bind; [apply _|apply retention_state_still|intros s].
  apply keeps_bind; [apply _|apply interact_still|intros time]. apply keeps_ret, _.
Qed.

(** A resume that is not expired has an active window. *)
Lemma not_expired window t t' :
  memory_ok window "pending" t → expiredResume t = (Ok false, t') → action = "resume" → desires "running" t.
Proof.
  intros [_ (i & j & s & Hi & Hj & Hs & _ & _ & Hd & _)] H Ha. unfold expiredResume in H.
  rewrite bool_decide_eq_true_2 in H by done. apply M_bind_ok in H as (s0 & t1 & H1 & H).
  apply retention_state_ok in H1 as (-> & i0 & j0 & Hi0 & Hj0 & Hs0).
  apply M_bind_ok in H as (time & t2 & _ & H). injection H as H _. apply orb_false_iff in H as [_ H]. guards.
  exists i, j, s. split_and!; try done. replace s0 with s in H by congruence. destruct Hd as [[? _]|[_ ?]]; done.
Qed.

(** The state at the head of a round. *)
Definition round_ok (window : string * string * string) (target : string) (submitted : bool)
    (st : Tx W * list lifecycle_call) : Prop :=
  (memory_ok window "pending" st.1 ∧ stored_ok window st.1) ∧ calls_ok window st.2 ∧
  target ∈ ["running"; "suspended"] ∧
  (target = "running" → action = "resume" ∧ "suspended" ∉ lc_target <$> st.2) ∧
  (submitted = false → target ∉ lc_target <$> st.2) ∧
  (target = "suspended" → desires "suspended" st.1).

Definition halted (window : string * string * string) (st : Tx W * list lifecycle_call) : Prop :=
  stored_ok window st.1 ∧ calls_ok window st.2.

Lemma record_desires d (t : Tx W) t' : record t = (Ok (), t') → desires d t → desires d t'.
Proof.
  intros E (i & j & s & Hi & Hj & Hs0 & Hx). unfold record in E. apply M_bind_ok in E as (? & t3 & E1 & E).
  apply set_intent_ok in E1. apply persist_ok in E as (_ & _ & Hf & _). apply (f_equal snd) in Hf. cbn in Hf.
  rewrite named_intent, E1 in Hf. cbn in Hf. rewrite Hi in Hf. cbn in Hf.
  rewrite Hj in Hf. cbn in Hf. eexists _, _, s. split; [exact Hf|]. split; [done|]. by split.
Qed.

(** Closing the window and recording it. *)
Lemma close_steps window :
  steps (λ t, memory_ok window "pending" t ∧ stored_ok window t) (set_retention close_window;; record)
    (λ _ t, (memory_ok window "pending" t ∧ stored_ok window t) ∧ desires "suspended" t) (stored_ok window).
Proof.
  intros t [Hm Hs]. unfold mbind, M_bind. unfold set_retention, set_intent at 1, set_claim at 1, modify at 1.
  set (t1 := t <| t_claim := _ |>).
  assert (memory_ok window "pending" t1) as Hm1.
  { apply journal_step with "pending"; [by intros i; split_and!| |done]. intros i j s Hj Hs0.
    exists (j <| j_Retention := Some (close_window s) |>), (close_window s). cbn. rewrite Hj. cbn. rewrite Hs0.
    split_and!; try done. by right. }
  assert (desires "suspended" t1) as Hd1.
  { destruct Hm as [_ (i & j & s & Hi & Hj & Hs0 & _)].
    exists (i <| i_Journal := Some (j <| j_Retention := Some (close_window s) |>) |>), (j <| j_Retention := Some (close_window s) |>), (close_window s).
    cbn. rewrite Hi. cbn. rewrite Hj. cbn. by rewrite Hs0. }
  assert (stored_ok window t1) as Hs1 by exact Hs. clearbody t1.
  pose proof (record_steps window "pending" t1 (conj Hm1 Hs1)) as HR.
  destruct (record t1) as [[[]|e] t2] eqn:E; [|done]. destruct HR as (H1 & H2 & _). split; [done|].
  by eapply record_desires.
Qed.

Lemma check_expiry_steps window target submitted :
  steps (round_ok window target submitted) (tx (check_expiry target submitted))
    (λ round st, round_ok window round.1.2 round.2 st ∧ desires round.1.2 st.1 ∧
                 (round.1.1 = false → desires action_target st.1)) (halted window).
Proof.
  intros [t l] (Hm & Hc & Ht & Hrun & Hnew & Hsus). cbn [fst snd] in *. unfold tx, check_expiry. cbn [fst snd].
  unfold mbind at 1, M_bind at 1. pose proof (expired_still t) as Hst.
  destruct (expiredResume t) as [[expired|e] t1] eqn:Ee; cbn [snd] in Hst.
  2: { split; [|done]. by apply (still_ok window "pending" t t1). }
  pose proof (still_ok window "pending" t t1 Hst Hm) as Hm1.
  assert (∀ d, desires d t → desires d t1) as Hdes by (intros d Hd; unfold desires in *; by rewrite (proj1 Hst)).
  destruct expired.
  - (* expired *)
    assert (∀ t2, memory_ok window "pending" t2 ∧ stored_ok window t2 → desires "suspended" t2 →
      round_ok window "suspended" (if target <>s "suspended" then false else submitted) (t2, l) ∧ desires "suspended" t2 ∧
      (true = false → desires action_target t2)) as Hout.
    { intros t2 Hm2 Hd2. split; [|done]. split; [done|]. split; [done|]. split; [set_solver|]. split; [done|]. split; [|done].
      cbn. destruct (decide (target = "suspended")) as [->|Hne].
      - rewrite bool_decide_eq_true_2 by done. exact Hnew.
      - intros _. apply Hrun. set_solver. }
    unfold mbind at 1, M_bind at 1. destruct (retention_state t1) as [[s|e] t2] eqn:Er.
    2: { pose proof (retention_state_still t1) as Hst2. rewrite Er in Hst2. cbn [snd] in Hst2.
         split; [|done]. by apply (still_ok window "pending" t1 t2). }
    apply retention_state_ok in Er as (-> & i & j & Hi & Hj & Hs).
    unfold mbind at 1, M_bind at 1. destruct (_ || _) eqn:Hcond.
    + pose proof (close_steps window t1 Hm1) as HC. destruct ((set_retention close_window;; record) t1) as [[[]|e] t2].
      * destruct HC as [HC1 HC2]. cbn. by apply Hout.
      * by split.
    + cbn. apply Hout; [done|]. apply orb_false_iff in Hcond as [H1 _]. guards. by exists i, j, s.
  - (* not expired *)
    cbn. split; [refine (conj Hm1 (conj Hc (conj Ht (conj Hrun (conj Hnew _))))); intros ->; by apply Hdes, Hsus|].
    assert (action = "resume" → desires "running" t1) as Hres.
    { intros Ha. apply Hdes. eapply not_expired; [apply Hm|exact Ee|done]. }
    assert (desires target t1) as Htar.
    { destruct (decide (target = "suspended")) as [->|Hne]; [auto|].
      assert (target = "running") as -> by set_solver. apply Hres. by apply Hrun. }
    split; [done|]. intros _. unfold action_target. destruct (decide (action = "resume")) as [Ha|Ha].
    + rewrite bool_decide_eq_true_2 by done. auto.
    + rewrite bool_decide_eq_false_2 by done. destruct (decide (target = "suspended")) as [->|Hne]; [done|].
      destruct Ha. apply Hrun. set_solver.
Qed.

(** Marking the operation observed and recording it. *)
Lemma observed_steps window d :
  steps (λ t, (memory_ok window "pending" t ∧ stored_ok window t) ∧ desires d t) (set_retention mark_observed;; record)
    (λ _ t, (memory_ok window "observed" t ∧ stored_ok window t) ∧ desires d t ∧
            file_of (LeaseID expected) t = Some (Stored (cloneLeaseClaim (t_claim t)))) (stored_ok window).
Proof.
  intros t [[Hm Hs] Hd]. unfold mbind, M_bind. unfold set_retention, set_intent at 1, set_claim at 1, modify at 1.
  set (t1 := t <| t_claim := _ |>).
  assert (memory_ok window "observed" t1) as Hm1.
  { apply journal_step with "pending"; [by intros i; split_and!| |done]. intros i j s Hj Hs0.
    exists (j <| j_Retention := Some (mark_observed s) |>), (mark_observed s). cbn. rewrite Hj. cbn. rewrite Hs0.
    split_and!; try done. intros ->. done. }
  assert (desires d t1) as Hd1.
  { destruct Hd as (i & j & s & Hi & Hj & Hs0 & Hx).
    exists (i <| i_Journal := Some (j <| j_Retention := Some (mark_observed s) |>) |>), (j <| j_Retention := Some (mark_observed s) |>), (mark_observed s).
    cbn. rewrite Hi. cbn. rewrite Hj. cbn. by rewrite Hs0. }
  assert (stored_ok window t1) as Hs1 by exact Hs. clearbody t1.
  pose proof (record_steps window "observed" t1 (conj Hm1 Hs1)) as HR.
  destruct (record t1) as [[[]|e] t2] eqn:E; [|done]. destruct HR as (H1 & H2 & H3). split; [done|]. split; [|done].
  by eapply record_desires.
Qed.

(** Submitting to the provider, after a record. *)
Lemma submit_steps window target :
  steps (λ st, round_ok window target false st ∧ desires target st.1 ∧
               file_of (LeaseID expected) st.1 = Some (Stored (cloneLeaseClaim (t_claim st.1))))
    (call_submit target) (λ _ st, round_ok window target true st) (halted window).
Proof.
  intros [t l] ((Hm & Hc & Ht & Hrun & Hnew & Hsus) & Hd & Hf). cbn [fst snd] in *. unfold call_submit, tx. cbn [fst snd].
  set (call := mkCall _ _ _).
  assert (announced_call window call) as Hcall.
  { split; [exact Hf|]. destruct Hm as [[He Ha] _]. split; [exact He|]. split; [exact Ha|].
    destruct Hd as (i & j & s & Hi & Hj & Hs & Hx). exists i, j, s. split_and!; try done. cbn. intros ->.
    destruct Ha as (i' & j' & s' & Hi' & Hj' & Hs' & _ & _ & Hdis & _).
    assert (s' = s) as -> by congruence. destruct Hdis as [[_ ?]|[? _]]; [done|congruence]. }
  assert (calls_ok window (l ++ [call])%list) as Hc'.
  { destruct Hc as (H1 & H2 & H3). split; [apply Forall_app; split; [done|by constructor]|]. split.
    - rewrite fmap_app. apply NoDup_app. split; [done|]. split; [|apply NoDup_singleton].
      intros x Hx Hx2. apply list_elem_of_singleton in Hx2 as ->. by apply (Hnew eq_refl).
    - apply Forall_app. split; [done|]. by constructor. }
  pose proof (outside_still (submit (t_claim t) target) t) as Hst.
  destruct (sys (outside (submit (t_claim t) target)) t) as [r t1]. cbn [snd] in Hst.
  pose proof (still_ok window "pending" t t1 Hst Hm) as Hm1.
  assert (∀ d, desires d t → desires d t1) as Hdes by (intros d Hd'; unfold desires in *; by rewrite (proj1 Hst)).
  destruct r as [[]|e]; [|split; [apply Hm1|exact Hc']].
  refine (conj Hm1 (conj Hc' (conj Ht (conj _ (conj _ _))))); [|done|by intros E; apply Hdes, Hsus].
  intros E. destruct (Hrun E) as [Ha Hno]. split; [done|]. cbn [snd]. rewrite fmap_app, elem_of_app. intros [H|H]; [by apply Hno|].
  apply list_elem_of_singleton in H. cbn in H. congruence.
Qed.

(** The operation is done and recorded. *)
Definition completed (window : string * string * string) (st : Tx W * list lifecycle_call) : Prop :=
  halted window st ∧ ∃ c i j s, file_of (LeaseID expected) st.1 = Some (Stored c) ∧ evolves expected c ∧
    admitted window "observed" c ∧ FixedCreateIntent c = Some i ∧ i_Journal i = Some j ∧ j_Retention j = Some s ∧
    rs_DesiredState s = action_target.

Lemma completed_intro window t l :
  (memory_ok window "observed" t ∧ stored_ok window t) → calls_ok window l → desires action_target t →
  file_of (LeaseID expected) t = Some (Stored (cloneLeaseClaim (t_claim t))) → completed window (t, l).
Proof.
  intros [[He Ha] Hs] Hc (i & j & s & Hi & Hj & Hs0 & Hx) Hf. split; [by split|].
  exists (cloneLeaseClaim (t_claim t)), (i <| i_Attempt := cloneStringMap (i_Attempt i) |>), j, s. split; [done|].
  split; [etrans; [exact He|apply clone_evolves]|]. split; [by apply admitted_clone|].
  split; [|by split_and!]. unfold cloneLeaseClaim. cbn. by rewrite Hi.
Qed.

Lemma round_halted window target submitted st : round_ok window target submitted st → halted window st.
Proof. intros (Hm & Hc & _). split; [apply Hm|done]. Qed.

(** A step of the transaction that changes neither claim nor file. *)
Lemma still_steps {A} window target submitted (m : TM A) :
  keeps still m → steps (round_ok window target submitted) (tx m) (λ _ st, round_ok window target submitted st) (halted window).
Proof.
  intros Hm [t l] (Hok & Hc & Ht & Hrun & Hnew & Hsus). unfold tx. cbn [fst snd] in *. specialize (Hm t).
  destruct (m t) as [r t1]. cbn [snd] in Hm. pose proof (still_ok window "pending" t t1 Hm Hok) as Hok1.
  assert (desires "suspended" t → desires "suspended" t1) as Hdes by (unfold desires; by rewrite (proj1 Hm)).
  destruct r as [a|e]; [|split; [apply Hok1|exact Hc]].
  refine (conj Hok1 (conj Hc (conj Ht (conj Hrun (conj Hnew _))))). auto.
Qed.

Lemma observe_still : keeps still (observe_claim : TM string).
Proof. unfold observe_claim. apply keeps_bind; [apply _|by apply keeps_gets, _|intros c]. apply outside_still. Qed.

Lemma converge_steps window rounds : ∀ target state submitted,
  steps (round_ok window target submitted) (converge rounds target state submitted)
    (λ r st, match r with Some _ => completed window st | None => halted window st end) (halted window).
Proof.
  induction rounds as [|rounds IH]; intros target state submitted; cbn [converge].
  { apply steps_ret. apply round_halted. }
  eapply steps_bind; [apply check_expiry_steps|]. intros [[expired target'] submitted']. cbn [fst snd].
  destruct (state =s target') eqn:Hst.
  - intros [t l] (Hr & Hd & Hact). pose proof (proj1 (proj2 Hr)) as Hc. pose proof (proj1 Hr) as Hm. cbn [fst snd] in *.
    destruct expired.
    + pose proof (observed_steps window target' t (conj Hm Hd)) as HO. unfold tx, mbind, M_bind in *. cbn [fst snd].
      destruct (set_retention mark_observed t) as [[[]|e] t1]; cbn [fst snd]; [|by split].
      destruct (record t1) as [[[]|e] t2]; cbn [fst snd]; [|by split]. destruct HO as [[_ HO] _]. by split.
    + pose proof (observed_steps window action_target t (conj Hm (Hact eq_refl))) as HO. unfold tx, mbind, M_bind in *. cbn [fst snd].
      destruct (set_retention mark_observed t) as [[[]|e] t1]; cbn [fst snd]; [|by split].
      destruct (record t1) as [[[]|e] t2]; cbn [fst snd]; [|by split]. destruct HO as (HO1 & HO2 & HO3).
      by apply completed_intro.
  - eapply (steps_bind _ _ (λ _ st, round_ok window target' submitted' st ∧ desires target' st.1)).
    { intros [t l] (Hr & Hd & _). pose proof (still_steps window target' submitted' (ctx_check ctx) (ctx_check_still ctx) (t, l) Hr) as HS.
      unfold tx in *. cbn [fst snd] in *. pose proof (ctx_check_still ctx t) as Hs. destruct (ctx_check ctx t) as [[[]|e] t1]; [|done].
      split; [done|]. cbn in *. unfold desires. by rewrite (proj1 Hs). }
    intros []. eapply (steps_bind _ _ (λ sub st, round_ok window target' sub st)).
    { destruct submitted'; cbn [negb andb]; [apply steps_ret; by intros st [H _]|].
      destruct (state ∈s _); [|apply steps_ret; by intros st [H _]].
      eapply (steps_bind _ _ (λ _ st, round_ok window target' false st ∧ desires target' st.1 ∧
               file_of (LeaseID expected) st.1 = Some (Stored (cloneLeaseClaim (t_claim st.1))))).
      - intros [t l] [(Hm & Hc & Ht & Hrun & Hnew & Hsus) Hd]. cbn [fst snd] in *. unfold tx. cbn [fst snd].
        pose proof (record_steps window "pending" t Hm) as HR. destruct (record t) as [[[]|e] t1] eqn:E; [|by split].
        destruct HR as (HR1 & HR2 & HR3). pose proof (λ d, record_desires d t t1 E) as HD.
        split; [|split; [by apply HD|done]].
        refine (conj (conj HR1 HR2) (conj Hc (conj Ht (conj Hrun (conj Hnew _))))). intros Ex. by apply HD, Hsus.
      - intros []. eapply steps_bind; [apply submit_steps|]. intros []. by apply steps_ret. }
    intros sub. eapply steps_bind; [apply still_steps, observe_still|]. intros state'.
    destruct (state' =s target'); [apply IH|].
    eapply steps_bind; [apply still_steps, ctx_check_still|]. intros []. apply IH.
Qed.

(** ** The session *)

(** The retention state of a claim and its operation agree: running with an
    active window or suspended with a closed one, and suspended for a pause. *)
Definition coherent (c : LeaseClaim) : Prop :=
  ∀ i j s op, FixedCreateIntent c = Some i → i_Journal i = Some j → j_Retention j = Some s → rs_Operation s = Some op →
    disposed s ∧ (op_Action op = "pause" → rs_DesiredState s = "suspended").

(** A claim that has had no lifecycle operation is coherent. *)
Lemma fresh_coherent c :
  (∀ i j s, FixedCreateIntent c = Some i → i_Journal i = Some j → j_Retention j = Some s → rs_Operation s = None) →
  coherent c.
Proof. intros H i j s op Hi Hj Hs Ho. rewrite (H i j s Hi Hj Hs) in Ho. done. Qed.

Lemma admitted_coherent window phase c : admitted window phase c → coherent c.
Proof.
  intros (i & j & s & Hi & Hj & Hs & Ho & _ & Hd & Hp) i' j' s' op Hi' Hj' Hs' Ho'.
  assert (s' = s) as -> by congruence. rewrite Ho in Ho'. injection Ho' as <-. by split.
Qed.

(** The windows an operation may leave: the one it found, or, for a new resume,
    one authorised at some reading of the clock, of exactly the policy's length. *)
Definition allowed_window (window : string * string * string) : Prop :=
  (∃ i j s, FixedCreateIntent expected = Some i ∧ i_Journal i = Some j ∧ j_Retention j = Some s ∧
     window = window_core (rs_ComputeWindow s)) ∨
  (action = "resume" ∧ ∃ i p at_, FixedCreateIntent expected = Some i ∧ i_Retention i = Some p ∧
     window = (lr_OperationID req, FormatRFC3339Nano at_,
               FormatRFC3339Nano (at_ + wrap64 (p_ComputeWindowSeconds p * Second)))).

Definition final (window : string * string * string) (r : res (option ())) (st : Tx W * list lifecycle_call) : Prop :=
  halted window st ∧ (∀ u, r = Ok (Some u) → completed window st).

Lemma steps_final window (m : LM (option ())) P st r st' :
  steps P m (λ r st, match r with Some _ => completed window st | None => halted window st end) (halted window) →
  P st → m st = (r, st') → final window r st'.
Proof.
  intros H HP E. specialize (H st HP). rewrite E in H. destruct r as [[[]|]|e].
  - split; [apply H|done].
  - by split.
  - by split.
Qed.

(** What the request's validation gives. *)
Lemma request_ok i j s :
  ValidateRetentionLifecycleRequest expected req action = Ok () →
  FixedCreateIntent expected = Some i → i_Journal i = Some j → j_Retention j = Some s →
  action ∈ ["pause"; "resume"] ∧ is_Some (i_Retention i) ∧
  ∀ op, rs_Operation s = Some op → op_ID op = lr_OperationID req →
    op_Action op = action ∧ op_ExpectedClaimRevision op = lr_ExpectedClaimRevision req ∧
    (op_Phase op = "pending" ∨ op_Phase op = "observed").
Proof.
  intros H Hi Hj Hs. unfold ValidateRetentionLifecycleRequest in H. rewrite Hi in H. cbn [mbind option_bind] in H.
  apply res_bind_ok in H as (? & _ & H). apply res_bind_ok in H as (? & Ha & H). apply reject_if_ok in Ha. guards.
  split; [done|]. destruct (i_Retention i) as [p|] eqn:Hp; [|done]. split; [by eexists|]. cbn [fmap option_fmap option_map] in H.
  apply res_bind_ok in H as (? & _ & H). apply res_bind_ok in H as ([] & Hv & H). rewrite Hj in H. cbn [mbind option_bind] in H.
  rewrite Hs in H. cbn [fmap option_fmap option_map] in H.
  apply res_bind_ok in H as (? & _ & H). apply res_bind_ok in H as (? & _ & H). intros op Ho Hid. rewrite Ho in H.
  rewrite bool_decide_eq_true_2 in H by done. apply reject_if_ok, orb_false_iff in H as [H1 H2]. guards. split_and!; [done|done|].
  apply journal_check in Hv as [_ Hv]. apply (retained_check i p Hp) in Hv as (_ & j' & s' & Hj' & _ & Hs' & Hv).
  assert (s' = s) as -> by congruence. destruct Hv as (_ & _ & _ & Hop).
  destruct (Hop op Ho) as (_ & _ & Hph & _). set_solver.
Qed.

(** The claim a new operation is written to. *)
Lemma admit_operation_ok i j s p at_ (t : Tx W) :
  t_claim t = expected → FixedCreateIntent expected = Some i → i_Journal i = Some j → j_Retention j = Some s →
  action ∈ ["pause"; "resume"] →
  let window := window_core (rs_ComputeWindow (admit_operation p at_ s)) in
  let t' := (set_retention (admit_operation p at_) t).2 in
  memory_ok window "pending" t' ∧ desires action_target t'.
Proof.
  intros Hc Hi Hj Hs Ha. cbv zeta. set (s' := admit_operation p at_ s).
  assert (FixedCreateIntent (t_claim (set_retention (admit_operation p at_) t).2) =
    Some (i <| i_Journal := Some (j <| j_Retention := Some s' |>) |>)) as Hi'.
  { unfold set_retention, set_intent, set_claim, modify. cbn [snd t_claim setter set_t_claim FixedCreateIntent set_FixedCreateIntent].
    rewrite Hc, Hi. cbn. rewrite Hj. cbn. by rewrite Hs. }
  split; [split|].
  - unfold set_retention, set_intent, set_claim, modify. cbn [snd t_claim setter set_t_claim]. rewrite Hc.
    apply set_intent_evolves. by intros i0; split_and!.
  - eexists _, _, s'. split; [exact Hi'|]. split; [done|]. split; [done|]. split; [done|]. split; [done|].
    unfold s', admit_operation, action_target, disposed. destruct (decide (action = "resume")) as [E|E].
    + rewrite !bool_decide_eq_true_2 by done. split; [by left|]. intros Hx. rewrite Hx in E. done.
    + rewrite !bool_decide_eq_false_2 by done. split; [by right|done].
  - eexists _, _, s'. split; [exact Hi'|]. by split_and!.
Qed.

Lemma admit_window i p at_ s j :
  FixedCreateIntent expected = Some i → i_Journal i = Some j → j_Retention j = Some s → i_Retention i = Some p →
  allowed_window (window_core (rs_ComputeWindow (admit_operation p at_ s))).
Proof.
  intros Hi Hj Hs Hp. unfold admit_operation. destruct (decide (action = "resume")) as [E|E].
  - rewrite bool_decide_eq_true_2 by done. right. split; [done|]. by exists i, p, at_.
  - rewrite bool_decide_eq_false_2 by done. left. exists i, j, s. done.
Qed.

(** The first round: nothing has been submitted. *)
Lemma first_round window t :
  memory_ok window "pending" t → stored_ok window t → action ∈ ["pause"; "resume"] →
  (action_target = "suspended" → desires "suspended" t) → round_ok window action_target false (t, []).
Proof.
  intros Hm Hs Ha Hd. split; [by split|]. split; [split; [constructor|split; constructor]|]. cbn [fst snd].
  assert (action_target ∈ ["running"; "suspended"]) as Ht.
  { unfold action_target. destruct (action =s "resume"); set_solver. }
  refine (conj Ht (conj _ (conj _ Hd))); [|intros _; apply not_elem_of_nil].
  intros E. split; [|apply not_elem_of_nil]. unfold action_target in E.
  destruct (decide (action = "resume")) as [|Hne]; [done|]. by rewrite bool_decide_eq_false_2 in E.
Qed.

Definition is_completed : bool :=
  match FixedCreateIntent expected ≫= λ i, i_Journal i ≫= λ j, j_Retention j ≫= rs_Operation with
  | Some op => (op_ID op =s lr_OperationID req) && (op_Phase op =s "observed")
  | None => false
  end.

Lemma replay_memory i j s op (t : Tx W) :
  coherent expected → ValidateRetentionLifecycleRequest expected req action = Ok () → is_completed = false →
  t_claim t = expected → FixedCreateIntent expected = Some i → i_Journal i = Some j → j_Retention j = Some s →
  rs_Operation s = Some op → op_ID op = lr_OperationID req →
  memory_ok (window_core (rs_ComputeWindow s)) "pending" t ∧ (action_target = "suspended" → desires "suspended" t).
Proof.
  intros Hco Hv Hnc Hc Hi Hj Hs Ho Hid. destruct (request_ok i j s Hv Hi Hj Hs) as (Hact & _ & Hop).
  destruct (Hop op Ho Hid) as (Ha & Hr & Hph). destruct (Hco i j s op Hi Hj Hs Ho) as [Hd Hp].
  assert (op_Phase op = "pending") as Hpend.
  { destruct Hph as [|Hob]; [done|]. exfalso. unfold is_completed in Hnc. rewrite Hi in Hnc. cbn in Hnc.
    rewrite Hj in Hnc. cbn in Hnc. rewrite Hs in Hnc. cbn in Hnc. rewrite Ho, Hid, Hob in Hnc.
    by rewrite !bool_decide_eq_true_2 in Hnc. }
  assert (rs_Operation s = Some (mkOperation (lr_OperationID req) action "pending" (lr_ExpectedClaimRevision req))) as Ho'.
  { rewrite Ho. f_equal. destruct op; cbn in *. congruence. }
  split; [split; [rewrite Hc; reflexivity|]|].
  - rewrite Hc. exists i, j, s. split_and!; try done. intros Hx. apply Hp. congruence.
  - intros Ht. exists i, j, s. rewrite Hc. split_and!; try done. apply Hp. rewrite Ha. unfold action_target in Ht.
    destruct (decide (action = "resume")) as [E|E]; [by rewrite bool_decide_eq_true_2 in Ht|]. set_solver.
Qed.

(** Admission writes the operation and its window before anything else. *)
Lemma admit_new_ok i j s p state (t : Tx W) :
  t_claim t = expected → file_of (LeaseID expected) t = Some (Stored expected) →
  FixedCreateIntent expected = Some i → i_Journal i = Some j → j_Retention j = Some s → i_Retention i = Some p →
  action ∈ ["pause"; "resume"] →
  ∃ window, allowed_window window ∧
    match admit_new i s state (t, []) with
    | (Ok _, st) => round_ok window action_target false st
    | (Err _, st) => halted window st
    end.
Proof.
  intros C1 Hf1 Hi Hj Hs Hp Hact.
  assert (∀ w t, file_of (LeaseID expected) t = Some (Stored expected) → stored_ok w t) as Hstored.
  { intros w t' Hf. exists expected. auto. }
  unfold admit_new. unfold mbind at 1, M_bind at 1, ensure at 1. destruct (negb (_ && _)).
  2: { exists (window_core (rs_ComputeWindow s)). split; [left; by exists i, j, s|].
       split; [by apply Hstored|]. split; [constructor|split; constructor]. }
  unfold mret at 1, M_ret at 1. unfold mbind at 1, M_bind at 1. rewrite Hp.
  assert (∃ at_ t2, t_claim t2 = expected ∧ file_of (LeaseID expected) t2 = Some (Stored expected) ∧
    (if action =s "resume" then tx (now env) else mret 0) (t, []) = (Ok at_, (t2, []))) as (at_ & t2 & C2 & F2 & ->).
  { destruct (action =s "resume"); eexists _, _; (split; [|split; [|reflexivity]]); done. }
  destruct (admit_operation_ok i j s p at_ t2 C2 Hi Hj Hs Hact) as [Hm Hd].
  set (w := window_core (rs_ComputeWindow (admit_operation p at_ s))) in *. exists w.
  split; [eapply admit_window; eassumption|].
  assert (stored_ok w (set_retention (admit_operation p at_) t2).2) as Hs2 by (by apply Hstored).
  unfold mbind at 1, M_bind at 1, tx at 1. cbn [fst snd].
  destruct (set_retention (admit_operation p at_) t2) as [r3 t3] eqn:E3. cbn [snd] in *.
  assert (r3 = Ok ()) as -> by (unfold set_retention, set_intent, set_claim, modify in E3; by injection E3 as <- _).
  unfold tx. cbn [fst snd]. pose proof (record_steps w "pending" t3 (conj Hm Hs2)) as HR.
  destruct (record t3) as [[[]|e] t4] eqn:E4; cbn [fst snd].
  - destruct HR as (HR1 & HR2 & _). apply first_round; auto. intros Ht. rewrite <-Ht. by eapply record_desires.
  - split; [exact HR|]. split; [constructor|split; constructor].
Qed.

Lemma retention_err (t : Tx W) e t' : retention t = (Err e, t') → t' = t.
Proof.
  unfold retention, intent, mbind, M_bind, claim, gets. cbn.
  destruct (FixedCreateIntent (t_claim t)) as [i|]; cbn; [|by intros [= _ <-]].
  destruct (i_Journal i) as [j|]; [|by intros [= _ <-]]. destruct (j_Retention j); by intros [= _ <-].
Qed.

(** The operation on record is this one and is not completed. *)
Lemma pending_replay i j s op :
  is_completed = false → FixedCreateIntent expected = Some i → i_Journal i = Some j → j_Retention j = Some s →
  rs_Operation s = Some op → op_ID op = lr_OperationID req → op_Phase op ≠ "observed".
Proof.
  intros Hnc Hi Hj Hs Ho Hrep E. unfold is_completed in Hnc. rewrite Hi in Hnc. cbn in Hnc. rewrite Hj in Hnc.
  cbn in Hnc. rewrite Hs in Hnc. cbn in Hnc. rewrite Ho, Hrep, E in Hnc. by rewrite !bool_decide_eq_true_2 in Hnc.
Qed.

Lemma mutate_session_final rounds ex (t0 : Tx W) r st' :
  mutate_session rounds ex (t0, []) = (r, st') →
  ValidateRetentionLifecycleRequest expected req action = Ok () → coherent expected → is_completed = false →
  (ex = true → file_of (LeaseID expected) t0 = Some (Stored (t_claim t0))) →
  ((∃ e, r = Err e) ∧ st' = (t0, [])) ∨ ∃ window, allowed_window window ∧ final window r st'.
Proof.
  intros H Hv Hco Hnc Hfile. unfold mutate_session in H.
  unfold mbind at 1, M_bind at 1, tx at 1, claim at 1, gets at 1 in H. cbn [fst snd] in H.
  unfold mbind at 1, M_bind at 1, ensure at 1 in H.
  destruct (ex && claim_eqb (t_claim t0) expected && IsFixedClaim kind (t_claim t0) && _) eqn:Hg.
  2: { injection H as <- <-. left. split; [by eexists|done]. }
  apply andb_true_iff in Hg as [Hg _]. apply andb_true_iff in Hg as [Hg _]. apply andb_true_iff in Hg as [-> Hc].
  unfold claim_eqb in Hc. guards. specialize (Hfile eq_refl). rewrite Hc in Hfile.
  unfold mret at 1, M_ret at 1 in H. unfold mbind at 1, M_bind at 1, tx at 1 in H. cbn [fst snd] in H.
  pose proof (retention_still t0) as Hst0. destruct (retention t0) as [[[[i j] s]|e] t1] eqn:Er; cbn [snd] in Hst0.
  2: { apply retention_err in Er as ->.
       injection H as <- <-. left. split; [by eexists|done]. }
  apply retention_ok in Er as (Hi & Hj & Hs & ->). rewrite Hc in Hi. clear Hst0.
  destruct (request_ok i j s Hv Hi Hj Hs) as (Hact & [p Hp] & Hop).
  unfold mbind at 1, M_bind at 1, ensure at 1 in H. destruct (negb (_ || _ || _)).
  2: { injection H as <- <-. left. split; [by eexists|done]. }
  unfold mret at 1, M_ret at 1 in H. right. set (w0 := window_core (rs_ComputeWindow s)).
  assert (allowed_window w0) as Hw0 by (left; by exists i, j, s).
  assert (∀ w t, file_of (LeaseID expected) t = Some (Stored expected) → stored_ok w t) as Hstored.
  { intros w t Hf. exists expected. auto. }
  assert (∀ w (t : Tx W) e, file_of (LeaseID expected) t = Some (Stored expected) → final w (Err e) (t, [])) as Hfail.
  { intros w t e Hf. split; [|done]. split; [by apply Hstored|]. split; [constructor|split; constructor]. }
  unfold mbind at 1, M_bind at 1, tx at 1 in H. cbn [fst snd] in H.
  pose proof (observe_still t0) as (C1 & D1 & _). destruct (observe_claim t0) as [[state|e] t1]; cbn [snd] in C1, D1.
  2: { injection H as <- <-. exists w0. split; [done|]. apply Hfail. unfold file_of in *. by rewrite D1. }
  rewrite Hc in C1. assert (file_of (LeaseID expected) t1 = Some (Stored expected)) as Hf1 by (unfold file_of in *; by rewrite D1).
  clear D1 Hfile Hc t0.
  destruct (match rs_Operation s with Some op => op_ID op =s lr_OperationID req | None => false end) eqn:Hrep.
  - destruct (rs_Operation s) as [op|] eqn:Ho; [|done]. guards.
    destruct (replay_memory i j s op t1 Hco Hv Hnc C1 Hi Hj Hs Ho Hrep) as [Hm Hd].
    pose proof (pending_replay i j s op Hnc Hi Hj Hs Ho Hrep) as Hph.
    rewrite (bool_decide_eq_false_2 (op_Phase op = "observed")) in H by done. cbn [andb negb] in H.
    unfold mbind at 1, M_bind at 1, mret at 1, M_ret at 1 in H. exists w0. split; [done|].
    eapply steps_final; [apply converge_steps| |exact H]. apply first_round; auto.
  - cbn [andb negb] in H. unfold mbind at 1, M_bind at 1 in H.
    destruct (admit_new_ok i j s p state t1 C1 Hf1 Hi Hj Hs Hp Hact) as (w & Hw & HA). exists w. split; [done|].
    destruct (admit_new i s state (t1, [])) as [[[]|e] st2].
    + eapply steps_final; [apply converge_steps|exact HA|exact H].
    + injection H as <- <-. by split.
Qed.

(** ** Theorems *)

(** A completed operation is replayed without a write. *)
Lemma observed_replay_disk : keeps (@same_disk W) observed_replay.
Proof.
  unfold observed_replay, withLeaseClaimLock, fail_with.
  apply keeps_bind; [apply _|by apply keeps_ensure, _|intros _].
  apply keeps_bind; [apply _|by intros s|intros e].
  apply keeps_bind; [apply _|destruct e; [apply keeps_fail|apply keeps_ret]; apply _|intros _].
  apply keeps_bind; [apply _| |intros [c ex]].
  { eapply keeps_weaken; [apply read_keeps|apply untouched_same_disk]. }
  apply keeps_bind; [apply _|by apply keeps_lift, _|intros _].
  apply keeps_bind; [apply _|by apply keeps_ensure, _|intros _].
  apply keeps_bind; [apply _|apply outside_keeps|intros state].
  apply keeps_bind; [apply _| |intros a; by apply keeps_ensure, _].
  destruct (action =s "resume"); [|apply keeps_ret, _].
  apply keeps_bind; [apply _|by intros s|intros time; apply keeps_ret, _].
Qed.

(** A run stops without a write and without a call, or is a session. *)
Lemma mutate_inv rounds s r s' calls :
  MutateFixedRetention rounds s = (r, s', calls) → coherent expected →
  (sys_disk s' = sys_disk s ∧ calls = [] ∧ ((∃ e, r = Err e) ∨ is_completed = true)) ∨
  ∃ window t, allowed_window window ∧ final window r (t, calls) ∧ s' = t_sys t.
Proof.
  intros H Hco. unfold MutateFixedRetention in H.
  destruct (ValidateRetentionLifecycleRequest expected req action) as [[]|e] eqn:Hv.
  2: { injection H as <- <- <-. left. split_and!; try done. left. by eexists. }
  fold is_completed in H. destruct is_completed eqn:Hnc.
  { pose proof (observed_replay_disk s) as Hd. unfold mbind, M_bind in H.
    destruct (observed_replay s) as [[[]|e] s1]; injection H as <- <- <-; left; auto. }
  destruct (open_claim env (LeaseID expected) s) as [[[c ex]|e] s1] eqn:Eo.
  2: { injection H as <- <- <-. left. pose proof (open_claim_disk env (LeaseID expected) s) as Hd. rewrite Eo in Hd.
       split_and!; try done. left. by eexists. }
  apply open_claim_ok in Eo as (Hd & H1 & H2).
  destruct (mutate_session rounds ex (open_session c s1 false false, [])) as [r0 [t l]] eqn:Em.
  injection H as <- <- <-. apply mutate_session_final in Em as [[[e ->] E]|(w & Hw & HF)]; try done.
  - injection E as -> ->. left. split_and!; try done. left. by eexists.
  - right. by exists w, t.
  - intros ->. destruct (H1 eq_refl) as [Hf _]. unfold file_of. cbn. by rewrite Hd.
Qed.

(** C32. Lifecycle calls are written ahead: for a coherent claim (one with no
    lifecycle operation on record, or whose operation agrees with its desired
    state and window: C33 shows that every operation leaves such a claim), over
    any number of polling rounds and any failures, every call of [submit] happens
    when the claim file holds the claim it is given, with this operation pending
    over one allowed window, the desired state equal to the target of the call,
    and an active window if the target is running; and no target is submitted
    twice. *)
Theorem lifecycle_written_ahead rounds s r s' calls :
  MutateFixedRetention rounds s = (r, s', calls) → coherent expected →
  calls = [] ∨ ∃ window, allowed_window window ∧ Forall (announced_call window) calls ∧ NoDup (lc_target <$> calls) ∧
    (length calls ≤ 2)%nat.
Proof.
  intros H Hco. apply mutate_inv in H as [(_ & -> & _)|(w & t & Hw & [[_ (H1 & H2 & H3)] _] & _)]; [by left| |done].
  right. exists w. split_and!; try done.
  assert (lc_target <$> calls ⊆ ["running"; "suspended"]) as Hsub.
  { intros x Hx. apply list_elem_of_fmap in Hx as (call & -> & Hin). rewrite Forall_forall in H3. by apply H3. }
  pose proof (submseteq_length _ _ (NoDup_submseteq _ _ H2 Hsub)) as Hlen. by rewrite length_fmap in Hlen.
Qed.

(** C33. The lifecycle invariant: from a coherent claim on disk, whatever
    happens, the claim file afterwards is the same or holds a claim that evolved
    from it, is coherent again, and carries this operation over an allowed
    window (the one found, or for a new resume one of exactly the policy's
    length): a reassertion never mints a window. *)
Theorem lifecycle_keeps_coherent rounds s r s' calls :
  MutateFixedRetention rounds s = (r, s', calls) → coherent expected →
  sys_disk s !! LeaseID expected = Some (Stored expected) →
  ∃ c, sys_disk s' !! LeaseID expected = Some (Stored c) ∧ coherent c ∧
    (c = expected ∨ evolves expected c ∧ ∃ window phase, allowed_window window ∧ admitted window phase c).
Proof.
  intros H Hco Hf. apply mutate_inv in H as [(Hd & _)|(w & t & Hw & [[Hs _] _] & ->)]; [| |done].
  { exists expected. rewrite Hd. auto. }
  destruct Hs as (c & Hc & Hor). exists c. split; [exact Hc|]. destruct Hor as [->|[He [phase Ha]]]; [auto|].
  split; [by eapply admitted_coherent|]. right. split; [done|]. by exists w, phase.
Qed.

(** A lifecycle operation that succeeds after admission is recorded: when
    [MutateFixedRetention] returns without error for an operation that was not
    already observed, the claim file holds this operation as observed, with
    the desired state the action asks for. *)
Theorem lifecycle_success_recorded rounds s s' calls :
  MutateFixedRetention rounds s = (Ok (Some ()), s', calls) → coherent expected → is_completed = false →
  ∃ c i j st, sys_disk s' !! LeaseID expected = Some (Stored c) ∧ evolves expected c ∧
    FixedCreateIntent c = Some i ∧ i_Journal i = Some j ∧ j_Retention j = Some st ∧
    rs_Operation st = Some (mkOperation (lr_OperationID req) action "observed" (lr_ExpectedClaimRevision req)) ∧
    rs_DesiredState st = action_target.
Proof.
  intros H Hco Hnc. apply mutate_inv in H as [(_ & _ & [[e ?]|?])|(w & t & _ & [_ HF] & ->)]; [done|congruence| |done].
  destruct (HF () eq_refl) as (_ & c & i & j & st & Hc & He & Ha & Hi & Hj & Hs & Hx).
  exists c, i, j, st. split_and!; try done. destruct Ha as (i' & j' & st' & Hi' & Hj' & Hs' & Ho & _). congruence.
Qed.

(** ** Termination *)

(** The interactions with the environment are never taken back. *)
Definition later (t t' : Tx W) : Prop := (sys_tick (t_sys t) ≤ sys_tick (t_sys t'))%nat.
#[export] Instance later_preorder : PreOrder later.
Proof. split; [by intros t; unfold later; lia|]. intros x y z. unfold later. lia. Qed.

Definition tick_later (s s' : Sys W) : Prop := (sys_tick s ≤ sys_tick s')%nat.
#[export] Instance tick_later_preorder : PreOrder tick_later.
Proof. split; [by intros t; unfold tick_later; lia|]. intros x y z. unfold tick_later. lia. Qed.

Lemma sys_later {A} (m : M (Sys W) A) : keeps tick_later m → keeps later (sys m).
Proof. intros Hm t. unfold sys, later. specialize (Hm (t_sys t)). by destruct (m (t_sys t)). Qed.
Lemma interact_later {A} (f : nat → A) : keeps tick_later (interact f).
Proof. intros s. unfold tick_later. cbn. lia. Qed.
Lemma outside_later {A} (m : M W A) : keeps tick_later (outside m).
Proof. intros s. unfold tick_later, outside. destruct (m _). cbn. lia. Qed.
Lemma set_claim_later f : keeps later (set_claim f).
Proof. intros t. unfold later. cbn. lia. Qed.

Lemma write_later durable id c : keeps tick_later (writeLeaseClaim env durable id c).
Proof.
  unfold writeLeaseClaim, set_file. apply keeps_bind; [apply _|apply interact_later|intros [| |]].
  - intros s. unfold tick_later. cbn. lia.
  - apply keeps_fail, _.
  - apply keeps_bind; [apply _|intros s; unfold tick_later; cbn; lia|intros _].
    destruct durable; [apply keeps_fail|apply keeps_ret]; apply _.
Qed.

Lemma refresh_later c : keeps tick_later (refreshLeaseClaimRevision env c).
Proof.
  unfold refreshLeaseClaimRevision. apply keeps_bind; [apply _|apply interact_later|intros [bs|]];
    [apply keeps_ret|apply keeps_fail]; apply _.
Qed.

Ltac later_steps :=
  repeat first
    [ apply keeps_ret; apply _ | apply keeps_fail; apply _ | apply keeps_lift; apply _
    | apply keeps_gets; apply _ | apply keeps_ensure; apply _ | apply set_claim_later
    | (apply sys_later; first [apply interact_later|apply outside_later|apply write_later|apply refresh_later])
    | (apply keeps_bind; [apply _| |intros ?]) | case_match ].

Lemma check_expiry_later target submitted : keeps later (check_expiry target submitted : TM _).
Proof.
  unfold check_expiry, expiredResume, retention_state, retention, intent, set_retention, record, persist, set_intent, claim, now.
  later_steps.
Qed.
Lemma record_later : keeps later (record : TM ()).
Proof. unfold record, persist, set_intent, claim. later_steps. Qed.

Lemma ctx_check_ok (t : Tx W) u t' :
  ctx_check ctx t = (Ok u, t') → ctx (sys_tick (t_sys t)) = None ∧ sys_tick (t_sys t') = S (sys_tick (t_sys t)).
Proof.
  unfold ctx_check, mbind, M_bind, sys, interact. cbn. destruct (ctx (sys_tick (t_sys t))); [done|].
  intros [= _ <-]. done.
Qed.

(** Each round that goes on has found the context alive, at a later time. *)
Lemma converge_alive rounds : ∀ target state submitted (t : Tx W) l st',
  converge rounds target state submitted (t, l) = (Ok None, st') →
  rounds = 0%nat ∨ ∃ n, (sys_tick (t_sys t) + rounds ≤ S n)%nat ∧ ctx n = None.
Proof.
  induction rounds as [|rounds IH]; intros target state submitted t l st' H; [by left|right].
  cbn [converge] in H. apply M_bind_ok in H as ([[expired target'] submitted'] & [t1 l1] & H1 & H).
  assert (later t t1) as L1.
  { pose proof (check_expiry_later target submitted t) as K. unfold tx in H1. cbn [fst snd] in H1.
    destruct (check_expiry target submitted t) as [r0 t0]. injection H1 as _ <- _. exact K. }
  cbn [fst snd] in H. destruct (state =s target').
  { apply M_bind_ok in H as (? & ? & _ & H). apply M_bind_ok in H as (? & ? & _ & H). destruct expired; done. }
  apply M_bind_ok in H as ([] & [t2 l2] & H2 & H). unfold tx in H2. cbn [fst snd] in H2.
  destruct (ctx_check ctx t1) as [r2 t2'] eqn:E2. injection H2 as -> -> _. apply ctx_check_ok in E2 as [Halive Htick].
  apply M_bind_ok in H as (sub & [t3 l3] & H3 & H).
  assert (later t2 t3) as L3.
  { destruct (negb submitted' && _); [|injection H3 as _ <- _; reflexivity].
    apply M_bind_ok in H3 as ([] & [t4 l4] & H4 & H3). apply M_bind_ok in H3 as ([] & [t5 l5] & H5 & H3).
    injection H3 as _ <- _. unfold tx in H4. cbn [fst snd] in H4. pose proof (record_later t2) as K.
    destruct (record t2) as [r6 t6]. injection H4 as _ <- _. unfold call_submit, tx in H5. cbn [fst snd] in H5.
    pose proof (sys_later (outside (submit (t_claim t6) target')) (outside_later _) t6) as K2.
    destruct (sys _ t6) as [r7 t7]. injection H5 as _ <- _. etrans; [exact K|exact K2]. }
  apply M_bind_ok in H as (state' & [t4 l4] & H4 & H).
  assert (later t3 t4) as L4.
  { unfold tx, observe_claim, mbind, M_bind, claim, gets in H4. cbn [fst snd] in H4.
    pose proof (sys_later (outside (observe (t_claim t3))) (outside_later _) t3) as K.
    destruct (sys _ t3) as [r5 t5]. injection H4 as _ <- _. exact K. }
  unfold later in *.
  assert (∃ t5 l5, (sys_tick (t_sys t4) ≤ sys_tick (t_sys t5))%nat ∧ converge rounds target' state' sub (t5, l5) = (Ok None, st'))
    as (t5 & l5 & L5 & H5).
  { destruct (state' =s target'); [by exists t4, l4|]. apply M_bind_ok in H as ([] & [t5 l5] & H5 & H).
    exists t5, l5. split; [|done]. unfold tx in H5. cbn [fst snd] in H5. destruct (ctx_check ctx t4) as [r6 t6] eqn:E6.
    injection H5 as -> -> _. apply ctx_check_ok in E6 as [_ E6]. lia. }
  destruct (IH _ _ _ _ _ _ H5) as [->|(n & Hn & Hctx)].
  - exists (sys_tick (t_sys t1)). split; [lia|done].
  - exists n. split; [lia|done].
Qed.

(** C34. The polling loop ends with its context: when the context is cancelled
    from the [N]-th interaction on, [MutateFixedRetention] run for more than
    [N] rounds has returned, whatever the provider reports. *)
Theorem lifecycle_ends_with_context N rounds s r s' calls :
  (∀ n, (N ≤ n)%nat → is_Some (ctx n)) → (N < rounds)%nat →
  MutateFixedRetention rounds s = (r, s', calls) → r ≠ Ok None.
Proof.
  intros Hctx Hn H ->. unfold MutateFixedRetention in H.
  destruct (ValidateRetentionLifecycleRequest expected req action); [|done].
  destruct (match (_ : option RetentionLifecycleOperation) with Some op => _ | None => false end).
  { unfold mbind, M_bind in H. by destruct (observed_replay s) as [[[]|] ?]. }
  destruct (open_claim env (LeaseID expected) s) as [[[c ex]|e] s1]; [|done].
  destruct (mutate_session rounds ex _) as [r0 [t l]] eqn:E. injection H as -> _ _. unfold mutate_session in E.
  apply M_bind_ok in E as (? & ? & _ & E). apply M_bind_ok in E as (? & ? & _ & E).
  apply M_bind_ok in E as ([[i j] st] & ? & _ & E). apply M_bind_ok in E as (? & ? & _ & E).
  apply M_bind_ok in E as (state & ? & _ & E). destruct (_ && _).
  { apply M_bind_ok in E as (? & ? & _ & E). apply M_bind_ok in E as (? & ? & _ & E). done. }
  apply M_bind_ok in E as (? & [t1 l1] & _ & E). apply converge_alive in E as [->|(n & Hle & Hnone)]; [lia|].
  destruct (Hctx n) as [e He]; [lia|]. congruence.
Qed.
End lifecycle.

(** ** A concrete pause *)

Definition pause_claim : LeaseClaim := sample_retained_claim <| Revision := "r0" |>.
Definition pause_request : RetentionLifecycleRequest :=
  mkLifecycleRequest "op-1" (p_OwnerBinding sample_policy) "r0"
    (mkExpectation "cbx_0123456789ab" "cbx_0123456789ab" "box" "i-1").
Definition pause_store : Sys string := mkSys {["cbx_0123456789ab" := Stored pause_claim]} 0 "running".
(** The provider's world is the state of the resource. *)
Definition demo_observe : LeaseClaim → M string string := λ _, gets (λ w, w).
Definition demo_submit : LeaseClaim → string → M string () := λ _ target, modify (λ _, target).
Definition demo_context (n : nat) : option error := if (n <? 100)%nat then None else Some (Msg "cancelled").
Definition demo_pause (rounds : nat) :=
  MutateFixedRetention calm demo_context demo_observe demo_submit sample_kind pause_claim pause_request "pause"
    rounds pause_store.

Lemma pause_coherent : coherent pause_claim.
Proof.
  intros i j s op Hi Hj Hs Ho. exfalso. vm_compute in Hi. injection Hi as <-. vm_compute in Hj. injection Hj as <-.
  vm_compute in Hs. injection Hs as <-. vm_compute in Ho. discriminate.
Qed.

Lemma pause_stored : sys_disk pause_store !! LeaseID pause_claim = Some (Stored pause_claim).
Proof. vm_compute. reflexivity. Qed.

Lemma lifecycle_written_ahead_witness :
  ∃ window, Forall (announced_call pause_claim pause_request "pause" window) (demo_pause 3).2 ∧
    lc_target <$> (demo_pause 3).2 = ["suspended"].
Proof.
  assert (lc_target <$> (demo_pause 3).2 = ["suspended"]) as Ht by (vm_compute; reflexivity).
  assert ((demo_pause 3).2 ≠ []) as Hne by (intros E; rewrite E in Ht; discriminate Ht).
  unfold demo_pause in *.
  destruct (lifecycle_written_ahead calm demo_context demo_observe demo_submit sample_kind pause_claim pause_request "pause"
    3 pause_store _ _ _ (triple_eta _) pause_coherent)
    as [H|(w & _ & H & _ & _)]; [destruct (Hne H)|]. exists w. split; [exact H|exact Ht].
Defined.

Lemma lifecycle_coherent_witness :
  ∃ c, sys_disk (demo_pause 1).1.2 !! LeaseID pause_claim = Some (Stored c) ∧ coherent c.
Proof.
  unfold demo_pause.
  destruct (lifecycle_keeps_coherent calm demo_context demo_observe demo_submit sample_kind pause_claim pause_request "pause"
    1 pause_store _ _ _ (triple_eta _) pause_coherent pause_stored)
    as (c & Hc & Hco & _). exists c. split; [exact Hc|exact Hco].
Defined.

Lemma lifecycle_success_witness :
  ∃ c, sys_disk (demo_pause 3).1.2 !! LeaseID pause_claim = Some (Stored c) ∧ evolves pause_claim c.
Proof.
  assert ((demo_pause 3).1.1 = Ok (Some ())) as Hok by (vm_compute; reflexivity).
  pose proof (triple_eta (demo_pause 3)) as E. rewrite Hok in E. unfold demo_pause in *.
  destruct (lifecycle_success_recorded calm demo_context demo_observe demo_submit sample_kind pause_claim pause_request "pause"
    3 pause_store _ _ E pause_coherent eq_refl)
    as (c & i & j & st & Hc & He & _). exists c. split; [exact Hc|exact He].
Defined.

Lemma lifecycle_ends_witness : (demo_pause 101).1.1 ≠ Ok None.
Proof.
  unfold demo_pause.
  refine (lifecycle_ends_with_context calm demo_context demo_observe demo_submit sample_kind pause_claim pause_request "pause"
    100 101 pause_store _ _ _ _ _ (triple_eta _)).
  - intros n Hn. unfold demo_context. destruct (Nat.ltb_spec n 100); [lia|]. exact (mk_is_Some _ _ eq_refl).
  - lia.
Defined.
