(* ===== verification/TestResults.v ===== *)
(** * Test summaries ([cli/results_parse.go])

    JUnit reports are decoded, counted suite by suite, and merged into one
    summary.  Decoding XML is a parameter.  Times, which are floating-point and
    decide nothing, are left out. *)

From Stdlib Require Import ZArith Lia.
From stdpp Require Import gmap strings sorting prelude.
From S2P Require Import Prelude GoText.
Local Open Scope Z_scope.

Record TestFailure := mkTestFailure {
  tf_Suite : string; tf_Name : string; tf_Classname : string; tf_File : string;
  tf_Message : string; tf_Type : string; tf_Kind : string }.
#[export] Instance TestFailure_eq : EqDecision TestFailure.
Proof. solve_decision. Defined.

Record TestResultSummary := mkSummary {
  ts_Format : string; ts_Files : list string; ts_Suites : Z; ts_Tests : Z;
  ts_Failures : Z; ts_Errors : Z; ts_Skipped : Z; ts_Failed : list TestFailure }.

(** Decoded elements; a nested suite is a suite. *)
Record junitFailure := mkJunitFailure { jf_Message : string; jf_Type : string; jf_Text : string }.
Record junitTestCase := mkTestCase {
  tc_Name : string; tc_Classname : string; tc_File : string;
  tc_Failures : list junitFailure; tc_Errors : list junitFailure; tc_Skipped : list () }.
Inductive junitTestSuite := TestSuite (name : string) (tests failures errors skipped : Z)
    (cases : list junitTestCase) (suites : list junitTestSuite).
Record junitTestSuites := mkTestSuites {
  jss_Tests : Z; jss_Failures : Z; jss_Errors : Z; jss_Skipped : Z; jss_Suites : list junitTestSuite }.
(** The first element of a report. *)
Inductive junitRoot := RootSuites (suites : junitTestSuites) | RootSuite (suite : junitTestSuite) | RootOther (name : string).

Definition testFailureFromJUnit (suite : string) (tc : junitTestCase) (failure : junitFailure) (kind : string) : TestFailure :=
  let message := TrimSpace (jf_Message failure) in
  let message := if bool_decide (message = ""%string) then TrimSpace (jf_Text failure) else message in
  mkTestFailure suite (tc_Name tc) (tc_Classname tc) (tc_File tc) message (jf_Type failure) kind.

(** [mergeJUnitSummary]; a sum of [int]s wraps around. *)
Definition mergeJUnitSummary (dst src : TestResultSummary) : TestResultSummary :=
  mkSummary (ts_Format dst) (ts_Files dst) (wrap64 (ts_Suites dst + ts_Suites src)) (wrap64 (ts_Tests dst + ts_Tests src))
    (wrap64 (ts_Failures dst + ts_Failures src)) (wrap64 (ts_Errors dst + ts_Errors src))
    (wrap64 (ts_Skipped dst + ts_Skipped src)) (ts_Failed dst ++ ts_Failed src).

(** The failures a case has, as they are reported. *)
Definition case_failures (suite : string) (tc : junitTestCase) : list TestFailure :=
  ((λ f, testFailureFromJUnit suite tc f "failure") <$> tc_Failures tc) ++
  ((λ f, testFailureFromJUnit suite tc f "error") <$> tc_Errors tc).

(** One turn of the loop over the cases of a suite. *)
Definition add_case (suite : string) (d : TestResultSummary) (tc : junitTestCase) : TestResultSummary :=
  mkSummary (ts_Format d) (ts_Files d) (ts_Suites d) (ts_Tests d) (wrap64 (ts_Failures d + zlen (tc_Failures tc)))
    (wrap64 (ts_Errors d + zlen (tc_Errors tc))) (wrap64 (ts_Skipped d + zlen (tc_Skipped tc)))
    (ts_Failed d ++ case_failures suite tc).

(** What a suite's attributes change: counts below what was seen do not count. *)
Definition apply_attributes (tests failures errors skipped : Z) (d : TestResultSummary) : TestResultSummary :=
  if (0 <? tests) || (0 <? failures) || (0 <? errors) || (0 <? skipped) then
    mkSummary (ts_Format d) (ts_Files d) (ts_Suites d) (if tests =? 0 then ts_Tests d else tests)
      (Z.max failures (ts_Failures d)) (Z.max errors (ts_Errors d)) (Z.max skipped (ts_Skipped d)) (ts_Failed d)
  else d.

Fixpoint addJUnitSuite (summary : TestResultSummary) (suite : junitTestSuite) : TestResultSummary :=
  let 'TestSuite name tests failures errors skipped cases suites := suite in
  let derived := fold_left (add_case name) cases (mkSummary "" [] 1 (zlen cases) 0 0 0 []) in
  let derived := fold_left addJUnitSuite suites derived in
  mergeJUnitSummary summary (apply_attributes tests failures errors skipped derived).

Definition addJUnitSuites (summary : TestResultSummary) (s : junitTestSuites) : TestResultSummary :=
  if bool_decide (length (jss_Suites s) = 0%nat) then
    mkSummary (ts_Format summary) (ts_Files summary) (ts_Suites summary) (wrap64 (ts_Tests summary + jss_Tests s))
      (wrap64 (ts_Failures summary + jss_Failures s)) (wrap64 (ts_Errors summary + jss_Errors s))
      (wrap64 (ts_Skipped summary + jss_Skipped s)) (ts_Failed summary)
  else fold_left addJUnitSuite (jss_Suites s) summary.

Definition junit_summary (files : list string) : TestResultSummary := mkSummary "junit" files 0 0 0 0 0 [].

Section Parsing.
(** The first element that the decoder finds in a report, decoded. *)
Variable decode : string → res junitRoot.

Definition addJUnitFile (summary : TestResultSummary) (text : string) : res TestResultSummary :=
  root ← decode text;
  match root with
  | RootSuites s => Ok (addJUnitSuites summary s)
  | RootSuite s => Ok (addJUnitSuite summary s)
  | RootOther _ => Err (Msg "unsupported root element %q")
  end.

(** The loop of [parseJUnitResults] over the sorted names. *)
Fixpoint add_files (files : list (string * string)) (summary : TestResultSummary) : TestResultSummary * list error :=
  match files with
  | [] => (summary, [])
  | (name, data) :: files =>
      let trimmed := TrimSpace data in
      if bool_decide (trimmed = ""%string) then add_files files summary
      else
        match addJUnitFile (junit_summary []) trimmed with
        | Err e => let '(s, es) := add_files files summary in (s, Wrap "skip junit %s: %w" e :: es)
        | Ok file =>
            let merged := mergeJUnitSummary summary file in
            add_files files (mkSummary (ts_Format merged) (ts_Files merged ++ [name]) (ts_Suites merged) (ts_Tests merged)
              (ts_Failures merged) (ts_Errors merged) (ts_Skipped merged) (ts_Failed merged))
        end
  end.

Definition sorted_files (files : gmap string string) : list (string * string) :=
  merge_sort (λ a b : string * string, String.le a.1 b.1) (map_to_list files).

(** [parseJUnitResults]: the summary, if any, and the errors. *)
Definition parseJUnitResults (files : gmap string string) : option TestResultSummary * list error :=
  if bool_decide (files = ∅) then (None, [])
  else
    let '(summary, es) := add_files (sorted_files files) (junit_summary []) in
    (if bool_decide (ts_Files summary = []) then None else Some summary, es).
End Parsing.

(** ** Every failing case is reported *)

(** The failures a suite holds, at every depth, in the order of the report. *)
Fixpoint suite_failures (suite : junitTestSuite) : list TestFailure :=
  let 'TestSuite name _ _ _ _ cases suites := suite in
  concat (case_failures name <$> cases) ++ concat (suite_failures <$> suites).
Definition root_failures (root : junitRoot) : list TestFailure :=
  match root with
  | RootSuites s => concat (suite_failures <$> jss_Suites s)
  | RootSuite s => suite_failures s
  | RootOther _ => []
  end.
Definition is_junit (root : junitRoot) : bool := match root with RootOther _ => false | _ => true end.

Lemma suite_ind' (P : junitTestSuite → Prop) :
  (∀ name tests failures errors skipped cases suites, Forall P suites → P (TestSuite name tests failures errors skipped cases suites)) →
  ∀ s, P s.
Proof.
  intros HP. fix IH 1. intros [name tests failures errors skipped cases suites]. apply HP.
  induction suites as [|s suites IHs]; constructor; [apply IH|exact IHs].
Qed.

Lemma add_cases_failed name cases : ∀ d, ts_Failed (fold_left (add_case name) cases d) = ts_Failed d ++ concat (case_failures name <$> cases).
Proof. induction cases as [|c cases IH]; intros d; cbn; [by rewrite app_nil_r|]. rewrite IH. cbn. by rewrite app_assoc. Qed.

Lemma add_suite_failed s : ∀ d, ts_Failed (addJUnitSuite d s) = ts_Failed d ++ suite_failures s.
Proof.
  induction s as [name tests failures errors skipped cases suites IH] using suite_ind'. intros d.
  cbn [addJUnitSuite mergeJUnitSummary ts_Failed suite_failures]. f_equal.
  assert (∀ e, ts_Failed (apply_attributes tests failures errors skipped e) = ts_Failed e) as ->
    by (intros e; unfold apply_attributes; by destruct (_ || _)).
  assert (∀ e, ts_Failed (fold_left addJUnitSuite suites e) = ts_Failed e ++ concat (suite_failures <$> suites)) as ->.
  { induction IH as [|s suites Hs _ IHs]; intros e; cbn; [by rewrite app_nil_r|]. by rewrite IHs, Hs, app_assoc. }
  by rewrite add_cases_failed.
Qed.

Lemma add_suites_failed suites : ∀ d, ts_Failed (fold_left addJUnitSuite suites d) = ts_Failed d ++ concat (suite_failures <$> suites).
Proof. induction suites as [|s suites IH]; intros d; cbn; [by rewrite app_nil_r|]. by rewrite IH, add_suite_failed, app_assoc. Qed.

Section Reported.
Variable decode : string → res junitRoot.

Lemma add_file_failed text d d' : addJUnitFile decode d text = Ok d' →
  ∃ root, decode text = Ok root ∧ is_junit root = true ∧ ts_Failed d' = ts_Failed d ++ root_failures root.
Proof.
  unfold addJUnitFile. intros H. res_steps. exists x. split; [done|].
  destruct x as [s|s|]; [| |done]; apply Ok_inj in H as <-; (split; [done|]); cbn [root_failures]; [|apply add_suite_failed].
  unfold addJUnitSuites. case_bool_decide as HL; [|apply add_suites_failed].
  apply nil_length_inv in HL. rewrite HL. cbn. by rewrite app_nil_r.
Qed.

(** The reports that are read: not blank, and decoded as suites. *)
Definition report_of (file : string * string) : option (string * junitRoot) :=
  if bool_decide (TrimSpace file.2 = ""%string) then None
  else match decode (TrimSpace file.2) with Ok root => if is_junit root then Some (file.1, root) else None | Err _ => None end.

Lemma add_files_reported files : ∀ d d' es, add_files decode files d = (d', es) →
  ts_Failed d' = ts_Failed d ++ concat ((λ r : string * junitRoot, root_failures r.2) <$> omap report_of files) ∧
  ts_Files d' = ts_Files d ++ (omap report_of files).*1.
Proof.
  induction files as [|[name data] files IH]; intros d d' es; cbn [add_files].
  { intros [= <- <-]. cbn. by rewrite !app_nil_r. }
  assert (report_of (name, data) = if bool_decide (TrimSpace data = ""%string) then None
    else match decode (TrimSpace data) with Ok root => if is_junit root then Some (name, root) else None | Err _ => None end) as ER by done.
  cbn [omap list_omap]. rewrite ER. case_bool_decide; [apply IH|].
  destruct (addJUnitFile decode _ _) as [f|e] eqn:E.
  - destruct (add_file_failed _ _ _ E) as (root & HD & HS & HF). rewrite HD, HS. intros HR. apply IH in HR as [H1 H2].
    cbn [mergeJUnitSummary ts_Failed ts_Files fmap list_fmap concat snd fst] in *. cbn in HF. rewrite HF in H1.
    split; [by rewrite H1, app_assoc|by rewrite H2, <-app_assoc].
  - assert (match decode (TrimSpace data) with Ok root => if is_junit root then Some (name, root) else None | Err _ => None end = None) as ->.
    { unfold addJUnitFile in E. by destruct (decode _) as [[]|]. }
    destruct (add_files decode files d) as [d1 es1] eqn:EA. intros [= <- <-]. by eapply IH.
Qed.
End Reported.

(** A summary lists every failing case of every report that could be read, at
    every depth, once, in the order of the names. *)
Lemma failures_reported decode files s es : parseJUnitResults decode files = (Some s, es) →
  ts_Failed s = concat ((λ r : string * junitRoot, root_failures r.2) <$> omap (report_of decode) (sorted_files files)) ∧
  ts_Files s = (omap (report_of decode) (sorted_files files)).*1.
Proof.
  unfold parseJUnitResults. case_bool_decide; [done|]. destruct (add_files _ _ _) as [s1 es1] eqn:E.
  case_bool_decide; [done|]. intros [= -> _]. by apply add_files_reported in E.
Qed.
