(* ===== verification/Shard.v ===== *)
(** * Sharded runs ([cli/shard.go])

    A suite is split over leases forked from one checkpoint: a pool of workers
    provisions a lease for each shard, runs the command on it, releases the
    lease, and stores the shard's result; the results are merged into one
    verdict.  The pool is a transition system over its workers, so that what is
    proved holds for every interleaving, every failure of the provider and of the
    runs, and an interruption at any point.  The lines that the shards print share
    two streams under one lock. *)

From Stdlib Require Import ZArith Lia.
From stdpp Require Import gmap strings prelude.
From S2P Require Import Prelude GoText GoIO GoTime ClaimData Slug TestResults.
Local Open Scope Z_scope.

Definition shardPartialLineLimit : Z := 64 * 1024.
Definition maxShardConcurrency : Z := 1024.

(** ** Options, outcomes and results *)

Record shardOptions := mkShardOptions {
  so_Count : nat; so_Concurrency : Z; so_Keep : bool; so_FailFast : bool;
  so_FailOnTestFailures : bool; so_RequestedSlug : string }.

(** What a run reports. *)
Record shardRunOutcome := mkOutcome {
  ro_Recorded : bool; ro_ExitCode : Z; ro_RunID : string; ro_Results : option TestResultSummary;
  ro_AuthorizedClaim : option LeaseClaim }.

Record shardResult := mkShardResult {
  sr_Index : nat; sr_LeaseID : string; sr_Slug : string; sr_RunID : string; sr_ExitCode : Z;
  sr_Recorded : bool; sr_Canceled : bool; sr_Results : option TestResultSummary; sr_Err : option error }.

Definition commandFailed (r : shardResult) : bool := sr_Recorded r && negb (sr_ExitCode r =? 0) && negb (sr_Canceled r).
Definition infraFailed (r : shardResult) : bool :=
  negb (sr_Recorded r) && negb (sr_Canceled r) && (negb (bool_decide (sr_Err r = None)) || bool_decide (sr_LeaseID r = ""%string)).
Definition failed (r : shardResult) : bool := commandFailed r || infraFailed r.

(** [ExitCodeForError]: the code of the first [ExitError] that [errors.As] finds. *)
Fixpoint as_exit (e : error) : option Z :=
  match e with
  | Exit code _ => Some code
  | Wrap _ e | Rejected e => as_exit e
  | Join a b => match as_exit a with Some c => Some c | None => as_exit b end
  | Msg _ | Panic _ => None
  end.
Definition ExitCodeForError (e : option error) (fallback : Z) : Z :=
  match e ≫= as_exit with Some c => if c =? 0 then fallback else c | None => fallback end.

(** [resolveShardConcurrency] *)
Definition resolveShardConcurrency (count concurrencyFlag : Z) (concurrencySet : bool) (maxConcurrency : Z) : res Z :=
  reject_if ((maxConcurrency <? 0) || (maxShardConcurrency <? maxConcurrency)) (Exit 2 "shard.maxConcurrency must be between 0 and %d");;
  concurrency ←
    (if concurrencySet then
       reject_if (concurrencyFlag <? 1) (Exit 2 "--concurrency must be at least 1");;
       reject_if (maxShardConcurrency <? concurrencyFlag) (Exit 2 "--concurrency must be at most %d");;
       Ok concurrencyFlag
     else Ok count);
  concurrency ←
    (if 0 <? maxConcurrency then
       reject_if (concurrencySet && (maxConcurrency <? concurrency)) (Exit 2 "--concurrency %d exceeds shard.maxConcurrency %d");;
       Ok (if negb concurrencySet && (maxConcurrency <? concurrency) then maxConcurrency else concurrency)
     else Ok concurrency);
  Ok (if count <? concurrency then count else concurrency).

(** [checkpointForkFanoutSlug] *)
Definition checkpointForkFanoutSlug (requestedSlug : string) (index total : nat) : string :=
  let requestedSlug := TrimSpace requestedSlug in
  if (total <=? 1)%nat || bool_decide (requestedSlug = ""%string) then requestedSlug
  else
    let width := length (format_uint 10 (Z.of_nat total)) in
    let suffix := of_bytes (45 :: pad width (Z.of_nat index)) in
    let baseLimit := (maxRequestedLeaseSlugLength - String.length suffix)%nat in
    let base := Trim requestedSlug [45] in
    let base := if (baseLimit <? String.length base)%nat then Trim (sprefix base baseLimit) [45] else base in
    let base := if bool_decide (base = ""%string) then "fork"%string else base in
    base +:+ suffix.

(** ** The pool *)

(** A provisioned lease; [l_carries] when its release accepts a claim. *)
Record lease := mkLease { l_LeaseID : string; l_Slug : string; l_carries : bool }.

(** Where a worker is.  [Pulled] is before the check of the context, [Deferred]
    before the deferred release, [Storing] before the result is stored. *)
Inductive worker :=
  | Waiting
  | Pulled (index : nat)
  | Provisioning (index : nat)
  | Executing (index : nat) (l : lease)
  | Deferred (index : nat) (l : lease) (outcome : shardRunOutcome) (r : shardResult)
  | Storing (index : nat) (r : shardResult)
  | Done.

(** What the provider and the runs see. *)
Inductive event :=
  | Leased (index : nat) (l : lease)
  | Ran (index : nat) (l : lease) (outcome : shardRunOutcome)
  | Released (index : nat) (l : lease) (claim : option LeaseClaim).

Record pool := mkPool {
  p_workers : list worker; p_jobs : list nat; p_results : list (option shardResult);
  p_canceled : bool; p_log : list event }.

(** What a worker's step depends on: the answers of the provider and of a run. *)
Inductive answer := NoAnswer | Provisioned (r : res lease) | Executed (outcome : shardRunOutcome) (err : option error).

Section Pool.
Context (opts : shardOptions).

Definition slug_of (index : nat) : string := checkpointForkFanoutSlug (so_RequestedSlug opts) index (so_Count opts).
Definition canceled_error : error := Msg "context canceled".
Definition canceled_result (index : nat) (e : error) : shardResult :=
  mkShardResult index "" (slug_of index) "" 0 false true None (Some e).

(** The end of [runOneShard], after the run. *)
Definition shard_result (canceled : bool) (index : nat) (l : lease) (o : shardRunOutcome) (err : option error) : shardResult :=
  let code := if ro_Recorded o then ro_ExitCode o else ExitCodeForError err 1 in
  let err := if ro_Recorded o then None
             else Some (default (Msg "run finished without recording an outcome") err) in
  if canceled && (negb (ro_Recorded o) || (ro_ExitCode o <? 0))
  then mkShardResult index (l_LeaseID l) (l_Slug l) (ro_RunID o) 0 (ro_Recorded o) true (ro_Results o) err
  else mkShardResult index (l_LeaseID l) (l_Slug l) (ro_RunID o) code (ro_Recorded o) false (ro_Results o) err.

Definition cancel_if (b : bool) (p : pool) : pool :=
  mkPool (p_workers p) (p_jobs p) (p_results p) (p_canceled p || b) (p_log p).
Definition record_event (e : event) (p : pool) : pool :=
  mkPool (p_workers p) (p_jobs p) (p_results p) (p_canceled p) (p_log p ++ [e]).

(** The claim handed to a release: what the run itself reported. *)
Definition carried (l : lease) (o : shardRunOutcome) : option LeaseClaim :=
  if l_carries l then ro_AuthorizedClaim o else None.

(** With fewer workers than shards, they take them from a queue. *)
Definition concurrency : nat :=
  if (so_Concurrency opts <? 1) || (Z.of_nat (so_Count opts) <? so_Concurrency opts) then so_Count opts
  else Z.to_nat (so_Concurrency opts).
Definition pooled : bool := (concurrency <? so_Count opts)%nat.

(** One step of a worker: where it goes, and what it changes. *)
Definition work (a : answer) (p : pool) (w : worker) : option (worker * pool) :=
  match w, a with
  | Waiting, NoAnswer =>
      Some match p_jobs p with
           | [] => (Done, p)
           | index :: jobs => (Pulled index, mkPool (p_workers p) jobs (p_results p) (p_canceled p) (p_log p))
           end
  | Pulled index, NoAnswer =>
      Some (if p_canceled p then Storing index (canceled_result index canceled_error) else Provisioning index, p)
  | Provisioning index, Provisioned (Err e) =>
      Some (if p_canceled p then (Storing index (canceled_result index e), p)
            else (Storing index (mkShardResult index "" (slug_of index) "" (ExitCodeForError (Some e) 1) false false None (Some e)),
                  cancel_if (so_FailFast opts) p))
  | Provisioning index, Provisioned (Ok l) => Some (Executing index l, record_event (Leased index l) p)
  | Executing index l, Executed o err =>
      let r := shard_result (p_canceled p) index l o err in
      Some (Deferred index l o r, cancel_if (failed r && so_FailFast opts) (record_event (Ran index l o) p))
  | Deferred index l o r, NoAnswer =>
      Some (Storing index r, if so_Keep opts then p else record_event (Released index l (carried l o)) p)
  | Storing index r, NoAnswer =>
      Some (if pooled then Waiting else Done,
            mkPool (p_workers p) (p_jobs p) (<[(index - 1)%nat := Some r]> (p_results p)) (p_canceled p) (p_log p))
  | _, _ => None
  end.

Definition set_worker (k : nat) (w : worker) (p : pool) : pool :=
  mkPool (<[k := w]> (p_workers p)) (p_jobs p) (p_results p) (p_canceled p) (p_log p).

(** Any worker moves, or the caller's context is canceled. *)
Inductive step : pool → pool → Prop :=
  | step_worker k w a w' p p' :
      p_workers p !! k = Some w → work a p w = Some (w', p') → step p (set_worker k w' p')
  | step_interrupt p : p_canceled p = false → step p (cancel_if true p).

(** [shardRun] before the first step. *)
Definition start_pool : pool :=
  mkPool (if pooled then replicate concurrency Waiting else Provisioning <$> seq 1 (so_Count opts))
    (if pooled then seq 1 (so_Count opts) else []) (replicate (so_Count opts) None) false [].
Definition finished (p : pool) : Prop := Forall (λ w, w = Done) (p_workers p).
Definition reachable : pool → Prop := rtc step start_pool.

(** ** The verdict *)

Definition merged_results (results : list shardResult) : option TestResultSummary :=
  let summaries := omap sr_Results results in
  if bool_decide (summaries = []) then None else Some (fold_left mergeJUnitSummary summaries (junit_summary [])).

(** The exit code when commands have failed: theirs, if it is one. *)
Definition command_code (results : list shardResult) : Z :=
  match remove_dups (sr_ExitCode <$> filter (λ r, commandFailed r = true) results) with
  | [code] => if (0 <? code) && (code <? 256) then code else 1
  | _ => 1
  end.

Definition test_failures (merged : option TestResultSummary) : bool :=
  match merged with
  | Some m => (0 <? ts_Failures m) || (0 <? ts_Errors m) || negb (bool_decide (ts_Failed m = []))
  | None => false
  end.

(** [shardExitError], on what [shardVerdict] counts. *)
Definition shardVerdict (results : list shardResult) : option error :=
  if existsb infraFailed results then Some (Exit 7 "%d of %d shards failed to provision or run")
  else if existsb commandFailed results then Some (Exit (command_code results) "%d of %d shards failed")
  else if existsb sr_Canceled results then Some (Exit 130 "shard interrupted; %d of %d shards canceled")
  else if so_FailOnTestFailures opts && test_failures (merged_results results)
  then Some (Exit 1 "JUnit results contain %d failures and %d errors")
  else None.
End Pool.

(** ** Indexes, leases and runs *)

(** The shard a worker is busy with, the lease it holds, the lease it runs on. *)
Definition busy (w : worker) : list nat :=
  match w with
  | Waiting | Done => []
  | Pulled i | Provisioning i | Executing i _ | Deferred i _ _ _ | Storing i _ => [i]
  end.
Definition unleased (w : worker) : list nat := match w with Pulled i | Provisioning i => [i] | _ => [] end.
Definition holding (w : worker) : list (nat * lease) :=
  match w with Executing i l | Deferred i l _ _ => [(i, l)] | _ => [] end.
Definition running (w : worker) : list (nat * lease) := match w with Executing i l => [(i, l)] | _ => [] end.

Definition leases : list event → list (nat * lease) := omap (λ e, match e with Leased i l => Some (i, l) | _ => None end).
Definition runs : list event → list (nat * lease) := omap (λ e, match e with Ran i l _ => Some (i, l) | _ => None end).
Definition releases : list event → list (nat * lease) := omap (λ e, match e with Released i l _ => Some (i, l) | _ => None end).

Definition gather {A B} (f : A → list B) (ws : list A) : list B := concat (f <$> ws).

(** Replacing a worker replaces its part, for every [f] around the same rest. *)
Lemma gather_worker {A B} (f : A → list B) ws k w w' : ws !! k = Some w →
  gather f ws ≡ₚ f w ++ gather f (delete k ws) ∧ gather f (<[k := w']> ws) ≡ₚ f w' ++ gather f (delete k ws).
Proof.
  intros Hk. unfold gather. rewrite delete_take_drop. pose proof (lookup_lt_Some _ _ _ Hk) as HL.
  rewrite insert_take_drop by done. rewrite <-(take_drop_middle ws k w Hk) at 1.
  rewrite !fmap_app, !concat_app. cbn [fmap list_fmap concat]. split; solve_Permutation.
Qed.

Lemma omap_snoc {A B} (f : A → option B) l x : omap f (l ++ [x]) = omap f l ++ match f x with Some y => [y] | None => [] end.
Proof. by rewrite omap_app. Qed.

(** The shards without a result. *)
Definition no_result (results : list (option shardResult)) (i : nat) : bool :=
  match results !! (i - 1)%nat with Some None => true | _ => false end.
Definition pending (results : list (option shardResult)) : list nat :=
  filter (λ i, no_result results i = true) (seq 1 (length results)).

Lemma no_result_true results i : no_result results i = true ↔ results !! (i - 1)%nat = Some None.
Proof. unfold no_result. destruct (results !! _) as [[]|]; done. Qed.

Lemma pending_store results i r : (1 ≤ i)%nat → results !! (i - 1)%nat = Some None →
  pending results ≡ₚ i :: pending (<[(i - 1)%nat := Some r]> results).
Proof.
  intros Hi Hr. unfold pending. rewrite length_insert. pose proof (lookup_lt_Some _ _ _ Hr) as HL.
  apply NoDup_Permutation; [apply NoDup_filter, NoDup_seq| |].
  - constructor; [|apply NoDup_filter, NoDup_seq]. rewrite list_elem_of_filter, no_result_true, list_lookup_insert_eq by done.
    by intros [[=] _].
  - intros j. rewrite elem_of_cons, !list_elem_of_filter, !no_result_true, elem_of_seq. destruct (decide (j = i)) as [->|Hne].
    + split; [by left|]. intros _. split; [done|lia].
    + split.
      * intros [H1 H2]. right. split; [|done]. rewrite list_lookup_insert_ne by lia. done.
      * intros [->|[H1 H2]]; [done|]. rewrite list_lookup_insert_ne in H1 by lia. done.
Qed.

Lemma pending_start n : pending (replicate n None) = seq 1 n.
Proof.
  unfold pending. rewrite length_replicate.
  assert (∀ l, Forall (λ i, 1 ≤ i < 1 + n)%nat l → filter (λ i, no_result (replicate n None) i = true) l = l) as HF.
  { induction 1 as [|i l Hi _ IH]; [done|]. rewrite filter_cons_True; [by rewrite IH|]. apply no_result_true, lookup_replicate_2. lia. }
  apply HF, Forall_forall. intros i. by rewrite elem_of_seq.
Qed.

(** ** Slugs and workers *)

Lemma digits_below bs n : ∀ acc, digits_value acc bs = Some n → 0 ≤ acc → n < (acc + 1) * 10 ^ Z.of_nat (length bs).
Proof.
  induction bs as [|b bs IH]; intros acc HV Ha; cbn [digits_value length] in *; [injection HV as <-; lia|].
  destruct (is_digit b) eqn:Eb; [|done]. unfold is_digit in Eb. apply IH in HV; [|lia].
  rewrite Nat2Z.inj_succ, Z.pow_succ_r by lia. assert (0 < 10 ^ Z.of_nat (length bs)) by (apply Z.pow_pos_nonneg; lia). nia.
Qed.

Lemma fanout_suffix i total : (i ≤ total)%nat → Z.of_nat total < 10 ^ 36 →
  let w := length (format_uint 10 (Z.of_nat total)) in
  length (pad w (Z.of_nat i)) = w ∧ digits_value 0 (pad w (Z.of_nat i)) = Some (Z.of_nat i) ∧ (w ≤ 36)%nat ∧ Forall (λ b, is_byte b = true) (pad w (Z.of_nat i)).
Proof.
  intros Hi Ht w. pose proof (digits_below _ _ 0 (format_uint_value (Z.of_nat total) ltac:(lia)) ltac:(lia)) as HB.
  fold w in HB. assert (w ≤ 36)%nat as Hw.
  { unfold w, format_uint. rewrite length_fmap, length_reverse. apply digits_rev_length; lia. }
  assert (w ≠ 0%nat) as H0.
  { intros E. rewrite E in HB. cbn in HB. unfold w in E. by replace total with 0%nat in E by lia. }
  clearbody w. destruct w as [|v]; [done|].
  destruct (pad_spec v (Z.of_nat i)) as (H1 & H2 & H3); [lia|lia|]. split_and!; try done.
  by apply ascii_is_byte, digit_ascii.
Qed.

(** The shards of a run have different names, none longer than a requested slug
    may be. *)
Lemma fanout_slugs requested total i j : (1 < total)%nat → Z.of_nat total < 10 ^ 36 → TrimSpace requested ≠ ""%string →
  (i ≤ total)%nat → (j ≤ total)%nat →
  (String.length (checkpointForkFanoutSlug requested i total) ≤ maxRequestedLeaseSlugLength)%nat ∧
  (checkpointForkFanoutSlug requested i total = checkpointForkFanoutSlug requested j total → i = j).
Proof.
  intros H1 Ht HS Hi Hj. destruct (fanout_suffix i total Hi Ht) as (Li & Vi & Hw & Bi). destruct (fanout_suffix j total Hj Ht) as (Lj & Vj & _ & Bj).
  unfold checkpointForkFanoutSlug. rewrite (proj2 (Nat.leb_gt total 1)) by done. rewrite (bool_decide_eq_false_2 _ HS). cbn [orb].
  rewrite !length_of_bytes. cbn [length]. rewrite Li, Lj. set (w := length (format_uint 10 (Z.of_nat total))) in *.
  set (base := if bool_decide (_ = ""%string) then "fork"%string else _). split.
  - rewrite slug_length_app, length_of_bytes. cbn [length]. rewrite Li.
    assert (String.length base ≤ Nat.max 4 (maxRequestedLeaseSlugLength - S w))%nat.
    2:{ unfold maxRequestedLeaseSlugLength in *. lia. }
    unfold base. case_bool_decide; [cbn; lia|]. destruct (Nat.ltb_spec (maxRequestedLeaseSlugLength - S w) (String.length (Trim (TrimSpace requested) [45]))); [|lia].
    etransitivity; [apply length_Trim|]. etransitivity; [apply sprefix_length|lia].
  - intros E. apply (f_equal to_bytes) in E. rewrite !to_bytes_app in E. apply app_inv_head in E.
    rewrite !to_of_bytes in E by by constructor. injection E as E. rewrite E, Vj in Vi. injection Vi. lia.
Qed.

(** As many workers as asked for, never more than shards or than the configuration
    allows. *)
Lemma resolved_concurrency count flag set limit c : resolveShardConcurrency count flag set limit = Ok c → 1 ≤ count →
  1 ≤ c ≤ count ∧ (0 < limit → c ≤ limit) ∧ (set = true → c = Z.min flag count).
Proof.
  unfold resolveShardConcurrency, reject_if. intros HR Hc. destruct set; repeat (case_match; simplify_eq/=); guards; lia.
Qed.

Section Invariants.
Context (opts : shardOptions).

Lemma reachable_ind' (I : pool → Prop) :
  I (start_pool opts) → (∀ p p', I p → step opts p p' → I p') → ∀ p, reachable opts p → I p.
Proof. intros H0 HS. unfold reachable. apply (rtc_ind_r I); eauto. Qed.

(** A worker's step leaves the other workers to its caller. *)
Lemma work_workers a p w w' p' : work opts a p w = Some (w', p') → p_workers p' = p_workers p.
Proof.
  destruct w, a as [|[l'|e]|o err]; cbn; try done; intros; simplify_eq; try done.
  - by destruct (p_jobs p); simplify_eq.
  - by destruct (p_canceled p); simplify_eq.
  - by destruct (so_Keep opts); simplify_eq.
Qed.

(** Every shard without a result is queued or with one worker. *)
Definition placed (p : pool) : Prop :=
  length (p_results p) = so_Count opts ∧
  p_jobs p ++ gather busy (p_workers p) ≡ₚ pending (p_results p) ∧
  (pooled opts = false → p_jobs p = []) ∧ (Done ∈ p_workers p → p_jobs p = []) ∧
  length (p_workers p) = concurrency opts.

Lemma gather_nil {A B} (f : A → list B) ws : Forall (λ w, f w = []) ws → gather f ws = [].
Proof. induction 1 as [|w ws Hw _ IH]; [done|]. unfold gather in *. cbn. by rewrite Hw. Qed.

Lemma start_placed : placed (start_pool opts).
Proof.
  unfold placed, start_pool. cbn [p_results p_jobs p_workers]. rewrite pending_start, length_replicate.
  destruct (pooled opts) eqn:EP.
  - rewrite gather_nil by by apply Forall_replicate. rewrite app_nil_r, length_replicate.
    split_and!; try done. intros [= ]%elem_of_replicate_inv.
  - assert (concurrency opts = so_Count opts) as ->.
    { unfold pooled in EP. apply Nat.ltb_ge in EP. unfold concurrency in *. destruct (_ || _) eqn:E; [done|]. lia. }
    rewrite length_fmap, length_seq. split_and!; try done. unfold gather. cbn [app].
    induction (seq 1 (so_Count opts)) as [|i l IH]; [done|]. cbn. by rewrite IH.
Qed.

Lemma placed_step p p' : placed p → step opts p p' → placed p'.
Proof.
  intros HI HS. revert HI. destruct HS as [k w a w' p1 p2 Hk HW|p1 Hn]; intros (HL & HP & HQ & HD & HC);
    [|exact (conj HL (conj HP (conj HQ (conj HD HC))))].
  pose proof (work_workers _ _ _ _ _ HW) as EW. destruct (gather_worker busy (p_workers p1) k w w' Hk) as [G1 G2].
  assert (∀ x, x ∈ <[k := w']> (p_workers p1) → x = w' ∨ x ∈ p_workers p1) as HE.
  { intros x Hx. apply list_elem_of_lookup in Hx as [j Hj]. destruct (decide (j = k)) as [->|Hne].
    - rewrite list_lookup_insert_eq in Hj by by eapply lookup_lt_Some. by left; simplify_eq.
    - rewrite list_lookup_insert_ne in Hj by done. right. by eapply list_elem_of_lookup_2. }
  unfold placed, set_worker. cbn [p_results p_jobs p_workers]. rewrite EW, length_insert. rewrite G1 in HP.
  assert (length (p_results p2) = so_Count opts ∧ p_jobs p2 ++ busy w' ++ gather busy (delete k (p_workers p1)) ≡ₚ pending (p_results p2) ∧
    (pooled opts = false → p_jobs p2 = []) ∧ ((w' = Done ∨ Done ∈ p_workers p1) → p_jobs p2 = [])) as (H1 & H2 & H3 & H4).
  2:{ split_and!; [done|by rewrite G2|done| |done]. intros HDn. apply H4. destruct (HE _ HDn) as [E|E]; [by left|by right]. }
  destruct w, a as [|[l'|e]|o err]; unfold work in HW; try done.
  - injection HW as HW. destruct (p_jobs p1) as [|i jobs] eqn:EJ; simplify_eq; cbn [p_jobs p_results busy app] in *.
    + rewrite EJ. by split_and!.
    + split_and!; [done|by rewrite <-HP; solve_Permutation|by intros E; apply HQ in E|]. intros [E|E]; [done|by apply HD in E].
  - destruct (p_canceled p1); simplify_eq; cbn [busy] in *; (split_and!; try done; intros [E|E]; [done|by apply HD]).
  - simplify_eq; cbn [busy record_event p_jobs p_results] in *; (split_and!; try done; intros [E|E]; [done|by apply HD]).
  - destruct (p_canceled p1); simplify_eq; cbn [busy cancel_if p_jobs p_results] in *; (split_and!; try done; intros [E|E]; [done|by apply HD]).
  - simplify_eq; cbn [busy cancel_if record_event p_jobs p_results] in *; (split_and!; try done; intros [E|E]; [done|by apply HD]).
  - simplify_eq. destruct (so_Keep opts); cbn [busy record_event p_jobs p_results] in *; (split_and!; try done; intros [E|E]; [done|by apply HD]).
  - simplify_eq. cbn [p_jobs p_results busy app] in *. rewrite length_insert.
    assert (index ∈ pending (p_results p1)) as Hin by (rewrite <-HP; set_solver).
    unfold pending in Hin. rewrite list_elem_of_filter, no_result_true, elem_of_seq in Hin. destruct Hin as [Hr Hi].
    rewrite (pending_store _ index r) in HP by (done || lia).
    assert (p_jobs p1 ++ gather busy (delete k (p_workers p1)) ≡ₚ pending (<[(index - 1)%nat := Some r]> (p_results p1))) as HP'.
    { apply (Permutation_cons_inv (a := index)). rewrite <-HP. solve_Permutation. }
    split_and!; [done|destruct (pooled opts); exact HP'|done|]. intros [E|E]; [|by apply HD]. destruct (pooled opts); [done|by apply HQ].
Qed.

Lemma placed_reachable p : reachable opts p → placed p.
Proof. apply reachable_ind'; [apply start_placed|apply placed_step]. Qed.

Lemma placed_NoDup p : placed p → NoDup (p_jobs p ++ gather busy (p_workers p)).
Proof. intros (_ & HP & _). rewrite HP. apply NoDup_filter, NoDup_seq. Qed.

Lemma leases_snoc log e : leases (log ++ [e]) = leases log ++ match e with Leased i l => [(i, l)] | _ => [] end.
Proof. unfold leases. rewrite omap_snoc. by destruct e. Qed.
Lemma runs_snoc log e : runs (log ++ [e]) = runs log ++ match e with Ran i l _ => [(i, l)] | _ => [] end.
Proof. unfold runs. rewrite omap_snoc. by destruct e. Qed.
Lemma releases_snoc log e : releases (log ++ [e]) = releases log ++ match e with Released i l _ => [(i, l)] | _ => [] end.
Proof. unfold releases. rewrite omap_snoc. by destruct e. Qed.

(** Leases are run on, and released unless they are kept, by the workers that hold them. *)
Definition in_custody (p : pool) : Prop :=
  (so_Keep opts = true → releases (p_log p) = []) ∧
  (so_Keep opts = false → releases (p_log p) ++ gather holding (p_workers p) ≡ₚ leases (p_log p)) ∧
  runs (p_log p) ++ gather running (p_workers p) ≡ₚ leases (p_log p).

Lemma custody_step p p' : in_custody p → step opts p p' → in_custody p'.
Proof.
  intros HI HS. revert HI. destruct HS as [k w a w' p1 p2 Hk HW|p1 Hn]; intros (HK & HR & HN); [|by repeat split].
  pose proof (work_workers _ _ _ _ _ HW) as EW. destruct (gather_worker holding (p_workers p1) k w w' Hk) as [G1 G2].
  destruct (gather_worker running (p_workers p1) k w w' Hk) as [G3 G4]. unfold in_custody, set_worker. cbn [p_log p_workers].
  rewrite EW, G2, G4. rewrite G3 in HN. setoid_rewrite G1 in HR. clear G1 G2 G3 G4 EW.
  set (hs := gather holding _) in *. set (rs := gather running _) in *. clearbody hs rs.
  destruct w, a as [|[l'|e]|o err]; unfold work in HW; try done; injection HW as HW; cbn [holding running app] in *.
  - destruct (p_jobs p1); by simplify_eq/=.
  - by destruct (p_canceled p1); simplify_eq/=.
  - simplify_eq. cbn [holding running app record_event p_log]. rewrite releases_snoc, runs_snoc, leases_snoc, !app_nil_r.
    split_and!; [done|intros E; rewrite <-(HR E); solve_Permutation|rewrite <-HN; solve_Permutation].
  - by destruct (p_canceled p1); simplify_eq/=.
  - simplify_eq. cbn [holding running app record_event cancel_if p_log]. rewrite releases_snoc, runs_snoc, leases_snoc, !app_nil_r.
    split_and!; [done|done|]. rewrite <-HN. solve_Permutation.
  - simplify_eq. cbn [holding running app]. destruct (so_Keep opts); [done|]. cbn [record_event p_log]. rewrite releases_snoc, runs_snoc, leases_snoc, !app_nil_r.
    split_and!; [done| |done]. intros E. rewrite <-(HR E). solve_Permutation.
  - simplify_eq. by destruct (pooled opts).
Qed.

Lemma custody_reachable p : reachable opts p → in_custody p.
Proof.
  apply reachable_ind'; [|apply custody_step]. assert (∀ f, (f = holding ∨ f = running) → gather f (p_workers (start_pool opts)) = []) as HG.
  { intros f Hf. apply gather_nil. unfold start_pool. cbn [p_workers]. destruct (pooled opts); [apply Forall_replicate|apply Forall_fmap, Forall_forall];
      by destruct Hf as [->| ->]. }
  split_and!; [done|intros _|]; rewrite HG by auto; done.
Qed.

(** No shard is provisioned twice. *)
Definition leased_once (p : pool) : Prop :=
  NoDup (leases (p_log p)).*1 ∧ Forall (λ i, i ∉ (leases (p_log p)).*1) (p_jobs p ++ gather unleased (p_workers p)).

Lemma leased_once_step p p' : placed p → leased_once p → step opts p p' → leased_once p'.
Proof.
  intros HPl HI HS. apply placed_NoDup in HPl. revert HPl HI. destruct HS as [k w a w' p1 p2 Hk HW|p1 Hn]; intros HND [HL HF]; [|by split].
  pose proof (work_workers _ _ _ _ _ HW) as EW. destruct (gather_worker unleased (p_workers p1) k w w' Hk) as [G1 G2].
  destruct (gather_worker busy (p_workers p1) k w w' Hk) as [G3 _]. unfold leased_once, set_worker. cbn [p_log p_workers p_jobs].
  rewrite EW, G2. rewrite G1 in HF. rewrite G3 in HND. clear G1 G2 G3 EW.
  assert (∀ x, x ∈ gather unleased (delete k (p_workers p1)) → x ∈ gather busy (delete k (p_workers p1))) as Hsub.
  { unfold gather. intros x. rewrite !list_elem_of_In, !in_concat. intros (l & Hl & Hx). apply list_elem_of_In, list_elem_of_fmap in Hl as (v & -> & Hv).
    exists (busy v). split; [apply list_elem_of_In, list_elem_of_fmap; eauto|]. by destruct v; cbn in *. }
  set (us := gather unleased _) in *. set (bs := gather busy _) in *. clearbody us bs.
  destruct w, a as [|[l'|e]|o err]; unfold work in HW; try done; injection HW as HW; cbn [unleased busy app] in *.
  - destruct (p_jobs p1) eqn:EJ; simplify_eq/=; (split; [done|]); [by rewrite EJ|]. by rewrite <-Permutation_middle.
  - destruct (p_canceled p1); simplify_eq/=; (split; [done|]); [|done]. rewrite Forall_app in *. rewrite Forall_cons in HF. tauto.
  - simplify_eq. cbn [record_event p_log p_jobs unleased app]. rewrite leases_snoc, fmap_app. cbn [fmap list_fmap fst].
    rewrite Forall_app, Forall_cons in HF. destruct HF as (HF1 & HF2 & HF3). split.
    + apply NoDup_app. split_and!; [done| |by repeat constructor; set_solver]. set_solver.
    + apply NoDup_app in HND as (_ & HND & HB). apply NoDup_cons in HB as [HB _].
      apply Forall_app. rewrite Forall_forall in HF1, HF3. split; apply Forall_forall; intros x Hx.
      * specialize (HF1 x Hx). specialize (HND x Hx). set_solver.
      * specialize (HF3 x Hx). specialize (Hsub x Hx). set_solver.
  - destruct (p_canceled p1); simplify_eq/=; (split; [done|]); rewrite Forall_app in *; rewrite Forall_cons in HF; tauto.
  - simplify_eq. unfold leased_once. cbn [record_event cancel_if p_log p_jobs unleased app]. by rewrite leases_snoc, app_nil_r.
  - simplify_eq. destruct (so_Keep opts); cbn [record_event p_log p_jobs unleased app]; [done|]. by rewrite leases_snoc, app_nil_r.
  - simplify_eq. by destruct (pooled opts).
Qed.

Lemma leased_once_reachable p : reachable opts p → leased_once p.
Proof.
  intros HR. enough (placed p ∧ leased_once p) by tauto. revert p HR. apply reachable_ind'.
  - split; [apply start_placed|]. split; [constructor|]. apply Forall_forall. set_solver.
  - intros p p' [H1 H2] HS. split; [by eapply placed_step|by eapply leased_once_step].
Qed.

(** A result: canceled, a failure that is not the command's, or what a run on
    the shard's lease has recorded. *)
Definition result_ok (log : list event) (index : nat) (r : shardResult) : Prop :=
  sr_Index r = index ∧
  (sr_Canceled r = true ∨ sr_Recorded r = false ∧ sr_Err r ≠ None ∨
   ∃ l o, Leased index l ∈ log ∧ Ran index l o ∈ log ∧ ro_Recorded o = true ∧ sr_Recorded r = true ∧
     sr_ExitCode r = ro_ExitCode o ∧ sr_Results r = ro_Results o).
Definition worker_ok (log : list event) (w : worker) : Prop :=
  match w with
  | Executing i l => Leased i l ∈ log
  | Deferred i l o r => Ran i l o ∈ log ∧ result_ok log i r
  | Storing i r => result_ok log i r
  | _ => True
  end.
Definition honest (p : pool) : Prop :=
  Forall (worker_ok (p_log p)) (p_workers p) ∧
  (∀ i r, p_results p !! i = Some (Some r) → result_ok (p_log p) (S i) r) ∧
  (∀ i l c, Released i l c ∈ p_log p → ∃ o, Ran i l o ∈ p_log p ∧ c = carried l o).

Lemma result_ok_mono log log' i r : log ⊆ log' → result_ok log i r → result_ok log' i r.
Proof. intros HL [H1 [H2|[H2|(l & o & H2 & H3 & H4)]]]; (split; [done|]); [by left|by right; left|]. right. right. exists l, o. set_solver. Qed.
Lemma worker_ok_mono log log' w : log ⊆ log' → worker_ok log w → worker_ok log' w.
Proof. destruct w; cbn; try done; [set_solver| |apply result_ok_mono]. intros HL [H1 H2]. split; [set_solver|by eapply result_ok_mono]. Qed.

Lemma shard_result_ok log canceled i l o err : Leased i l ∈ log → Ran i l o ∈ log →
  result_ok log i (shard_result canceled i l o err).
Proof.
  intros HL HR. unfold shard_result. destruct (canceled && _) eqn:EC; (split; [done|]); [by left|]. right.
  destruct (ro_Recorded o) eqn:ER; [|by left]. right. exists l, o. by split_and!.
Qed.

(** A step that adds to the log and changes one worker. *)
Lemma honest_move p k w' log : honest p → p_log p ⊆ log → worker_ok log w' →
  (∀ i l c, Released i l c ∈ log → Released i l c ∈ p_log p ∨ ∃ o, Ran i l o ∈ log ∧ c = carried l o) →
  ∀ jobs canceled, honest (mkPool (<[k := w']> (p_workers p)) jobs (p_results p) canceled log).
Proof.
  intros (HW & HR & HC) HL Hw Hrel jobs canceled. split_and!; cbn [p_log p_workers p_results].
  - apply Forall_insert; [|done]. eapply Forall_impl; [exact HW|]. intros w. by apply worker_ok_mono.
  - intros i r Hr. eapply result_ok_mono; [exact HL|by apply HR].
  - intros i l c Hi. destruct (Hrel i l c Hi) as [Hi'|?]; [|done]. destruct (HC _ _ _ Hi') as (o & Ho & ->). exists o. set_solver.
Qed.

Lemma honest_step p p' : placed p → honest p → step opts p p' → honest p'.
Proof.
  intros HPl HI HS. revert HPl HI. destruct HS as [k w a w' p1 p2 Hk HW|p1 Hn]; intros HPl HH; [|done].
  assert (worker_ok (p_log p1) w) as Hw by (destruct HH as (HWs & _); by eapply Forall_lookup_1).
  destruct w, a as [|[l'|e]|o err]; unfold work in HW; try done.
  - injection HW as HW. destruct (p_jobs p1); injection HW as <- <-; by apply (honest_move p1); auto.
  - injection HW as <- <-. apply (honest_move p1); auto. destruct (p_canceled p1); [|done]. split; [done|by left].
  - injection HW as <- <-. apply (honest_move p1); [done|cbn; set_solver|cbn; set_solver|]. intros i l c Hi. left. cbn in Hi. set_solver.
  - injection HW as HW. destruct (p_canceled p1); injection HW as <- <-; apply (honest_move p1); auto; cbn; (split; [done|]); [by left|by right; left].
  - injection HW as <- <-. apply (honest_move p1); [done|cbn; set_solver| |].
    + cbn. split; [set_solver|]. apply shard_result_ok; [|set_solver]. cbn in Hw. set_solver.
    + intros i l0 c Hi. left. cbn in Hi. set_solver.
  - injection HW as <- <-. destruct Hw as [Hran Hr]. destruct (so_Keep opts); [by apply (honest_move p1); auto|].
    apply (honest_move p1); [done|cbn; set_solver|cbn; eapply result_ok_mono; [|done]; set_solver|].
    intros i l0 c Hi. cbn in Hi. apply elem_of_app in Hi as [Hi|Hi]; [by left|]. right. apply list_elem_of_singleton in Hi.
    injection Hi as -> -> ->. exists outcome. split; [cbn; set_solver|done].
  - injection HW as <- <-. destruct HH as (HWs & HRs & HCs). split_and!; cbn [p_log p_workers p_results set_worker]; [| |done].
    + apply Forall_insert; [done|]. by destruct (pooled opts).
    + intros i r0 Hr. destruct (decide (i = index - 1)%nat) as [->|Hne]; [|rewrite list_lookup_insert_ne in Hr by done; by apply HRs].
      apply list_lookup_insert_Some in Hr as [(_ & [= <-] & _)|[? _]]; [|done].
      destruct HPl as (_ & HP & _). assert (index ∈ pending (p_results p1)) as Hin.
      { rewrite <-HP. apply elem_of_app. right. destruct (gather_worker busy _ _ _ Waiting Hk) as [-> _]. set_solver. }
      unfold pending in Hin. rewrite list_elem_of_filter, elem_of_seq in Hin. replace (S (index - 1)) with index by lia. exact Hw.
Qed.

Lemma honest_reachable p : reachable opts p → honest p.
Proof.
  intros HR. enough (placed p ∧ honest p) by tauto. revert p HR. apply reachable_ind'.
  - split; [apply start_placed|]. unfold start_pool. split_and!; cbn [p_workers p_results p_log].
    + destruct (pooled opts); [by apply Forall_replicate|by apply Forall_fmap, Forall_forall].
    + intros i r Hr. apply lookup_replicate in Hr as [[=] _].
    + set_solver.
  - intros p p' [H1 H2] HS. split; [by eapply placed_step|by eapply honest_step].
Qed.
End Invariants.

(** ** Every run of the pool ends *)

Definition rank (w : worker) : nat :=
  match w with
  | Done => 0 | Waiting => 1 | Storing _ _ => 2 | Deferred _ _ _ _ => 3 | Executing _ _ => 4 | Provisioning _ => 5 | Pulled _ => 6
  end.
Definition ranks_of (ws : list worker) : nat := length (gather (λ w, replicate (rank w) ()) ws).
Definition remaining (p : pool) : nat :=
  7 * length (p_jobs p) + ranks_of (p_workers p) + (if p_canceled p then 0 else 1).

Lemma step_remaining opts p p' : step opts p p' → (remaining p' < remaining p)%nat.
Proof.
  intros [k w a w' p1 p2 Hk HW|p1 Hn]; [|unfold remaining, cancel_if; cbn [p_jobs p_workers p_canceled]; rewrite Hn; cbn [orb]; lia].
  pose proof (work_workers _ _ _ _ _ _ HW) as EW.
  destruct (gather_worker (λ w, replicate (rank w) ()) (p_workers p1) k w w' Hk) as [G1 G2].
  apply Permutation_length in G1, G2. rewrite length_app, length_replicate in G1, G2.
  unfold remaining, set_worker, ranks_of. cbn [p_jobs p_workers p_canceled]. rewrite EW, G1, G2.
  destruct w, a as [|[l'|e]|o err]; unfold work in HW; try done.
  - injection HW as HW. destruct (p_jobs p1) eqn:EJ; injection HW as <- <-; cbn [p_jobs p_canceled rank length]; rewrite ?EJ; cbn [length]; lia.
  - injection HW as <- <-. destruct (p_canceled p1); cbn [rank]; lia.
  - injection HW as <- <-. cbn [rank record_event p_jobs p_canceled]. lia.
  - injection HW as HW. destruct (p_canceled p1) eqn:Ec; injection HW as <- <-; cbn [rank p_jobs]; [rewrite Ec; lia|].
    unfold cancel_if. cbn [p_jobs p_canceled]. destruct (_ || _); lia.
  - injection HW as <- <-. unfold cancel_if, record_event. cbn [rank p_jobs p_canceled].
    destruct (p_canceled p1); cbn [orb]; [lia|]. destruct (_ && _); lia.
  - injection HW as <- <-. destruct (so_Keep opts); cbn [rank record_event p_jobs p_canceled]; lia.
  - injection HW as <- <-. destruct (pooled opts); cbn [rank p_jobs p_canceled]; lia.
Qed.

Lemma start_remaining opts : (remaining (start_pool opts) ≤ 8 * so_Count opts + 1)%nat.
Proof.
  unfold remaining, start_pool, ranks_of. cbn [p_jobs p_workers p_canceled].
  assert (∀ (r : nat) ws, Forall (λ w, rank w = r) ws → length (gather (λ w, replicate (rank w) ()) ws) = r * length ws)%nat as HG.
  { intros r ws. induction 1 as [|w ws Hw _ IH]; [done|]. unfold gather in *. cbn. rewrite length_app, length_replicate, IH, Hw. lia. }
  destruct (pooled opts) eqn:EP.
  - rewrite (HG 1%nat) by by apply Forall_replicate. rewrite length_seq, length_replicate.
    unfold pooled in EP. apply Nat.ltb_lt in EP. lia.
  - rewrite (HG 5%nat) by by apply Forall_fmap, Forall_forall. rewrite length_fmap, length_seq. cbn [length]. lia.
Qed.

(** A worker that is not done can move, whatever it waits for. *)
Lemma work_progress opts p w : w ≠ Done → ∃ a w' p', work opts a p w = Some (w', p').
Proof.
  intros Hw. destruct w; try done;
    try (exists NoAnswer; unfold work; destruct (p_jobs p); by do 2 eexists);
    try (exists (Provisioned (Err canceled_error)); unfold work; destruct (p_canceled p); by do 2 eexists);
    try (exists (Executed (mkOutcome false 0 "" None None) None); by do 2 eexists).
Qed.

Lemma pool_progress opts p : finished p ∨ ∃ j w a x, p_workers p !! j = Some w ∧ work opts a p w = Some x.
Proof.
  unfold finished. destruct (decide (Forall (λ w, rank w = 0%nat) (p_workers p))) as [HF|HF].
  - left. eapply Forall_impl; [exact HF|]. by intros [].
  - right. apply not_Forall_Exists in HF; [|apply _]. apply Exists_exists in HF as (w & Hin & Hw).
    apply list_elem_of_lookup in Hin as [k Hk]. destruct (work_progress opts p w) as (a & w' & p' & HW); [intros ->; by apply Hw|].
    by exists k, w, a, (w', p').
Qed.

Lemma finished_results opts p : reachable opts p → finished p →
  ∃ results, p_results p = Some <$> results ∧ length results = so_Count opts.
Proof.
  intros HR HF. destruct (placed_reachable _ _ HR) as (HL & HP & _ & HD & HC).
  assert (pending (p_results p) = []) as HE.
  { destruct (p_workers p) as [|w ws] eqn:EW.
    - assert (so_Count opts = 0%nat) as E0.
      { cbn in HC. unfold concurrency in HC. destruct (_ || _) eqn:E in HC; [done|lia]. }
      rewrite E0 in HL. apply nil_length_inv in HL. by rewrite HL.
    - unfold finished in HF. rewrite EW in HF. assert (p_jobs p = []) as EJ by (apply HD; apply Forall_cons in HF as [-> _]; set_solver).
      rewrite EJ, gather_nil in HP; [by apply Permutation_nil_l in HP|]. eapply Forall_impl; [exact HF|]. by intros ? ->. }
  assert (Forall (λ x : option shardResult, is_Some x) (p_results p)) as HA.
  { apply Forall_lookup_2. intros i [r|] Hi; [done|]. exfalso. assert (S i ∈ pending (p_results p)) as Hin; [|rewrite HE in Hin; set_solver].
    unfold pending. rewrite list_elem_of_filter, no_result_true, elem_of_seq. pose proof (lookup_lt_Some _ _ _ Hi).
    replace (S i - 1)%nat with i by lia. split; [done|lia]. }
  exists (omap id (p_results p)). rewrite <-HL. clear -HA. induction HA as [|[r|] l [x Hx] _ [IH1 IH2]]; [done| |done].
  cbn. by rewrite <-IH1, IH2.
Qed.

(** C23. Every sharded run ends with a result for every shard.  Whatever the
    interleaving, the answers of the provider and of the runs, and an
    interruption, the pool takes at most eight steps for each shard and one
    more; as long as not all workers are done, one of them has a step, without
    waiting for another; and once all are done, each of the [Count] shards has
    its own result. *)
Theorem shards_finish opts k p : nsteps (step opts) k (start_pool opts) p →
  (k ≤ 8 * so_Count opts + 1)%nat ∧
  ((∃ j w a x, p_workers p !! j = Some w ∧ work opts a p w = Some x) ∨
   ∃ results, finished p ∧ p_results p = Some <$> results ∧ sr_Index <$> results = seq 1 (so_Count opts)).
Proof.
  intros HN. assert (∀ n p q, nsteps (step opts) n p q → n + remaining q ≤ remaining p)%nat as HB.
  { induction 1 as [|n q1 q2 q3 HS _ IH]; [lia|]. apply step_remaining in HS. lia. }
  apply HB in HN as HK. pose proof (start_remaining opts). split; [lia|].
  destruct (pool_progress opts p) as [HF|HS]; [right|by left]. assert (reachable opts p) as HR by by eapply rtc_nsteps_2.
  destruct (finished_results opts p HR HF) as (rs & ER & EL). exists rs. split_and!; [done|done|].
  destruct (honest_reachable _ _ HR) as (_ & HI & _). apply list_eq. intros i. rewrite list_lookup_fmap.
  destruct (rs !! i) as [r|] eqn:Ei; cbn [fmap option_fmap option_map].
  - pose proof (lookup_lt_Some _ _ _ Ei). rewrite lookup_seq_lt by lia. f_equal. apply (HI i). rewrite ER, list_lookup_fmap. by rewrite Ei.
  - apply lookup_ge_None in Ei. rewrite lookup_seq_ge by lia. done.
Qed.

(** C21. No lease of a sharded run is leaked, released twice or run on twice.  At
    every point of every interleaving: each shard has been given at most one
    lease; every lease that was given is held by one worker or has been released,
    once, so that no more leases are held than workers are allowed; a release
    carries no claim but the one that the run on that lease has reported.  When
    the pool is done every lease has been run on and released exactly once;
    with [--keep] none has been released. *)
Theorem leases_released opts p : reachable opts p →
  NoDup (leases (p_log p)).*1 ∧
  (∀ i l c, Released i l c ∈ p_log p → ∃ o, Ran i l o ∈ p_log p ∧ c = carried l o) ∧
  (if so_Keep opts then releases (p_log p) = []
   else ∃ held, releases (p_log p) ++ held ≡ₚ leases (p_log p) ∧ (length held ≤ concurrency opts)%nat) ∧
  (finished p → runs (p_log p) ≡ₚ leases (p_log p) ∧
    if so_Keep opts then releases (p_log p) = [] else releases (p_log p) ≡ₚ leases (p_log p)).
Proof.
  intros HR. destruct (leased_once_reachable _ _ HR) as [HL _]. destruct (honest_reachable _ _ HR) as (_ & _ & HC).
  destruct (custody_reachable _ _ HR) as (HK & HN & HX). destruct (placed_reachable _ _ HR) as (_ & _ & _ & _ & HW).
  assert (finished p → gather holding (p_workers p) = [] ∧ gather running (p_workers p) = []) as HF.
  { intros HF. split; apply gather_nil; (eapply Forall_impl; [exact HF|]); by intros ? ->. }
  split_and!; [done|done| |].
  - destruct (so_Keep opts); [by apply HK|]. exists (gather holding (p_workers p)). split; [by apply HN|]. rewrite <-HW.
    clear. induction (p_workers p) as [|w ws IH]; [done|]. unfold gather in *. cbn. rewrite length_app. destruct w; cbn; lia.
  - intros [E1 E2]%HF. rewrite E2, app_nil_r in HX. split; [done|]. destruct (so_Keep opts); [by apply HK|].
    rewrite E1 in HN. specialize (HN eq_refl). by rewrite app_nil_r in HN.
Qed.

(** ** The verdict *)

Lemma merged_failed results : ∀ m, ts_Failed (fold_left mergeJUnitSummary results m) = ts_Failed m ++ concat (ts_Failed <$> results).
Proof. induction results as [|r results IH]; intros m; cbn; [by rewrite app_nil_r|]. rewrite IH. cbn. by rewrite app_assoc. Qed.

Lemma no_test_failures results r s : test_failures (merged_results results) = false → r ∈ results → sr_Results r = Some s →
  ts_Failed s = [].
Proof.
  unfold merged_results. intros HT Hr Hs. assert (s ∈ omap sr_Results results) as Hin by (apply list_elem_of_omap; eauto).
  case_bool_decide as HE; [rewrite HE in Hin; set_solver|]. cbn [test_failures] in HT. guards.
  match goal with H : ts_Failed _ = [] |- _ => rewrite merged_failed in H; cbn [junit_summary ts_Failed app] in H; rename H into HF end.
  apply list_elem_of_split in Hin as (l1 & l2 & E). rewrite E, fmap_app, concat_app in HF. cbn in HF.
  by apply app_nil in HF as [_ [HF _]%app_nil].
Qed.

(** The counts of the reports that were delivered are counts, and their sums are
    within an [int]: the merged counts are then the sums. *)
Fixpoint tally (count : TestResultSummary → Z) (ss : list TestResultSummary) : Z :=
  match ss with [] => 0 | s :: ss => count s + tally count ss end.
Definition countable (ss : list TestResultSummary) : Prop :=
  Forall (λ s, 0 ≤ ts_Failures s ∧ 0 ≤ ts_Errors s) ss ∧
  tally ts_Failures ss ≤ max_int64 ∧ tally ts_Errors ss ≤ max_int64.

Lemma tally_nonneg count ss : Forall (λ s, 0 ≤ count s) ss → 0 ≤ tally count ss.
Proof. induction 1; cbn; lia. Qed.

Lemma tally_member count ss s : Forall (λ s, 0 ≤ count s) ss → s ∈ ss → count s ≤ tally count ss.
Proof.
  intros HF Hs. induction HF as [|x ss Hx HF IH]; [set_solver|]. pose proof (tally_nonneg _ _ HF).
  cbn. apply elem_of_cons in Hs as [->|Hs]; [lia|]. specialize (IH Hs). lia.
Qed.

(** A count that merging adds up. *)
Lemma merged_tally count ss :
  (∀ d s, count (mergeJUnitSummary d s) = wrap64 (count d + count s)) →
  Forall (λ s, 0 ≤ count s) ss → ∀ m, 0 ≤ count m → count m + tally count ss ≤ max_int64 →
  count (fold_left mergeJUnitSummary ss m) = count m + tally count ss.
Proof.
  intros HM HF. induction HF as [|s ss Hs HF IH]; intros m Hm HB; [cbn; lia|].
  pose proof (tally_nonneg _ _ HF). cbn [fold_left tally] in *.
  assert (count (mergeJUnitSummary m s) = count m + count s) as E.
  { rewrite HM. apply wrap64_id. assert (min_int64 ≤ 0) by by vm_compute. lia. }
  rewrite IH, E by (rewrite ?E; lia). lia.
Qed.

(** A verdict without test failures: the merged counts are not positive, and
    counts that add up are all zero. *)
Lemma no_counted_failures results r s : test_failures (merged_results results) = false → r ∈ results →
  sr_Results r = Some s → countable (omap sr_Results results) → ts_Failures s = 0 ∧ ts_Errors s = 0.
Proof.
  unfold merged_results. intros HT Hr Hs (HF & HB1 & HB2).
  assert (s ∈ omap sr_Results results) as Hin by (apply list_elem_of_omap; eauto).
  case_bool_decide as HE; [rewrite HE in Hin; set_solver|]. cbn [test_failures] in HT.
  apply orb_false_iff in HT as [[T1%Z.ltb_ge T2%Z.ltb_ge]%orb_false_iff _].
  apply Forall_and in HF as [F1 F2].
  rewrite (merged_tally ts_Failures) in T1 by (done || cbn; lia).
  rewrite (merged_tally ts_Errors) in T2 by (done || cbn; lia).
  pose proof (tally_member _ _ _ F1 Hin). pose proof (tally_member _ _ _ F2 Hin).
  rewrite Forall_forall in F1, F2. pose proof (F1 s Hin). pose proof (F2 s Hin). cbn in *. lia.
Qed.

Lemma verdict_clean opts results : shardVerdict opts results = None →
  Forall (λ r, infraFailed r = false ∧ commandFailed r = false ∧ sr_Canceled r = false) results ∧
  (so_FailOnTestFailures opts = true → test_failures (merged_results results) = false).
Proof.
  unfold shardVerdict. intros HV. assert (∀ f, existsb f results = false → Forall (λ r, f r = false) results) as HX.
  { intros f Hf. apply Forall_forall. intros r Hr. destruct (f r) eqn:E; [|done].
    assert (existsb f results = true); [|congruence]. apply existsb_exists. exists r. split; [by apply list_elem_of_In|done]. }
  destruct (existsb infraFailed results) eqn:E1; [done|]. destruct (existsb commandFailed results) eqn:E2; [done|].
  destruct (existsb sr_Canceled results) eqn:E3; [done|]. apply HX in E1, E2, E3. split.
  - rewrite Forall_forall in *. intros r Hr. by split_and!; auto.
  - intros HP. rewrite HP in HV. cbn [andb] in HV. by destruct (test_failures _).
Qed.

(** C22. A sharded run passes only when every shard has passed.  When all
    workers are done and the verdict on the stored results is no error, then for
    every shard from 1 to [Count] a lease was provisioned and the command was run
    on it and recorded exit code zero.  Where failing tests are to fail the run,
    no report of any shard lists a failing test, the merged counts of failures
    and errors are not positive, and the counts of every report are zero (when
    they are not negative and their sums are within an [int], so that merging
    adds them up).  So no interleaving, cancellation or provider failure is taken
    for success, nor a report with counts alone. *)
Theorem passing_verdict opts p results : reachable opts p → finished p → p_results p = Some <$> results →
  shardVerdict opts results = None →
  (∀ i, (1 ≤ i ≤ so_Count opts)%nat → ∃ l o, Leased i l ∈ p_log p ∧ Ran i l o ∈ p_log p ∧ ro_Recorded o = true ∧ ro_ExitCode o = 0 ∧
    (so_FailOnTestFailures opts = true → ∀ s, ro_Results o = Some s → ts_Failed s = [] ∧
      (countable (omap sr_Results results) → ts_Failures s = 0 ∧ ts_Errors s = 0))) ∧
  (so_FailOnTestFailures opts = true → ∀ m, merged_results results = Some m →
    ts_Failures m ≤ 0 ∧ ts_Errors m ≤ 0 ∧ ts_Failed m = []).
Proof.
  intros HR HF ER HV. split; [intros i Hi|].
  2: { apply verdict_clean in HV as [_ HT]. intros HP m Em. specialize (HT HP). rewrite Em in HT.
       cbn [test_failures] in HT. guards. split_and!; [lia|lia|done]. }
  destruct (placed_reachable _ _ HR) as (HL & _). rewrite ER, length_fmap in HL.
  destruct (lookup_lt_is_Some_2 results (i - 1)%nat) as [r Hr]; [lia|].
  apply verdict_clean in HV as [HC HT]. assert (r ∈ results) as Hin by by eapply list_elem_of_lookup_2.
  rewrite Forall_forall in HC. destruct (HC r Hin) as (Hinf & Hcmd & Hcan).
  destruct (honest_reachable _ _ HR) as (_ & HI & _). specialize (HI (i - 1)%nat r). rewrite ER, list_lookup_fmap, Hr in HI.
  replace (S (i - 1)) with i in HI by lia. destruct (HI eq_refl) as [_ [H1|[[H1 H2]|(l & o & H1 & H2 & H3 & Er & H4 & H5)]]].
  - congruence.
  - exfalso. unfold infraFailed in Hinf. rewrite H1, Hcan, (bool_decide_eq_false_2 _ H2) in Hinf. done.
  - exists l, o. split_and!; try done.
    + rewrite <-H4. unfold commandFailed in Hcmd. rewrite Er, Hcan in Hcmd. cbn in Hcmd. rewrite andb_true_r in Hcmd. guards. lia.
    + intros HP s Hs. rewrite <-H5 in Hs. split.
      * eapply no_test_failures; [by apply HT|exact Hin|exact Hs].
      * eapply no_counted_failures; [by apply HT|exact Hin|exact Hs].
Qed.

(** ** A run of two shards *)

(** A schedule: which worker moves, with which answer. *)
Fixpoint play (opts : shardOptions) (script : list (nat * answer)) (p : pool) : option pool :=
  match script with
  | [] => Some p
  | (k, a) :: script => w ← p_workers p !! k; x ← work opts a p w; play opts script (set_worker k x.1 x.2)
  end.

Lemma play_steps opts script : ∀ p q, play opts script p = Some q → nsteps (step opts) (length script) p q.
Proof.
  induction script as [|[k a] script IH]; intros p q HP; cbn [play length] in *; [injection HP as ->; constructor|].
  destruct (p_workers p !! k) as [w|] eqn:Ek; [|done]. cbn [mbind option_bind] in HP.
  destruct (work opts a p w) as [[w' p']|] eqn:EW; [|done]. cbn [mbind option_bind fst snd] in HP.
  econstructor; [|by apply IH]. by eapply step_worker.
Qed.
Lemma play_reachable opts script p : play opts script (start_pool opts) = Some p → reachable opts p.
Proof. intros HP. eapply rtc_nsteps_2, play_steps, HP. Qed.

Definition two_shards : shardOptions := mkShardOptions 2 1 false true true "suite".
Definition shard_lease (id : string) : lease := mkLease id id true.
Definition clean_run : shardRunOutcome := mkOutcome true 0 "run" (Some (junit_summary [])) None.
Definition one_shard (id : string) (o : shardRunOutcome) (err : option error) : list answer :=
  [NoAnswer; NoAnswer; Provisioned (Ok (shard_lease id)); Executed o err; NoAnswer; NoAnswer].
Definition clean_script : list (nat * answer) := pair 0%nat <$> one_shard "cbx_1" clean_run None ++ one_shard "cbx_2" clean_run None ++ [NoAnswer].
(** The first command fails, so the second shard is canceled before it has a lease. *)
Definition failing_script : list (nat * answer) :=
  pair 0%nat <$> one_shard "cbx_1" (mkOutcome true 3 "run" None None) None ++ [NoAnswer; NoAnswer; NoAnswer; NoAnswer].
Definition played (script : list (nat * answer)) : pool := default (start_pool two_shards) (play two_shards script (start_pool two_shards)).

Lemma shards_finish_witness : nsteps (step two_shards) 10 (start_pool two_shards) (played failing_script) ∧
  ∃ results, finished (played failing_script) ∧ p_results (played failing_script) = Some <$> results ∧ sr_Index <$> results = [1; 2]%nat.
Proof.
  assert (nsteps (step two_shards) 10 (start_pool two_shards) (played failing_script)) as HN.
  { apply (play_steps two_shards failing_script). by vm_compute. }
  split; [exact HN|]. destruct (shards_finish two_shards _ _ HN) as [_ [(j & w & a & x & Hj & HW)|HR]]; [|exact HR].
  exfalso. assert (p_workers (played failing_script) = [Done]) as EW by (vm_compute; reflexivity). rewrite EW in Hj. clear -HW Hj.
  destruct j as [|j]; [|discriminate Hj]. injection Hj as <-. by destruct a.
Defined.

Lemma leases_released_witness : releases (p_log (played failing_script)) ≡ₚ [(1%nat, shard_lease "cbx_1")] ∧
  leases (p_log (played failing_script)) = [(1%nat, shard_lease "cbx_1")].
Proof.
  destruct (leases_released two_shards (played failing_script)) as (_ & _ & _ & HF).
  { apply (play_reachable two_shards failing_script). by vm_compute. }
  destruct HF as [_ HF]; [vm_compute; repeat constructor|]. split; [exact HF|by vm_compute].
Defined.

Lemma passing_verdict_witness : ∃ l o, Leased 2 l ∈ p_log (played clean_script) ∧ Ran 2 l o ∈ p_log (played clean_script) ∧
  ro_Recorded o = true ∧ ro_ExitCode o = 0 ∧
  ∀ s, ro_Results o = Some s → ts_Failed s = [] ∧ ts_Failures s = 0 ∧ ts_Errors s = 0.
Proof.
  set (results := omap id (p_results (played clean_script))).
  assert (countable (omap sr_Results results)) as HC.
  { split; [vm_compute; repeat constructor; discriminate|by vm_compute]. }
  destruct (passing_verdict two_shards (played clean_script) results) as [HS _].
  - apply (play_reachable two_shards clean_script). by vm_compute.
  - vm_compute. repeat constructor.
  - by vm_compute.
  - by vm_compute.
  - destruct (HS 2%nat) as (l & o & H1 & H2 & H3 & H4 & H5); [vm_compute; lia|].
    exists l, o. split_and!; [exact H1|exact H2|exact H3|exact H4|].
    intros s Hs. destruct (H5 eq_refl s Hs) as [H6 H7]. exact (conj H6 (H7 HC)).
Defined.

(** A report with counts alone fails the run. *)
Example counted_failures_fail : ∃ e,
  shardVerdict two_shards [mkShardResult 1 "cbx_1" "cbx_1" "run" 0 true false
    (Some (mkSummary "junit" [] 0 3 3 0 0 [])) None] = Some e.
Proof. eexists. by vm_compute. Qed.

(** ** Lines of several shards *)

(** [prefixLineWriter]: what has not made a line yet.  The lock of the mux makes
    each [Write] and [Flush] one step. *)
Record prefixLineWriter := mkLineWriter { lw_prefix : list Z; lw_buf : list Z }.
Definition set_buf (buf : list Z) : M (sink * prefixLineWriter) () :=
  modify (λ st, (st.1, mkLineWriter (lw_prefix st.2) buf)).

Definition emitLocked (line : list Z) : M (sink * prefixLineWriter) () := λ st,
  let '(_, e1, w1) := write (lw_prefix st.2) st.1 in
  match e1 with
  | Some x => (Err x, (w1, st.2))
  | None =>
      let '(_, e2, w2) := write line w1 in
      (match e2 with Some x => Err x | None => Ok () end, (w2, st.2))
  end.

(** The bytes before the first line end, and those after it. *)
Fixpoint cut_line (bs : list Z) : option (list Z * list Z) :=
  match bs with
  | [] => None
  | b :: bs => if b =? 10 then Some ([], bs) else p ← cut_line bs; Some (b :: p.1, p.2)
  end.

Fixpoint emit_lines (fuel : nat) : M (sink * prefixLineWriter) () :=
  match fuel with
  | O => fail out_of_fuel
  | S fuel =>
      buf ← gets (λ st, lw_buf st.2);
      match cut_line buf with
      | None => mret ()
      | Some (line, rest) => emitLocked (line ++ [10]);; set_buf rest;; emit_lines fuel
      end
  end.

(** What is left becomes a line of its own. *)
Definition emit_rest : M (sink * prefixLineWriter) () :=
  buf ← gets (λ st, lw_buf st.2);
  set_buf [];;
  emitLocked (buf ++ [10]).

Definition lineWriter_Write (p : list Z) : M (sink * prefixLineWriter) () :=
  buf ← gets (λ st, lw_buf st.2 ++ p);
  set_buf buf;;
  emit_lines (S (length buf));;
  rest ← gets (λ st, lw_buf st.2);
  if shardPartialLineLimit <? zlen rest then emit_rest else mret ().
Definition lineWriter_Flush : M (sink * prefixLineWriter) () :=
  buf ← gets (λ st, lw_buf st.2);
  if bool_decide (buf = []) then mret () else emit_rest.

(** Calls of several writers on one stream, in the order the lock gives them. *)
Inductive call := CallWrite (p : list Z) | CallFlush.
Definition one_call (c : call) : M (sink * prefixLineWriter) () :=
  match c with CallWrite p => lineWriter_Write p | CallFlush => lineWriter_Flush end.
Fixpoint calls (cs : list (nat * call)) (st : sink * list prefixLineWriter) : sink * list prefixLineWriter :=
  match cs with
  | [] => st
  | (k, c) :: cs =>
      match st.2 !! k with
      | None => calls cs st
      | Some lw => let '(_, (w, lw')) := one_call c (st.1, lw) in calls cs (w, <[k := lw']> st.2)
      end
  end.

(** A line on the stream: its bytes, and whether it was cut off without a line
    end of its own. *)
Record piece := mkPiece { pc_bytes : list Z; pc_cut : bool }.
Definition shown (prefix : list Z) (x : piece) : list Z := prefix ++ pc_bytes x ++ [10].
Definition source (x : piece) : list Z := pc_bytes x ++ if pc_cut x then [] else [10].

Lemma cut_line_spec bs : match cut_line bs with
  | Some (line, rest) => bs = line ++ 10 :: rest ∧ 10 ∉ line
  | None => 10 ∉ bs
  end.
Proof.
  induction bs as [|b bs IH]; cbn [cut_line]; [set_solver|]. destruct (Z.eqb_spec b 10) as [->|Hb]; [split; [done|set_solver]|].
  destruct (cut_line bs) as [[line rest]|]; cbn; [destruct IH as [-> IH]; split; [done|]|]; intros [|]%elem_of_cons; done.
Qed.

(** A call on a stream that takes everything. *)
Definition emitted (st st' : sink * prefixLineWriter) (input : list Z) : Prop :=
  snk_room st'.1 = None ∧ lw_prefix st'.2 = lw_prefix st.2 ∧
  ∃ pieces, snk_out st'.1 = snk_out st.1 ++ concat (shown (lw_prefix st.2) <$> pieces) ∧
    lw_buf st.2 ++ input = concat (source <$> pieces) ++ lw_buf st'.2 ∧ Forall (λ x, 10 ∉ pc_bytes x) pieces.

Lemma emitLocked_run line w lw : snk_room w = None →
  emitLocked line (w, lw) = (Ok (), (Sink (snk_out w ++ lw_prefix lw ++ line) None (snk_fault w), lw)).
Proof. intros Hr. unfold emitLocked, write. cbn [fst snd]. rewrite Hr. cbn. by rewrite <-app_assoc. Qed.

Lemma emit_lines_run fuel : ∀ st, snk_room st.1 = None → (length (lw_buf st.2) < fuel)%nat →
  ∃ st', emit_lines fuel st = (Ok (), st') ∧ emitted st st' [] ∧ 10 ∉ lw_buf st'.2.
Proof.
  induction fuel as [|fuel IH]; intros [w lw] Hr Hf; [lia|]. cbn [fst snd] in *. cbn [emit_lines]. unfold mbind, M_bind, gets. cbn [snd].
  pose proof (cut_line_spec (lw_buf lw)) as HC. destruct (cut_line (lw_buf lw)) as [[line rest]|].
  - destruct HC as [EB HL]. rewrite emitLocked_run by done. unfold set_buf, modify. cbn [fst snd].
    destruct (IH (Sink (snk_out w ++ lw_prefix lw ++ line ++ [10]) None (snk_fault w), mkLineWriter (lw_prefix lw) rest))
      as (st' & -> & (Hr' & Hp & ps & Ho & HB & HF) & HN); [done|cbn; rewrite EB in Hf; rewrite length_app in Hf; cbn in Hf; lia|].
    exists st'. split; [done|]. split; [|done]. cbn [fst snd lw_prefix snk_out lw_buf] in *. split_and!; [done|done|].
    exists (mkPiece line false :: ps). cbn [fmap list_fmap concat]. split_and!; [| |by constructor].
    + rewrite Ho. unfold shown. cbn [pc_bytes]. by rewrite <-!app_assoc.
    + cbn [snd]. rewrite app_nil_r in *. rewrite EB, HB. unfold source at 1. cbn. by rewrite <-!app_assoc.
  - exists (w, lw). split; [done|]. split; [|done]. split_and!; [done|done|]. exists []. cbn. by rewrite !app_nil_r.
Qed.

Lemma emit_rest_run w lw : snk_room w = None → 10 ∉ lw_buf lw →
  ∃ st', emit_rest (w, lw) = (Ok (), st') ∧ emitted (w, lw) st' [] ∧ lw_buf st'.2 = [].
Proof.
  intros Hr HN. unfold emit_rest, mbind, M_bind, gets, set_buf, modify. cbn [fst snd]. rewrite emitLocked_run by done.
  eexists. split; [done|]. split; [|done]. split_and!; [done|done|]. exists [mkPiece (lw_buf lw) true]. cbn.
  rewrite !app_nil_r. split_and!; [done|done|by repeat constructor].
Qed.

Lemma emitted_then st st1 st2 input : emitted st st1 input → emitted st1 st2 [] → emitted st st2 input.
Proof.
  intros (_ & P1 & ps1 & O1 & B1 & F1) (R2 & P2 & ps2 & O2 & B2 & F2). rewrite app_nil_r in B2. rewrite P1 in *.
  split_and!; [done|done|]. exists (ps1 ++ ps2). rewrite !fmap_app, !concat_app. split_and!; [|by rewrite B1, B2, app_assoc|by apply Forall_app].
  by rewrite O2, O1, app_assoc.
Qed.

Definition call_input (c : call) : list Z := match c with CallWrite p => p | CallFlush => [] end.

Lemma one_call_run c st : snk_room st.1 = None → 10 ∉ lw_buf st.2 → zlen (lw_buf st.2) ≤ shardPartialLineLimit →
  ∃ st', one_call c st = (Ok (), st') ∧ emitted st st' (call_input c) ∧ 10 ∉ lw_buf st'.2 ∧
    zlen (lw_buf st'.2) ≤ shardPartialLineLimit ∧ (c = CallFlush → lw_buf st'.2 = []).
Proof.
  destruct st as [w lw]. cbn [fst snd]. intros Hr HN HL. destruct c as [p|]; cbn [one_call call_input].
  - unfold lineWriter_Write, mbind, M_bind, gets, set_buf, modify. cbn [fst snd].
    destruct (emit_lines_run (S (length (lw_buf lw ++ p))) (w, mkLineWriter (lw_prefix lw) (lw_buf lw ++ p)))
      as ([w1 lw1] & -> & (Hr1 & P1 & ps & O1 & B1 & F1) & N1); [done|cbn; lia|]. cbn [fst snd lw_prefix lw_buf] in *.
    assert (emitted (w, lw) (w1, lw1) p) as HE.
    { split_and!; [done|done|]. exists ps. rewrite app_nil_r in B1. by split_and!. }
    destruct (Z.ltb_spec shardPartialLineLimit (zlen (lw_buf lw1))).
    + destruct (emit_rest_run w1 lw1 Hr1 N1) as (st2 & -> & HE2 & HB). exists st2. rewrite HB.
      split_and!; [done|by eapply emitted_then|set_solver|done|done].
    + exists (w1, lw1). by split_and!.
  - unfold lineWriter_Flush, mbind, M_bind, gets. cbn [snd]. case_bool_decide as HB.
    + exists (w, lw). split_and!; try done. split_and!; [done|done|]. exists []. cbn. by rewrite !app_nil_r.
    + destruct (emit_rest_run w lw Hr HN) as (st2 & -> & HE2 & HB'). exists st2. rewrite HB'. split_and!; try done. set_solver.
Qed.

Lemma calls_app cs1 cs2 : ∀ st, calls (cs1 ++ cs2) st = calls cs2 (calls cs1 st).
Proof.
  induction cs1 as [|[k c] cs1 IH]; intros st; [done|]. cbn [app calls]. destruct (st.2 !! k); [|apply IH].
  destruct (one_call c _) as [? [? ?]]. apply IH.
Qed.

(** What one writer is given, and its lines among all. *)
Definition given (k : nat) (cs : list (nat * call)) : list Z := concat ((λ c, call_input c.2) <$> filter (λ c, c.1 = k) cs).
Definition lines_of (k : nat) (lines : list (nat * piece)) : list piece := (filter (λ x, x.1 = k) lines).*2.

Lemma given_snoc k cs j c : given k (cs ++ [(j, c)]) = given k cs ++ if bool_decide (j = k) then call_input c else [].
Proof.
  unfold given. rewrite filter_app, fmap_app, concat_app. f_equal. cbn [filter list_filter]. case_bool_decide; case_decide; try done.
  cbn. by rewrite app_nil_r.
Qed.
Lemma lines_of_tagged k j lines (ps : list piece) : lines_of k (lines ++ (pair j <$> ps)) = lines_of k lines ++ if bool_decide (j = k) then ps else [].
Proof.
  unfold lines_of. rewrite filter_app, fmap_app. f_equal. case_bool_decide as E; induction ps as [|x ps IH]; try done.
  - rewrite fmap_cons, filter_cons_True by done. cbn [fmap list_fmap snd]. by rewrite <-IH at 2.
  - by rewrite fmap_cons, filter_cons_False.
Qed.

(** Where a stream shared by several writers stands after some calls: its lines
    so far, and what each writer keeps. *)
Definition stream_lines (prefixes : list (list Z)) (lines : list (nat * piece)) : list Z :=
  concat ((λ x, shown (default [] (prefixes !! x.1)) x.2) <$> lines).
Definition writer_at (cs : list (nat * call)) (lines : list (nat * piece)) (k : nat) (p : list Z) (lw : prefixLineWriter) : Prop :=
  lw_prefix lw = p ∧ 10 ∉ lw_buf lw ∧ zlen (lw_buf lw) ≤ shardPartialLineLimit ∧
  given k cs = concat (source <$> lines_of k lines) ++ lw_buf lw.
Definition stream_at (prefixes : list (list Z)) (before : list Z) (cs : list (nat * call)) (st : sink * list prefixLineWriter) : Prop :=
  snk_room st.1 = None ∧ ∃ lines, snk_out st.1 = before ++ stream_lines prefixes lines ∧ Forall (λ x, 10 ∉ pc_bytes x.2) lines ∧
    ∀ k, option_Forall2 (writer_at cs lines k) (prefixes !! k) (st.2 !! k).

Lemma stream_start prefixes w : snk_room w = None → stream_at prefixes (snk_out w) [] (w, (λ p, mkLineWriter p []) <$> prefixes).
Proof.
  intros Hr. split; [done|]. exists []. cbn. rewrite app_nil_r. split_and!; [done|constructor|]. intros k. rewrite list_lookup_fmap.
  destruct (prefixes !! k); constructor. split_and!; [done|set_solver|done|done].
Qed.

Lemma stream_call prefixes before cs st k c : stream_at prefixes before cs st →
  stream_at prefixes before (cs ++ [(k, c)]) (calls [(k, c)] st).
Proof.
  intros (HR & lines & HO & HN & HL). cbn [calls]. pose proof (HL k) as Hk. destruct (prefixes !! k) as [p|] eqn:Ep; inversion Hk as [? lw HW Ex Ew|Ex Ew].
  2:{ split; [done|]. exists lines. split_and!; [done|done|]. intros j. destruct (decide (k = j)) as [<-|Hne]; [rewrite Ep, <-Ew; constructor|].
      destruct (HL j) as [p lw HW|]; constructor. destruct HW as (? & ? & ? & E). split_and!; try done.
      rewrite given_snoc, bool_decide_eq_false_2 by done. by rewrite app_nil_r. }
  destruct HW as (<- & H10 & Hlim & HG). destruct (one_call_run c (st.1, lw)) as ([w1 lw1] & -> & (R1 & P1 & ps & O1 & B1 & F1) & N1 & L1 & _); [done..|].
  cbn [fst snd] in *. split; [done|]. exists (lines ++ (pair k <$> ps)). split_and!.
  - cbn [fst]. rewrite O1, HO. unfold stream_lines. rewrite fmap_app, concat_app, <-app_assoc. do 3 f_equal.
    rewrite <-list_fmap_compose. apply list_fmap_ext. intros i y _. cbn. by rewrite Ep.
  - apply Forall_app. split; [done|]. by apply Forall_fmap.
  - cbn [snd]. intros j. destruct (decide (k = j)) as [<-|Hne].
    + rewrite Ep, list_lookup_insert_eq by (eapply lookup_lt_Some; by symmetry). constructor. split_and!; try done.
      rewrite given_snoc, lines_of_tagged, !bool_decide_eq_true_2 by done. rewrite HG, fmap_app, concat_app, <-!app_assoc, B1. done.
    + rewrite list_lookup_insert_ne by done. destruct (HL j) as [p lw' HW|]; constructor. destruct HW as (? & ? & ? & E). split_and!; try done.
      rewrite given_snoc, lines_of_tagged, !bool_decide_eq_false_2 by done. by rewrite !app_nil_r.
Qed.

(** The lines of all shards come out whole.  Any number of writers share a
    stream, and their calls come in any order: the stream holds whole lines, each
    after the prefix of its own shard; the lines of a shard, in order, hold
    exactly the bytes that it was given, apart from the at most 64 KiB that it
    still keeps, with line ends added only where a line was cut. *)
Theorem shard_output_intact prefixes cs w : snk_room w = None →
  stream_at prefixes (snk_out w) cs (calls cs (w, (λ p, mkLineWriter p []) <$> prefixes)).
Proof.
  intros Hr. induction cs as [|[k c] cs IH] using rev_ind; [by apply stream_start|]. rewrite calls_app. by apply stream_call.
Qed.

Lemma shard_output_witness : snk_room (Sink [] None None) = None ∧
  stream_at [to_bytes "[1/2] "; to_bytes "[2/2] "] [] [(0%nat, CallWrite [97]); (1%nat, CallWrite [98; 10]); (0%nat, CallFlush)]
    (Sink (to_bytes "[2/2] " ++ [98; 10] ++ to_bytes "[1/2] " ++ [97; 10]) None None, [mkLineWriter (to_bytes "[1/2] ") []; mkLineWriter (to_bytes "[2/2] ") []]).
Proof.
  split; [reflexivity|].
  exact (shard_output_intact [to_bytes "[1/2] "; to_bytes "[2/2] "] [(0%nat, CallWrite [97]); (1%nat, CallWrite [98; 10]); (0%nat, CallFlush)]
    (Sink [] None None) eq_refl).
Defined.
