(* ===== verification/GoGlob.v ===== *)
(** * Shell patterns ([path/filepath] on POSIX)

    [filepath.Match] as the library computes it: a pattern is cut into chunks at
    its stars, and a chunk is looked for at the first place where it fits.  Bad
    patterns match nothing; no caller in this program tells them apart.  The
    language of patterns without classes and escapes is the predicate [globs], to
    which the matcher is sound. *)

From Stdlib Require Import ZArith Lia.
From stdpp Require Import gmap strings prelude.
From S2P Require Import Prelude GoText GoPath.
Local Open Scope Z_scope.

(** ** The matcher *)

(** [utf8.DecodeRuneInString]: the first rune and what follows it. *)
Definition rune_at (s : list Z) : Z * list Z :=
  match runes (take 4 s) with
  | (r, seg) :: _ => (r, drop (length seg) s)
  | [] => (RuneError, [])
  end.

(** [getEsc]: one character of a class, possibly escaped. *)
Definition getEsc (chunk : list Z) : option (Z * list Z) :=
  match chunk with
  | [] => None
  | b :: rest =>
      if (b =? 45) || (b =? 93) then None
      else
        let c := if b =? 92 then rest else chunk in
        if bool_decide (c = []) then None
        else
          let '(r, after) := rune_at c in
          if ((r =? RuneError) && (length c - length after =? 1)%nat) || bool_decide (after = []) then None
          else Some (r, after)
  end.

(** The ranges of a class, up to its end: whether [r] is in one of them. *)
Fixpoint class_ranges (fuel : nat) (chunk : list Z) (r : Z) (first found : bool) : option (bool * list Z) :=
  match fuel with
  | O => None
  | S fuel =>
      match chunk with
      | 93 :: rest => if first then None else Some (found, rest)
      | _ =>
          '(lo, after) ← getEsc chunk;
          '(hi, after) ← (match after with 45 :: after => getEsc after | _ => Some (lo, after) end);
          class_ranges fuel after r false (found || ((lo <=? r) && (r <=? hi)))
      end
  end.

(** [matchChunk]: [None] for a bad pattern, else what is left of [s] if it
    matches.  After a failure the rest of the chunk is only checked. *)
Fixpoint matchChunk (fuel : nat) (failed : bool) (chunk s : list Z) : option (option (list Z)) :=
  match chunk, fuel with
  | [], _ => Some (if failed then None else Some s)
  | _, O => None
  | b :: chunk, S fuel =>
      let failed := failed || bool_decide (s = []) in
      if b =? 91 then
        let '(r, s) := if failed then (0, s) else rune_at s in
        let '(negated, chunk) := match chunk with 94 :: chunk => (true, chunk) | _ => (false, chunk) end in
        '(found, chunk) ← class_ranges (S (length chunk)) chunk r true false;
        matchChunk fuel (failed || eqb found negated) chunk s
      else if b =? 63 then
        if failed then matchChunk fuel true chunk s
        else matchChunk fuel (bool_decide (head s = Some 47)) chunk (rune_at s).2
      else
        '(b, chunk) ← (if b =? 92 then match chunk with [] => None | c :: chunk => Some (c, chunk) end else Some (b, chunk));
        if failed then matchChunk fuel true chunk s
        else matchChunk fuel (negb (bool_decide (head s = Some b))) chunk (tail s)
  end.
Definition match_chunk (chunk s : list Z) : option (option (list Z)) := matchChunk (length chunk) false chunk s.

(** [scanChunk]: where the next star outside a class begins. *)
Fixpoint chunk_length (inrange escaped : bool) (p : list Z) : nat :=
  match p with
  | [] => 0
  | b :: p =>
      if escaped then S (chunk_length inrange false p)
      else if b =? 92 then S (chunk_length inrange true p)
      else if b =? 91 then S (chunk_length true false p)
      else if b =? 93 then S (chunk_length false false p)
      else if (b =? 42) && negb inrange then 0
      else S (chunk_length inrange false p)
  end.
Definition scanChunk (p : list Z) : bool * list Z * list Z :=
  let body := drop_while (λ b, b =? 42) p in
  let n := chunk_length false false body in
  (bool_decide (head p = Some 42), take n body, drop n body).

(** The search for a chunk after a star: the first place with [i + 1] bytes
    skipped, none of them a slash, where it fits and, if it is the last one,
    uses up the name. *)
Fixpoint seek (chunk : list Z) (last : bool) (name : list Z) : option (list Z) :=
  match name with
  | [] => None
  | b :: name =>
      if b =? 47 then None
      else
        match match_chunk chunk name with
        | None => None
        | Some (Some t) => if last && negb (bool_decide (t = [])) then seek chunk last name else Some t
        | Some None => seek chunk last name
        end
  end.

(** [filepath.Match]; a chunk is not empty unless the pattern ends with stars. *)
Fixpoint match_loop (fuel : nat) (pattern name : list Z) : bool :=
  match pattern, fuel with
  | [], _ => bool_decide (name = [])
  | _, O => false
  | _, S fuel =>
      let '(star, chunk, rest) := scanChunk pattern in
      if star && bool_decide (chunk = []) then negb (bool_decide (47 ∈ name))
      else
        let sought _ := star && match seek chunk (bool_decide (rest = [])) name with Some t => match_loop fuel rest t | None => false end in
        match match_chunk chunk name with
        | None => false
        | Some (Some t) => if bool_decide (t = []) || negb (bool_decide (rest = [])) then match_loop fuel rest t else sought ()
        | Some None => sought ()
        end
  end.
Definition Match (pattern name : string) : bool := match_loop (length (to_bytes pattern)) (to_bytes pattern) (to_bytes name).

(** [filepath.Base] *)
Definition Base (s : string) : string :=
  if bool_decide (s = ""%string) then "."%string
  else
    let x := default ""%string (last (Split (of_bytes (reverse (drop_while (λ b, b =? 47) (reverse (to_bytes s))))))) in
    if bool_decide (x = ""%string) then "/"%string else x.

Example match_examples : (Match "*.go" "shard.go", Match "a*b?c" "axxbyc", Match "[a-c]x" "bx", Match "*" "a/b", Match "a\*" "a*", Match "[^a]" "a") =
  (true, true, true, false, true, false).
Proof. vm_compute. reflexivity. Qed.

(** ** The language of a pattern *)

Inductive globs : list Z → list Z → Prop :=
  | globs_nil : globs [] []
  | globs_star p seg n : 47 ∉ seg → globs p n → globs (42 :: p) (seg ++ n)
  | globs_any p seg n : head seg ≠ Some 47 → globs p n → globs (63 :: p) (seg ++ n)
  | globs_byte b p n : globs p n → globs (b :: p) (b :: n).

(** No class and no escape. *)
Definition simple (p : list Z) : Prop := 91 ∉ p ∧ 92 ∉ p.

Lemma simple_cons b p : simple (b :: p) ↔ b ≠ 91 ∧ b ≠ 92 ∧ simple p.
Proof. unfold simple. rewrite !not_elem_of_cons. naive_solver. Qed.
Lemma simple_app p q : simple (p ++ q) ↔ simple p ∧ simple q.
Proof. unfold simple. rewrite !elem_of_app. naive_solver. Qed.

Lemma rune_at_split s : ∃ seg, s = seg ++ (rune_at s).2 ∧ (head s ≠ Some 47 → head seg ≠ Some 47).
Proof.
  unfold rune_at. destruct (runes (take 4 s)) as [|[r seg] l]; cbn [snd].
  - exists s. by rewrite app_nil_r.
  - exists (take (length seg) s). rewrite take_drop. split; [done|]. destruct s, seg; cbn; try done.
Qed.

Lemma chunk_failed fuel : ∀ chunk s t, simple chunk → matchChunk fuel true chunk s ≠ Some (Some t).
Proof.
  induction fuel as [|fuel IH]; intros [|b chunk] s t Hs; cbn [matchChunk]; try done.
  apply simple_cons in Hs as (H1 & H2 & Hs). rewrite !(proj2 (Z.eqb_neq b 91)), !(proj2 (Z.eqb_neq b 92)) by done. cbn [orb mbind option_bind].
  destruct (b =? 63); by apply IH.
Qed.

Lemma chunk_sound fuel : ∀ chunk s t, simple chunk → matchChunk fuel false chunk s = Some (Some t) →
  ∃ seg, s = seg ++ t ∧ ∀ p n, globs p n → globs (chunk ++ p) (seg ++ n).
Proof.
  induction fuel as [|fuel IH]; intros [|b chunk] s t Hs HM; cbn [matchChunk] in HM; try done;
    try (injection HM as <-; by exists []).
  apply simple_cons in Hs as (H1 & H2 & Hs). rewrite !(proj2 (Z.eqb_neq b 91)), !(proj2 (Z.eqb_neq b 92)) in HM by done.
  cbn [orb mbind option_bind] in HM. destruct s as [|x s]; cbn [head tail] in HM.
  { rewrite bool_decide_eq_true_2 in HM by done. destruct (b =? 63); by apply chunk_failed in HM. }
  rewrite bool_decide_eq_false_2 in HM by done. destruct (Z.eqb_spec b 63) as [->|H63].
  - destruct (bool_decide (Some x = Some 47)) eqn:Ex; [by apply chunk_failed in HM|]. apply bool_decide_eq_false in Ex.
    destruct (rune_at_split (x :: s)) as (seg0 & E & Hh). apply IH in HM as (seg & E' & HG); [|done].
    exists (seg0 ++ seg). rewrite <-app_assoc, <-E'. split; [done|]. intros p n Hp. rewrite <-app_assoc. apply globs_any; [by apply Hh|by apply HG].
  - destruct (bool_decide (Some x = Some b)) eqn:Ex; cbn [negb] in HM; [|by apply chunk_failed in HM].
    apply bool_decide_eq_true in Ex. injection Ex as ->. apply IH in HM as (seg & -> & HG); [|done].
    exists (b :: seg). split; [done|]. intros p n Hp. apply globs_byte. by apply HG.
Qed.

Lemma seek_sound chunk last : simple chunk → ∀ name t, seek chunk last name = Some t →
  ∃ skip seg, name = skip ++ seg ++ t ∧ 47 ∉ skip ∧ ∀ p n, globs p n → globs (chunk ++ p) (seg ++ n).
Proof.
  intros Hs. induction name as [|b name IH]; intros t HS; cbn [seek] in HS; [done|]. destruct (Z.eqb_spec b 47) as [|Hb]; [done|].
  assert (seek chunk last name = Some t → ∃ skip seg, b :: name = skip ++ seg ++ t ∧ 47 ∉ skip ∧ ∀ p n, globs p n → globs (chunk ++ p) (seg ++ n)) as HR.
  { intros (skip & seg & -> & Hk & HG)%IH. exists (b :: skip), seg. split_and!; [done| |done]. rewrite not_elem_of_cons. by split. }
  destruct (match_chunk chunk name) as [[t'|]|] eqn:EM; [|by apply HR|done]. destruct (last && _); [by apply HR|]. injection HS as ->.
  apply chunk_sound in EM as (seg & -> & HG); [|done]. exists [b], seg. split_and!; [done|set_solver|done].
Qed.

Lemma chunk_length_spec p : simple p → ∃ chunk rest, p = chunk ++ rest ∧ chunk_length false false p = length chunk ∧ 42 ∉ chunk.
Proof.
  induction p as [|b p IH]; intros Hs; [exists [], []; split_and!; [done|done|set_solver]|]. apply simple_cons in Hs as (H1 & H2 & Hs).
  cbn [chunk_length]. rewrite !(proj2 (Z.eqb_neq b 91)), !(proj2 (Z.eqb_neq b 92)) by done.
  destruct (IH Hs) as (chunk & rest & -> & HL & HN). destruct (Z.eqb_spec b 42) as [->|H42]; cbn [andb negb].
  - exists [], (42 :: chunk ++ rest). split_and!; [done|done|set_solver].
  - exists (b :: chunk), rest. cbn. rewrite HL. split_and!; [done| |set_solver]. by destruct (b =? 93).
Qed.

Lemma scan_spec p star chunk rest : simple p → scanChunk p = (star, chunk, rest) →
  ∃ stars, p = replicate stars 42 ++ chunk ++ rest ∧ (star = false → stars = 0%nat) ∧ (star = true → stars ≠ 0%nat) ∧
    (chunk = [] → rest = []).
Proof.
  unfold scanChunk. intros Hs [= <- <- <-]. set (body := drop_while _ p).
  assert (∃ stars, p = replicate stars 42 ++ body ∧ (head p = Some 42 ↔ stars ≠ 0%nat)) as (stars & EP & HS).
  { subst body. clear Hs. induction p as [|b p [k [E _]]]; [by exists 0%nat|]. cbn [drop_while]. destruct (Z.eqb_spec b 42) as [->|Hb].
    - exists (S k). cbn. split; [by f_equal|]. split; [done|by intros _].
    - exists 0%nat. cbn. split; [done|]. by split; [intros [= ?]|]. }
  assert (simple body) as Hb by (rewrite EP, simple_app in Hs; apply Hs).
  destruct (chunk_length_spec body Hb) as (chunk & rest & EB & HL & HN). rewrite HL, EB, take_app_length, drop_app_length.
  exists stars. rewrite <-EB. split_and!; [done| | |].
  - intros H. apply bool_decide_eq_false in H. destruct stars; [done|]. exfalso. by apply H, HS.
  - intros H. apply bool_decide_eq_true in H. by apply HS.
  - intros ->. cbn in EB, HL. subst rest. destruct body as [|b body'] eqn:Ebd; [done|]. exfalso.
    pose proof (drop_while_head (λ b, b =? 42) p b) as Hh. subst body. rewrite Ebd in Hh. specialize (Hh eq_refl). cbn beta in Hh.
    cbn [chunk_length] in HL. rewrite Hh in HL. by repeat case_match.
Qed.

Lemma globs_stars k p seg n : k ≠ 0%nat → 47 ∉ seg → globs p n → globs (replicate k 42 ++ p) (seg ++ n).
Proof.
  intros Hk Hn HG. destruct k as [|k]; [done|]. cbn. apply globs_star; [done|]. clear Hk. induction k as [|k IH]; [done|].
  cbn. apply (globs_star _ []); [set_solver|done].
Qed.

Lemma match_loop_sound fuel : ∀ p n, simple p → match_loop fuel p n = true → globs p n.
Proof.
  induction fuel as [|fuel IH]; intros p n Hs HM.
  { destruct p; cbn in HM; [|done]. apply bool_decide_eq_true in HM as ->. constructor. }
  destruct p as [|b p']; [cbn in HM; apply bool_decide_eq_true in HM as ->; constructor|]. set (p := b :: p') in *.
  assert (∃ star chunk rest, scanChunk p = (star, chunk, rest)) as (star & chunk & rest & ES) by (destruct (scanChunk p) as [[] ?]; eauto).
  destruct (scan_spec _ _ _ _ Hs ES) as (stars & EP & H0 & H1 & HE).
  assert (simple chunk ∧ simple rest) as [Hc Hr] by (rewrite EP, !simple_app in Hs; naive_solver).
  assert (star && match seek chunk (bool_decide (rest = [])) n with Some t => match_loop fuel rest t | None => false end = true → globs p n) as HK.
  { intros [-> HM']%andb_true_iff. destruct (seek _ _ n) as [t|] eqn:EK; [|done]. apply seek_sound in EK as (skip & seg & -> & Hn & HG); [|done].
    rewrite EP. apply globs_stars; [by apply H1|done|]. apply HG. by apply IH. }
  unfold p in HM. cbn [match_loop] in HM. fold p in HM. rewrite ES in HM. destruct (star && bool_decide (chunk = [])) eqn:ET.
  - apply andb_true_iff in ET as [-> Hnil%bool_decide_eq_true]. apply negb_true_iff, bool_decide_eq_false in HM.
    rewrite EP, Hnil, (HE Hnil). rewrite <-(app_nil_r n). apply globs_stars; [by apply H1|done|constructor].
  - destruct (match_chunk chunk n) as [[t|]|] eqn:EM; [|by apply HK|done]. destruct (_ || _); [|by apply HK].
    apply chunk_sound in EM as (seg & -> & HG); [|done]. rewrite EP. destruct star.
    + apply (globs_stars _ _ []); [by apply H1|set_solver|]. by apply HG, IH.
    + rewrite H0 by done. by apply HG, IH.
Qed.

Lemma Match_sound p n : simple (to_bytes p) → Match p n = true → globs (to_bytes p) (to_bytes n).
Proof. apply match_loop_sound. Qed.

(** A literal slash is matched only by a slash. *)
Lemma globs_slash p n : globs p n → 47 ∈ p → 47 ∈ n.
Proof. induction 1 as [|p seg n _ HG IH|p seg n _ HG IH|b p n HG IH]; set_solver. Qed.

(** What comes before the first star or question mark is matched by itself. *)
Lemma globs_literal lit : 42 ∉ lit → 63 ∉ lit → ∀ p n, globs (lit ++ p) n → ∃ n', n = lit ++ n' ∧ globs p n'.
Proof.
  induction lit as [|b lit IH]; intros H1 H2 p n HG; [by exists n|]. apply not_elem_of_cons in H1 as [? H1], H2 as [? H2].
  inversion HG as [| | |? ? n' HG']; subst; [done|done|]. apply IH in HG' as (n'' & -> & HG''); [|done|done]. by exists n''.
Qed.
