(* ===== verification/SyncRules.v ===== *)
(** * What is synchronised ([cli/repo.go], [cli/watch.go])

    A working tree is copied to a lease by the paths that its rules select.
    Rules are an ordered list of patterns, later ones override earlier ones, a
    leading [!] re-includes; some paths are never copied.  The same rules decide
    which directories a watcher descends into. *)

From Stdlib Require Import ZArith Lia.
From stdpp Require Import gmap strings prelude.
From S2P Require Import Prelude GoText GoPath GoGlob.
Local Open Scope string_scope.
Local Open Scope crab_scope.

(** ** Rules *)

Inductive syncExcludeOrigin := syncExcludeBuiltIn | syncExcludeConfigured | syncExcludeProtected.
#[export] Instance syncExcludeOrigin_eq : EqDecision syncExcludeOrigin.
Proof. solve_decision. Defined.
Record syncExcludeRule := mkRule { rule_pattern : string; rule_origin : syncExcludeOrigin }.
Record SyncExcludeRules := mkRules { sr_rules : list syncExcludeRule; sr_managedSubtree : string }.

Definition trim_slashes (s : string) : string := Trim s [47%Z].
Definition contains_slash (s : string) : bool := ContainsAny s [47%Z].
(** [s == d || strings.HasPrefix(s, d+"/")] *)
Definition at_or_below (s d : string) : bool := (s =s d) || HasPrefix s (d +:+ "/").

Definition protectedSyncExcludes : list string :=
  [".crabbox/env"; ".crabbox/scripts"; ".crabbox/logs"; ".crabbox/captures"; ".crabbox/runs"].
Definition defaultExcludes : list string :=
  [".git"; ".jj"; "._*"; "node_modules"; ".ignored"; ".turbo"; ".next"; ".vite"; ".parcel-cache"; ".rollup.cache"; "dist";
   "dist-runtime"; "coverage"; "playwright-report"; "test-results"; ".cache"; ".tmp"; ".local"; ".swiftpm"; ".build"; "apps/*/.build";
   ".pnpm-store"; ".npm"; ".yarn/cache"; ".venv"; "__pycache__"; ".pytest_cache"; ".mypy_cache"; ".ruff_cache"; ".gradle"; "target"] ++
  protectedSyncExcludes.

(** [SyncExcludeRules.append] *)
Definition append_rules (r : SyncExcludeRules) (patterns : list string) (origin : syncExcludeOrigin) : SyncExcludeRules :=
  mkRules (sr_rules r ++ ((λ p, mkRule p origin) <$> filter (λ p, p ≠ "") (TrimSpace <$> patterns))) (sr_managedSubtree r).
Definition newSyncExcludeRules (patterns : list string) (origin : syncExcludeOrigin) : SyncExcludeRules :=
  append_rules (mkRules [] "") patterns origin.
Definition rule_patterns (r : SyncExcludeRules) : list string := rule_pattern <$> sr_rules r.

Definition isProtectedSyncExclude (pattern : string) : bool :=
  bool_decide (ToLower (trim_slashes pattern) ∈ protectedSyncExcludes).

Definition configuredExcludes (excludes : list string) : SyncExcludeRules :=
  let rules := newSyncExcludeRules defaultExcludes syncExcludeBuiltIn in
  append_rules
    (mkRules ((λ r, if isProtectedSyncExclude (rule_pattern r) then mkRule (rule_pattern r) syncExcludeProtected else r) <$> sr_rules rules)
       (sr_managedSubtree rules))
    excludes syncExcludeConfigured.

(** [strings.Split(s, "\n")] *)
Fixpoint split_lines (bs : list Z) : list (list Z) :=
  match bs with
  | [] => [[]]
  | b :: bs =>
      if (b =? 10)%Z then [] :: split_lines bs
      else match split_lines bs with x :: xs => (b :: x) :: xs | [] => [[b]] end
  end.

(** [readCrabboxIgnore]: what reading the file gives, if there is one. *)
Definition readCrabboxIgnore (root : string) (file : res (option (list Z))) : res (list string) :=
  if root =s "" then Ok []
  else
    match file with
    | Err _ => Err (Exit 2 "read .crabboxignore: %v")
    | Ok None => Ok []
    | Ok (Some data) =>
        Ok (filter (λ line, line ≠ "" ∧ HasPrefix line "#" = false) ((λ l, TrimSpace (of_bytes l)) <$> split_lines data))
    end.

(** [syncExcludes]: [managed] is the subtree of local state below the root. *)
Definition syncExcludes (root : string) (excludes : list string) (managed : res string) (file : res (option (list Z))) : res SyncExcludeRules :=
  managed ← managed;
  ignore ← readCrabboxIgnore root file;
  let rules := mkRules (sr_rules (configuredExcludes excludes)) managed in
  Ok (append_rules (append_rules rules ignore syncExcludeConfigured) protectedSyncExcludes syncExcludeProtected).

(** ** Decisions *)

(** [excludeRule]: the pattern of a rule, and whether it re-includes. *)
Definition excludeRule (rule : string) : string * bool :=
  let rule := TrimSpace rule in
  if HasPrefix rule "\!" then ((CutPrefix rule "\").1, false)
  else if HasPrefix rule "!" then (TrimSpace (CutPrefix rule "!").1, true)
  else (rule, false).

Definition isAmbiguousBuiltInExclude (pattern : string) : bool :=
  let '(pattern, negated) := excludeRule pattern in
  negb negated &&
  bool_decide (trim_slashes pattern ∈ ["dist"; "dist-runtime"; "coverage"; "playwright-report"; "test-results"; ".build"; "apps/*/.build"; "target"]).

Definition protectedSyncExcludeMatches (rel exclude : string) : bool :=
  let rel := ToLower (trim_slashes rel) in
  let exclude := ToLower (trim_slashes exclude) in
  bool_decide (exclude ∈ protectedSyncExcludes) && at_or_below rel exclude.

(** The directories above a path, root first. *)
Definition parents (rel : string) : list string :=
  let parts := Split rel in (λ i, join_slash (take i parts)) <$> seq 1 (length parts - 1).

Definition excludeMatches (rel exclude : string) : bool :=
  let exclude := trim_slashes (TrimSpace exclude) in
  if exclude =s "" then false
  else
    at_or_below rel exclude ||
    (negb (contains_slash exclude) && existsb (λ part, (part =s exclude) || Match exclude part) (Split rel)) ||
    Match exclude (Base rel) || Match exclude rel || existsb (Match exclude) (parents rel).

Definition protectsManagedState (rules : SyncExcludeRules) (rel : string) : bool :=
  (sr_managedSubtree rules <>s "") && at_or_below rel (sr_managedSubtree rules).

(** One rule of [pathExcludeDecision]. *)
Definition rule_matches (rel : string) (rule : syncExcludeRule) : bool :=
  let exclude := (excludeRule (rule_pattern rule)).1 in
  excludeMatches rel exclude || protectedSyncExcludeMatches rel exclude.
Definition rule_spared (trackedRegular : bool) (rule : syncExcludeRule) : bool :=
  trackedRegular && bool_decide (rule_origin rule = syncExcludeBuiltIn) && negb (excludeRule (rule_pattern rule)).2 &&
  isAmbiguousBuiltInExclude (rule_pattern rule).
Definition decide_rule (rel : string) (trackedRegular : bool) (d : bool * string) (rule : syncExcludeRule) : bool * string :=
  if rule_matches rel rule then
    if rule_spared trackedRegular rule then (d.1, (excludeRule (rule_pattern rule)).1)
    else (negb (excludeRule (rule_pattern rule)).2, "")
  else d.

Definition pathExcludeDecision (rel : string) (rules : SyncExcludeRules) (trackedRegular : bool) : bool * string :=
  if protectsManagedState rules rel then (true, "")
  else
    let d := fold_left (decide_rule rel trackedRegular) (sr_rules rules) (false, "") in
    if d.1 then (true, "") else d.
Definition pathExcludedByRules (rel : string) (rules : SyncExcludeRules) (trackedRegular : bool) : bool :=
  (pathExcludeDecision rel rules trackedRegular).1.
Definition pathExcluded (rel : string) (excludes : list string) : bool :=
  pathExcludedByRules rel (newSyncExcludeRules excludes syncExcludeConfigured) false.

Definition pathIncluded (rel : string) (includes : list string) : bool :=
  bool_decide (includes = []) ||
  let rel := trim_slashes rel in
  existsb (λ include,
    let include := trim_slashes (TrimSpace include) in
    (include <>s "") && (at_or_below rel include || Match include rel)) includes.

(** [strings.IndexAny(pattern, "*?[")] and what comes before. *)
Definition is_meta (b : Z) : bool := (b =? 42)%Z || (b =? 63)%Z || (b =? 91)%Z.
Fixpoint literal_prefix (p : list Z) : list Z :=
  match p with
  | [] => []
  | b :: p => if is_meta b then [] else b :: literal_prefix p
  end.

(** Whether one rule may re-include something below a directory. *)
Definition may_reinclude (rel rule : string) : bool :=
  let '(pattern, negated) := excludeRule rule in
  let pattern := trim_slashes pattern in
  negated && (pattern <>s "") &&
  (negb (contains_slash pattern) ||
   if existsb is_meta (to_bytes pattern) then
     let prefix := TrimSuffix (of_bytes (literal_prefix (to_bytes pattern))) "/" in
     (prefix =s "") || at_or_below prefix rel || HasPrefix rel prefix
   else at_or_below pattern rel || HasPrefix rel (pattern +:+ "/")).
Definition excludedDirMayContainReinclude (rel : string) (excludes : list string) : bool :=
  existsb (may_reinclude (trim_slashes rel)) excludes.

Definition safeRepoRel (rel : string) : bool :=
  negb (rel =s "") && negb (HasPrefix rel "/") &&
  forallb (λ part, negb ((part =s "") || (part =s ".") || (part =s ".."))) (Split rel).

(** ** The watcher ([watch.go]) *)

Definition watchRulesProtectTrackedPath (rel : string) (rules : SyncExcludeRules) : bool :=
  let '(excluded, protectedPattern) := pathExcludeDecision rel rules true in
  negb excluded && (protectedPattern <>s "").

Record watchPathScope := mkScope {
  ws_rules : SyncExcludeRules; ws_trackedRegular : gset string; ws_protectedTrackedAncestors : gset string }.

(** The loop over [filepath.Dir] up to ["."]; a path has fewer directories above
    it than bytes. *)
Fixpoint dirs_above (fuel : nat) (rel : string) : list string :=
  match fuel with
  | O => []
  | S fuel => let parent := Dir rel in if parent =s "." then [] else parent :: dirs_above fuel parent
  end.
Definition newWatchPathScope (rules : SyncExcludeRules) (trackedRegular : gset string) : watchPathScope :=
  mkScope rules trackedRegular
    (list_to_set (concat ((λ rel, dirs_above (String.length rel) rel) <$> filter (λ rel, watchRulesProtectTrackedPath rel rules = true) (base.elements trackedRegular)))).
Definition pathEligible (s : watchPathScope) (rel : string) : bool :=
  negb (pathExcludedByRules rel (ws_rules s) (bool_decide (rel ∈ ws_trackedRegular s))).
Definition traverseExcludedDir (s : watchPathScope) (rel : string) : bool :=
  negb (protectsManagedState (ws_rules s) rel) &&
  (excludedDirMayContainReinclude rel (rule_patterns (ws_rules s)) || bool_decide (rel ∈ ws_protectedTrackedAncestors s)).
Definition traverseDir (s : watchPathScope) (rel : string) : bool :=
  negb (pathExcludedByRules rel (ws_rules s) false) || traverseExcludedDir s rel.

(** ** Paths below a directory *)

Lemma HasPrefix_iff s p : HasPrefix s p = true ↔ ∃ t, s = p +:+ t.
Proof. split; [apply prefix_split|]. intros [t ->]. apply prefix_app. Qed.

Lemma at_or_below_iff s d : at_or_below s d = true ↔ s = d ∨ ∃ t, s = d +:+ "/" +:+ t.
Proof.
  unfold at_or_below. rewrite orb_true_iff, bool_decide_eq_true, HasPrefix_iff. split; (intros [H|[t H]]; [by left|right; exists t]);
    by rewrite H, append_assoc.
Qed.

Lemma below_at s d x : at_or_below d s = true → at_or_below (d +:+ "/" +:+ x) s = true.
Proof.
  rewrite !at_or_below_iff. intros [->|[t ->]]; right; eexists; [done|]. by rewrite <-!append_assoc.
Qed.

Definition proper (rel : string) : Prop := Forall plain (Split rel).

Lemma safe_proper rel : safeRepoRel rel = true → proper rel.
Proof.
  unfold safeRepoRel. rewrite !andb_true_iff, forallb_forall. intros [_ HF]. apply Forall_forall. intros x Hx.
  pose proof (Split_parts rel) as HP. rewrite Forall_forall in HP. specialize (HF x ltac:(by apply list_elem_of_In)).
  rewrite negb_true_iff, !orb_false_iff, !bool_decide_eq_false in HF. unfold plain. naive_solver.
Qed.

Lemma proper_below d x : proper (d +:+ "/" +:+ x) ↔ proper d ∧ proper x.
Proof. unfold proper. rewrite Split_slash. apply Forall_app. Qed.

Lemma proper_nonempty s : proper s → s ≠ "".
Proof. intros HP ->. unfold proper in HP. cbn in HP. apply Forall_cons in HP as [[? _] _]. done. Qed.

Lemma proper_first s : proper s → head (to_bytes s) ≠ Some 47%Z.
Proof.
  destruct s as [|a s]; [done|]. cbn [to_bytes head]. intros HP [= Ha].
  assert (a = slash) as -> by (rewrite <-(ascii_of_byte_of a), Ha; done).
  unfold proper in HP. cbn in HP. apply Forall_cons in HP as [[? _] _]. done.
Qed.

Lemma proper_last s : proper s → last (to_bytes s) ≠ Some 47%Z.
Proof.
  intros HP HL. apply last_Some in HL as [l HL]. assert (s = of_bytes l +:+ "/" +:+ "") as E.
  { apply to_bytes_inj. rewrite HL, !to_bytes_app, to_of_bytes; [done|]. pose proof (to_bytes_range s) as HR. rewrite HL in HR. by apply Forall_app in HR as [HR _]. }
  rewrite E in HP. apply proper_below in HP as [_ HP]. by apply proper_nonempty in HP.
Qed.

Lemma trim_proper s : proper s → trim_slashes s = s.
Proof.
  intros HP. unfold trim_slashes, Trim. rewrite trim_both_id; [apply of_to_bytes| |]; intros x Hx; apply bool_decide_eq_false;
    rewrite list_elem_of_singleton; intros ->; [by eapply proper_first|by eapply proper_last].
Qed.

Lemma Base_proper s : proper s → ∃ x, last (Split s) = Some x ∧ Base s = x ∧ plain x.
Proof.
  intros HP. destruct (last (Split s)) as [x|] eqn:EL; [|apply last_None in EL; by apply Split_nonempty in EL].
  exists x. assert (plain x) as Hx.
  { unfold proper in HP. rewrite Forall_forall in HP. apply HP. apply last_Some in EL as [l ->]. set_solver. }
  split; [done|]. split; [|done]. unfold Base. rewrite bool_decide_eq_false_2 by by apply proper_nonempty.
  assert (drop_while (λ b, (b =? 47)%Z) (reverse (to_bytes s)) = reverse (to_bytes s)) as ->.
  { apply drop_while_id. intros y Hy. apply Z.eqb_neq. intros ->. apply (proper_last s HP). rewrite <-head_reverse. done. }
  rewrite reverse_involutive, of_to_bytes, EL. cbn [default from_option]. unfold default, id. cbn. rewrite bool_decide_eq_false_2; [done|]. apply Hx.
Qed.

Lemma parents_below d x n : n = d ∨ n ∈ parents d → n ∈ parents (d +:+ "/" +:+ x).
Proof.
  unfold parents. rewrite Split_slash, length_app. pose proof (Split_nonempty d) as Hd. pose proof (Split_nonempty x) as Hx.
  assert (0 < length (Split d) ∧ 0 < length (Split x))%nat as [? ?] by (destruct (Split d), (Split x); cbn; try done; lia).
  rewrite !list_elem_of_fmap. intros [->|(i & -> & Hi)].
  - exists (length (Split d)). rewrite take_app_length, join_Split. split; [done|]. apply elem_of_seq. lia.
  - apply elem_of_seq in Hi. exists i. rewrite take_app_le by lia. split; [done|]. apply elem_of_seq. lia.
Qed.

Lemma parents_prefix rel n : n ∈ parents rel → ∃ x, rel = n +:+ "/" +:+ x.
Proof.
  unfold parents. rewrite list_elem_of_fmap. intros (i & -> & Hi). apply elem_of_seq in Hi.
  exists (join_slash (drop i (Split rel))). rewrite <-join_app.
  - by rewrite take_drop, join_Split.
  - intros E. apply (f_equal length) in E. rewrite length_take in E. cbn in E. lia.
  - intros E. apply (f_equal length) in E. rewrite length_drop in E. cbn in E. lia.
Qed.

(** ** A directory's rules hold below it *)

Lemma contains_slash_iff s : contains_slash s = true ↔ 47%Z ∈ to_bytes s.
Proof.
  unfold contains_slash, ContainsAny. rewrite existsb_exists. split.
  - intros (b & Hb & Hm). apply bool_decide_eq_true, list_elem_of_singleton in Hm as ->. by apply list_elem_of_In.
  - intros Hb. exists 47%Z. split; [by apply list_elem_of_In|]. by apply bool_decide_eq_true, list_elem_of_singleton.
Qed.

Lemma one_part_no_slash x : Split x = [x] → 47%Z ∉ to_bytes x.
Proof.
  intros HS Hin. apply list_elem_of_split in Hin as (l1 & l2 & E).
  pose proof (to_bytes_range x) as HR. rewrite E in HR. apply Forall_app in HR as [HR1 HR2]. apply Forall_cons in HR2 as [_ HR2].
  assert (x = of_bytes l1 +:+ "/" +:+ of_bytes l2) as ->.
  { apply to_bytes_inj. rewrite !to_bytes_app, !to_of_bytes by done. done. }
  rewrite Split_slash in HS. apply (f_equal length) in HS. rewrite length_app in HS. cbn in HS.
  pose proof (Split_nonempty (of_bytes l1)). pose proof (Split_nonempty (of_bytes l2)). destruct (Split (of_bytes l1)), (Split (of_bytes l2)); cbn in HS; done || lia.
Qed.

Lemma slash_needs_slash e n : simple (to_bytes e) → contains_slash e = true → 47%Z ∉ to_bytes n → Match e n = false.
Proof.
  intros Hs Hc Hn. destruct (Match e n) eqn:E; [|done]. apply Match_sound in E; [|done]. exfalso. apply Hn.
  eapply globs_slash; [exact E|]. by apply contains_slash_iff.
Qed.

(** Trimming keeps a pattern simple. *)
Lemma simple_infix p q r : simple (p ++ q ++ r) → simple q.
Proof. rewrite !simple_app. naive_solver. Qed.
Lemma simple_TrimSpace s : simple (to_bytes s) → simple (to_bytes (TrimSpace s)).
Proof.
  unfold TrimSpace. destruct (trim_both_infix (λ p : Z * list Z, is_space p.1) (runes (to_bytes s))) as (a & b & E).
  set (l := trim_both _ _) in *. destruct (text_of_runes _ _ (le_n (length (to_bytes s)))) as [HT _]. rewrite E in HT.
  fold (text_of l). unfold text_of in HT. rewrite !fmap_app, !concat_app in HT. intros Hs. pose proof (to_bytes_range s) as HR.
  rewrite <-HT in Hs, HR. rewrite to_of_bytes; [exact (simple_infix _ _ _ Hs)|]. rewrite !Forall_app in HR. apply HR.
Qed.
Lemma simple_trim_slashes s : simple (to_bytes s) → simple (to_bytes (trim_slashes s)).
Proof.
  unfold trim_slashes, Trim. destruct (trim_both_infix (λ b, bool_decide (b ∈ [47%Z])) (to_bytes s)) as (a & b & E).
  set (l := trim_both _ _) in *. intros Hs. pose proof (to_bytes_range s) as HR. rewrite E in Hs, HR.
  rewrite to_of_bytes; [exact (simple_infix _ _ _ Hs)|]. rewrite !Forall_app in HR. apply HR.
Qed.
Lemma simple_CutPrefix s p : simple (to_bytes s) → simple (to_bytes (CutPrefix s p).1).
Proof.
  unfold CutPrefix. destruct (HasPrefix s p); [|done]. cbn [fst]. intros Hs. pose proof (to_bytes_range s) as HR.
  rewrite <-(take_drop (String.length p) (to_bytes s)) in Hs, HR.
  apply simple_app in Hs as [_ Hs]. apply Forall_app in HR as [_ HR]. by rewrite to_of_bytes.
Qed.
Lemma simple_rule s : simple (to_bytes s) → simple (to_bytes (excludeRule s).1).
Proof.
  intros Hs%simple_TrimSpace. unfold excludeRule. destruct (HasPrefix _ "\!"); [by apply simple_CutPrefix|].
  destruct (HasPrefix _ "!"); [by apply simple_TrimSpace, simple_CutPrefix|done].
Qed.

Lemma exclude_below d x e : simple (to_bytes e) → proper (d +:+ "/" +:+ x) →
  excludeMatches d e = true → excludeMatches (d +:+ "/" +:+ x) e = true.
Proof.
  intros Hs HP. apply proper_below in HP as [Hd Hx]. unfold excludeMatches. set (p := trim_slashes (TrimSpace e)).
  assert (simple (to_bytes p)) as Hp by by apply simple_trim_slashes, simple_TrimSpace.
  case_bool_decide as Hne; [done|]. rewrite !orb_true_iff, !andb_true_iff, !existsb_exists. rewrite Split_slash.
  destruct (Base_proper d Hd) as (b & HL & HB & Hb).
  intros [[[[H|(Hc & y & Hy & Hm)]|H]|H]|(n & Hn & Hm)].
  - do 4 left. by apply below_at.
  - do 3 left. right. split; [done|]. exists y. split; [apply in_or_app; by left|done].
  - rewrite HB in H. destruct (contains_slash p) eqn:Ec.
    + rewrite slash_needs_slash in H; [done|done|done|]. apply one_part_no_slash, Hb.
    + do 3 left. right. split; [done|]. exists b. split; [apply in_or_app; left; apply list_elem_of_In; apply last_Some in HL as [l ->]; set_solver|].
      rewrite H. apply orb_true_r.
  - right. exists d. split; [|done]. apply list_elem_of_In, parents_below. by left.
  - right. exists n. split; [|done]. apply list_elem_of_In, parents_below. right. by apply list_elem_of_In.
Qed.

(** ** Re-inclusion below a directory is seen from above *)

Lemma append_inj_l (s t u : string) : s +:+ t = s +:+ u → t = u.
Proof. induction s as [|a s IH]; cbn; [done|]. intros [= H]. by apply IH. Qed.

Lemma two_prefixes q t d x : q +:+ t = d +:+ "/" +:+ x → HasPrefix d q = true ∨ at_or_below q d = true.
Proof.
  rewrite HasPrefix_iff, at_or_below_iff. revert d. induction q as [|a q IH]; intros d E; [left; by exists d|].
  destruct d as [|c d]; cbn in E; injection E as -> E; [right; right; by exists q|].
  destruct (IH d E) as [[z ->]|[->|[z ->]]]; [left; by exists z|by right; left|right; right; by exists z].
Qed.

Lemma literal_split p : p = (literal_prefix p ++ drop (length (literal_prefix p)) p)%list ∧ 42%Z ∉ literal_prefix p ∧ 63%Z ∉ literal_prefix p ∧
  (existsb is_meta p = false → literal_prefix p = p).
Proof.
  induction p as [|b p (E & H1 & H2 & H3)]; [cbn; split_and!; [done|set_solver|set_solver|done]|].
  cbn [literal_prefix existsb]. destruct (is_meta b) eqn:Eb; cbn [length drop app orb]; [split_and!; [done|set_solver|set_solver|done]|].
  unfold is_meta in Eb. rewrite !not_elem_of_cons. split_and!; [by f_equal|lia|done|lia|done|]. intros H. by rewrite H3.
Qed.

Lemma TrimSuffix_prefix s t : ∃ z, s = TrimSuffix s t +:+ z.
Proof.
  unfold TrimSuffix. destruct (HasSuffix s t); [|exists ""; by rewrite append_empty].
  set (n := (String.length s - String.length t)%nat). exists (of_bytes (drop n (to_bytes s))). apply to_bytes_inj.
  pose proof (to_bytes_range s) as HR. rewrite <-(take_drop n (to_bytes s)) in HR. apply Forall_app in HR as [H1 H2].
  by rewrite to_bytes_app, !to_of_bytes, take_drop by done.
Qed.

(** What a pattern with a slash matches begins with its literal part. *)
Lemma exclude_literal rel e p : p = trim_slashes (TrimSpace e) → simple (to_bytes e) → proper rel → contains_slash p = true →
  excludeMatches rel e = true →
  ∃ n, (rel = n ∨ ∃ y, rel = n +:+ "/" +:+ y) ∧ (∃ z, n = of_bytes (literal_prefix (to_bytes p)) +:+ z) ∧
    (existsb is_meta (to_bytes p) = false → n = p).
Proof.
  intros Ep Hs HP Hc HM. assert (simple (to_bytes p)) as Hp by (rewrite Ep; by apply simple_trim_slashes, simple_TrimSpace).
  destruct (literal_split (to_bytes p)) as (EL & H42 & H63 & HN). set (lit := literal_prefix (to_bytes p)) in *. set (rest := drop _ _) in EL.
  pose proof (to_bytes_range p) as HR. rewrite EL in HR. apply Forall_app in HR as [HR1 HR2].
  assert (∀ n, Match p n = true → (∃ z, n = of_bytes lit +:+ z) ∧ (existsb is_meta (to_bytes p) = false → n = p)) as HG.
  { intros n Hn%Match_sound; [|done]. rewrite EL in Hn. apply globs_literal in Hn as (n' & En & Hn); [|done|done].
    pose proof (to_bytes_range n) as HRn. rewrite En in HRn. apply Forall_app in HRn as [_ HRn]. split.
    - exists (of_bytes n'). apply to_bytes_inj. by rewrite to_bytes_app, !to_of_bytes.
    - intros Hm. apply to_bytes_inj. rewrite En, EL. rewrite (HN Hm) in EL. f_equal.
      apply (f_equal length) in EL. rewrite length_app in EL. destruct rest; [|cbn in EL; lia]. by inversion Hn. }
  unfold excludeMatches in HM. rewrite <-Ep in HM. destruct (bool_decide (p = "")) eqn:E0; [done|].
  rewrite !orb_true_iff, andb_true_iff, !existsb_exists, Hc in HM. destruct (Base_proper rel HP) as (b & _ & HB & Hb).
  destruct HM as [[[[H|[Hf _]]|H]|H]|(n & Hn & Hm)]; [|done| | |].
  - exists p. apply at_or_below_iff in H. split; [done|]. split; [|done]. exists (of_bytes rest). apply to_bytes_inj. by rewrite to_bytes_app, !to_of_bytes.
  - rewrite HB, slash_needs_slash in H; [done|done|done|]. apply one_part_no_slash, Hb.
  - exists rel. split; [by left|by apply HG].
  - exists n. split; [|by apply HG]. right. by apply parents_prefix, list_elem_of_In.
Qed.

Lemma cut_last_slash p d t : p +:+ "/" = d +:+ "/" +:+ t → p = d ∨ ∃ t', p = d +:+ "/" +:+ t'.
Proof.
  intros E. apply (f_equal to_bytes) in E. rewrite !to_bytes_app in E. cbn [to_bytes app] in E.
  pose proof (to_bytes_range t) as HR. destruct (to_bytes t) as [|c l _] using rev_ind.
  - left. apply to_bytes_inj. by apply app_inj_tail in E as [E _].
  - right. exists (of_bytes l). apply to_bytes_inj. apply Forall_app in HR as [HR _]. rewrite !to_bytes_app, to_of_bytes by done.
    rewrite app_comm_cons, app_assoc in E. by apply app_inj_tail in E as [E _].
Qed.

Lemma reinclude_above d x rule : simple (to_bytes rule) → proper (d +:+ "/" +:+ x) → (excludeRule rule).2 = true →
  excludeMatches (d +:+ "/" +:+ x) (excludeRule rule).1 = true → may_reinclude d rule = true.
Proof.
  intros Hs HP HN HM. pose proof (simple_rule _ Hs) as Hs'. unfold may_reinclude. destruct (excludeRule rule) as [e negated] eqn:ER.
  cbn [fst snd] in *. subst negated. assert (TrimSpace e = e) as ET.
  { unfold excludeRule in ER. destruct (HasPrefix _ "\!"); [done|]. destruct (HasPrefix _ "!"); injection ER as <-; [apply TrimSpace_idemp|done]. }
  set (p := trim_slashes e). assert (p <>s "" = true) as Hne.
  { apply negb_true_iff. unfold excludeMatches in HM. rewrite ET in HM. fold p in HM. by destruct (bool_decide (p = "")). }
  rewrite Hne. cbn [andb]. destruct (contains_slash p) eqn:Ec; [|done]. cbn [negb orb].
  destruct (exclude_literal (d +:+ "/" +:+ x) e p) as (n & Hn & (z & Ez) & Hlit); [by rewrite ET|done|done|done|done|].
  set (lit := of_bytes (literal_prefix (to_bytes p))) in *. destruct (existsb is_meta (to_bytes p)) eqn:Em.
  - destruct (TrimSuffix_prefix lit "/") as [u Eu]. set (q := TrimSuffix lit "/") in *.
    assert (∃ t, q +:+ t = d +:+ "/" +:+ x) as [t Et].
    { rewrite Eu in Ez. destruct Hn as [->|[y ->]]; rewrite Ez, <-?append_assoc; by eexists. }
    rewrite !orb_true_iff. destruct (two_prefixes _ _ _ _ Et); [by right|left; by right].
  - rewrite (Hlit eq_refl) in Hn. rewrite orb_true_iff. apply proper_below in HP as [Hd _]. destruct Hn as [E|[y E]].
    + left. apply at_or_below_iff. right. by exists x.
    + assert ((p +:+ "/") +:+ y = d +:+ "/" +:+ x) as E' by by rewrite <-append_assoc.
      destruct (two_prefixes _ _ _ _ E') as [H|H]; [by right|left]. apply at_or_below_iff. apply at_or_below_iff in H as [H|[t H]].
      * exfalso. apply (proper_last d Hd). rewrite <-H, to_bytes_app. apply last_snoc.
      * by apply (cut_last_slash p d t).
Qed.

(** ** The rule that decides *)

(** The last rule that matches, and what it decides. *)
Lemma last_match rel tracked l d :
  (Forall (λ r, rule_matches rel r = false) l ∧ fold_left (decide_rule rel tracked) l d = d) ∨
  ∃ l1 r l2, l = (l1 ++ r :: l2)%list ∧ rule_matches rel r = true ∧
    ∃ b, fold_left (decide_rule rel tracked) l d =
      if rule_spared tracked r then (b, (excludeRule (rule_pattern r)).1) else (negb (excludeRule (rule_pattern r)).2, "").
Proof.
  induction l as [|r l IH] using rev_ind; [by left|]. rewrite fold_left_app. cbn [fold_left].
  set (d' := fold_left _ l d) in *. unfold decide_rule. destruct (rule_matches rel r) eqn:Er.
  - right. exists l, r, []. split_and!; [done|done|]. destruct (rule_spared tracked r); by eexists.
  - destruct IH as [[HF HE]|(l1 & r' & l2 & -> & Hm & HE)].
    + left. split; [|done]. apply Forall_app. split; [done|]. by constructor.
    + right. exists l1, r', (l2 ++ [r])%list. rewrite <-app_assoc. by split_and!.
Qed.

(** Rules that exclude, from a point on: one that matches is enough. *)
Lemma excludes_last rel tracked l d : Forall (λ r, rule_spared tracked r = false ∧ (excludeRule (rule_pattern r)).2 = false) l →
  Exists (λ r, rule_matches rel r = true) l → (fold_left (decide_rule rel tracked) l d).1 = true.
Proof.
  intros HF HE. destruct (last_match rel tracked l d) as [[HN _]|(l1 & r & l2 & -> & Hm & b & ->)].
  - exfalso. apply Exists_exists in HE as (r & Hr & Hm). rewrite Forall_forall in HN. rewrite HN in Hm by done. done.
  - rewrite Forall_app, Forall_cons in HF. destruct HF as (_ & [-> ->] & _). done.
Qed.

(** At or below one of the paths that are never copied, whatever the case of its
    letters. *)
Definition under_protected (rel : string) : bool := existsb (at_or_below (ToLower (trim_slashes rel))) protectedSyncExcludes.

Lemma protected_match rel e : protectedSyncExcludeMatches rel e = true → under_protected rel = true.
Proof.
  unfold protectedSyncExcludeMatches, under_protected. rewrite andb_true_iff, bool_decide_eq_true. intros [Hin HB].
  apply existsb_exists. eexists. split; [by apply list_elem_of_In|done].
Qed.
Lemma protected_self rel p : p ∈ protectedSyncExcludes → at_or_below (ToLower (trim_slashes rel)) p = true → protectedSyncExcludeMatches rel p = true.
Proof.
  intros Hin HB. unfold protectedSyncExcludeMatches. assert (ToLower (trim_slashes p) = p) as ->; [|by rewrite bool_decide_eq_true_2].
  revert p Hin HB. assert (Forall (λ p, ToLower (trim_slashes p) = p) protectedSyncExcludes) as HF by (repeat constructor; by vm_compute).
  intros p Hin _. by rewrite Forall_forall in HF; apply HF.
Qed.

Lemma protected_rules_decide rel tracked d : under_protected rel = true →
  (fold_left (decide_rule rel tracked) (sr_rules (newSyncExcludeRules protectedSyncExcludes syncExcludeProtected)) d).1 = true.
Proof.
  intros HU. assert (sr_rules (newSyncExcludeRules protectedSyncExcludes syncExcludeProtected) =
    (λ p, mkRule p syncExcludeProtected) <$> protectedSyncExcludes) as -> by by vm_compute.
  assert (Forall (λ p, excludeRule p = (p, false)) protectedSyncExcludes) as HE by (repeat constructor; by vm_compute).
  apply excludes_last.
  - apply Forall_fmap. eapply Forall_impl; [exact HE|]. intros p Hp. cbn [compose rule_pattern]. unfold rule_spared. cbn [rule_origin rule_pattern].
    rewrite Hp, bool_decide_eq_false_2, andb_false_r by done. by split.
  - apply existsb_exists in HU as (p & Hin%list_elem_of_In & HB). apply Exists_exists. exists (mkRule p syncExcludeProtected).
    split; [apply list_elem_of_fmap; by exists p|]. unfold rule_matches. cbn [rule_pattern]. rewrite Forall_forall in HE. rewrite (HE p Hin). cbn [fst].
    rewrite (protected_self _ _ Hin HB). apply orb_true_r.
Qed.

Lemma protected_excluded root excludes managed file rules sub rel tracked :
  syncExcludes root excludes managed file = Ok rules → under_protected rel = true →
  pathExcludedByRules rel (mkRules (sr_rules rules) sub) tracked = true.
Proof.
  unfold syncExcludes. intros HS HU. res_steps. apply Ok_inj in HS as <-. unfold pathExcludedByRules, pathExcludeDecision.
  destruct (protectsManagedState _ rel); [done|]. set (d := fold_left _ _ _). assert (d.1 = true) as ->; [|done].
  unfold d, append_rules at 1. cbn [sr_rules]. rewrite fold_left_app. by apply protected_rules_decide.
Qed.
Lemma rules_eta rules : mkRules (sr_rules rules) (sr_managedSubtree rules) = rules.
Proof. by destruct rules. Qed.

(** What must not leave the machine is never selected.  Whatever patterns
    the configuration and the ignore file hold, re-inclusions among them, and
    whether or not a path is tracked: the rules exclude every path at or below
    the environment files, scripts, logs, captures and runs of [.crabbox], in any
    case of letters, and every path at or below the state that this program
    manages itself. *)
Theorem protected_never_synced root excludes managed file rules rel tracked :
  syncExcludes root excludes managed file = Ok rules →
  under_protected rel = true ∨ (∃ m, managed = Ok m ∧ m ≠ "" ∧ at_or_below rel m = true) →
  pathExcludedByRules rel rules tracked = true.
Proof.
  intros HS [HU|(m & -> & Hne & HB)]; [rewrite <-(rules_eta rules); by eapply protected_excluded|]. unfold syncExcludes in HS. res_steps. apply Ok_inj in HS as <-.
  unfold pathExcludedByRules, pathExcludeDecision. assert (protectsManagedState (append_rules (append_rules (mkRules (sr_rules (configuredExcludes excludes)) x) x0
    syncExcludeConfigured) protectedSyncExcludes syncExcludeProtected) rel = true) as ->; [|done].
  unfold protectsManagedState. cbn [append_rules sr_managedSubtree].
  match goal with H : Ok m = Ok _ |- _ => apply Ok_inj in H as <- end. by rewrite bool_decide_eq_false_2, HB.
Qed.

(** ** A watcher misses nothing *)

Lemma protected_below d x : proper (d +:+ "/" +:+ x) → under_protected d = true → under_protected (d +:+ "/" +:+ x) = true.
Proof.
  intros HP. unfold under_protected. rewrite (trim_proper _ HP). apply proper_below in HP as [Hd _]. rewrite (trim_proper _ Hd).
  rewrite !existsb_exists. intros (p & Hp & HB). exists p. split; [done|]. unfold ToLower. rewrite map_runes_slash by done. by apply below_at.
Qed.

Lemma managed_below rules d x : protectsManagedState rules d = true → protectsManagedState rules (d +:+ "/" +:+ x) = true.
Proof. unfold protectsManagedState. rewrite !andb_true_iff. intros [? ?]. split; [done|]. by apply below_at. Qed.

Lemma length_Split s : (length (Split s) ≤ S (String.length s))%nat.
Proof.
  induction s as [|a s IH]; cbn; [lia|]. destruct (Ascii.eqb a slash); cbn; [lia|]. destruct (Split s); cbn in *; lia.
Qed.

Lemma dirs_above_all fuel : ∀ rel d x, proper rel → (length (Split rel) ≤ S fuel)%nat → rel = d +:+ "/" +:+ x → d ∈ dirs_above fuel rel.
Proof.
  induction fuel as [|fuel IH]; intros rel d x HP HL ->.
  { exfalso. rewrite Split_slash, length_app in HL. pose proof (Split_nonempty d). pose proof (Split_nonempty x).
    destruct (Split d), (Split x); cbn in HL; done || lia. }
  set (rel := d +:+ "/" +:+ x) in *. assert (removelast (Split rel) = (Split d ++ removelast (Split x))%list) as ER.
  { unfold rel. rewrite Split_slash. apply removelast_app, Split_nonempty. }
  destruct (Dir_plain rel HP) as [[E _]|(_ & _ & Hdot & HS)].
  { rewrite ER in E. apply app_nil in E as [E _]. by apply Split_nonempty in E. }
  cbn [dirs_above]. rewrite (bool_decide_eq_false_2 _ Hdot). rewrite ER in HS.
  destruct (decide (removelast (Split x) = [])) as [E|E].
  - rewrite E, app_nil_r in HS. assert (Dir rel = d) as -> by by rewrite <-(join_Split (Dir rel)), HS, join_Split. by left.
  - right. assert (Dir rel = d +:+ "/" +:+ join_slash (removelast (Split x))) as ED.
    { by rewrite <-(join_Split (Dir rel)), HS, join_app, join_Split by (done || apply Split_nonempty). }
    pose proof (app_removelast_last "" (Split_nonempty rel)) as Hs. eapply IH; [| |exact ED].
    + unfold proper in *. rewrite HS, <-ER. rewrite Hs in HP. by apply Forall_app in HP as [? _].
    + rewrite HS, <-ER. apply (f_equal length) in Hs. rewrite length_app in Hs. cbn in Hs. lia.
Qed.

Lemma matches_nonempty rel r : rule_matches rel r = true → (excludeRule (rule_pattern r)).1 ≠ "".
Proof. unfold rule_matches. intros H E. by rewrite E in H. Qed.

(** A tracked path that a spared rule matches last is protected, and so are the
    directories above it. *)
Lemma protected_ancestor rules tracked d x r : protectsManagedState rules (d +:+ "/" +:+ x) = false → proper (d +:+ "/" +:+ x) →
  d +:+ "/" +:+ x ∈ tracked → rule_matches (d +:+ "/" +:+ x) r = true →
  fold_left (decide_rule (d +:+ "/" +:+ x) true) (sr_rules rules) (false, "") = (false, (excludeRule (rule_pattern r)).1) →
  d ∈ ws_protectedTrackedAncestors (newWatchPathScope rules tracked).
Proof.
  intros HM HP Ht Hr HF. set (rel := d +:+ "/" +:+ x) in *. cbn [newWatchPathScope ws_protectedTrackedAncestors].
  apply elem_of_list_to_set, list_elem_of_In, in_concat. exists (dirs_above (String.length rel) rel). rewrite <-!list_elem_of_In. split; cycle 1.
  - eapply dirs_above_all; [done| |done]. apply length_Split.
  - apply list_elem_of_fmap. exists rel. split; [done|]. apply list_elem_of_filter. split; [|by apply elem_of_elements].
    unfold watchRulesProtectTrackedPath, pathExcludeDecision. rewrite HM, HF. cbn [fst]. apply negb_true_iff, bool_decide_eq_false.
    by eapply matches_nonempty.
Qed.

(** A rule that excludes a directory matches what is below it; only the protected
    paths are matched in another way. *)
Lemma rule_below d x r : simple (to_bytes (rule_pattern r)) → proper (d +:+ "/" +:+ x) → under_protected (d +:+ "/" +:+ x) = false →
  rule_matches d r = true → rule_matches (d +:+ "/" +:+ x) r = true.
Proof.
  intros Hs HP HU. unfold rule_matches. rewrite !orb_true_iff. intros [H|H]; [left; by apply exclude_below; [apply simple_rule|..]|].
  apply protected_match, (protected_below _ x HP) in H. congruence.
Qed.

(** C26. A watcher misses no path that would be copied.  For rules without
    classes and escapes in their patterns: when a path inside the repository is
    not excluded, then every directory above it is descended into, also where
    the directory itself is excluded, because a later rule re-includes the path
    or because it is tracked and an ambiguous built-in rule spares it. *)
Theorem watch_reaches root excludes managed file rules tracked d x :
  syncExcludes root excludes managed file = Ok rules →
  Forall (λ r, simple (to_bytes (rule_pattern r))) (sr_rules rules) →
  safeRepoRel (d +:+ "/" +:+ x) = true →
  pathEligible (newWatchPathScope rules tracked) (d +:+ "/" +:+ x) = true → traverseDir (newWatchPathScope rules tracked) d = true.
Proof.
  intros HS HF HP%safe_proper HE. set (rel := d +:+ "/" +:+ x) in *. unfold pathEligible in HE. cbn [newWatchPathScope ws_rules ws_trackedRegular] in HE.
  set (t := bool_decide (rel ∈ tracked)) in *. apply negb_true_iff in HE. rewrite Forall_forall in HF.
  assert (under_protected rel = false) as HU.
  { destruct (under_protected rel) eqn:E; [|done]. rewrite <-(rules_eta rules) in HE. by rewrite (protected_excluded _ _ _ _ _ _ _ t HS E) in HE. }
  unfold traverseDir, traverseExcludedDir. cbn [newWatchPathScope ws_rules].
  destruct (pathExcludedByRules d rules false) eqn:ED; [|done]. cbn [negb orb].
  unfold pathExcludedByRules, pathExcludeDecision in HE, ED.
  destruct (protectsManagedState rules rel) eqn:EM; [done|].
  destruct (protectsManagedState rules d) eqn:EMd; [apply (managed_below _ d x) in EMd; fold rel in EMd; congruence|]. cbn [negb andb].
  assert (∃ r, r ∈ sr_rules rules ∧ rule_matches rel r = true) as (r0 & Hin0 & Hm0).
  { destruct (last_match d false (sr_rules rules) (false, "")) as [[_ HN]|(l1 & r & l2 & EL & Hm & _)]; [by rewrite HN in ED|].
    exists r. assert (r ∈ sr_rules rules) by (rewrite EL; set_solver). split; [done|]. by apply rule_below; [apply HF|..]. }
  destruct (last_match rel t (sr_rules rules) (false, "")) as [[HN _]|(l1 & r & l2 & EL & Hm & b & HD)].
  { rewrite Forall_forall in HN. by rewrite HN in Hm0. }
  assert (r ∈ sr_rules rules) as Hin by (rewrite EL; set_solver). rewrite HD in HE. apply orb_true_iff.
  destruct (rule_spared t r) eqn:ES; cbn [fst] in HE.
  - right. apply bool_decide_eq_true. assert (b = false) as -> by by destruct b. assert (t = true) as Ht by by destruct t.
    rewrite Ht in HD. unfold t in Ht. apply bool_decide_eq_true in Ht. by eapply protected_ancestor.
  - left. unfold excludedDirMayContainReinclude. apply existsb_exists. exists (rule_pattern r).
    split; [apply list_elem_of_In, list_elem_of_fmap; by exists r|]. pose proof HP as HP'. apply proper_below in HP' as [Hd _]. rewrite (trim_proper _ Hd).
    apply (reinclude_above d x); [by apply HF|done| |].
    + by destruct (excludeRule (rule_pattern r)).2.
    + unfold rule_matches in Hm. apply orb_true_iff in Hm as [H|H]; [done|]. apply protected_match in H. fold rel in H. congruence.
Qed.

(** ** Examples *)

Definition sample_ignore : list Z := to_bytes "!.crabbox/env" ++ [10%Z] ++ to_bytes "dist/*" ++ [10%Z] ++ to_bytes "!dist/keep.txt".
Definition example_rules : SyncExcludeRules :=
  match syncExcludes "/r" ["!.crabbox"] (Ok "state/crabbox") (Ok (Some sample_ignore)) with Ok r => r | Err _ => mkRules [] "" end.

Lemma protected_never_synced_witness :
  pathExcludedByRules ".CRABBOX/env/secrets" example_rules true = true ∧ pathExcludedByRules "state/crabbox/claims/x.json" example_rules false = true.
Proof.
  split.
  - apply (protected_never_synced "/r" ["!.crabbox"] (Ok "state/crabbox") (Ok (Some sample_ignore)) example_rules); [vm_compute; reflexivity|left; vm_compute; reflexivity].
  - apply (protected_never_synced "/r" ["!.crabbox"] (Ok "state/crabbox") (Ok (Some sample_ignore)) example_rules); [vm_compute; reflexivity|].
    right. exists "state/crabbox". split; [reflexivity|]. split; [discriminate|vm_compute; reflexivity].
Defined.

Lemma watch_reaches_witness : pathEligible (newWatchPathScope example_rules ∅) ("dist" +:+ "/" +:+ "keep.txt") = true ∧
  pathExcludedByRules "dist" example_rules false = true ∧ traverseDir (newWatchPathScope example_rules ∅) "dist" = true.
Proof.
  assert (pathEligible (newWatchPathScope example_rules ∅) ("dist" +:+ "/" +:+ "keep.txt") = true) as HE by (vm_compute; reflexivity).
  split; [exact HE|]. split; [vm_compute; reflexivity|].
  apply (watch_reaches "/r" ["!.crabbox"] (Ok "state/crabbox") (Ok (Some sample_ignore)) example_rules ∅ "dist" "keep.txt");
    [vm_compute; reflexivity| |vm_compute; reflexivity|exact HE].
  assert (forallb (λ r, forallb (λ b, negb ((b =? 91)%Z || (b =? 92)%Z)) (to_bytes (rule_pattern r))) (sr_rules example_rules) = true) as HB by (vm_compute; reflexivity).
  apply Forall_forall. intros r Hr. rewrite forallb_forall in HB. specialize (HB r ltac:(by apply list_elem_of_In)). rewrite forallb_forall in HB.
  split; intros Hin; apply list_elem_of_In, HB in Hin; discriminate Hin.
Defined.

(** A re-inclusion whose directory is written with an escape is not seen from
    above: the path is selected, and the directory is not descended into. *)
Example escaped_reinclusion : pathExcluded "foo/bar" ["foo"; "!\foo/bar"] = false ∧ pathExcluded "foo" ["foo"; "!\foo/bar"] = true ∧
  excludedDirMayContainReinclude "foo" ["foo"; "!\foo/bar"] = false.
Proof. vm_compute. done. Qed.
