(* ===== verification/SyncManifest.v ===== *)
(** * The list of files that is synchronised ([cli/repo.go])

    What git lists is cut down to the paths that the rules select, that exist and
    that are not another repository; what git reports as deleted, to the paths
    that are to be deleted on the lease.  Git's output and the file system are
    parameters: an answer is the same each time it is asked during one listing.
    The test for local state is a parameter too, which [ManagedSync] implements. *)

From Stdlib Require Import ZArith Lia.
From stdpp Require Import gmap strings sorting prelude.
From S2P Require Import Prelude GoText GoPath GoGlob SyncRules.
Local Open Scope Z_scope.

(** ** Git's lists *)

(** [splitNul] *)
Definition splitNul (data : list Z) : list string := of_bytes <$> filter (λ part, part ≠ []) (split_at 0 data).
(** [strconv.ParseUint(s, 8, 32)] *)
Fixpoint octal_value (acc : Z) (bs : list Z) : option Z :=
  match bs with
  | [] => Some acc
  | b :: bs => if (48 <=? b) && (b <=? 55) then octal_value (8 * acc + (b - 48)) bs else None
  end.
Definition parse_mode (bs : list Z) : option Z :=
  v ← octal_value 0 bs;
  if bool_decide (bs = []) || (2 ^ 32 <=? v) then None else Some v.

Record gitTrackedPath := mkTracked {
  gt_name : string; gt_mode : string; gt_stage : Z; gt_skipWorktree : bool; gt_assumeUnchanged : bool }.

Definition parse_tracked (record : list Z) : res gitTrackedPath :=
  let bad := Err (Msg "parse tracked path metadata") in
  match record with
  | tag :: 32 :: _ :: _ =>
      match cut_at 9 (drop 2 record) with
      | None => bad
      | Some (metadata, name) =>
          match Fields metadata with
          | [mode; _; stage] =>
              if bool_decide (name = []) then bad
              else
                match parse_mode mode, Atoi (of_bytes stage) with
                | None, _ => Err (Msg "parse tracked path mode %q")
                | Some _, Some n =>
                    if (n <? 0) || (3 <? n) then Err (Msg "parse tracked path stage %q")
                    else Ok (mkTracked (of_bytes name) (of_bytes mode) n ((tag =? 83) || (tag =? 115)) ((97 <=? tag) && (tag <=? 122)))
                | Some _, None => Err (Msg "parse tracked path stage %q")
                end
          | _ => bad
          end
      end
  | _ => bad
  end.
Fixpoint parse_all {A B} (f : A → res B) (l : list A) : res (list B) :=
  match l with
  | [] => Ok []
  | x :: l => y ← f x; ys ← parse_all f l; Ok (y :: ys)
  end.
Definition parseGitTrackedPaths (tagged : list Z) : res (list gitTrackedPath) :=
  parse_all parse_tracked (filter (λ r, r ≠ []) (split_at 0 tagged)).

Record gitCachedDeletion := mkDeletion { gd_name : string; gd_preimageMode : string }.
Fixpoint parse_deletions (records : list (list Z)) : res (list gitCachedDeletion) :=
  match records with
  | [] => Ok []
  | [_] => Err (Msg "parse staged deletion metadata")
  | info :: name :: records =>
      match Fields info with
      | [58 :: ((_ :: _) as mode); _; _; _; status] =>
          if negb (bool_decide (status = [68])) || bool_decide (name = []) then Err (Msg "parse staged deletion metadata")
          else
            match parse_mode mode with
            | None => Err (Msg "parse staged deletion mode %q")
            | Some _ => rest ← parse_deletions records; Ok (mkDeletion (of_bytes name) (of_bytes mode) :: rest)
            end
      | _ => Err (Msg "parse staged deletion metadata")
      end
  end.
Definition parseGitCachedDeletions (raw : list Z) : res (list gitCachedDeletion) :=
  reject_if (negb (bool_decide (raw = [])) && negb (bool_decide (last raw = Some 0))) (Msg "parse staged deletion metadata");;
  let records := split_at 0 raw in
  let records := if bool_decide (last records = Some []) then removelast records else records in
  reject_if (Nat.odd (length records)) (Msg "parse staged deletion metadata");;
  parse_deletions records.

Definition gitModeIsRegular (mode : string) : bool := bool_decide (mode = "100644"%string) || bool_decide (mode = "100755"%string).
Definition is_gitlink (e : gitTrackedPath) : bool := bool_decide (gt_mode e = "160000"%string).
Definition trackedRegularPathSet (tracked : list gitTrackedPath) : gset string :=
  list_to_set (gt_name <$> filter (λ e, gitModeIsRegular (gt_mode e) = true) tracked).

(** The loop of [trackedGitlinkPaths] over the entries in scope. *)
Fixpoint gitlink_paths (entries : list gitTrackedPath) (first : gmap string bool) (paths : gset string) : res (gset string) :=
  match entries with
  | [] => Ok paths
  | e :: entries =>
      match first !! gt_name e with
      | None => gitlink_paths entries (<[gt_name e := is_gitlink e]> first) (if is_gitlink e then {[gt_name e]} ∪ paths else paths)
      | Some link =>
          if eqb link (is_gitlink e) then gitlink_paths entries first paths
          else Err (Msg "tracked path %q has mixed file mode %s at stage %d and gitlink mode 160000 at stage %d in sync manifest scope")
      end
  end.
Definition trackedGitlinkPaths (tracked : list gitTrackedPath) (inScope : gitTrackedPath → bool) : res (gset string) :=
  gitlink_paths (filter (λ e, inScope e = true) tracked) ∅ ∅.

(** ** The manifest *)

Record entry_info := mkInfo { i_dir : bool; i_regular : bool; i_symlink : bool; i_special : bool; i_perm : Z; i_size : Z }.
Inductive lstat_answer := NotExist | StatError (e : error) | Exists (i : entry_info).

Record SyncManifest := mkManifest {
  m_seededExtraFiles : list string; m_hasSpecialFiles : bool; m_Files : list string; m_Deleted : list string; m_Changed : list string;
  m_OverlayFiles : list string; m_ProtectedTrackedExcludes : list (string * string); m_Bytes : Z; m_ChangedBytes : Z; m_OverlayBytes : Z }.
Definition sort_strings : list string → list string := merge_sort String.le.

(** What git answers: the files, the tracked entries, the deletions and the
    changes, and whether the checkout is sparse. *)
Record git_answers := mkGit {
  g_files : res (list Z); g_tracked : res (list Z); g_sparse : bool; g_sparseRules : list gitTrackedPath → res (gset string);
  g_deleted : res (list Z); g_cachedDeleted : res (list Z); g_changed : list (res (list Z)) }.

Section Manifest.
Context (root : string) (lstat : string → lstat_answer) (managed : string → res bool).
Context (rules : SyncExcludeRules) (includes : list string).

Definition in_scope (rel : string) (regular : bool) : bool :=
  safeRepoRel rel && negb (pathExcludedByRules rel rules regular) && pathIncluded rel includes.
Definition entry_in_scope (e : gitTrackedPath) : bool := in_scope (gt_name e) (gitModeIsRegular (gt_mode e)).

(** [trackedPathExistsWithoutSymlinkAncestor] *)
Fixpoint path_exists (current : string) (parts : list string) : res bool :=
  match parts with
  | [] => Ok true
  | part :: parts =>
      let current := path_Join current part in
      match lstat current with
      | NotExist => Ok false
      | StatError e => Err e
      | Exists i =>
          if negb (bool_decide (parts = [])) && (negb (i_dir i) || i_symlink i) then Ok false
          else path_exists current parts
      end
  end.

(** The loop of [gitCheckoutHiddenOmissionForTracked]; [sparse] is what the sparse
    rules include, when they are in force. *)
Fixpoint hidden_omission (sparse : option (res (gset string))) (entries : list gitTrackedPath) : res string :=
  match entries with
  | [] => Ok ""%string
  | e :: entries =>
      let checked missing :=
        match path_exists root (Split (gt_name e)) with
        | Err x => Err (Wrap "inspect tracked path %q: %w" x)
        | Ok true => hidden_omission sparse entries
        | Ok false => missing
        end in
      match sparse with
      | None => if gt_skipWorktree e then checked (Ok (gt_name e)) else hidden_omission sparse entries
      | Some (Ok included) =>
          if gt_skipWorktree e || negb (bool_decide (gt_name e ∈ included)) then checked (Ok (gt_name e)) else hidden_omission sparse entries
      | Some (Err se) =>
          checked (if gt_skipWorktree e then Ok (gt_name e)
            else Err (Wrap "classify missing tracked path %q without git sparse-checkout check-rules (requires Git 2.41 or newer): %w" se))
      end
  end.
Definition gitCheckoutHiddenOmissionForTracked (tracked : list gitTrackedPath) (sparseEnabled : bool) (inScope : gitTrackedPath → bool)
    (resolve : list gitTrackedPath → res (gset string)) : res string :=
  let scoped := filter (λ e, inScope e = true) tracked in
  if bool_decide (scoped = []) then Ok ""%string
  else hidden_omission (if sparseEnabled then Some (resolve scoped) else None) scoped.

(** [validatedSyncManifestScopeWithTracked]: the regular tracked paths, and the
    paths that are other repositories. *)
Definition validatedSyncManifestScope (tracked : list gitTrackedPath) (sparseEnabled : bool) (resolve : list gitTrackedPath → res (gset string)) :
    res (gset string * gset string) :=
  match trackedGitlinkPaths tracked entry_in_scope with
  | Err e => Err (Wrap "verify sync manifest scope: %w" e)
  | Ok gitlinks =>
      match gitCheckoutHiddenOmissionForTracked tracked sparseEnabled (λ e, negb (is_gitlink e) && entry_in_scope e) resolve with
      | Err e => Err (Wrap "verify sync manifest scope: %w" e)
      | Ok hidden =>
          if bool_decide (hidden = ""%string) then Ok (trackedRegularPathSet tracked, gitlinks)
          else Err (Msg "tracked path %q is hidden by sparse checkout or skip-worktree state but remains in sync manifest scope; materialize the checkout, or adjust sync.include, ordered sync.exclude, or .crabboxignore so this path is outside sync scope")
      end
  end.

(** One path of [projectSyncManifest]. *)
Definition unusual_mode (i : entry_info) : bool :=
  i_regular i && (i_special i || (negb (i_perm i =? 0x1a4) && negb (i_perm i =? 0x1ed))).
Definition add_path (regular gitlinks : gset string) (m : SyncManifest) (rel : string) : res SyncManifest :=
  protected ← managed rel;
  let '(excluded, pattern) := pathExcludeDecision rel rules (bool_decide (rel ∈ regular)) in
  if protected || bool_decide (rel ∈ gitlinks) || negb (safeRepoRel rel) || excluded || negb (pathIncluded rel includes) || bool_decide (rel ∈ m_Files m)
  then Ok m
  else
    match lstat (path_Join root rel) with
    | Exists i =>
        if i_dir i then Ok m
        else Ok (mkManifest (if unusual_mode i then m_seededExtraFiles m ++ [rel] else m_seededExtraFiles m)
          (m_hasSpecialFiles m || (negb (i_regular i) && negb (i_symlink i)))
          (m_Files m ++ [rel]) (m_Deleted m) (m_Changed m) (m_OverlayFiles m)
          (if bool_decide (pattern = ""%string) then m_ProtectedTrackedExcludes m else m_ProtectedTrackedExcludes m ++ [(rel, pattern)])
          (wrap64 (m_Bytes m + i_size i)) (m_ChangedBytes m) (m_OverlayBytes m))
    | _ => Ok m
    end.
Fixpoint add_paths (regular gitlinks : gset string) (paths : list string) (m : SyncManifest) : res SyncManifest :=
  match paths with
  | [] => Ok m
  | rel :: paths => m ← add_path regular gitlinks m rel; add_paths regular gitlinks paths m
  end.
Definition empty_manifest : SyncManifest := mkManifest [] false [] [] [] [] [] 0 0 0.
Definition projectSyncManifest (paths : list string) (regular gitlinks : gset string) : res SyncManifest :=
  m ← add_paths regular gitlinks paths empty_manifest;
  Ok (mkManifest (m_seededExtraFiles m) (m_hasSpecialFiles m) (sort_strings (m_Files m)) [] [] []
    (merge_sort (λ a b : string * string, String.le a.1 b.1) (m_ProtectedTrackedExcludes m)) (m_Bytes m) 0 0).

(** [projectSyncDeletedPaths]: the paths, those that were other repositories and
    those that were regular files. *)
Definition projectSyncDeletedPaths (regular : gset string) (worktree : list Z) (cached : list gitCachedDeletion) :
    list string * gset string * gset string :=
  let gone := filter (λ rel, in_scope rel (bool_decide (rel ∈ regular)) = true) (splitNul worktree) in
  let staged := filter (λ d, in_scope (gd_name d) (gitModeIsRegular (gd_preimageMode d)) = true) cached in
  (sort_strings (base.elements (list_to_set (gone ++ (gd_name <$> staged)) : gset string)),
   list_to_set (gd_name <$> filter (λ d, gd_preimageMode d = "160000"%string) staged),
   list_to_set (filter (λ rel, rel ∈ regular) gone ++ (gd_name <$> filter (λ d, gitModeIsRegular (gd_preimageMode d) = true) staged))).
Definition filterDeletedPaths (deleted files : list string) (gitlinks : gset string) : list string :=
  filter (λ rel, rel ∉ gitlinks ∧ rel ∉ files) deleted.

(** [managedSyncScope.filter] *)
Fixpoint managed_filter (paths : list string) : res (list string) :=
  match paths with
  | [] => Ok []
  | rel :: paths => protected ← managed rel; rest ← managed_filter paths; Ok (if protected : bool then rest else rel :: rest)
  end.

(** [changedSyncPaths] and [changedPathSetBytes] *)
Definition changedSyncPaths (regular : gset string) (sets : list (list Z)) : list string :=
  sort_strings (base.elements (list_to_set (filter (λ rel, rel ≠ ""%string ∧ pathExcludedByRules rel rules (bool_decide (rel ∈ regular)) = false ∧ pathIncluded rel includes = true)
    (concat (splitNul <$> sets))) : gset string)).
Definition path_bytes (rel : string) : Z := match lstat (path_Join root rel) with Exists i => if i_dir i then 0 else i_size i | _ => 0 end.
Definition changedPathSetBytes (paths : list string) : list string * Z :=
  let out := filter (λ rel, safeRepoRel rel = true) paths in
  (sort_strings out, foldl (λ n rel, wrap64 (n + path_bytes rel)) 0 out).
Definition overlayPathSetBytes (files changed : list string) : list string * Z :=
  changedPathSetBytes (filter (λ rel, rel ∈ files) changed).

(** [syncManifestFilteredRules], with what git answers. *)
Definition syncManifestFilteredRules (git : git_answers) : res SyncManifest :=
  out ← g_files git;
  tracked ← (match g_tracked git with
             | Err e => Err (Wrap "verify sync manifest scope: %w" (Wrap "list tracked paths: %w" e))
             | Ok tagged => match parseGitTrackedPaths tagged with Err e => Err (Wrap "verify sync manifest scope: %w" e) | Ok t => Ok t end
             end);
  scope ← validatedSyncManifestScope tracked (g_sparse git) (g_sparseRules git);
  m ← projectSyncManifest (splitNul out) scope.1 scope.2;
  worktree ← g_deleted git;
  cached ← (g_cachedDeleted git ≫= parseGitCachedDeletions);
  let '(deleted, deletedGitlinks, deletedRegular) := projectSyncDeletedPaths scope.1 worktree cached in
  deleted ← managed_filter deleted;
  let deleted := filterDeletedPaths deleted (m_Files m) (scope.2 ∪ deletedGitlinks) in
  sets ← parse_all id (g_changed git);
  changed ← managed_filter (changedSyncPaths (scope.1 ∪ deletedRegular) sets);
  let '(changed, changedBytes) := changedPathSetBytes changed in
  let '(overlay, overlayBytes) := overlayPathSetBytes (m_Files m) changed in
  Ok (mkManifest (m_seededExtraFiles m) (m_hasSpecialFiles m) (m_Files m) deleted changed overlay (m_ProtectedTrackedExcludes m)
    (m_Bytes m) changedBytes overlayBytes).
End Manifest.

(** [SyncManifest.NUL] and [DeletedNUL] *)
Definition NUL (paths : list string) : list Z := concat ((λ rel, to_bytes rel ++ [0]) <$> paths).

(** ** Which paths are selected *)

Lemma sorted_strings l : Sorted String.le (sort_strings l) ∧ sort_strings l ≡ₚ l.
Proof. split; [apply Sorted_merge_sort, _|apply merge_sort_Permutation]. Qed.

Lemma elem_of_sort x l : x ∈ sort_strings l ↔ x ∈ l.
Proof. by rewrite (proj2 (sorted_strings l)). Qed.

Section Selection.
Context (root : string) (lstat : string → lstat_answer) (managed : string → res bool).
Context (rules : SyncExcludeRules) (includes : list string).

(** There is something there, and it is not a directory. *)
Definition is_file (rel : string) : Prop := ∃ i, lstat (path_Join root rel) = Exists i ∧ i_dir i = false.
(** What is copied, given the regular tracked paths and the other repositories. *)
Definition selected (regular gitlinks : gset string) (rel : string) : Prop :=
  managed rel = Ok false ∧ rel ∉ gitlinks ∧ in_scope rules includes rel (bool_decide (rel ∈ regular)) = true ∧ is_file rel.

Lemma add_path_spec regular gitlinks m rel m' : add_path root lstat managed rules includes regular gitlinks m rel = Ok m' →
  (NoDup (m_Files m) → NoDup (m_Files m')) ∧ ∀ x, x ∈ m_Files m' ↔ x ∈ m_Files m ∨ (x = rel ∧ selected regular gitlinks rel).
Proof.
  unfold add_path. intros HA. res_steps. unfold selected, in_scope, pathExcludedByRules. set (tr := bool_decide (rel ∈ regular)) in *.
  destruct (pathExcludeDecision rel rules tr) as [excluded pattern] eqn:ED. cbn [fst].
  destruct (_ || _) eqn:EG.
  - injection HA as <-. split; [done|]. intros y. split; [by left|]. intros [Hy|(-> & Hm & Hg & HS & _)]; [done|].
    match goal with H : managed rel = Ok ?p |- _ => rewrite H in Hm; injection Hm as -> end.
    rewrite !andb_true_iff, negb_true_iff in HS. destruct HS as [[HS ->] HI]. rewrite HS, HI in EG.
    rewrite (bool_decide_eq_false_2 _ Hg) in EG. cbn in EG. by apply bool_decide_eq_true in EG.
  - rewrite !orb_false_iff, !negb_false_iff, !bool_decide_eq_false in EG. destruct EG as [[[[[-> Hg] HS] ->] HI] Hn].
    rewrite HS, HI. unfold is_file. destruct (lstat (path_Join root rel)) as [|e|i] eqn:EL.
    1,2: injection HA as <-; split; [done|]; intros y; split; [by left|]; by intros [Hy|(_ & _ & _ & _ & i & [=] & _)].
    destruct (i_dir i) eqn:Ei; injection HA as <-; cbn [m_Files].
    + split; [done|]. intros y. split; [by left|]. intros [Hy|(_ & _ & _ & _ & i' & [= <-] & ?)]; congruence.
    + split; [intros; apply NoDup_app; split_and!; [done|set_solver|apply NoDup_singleton]|]. intros y. rewrite elem_of_app, list_elem_of_singleton.
      split; (intros [Hy|Hy]; [by left|right]); [|by destruct Hy]. split; [done|]. split_and!; [done|done|done|by exists i].
Qed.

Lemma add_paths_spec regular gitlinks paths : ∀ m m', add_paths root lstat managed rules includes regular gitlinks paths m = Ok m' →
  (NoDup (m_Files m) → NoDup (m_Files m')) ∧ ∀ x, x ∈ m_Files m' ↔ x ∈ m_Files m ∨ (x ∈ paths ∧ selected regular gitlinks x).
Proof.
  induction paths as [|rel paths IH]; intros m m' HA; cbn [add_paths] in HA.
  { injection HA as <-. split; [done|]. set_solver. }
  res_steps. match goal with H : add_path _ _ _ _ _ _ _ _ _ = Ok _ |- _ => apply add_path_spec in H as [N1 E1] end.
  apply IH in HA as [N2 E2]. split; [auto|]. intros y. rewrite E2, E1, elem_of_cons. naive_solver.
Qed.
End Selection.

(** The other repositories are the entries in scope with that mode. *)
Lemma gitlink_paths_spec entries : ∀ first paths r, gitlink_paths entries first paths = Ok r →
  (∀ n, first !! n = Some true ↔ n ∈ paths) →
  ∀ n, n ∈ r ↔ n ∈ paths ∨ ∃ e, e ∈ entries ∧ gt_name e = n ∧ is_gitlink e = true.
Proof.
  induction entries as [|e entries IH]; intros first paths r HG HI n; cbn [gitlink_paths] in HG.
  { injection HG as <-. set_solver. }
  destruct (first !! gt_name e) as [link|] eqn:EF.
  - destruct (eqb link (is_gitlink e)) eqn:EQ; [|done]. apply eqb_prop in EQ as ->. rewrite (IH _ _ _ HG HI n). split.
    + intros [?|(e' & ? & ?)]; [by left|right; exists e'; set_solver].
    + intros [?|(e' & [->|He']%elem_of_cons & En & Hl)]; [by left| |right; by exists e']. left. apply HI. by rewrite <-En, EF, Hl.
  - rewrite (IH _ _ _ HG); [|intros k].
    + assert (n ∈ (if is_gitlink e then {[gt_name e]} ∪ paths else paths) ↔ n ∈ paths ∨ (gt_name e = n ∧ is_gitlink e = true)) as ->
        by (destruct (is_gitlink e); set_solver).
      split.
      * intros [[?|[? ?]]|(e' & ? & ? & ?)]; [by left|right; exists e; set_solver|right; exists e'; set_solver].
      * intros [?|(e' & [->|?]%elem_of_cons & ? & ?)]; [by left; left|by left; right|right; by exists e'].
    + destruct (decide (k = gt_name e)) as [->|Hne]; [rewrite lookup_insert_eq|rewrite lookup_insert_ne by done].
      * destruct (is_gitlink e); [set_solver|]. split; [done|]. rewrite <-HI, EF. done.
      * rewrite HI. destruct (is_gitlink e); set_solver.
Qed.

Lemma managed_filter_spec managed paths : ∀ out, managed_filter managed paths = Ok out →
  ∀ rel, rel ∈ out ↔ rel ∈ paths ∧ managed rel = Ok false.
Proof.
  induction paths as [|p paths IH]; intros out HM rel; cbn [managed_filter] in HM; [injection HM as <-; set_solver|]. res_steps.
  match goal with H : managed p = Ok ?b, HF : managed_filter managed paths = Ok _ |- _ => apply IH with (rel := rel) in HF as E; rename H into Hp; destruct b end;
    injection HM as <-; rewrite ?elem_of_cons, E.
  - split; [intros [? ?]; split; [by right|done]|]. intros [[->|?] ?]; [congruence|done].
  - split; [intros [->|[? ?]]; (split; [|done]); [by left|by right]|]. intros [[->|?] ?]; [by left|by right].
Qed.

(** When nothing is reported hidden, every entry that the index hides is there. *)
Lemma hidden_omission_none root lstat sparse entries : hidden_omission root lstat sparse entries = Ok ""%string →
  Forall (λ e, gt_name e ≠ ""%string) entries →
  ∀ e, e ∈ entries → gt_skipWorktree e = true → path_exists lstat root (Split (gt_name e)) = Ok true.
Proof.
  induction entries as [|x entries IH]; intros HH HN e He Hs; [by apply elem_of_nil in He|]. cbn [hidden_omission] in HH.
  apply Forall_cons in HN as [Hx HN]. apply elem_of_cons in He as [->|He].
  - rewrite Hs in HH. destruct sparse as [[included|se]|]; cbn [orb] in HH; destruct (path_exists lstat root _) as [[]|]; try done; by injection HH.
  - destruct sparse as [[included|se]|].
    + destruct (_ || _); [|by apply IH]. destruct (path_exists lstat root (Split (gt_name x))) as [[]|]; [by apply IH| |done]. by injection HH.
    + destruct (path_exists lstat root (Split (gt_name x))) as [[]|]; [by apply IH| |done]. destruct (gt_skipWorktree x); [by injection HH|done].
    + destruct (gt_skipWorktree x); [|by apply IH]. destruct (path_exists lstat root (Split (gt_name x))) as [[]|]; [by apply IH| |done]. by injection HH.
Qed.

(** ** The list as it is sent *)

Lemma split_at_app sep x rest : sep ∉ x → split_at sep (x ++ sep :: rest) = x :: split_at sep rest.
Proof.
  induction x as [|b x IH]; intros Hn; cbn [app split_at]; [by rewrite Z.eqb_refl|]. apply not_elem_of_cons in Hn as [Hb Hn].
  rewrite (proj2 (Z.eqb_neq b sep)) by done. by rewrite IH.
Qed.

Lemma nul_round_trip paths : Forall (λ p, p ≠ ""%string ∧ 0 ∉ to_bytes p) paths → splitNul (NUL paths) = paths.
Proof.
  unfold splitNul, NUL. induction 1 as [|p paths [Hp Hn] _ IH]; [done|]. cbn [fmap list_fmap concat]. rewrite <-app_assoc. cbn [app].
  rewrite split_at_app by done. rewrite filter_cons_True; [|by destruct p]. cbn [fmap list_fmap]. by rewrite of_to_bytes, IH.
Qed.

Lemma split_at_parts sep bs : Forall (λ x, sep ∉ x) (split_at sep bs).
Proof.
  induction bs as [|b bs IH]; cbn [split_at]; [repeat constructor; set_solver|]. destruct (Z.eqb_spec b sep) as [->|Hb].
  - constructor; [set_solver|done].
  - destruct (split_at sep bs) as [|x xs]; [repeat constructor; set_solver|]. apply Forall_cons in IH as [Hx IH]. constructor; [set_solver|done].
Qed.
Lemma split_at_range sep bs : Forall (λ b, is_byte b = true) bs → Forall (Forall (λ b, is_byte b = true)) (split_at sep bs).
Proof.
  induction 1 as [|b bs Hb _ IH]; cbn [split_at]; [repeat constructor|]. destruct (b =? sep); [by constructor|].
  destruct (split_at sep bs) as [|x xs]; [repeat constructor; done|]. apply Forall_cons in IH as [Hx IH]. repeat constructor; done.
Qed.

Lemma splitNul_names data : Forall (λ b, is_byte b = true) data → Forall (λ p, p ≠ ""%string ∧ 0 ∉ to_bytes p) (splitNul data).
Proof.
  intros HR. unfold splitNul. apply Forall_fmap, Forall_forall. intros x [Hne Hin]%list_elem_of_filter. cbn [compose].
  pose proof (split_at_parts 0 data) as HP. pose proof (split_at_range 0 data HR) as HB. rewrite Forall_forall in HP, HB.
  rewrite to_of_bytes by by apply HB. split; [|by apply HP]. intros E. apply (f_equal String.length) in E. rewrite length_of_bytes in E. by destruct x.
Qed.

Lemma safe_nonempty rel : safeRepoRel rel = true → rel ≠ ""%string.
Proof. by intros H ->. Qed.
Lemma in_scope_safe rules includes rel regular : in_scope rules includes rel regular = true → safeRepoRel rel = true.
Proof. unfold in_scope. rewrite !andb_true_iff. naive_solver. Qed.

(** An entry of another repository in scope, by its path. *)
Definition linked rules includes (tracked : list gitTrackedPath) (rel : string) : Prop :=
  ∃ e, e ∈ tracked ∧ gt_name e = rel ∧ is_gitlink e = true ∧ entry_in_scope rules includes e = true.

Lemma scope_spec root lstat rules includes tracked sparse resolve scope :
  validatedSyncManifestScope root lstat rules includes tracked sparse resolve = Ok scope →
  scope.1 = trackedRegularPathSet tracked ∧ (∀ rel, rel ∈ scope.2 ↔ linked rules includes tracked rel) ∧
  ∀ e, e ∈ tracked → is_gitlink e = false → entry_in_scope rules includes e = true → gt_skipWorktree e = true →
    path_exists lstat root (Split (gt_name e)) = Ok true.
Proof.
  unfold validatedSyncManifestScope. destruct (trackedGitlinkPaths _ _) as [links|] eqn:EL; [|done].
  destruct (gitCheckoutHiddenOmissionForTracked _ _ _ _ _ _) as [hidden|] eqn:EH; [|done]. case_bool_decide as Hh; [|done]. subst hidden.
  intros [= <-]. cbn [fst snd]. split_and!; [done| |].
  - intros rel. unfold trackedGitlinkPaths in EL. rewrite (gitlink_paths_spec _ _ _ _ EL) by set_solver. unfold linked. split.
    + intros [?|(e & [? ?]%list_elem_of_filter & ? & ?)]; [set_solver|]. by exists e.
    + intros (e & ? & ? & ? & ?). right. exists e. split; [by apply list_elem_of_filter|done].
  - intros e He Hl Hs Hk. unfold gitCheckoutHiddenOmissionForTracked in EH. set (scoped := filter _ _) in *.
    assert (e ∈ scoped) as Hin by (apply list_elem_of_filter; by rewrite Hl, Hs).
    rewrite bool_decide_eq_false_2 in EH by (intros E; rewrite E in Hin; by apply elem_of_nil in Hin).
    eapply hidden_omission_none; [exact EH| |done|done]. apply Forall_forall. intros x [Hx _]%list_elem_of_filter.
    apply andb_true_iff in Hx as [_ Hx]. by eapply safe_nonempty, in_scope_safe.
Qed.

(** A deletion that is to be passed on: of the working tree or of the index, and
    not of another repository. *)
Definition gone rules includes (tracked : list gitTrackedPath) (worktree : list Z) (cached : list gitCachedDeletion) (rel : string) : Prop :=
  (rel ∈ splitNul worktree ∧ in_scope rules includes rel (bool_decide (rel ∈ trackedRegularPathSet tracked)) = true ∨
   ∃ d, d ∈ cached ∧ gd_name d = rel ∧ in_scope rules includes rel (gitModeIsRegular (gd_preimageMode d)) = true) ∧
  ¬ ∃ d, d ∈ cached ∧ gd_name d = rel ∧ gd_preimageMode d = "160000"%string ∧ in_scope rules includes rel false = true.

Lemma deleted_spec rules includes tracked worktree cached deleted links regular :
  projectSyncDeletedPaths rules includes (trackedRegularPathSet tracked) worktree cached = (deleted, links, regular) →
  ∀ rel, (rel ∈ deleted ∧ rel ∉ links) ↔ gone rules includes tracked worktree cached rel.
Proof.
  unfold projectSyncDeletedPaths. intros [= <- <- _] rel. unfold gone. 
  rewrite elem_of_sort, elem_of_elements, elem_of_list_to_set, elem_of_app, list_elem_of_filter, list_elem_of_fmap.
  rewrite elem_of_list_to_set, list_elem_of_fmap. setoid_rewrite list_elem_of_filter. split; (intros [H1 H2]; split).
  - destruct H1 as [[? ?]|(d & -> & ? & ?)]; [by left|right; by exists d].
  - intros (d & Hd & <- & Hm & Hs). apply H2. exists d. split; [done|]. split; [done|]. apply list_elem_of_filter. split; [|done]. by rewrite Hm.
  - destruct H1 as [[? ?]|(d & ? & <- & ?)]; [by left|right; by exists d].
  - intros (d & -> & Hm & [Hs Hd]%list_elem_of_filter). apply H2. exists d. split_and!; [done|done|done|]. by rewrite Hm in Hs.
Qed.

Lemma deleted_scope rules includes regular worktree cached deleted links regular' :
  projectSyncDeletedPaths rules includes regular worktree cached = (deleted, links, regular') →
  ∀ rel, rel ∈ deleted → ∃ t, in_scope rules includes rel t = true.
Proof.
  unfold projectSyncDeletedPaths. intros [= <- _ _] rel. 
  rewrite elem_of_sort, elem_of_elements, elem_of_list_to_set, elem_of_app, list_elem_of_filter, list_elem_of_fmap.
  intros [[? _]|(d & -> & [? _]%list_elem_of_filter)]; eauto.
Qed.

(** What a manifest was made of. *)
Lemma manifest_parts root lstat managed rules includes git m :
  syncManifestFilteredRules root lstat managed rules includes git = Ok m →
  ∃ out tagged tracked scope files worktree raw cached deleted links regular left sets changed,
    (g_files git = Ok out ∧ g_tracked git = Ok tagged ∧ parseGitTrackedPaths tagged = Ok tracked ∧
     g_deleted git = Ok worktree ∧ g_cachedDeleted git = Ok raw ∧ parseGitCachedDeletions raw = Ok cached) ∧
    validatedSyncManifestScope root lstat rules includes tracked (g_sparse git) (g_sparseRules git) = Ok scope ∧
    add_paths root lstat managed rules includes scope.1 scope.2 (splitNul out) empty_manifest = Ok files ∧
    projectSyncDeletedPaths rules includes scope.1 worktree cached = (deleted, links, regular) ∧
    managed_filter managed deleted = Ok left ∧ managed_filter managed (changedSyncPaths rules includes (scope.1 ∪ regular) sets) = Ok changed ∧
    m_Files m = sort_strings (m_Files files) ∧ m_Deleted m = filterDeletedPaths left (m_Files m) (scope.2 ∪ links) ∧
    m_Changed m = (changedPathSetBytes root lstat changed).1 ∧ m_OverlayFiles m = (overlayPathSetBytes root lstat (m_Files m) (m_Changed m)).1.
Proof.
  unfold syncManifestFilteredRules, projectSyncManifest. intros HM. apply res_bind_ok in HM as (out & Hout & HM).
  apply res_bind_ok in HM as (tracked & HT & HM). destruct (g_tracked git) as [tagged|] eqn:ET; [|done].
  destruct (parseGitTrackedPaths tagged) as [tracked'|] eqn:EP; [|done]. injection HT as ->.
  apply res_bind_ok in HM as (scope & HS & HM). apply res_bind_ok in HM as (files' & HF & HM). apply res_bind_ok in HF as (files & HF & [= <-]).
  apply res_bind_ok in HM as (worktree & HW & HM). apply res_bind_ok in HM as (cached & HC & HM). apply res_bind_ok in HC as (raw & HR & HC).
  destruct (projectSyncDeletedPaths _ _ _ _ _) as [[deleted links] regular] eqn:ED. apply res_bind_ok in HM as (left & HL & HM).
  apply res_bind_ok in HM as (sets & _ & HM). apply res_bind_ok in HM as (changed & HG & HM).
  destruct (changedPathSetBytes _ _ changed) as [ch cb] eqn:EC. destruct (overlayPathSetBytes _ _ _ ch) as [ov ob] eqn:EO.
  injection HM as <-. exists out, tagged, tracked, scope, files, worktree, raw, cached, deleted, links, regular, left, sets, changed.
  cbn [m_Files m_Deleted m_Changed m_OverlayFiles] in *. rewrite EC. cbn [fst]. by rewrite EO.
Qed.

(** C24. The manifest is exactly what the rules select.  When a manifest is made:
    its files, sorted and without repetition, are the paths that git lists, that
    the rules have in scope, that exist and are not directories, and that are
    neither another repository nor local state of this program; the list that
    is sent reads back as these files.  What is to be deleted on the lease is
    what git reports as gone, in scope, and nothing that is a file of the
    manifest or another repository.  And no tracked path in scope is missing
    unnoticed because the index hides it. *)
Theorem manifest_exact root lstat managed rules includes git m :
  syncManifestFilteredRules root lstat managed rules includes git = Ok m →
  (∀ out, g_files git = Ok out → Forall (λ b, is_byte b = true) out) →
  ∃ out tagged tracked worktree raw cached, g_files git = Ok out ∧ g_tracked git = Ok tagged ∧ parseGitTrackedPaths tagged = Ok tracked ∧
    g_deleted git = Ok worktree ∧ g_cachedDeleted git = Ok raw ∧ parseGitCachedDeletions raw = Ok cached ∧
    Sorted String.le (m_Files m) ∧ NoDup (m_Files m) ∧ splitNul (NUL (m_Files m)) = m_Files m ∧
    (∀ rel, rel ∈ m_Files m ↔ rel ∈ splitNul out ∧ managed rel = Ok false ∧ ¬ linked rules includes tracked rel ∧
      in_scope rules includes rel (bool_decide (rel ∈ trackedRegularPathSet tracked)) = true ∧ is_file root lstat rel) ∧
    (∀ rel, rel ∈ m_Deleted m ↔ managed rel = Ok false ∧ rel ∉ m_Files m ∧ ¬ linked rules includes tracked rel ∧
      gone rules includes tracked worktree cached rel) ∧
    (∀ e, e ∈ tracked → is_gitlink e = false → entry_in_scope rules includes e = true → gt_skipWorktree e = true →
      path_exists lstat root (Split (gt_name e)) = Ok true).
Proof.
  intros HM HB. destruct (manifest_parts _ _ _ _ _ _ _ HM) as (out & tagged & tracked & scope & files & worktree & raw & cached & deleted & links &
    regular & left & sets & changed & (HO & HT & HP & HW & HR & HC) & HS & HF & HD & HL & _ & EF & ED & _).
  exists out, tagged, tracked, worktree, raw, cached. destruct (scope_spec _ _ _ _ _ _ _ _ HS) as (E1 & E2 & EH). rewrite E1 in *.
  destruct (add_paths_spec _ _ _ _ _ _ _ _ _ _ HF) as [HN HE]. destruct (sorted_strings (m_Files files)) as [SS SP]. rewrite <-EF in SS, SP.
  assert (∀ rel, rel ∈ m_Files m ↔ rel ∈ splitNul out ∧ selected root lstat managed rules includes (trackedRegularPathSet tracked) scope.2 rel) as HX.
  { intros rel. rewrite SP, HE. split; [intros [[]%elem_of_nil|?]; done|by right]. }
  split_and!; try done.
  - rewrite SP. apply HN, NoDup_nil_2.
  - apply nul_round_trip, Forall_forall. intros rel Hr%HX. pose proof (splitNul_names out (HB _ HO)) as HQ. rewrite Forall_forall in HQ. apply HQ, Hr.
  - intros rel. rewrite HX. unfold selected. rewrite E2. clear. tauto.
  - intros rel. rewrite ED. unfold filterDeletedPaths. rewrite list_elem_of_filter, not_elem_of_union, E2, (managed_filter_spec _ _ _ HL).
    pose proof (deleted_spec _ _ _ _ _ _ _ _ HD rel) as HG. clear -HG. tauto.
Qed.

(** Nothing that is sent leaves the tree or its rules.  Under the rules of a
    repository, whatever is configured: every path of every list of a manifest
    (files, deletions, changes, overlay) is a relative path of ordinary names,
    so that it names something below the root on either side; none is at or
    below a protected path, and none is local state. *)
Lemma manifest_within root lstat managed base excludes subtree file r0 sub includes git m :
  syncExcludes base excludes subtree file = Ok r0 →
  syncManifestFilteredRules root lstat managed (mkRules (sr_rules r0) sub) includes git = Ok m →
  ∀ rel, rel ∈ m_Files m ++ m_Deleted m ++ m_Changed m ++ m_OverlayFiles m →
  proper rel ∧ under_protected rel = false ∧ managed rel = Ok false ∧ pathIncluded rel includes = true.
Proof.
  intros HS HM. set (rules := mkRules (sr_rules r0) sub) in *.
  destruct (manifest_parts _ _ _ _ _ _ _ HM) as (out & tagged & tracked & scope & files & worktree & raw & cached & deleted & links &
    regular & left & sets & changed & _ & _ & HF & HD & HL & HG & EF & ED & EC & EO).
  assert (∀ rel t, pathExcludedByRules rel rules t = false → under_protected rel = false) as HU.
  { intros rel t HE. destruct (under_protected rel) eqn:E; [|done]. unfold rules in HE. by rewrite (protected_excluded _ _ _ _ _ _ _ _ HS E) in HE. }
  assert (∀ rel t, in_scope rules includes rel t = true → proper rel ∧ under_protected rel = false ∧ pathIncluded rel includes = true) as HI.
  { intros rel t. unfold in_scope. rewrite !andb_true_iff, negb_true_iff. intros [[H1 H2] H3]. split_and!; [by apply safe_proper|by eapply HU|done]. }
  assert (∀ rel, rel ∈ m_Files m → managed rel = Ok false ∧ ∃ t, in_scope rules includes rel t = true) as H1.
  { intros rel. rewrite EF, elem_of_sort. rewrite (proj2 (add_paths_spec _ _ _ _ _ _ _ _ _ _ HF)).
    intros [[]%elem_of_nil|[_ (? & _ & ? & _)]]. eauto. }
  assert (∀ rel, rel ∈ m_Changed m → managed rel = Ok false ∧ proper rel ∧ under_protected rel = false ∧ pathIncluded rel includes = true) as H2.
  { intros rel. rewrite EC. unfold changedPathSetBytes. cbn [fst]. rewrite elem_of_sort.
    intros [Hs Hc]%list_elem_of_filter. apply (managed_filter_spec _ _ _ HG) in Hc as [Hc Hm]. split; [done|]. split; [by apply safe_proper|].
    unfold changedSyncPaths in Hc.
    rewrite elem_of_sort, elem_of_elements, elem_of_list_to_set, list_elem_of_filter in Hc. destruct Hc as [(_ & He & Hi) _]. split; [by eapply HU|done]. }
  intros rel. rewrite !elem_of_app. intros [Hr|[Hr|[Hr|Hr]]].
  - destruct (H1 _ Hr) as [? [t Ht]]. destruct (HI _ _ Ht) as (? & ? & ?). done.
  - rewrite ED in Hr. apply list_elem_of_filter in Hr as [_ Hr]. apply (managed_filter_spec _ _ _ HL) in Hr as [Hr Hm].
    destruct (deleted_scope _ _ _ _ _ _ _ _ HD _ Hr) as [t Ht]. destruct (HI _ _ Ht) as (? & ? & ?). done.
  - destruct (H2 _ Hr) as (? & ? & ? & ?). done.
  - rewrite EO in Hr. unfold overlayPathSetBytes, changedPathSetBytes in Hr. cbn [fst] in Hr.
    rewrite elem_of_sort in Hr.
    apply list_elem_of_filter in Hr as [_ Hr]. apply list_elem_of_filter in Hr as [_ Hr]. destruct (H2 _ Hr) as (? & ? & ? & ?). done.
Qed.

(** ** Limits on what is sent *)

Record syncLimits := mkLimits { WarnFiles : Z; WarnBytes : Z; FailFiles : Z; FailBytes : Z; AllowLarge : bool }.
Record syncGuardrailReason := mkReason { gr_Status : string; gr_Metric : string; gr_Actual : Z; gr_Limit : Z }.

(** Only the changes count where there are any. *)
Definition syncGuardrailScope (m : SyncManifest) : Z * Z :=
  if bool_decide (m_Changed m = []) then (zlen (m_Files m), m_Bytes m) else (zlen (m_Changed m), m_ChangedBytes m).

(** [evaluateSyncGuardrail]: the reasons, in order. *)
Definition evaluateSyncGuardrail (limits : syncLimits) (force : bool) (m : SyncManifest) : list syncGuardrailReason :=
  let '(count, bytes) := syncGuardrailScope m in
  let reason status metric actual limit := if (0 <? limit) && (limit <=? actual) then [mkReason status metric actual limit] else [] in
  (if force || AllowLarge limits then []
   else reason "failed"%string "files"%string count (FailFiles limits) ++ reason "failed"%string "bytes"%string bytes (FailBytes limits)) ++
  reason "warning"%string "files"%string count (WarnFiles limits) ++ reason "warning"%string "bytes"%string bytes (WarnBytes limits).

(** [checkSyncPreflight], without what it prints. *)
Definition checkSyncPreflight (limits : syncLimits) (force : bool) (m : SyncManifest) : option error :=
  match filter (λ r, gr_Status r = "failed"%string) (evaluateSyncGuardrail limits force m) with
  | [] => None
  | r :: _ => Some (Exit 6 (if bool_decide (gr_Metric r = "files"%string) then "sync %s too large: %d files >= limit %d; use --force-sync-large or CRABBOX_SYNC_ALLOW_LARGE=1"
                            else "sync %s too large: %s >= limit %s; use --force-sync-large or CRABBOX_SYNC_ALLOW_LARGE=1"))
  end.

(** A transfer that reaches a limit is refused unless large ones are allowed, and
    nothing else is. *)
Lemma preflight_limits limits force m : checkSyncPreflight limits force m = None ↔
  force = true ∨ AllowLarge limits = true ∨
  ¬ (0 < FailFiles limits ≤ (syncGuardrailScope m).1) ∧ ¬ (0 < FailBytes limits ≤ (syncGuardrailScope m).2).
Proof.
  unfold checkSyncPreflight, evaluateSyncGuardrail. destruct (syncGuardrailScope m) as [count bytes]. cbn [fst snd].
  assert (∀ metric actual limit, filter (λ r, gr_Status r = "failed"%string) (if (0 <? limit) && (limit <=? actual) then [mkReason "warning" metric actual limit] else []) = []) as HW
    by (intros; by destruct (_ && _)).
  rewrite !filter_app, !HW, !app_nil_r. destruct force; [cbn; split; [by left|done]|]. destruct (AllowLarge limits); [cbn; split; [by right; left|done]|].
  cbn [orb]. rewrite !filter_app. destruct ((0 <? FailFiles limits) && _) eqn:E1; [|destruct ((0 <? FailBytes limits) && _) eqn:E2]; cbn.
  - split; [done|]. intros [?|[?|[H _]]]; [done|done|]. exfalso. apply H. lia.
  - split; [done|]. intros [?|[?|[_ H]]]; [done|done|]. exfalso. apply H. lia.
  - split; [|done]. intros _. right. right. split; lia.
Qed.

(** ** A small repository *)

Definition sample_lstat (path : string) : lstat_answer :=
  if bool_decide (path ∈ ["/r/a.go"; "/r/dist/keep"; "/r/.crabbox/env/x"]%string) then Exists (mkInfo false true false false 0x1a4 3) else NotExist.
Definition sample_git : git_answers :=
  mkGit (Ok (NUL ["a.go"; "dist/keep"; ".crabbox/env/x"; "../up"; "gone"]%string))
    (Ok (NUL ["H 100644 1111 0" +:+ String (ascii_of 9) "dist/keep"; "H 160000 1111 0" +:+ String (ascii_of 9) "vendor"]%string)) false (λ _, Ok ∅)
    (Ok (NUL ["gone"]%string)) (Ok []) [Ok (NUL ["a.go"]%string)].
Definition sample_rules : SyncExcludeRules :=
  match syncExcludes "/r" [] (Ok ""%string) (Ok None) with Ok r => r | Err _ => mkRules [] "" end.
Definition sample_manifest : SyncManifest :=
  match syncManifestFilteredRules "/r" sample_lstat (λ _, Ok false) sample_rules [] sample_git with Ok m => m | Err _ => empty_manifest end.
Lemma sample_made : syncManifestFilteredRules "/r" sample_lstat (λ _, Ok false) sample_rules [] sample_git = Ok sample_manifest.
Proof. vm_compute. reflexivity. Qed.

Example sample_lists : (m_Files sample_manifest, m_Deleted sample_manifest, m_Changed sample_manifest) = (["a.go"; "dist/keep"], ["gone"], ["a.go"])%string.
Proof. vm_compute. reflexivity. Qed.

Lemma manifest_exact_witness : (∀ out, g_files sample_git = Ok out → Forall (λ b, is_byte b = true) out) ∧
  ∃ out tracked, g_files sample_git = Ok out ∧ NoDup (m_Files sample_manifest) ∧
  "dist/keep"%string ∈ splitNul out ∧ in_scope sample_rules [] "dist/keep" (bool_decide ("dist/keep"%string ∈ trackedRegularPathSet tracked)) = true.
Proof.
  assert (∀ out, g_files sample_git = Ok out → Forall (λ b, is_byte b = true) out) as HB.
  { intros out [= <-]. vm_compute. repeat constructor. }
  split; [exact HB|]. destruct (manifest_exact _ _ _ _ _ _ _ sample_made HB) as (out & tagged & tracked & worktree & raw & cached & H1 & _ & _ & _ & _ & _ & _ & H2 & _ & H3 & _).
  exists out, tracked. destruct (proj1 (H3 "dist/keep"%string)) as (H4 & _ & _ & H5 & _); [vm_compute; right; left|]. by split_and!.
Defined.
