(* ===== verification/ManagedSync.v ===== *)
(** * Keeping this program's own state out of a transfer ([cli/managed_state_sync.go])

    The state of managed leases may lie below the tree that is synchronised, or be
    reached from it through links.  The names of a manifest are therefore resolved
    as the file system resolves them, the last one excepted, and compared with the
    place of that state.  The POSIX side is modelled.  The file system and the
    environment are parameters, the same throughout one listing. *)

From Stdlib Require Import ZArith Lia.
From stdpp Require Import gmap strings prelude.
From S2P Require Import Prelude GoText GoPath GoGlob SyncRules SyncManifest.
Local Open Scope crab_scope.

(** ** Paths *)

(** [filepath.Rel]; every caller here passes absolute paths, whose cleaned form
    has no [..]. *)
Fixpoint strip_common (xs ys : list string) : list string * list string :=
  match xs, ys with
  | x :: xs', y :: ys' => if x =s y then strip_common xs' ys' else (xs, ys)
  | _, _ => (xs, ys)
  end.
Definition Rel (base targ : string) : option string :=
  if Clean base =s Clean targ then Some "."
  else if negb (IsAbs base && IsAbs targ) then None
  else
    let '(up, down) := strip_common (components base) (components targ) in
    Some (join_slash (replicate (length up) ".." ++ down)%list).

Definition managedPathContains (root path : string) : bool :=
  match Rel root path with
  | None => false
  | Some rel => (rel <>s "..") && negb (HasPrefix rel "../") && negb (IsAbs rel) && (path_Join root rel =s Clean path)
  end.

(** ** Resolution *)

(** A name can have a regular file above it. *)
Definition ENOTDIR : error := Msg "not a directory".
Definition ENOENT : error := Msg "no such file or directory".
Definition lstat_error (a : lstat_answer) : option error :=
  match a with NotExist => Some ENOENT | StatError e => Some e | Exists _ => None end.
Definition managedTransferPathAbsent (a : lstat_answer) : bool :=
  match a with NotExist => true | StatError e => bool_decide (e = ENOTDIR) | Exists _ => false end.

(** What [os.Stat] tells apart: an entry by its identity and time. *)
Inductive stat_answer := Absent | Failed (e : error) | Found (id mtime : Z).

Section Managed.
Context (lstat : string → lstat_answer) (stat : string → stat_answer) (EvalSymlinks : string → res string).
(** [XDG_STATE_HOME] *)
Context (state_home : string).

(** [normalizeManagedTransferPath], as many calls deep as are allowed. *)
Fixpoint normalizeManagedTransferPath (depth : nat) (path : string) : res string :=
  match depth with
  | O => Err (Msg "managed-state transfer path exceeds metadata depth limit")
  | S depth =>
      let info := lstat path in
      match (if managedTransferPathAbsent info then None else lstat_error info) with
      | Some e => Err e
      | None =>
          if Dir path =s path then match lstat_error info with Some e => Err e | None => Ok path end
          else if match info with Exists i => i_symlink i | _ => false end then
            resolved ← EvalSymlinks path; normalizeManagedTransferPath depth resolved
          else parent ← normalizeManagedTransferPath depth (Dir path); Ok (path_Join parent (Base path))
      end
  end.
Definition NormalizeManagedStateTransferRoot (root : string) : res string :=
  reject_if (negb (IsAbs root)) (Msg "managed-state transfer scope must be absolute");;
  reject_if (bool_decide (".." ∈ Split root)) (Msg "managed-state transfer scope contains ambiguous parent traversal");;
  normalizeManagedTransferPath 129 (Clean root).

Definition selectedManagedStateNamespace : res string :=
  if state_home =s "" then Ok "" else NormalizeManagedStateTransferRoot (path_Join state_home "crabbox").
Definition managedTransferRoots (source : string) : res (string * string) :=
  managed ← selectedManagedStateNamespace;
  if managed =s "" then Ok ("", "")
  else source ← NormalizeManagedStateTransferRoot source; Ok (source, managed).

Definition managedStateSyncSubtree (root : string) : res string :=
  roots ← managedTransferRoots root;
  let '(source, managed) := roots in
  if managed =s "" then Ok ""
  else if managedPathContains managed source then Err (Exit 6 "sync source is inside the selected managed state namespace")
  else if negb (managedPathContains source managed) then Ok ""
  else match Rel source managed with Some rel => Ok rel | None => Err (Msg "Rel: can't make %s relative to %s") end.

Record managedSyncScope := mkManaged { ms_input : string; ms_source : string; ms_namespace : string }.
Definition newManagedSyncScope (root : string) : res managedSyncScope :=
  roots ← managedTransferRoots root;
  let '(source, namespace) := roots in
  if (namespace <>s "") && managedPathContains namespace source then Err (Exit 6 "sync source is inside the selected managed state namespace")
  else Ok (mkManaged root source namespace).

(** [managedSyncScope.contains], with the resolved parents remembered. *)
Definition cached_contains (scope : managedSyncScope) (parents : gmap string (string * (Z * Z))) (rel : string) : res (bool * gmap string (string * (Z * Z))) :=
  if ms_namespace scope =s "" then Ok (false, parents)
  else if negb (safeRepoRel rel) then Ok (false, parents)
  else
    let full := path_Join (ms_input scope) rel in
    if managedPathContains (ms_namespace scope) full then Ok (true, parents)
    else
      let parent := Dir full in
      let answer path parents := Ok (managedPathContains (ms_namespace scope) (path_Join path (Base full)), parents) in
      match stat parent with
      | Failed e => Err e
      | Absent => resolved ← NormalizeManagedStateTransferRoot parent; answer resolved parents
      | Found id mtime =>
          match parents !! parent with
          | Some (path, (id', mtime')) =>
              if (id =? id')%Z && (mtime =? mtime')%Z then answer path parents
              else resolved ← NormalizeManagedStateTransferRoot parent; answer resolved (<[parent := (resolved, (id, mtime))]> parents)
          | None => resolved ← NormalizeManagedStateTransferRoot parent; answer resolved (<[parent := (resolved, (id, mtime))]> parents)
          end
      end.

(** The same without the cache. *)
Definition contains (scope : managedSyncScope) (rel : string) : res bool :=
  if (ms_namespace scope =s "") || negb (safeRepoRel rel) then Ok false
  else
    let full := path_Join (ms_input scope) rel in
    if managedPathContains (ms_namespace scope) full then Ok true
    else
      match stat (Dir full) with
      | Failed e => Err e
      | _ => resolved ← NormalizeManagedStateTransferRoot (Dir full); Ok (managedPathContains (ms_namespace scope) (path_Join resolved (Base full)))
      end.

(** [prepareSyncManifestRoot] *)
Definition prepareSyncManifestRoot (root : string) (excludes : SyncExcludeRules) : res (managedSyncScope * SyncExcludeRules) :=
  scope ← newManagedSyncScope root;
  if (ms_namespace scope <>s "") && managedPathContains (ms_source scope) (ms_namespace scope) then
    match Rel (ms_source scope) (ms_namespace scope) with
    | Some rel => Ok (scope, mkRules (sr_rules excludes) rel)
    | None => Err (Msg "Rel: can't make %s relative to %s")
    end
  else Ok (scope, excludes).

(** [BuildSyncManifestFiltered]: the whole listing. *)
Definition BuildSyncManifestFiltered (root : string) (excludes : SyncExcludeRules) (includes : list string) (git : git_answers) : res SyncManifest :=
  prepared ← prepareSyncManifestRoot root excludes;
  syncManifestFilteredRules root lstat (contains prepared.1) prepared.2 includes git.
End Managed.

(** ** Containment *)

Lemma strip_common_spec xs : ∀ ys up down, strip_common xs ys = (up, down) → ∃ c, xs = (c ++ up)%list ∧ ys = (c ++ down)%list ∧ (xs `prefix_of` ys ↔ up = []).
Proof.
  induction xs as [|x xs IH]; intros ys up down E.
  { exists []. injection E as <- <-. split_and!; [done|done|]. split; [done|]. intros _. apply prefix_nil. }
  destruct ys as [|y ys]; cbn [strip_common] in E.
  { exists []. injection E as <- <-. split_and!; [done|done|]. split; [|done]. intros H. by apply prefix_nil_inv in H. }
  destruct (decide (x = y)) as [->|Hne].
  - rewrite bool_decide_eq_true_2 in E by done. destruct (IH _ _ _ E) as (c & -> & -> & HP). exists (y :: c). split_and!; [done|done|].
    rewrite <-HP. split; [apply prefix_cons_inv_2|apply prefix_cons].
  - rewrite bool_decide_eq_false_2 in E by done. injection E as <- <-. exists []. split_and!; [done|done|]. split; [|done].
    intros H. by apply prefix_cons_inv_1 in H.
Qed.

Lemma components_plain s : Forall plain (components s).
Proof. apply elements_proper. by left. Qed.
Lemma Join_dot a : IsAbs a = true → path_Join a "." = Clean a.
Proof.
  intros Ha. unfold path_Join. rewrite bool_decide_eq_false_2 by (by intros ->). rewrite !Clean_abs by (done || by apply IsAbs_app).
  unfold components, elements. rewrite Split_slash, foldl_app. done.
Qed.

(** Containment is being above, component by component. *)
Lemma contains_iff root path : IsAbs root = true → IsAbs path = true →
  managedPathContains root path = true ↔ components root `prefix_of` components path.
Proof.
  intros Hr Hp. unfold managedPathContains, Rel. destruct (decide (Clean root = Clean path)) as [E|E].
  { rewrite bool_decide_eq_true_2 by done. rewrite Join_dot, E by done. assert (components root = components path) as -> by (by rewrite <-(components_Clean root), E, components_Clean).
    split; [done|]. intros _. rewrite (bool_decide_eq_true_2 (Clean path = Clean path)) by done. reflexivity. }
  rewrite bool_decide_eq_false_2, Hr, Hp by done. cbn [andb negb]. destruct (strip_common _ _) as [up down] eqn:ES.
  destruct (strip_common_spec _ _ _ _ ES) as (c & E1 & E2 & HP). rewrite HP.
  pose proof (components_plain path) as HF. rewrite E2, Forall_app in HF. destruct HF as [_ HF]. destruct up as [|u up].
  - split; [done|]. intros _. cbn [length replicate app]. rewrite app_nil_r in E1. assert (down ≠ []) as Hd.
    { intros ->. rewrite app_nil_r in E2. apply E. by rewrite !Clean_abs, E1, E2. }
    destruct (plain_stays down Hd HF) as [H1 H2]. destruct (join_relative down "" Hd HF) as [H3 _]. rewrite append_empty in H3.
    pose proof (plain_Split down Hd HF) as HS. rewrite H2, H3, Join_absolute, HS, Clean_abs, E1, E2 by (done || by rewrite HS).
    rewrite (bool_decide_eq_true_2 (_ = "/" +:+ _)) by done. by rewrite bool_decide_eq_false_2 by (apply H1; set_solver).
  - split; [|done]. cbn [length replicate app]. destruct ((replicate (length up) ".." ++ down)%list) as [|x l] eqn:EL; [done|].
    rewrite join_cons by done. change (".." +:+ "/" +:+ join_slash (x :: l)) with ("../" +:+ join_slash (x :: l)). rewrite prefix_app. by rewrite andb_false_r.
Qed.

(** ** Resolution gives absolute paths *)

Lemma Clean_IsAbs s : IsAbs s = true → IsAbs (Clean s) = true.
Proof. intros H. rewrite Clean_abs by done. apply prefix_app. Qed.
Lemma Join_IsAbs a b : IsAbs a = true → IsAbs (path_Join a b) = true.
Proof. intros H. unfold path_Join. rewrite bool_decide_eq_false_2 by (by intros ->). by apply Clean_IsAbs, IsAbs_app. Qed.
Lemma Dir_IsAbs s : IsAbs s = true → IsAbs (Dir s) = true.
Proof.
  intros [t ->]%prefix_split. unfold Dir. change ("/" +:+ t) with ("" +:+ "/" +:+ t). rewrite Split_slash.
  change (Split "" ++ Split t)%list with ("" :: Split t). pose proof (Split_nonempty t) as Ht. destruct (Split t) as [|x l] eqn:E; [done|].
  change (removelast ("" :: x :: l)) with ("" :: removelast (x :: l)). rewrite bool_decide_eq_false_2 by done. apply Clean_IsAbs.
  destruct (removelast (x :: l)) as [|y l'] eqn:E'; [done|]. rewrite join_cons by done. apply IsAbs_app.
  change (IsAbs ("/" +:+ join_slash (y :: l')) = true). apply prefix_app.
Qed.

(** [filepath.EvalSymlinks]: what an absolute path leads to has an absolute path. *)
Class ResolutionLaws (EvalSymlinks : string → res string) : Prop :=
  resolved_absolute p q : IsAbs p = true → EvalSymlinks p = Ok q → IsAbs q = true.

Section Confinement.
Context (lstat : string → lstat_answer) (stat : string → stat_answer) (EvalSymlinks : string → res string) `{!ResolutionLaws EvalSymlinks}.
Context (state_home : string).
Local Notation normalize := (NormalizeManagedStateTransferRoot lstat EvalSymlinks).
Local Notation namespace := (selectedManagedStateNamespace lstat EvalSymlinks state_home).
Local Notation contains := (contains lstat stat EvalSymlinks).
Local Notation cached_contains := (cached_contains lstat stat EvalSymlinks).
Local Notation build := (BuildSyncManifestFiltered lstat stat EvalSymlinks state_home).

Lemma normalized_absolute depth : ∀ path q, IsAbs path = true → normalizeManagedTransferPath lstat EvalSymlinks depth path = Ok q → IsAbs q = true.
Proof.
  induction depth as [|depth IH]; intros path q Ha HN; cbn [normalizeManagedTransferPath] in HN; [done|].
  destruct (if managedTransferPathAbsent (lstat path) then _ else _) as [e|]; [done|].
  case_bool_decide; [destruct (lstat_error (lstat path)); [done|by injection HN as <-]|].
  destruct (match lstat path with Exists i => i_symlink i | _ => false end).
  - apply res_bind_ok in HN as (r & HR & HN). eapply IH; [|exact HN]. by eapply resolved_absolute.
  - apply res_bind_ok in HN as (p & HP & [= <-]). apply Join_IsAbs. eapply IH; [|exact HP]. by apply Dir_IsAbs.
Qed.
Lemma root_absolute path q : normalize path = Ok q → IsAbs path = true ∧ IsAbs q = true.
Proof.
  unfold NormalizeManagedStateTransferRoot. intros HN. apply res_bind_ok in HN as (u & HA & HN). apply res_bind_ok in HN as (u' & _ & HN).
  apply reject_if_ok, negb_false_iff in HA. split; [done|]. eapply normalized_absolute; [|exact HN]. by apply Clean_IsAbs.
Qed.

(** *** The cache changes no answer *)

Definition coherent (parents : gmap string (string * (Z * Z))) : Prop := ∀ parent path id, parents !! parent = Some (path, id) → normalize parent = Ok path.

Lemma cache_transparent scope parents rel : coherent parents →
  match cached_contains scope parents rel with
  | Ok (b, parents') => contains scope rel = Ok b ∧ coherent parents'
  | Err e => contains scope rel = Err e
  end.
Proof.
  intros HC. unfold ManagedSync.cached_contains, ManagedSync.contains. destruct (ms_namespace scope =s ""); [done|]. destruct (negb (safeRepoRel rel)); [done|]. cbn [orb].
  set (full := path_Join _ _). destruct (managedPathContains _ full); [done|].
  assert (∀ id mtime, match (resolved ← normalize (Dir full); Ok (managedPathContains (ms_namespace scope) (path_Join resolved (Base full)), <[Dir full:=(resolved, (id, mtime))]> parents)) with
    | Ok (b, parents') => (resolved ← normalize (Dir full); Ok (managedPathContains (ms_namespace scope) (path_Join resolved (Base full)))) = Ok b ∧ coherent parents'
    | Err e => (resolved ← normalize (Dir full); Ok (managedPathContains (ms_namespace scope) (path_Join resolved (Base full)))) = Err e end) as HX.
  { intros id mtime. destruct (normalize (Dir full)) as [p|e] eqn:EN; [|done]. cbn. split; [done|]. intros parent path x. rewrite lookup_insert_Some.
    intros [[<- [= <- <-]]|[_ H]]; [done|by eapply HC]. }
  destruct (stat (Dir full)) as [|e|id mtime]; [by destruct (normalize (Dir full))|done|].
  destruct (parents !! Dir full) as [[path [id' mtime']]|] eqn:EP; [|apply HX]. destruct (_ && _); [|apply HX].
  split; [|done]. by rewrite (HC _ _ _ EP).
Qed.

(** *** What is outside *)

(** A path is outside the namespace as it is spelled, and also once its directory
    is resolved through links; its last name is not followed. *)
Definition leads_outside (root ns rel : string) : Prop :=
  let full := path_Join root rel in
  ¬ components ns `prefix_of` components full ∧
  ∃ parent, normalize (Dir full) = Ok parent ∧ ¬ components ns `prefix_of` components (path_Join parent (Base full)).

Lemma proper_safe rel : proper rel → safeRepoRel rel = true.
Proof.
  intros Hp. unfold safeRepoRel. rewrite !andb_true_iff, !negb_true_iff, forallb_forall. unfold proper in Hp. split_and!.
  - apply bool_decide_eq_false. by intros ->; apply Forall_cons in Hp as [[? _] _].
  - destruct (HasPrefix rel "/") eqn:E; [|done]. apply prefix_split in E as [t ->]. change ("/" +:+ t) with ("" +:+ "/" +:+ t) in Hp.
    rewrite Split_slash in Hp. by apply Forall_cons in Hp as [[? _] _].
  - intros x Hx%list_elem_of_In. rewrite Forall_forall in Hp. destruct (Hp x Hx) as (? & ? & ? & _). by rewrite !bool_decide_eq_false_2.
Qed.
Lemma contains_outside scope rel : IsAbs (ms_input scope) = true → IsAbs (ms_namespace scope) = true → safeRepoRel rel = true →
  contains scope rel = Ok false → leads_outside (ms_input scope) (ms_namespace scope) rel.
Proof.
  intros Hi Hn Hs. unfold ManagedSync.contains, leads_outside. rewrite Hs. rewrite bool_decide_eq_false_2 by (by intros E; rewrite E in Hn). cbn [orb negb].
  set (full := path_Join _ _). assert (IsAbs full = true) as Hf by by apply Join_IsAbs.
  destruct (managedPathContains _ full) eqn:EF; [done|]. intros HC.
  assert (∃ parent, normalize (Dir full) = Ok parent ∧ managedPathContains (ms_namespace scope) (path_Join parent (Base full)) = false) as (parent & HP & HM).
  { destruct (stat (Dir full)); [|done|]; apply res_bind_ok in HC as (parent & HP & [= HC]); by exists parent. }
  destruct (root_absolute _ _ HP) as [_ Ha]. split.
  - rewrite <-contains_iff, EF by done. done.
  - exists parent. split; [done|]. rewrite <-contains_iff by (done || by apply Join_IsAbs). by rewrite HM.
Qed.

Lemma scope_made root scope : newManagedSyncScope lstat EvalSymlinks state_home root = Ok scope →
  namespace = Ok (ms_namespace scope) ∧ ms_input scope = root ∧ (ms_namespace scope ≠ "" → IsAbs root = true ∧ IsAbs (ms_namespace scope) = true).
Proof.
  unfold newManagedSyncScope, managedTransferRoots. intros HN. apply res_bind_ok in HN as ([source ns] & HR & HN). apply res_bind_ok in HR as (managed & HM & HR).
  destruct (decide (managed = "")) as [->|Hne].
  - rewrite bool_decide_eq_true_2 in HR by done. injection HR as <- <-. rewrite bool_decide_eq_true_2 in HN by done. by injection HN as <-.
  - rewrite bool_decide_eq_false_2 in HR by done. apply res_bind_ok in HR as (src & HS & [= <- <-]).
    destruct (_ && _); [done|]. injection HN as <-. cbn. split; [done|]. split; [done|]. intros _. split; [exact (proj1 (root_absolute _ _ HS))|].
    revert HM. unfold selectedManagedStateNamespace. case_bool_decide; [by intros [= <-]|]. intros HM. exact (proj2 (root_absolute _ _ HM)).
Qed.
End Confinement.

(** C25. Nothing that is sent leaves the tree or its rules, and nothing is this
    program's own state.  Under the rules of a repository, whatever is configured,
    every path of every list of a manifest (files, deletions, changes, overlay) is
    a relative path of ordinary names, so that it names something below the root
    on either side; it is not at or below a protected path; and where a state
    directory is configured, neither the path as it is spelled nor the path with
    its directory resolved through links is in the namespace of managed leases.
    The last name is not followed: a link that itself points there may be listed,
    and is sent as a link ([linked_files]). *)
Theorem manifest_confined lstat stat EvalSymlinks `{!ResolutionLaws EvalSymlinks} state_home root excludes file rules includes git m :
  syncExcludes root excludes (managedStateSyncSubtree lstat EvalSymlinks state_home root) file = Ok rules →
  BuildSyncManifestFiltered lstat stat EvalSymlinks state_home root rules includes git = Ok m →
  ∀ rel, rel ∈ (m_Files m ++ m_Deleted m ++ m_Changed m ++ m_OverlayFiles m)%list →
  proper rel ∧ under_protected rel = false ∧ pathIncluded rel includes = true ∧
  ∃ ns, selectedManagedStateNamespace lstat EvalSymlinks state_home = Ok ns ∧ (ns ≠ "" → leads_outside lstat EvalSymlinks root ns rel).
Proof.
  intros HS HB rel Hr. unfold BuildSyncManifestFiltered in HB. apply res_bind_ok in HB as ([scope rules'] & HP & HB). cbn [fst snd] in HB.
  unfold prepareSyncManifestRoot in HP. apply res_bind_ok in HP as (scope' & HN & HP).
  assert (scope' = scope ∧ ∃ sub, rules' = mkRules (sr_rules rules) sub) as [-> [sub ->]].
  { destruct (_ && _); [destruct (Rel _ _); [|done]|]; injection HP as <- <-; (split; [done|]); [by eexists|]. exists (sr_managedSubtree rules). by destruct rules. }
  destruct (manifest_within _ _ _ _ _ _ _ _ _ _ _ _ HS HB rel Hr) as (H1 & H2 & H3 & H4). split_and!; [done|done|done|].
  destruct (scope_made _ _ _ _ _ HN) as (E1 & E2 & HA). exists (ms_namespace scope). split; [done|]. intros Hne. destruct (HA Hne) as [Ha Hb].
  rewrite <-E2. rewrite <-E2 in Ha. apply (contains_outside lstat stat EvalSymlinks scope rel); [done|done|by apply proper_safe|exact H3].
Qed.

(** ** A tree with the state inside, and a link to it *)

Definition linked_lstat (path : string) : lstat_answer :=
  let entry dir link := Exists (mkInfo dir (negb (dir || link)) link false 0x1a4 3) in
  if bool_decide (path ∈ ["/"; "/r"; "/r/st"; "/r/st/crabbox"; "/r/alias/crabbox"]) then entry true false
  else if path =s "/r/alias" then entry false true
  else if bool_decide (path ∈ ["/r/a.go"; "/r/st/crabbox/x"; "/r/alias/crabbox/x"]) then entry false false
  else NotExist.
Definition linked_eval (path : string) : res string := if path =s "/r/alias" then Ok "/r/st" else Ok path.
Definition linked_stat (path : string) : stat_answer := match linked_lstat path with Exists _ => Found 1 1 | _ => Absent end.
#[export] Instance linked_laws : ResolutionLaws linked_eval.
Proof. intros p q Hp. unfold linked_eval. case_bool_decide; intros [= <-]; done. Qed.
Definition linked_git : git_answers :=
  mkGit (Ok (NUL ["a.go"; "alias"; "alias/crabbox/x"; "st/crabbox/x"])) (Ok []) false (λ _, Ok ∅) (Ok []) (Ok []) [Ok (NUL ["alias/crabbox/x"; "a.go"])].
Definition linked_rules : SyncExcludeRules :=
  match syncExcludes "/r" [] (managedStateSyncSubtree linked_lstat linked_eval "/r/st" "/r") (Ok None) with Ok r => r | Err _ => mkRules [] "" end.
Definition linked_manifest : SyncManifest :=
  match BuildSyncManifestFiltered linked_lstat linked_stat linked_eval "/r/st" "/r" linked_rules [] linked_git with Ok m => m | Err _ => empty_manifest end.
Example linked_files : (m_Files linked_manifest, m_Changed linked_manifest) = (["a.go"; "alias"], ["a.go"]).
Proof. vm_compute. reflexivity. Qed.

Lemma manifest_confined_witness : proper "alias" ∧ under_protected "alias" = false ∧ leads_outside linked_lstat linked_eval "/r" "/r/st/crabbox" "alias".
Proof.
  destruct (manifest_confined linked_lstat linked_stat linked_eval "/r/st" "/r" [] (Ok None) linked_rules [] linked_git linked_manifest) with (rel := "alias")
    as (H1 & H2 & _ & ns & HN & HO).
  - vm_compute. reflexivity.
  - vm_compute. reflexivity.
  - vm_compute. right. left.
  - assert (Ok ns = Ok "/r/st/crabbox") as E by (rewrite <-HN; vm_compute; reflexivity). injection E as ->.
    split; [exact H1|]. split; [exact H2|]. apply HO. discriminate.
Defined.
