(* ===== verification/GoRegexp.v ===== *)
(** * Regular expressions ([regexp])

    Matching with the preferences of Go's [regexp] (leftmost, then the first
    alternative, then the longer or shorter repetition as its operator says), which
    are those of a matcher that backtracks.  The matcher is written with what
    remains to be matched as a continuation, and is sound for the relation
    [matches].  Texts are bytes, cut into runes as [utf8] does. *)

From Stdlib Require Import ZArith Lia.
From stdpp Require Import strings prelude.
From S2P Require Import Prelude GoText.
Local Open Scope Z_scope.

(** ** Runes of one byte *)

Lemma lor_ge a b : 0 ≤ a → 0 ≤ b → a ≤ Z.lor a b.
Proof.
  intros Ha Hb. assert (Z.ldiff a (Z.lor a b) = 0) as E.
  { apply Z.bits_inj'. intros n Hn. rewrite Z.ldiff_spec, Z.lor_spec, Z.bits_0. by destruct (Z.testbit a n), (Z.testbit b n). }
  apply Z.sub_nocarry_ldiff in E. assert (0 ≤ Z.ldiff (Z.lor a b) a) by (apply Z.ldiff_nonneg; left; by apply Z.lor_nonneg). lia.
Qed.
Lemma bits6_mod b : bits6 b = b mod 64.
Proof. apply (Z.land_ones b 6). lia. Qed.
Lemma second_range b0 b1 : second_ok b0 b1 = true → 0x80 ≤ b1 ≤ 0xBF ∧ (b0 = 0xE0 → 0xA0 ≤ b1) ∧ (b0 = 0xF0 → 0x90 ≤ b1).
Proof. unfold second_ok, cont. repeat case_match; lia. Qed.
Lemma bits6_cont b : 0x80 ≤ b ≤ 0xBF → bits6 b = b - 0x80.
Proof. intros H. rewrite bits6_mod. symmetry. apply (Z.mod_unique _ _ 2); lia. Qed.
(** A rune below 0x80 is its only byte. *)
Lemma runes_low b0 r0 r seg rest : runes (b0 :: r0) = (r, seg) :: rest → r < 0x80 → r = b0 ∧ seg = [b0].
Proof.
  intros HR Hr. cbn [runes] in HR. destruct (Z.ltb_spec b0 0x80); [injection HR as -> <- _; done|exfalso].
  assert (∀ n x k : Z, 0 ≤ x → 0 ≤ k → 0 ≤ n → 0x80 ≤ k * 2 ^ n → 0x80 ≤ Z.lor (Z.shiftl k n) x) as HG.
  { intros n x k Hx Hk Hn HK. rewrite Z.shiftl_mul_pow2 by done. pose proof (lor_ge (k * 2 ^ n) x ltac:(nia) Hx). lia. }
  assert (∀ b, 0 ≤ bits6 b < 64) as H6 by (intros b; rewrite bits6_mod; apply Z.mod_pos_bound; lia).
  assert (∀ x k n, 0 ≤ x → 0 ≤ k → 0 ≤ Z.lor (Z.shiftl k n) x) as H0.
  { intros. apply Z.lor_nonneg. split; [by apply Z.shiftl_nonneg|done]. }
  assert (Z.land b0 31 = b0 mod 32 ∧ Z.land b0 15 = b0 mod 16 ∧ Z.land b0 7 = b0 mod 8) as (E1 & E2 & E3)
    by (split_and!; [apply (Z.land_ones b0 5)|apply (Z.land_ones b0 4)|apply (Z.land_ones b0 3)]; lia).
  assert (∀ n k m b x, 0 ≤ n → 0 ≤ k → 0 ≤ m → 0 ≤ x →  0x80 ≤ k * 2 ^ n ∨ 0x80 ≤ bits6 b * 2 ^ m → 0x80 ≤ Z.lor (Z.shiftl k n) (Z.lor (Z.shiftl (bits6 b) m) x)) as HG2.
  { intros n k m b x ? ? ? ? HK. pose proof (H6 b). destruct HK as [HK|HK]; [apply HG; [apply H0; lia|lia|lia|lia]|].
    pose proof (HG m x (bits6 b) ltac:(done) ltac:(lia) ltac:(done) HK). rewrite Z.lor_comm.
    pose proof (lor_ge (Z.lor (Z.shiftl (bits6 b) m) x) (Z.shiftl k n) ltac:(lia) ltac:(by apply Z.shiftl_nonneg)). lia. }
  destruct r0 as [|b1 [|b2 [|b3 r3]]]; repeat case_match; injection HR; clear HR; intros _ _ HR; unfold RuneError in *; try lia; rewrite <-HR in Hr; clear HR;
  repeat match goal with H : _ && _ = true |- _ => apply andb_true_iff in H as [? ?] end.
  all: match goal with
    | H : Z.lor (Z.shiftl ?k ?n) (Z.lor (Z.shiftl (bits6 ?b) ?m) ?x) < _ |- _ => pose proof (HG2 n k m b x) as HH
    | H : Z.lor (Z.shiftl ?k ?n) ?x < _ |- _ => pose proof (HG n x k) as HH end.
  all: try match goal with H : second_ok _ _ = true |- _ => apply second_range in H end.
  all: apply (Z.lt_irrefl 0x80); eapply Z.le_lt_trans; [apply HH|exact Hr]; rewrite ?E1, ?E2, ?E3; try apply H0; try apply H6; try apply Z.mod_pos_bound; try lia.
  all: try rewrite (bits6_cont b1) by lia; change (2 ^ 12) with 4096; change (2 ^ 18) with 262144; change (2 ^ 6) with 64;
    pose proof (Z.mod_pos_bound b0 32); pose proof (Z.mod_pos_bound b0 16); pose proof (Z.mod_pos_bound b0 8);
    pose proof (Z.div_mod b0 32); pose proof (Z.div_mod b0 16); pose proof (Z.div_mod b0 8); lia.
Qed.

(** ** Expressions *)

Inductive regex :=
  | Rune (f : Z → bool)
  | Empty
  | Seq (a b : regex)
  | Alt (a b : regex)
  | Star (greedy : bool) (a : regex)
  | Group (n : nat) (a : regex)
  | BeginText
  | EndText
  | WordBoundary.

Definition Plus (a : regex) : regex := Seq a (Star true a).
Definition Opt (a : regex) : regex := Alt a Empty.
Fixpoint Seqs (l : list regex) : regex := match l with [] => Empty | [a] => a | a :: l => Seq a (Seqs l) end.
Fixpoint Alts (l : list regex) : regex := match l with [] => Rune (λ _, false) | [a] => a | a :: l => Alt a (Alts l) end.

(** Under [(?i)] a letter stands for both cases, and [k] and [s] also for the
    Kelvin sign and the long s. *)
Definition is_upper (r : Z) : bool := (65 <=? r) && (r <=? 90).
Definition is_lower (r : Z) : bool := (97 <=? r) && (r <=? 122).
Definition simple_fold (r : Z) : Z :=
  if is_upper r then r + 32 else if r =? 0x212A then 107 else if r =? 0x17F then 115 else r.
Definition fold_lit (s : string) : regex := Seqs ((λ b, Rune (λ r, simple_fold r =? simple_fold b)) <$> to_bytes s).
Definition in_set (s : list Z) (r : Z) : bool := bool_decide (r ∈ s).
Definition is_alnum (r : Z) : bool := ((48 <=? r) && (r <=? 57)) || is_upper r || is_lower r.
Definition fold_alnum (r : Z) : bool := is_alnum (simple_fold r).
(** [\s] and [\w] of the library are ASCII only. *)
Definition perl_space (r : Z) : bool := in_set [9; 10; 12; 13; 32] r.
Definition word_rune (r : Z) : bool := is_alnum r || (r =? 95).

(** ** Matching *)

(** What groups have matched, the latest first. *)
Definition captures := list (nat * (nat * nat)).
Definition capture (n : nat) (c : captures) : option (nat * nat) := (λ p, p.2.2) <$> list_find (λ g : nat * (nat * nat), g.1 = n) c.

Section Text.
Context (value : list Z).

(** [utf8.DecodeRuneInString] at a place: a rune and its width. *)
Definition decode (i : nat) : option (Z * nat) :=
  match runes (take 4 (drop i value)) with (r, seg) :: _ => Some (r, length seg) | [] => None end.
Definition word_at (i : nat) : bool := match value !! i with Some b => word_rune b | None => false end.
Definition boundary (i : nat) : bool := xorb (match i with O => false | S p => word_at p end) (word_at i).

(** A repetition of [body] takes at least a byte each time, so the bytes left
    bound it. *)
Fixpoint repeat_body {A} (body : nat → captures → (nat → captures → option A) → option A) (greedy : bool) (k : nat → captures → option A)
    (n i : nat) (c : captures) : option A :=
  match n with
  | O => k i c
  | S n =>
      let more _ := body i c (λ j c, if (i <? j)%nat then repeat_body body greedy k n j c else None) in
      if greedy then match more tt with Some x => Some x | None => k i c end
      else match k i c with Some x => Some x | None => more tt end
  end.
Fixpoint run {A} (r : regex) (i : nat) (c : captures) (k : nat → captures → option A) : option A :=
  match r with
  | Rune f => match decode i with Some (x, w) => if f x then k (i + w)%nat c else None | None => None end
  | Empty => k i c
  | Seq a b => run a i c (λ j c, run b j c k)
  | Alt a b => match run a i c k with Some x => Some x | None => run b i c k end
  | Star greedy a => repeat_body (run a) greedy k (S (length value - i)) i c
  | Group n a => run a i c (λ j c, k j ((n, (i, j)) :: c))
  | BeginText => if (i =? 0)%nat then k i c else None
  | EndText => if (i =? length value)%nat then k i c else None
  | WordBoundary => if boundary i then k i c else None
  end.

(** The first place from [i] on where the expression matches. *)
Fixpoint search (r : regex) (i fuel : nat) : option (nat * nat * captures) :=
  match fuel with
  | O => None
  | S fuel =>
      match run r i [] (λ j c, Some (j, c)) with
      | Some (j, c) => Some (i, j, c)
      | None => match decode i with Some (_, w) => search r (i + w) fuel | None => None end
      end
  end.

(** [Regexp.allMatches]: an empty match is dropped where a match has just ended. *)
Fixpoint all_matches (r : regex) (pos : nat) (prev : option nat) (fuel : nat) : list (nat * nat * captures) :=
  match fuel with
  | O => []
  | S fuel =>
      if (length value <? pos)%nat then []
      else match search r pos (S (length value - pos)) with
           | None => []
           | Some (a, b, c) =>
               if (b =? pos)%nat then
                 let next := match decode pos with Some (_, w) => (pos + w)%nat | None => S (length value) end in
                 (if bool_decide (prev = Some a) then [] else [(a, b, c)]) ++ all_matches r next (Some b) fuel
               else (a, b, c) :: all_matches r b (Some b) fuel
           end
  end.
Definition FindAll (r : regex) : list (nat * nat * captures) := all_matches r 0 None (S (S (length value))).

(** ** What a match is *)

Inductive matches : regex → nat → nat → Prop :=
  | m_rune f i x w : decode i = Some (x, w) → f x = true → matches (Rune f) i (i + w)
  | m_empty i : matches Empty i i
  | m_seq a b i j k : matches a i j → matches b j k → matches (Seq a b) i k
  | m_left a b i j : matches a i j → matches (Alt a b) i j
  | m_right a b i j : matches b i j → matches (Alt a b) i j
  | m_stop g a i : matches (Star g a) i i
  | m_more g a i j k : matches a i j → matches (Star g a) j k → matches (Star g a) i k
  | m_group n a i j : matches a i j → matches (Group n a) i j
  | m_begin : matches BeginText 0 0
  | m_end : matches EndText (length value) (length value)
  | m_boundary i : boundary i = true → matches WordBoundary i i.

(** Groups that every match of an expression sets. *)
Fixpoint sets (r : regex) (n : nat) : bool :=
  match r with
  | Seq a b => sets a n || sets b n
  | Alt a b => sets a n && sets b n
  | Group m a => (m =? n)%nat || sets a n
  | _ => false
  end.

(** Expressions without a byte: none of their matches has it. *)
Fixpoint avoids (b : Z) (r : regex) : bool :=
  match r with
  | Rune f => negb (f b)
  | Seq x y | Alt x y => avoids b x && avoids b y
  | Star _ a | Group _ a => avoids b a
  | _ => true
  end.

Lemma decode_spec i x w : decode i = Some (x, w) → (1 ≤ w ∧ i + w ≤ length value)%nat ∧
  ∀ t b, (t < w)%nat → value !! (i + t)%nat = Some b → b < 0x80 → x = b.
Proof.
  unfold decode. intros HD. destruct (drop i value) as [|b0 r0] eqn:E; [done|].
  assert (i < length value)%nat as Hi by (apply (f_equal length) in E; rewrite length_drop in E; cbn in E; lia).
  change (take 4 (b0 :: r0)) with (b0 :: take 3 r0) in HD.
  pose proof (runes_tails _ _ (le_n (length (b0 :: take 3 r0)))) as HT.
  destruct (runes_first b0 (take 3 r0)) as (r & seg & rest & ES & Hseg & ER & _). rewrite ER in HD, HT. injection HD as -> <-.
  apply Forall_cons in HT as [HT _]. cbn in HT.
  assert (seg ++ rest ++ drop 3 r0 = b0 :: r0) as EF by (rewrite app_assoc, <-ES; cbn [app]; by rewrite take_drop).
  assert (∀ t, value !! (i + t)%nat = (seg ++ rest ++ drop 3 r0) !! t) as HV by (intros t; by rewrite EF, <-E, lookup_drop).
  split; [split; [destruct seg; [done|cbn; lia]|]|].
  - apply (f_equal length) in EF. rewrite !length_app in EF. cbn [length] in EF. apply (f_equal length) in E. rewrite length_drop in E. cbn in E. lia.
  - intros t b Ht Hb Hlt. rewrite HV, lookup_app_l in Hb by done. destruct seg as [|s0 seg]; [done|]. injection ES as <- ES.
    destruct t as [|t]; cbn in Hb; [injection Hb as ->|by rewrite Forall_lookup in HT; specialize (HT _ _ Hb); lia].
    cbn [runes] in ER. match type of ER with (if ?y <? _ then _ else _) = _ => destruct (Z.ltb_spec y 0x80); [|lia] end. by injection ER.
Qed.

(** What running an expression from [i] on hands to what follows it. *)
Definition handed (r : regex) (i : nat) (c : captures) (j : nat) (c' : captures) : Prop :=
  (i ≤ j ≤ length value)%nat ∧ matches r i j ∧ ∃ new, c' = new ++ c ∧ Forall (λ g, (i ≤ g.2.1 ≤ g.2.2 ∧ g.2.2 ≤ j)%nat) new ∧
  ∀ n, sets r n = true → n ∈ new.*1.

Lemma handed_quiet r i c j : (i ≤ j ≤ length value)%nat → matches r i j → (∀ n, sets r n = false) → handed r i c j c.
Proof. intros H M HS. split; [done|]. split; [done|]. exists []. split; [done|]. split; [constructor|]. intros n Hn. by rewrite HS in Hn. Qed.
Lemma handed_seq (r : regex) a b i j k c c' c'' : handed a i c j c' → handed b j c' k c'' → matches r i k → (∀ n, sets r n = true → sets a n || sets b n = true) → handed r i c k c''.
Proof.
  intros (H1 & _ & n1 & -> & F1 & S1) (H2 & _ & n2 & -> & F2 & S2) M HS. split; [lia|]. split; [done|]. exists (n2 ++ n1). split; [by rewrite app_assoc|]. split.
  - apply Forall_app. split; [eapply Forall_impl; [exact F2|]|eapply Forall_impl; [exact F1|]]; intros g Hg; cbn in Hg |- *; lia.
  - intros n Hn. rewrite fmap_app, elem_of_app. apply HS, orb_true_iff in Hn as [Hn|Hn]; [right; by apply S1|left; by apply S2].
Qed.

Lemma handed_alt y a b i j c c' : handed y i c j c' → y = a ∨ y = b → handed (Alt a b) i c j c'.
Proof.
  intros (H & M & new & Hn & F & S) Hy. split; [done|]. split; [destruct Hy as [->| ->]; [by apply m_left|by apply m_right]|].
  exists new. split; [done|]. split; [done|]. intros n [? ?]%andb_true_iff. apply S. by destruct Hy as [->| ->].
Qed.

Lemma run_sound {A} r : ∀ i c (k : nat → captures → option A) x, (i ≤ length value)%nat → run r i c k = Some x →
  ∃ j c', handed r i c j c' ∧ k j c' = Some x.
Proof.
  induction r as [f| |a IHa b IHb|a IHa b IHb|g a IHa|n a IHa| | |]; intros i c k x Hi HR; cbn [run] in HR.
  - destruct (decode i) as [[r w]|] eqn:ED; [|done]. destruct (f r) eqn:Ef; [|done]. exists (i + w)%nat, c. split; [|done].
    destruct (decode_spec _ _ _ ED) as [? _]. apply handed_quiet; [lia|by econstructor|done].
  - exists i, c. split; [|done]. apply handed_quiet; [lia|constructor|done].
  - apply IHa in HR as (j & c' & H1 & HR); [|done]. pose proof H1 as (? & M1 & _). apply IHb in HR as (l & c'' & H2 & HR); [|lia].
    pose proof H2 as (_ & M2 & _). exists l, c''. split; [|done]. eapply handed_seq; [exact H1|exact H2|by econstructor|done].
  - destruct (run a i c k) as [y|] eqn:EA.
    + injection HR as ->. apply IHa in EA as (j & c' & H & HK); [|done]. exists j, c'. split; [|done]. eapply handed_alt; [exact H|by left].
    + apply IHb in HR as (j & c' & H & HK); [|done]. exists j, c'. split; [|done]. eapply handed_alt; [exact H|by right].
  - revert HR. generalize (S (length value - i)). intros n. revert i c Hi. induction n as [|n IHn]; intros i c Hi HR.
    { exists i, c. split; [|done]. apply handed_quiet; [lia|constructor|done]. }
    assert (k i c = Some x → ∃ j c', handed (Star g a) i c j c' ∧ k j c' = Some x) as H0.
    { intros HK. exists i, c. split; [|done]. apply handed_quiet; [lia|constructor|done]. }
    assert (run a i c (λ j c, if (i <? j)%nat then repeat_body (run a) g k n j c else None) = Some x → ∃ j c', handed (Star g a) i c j c' ∧ k j c' = Some x) as H1.
    { intros HY. apply IHa in HY as (j & c' & HA & HY); [|done]. destruct (i <? j)%nat; [|done]. pose proof HA as (? & M1 & _).
      apply IHn in HY as (l & c'' & HB & HK); [|lia]. pose proof HB as (_ & M2 & _). exists l, c''. split; [|done]. by eapply handed_seq; [exact HA|exact HB|econstructor|]. }
    cbn [repeat_body] in HR. destruct g.
    + destruct (run a i c _) as [y|] eqn:EA in HR; [injection HR as ->|by apply H0]. by eapply H1.
    + destruct (k i c) as [y|] eqn:EK in HR; [injection HR as ->; by apply H0|]. by eapply H1.
  - apply IHa in HR as (j & c' & (H & M & new & -> & F & S) & HR); [|done]. exists j, ((n, (i, j)) :: new ++ c). split; [|done]. split; [done|].
    split; [by constructor|]. exists ((n, (i, j)) :: new). split; [done|]. split; [constructor; [cbn; lia|done]|].
    intros m [->%Nat.eqb_eq|Hm]%orb_true_iff; cbn; [by left|right; by apply S].
  - destruct (Nat.eqb_spec i 0) as [->|]; [|done]. exists 0%nat, c. split; [|done]. apply handed_quiet; [lia|constructor|done].
  - destruct (Nat.eqb_spec i (length value)) as [->|]; [|done]. exists (length value), c. split; [|done]. apply handed_quiet; [lia|constructor|done].
  - destruct (boundary i) eqn:EB; [|done]. exists i, c. split; [|done]. apply handed_quiet; [lia|by constructor|done].
Qed.

Lemma search_sound r fuel : ∀ i a b c, (i ≤ length value)%nat → search r i fuel = Some (a, b, c) → handed r a [] b c ∧ (i ≤ a)%nat.
Proof.
  induction fuel as [|fuel IH]; intros i a b c Hi HS; cbn [search] in HS; [done|].
  destruct (run r i [] _) as [[j c']|] eqn:ER.
  - injection HS as <- <- <-. apply run_sound in ER as (j' & c'' & H & [= <- <-]); [|done]. split; [done|lia].
  - destruct (decode i) as [[x w]|] eqn:ED; [|done]. destruct (decode_spec _ _ _ ED) as [? _]. apply IH in HS as [? ?]; [|lia]. split; [done|lia].
Qed.
Lemma all_matches_sound r fuel : ∀ pos prev, Forall (λ m, handed r m.1.1 [] m.1.2 m.2) (all_matches r pos prev fuel).
Proof.
  induction fuel as [|fuel IH]; intros pos prev; cbn [all_matches]; [constructor|]. destruct (Nat.ltb_spec (length value) pos); [constructor|].
  destruct (search r pos _) as [[[a b] c]|] eqn:ES; [|constructor]. apply search_sound in ES as [ES _]; [|lia].
  destruct (b =? pos)%nat; [|by constructor]. apply Forall_app. split; [|done]. case_bool_decide; [constructor|]. by apply Forall_singleton.
Qed.
Lemma FindAll_sound r m : m ∈ FindAll r → handed r m.1.1 [] m.1.2 m.2.
Proof. intros Hm. pose proof (all_matches_sound r (S (S (length value))) 0 None) as H. rewrite Forall_forall in H. by apply H. Qed.

Lemma capture_set r n a b c : handed r a [] b c → sets r n = true → ∃ g, capture n c = Some g ∧ (a ≤ g.1 ≤ g.2 ∧ g.2 ≤ b)%nat.
Proof.
  intros (_ & _ & new & -> & F & S) Hn. rewrite app_nil_r. specialize (S n Hn). unfold capture.
  destruct (list_find (λ g : nat * (nat * nat), g.1 = n) new) as [[k g]|] eqn:E.
  - apply list_find_Some in E as (Hk & _). rewrite Forall_lookup in F. specialize (F _ _ Hk). exists g.2. split; [done|exact F].
  - apply list_find_None in E. rewrite Forall_forall in E. apply list_elem_of_fmap in S as (g & -> & Hg). by destruct (E g Hg).
Qed.

Lemma matches_le r i j : matches r i j → (i ≤ j)%nat.
Proof. induction 1; lia. Qed.
Lemma matches_avoid b r i j : b < 0x80 → matches r i j → avoids b r = true → ∀ k, (i ≤ k < j)%nat → value !! k ≠ Some b.
Proof.
  intros Hb M. induction M as [f i x w ED Ef| |x y i j k M1 IH1 M2 IH2|x y i j M IH|x y i j M IH| |g x i j k M1 IH1 M2 IH2| | | |]; cbn [avoids];
    rewrite ?andb_true_iff; try (intros ? ? ?; lia); try naive_solver.
  - intros Ha t Ht HV. destruct (decode_spec _ _ _ ED) as [_ HD]. assert (x = b) as -> by (apply (HD (t - i)%nat); [lia|by replace (i + (t - i))%nat with t by lia|done]).
    by rewrite Ef in Ha.
  - intros [H1 H2] t Ht. destruct (Nat.lt_ge_cases t j); [apply IH1|apply IH2]; (done || lia).
  - intros H1 t Ht. destruct (Nat.lt_ge_cases t j); [apply IH1|apply IH2]; (done || lia).
Qed.

(** An ASCII character on its own. *)
Lemma matches_char c i j : c < 0x80 → matches (Rune (in_set [c])) i j → j = S i ∧ value !! i = Some c.
Proof.
  intros Hc M. inversion M as [f x r w ED Ef| | | | | | | | | |]; subst. apply bool_decide_eq_true, list_elem_of_singleton in Ef. subst r.
  unfold decode in ED. destruct (drop i value) as [|b0 r0] eqn:E; [done|]. change (take 4 (b0 :: r0)) with (b0 :: take 3 r0) in ED.
  destruct (runes_first b0 (take 3 r0)) as (r & seg & rest & _ & _ & ER & _). rewrite ER in ED. injection ED as -> <-.
  apply runes_low in ER as [-> ->]; [|done]. split; [cbn; lia|]. replace i with (i + 0)%nat by lia. by rewrite <-lookup_drop, E.
Qed.
End Text.
