(* ===== verification/Redaction.v ===== *)
(** * Redaction of diagnostics ([cli/diagnostic_redaction.go])

    Secrets are removed from text before it is shown: what a set of patterns
    recognises as a credential, and every occurrence of the secrets that are
    known.  A pass marks both in the same text and rewrites it once; passes are
    repeated until nothing changes, or the whole text is dropped.  What the
    patterns find is an interface here ([PatternLaws]: where a match may lie);
    the program's patterns implement it in [DiagnosticPatterns]. *)

From Stdlib Require Import ZArith Lia.
From stdpp Require Import gmap strings sorting prelude.
From S2P Require Import Prelude GoText.
Local Open Scope Z_scope.

Definition diagnosticRedaction : list Z := to_bytes "[redacted]".
Definition diagnosticAngleRedaction : list Z := to_bytes "<redacted>".
Definition maxDiagnosticRedactionPasses : nat := 64.

(** ** Text *)

Definition slice (value : list Z) (a b : nat) : list Z := take (b - a) (drop a value).
Definition occurs_at (sub value : list Z) (i : nat) : bool := bool_decide (take (length sub) (drop i value) = sub).
(** [strings.Index]; only places where [sub] fits are tried. *)
Fixpoint index_from (sub value : list Z) (i fuel : nat) : option nat :=
  match fuel with
  | O => None
  | S fuel => if occurs_at sub value i then Some i else index_from sub value (S i) fuel
  end.
Definition Index (value sub : list Z) (offset : nat) : option nat := index_from sub value offset (S (length value) - offset).
(** [strings.IndexAny] and [strings.Index] of one byte, between two places. *)
Definition index_any (bytes : list Z) (value : list Z) (a b : nat) : option nat :=
  (λ p, (a + p.1)%nat) <$> list_find (λ x, x ∈ bytes) (slice value a b).

(** ** Ranges *)

Record diagnosticRedactionRange := mkRange { r_start : nat; r_end : nat; r_preserve : bool }.

(** [diagnosticMarkerRanges]: a text has no more markers than bytes. *)
Fixpoint marker_ranges (value : list Z) (offset fuel : nat) : list diagnosticRedactionRange :=
  match fuel with
  | O => []
  | S fuel =>
      let found i len := mkRange i (i + len) true :: marker_ranges value (i + len) fuel in
      match Index value diagnosticRedaction offset, Index value diagnosticAngleRedaction offset with
      | None, None => []
      | Some i, None => found i (length diagnosticRedaction)
      | None, Some j => found j (length diagnosticAngleRedaction)
      | Some i, Some j =>
          if (j <? i)%nat then found j (length diagnosticAngleRedaction) else found i (length diagnosticRedaction)
      end
  end.
Definition diagnosticMarkerRanges (value : list Z) : list diagnosticRedactionRange := marker_ranges value 0 (S (length value)).

(** [diagnosticRangeInsideMarker]: the markers are in order, so the last one that
    starts no later is the one before the first that starts later. *)
Definition diagnosticRangeInsideMarker (start stop : nat) (markers : list diagnosticRedactionRange) : bool :=
  match last (filter (λ m, (r_start m ≤ start)%nat) markers) with
  | Some m => (stop <=? r_end m)%nat
  | None => false
  end.

Definition range_before (a b : diagnosticRedactionRange) : Prop :=
  (r_start a < r_start b ∨ (r_start a = r_start b ∧ r_end a ≤ r_end b))%nat.
#[export] Instance range_before_dec a b : Decision (range_before a b).
Proof. unfold range_before. apply _. Defined.
#[export] Instance range_before_total : Total range_before.
Proof. intros a b. unfold range_before. lia. Qed.

(** The merge of overlapping ranges, in order. *)
Fixpoint merge_ranges (cur : diagnosticRedactionRange) (rest : list diagnosticRedactionRange) : list diagnosticRedactionRange :=
  match rest with
  | [] => [cur]
  | c :: rest =>
      if (r_end cur <=? r_start c)%nat then cur :: merge_ranges c rest
      else merge_ranges (mkRange (r_start cur) (Nat.max (r_end cur) (r_end c)) (r_preserve cur && r_preserve c)) rest
  end.
Fixpoint rewrite_ranges (value : list Z) (offset : nat) (merged : list diagnosticRedactionRange) : list Z :=
  match merged with
  | [] => drop offset value
  | r :: merged =>
      slice value offset (r_start r) ++
      (if r_preserve r then slice value (r_start r) (r_end r) else diagnosticRedaction) ++
      rewrite_ranges value (r_end r) merged
  end.
Definition merged_ranges (ranges : list diagnosticRedactionRange) : list diagnosticRedactionRange :=
  match merge_sort range_before ranges with [] => [] | r :: rest => merge_ranges r rest end.
Definition applyDiagnosticRedactionRanges (value : list Z) (ranges : list diagnosticRedactionRange) : list Z :=
  rewrite_ranges value 0 (merged_ranges ranges).

(** ** Passes *)

(** What the patterns find in a text, as pairs of places: the end of the key and
    of the match for the headers, the whole match for JSON and keys, the part that is secret
    for the others. *)
Record patterns := mkPatterns {
  p_authorization : list Z → list (nat * nat); p_header : list Z → list (nat * nat); p_json : list Z → list (nat * nat);
  p_query : list Z → list (nat * nat); p_url : list Z → list (nat * nat); p_bearer : list Z → list (nat * nat); p_pem : list Z → list (nat * nat) }.

Fixpoint skip_space (value : list Z) (start stop fuel : nat) : nat :=
  match fuel with
  | O => start
  | S fuel =>
      if (start <? stop)%nat && bool_decide (value !! start = Some 32 ∨ value !! start = Some 9) then skip_space value (S start) stop fuel else start
  end.
Definition diagnosticSkipHorizontalSpace (value : list Z) (start stop : nat) : nat := skip_space value start stop (stop - start).

(** The value of a header, after its separator. *)
Definition header_value (value : list Z) (m : nat * nat) : list (nat * nat) :=
  match index_any [58; 61] value m.1 m.2 with
  | None => []
  | Some separator => [(diagnosticSkipHorizontalSpace value (S separator) m.2, m.2)]
  end.
(** A scheme that the other patterns handle is left to them. *)
Definition known_scheme (value : list Z) (m : nat * nat) : bool :=
  match index_any [58; 61] value m.1 m.2 with
  | None => false
  | Some separator =>
      match Fields (slice value (S separator) m.2) with
      | [] => false
      | f :: _ => bool_decide (ToLower (TrimSuffix (of_bytes f) ":") ∈ ["bearer"; "basic"]%string)
      end
  end.
(** Where the secret of a JSON member starts. *)
Definition json_start (value : list Z) (m : nat * nat) : option nat :=
  separator ← index_any [58] value m.1 m.2;
  S <$> index_any [34] value (S separator) m.2.
Definition json_closed (value : list Z) (start : nat) (m : nat * nat) : bool :=
  (start <? m.2)%nat && bool_decide (value !! (m.2 - 1)%nat = Some 34).
Definition json_value (value : list Z) (m : nat * nat) : list (nat * nat) :=
  match json_start value m with
  | None => []
  | Some start => [(start, if json_closed value start m then (m.2 - 1)%nat else m.2)]
  end.
Definition json_open (value : list Z) (m : nat * nat) : bool :=
  match json_start value m with
  | None => false
  | Some start => negb (json_closed value start m) && (m.2 =? length value)%nat
  end.
(** User information that is already a marker stays. *)
Definition url_secret (value : list Z) (m : nat * nat) : bool :=
  negb (bool_decide (slice value m.1 m.2 = diagnosticRedaction)) && negb (bool_decide (slice value m.1 m.2 = diagnosticAngleRedaction)).

(** Every occurrence of a secret, overlapping ones too. *)
Fixpoint occurrences (secret value : list Z) (offset fuel : nat) : list (nat * nat) :=
  match fuel with
  | O => []
  | S fuel =>
      if (length value <=? offset)%nat then []
      else match Index value secret offset with
           | None => []
           | Some start => (start, (start + length secret)%nat) :: occurrences secret value (S start) fuel
           end
  end.

Definition longer_first (a b : string) : Prop := (String.length b ≤ String.length a)%nat.
#[export] Instance longer_first_dec a b : Decision (longer_first a b).
Proof. unfold longer_first. apply _. Defined.

Section Redaction.
Context (P : patterns).

Definition candidates (value : list Z) (secrets : list string) : list (nat * nat) :=
  concat (header_value value <$> filter (λ m, known_scheme value m = false) (p_authorization P value)) ++
  concat (header_value value <$> p_header P value) ++ concat (json_value value <$> p_json P value) ++
  p_query P value ++ filter (λ m, url_secret value m = true) (p_url P value) ++ p_bearer P value ++ p_pem P value ++
  concat ((λ s, occurrences (to_bytes s) value 0 (length value)) <$> secrets).

(** [addRedaction] *)
Definition added (value : list Z) (secrets : list string) : list (nat * nat) :=
  filter (λ c, (c.1 < c.2)%nat ∧ diagnosticRangeInsideMarker c.1 c.2 (diagnosticMarkerRanges value) = false) (candidates value secrets).

Definition diagnosticUnterminatedJSONAtEnd (value : list Z) : bool :=
  match last (p_json P value) with
  | None => false
  | Some m => (m.2 =? length value)%nat && negb (bool_decide (value !! (m.2 - 1)%nat = Some 34))
  end.

Definition redactDiagnosticPass (value : list Z) (secrets : list string) : list Z :=
  let spans := added value secrets in
  let close := existsb (json_open value) (p_json P value) in
  if bool_decide (spans = []) && negb close then value
  else
    let redacted := applyDiagnosticRedactionRanges value
      (diagnosticMarkerRanges value ++ ((λ c, mkRange c.1 c.2 false) <$> spans)) in
    if close && diagnosticUnterminatedJSONAtEnd redacted then redacted ++ [34] else redacted.

(** The secrets, trimmed, each once, longer ones first. *)
Definition normalizedDiagnosticSecrets (values : list string) : list string :=
  merge_sort longer_first (remove_dups (filter (λ v, v ≠ ""%string) (TrimSpace <$> values))).

Fixpoint passes (n : nat) (value : list Z) (secrets : list string) : list Z :=
  match n with
  | O => diagnosticRedaction
  | S n => let next := redactDiagnosticPass value secrets in if bool_decide (next = value) then next else passes n next secrets
  end.
Definition RedactDiagnosticSecrets (value : string) (secrets : list string) : string :=
  of_bytes (passes maxDiagnosticRedactionPasses (to_bytes value) (normalizedDiagnosticSecrets secrets)).
End Redaction.

(** ** Searching *)

Lemma occurs_iff sub value i : occurs_at sub value i = true ↔ ∃ a b, value = a ++ sub ++ b ∧ (sub ≠ [] → length a = i).
Proof.
  unfold occurs_at. rewrite bool_decide_eq_true. split.
  - intros E. exists (take i value), (drop (length sub) (drop i value)). split.
    + rewrite <-E at 1. by rewrite take_drop, take_drop.
    + intros Hs. rewrite length_take. destruct (Nat.le_gt_cases i (length value)); [lia|].
      rewrite drop_ge, take_nil in E by lia. by subst sub.
  - intros (a & b & -> & Hi). destruct (decide (sub = [])) as [->|Hs]; [done|]. rewrite <-(Hi Hs), drop_app_length. apply take_app_length.
Qed.
Lemma occurs_bound sub value i : sub ≠ [] → occurs_at sub value i = true → (i + length sub ≤ length value)%nat.
Proof. intros Hs (a & b & -> & Hi)%occurs_iff. rewrite <-(Hi Hs), !length_app. lia. Qed.

Lemma index_from_spec sub value fuel : ∀ i, match index_from sub value i fuel with
  | Some j => (i ≤ j)%nat ∧ occurs_at sub value j = true ∧ ∀ k, (i ≤ k < j)%nat → occurs_at sub value k = false
  | None => ∀ k, (i ≤ k < i + fuel)%nat → occurs_at sub value k = false
  end.
Proof.
  induction fuel as [|fuel IH]; intros i; cbn [index_from]; [lia|]. destruct (occurs_at sub value i) eqn:E; [split_and!; [done|done|lia]|].
  specialize (IH (S i)). destruct (index_from sub value (S i) fuel) as [j|].
  - destruct IH as (? & ? & H). split_and!; [lia|done|]. intros k Hk. destruct (decide (k = i)) as [->|]; [done|]. apply H. lia.
  - intros k Hk. destruct (decide (k = i)) as [->|]; [done|]. apply IH. lia.
Qed.

Lemma Index_spec value sub offset : sub ≠ [] → match Index value sub offset with
  | Some j => (offset ≤ j)%nat ∧ occurs_at sub value j = true ∧ ∀ k, (offset ≤ k < j)%nat → occurs_at sub value k = false
  | None => ∀ k, (offset ≤ k)%nat → occurs_at sub value k = false
  end.
Proof.
  intros Hs. unfold Index. pose proof (index_from_spec sub value (S (length value) - offset) offset) as H.
  destruct (index_from _ _ _ _) as [j|]; [done|]. intros k Hk. destruct (occurs_at sub value k) eqn:E; [|done].
  pose proof (occurs_bound _ _ _ Hs E). rewrite H in E; [done|]. destruct sub; [done|]. cbn in *. lia.
Qed.

Lemma occurrences_all secret value fuel : secret ≠ [] → ∀ offset i, (length value ≤ offset + fuel)%nat → (offset ≤ i)%nat → occurs_at secret value i = true →
  (i, (i + length secret)%nat) ∈ occurrences secret value offset fuel.
Proof.
  intros Hs. induction fuel as [|fuel IH]; intros offset i Hf Hi HO.
  { pose proof (occurs_bound _ _ _ Hs HO). destruct secret; [done|]. cbn in *. lia. }
  cbn [occurrences]. pose proof (occurs_bound _ _ _ Hs HO). assert (0 < length secret)%nat by (destruct secret; [done|cbn; lia]).
  destruct (Nat.leb_spec (length value) offset); [lia|]. pose proof (Index_spec value secret offset Hs) as HX. destruct (Index value secret offset) as [j|].
  - destruct HX as (HX1 & _ & HX3). destruct (decide (i = j)) as [->|Hne]; [by left|]. right. apply IH; [lia| |done].
    destruct (Nat.lt_ge_cases i j); [|lia]. rewrite HX3 in HO; [done|lia].
  - rewrite HX in HO by done. done.
Qed.
Lemma occurrences_placed secret value fuel : secret ≠ [] → ∀ offset, Forall (λ c, (c.1 ≤ c.2 ≤ length value)%nat) (occurrences secret value offset fuel).
Proof.
  intros Hs. induction fuel as [|fuel IH]; intros offset; cbn [occurrences]; [constructor|]. destruct (_ <=? _)%nat; [constructor|].
  pose proof (Index_spec value secret offset Hs) as HX. destruct (Index value secret offset) as [j|]; [|constructor].
  constructor; [|apply IH]. destruct HX as (_ & HO & _). apply occurs_bound in HO; [cbn; lia|done].
Qed.

(** ** Markers *)

Definition marker_at (value : list Z) (i : nat) : Prop := occurs_at diagnosticRedaction value i = true ∨ occurs_at diagnosticAngleRedaction value i = true.
Definition marker_range (i : nat) : diagnosticRedactionRange := mkRange i (i + 10) true.

(** Ranges in order, none overlapping the next. *)
Fixpoint chained (o : nat) (l : list diagnosticRedactionRange) : Prop :=
  match l with [] => True | r :: l => (o ≤ r_start r < r_end r)%nat ∧ chained (r_end r) l end.

(** The bytes of a marker: the first one is nowhere else in it. *)
Lemma occurs_byte sub value i k : occurs_at sub value i = true → (k < length sub)%nat → value !! (i + k)%nat = sub !! k.
Proof.
  intros HO Hk. assert (sub ≠ []) as Hs by by destruct sub; [cbn in Hk; lia|]. apply occurs_iff in HO as (a & b & -> & Hi). rewrite <-(Hi Hs).
  rewrite lookup_app_r by lia. replace (length a + k - length a)%nat with k by lia. by rewrite lookup_app_l.
Qed.
Lemma markers_apart value i j : marker_at value j → occurs_at diagnosticRedaction value i = true → (j < i)%nat → (j + 10 ≤ i)%nat.
Proof.
  intros HJ HI Hlt. destruct (Nat.le_gt_cases (j + 10) i) as [|Hov]; [done|exfalso].
  assert (value !! i = Some 91) as E by (replace i with (i + 0)%nat by lia; by rewrite (occurs_byte _ _ _ _ HI); [|cbn; lia]).
  assert (∃ k, i = (j + k)%nat ∧ (0 < k < 10)%nat) as (k & -> & Hk) by (exists (i - j)%nat; lia).
  destruct HJ as [HJ|HJ]; rewrite (occurs_byte _ _ _ _ HJ) in E by (cbn; lia); do 10 (destruct k as [|k]; [cbn in E; try done; lia|]); lia.
Qed.

Lemma markers_spec value fuel : ∀ offset, (length value < offset + fuel)%nat →
  chained offset (marker_ranges value offset fuel) ∧
  (∀ m, m ∈ marker_ranges value offset fuel → ∃ i, m = marker_range i ∧ marker_at value i) ∧
  (∀ i, (offset ≤ i)%nat → occurs_at diagnosticRedaction value i = true → marker_range i ∈ marker_ranges value offset fuel).
Proof.
  induction fuel as [|fuel IH]; intros offset Hf.
  { cbn. split_and!; [done|by intros m []%elem_of_nil|]. intros i Hi HO. apply occurs_bound in HO; [cbn in HO; lia|done]. }
  cbn [marker_ranges]. pose proof (Index_spec value diagnosticRedaction offset ltac:(done)) as H1. pose proof (Index_spec value diagnosticAngleRedaction offset ltac:(done)) as H2.
  assert (∀ i, (offset ≤ i)%nat → marker_at value i → (∀ k, (offset ≤ k < i)%nat → occurs_at diagnosticRedaction value k = false) →
    let l := mkRange i (i + 10) true :: marker_ranges value (i + 10) fuel in
    chained offset l ∧ (∀ m, m ∈ l → ∃ i, m = marker_range i ∧ marker_at value i) ∧
    (∀ i', (offset ≤ i')%nat → occurs_at diagnosticRedaction value i' = true → marker_range i' ∈ l)) as HX.
  { intros i Hi HM HN. destruct (IH (i + 10)%nat ltac:(lia)) as (C & S1 & S2). cbn zeta. split_and!.
    - cbn. split; [lia|done].
    - intros m [->|Hm]%elem_of_cons; [by exists i|by apply S1].
    - intros i' Hi' HO. destruct (Nat.lt_trichotomy i' i) as [Hlt|[->|Hgt]]; [rewrite HN in HO; [done|lia]|by left|].
      right. apply S2; [|done]. by eapply markers_apart. }
  destruct (Index value diagnosticRedaction offset) as [i|]; destruct (Index value diagnosticAngleRedaction offset) as [j|].
  - destruct H1 as (? & ? & H1), H2 as (? & ? & H2). destruct (Nat.ltb_spec j i).
    + apply HX; [done|by right|]. intros. apply H1. lia.
    + apply HX; [done|by left|done].
  - destruct H1 as (? & ? & H1). apply HX; [done|by left|done].
  - destruct H2 as (? & ? & H2). apply HX; [done|by right|intros k [? _]; by apply H1].
  - split_and!; [done|by intros m []%elem_of_nil|]. intros i Hi HO. by rewrite H1 in HO.
Qed.

(** ** Merging *)

Definition covers (a b : diagnosticRedactionRange) : Prop := (r_start a ≤ r_start b ∧ r_end b ≤ r_end a)%nat.
Definition sound_range (n : nat) (r : diagnosticRedactionRange) : Prop := (r_start r < r_end r ≤ n)%nat.

Lemma covers_refl r : covers r r.
Proof. by split. Qed.

Lemma merge_spec n rest : ∀ cur o, (o ≤ r_start cur)%nat → Sorted range_before (cur :: rest) → Forall (sound_range n) (cur :: rest) →
  chained o (merge_ranges cur rest) ∧ Forall (λ r, (r_end r ≤ n)%nat) (merge_ranges cur rest) ∧
  (∀ r, r ∈ cur :: rest → ∃ r', r' ∈ merge_ranges cur rest ∧ covers r' r ∧ (r_preserve r = false → r_preserve r' = false)) ∧
  (∀ r', r' ∈ merge_ranges cur rest → r_preserve r' = false → ∃ r, r ∈ cur :: rest ∧ covers r' r ∧ r_preserve r = false).
Proof.
  induction rest as [|c rest IH]; intros cur o Ho HS HF; cbn [merge_ranges].
  { apply Forall_cons in HF as [HF _]. unfold sound_range in HF. split; [cbn [chained]; split; [lia|done]|]. split; [apply Forall_singleton; lia|]. split.
    - intros r ->%list_elem_of_singleton. exists cur. split; [by left|]. split; [apply covers_refl|done].
    - intros r ->%list_elem_of_singleton Hp. exists cur. split; [by left|]. split; [apply covers_refl|done]. }
  apply Forall_cons in HF as [Hcur HF]. apply Sorted_inv in HS as [HS HH]. inversion HH as [|? ? Hb]; subst.
  destruct (Nat.leb_spec (r_end cur) (r_start c)) as [Hle|Hgt].
  - destruct (IH c (r_end cur) Hle HS HF) as (C & B & S1 & S2). unfold sound_range in Hcur. split_and!.
    + cbn. split; [lia|done].
    + constructor; [lia|done].
    + intros r [->|Hr]%elem_of_cons; [exists cur; split_and!; [by left|apply covers_refl|done]|].
      destruct (S1 r Hr) as (r' & ? & ?). exists r'. split; [by right|done].
    + intros r [->|Hr]%elem_of_cons Hp; [exists cur; split_and!; [by left|apply covers_refl|done]|].
      destruct (S2 r Hr Hp) as (r' & ? & ?). exists r'. split; [by right|done].
  - set (u := mkRange (r_start cur) (Nat.max (r_end cur) (r_end c)) (r_preserve cur && r_preserve c)) in *.
    apply Forall_cons in HF as [Hc HF]. unfold sound_range in Hcur, Hc. unfold range_before in Hb.
    assert (Sorted range_before (u :: rest)) as HS'.
    { apply Sorted_inv in HS as [HS Hc']. constructor; [done|]. inversion Hc' as [|d ? Hd]; constructor. unfold range_before in *. cbn. lia. }
    assert (Forall (sound_range n) (u :: rest)) as HF' by (constructor; [unfold sound_range; cbn; lia|done]).
    destruct (IH u o Ho HS' HF') as (C & B & S1 & S2). split_and!; [done|done|..].
    + assert (∀ r, r = cur ∨ r = c → ∃ r', r' ∈ merge_ranges u rest ∧ covers r' r ∧ (r_preserve r = false → r_preserve r' = false)) as HX.
      { intros r Hr. destruct (S1 u) as (r' & Hin & Hcov & Hp); [by left|]. exists r'. split; [done|]. unfold covers in *. cbn in Hcov.
        split; [destruct Hr as [->| ->]; lia|]. intros E. apply Hp. cbn. destruct Hr as [->| ->]; rewrite E; [done|apply andb_false_r]. }
      intros r [->|[->|Hr]%elem_of_cons]%elem_of_cons; [apply HX; by left|apply HX; by right|]. apply S1. by right.
    + intros r' Hr' Hp. destruct (S2 r' Hr' Hp) as (r & [->|Hr]%elem_of_cons & Hcov & Hpr).
      * unfold covers in *. cbn in Hcov, Hpr. apply andb_false_iff in Hpr as [Hpr|Hpr]; [exists cur|exists c]; (split_and!; [set_solver|lia|lia|done]).
      * exists r. split; [set_solver|done].
Qed.

Lemma merged_spec n ranges : Forall (sound_range n) ranges →
  chained 0 (merged_ranges ranges) ∧ Forall (λ r, (r_end r ≤ n)%nat) (merged_ranges ranges) ∧
  (∀ r, r ∈ ranges → ∃ r', r' ∈ merged_ranges ranges ∧ covers r' r ∧ (r_preserve r = false → r_preserve r' = false)) ∧
  (∀ r', r' ∈ merged_ranges ranges → r_preserve r' = false → ∃ r, r ∈ ranges ∧ covers r' r ∧ r_preserve r = false).
Proof.
  intros HF. unfold merged_ranges. pose proof (Sorted_merge_sort range_before ranges) as HS. pose proof (merge_sort_Permutation range_before ranges) as HP.
  destruct (merge_sort range_before ranges) as [|r rest].
  - apply Permutation_nil in HP. subst. split_and!; [done|constructor|by intros r []%elem_of_nil|by intros r []%elem_of_nil].
  - rewrite <-HP in HF. destruct (merge_spec n rest r 0 ltac:(lia) HS HF) as (C & B & S1 & S2). split_and!; [done|done|..].
    + intros x Hx. apply S1. by rewrite HP.
    + intros x Hx Hp. destruct (S2 x Hx Hp) as (y & Hy & ?). exists y. split; [by rewrite <-HP|done].
Qed.

Lemma chained_from l : ∀ o x, chained o l → x ∈ l → (o ≤ r_start x < r_end x)%nat.
Proof.
  induction l as [|y l IH]; intros o x HC Hx; [by apply elem_of_nil in Hx|]. destruct HC as [? HC].
  apply elem_of_cons in Hx as [->|Hx]; [lia|]. specialize (IH _ _ HC Hx). lia.
Qed.
(** Two ranges of a chain that share a place are the same. *)
Lemma chained_disjoint l : ∀ o, chained o l → ∀ a b, a ∈ l → b ∈ l → (r_start a < r_end b)%nat → (r_start b < r_end a)%nat → a = b.
Proof.
  induction l as [|r l IH]; intros o HC a b Ha Hb H1 H2; [by apply elem_of_nil in Ha|]. destruct HC as [Hr HC].
  apply elem_of_cons in Ha as [->|Ha], Hb as [->|Hb]; [done| | |by eapply IH].
  - pose proof (chained_from _ _ _ HC Hb). lia.
  - pose proof (chained_from _ _ _ HC Ha). lia.
Qed.

(** ** A pass that changes nothing has found nothing *)

Lemma length_slice value a b : (a ≤ b ≤ length value)%nat → length (slice value a b) = (b - a)%nat.
Proof. intros H. unfold slice. rewrite length_take, length_drop. lia. Qed.

(** What a rewritten range that stays in place would have to be. *)
Definition stays (value : list Z) (r : diagnosticRedactionRange) : Prop :=
  ∃ i, occurs_at diagnosticRedaction value i = true ∧ (i ≤ r_start r ∧ r_end r ≤ i + 10)%nat.

(** The text before a place has shrunk by [D] so far.  If the whole comes out as
    it went in, up to [tail], it has not shrunk and nothing was rewritten. *)
Lemma rewrite_shift value tail merged : ∀ offset pre D, chained offset merged → Forall (λ r, (r_end r ≤ length value)%nat) merged →
  (offset ≤ length value)%nat → (length pre + D = offset)%nat → pre ++ rewrite_ranges value offset merged ++ tail = value →
  (∀ r, r ∈ merged → r_preserve r = false → ¬ stays value r) →
  Exists (λ r, r_preserve r = false) merged ∨ (0 < D)%nat → (0 < length tail)%nat.
Proof.
  induction merged as [|r merged IH]; intros offset pre D HC HB Ho Hpre HE HN HX; cbn [rewrite_ranges] in HE.
  { destruct HX as [HX|HX]; [by apply Exists_nil in HX|]. apply (f_equal length) in HE. rewrite !length_app, length_drop in HE. lia. }
  destruct HC as [Hr HC]. apply Forall_cons in HB as [Hb HB]. pose proof (length_slice value offset (r_start r) ltac:(lia)) as L1.
  destruct (r_preserve r) eqn:Ep.
  - pose proof (length_slice value (r_start r) (r_end r) ltac:(lia)) as L2.
    apply (IH (r_end r) (pre ++ slice value offset (r_start r) ++ slice value (r_start r) (r_end r)) D); [done|done|lia| | | |].
    + rewrite !length_app. lia.
    + rewrite <-HE at 4. by rewrite <-!app_assoc.
    + intros x Hx. apply HN. by right.
    + destruct HX as [HX|HX]; [left|by right]. apply Exists_cons in HX as [HX|HX]; [congruence|done].
  - set (p := (length pre + (r_start r - offset))%nat). assert (occurs_at diagnosticRedaction value p = true) as HO.
    { apply occurs_iff. exists (pre ++ slice value offset (r_start r)), (rewrite_ranges value (r_end r) merged ++ tail). split.
      - rewrite <-HE at 1. by rewrite <-!app_assoc.
      - intros _. rewrite length_app. lia. }
    assert (p + 10 < r_end r)%nat as Hlt.
    { destruct (Nat.lt_ge_cases (p + 10) (r_end r)) as [|Hge]; [done|]. exfalso. apply (HN r); [by left|done|]. exists p. split; [done|lia]. }
    apply (IH (r_end r) (pre ++ slice value offset (r_start r) ++ diagnosticRedaction) (r_end r - (p + 10))%nat); [done|done|lia| | | |right; lia].
    + rewrite !length_app. cbn [diagnosticRedaction to_bytes length]. lia.
    + rewrite <-HE at 3. by rewrite <-!app_assoc.
    + intros x Hx. apply HN. by right.
Qed.

Lemma last_drop_lt {A} (l : list A) n : (n < length l)%nat → last (drop n l) = last l.
Proof.
  intros H. rewrite <-(take_drop n l) at 2. rewrite last_app. destruct (last (drop n l)) eqn:E; [done|].
  apply last_None in E. apply (f_equal length) in E. rewrite length_drop in E. cbn in E. lia.
Qed.

(** The last byte stays, unless the end is rewritten. *)
Lemma rewrite_last value merged : ∀ offset, chained offset merged → Forall (λ r, (r_end r ≤ length value)%nat) merged →
  last (rewrite_ranges value offset merged) = last (drop offset value) ∨ last (rewrite_ranges value offset merged) = Some 93.
Proof.
  induction merged as [|r merged IH]; intros offset HC HB; cbn [rewrite_ranges]; [by left|].
  destruct HC as [Hr HC]. apply Forall_cons in HB as [Hb HB]. destruct (IH _ HC HB) as [HL|HL].
  2:{ right. by rewrite !last_app, HL. }
  rewrite !last_app, HL. destruct (decide (r_end r = length value)) as [E|E].
  - rewrite (drop_ge value (r_end r)) by lia. cbn [last]. destruct (r_preserve r); [left|by right].
    unfold slice. rewrite take_ge by (rewrite length_drop; lia). rewrite !last_drop_lt by lia. by destruct (last value) eqn:EL; [|apply last_None in EL; subst; cbn in *; lia].
  - left. rewrite !last_drop_lt by lia. by destruct (last value) eqn:EL; [|apply last_None in EL; subst; cbn in *; lia].
Qed.

(** ** Where matches may lie *)

Definition placed_in (value : list Z) (c : nat * nat) : Prop := (c.1 ≤ c.2 ≤ length value)%nat.

(** What the regular expressions promise: a match lies in the text, and the
    opening quote of a JSON member comes after a colon or space. *)
Class PatternLaws (P : patterns) : Prop := {
  law_placed value : Forall (placed_in value) (p_authorization P value ++ p_header P value ++ p_json P value ++ p_query P value ++
    p_url P value ++ p_bearer P value ++ p_pem P value);
  law_quote value m : m ∈ p_json P value → json_start value m = Some m.2 → value !! (m.2 - 2)%nat ≠ Some 93 }.

Lemma index_any_placed bytes value a b i : (a ≤ b ≤ length value)%nat → index_any bytes value a b = Some i → (a ≤ i < b)%nat.
Proof.
  unfold index_any. intros H. destruct (list_find _ _) as [[k x]|] eqn:E; [|done]. cbn. intros [= <-].
  apply list_find_Some in E as (Hk & _). apply lookup_lt_Some in Hk. rewrite length_slice in Hk by done. lia.
Qed.
Lemma skip_space_placed value stop fuel : ∀ start, (start + fuel = stop)%nat → (start ≤ skip_space value start stop fuel ≤ stop)%nat.
Proof.
  induction fuel as [|fuel IH]; intros start H; cbn [skip_space]; [lia|]. destruct (_ && _); [|lia]. specialize (IH (S start) ltac:(lia)). lia.
Qed.
Lemma header_placed value m : placed_in value m → Forall (placed_in value) (header_value value m).
Proof.
  unfold header_value, placed_in. intros Hm. destruct (index_any _ _ _ _) as [s|] eqn:E; [|constructor]. apply index_any_placed in E; [|lia].
  apply Forall_singleton. cbn. unfold diagnosticSkipHorizontalSpace. pose proof (skip_space_placed value m.2 (m.2 - S s) (S s) ltac:(lia)). lia.
Qed.
Lemma json_placed value m : placed_in value m → Forall (placed_in value) (json_value value m).
Proof.
  unfold json_value, placed_in. intros Hm. destruct (json_start value m) as [s|] eqn:E; [|constructor].
  unfold json_start in E. destruct (index_any [58] _ _ _) as [q|] eqn:E1; [|done]. cbn in E. apply index_any_placed in E1; [|lia].
  destruct (index_any [34] _ _ _) as [q'|] eqn:E2; [|done]. cbn in E. injection E as <-. apply index_any_placed in E2; [|lia].
  apply Forall_singleton. cbn. unfold json_closed. destruct (Nat.ltb_spec (S q') m.2); cbn [andb]; [|lia]. case_bool_decide; lia.
Qed.

Lemma Forall_concat_map {A B} (Q : B → Prop) (f : A → list B) l : Forall (λ x, Forall Q (f x)) l → Forall Q (concat (f <$> l)).
Proof. induction 1; cbn; [constructor|]. by apply Forall_app. Qed.

Lemma Forall_filtered {A} (Q R : A → Prop) `{∀ x, Decision (R x)} l : Forall Q l → Forall Q (filter R l).
Proof. rewrite !Forall_forall. intros HF x [_ Hx]%list_elem_of_filter. by apply HF. Qed.

Lemma normalized_nonempty secrets s : s ∈ normalizedDiagnosticSecrets secrets → s ≠ ""%string.
Proof. unfold normalizedDiagnosticSecrets. rewrite merge_sort_Permutation, elem_of_remove_dups, list_elem_of_filter. naive_solver. Qed.
Lemma normalized_in secrets s : s ∈ secrets → TrimSpace s ≠ ""%string → TrimSpace s ∈ normalizedDiagnosticSecrets secrets.
Proof.
  intros Hs Hn. unfold normalizedDiagnosticSecrets. rewrite merge_sort_Permutation, elem_of_remove_dups, list_elem_of_filter. split; [done|].
  apply list_elem_of_fmap. by exists s.
Qed.

(** In a chain the last of some ranges starts last. *)
Lemma last_starts (Q : diagnosticRedactionRange → Prop) `{∀ r, Decision (Q r)} l m : ∀ o, chained o l → last (filter Q l) = Some m →
  ∀ x, x ∈ filter Q l → (r_start x ≤ r_start m)%nat.
Proof.
  induction l as [|r l IH]; intros o HC HL x Hx; [done|]. destruct HC as [Hr HC]. rewrite filter_cons in HL, Hx.
  destruct (decide (Q r)); [|by eapply IH]. destruct (filter Q l) as [|y l'] eqn:E.
  - injection HL as ->. by apply list_elem_of_singleton in Hx as ->.
  - change (last (y :: l') = Some m) in HL. apply elem_of_cons in Hx as [->|Hx]; [|by eapply IH].
    assert (m ∈ filter Q l) as Hm by (apply last_Some in HL as [k HL]; rewrite E, HL; set_solver).
    apply list_elem_of_filter in Hm as [_ Hm]. pose proof (chained_from _ _ _ HC Hm). lia.
Qed.

Lemma markers_known value : chained 0 (diagnosticMarkerRanges value) ∧
  (∀ m, m ∈ diagnosticMarkerRanges value → ∃ i, m = marker_range i ∧ marker_at value i) ∧
  (∀ i, occurs_at diagnosticRedaction value i = true → marker_range i ∈ diagnosticMarkerRanges value).
Proof. destruct (markers_spec value (S (length value)) 0 ltac:(lia)) as (C & M & A). split; [done|]. split; [done|]. intros i. apply A. lia. Qed.

Lemma inside_marker value start stop : (start < stop)%nat →
  diagnosticRangeInsideMarker start stop (diagnosticMarkerRanges value) = true ↔
  ∃ i, marker_range i ∈ diagnosticMarkerRanges value ∧ (i ≤ start ∧ stop ≤ i + 10)%nat.
Proof.
  intros Hlt. destruct (markers_known value) as (HC & HM & _). unfold diagnosticRangeInsideMarker. split.
  - destruct (last _) as [m|] eqn:EL; [|done]. intros Hs%Nat.leb_le. apply last_Some in EL as [l' EL].
    assert (m ∈ l' ++ [m]) as Hm by set_solver. rewrite <-EL in Hm. apply list_elem_of_filter in Hm as [Hle Hin].
    destruct (HM m Hin) as (i & -> & _). exists i. split; [done|]. cbn in *. lia.
  - intros (i & Hin & Hi). set (l := filter _ _). assert (marker_range i ∈ l) as Hl by (apply list_elem_of_filter; split; [cbn; lia|done]).
    destruct (last l) as [m|] eqn:EL; [|apply last_None in EL; rewrite EL in Hl; by apply elem_of_nil in Hl].
    pose proof (last_starts _ _ _ _ HC EL _ Hl) as Hord. apply last_Some in EL as [l' EL].
    assert (m ∈ l) as Hm by (rewrite EL; set_solver). apply list_elem_of_filter in Hm as [Hle Hmin].
    assert (marker_range i = m) as <-; [|cbn; apply Nat.leb_le; lia].
    eapply chained_disjoint; [exact HC|done|done| |cbn in *; lia]. destruct (HM m Hmin) as (j & -> & _). cbn in *. lia.
Qed.

Section Pass.
Context (P : patterns) `{!PatternLaws P}.

Lemma candidates_placed value secrets : Forall (λ s, s ≠ ""%string) secrets → Forall (placed_in value) (candidates P value secrets).
Proof.
  intros Hs. pose proof (law_placed value) as HL. rewrite !Forall_app in HL. destruct HL as (L1 & L2 & L3 & L4 & L5 & L6 & L7).
  unfold candidates. rewrite !Forall_app. split_and!; try done.
  - apply Forall_concat_map, Forall_filtered. eapply Forall_impl; [exact L1|]. by apply header_placed.
  - apply Forall_concat_map. eapply Forall_impl; [exact L2|]. by apply header_placed.
  - apply Forall_concat_map. eapply Forall_impl; [exact L3|]. by apply json_placed.
  - by apply Forall_filtered.
  - apply Forall_concat_map. eapply Forall_impl; [exact Hs|]. intros s Hn. apply occurrences_placed. by destruct s.
Qed.

Definition pass_ranges (value : list Z) (secrets : list string) : list diagnosticRedactionRange :=
  diagnosticMarkerRanges value ++ ((λ c, mkRange c.1 c.2 false) <$> added P value secrets).

Lemma pass_ranges_sound value secrets : Forall (λ s, s ≠ ""%string) secrets → Forall (sound_range (length value)) (pass_ranges value secrets).
Proof.
  intros Hs. apply Forall_app. destruct (markers_known value) as (_ & HM & _). split.
  - apply Forall_forall. intros m Hm. destruct (HM m Hm) as (i & -> & HI). unfold sound_range. cbn.
    destruct HI as [HI|HI]; apply occurs_bound in HI; cbn in *; (done || lia).
  - apply Forall_fmap, Forall_forall. intros c [[Hlt _] Hc]%list_elem_of_filter. pose proof (candidates_placed value secrets Hs) as HF.
    rewrite Forall_forall in HF. specialize (HF c Hc). unfold placed_in in HF. unfold sound_range. cbn. lia.
Qed.

(** What is rewritten is not a marker already. *)
Lemma rewritten_moves value secrets r : Forall (λ s, s ≠ ""%string) secrets → r ∈ merged_ranges (pass_ranges value secrets) → r_preserve r = false → ¬ stays value r.
Proof.
  intros Hs Hr Hp (i & HO & Hi). destruct (merged_spec _ _ (pass_ranges_sound value secrets Hs)) as (C & _ & S1 & S2).
  destruct (markers_known value) as (_ & HM & HA). specialize (HA i HO).
  destruct (S1 (marker_range i)) as (r' & Hr' & Hcov & _); [by apply elem_of_app; left|]. unfold covers in Hcov. cbn in Hcov.
  pose proof (chained_from _ _ _ C Hr). assert (r = r') as <- by (eapply chained_disjoint; [exact C|done|done|lia|lia]).
  destruct (S2 r Hr Hp) as (x & Hx & Hxc & Hxp). apply elem_of_app in Hx as [Hx|Hx].
  { destruct (HM x Hx) as (k & -> & _). done. }
  apply list_elem_of_fmap in Hx as (c & -> & Hc). apply list_elem_of_filter in Hc as [[Hlt Hin] _]. unfold covers in Hxc. cbn in Hxc.
  assert (diagnosticRangeInsideMarker c.1 c.2 (diagnosticMarkerRanges value) = true); [|congruence].
  apply inside_marker; [done|]. exists i. split; [done|lia].
Qed.

(** A closing quote is never added to a text that ends with one. *)
Lemma close_changes value out : value = out ++ [34] → existsb (json_open value) (p_json P value) = true →
  last out = last value ∨ last out = Some 93 → diagnosticUnterminatedJSONAtEnd P out = true → False.
Proof.
  intros E HX HL HU. unfold diagnosticUnterminatedJSONAtEnd in HU. destruct (last (p_json P out)) as [m'|] eqn:EM; [|done].
  apply andb_true_iff in HU as [HU1%Nat.eqb_eq HU2%negb_true_iff%bool_decide_eq_false]. rewrite HU1 in HU2. clear HU1.
  assert (last value = Some 34) as LV by (rewrite E; apply last_snoc).
  rewrite last_lookup in HL at 1. rewrite (last_lookup out) in HL. replace (Init.Nat.pred (length out)) with (length out - 1)%nat in HL by lia.
  destruct HL as [HL|HL]; [congruence|]. apply existsb_exists in HX as (m & Hm & HX). apply list_elem_of_In in Hm. unfold json_open in HX.
  destruct (json_start value m) as [s|] eqn:ES; [|done]. apply andb_true_iff in HX as [HC%negb_true_iff Hend%Nat.eqb_eq].
  pose proof (law_placed value) as HP. rewrite !Forall_app in HP. destruct HP as (_ & _ & HP & _). rewrite Forall_forall in HP.
  pose proof (json_placed value m (HP m Hm)) as HJ. unfold json_value in HJ. rewrite ES, HC in HJ. apply Forall_cons in HJ as [HJ _]. unfold placed_in in HJ. cbn in HJ.
  assert (s = m.2) as ->.
  { unfold json_closed in HC. destruct (Nat.ltb_spec s m.2); [|lia]. cbn in HC. apply bool_decide_eq_false in HC. exfalso. apply HC.
    rewrite Hend, <-LV, last_lookup. f_equal. lia. }
  apply (law_quote value m Hm ES). rewrite Hend, E, length_app. cbn [length]. apply lookup_lt_Some in HL as Hl.
  replace (length out + 1 - 2)%nat with (length out - 1)%nat by lia. by rewrite lookup_app_l.
Qed.

(** A pass that changes nothing has found nothing to redact. *)
Lemma pass_fixed value secrets : Forall (λ s, s ≠ ""%string) secrets → redactDiagnosticPass P value secrets = value → added P value secrets = [].
Proof.
  intros Hs. unfold redactDiagnosticPass. fold (pass_ranges value secrets). intros HE.
  destruct (added P value secrets) as [|c l] eqn:EA; [done|exfalso]. cbn [bool_decide andb] in HE. rewrite bool_decide_eq_false_2 in HE by done. cbn [andb] in HE.
  destruct (merged_spec _ _ (pass_ranges_sound value secrets Hs)) as (C & B & S1 & _).
  set (out := applyDiagnosticRedactionRanges value (pass_ranges value secrets)) in *.
  assert (∀ tail, out ++ tail = value → (0 < length tail)%nat) as HT.
  { intros tail HT. apply (rewrite_shift value tail (merged_ranges (pass_ranges value secrets)) 0 [] 0); [done|done|lia|done|done| |].
    - intros r Hr. by eapply rewritten_moves.
    - left. destruct (S1 (mkRange c.1 c.2 false)) as (r & Hr & _ & Hp).
      { apply elem_of_app. right. rewrite EA. left. }
      apply Exists_exists. exists r. split; [done|by apply Hp]. }
  destruct (existsb _ _) eqn:EC; cbn [andb] in HE.
  - destruct (diagnosticUnterminatedJSONAtEnd P out) eqn:EU; [|specialize (HT []); rewrite app_nil_r in HT; specialize (HT HE); cbn in HT; lia].
    eapply close_changes; [symmetry; exact HE|done| |done]. destruct (rewrite_last value _ 0 C B) as [HL|HL]; [left|right]; done.
  - specialize (HT []). rewrite app_nil_r in HT. specialize (HT HE). cbn in HT. lia.
Qed.
End Pass.

(** ** The result *)

Lemma passes_end P n value secrets : let r := passes P n value secrets in r = diagnosticRedaction ∨ redactDiagnosticPass P r secrets = r.
Proof.
  revert value. induction n as [|n IH]; intros value; cbn [passes]; [by left|]. case_bool_decide as E; [|apply IH]. right. by rewrite !E.
Qed.

Lemma slice_bytes (Q : Z → Prop) value a b : Forall Q value → Forall Q (slice value a b).
Proof. intros H. by apply Forall_take, Forall_drop. Qed.
Lemma rewrite_bytes (Q : Z → Prop) value merged : Forall Q diagnosticRedaction → Forall Q value → ∀ offset, Forall Q (rewrite_ranges value offset merged).
Proof.
  intros HR HV. induction merged as [|r merged IH]; intros offset; cbn [rewrite_ranges]; [by apply Forall_drop|].
  rewrite !Forall_app. split_and!; [by apply slice_bytes| |apply IH]. destruct (r_preserve r); [by apply slice_bytes|done].
Qed.
Lemma passes_bytes P n secrets : ∀ value, Forall (λ b, is_byte b = true) value → Forall (λ b, is_byte b = true) (passes P n value secrets).
Proof.
  pose proof (to_bytes_range "[redacted]") as HR. induction n as [|n IH]; intros value HV; cbn [passes]; [done|].
  assert (Forall (λ b, is_byte b = true) (redactDiagnosticPass P value secrets)) as HX.
  { unfold redactDiagnosticPass. destruct (_ && _); [done|]. destruct (_ && _).
    - apply Forall_app. split; [by apply rewrite_bytes|]. by repeat constructor.
    - by apply rewrite_bytes. }
  case_bool_decide; [done|]. by apply IH.
Qed.
Lemma redacted_bytes P value secrets :
  to_bytes (RedactDiagnosticSecrets P value secrets) = passes P maxDiagnosticRedactionPasses (to_bytes value) (normalizedDiagnosticSecrets secrets).
Proof. apply to_of_bytes, passes_bytes, to_bytes_range. Qed.

(** In a marker on its own everything is inside it. *)
Lemma marker_alone P `{!PatternLaws P} secrets : Forall (λ s, s ≠ ""%string) secrets → added P diagnosticRedaction secrets = [].
Proof.
  intros Hs. destruct (added P diagnosticRedaction secrets) as [|c l] eqn:E; [done|exfalso].
  assert (c ∈ added P diagnosticRedaction secrets) as Hc by (rewrite E; by left). apply list_elem_of_filter in Hc as [[Hlt Hin] Hc].
  pose proof (candidates_placed P diagnosticRedaction secrets Hs) as HF. rewrite Forall_forall in HF. specialize (HF c Hc). unfold placed_in in HF. cbn in HF.
  assert (diagnosticRangeInsideMarker c.1 c.2 (diagnosticMarkerRanges diagnosticRedaction) = true); [|congruence].
  apply inside_marker; [done|]. exists 0%nat. split; [|lia]. by apply markers_known.
Qed.
Lemma result_clean P `{!PatternLaws P} value secrets :
  added P (to_bytes (RedactDiagnosticSecrets P value secrets)) (normalizedDiagnosticSecrets secrets) = [].
Proof.
  assert (Forall (λ s, s ≠ ""%string) (normalizedDiagnosticSecrets secrets)) as Hs by (apply Forall_forall, normalized_nonempty).
  rewrite redacted_bytes. pose proof (passes_end P maxDiagnosticRedactionPasses (to_bytes value) (normalizedDiagnosticSecrets secrets)) as H.
  cbn zeta in H. destruct H as [->|H]; [by apply marker_alone|by apply pass_fixed].
Qed.
Lemma clean_inside P `{!PatternLaws P} value secrets c : added P value secrets = [] → c ∈ candidates P value secrets → (c.1 < c.2)%nat →
  ∃ j, marker_at value j ∧ (j ≤ c.1 ∧ c.2 ≤ j + 10)%nat.
Proof.
  intros HA Hc Hlt. destruct (diagnosticRangeInsideMarker c.1 c.2 (diagnosticMarkerRanges value)) eqn:E.
  - apply inside_marker in E as (j & Hj & Hi); [|done]. destruct (markers_known value) as (_ & HM & _). destruct (HM _ Hj) as (k & [= ->] & HK). by exists k.
  - assert (c ∈ added P value secrets) as Hin by (by apply list_elem_of_filter). rewrite HA in Hin. by apply elem_of_nil in Hin.
Qed.
Lemma occurrence_candidate P value secrets s i : s ∈ secrets → s ≠ ""%string → occurs_at (to_bytes s) value i = true →
  (i, (i + length (to_bytes s))%nat) ∈ candidates P value secrets.
Proof.
  intros Hs Hn HO. unfold candidates. rewrite !elem_of_app. do 7 right. apply list_elem_of_In, in_concat.
  exists (occurrences (to_bytes s) value 0 (length value)). split; [apply in_map_iff; exists s; split; [done|by apply list_elem_of_In]|].
  apply list_elem_of_In, occurrences_all; [by destruct s|lia|lia|done].
Qed.

(** Passes that end well end the same again; so does a marker. *)
Lemma passes_again P `{!PatternLaws P} n k value secrets : Forall (λ s, s ≠ ""%string) secrets → k ≠ 0%nat →
  let r := passes P n value secrets in passes P k r secrets = r.
Proof.
  intros Hs Hk r. destruct k as [|k]; [done|]. clear Hk. assert (redactDiagnosticPass P r secrets = r) as E; [|cbn [passes]; by rewrite E, bool_decide_eq_true_2].
  destruct (passes_end P n value secrets) as [H|H]; [|exact H]. fold r in H. rewrite H. unfold redactDiagnosticPass. rewrite marker_alone by done.
  rewrite bool_decide_eq_true_2 by done. destruct (existsb _ _) eqn:EX; [exfalso|done]. apply existsb_exists in EX as (m & _ & EX).
  unfold json_open, json_start in EX. destruct (index_any [58] diagnosticRedaction m.1 m.2) as [s|] eqn:EI; [|done].
  unfold index_any in EI. destruct (list_find _ _) as [[q x]|] eqn:EF; [|done]. apply list_find_Some in EF as (Hk & Hx & _).
  assert (Forall (λ b, b ≠ 58) (slice diagnosticRedaction m.1 m.2)) as HF by (apply slice_bytes; by repeat constructor).
  rewrite Forall_lookup in HF. apply (HF _ _ Hk). by apply list_elem_of_singleton in Hx.
Qed.

Lemma redaction_again P `{!PatternLaws P} value secrets :
  RedactDiagnosticSecrets P (RedactDiagnosticSecrets P value secrets) secrets = RedactDiagnosticSecrets P value secrets.
Proof.
  unfold RedactDiagnosticSecrets at 1. rewrite redacted_bytes. rewrite passes_again; [done|done|apply Forall_forall, normalized_nonempty|done].
Qed.
